(* ===== verification/_CoqProject ===== *)
-Q . S2P
Prelude.v
Foundation.v
Wire.v
StateMachine.v
Queue.v
Match.v
Logging.v
LogDelivery.v
Arguments.v
Command.v
CommandLine.v
Scheduler.v
SchedulerInv.v
SchedulerLife.v
SchedulerDispatch.v
SchedulerExample.v
Flash.v
Codec.v
Journal.v
JournalScan.v
JournalCrash.v
JournalCommit.v
HostFlash.v
JournalExample.v
Control.v
ControlExample.v
Otp.v
OtpStore.v
OtpFlash.v
OtpFlashProof.v
OtpExample.v
Package.v
PackageStream.v
Writer.v
WriterProof.v
Engine.v
EngineSafe.v
EngineInv.v
EngineRun.v
EngineOwner.v
Protocol.v
ProtocolFrames.v
UpdateExample.v
FileUpdate.v
FileInstall.v
FileInstalled.v
Fault.v
Watchdog.v
Confirmation.v
Health.v
Console.v
Output.v
HalBase.v
Spi.v
I2c.v
HalAction.v
HalController.v
HalSafe.v
HalRun.v
HalExample.v
Registry.v
BusClear.v
SdProtocol.v
SdInitializer.v
SdTransport.v
SdSession.v
Volume.v
VolumeLease.v
FileTransfer.v
Upload.v
StorageModule.v
StorageLease.v
StorageRun.v
