(* ===== verification/Prelude.v ===== *)
(** * Verification of DaveOS

    DaveOS is a cooperative real-time kernel in C++20 with the services an
    embedded product needs around it: a crash-safe boot journal and boot
    policy, field updates, one-time-programmable records, watchdog supervision,
    retained fault records, a console, and a bus framework.  This library
    models that code as Rocq functions and proves what the services promise.
    File and function names below are those under src/.

    ** How the code is modelled

    - A class is a [Record] of its members, an operation a function on it that
      returns the results and the new object.  Names are the source's.
    - A [uint32_t] or [uint64_t] is a [Z]; where the code can wrap the model
      applies [u32] or [u64] (this file).  Fixed arrays are lists of their
      length, [memcpy] is [blit], [subspan] is [sub].
    - Code that is not in the repository, or that the code reaches through a
      function pointer or a template parameter (flash drivers, timers, bus
      backends, application callbacks, operating-system calls), is a parameter.
      What the code relies on is a class or a named hypothesis stating the
      documented contract, and each is shown satisfiable by a witness.
    - State machines use one model of [core::StateMachine] (StateMachine.v): a
      derived class is a record of hooks on the object that contains it.
    - Interrupts and critical sections: an operation under a [Guard] is one
      function; interleavings are sequences of operations.
    - Loops are structural where the code's are bounded by an array or a
      counter.  Fuel appears where the bound is arithmetic: [verify_fuel] in
      Control.v (one round per 256 bytes of image), the sector loops of
      Journal.v (one round per record of a sector), [commit] of Journal.v
      (the deadline; [commit_terminates] shows that it is reached), the
      system-call loops of HostFlash.v (length of the outcome list).  The
      theorems that a result is produced hold at that fuel.

    ** Files

    - Prelude.v: machine integers, record update, arrays, tactics.
      Foundation.v: [core::Status], [core::Time], [After], [to_microseconds].
      Wire.v: util/wire.h, util/crc32.h.  StateMachine.v:
      core/state_machine.  Queue.v: core/queue.  Match.v: core/command/match.
      Logging.v: core/logging (the logger and the formats); LogDelivery.v: its
      histories, with the two locked regions of a writer as separate steps.
      Arguments.v: core/command/arguments.hpp.  Command.v:
      core/command/command.hpp, source.hpp and binding.hpp; CommandLine.v: the
      grammar of lines and names, and which line runs which handler.
    - Scheduler.v models core/schedule/scheduler.hpp: registration,
      initialization, the dispatch loop, yields with nested dispatch, events,
      timers and their interrupt.  Application code is an arbitrary terminating
      program over the scheduler's calls.  SchedulerInv.v, SchedulerLife.v and
      SchedulerDispatch.v prove the invariant, the lifecycle and the dispatch
      order; SchedulerExample.v evaluates runs.
    - Flash.v: boot/flash.h, and the device contract as the class
      [FlashContract] with torn operations.  Codec.v: the journal record of
      boot/journal.cpp.  Journal.v: the journal itself; JournalScan.v (load),
      JournalCrash.v (one operation and power loss), JournalCommit.v (commit,
      prepare_runtime).  HostFlash.v: platform/host/flash.cpp, which implements
      the contract and is the device of the witnesses (JournalExample.v).
      Control.v: boot/control.cpp over an abstract snapshot store that the
      journal implements; ControlExample.v.
    - Otp.v, OtpStore.v, OtpFlash.v, OtpFlashProof.v, OtpExample.v: otp/record,
      otp/store, otp/flash.
    - Package.v, PackageStream.v: update/package.  Writer.v, WriterProof.v:
      update/writer.  Engine.v, EngineSafe.v, EngineInv.v, EngineRun.v:
      update/engine.  Protocol.v, ProtocolFrames.v: update/protocol.
      UpdateExample.v runs a whole update on the file-backed device.
      EngineOwner.v: what the holder of the engine's reservation may rely on.
      FileUpdate.v: update/file over the hooks of storage/read_file.h;
      FileInstall.v proves it against an abstract contract of the engine
      ([engine_contract]), FileInstalled.v discharges the contract and joins the
      two.
    - Fault.v: util/fault.  Watchdog.v, Confirmation.v, Health.v: watchdog/.
      Console.v, Output.v: console/input.hpp, console/output.hpp.
    - HalBase.v, Spi.v, I2c.v, HalAction.v: hal/transaction.hpp,
      hal/spi/action.hpp, hal/i2c/action.hpp, hal/detail (descriptors,
      validation, deadlines, counters).  HalController.v: hal/controller.hpp,
      one bus with its interrupts and alarms over an arbitrary backend;
      HalSafe.v and HalRun.v state the contract between controller, backend and
      client as an automaton on the events and prove it kept over every
      history; HalExample.v runs a transaction.  Registry.v: hal/registry.hpp.
      BusClear.v: hal/i2c/bus_clear.h.
    - SdProtocol.v, SdInitializer.v, SdTransport.v, SdSession.v:
      storage/sd/protocol.h, read.h, initializer.h, transport.h, session.h.  The
      memory of the buffers, the SPI device and the pump are the record [Host]
      with the laws [host_laws]; [limit] bounds the runs of the pump while a
      transaction is pending, and the law that a transaction completes within
      it stands for the transaction's timeout.
    - Volume.v: storage/volume.cpp over FatFs as the record [FatFs] of its
      calls, and the bridge from FatFs to block devices.  VolumeLease.v: the
      invariant of a volume.  FileTransfer.v: storage/transfer.cpp.  Upload.v:
      what an upload leaves on the disk, with the laws [fat_laws] of the calls
      of FatFs that succeed.  StorageModule.v: storage/module.hpp, the
      file-system commands, the worker and the leases.  StorageLease.v: the
      module, a transfer and a reader on one volume, over every history; it
      discharges what Upload.v assumes of the environment.  StorageRun.v: the
      requests of the worker end ([runs] counts the runs left, 4100 at most).

    ** What the theorems show

    - Boot metadata: the codec is lossless; a commit cut at any moment leaves
      the old or the new snapshot; a commit that reports ok is the newest; load
      finds the newest; the boot policy starts only verified images; an
      image left on trial is recorded as rejected by the next boot and never
      started again over any number of boots; confirmation is durable.
    - Updates: however a package is cut, the reader delivers the image for the
      destination and stays in bounds; the writer changes nothing but the slot;
      over any calls and a power cut at any moment the running image is safe;
      [done] means installed as announced; every request gets its reply; a file
      update that ends in [done] has validated the whole file and installed it,
      and uses the file system only as its contract allows.
    - Scheduler: the invariant over all reachable states, initialization order,
      earliest-first dispatch, cadence of repeating tasks, bounded nesting,
      timers as a map, no deadline slept over.
    - Supervision: the hardware watchdog is fed only after passed checks, a
      failure is final; an image is confirmed exactly after an uninterrupted
      supervised interval; the progress check fails exactly on an overdue task;
      fault records are read back, and wherever a reset tears the stores of a
      save the record is the old one, the new one or recognised as broken.
    - Console: typed lines arrive once and as edited; the display row is the
      unfinished line; output transfers are whole frames in order.
    - Buses: over any order of submissions, interrupts and timers a controller
      keeps the hardware's contract and gives every request one result; an
      outstanding request has its alarm armed and completes; submissions are
      accepted or refused as specified; bus initialization is all or nothing;
      a bus clear drives a legal waveform and ends.
    - SD cards: responses are accepted exactly when well formed; a card is
      initialized only by the whole command sequence, which ends whatever the
      card answers; what block reads deliver and what writes
      send is stated on the wire: the command's frame, the response, the token,
      the 512 bytes and their CRC-16, sector by sector ([block_answer],
      [command_frame]); the capacity of a ready card comes from the CSD of its
      last probe; a leased card is never reprobed.
    - Commands: an integer is accepted exactly when it is a numeral in range; a
      handler gets values of its declared types and bounds; lines are cut into
      their arguments exactly; a line runs at most one handler, the one its
      words name, and a malformed or oversized line runs none.
    - Files: a device is reserved exactly while its volume is mounted, and
      written only when it is mounted for writing; an upload reported as
      successful is complete and has the announced checksum, any other leaves
      no file; commands, transfers and readers exclude each other; every
      accepted command ends.
    - Logging: over every interleaving each subscriber sees the stored records
      once and in order; averages are exact; line prefixes fit their storage.
    - Libraries: queue as FIFO, abbreviation matching, CRC-32 error detection,
      exact time conversion, OTP records (an accepted serial number lies in a
      locked block of the device); a tick of a state machine makes exactly the
      hook calls of the abstract transition, in order.

    ** Not modelled

    Register-level code under platform/stm32, start-up code and the boot
    loaders (memory-mapped I/O), generated configuration headers, networking
    (glue over lwIP, not in the repository), the template machinery that turns
    members into task and command tables (compile-time code without state), the scheduler modules that wrap the modelled services (the health and
    file-system modules are modelled), drivers of displays and converters,
    examples and tests. *)

From stdpp Require Export base list numbers decidable sets.
From Stdlib Require Export ZArith Lia Bool.

#[global] Open Scope Z_scope.

(** ** Machine integers

    A [w]-bit unsigned value is a [Z]; every place where the C++ code can wrap
    applies one of the functions below. *)

Definition u8 (x : Z) : Z := x mod 2 ^ 8.
Definition u16 (x : Z) : Z := x mod 2 ^ 16.
Definition u32 (x : Z) : Z := x mod 2 ^ 32.
Definition u64 (x : Z) : Z := x mod 2 ^ 64.

Definition UINT32_MAX : Z := 2 ^ 32 - 1.
Definition UINT64_MAX : Z := 2 ^ 64 - 1.

(** C's [~] on a [uint32_t]. *)
Definition not32 (x : Z) : Z := Z.lxor x UINT32_MAX.

Definition is_byte (b : Z) : Prop := 0 <= b < 2 ^ 8.
Definition is_u16 (x : Z) : Prop := 0 <= x < 2 ^ 16.
Definition is_u32 (x : Z) : Prop := 0 <= x < 2 ^ 32.
Definition is_u64 (x : Z) : Prop := 0 <= x < 2 ^ 64.
Abbreviation bytes_ok := (Forall is_byte).

Definition byte_ff : Z := 255.

Lemma u8_range x : is_byte (u8 x).
Proof. unfold is_byte, u8. apply Z.mod_pos_bound. lia. Qed.
Lemma u32_range x : is_u32 (u32 x).
Proof. unfold is_u32, u32. apply Z.mod_pos_bound. lia. Qed.
Lemma u64_range x : is_u64 (u64 x).
Proof. unfold is_u64, u64. apply Z.mod_pos_bound. lia. Qed.
Lemma u8_small x : is_byte x -> u8 x = x.
Proof. intros H. apply Z.mod_small. exact H. Qed.
Lemma u32_small x : is_u32 x -> u32 x = x.
Proof. intros H. apply Z.mod_small. exact H. Qed.
Lemma u64_small x : is_u64 x -> u64 x = x.
Proof. intros H. apply Z.mod_small. exact H. Qed.

#[global] Instance is_byte_dec b : Decision (is_byte b).
Proof. unfold is_byte. apply _. Defined.

(** ** Hint databases of the development

    [wf] proves range and length side conditions, [field] rewrites reads of
    freshly written array fields. *)

Create HintDb wf discriminated.
Create Rewrite HintDb field.

#[export] Hint Resolve u8_range u32_range u64_range : wf.

(** ** Functional record update

    [r <| f := v |>] is the record [r] with field [f] replaced, as in a C++
    member assignment.  Each record declares its eta expansion once. *)

Class RecordEta (R : Type) := record_eta : R -> R.
Class FieldUpdate {R T : Type} (p : R -> T) := field_update : (T -> T) -> R -> R.

Arguments field_update {R T} p {FieldUpdate} _ _ : assert.

Ltac derive_field_update :=
  lazymatch goal with
  | |- @FieldUpdate ?R ?T ?p =>
      let i := constr:(_ : RecordEta R) in
      let e := eval hnf in i in
      lazymatch eval pattern p in e with
      | ?g _ => exact (fun (f : T -> T) (r : R) => g (fun r' : R => f (p r')) r)
      end
  end.
#[export] Hint Extern 0 (FieldUpdate _) => derive_field_update : typeclass_instances.

Notation "r <| p := v |>" := (field_update p (fun _ => v) r)
  (at level 1, left associativity, p at level 9, v at level 200,
   format "r  <| p  :=  v |>").

(** ** Tactics *)

(** Case analysis on the innermost boolean test or match of the goal. *)
Ltac split_match :=
  match goal with
  | |- context [match ?x with _ => _ end] =>
      lazymatch x with context [match _ with _ => _ end] => fail | _ => destruct x eqn:? end
  end.
Ltac split_match_in H :=
  match type of H with
  | context [match ?x with _ => _ end] =>
      lazymatch x with context [match _ with _ => _ end] => fail | _ => destruct x eqn:? end
  end.

(** Turn boolean connectives in the context into propositions. *)
Ltac breflect :=
  repeat match goal with
  | H : _ && _ = true |- _ => apply andb_true_iff in H; destruct H
  | H : _ || _ = false |- _ => apply orb_false_iff in H; destruct H
  | H : negb _ = true |- _ => apply negb_true_iff in H
  | H : negb _ = false |- _ => apply negb_false_iff in H
  | H : (_ =? _) = true |- _ => apply Z.eqb_eq in H
  | H : (_ =? _) = false |- _ => apply Z.eqb_neq in H
  end.

(** ** Byte arrays

    A fixed array is a list of its length.  [sub l at n] is
    [span(l).subspan(at, n)], [blit at k l] is [memcpy(l + at, k, |k|)]. *)

Definition sub {A} (l : list A) (at_ n : nat) : list A := take n (drop at_ l).
Definition blit {A} (at_ : nat) (k l : list A) : list A := list_inserts at_ k l.

#[global] Arguments replicate : simpl never.
#[global] Arguments sub : simpl never.
#[global] Arguments blit : simpl never.

(** [std::all_of] over a range of bytes equal to [v]. *)
Definition all_eq (v : Z) (l : list Z) : bool := forallb (Z.eqb v) l.

Section arrays.
Context {A : Type}.
Implicit Types l k : list A.

Lemma length_blit i k l : length (blit i k l) = length l.
Proof. apply length_inserts. Qed.

Lemma length_sub l i n : (i + n <= length l)%nat -> length (sub l i n) = n.
Proof. intros. unfold sub. rewrite length_take, length_drop. lia. Qed.

Lemma lookup_sub l i n j : (j < n)%nat -> sub l i n !! j = l !! (i + j)%nat.
Proof. intros. unfold sub. rewrite lookup_take_lt, lookup_drop by lia. done. Qed.

Lemma lookup_sub_ge l i n j : (n <= j)%nat -> sub l i n !! j = None.
Proof. intros. unfold sub. rewrite lookup_take_ge by lia. done. Qed.

Lemma lookup_blit_in i k l j :
  (i <= j < i + length k)%nat -> (j < length l)%nat -> blit i k l !! j = k !! (j - i)%nat.
Proof. intros. unfold blit. apply list_lookup_inserts; lia. Qed.

Lemma lookup_blit_out i k l j :
  (j < i \/ i + length k <= j)%nat -> blit i k l !! j = l !! j.
Proof.
  intros []; unfold blit.
  - by apply list_lookup_inserts_lt.
  - by apply list_lookup_inserts_ge.
Qed.

Lemma sub_ext l l' i n :
  (forall j, (i <= j < i + n)%nat -> l !! j = l' !! j) -> sub l i n = sub l' i n.
Proof.
  intros H. apply list_eq. intros j.
  destruct (decide (j < n)%nat).
  - rewrite !lookup_sub by done. apply H. lia.
  - rewrite !lookup_sub_ge by lia. done.
Qed.

Lemma sub_blit_same i k l n :
  n = length k -> (i + n <= length l)%nat -> sub (blit i k l) i n = k.
Proof.
  intros -> Hlen. apply list_eq. intros j.
  destruct (decide (j < length k)%nat).
  - rewrite lookup_sub by done. rewrite lookup_blit_in by lia. f_equal. lia.
  - rewrite lookup_sub_ge by lia. symmetry. apply lookup_ge_None. lia.
Qed.

Lemma sub_blit_other i k l at_ n :
  (at_ + n <= i \/ i + length k <= at_)%nat -> sub (blit i k l) at_ n = sub l at_ n.
Proof. intros H. apply sub_ext. intros j Hj. apply lookup_blit_out. lia. Qed.

Lemma sub_full l : sub l 0 (length l) = l.
Proof. unfold sub. rewrite drop_0. by apply firstn_all. Qed.

Lemma sub_app l i n m : sub l i (n + m) = sub l i n ++ sub l (i + n) m.
Proof. unfold sub. rewrite <- drop_drop. by rewrite take_take_drop. Qed.

Lemma sub_sub l i n j m : (j + m <= n)%nat -> sub (sub l i n) j m = sub l (i + j) m.
Proof.
  intros H. apply list_eq. intros x. destruct (decide (x < m)%nat).
  - rewrite !lookup_sub by lia. f_equal. lia.
  - rewrite !lookup_sub_ge by lia. done.
Qed.

Lemma Forall_sub (P : A -> Prop) l i n : Forall P l -> Forall P (sub l i n).
Proof. intros. unfold sub. by apply Forall_take, Forall_drop. Qed.

Lemma Forall_blit (P : A -> Prop) i k l : Forall P k -> Forall P l -> Forall P (blit i k l).
Proof.
  unfold blit. intros Hk Hl. revert i. induction Hk as [|x k Hx Hk IH]; intros i; simpl; [done|].
  apply Forall_insert; [apply IH|done].
Qed.
End arrays.

#[export] Hint Rewrite @length_blit : field.
#[export] Hint Resolve Forall_sub Forall_blit : wf.

Lemma all_eq_spec v l : all_eq v l = true <-> Forall (eq v) l.
Proof.
  unfold all_eq. induction l as [|x l IH]; simpl; [done|].
  rewrite andb_true_iff, IH, Z.eqb_eq, List.Forall_cons_iff. done.
Qed.

Lemma all_eq_replicate v l : all_eq v l = true <-> l = replicate (length l) v.
Proof.
  rewrite all_eq_spec. split.
  - induction 1; [done|]. cbn [length]. rewrite replicate_S. congruence.
  - intros ->. apply Forall_replicate. done.
Qed.
