(* ===== verification/Foundation.v ===== *)
(** * Value types shared by the kernel, the services and the drivers

    [core::Status], [core::Time] and the two pieces of time arithmetic that the
    whole system relies on: [After] (platform.hpp), the saturating deadline
    addition, and [to_microseconds] (duration.hpp), the exact conversion from a
    [std::chrono] duration. *)

From Stdlib Require Import Znumtheory.
From S2P Require Import Prelude.

(** The results every operation of the system reports (DAVEOS_STATUS_VALUES).
    The constructors live in a module of their own, so that they read as
    [Status.ok] and do not hide other names. *)
Module Status.
Inductive Status : Set :=
  | ok | not_running | already_initialized | already_run | initialization_failed
  | invalid_argument | not_found | full | empty | busy | duplicate_name | truncated
  | parse_error | ambiguous_match | line_too_long | too_many_arguments | unsupported
  | health_failed | io_error | timeout | checksum_error | incompatible
  | not_confirmed | rejected | counter_exhausted | invalid_context | depth_limit.
End Status.
Abbreviation Status := Status.Status.

#[global] Instance Status_eq_dec : EqDecision Status.
Proof. solve_decision. Defined.

(** [a == b] on statuses, as the code writes it. *)
Definition st_eqb (a b : Status) : bool := bool_decide (a = b).
Notation "a =s? b" := (st_eqb a b) (at level 70, no associativity).

Lemma st_eqb_eq a b : (a =s? b) = true <-> a = b.
Proof. unfold st_eqb. rewrite bool_decide_eq_true. done. Qed.
Lemma st_eqb_neq a b : (a =s? b) = false <-> a <> b.
Proof. unfold st_eqb. rewrite bool_decide_eq_false. done. Qed.
Lemma st_eqb_refl a : (a =s? a) = true.
Proof. by apply st_eqb_eq. Qed.

(** Numeric value of an enumerator, for the places that put a status on the wire. *)
Definition status_code (s : Status) : Z :=
  match s with
  | Status.ok => 0 | Status.not_running => 1 | Status.already_initialized => 2
  | Status.already_run => 3 | Status.initialization_failed => 4
  | Status.invalid_argument => 5 | Status.not_found => 6 | Status.full => 7
  | Status.empty => 8 | Status.busy => 9 | Status.duplicate_name => 10
  | Status.truncated => 11 | Status.parse_error => 12 | Status.ambiguous_match => 13
  | Status.line_too_long => 14 | Status.too_many_arguments => 15
  | Status.unsupported => 16 | Status.health_failed => 17 | Status.io_error => 18
  | Status.timeout => 19 | Status.checksum_error => 20 | Status.incompatible => 21
  | Status.not_confirmed => 22 | Status.rejected => 23 | Status.counter_exhausted => 24
  | Status.invalid_context => 25 | Status.depth_limit => 26
  end.

(** Monotonic microseconds ([std::uint64_t]) and the no-deadline sentinel. *)
Abbreviation Time := Z.
Definition kForever : Time := UINT64_MAX.

(** [After]: saturating deadline addition that never yields the sentinel. *)
Definition After (now delay : Time) : Time :=
  if delay >=? kForever - now then kForever - 1 else u64 (now + delay).

(** [to_microseconds] for a duration of [count] periods of [num/den] seconds.
    [signed_rep] tells whether the representation type is signed, [result] is
    the output parameter. *)
Definition to_microseconds (signed_rep : bool) (count num den : Z) (result : Time)
  : Status * Time :=
  if signed_rep && (count <? 0) then (Status.invalid_argument, result)
  else
    let common := Z.gcd den 1000000 in
    let divisor := den / common in
    let multiplier := 1000000 / common in
    let count := u64 count in
    if negb (count mod divisor =? 0) || (count / divisor >? (kForever - 1) / num)
    then (Status.invalid_argument, result)
    else
      let scaled := u64 (count / divisor * num) in
      if scaled >? (kForever - 1) / multiplier then (Status.invalid_argument, result)
      else (Status.ok, u64 (scaled * multiplier)).

(** ** Saturating deadlines *)

Lemma After_exact now delay :
  is_u64 now -> is_u64 delay -> now + delay < kForever -> After now delay = now + delay.
Proof.
  unfold After, is_u64, kForever, UINT64_MAX. intros.
  destruct (Z.geb_spec delay (2 ^ 64 - 1 - now)); [lia|].
  apply u64_small. unfold is_u64. lia.
Qed.

Lemma After_min now delay :
  is_u64 now -> is_u64 delay -> now < kForever ->
  After now delay = Z.min (now + delay) (kForever - 1).
Proof.
  intros. destruct (Z.lt_ge_cases (now + delay) kForever).
  - rewrite After_exact by done. lia.
  - unfold After. destruct (Z.geb_spec delay (kForever - now)); lia.
Qed.

(** ** Exact conversion of durations *)

Section duration.
Context (num den : Z) (Hnum : 0 < num) (Hden : 0 < den).

Let common := Z.gcd den 1000000.
Let divisor := den / common.
Let multiplier := 1000000 / common.

Lemma duration_common : 0 < common.
Proof.
  pose proof (Z.gcd_nonneg den 1000000).
  assert (common <> 0) by (intros E; apply Z.gcd_eq_0_l in E; lia).
  unfold common in *. lia.
Qed.

Lemma duration_den : den = common * divisor.
Proof. apply Z_div_exact_full_2; [pose proof duration_common; lia|].
  apply Z.mod0_divide, Z.gcd_divide_l. Qed.

Lemma duration_million : 1000000 = common * multiplier.
Proof. apply Z_div_exact_full_2; [pose proof duration_common; lia|].
  apply Z.mod0_divide, Z.gcd_divide_r. Qed.

Lemma duration_divisor_pos : 0 < divisor.
Proof. pose proof duration_common. pose proof duration_den. nia. Qed.

Lemma duration_multiplier_pos : 0 < multiplier.
Proof. pose proof duration_common. pose proof duration_million. nia. Qed.

Lemma duration_coprime : Z.gcd divisor multiplier = 1.
Proof. apply Z.gcd_div_gcd; [pose proof duration_common; lia|done]. Qed.

(** When the scaled count is exact, the ratio cancels to the reduced one. *)
Lemma duration_cancel c v :
  v * den = c * num * 1000000 <-> v * divisor = c * num * multiplier.
Proof.
  pose proof duration_common. rewrite duration_den, duration_million at 1. nia.
Qed.

Lemma duration_divides c v :
  Z.gcd num den = 1 -> v * divisor = c * num * multiplier -> (divisor | c).
Proof.
  intros Hred Hv.
  assert (Hd : (divisor | num * (multiplier * c))) by (exists v; lia).
  apply Z.gauss in Hd.
  - apply Z.gauss in Hd; [done|apply duration_coprime].
  - apply Z.bezout_1_gcd. destruct (Z.gcd_bezout _ _ _ Hred) as (x & y & E).
    exists (y * common), x. rewrite duration_den in E at 1. lia.
Qed.
End duration.

(** A duration that a microsecond count below the sentinel represents exactly. *)
Definition exact_microseconds (count num den v : Z) : Prop :=
  0 <= count /\ v * den = count * num * 1000000 /\ v < kForever.

(** [to_microseconds] accepts a duration exactly when it is a non-negative
    whole number of microseconds below the sentinel [kForever]; the result is
    then exact (no rounding, no wrap-around), and otherwise the status is
    [invalid_argument] and the output parameter is left untouched. *)
Theorem to_microseconds_exact (signed_rep : bool) count num den result :
  0 < num -> 0 < den -> Z.gcd num den = 1 ->
  (if signed_rep then - 2 ^ 63 <= count < 2 ^ 63 else is_u64 count) ->
  match to_microseconds signed_rep count num den result with
  | (Status.ok, r) => exact_microseconds count num den r
  | (st, r) => st = Status.invalid_argument /\ r = result /\
               forall v, ~ exact_microseconds count num den v
  end.
Proof.
  intros Hnum Hden Hred Hcount. unfold exact_microseconds.
  pose proof (duration_divisor_pos den Hden) as Hd.
  pose proof (duration_multiplier_pos den Hden) as Hm.
  pose proof (duration_cancel num den Hden count) as Hcancel.
  pose proof (fun v => duration_divides num den Hden count v Hred) as Hdvd.
  unfold to_microseconds.
  set (d := den / Z.gcd den 1000000) in *. set (m := 1000000 / Z.gcd den 1000000) in *.
  destruct (signed_rep && (count <? 0)) eqn:Hneg.
  { breflect. split_and!; [done..|]. intros v (? & _). lia. }
  assert (H0 : is_u64 count) by (unfold is_u64 in *; destruct signed_rep; simpl in Hneg; lia).
  rewrite (u64_small count H0). unfold is_u64 in H0.
  assert (HF : 0 < kForever - 1 < 2 ^ 64 - 1) by (unfold kForever, UINT64_MAX; lia).
  destruct (negb _ || _) eqn:Htest1.
  { split_and!; [done..|]. intros v (_ & Hv & Hr). apply Hcancel in Hv.
    destruct (Hdvd v Hv) as [q Hq].
    rewrite Hq, Z.mod_mul, Z.div_mul in Htest1 by lia. simpl in Htest1.
    assert (v = q * num * m) by nia.
    pose proof (Z.mul_succ_div_gt (kForever - 1) num Hnum).
    assert (kForever <= q * num) by nia. nia. }
  breflect. set (q := count / d) in *.
  assert (Hq : count = d * q) by (apply Z_div_exact_full_2; lia).
  assert (Hs : 0 <= q * num <= kForever - 1).
  { pose proof (Z.mul_div_le (kForever - 1) num Hnum). assert (0 <= q) by nia. nia. }
  rewrite (u64_small (q * num)) by (unfold is_u64; lia).
  destruct (Z.gtb_spec (q * num) ((kForever - 1) / m)).
  { split_and!; [done..|]. intros v (_ & Hv & Hr). apply Hcancel in Hv.
    assert (v = q * num * m) by nia.
    pose proof (Z.mul_succ_div_gt (kForever - 1) m Hm).
    assert (kForever <= q * num * m) by nia. lia. }
  pose proof (Z.mul_div_le (kForever - 1) m Hm).
  rewrite u64_small by (unfold is_u64; nia).
  split_and!; [lia| |nia]. apply Hcancel. nia.
Qed.

Lemma to_microseconds_exact_witness :
  to_microseconds true 3 1 1000 0 = (Status.ok, 3000) /\
  exact_microseconds 3 1 1000 3000.
Proof.
  split; [reflexivity|].
  apply (to_microseconds_exact true 3 1 1000 0); first [lia|reflexivity].
Defined.
