(* ===== verification/Wire.v ===== *)
(** * Little-endian fields and CRC-32 (src/lib/util/wire.h, src/lib/util/crc32.h)

    The loops are written as the code writes them; [le_bytes] and [le_val] are
    the mathematical encodings that the loops are proved equal to, and every
    later round-trip or torn-write argument uses the latter. *)

From Stdlib Require Strings.String Strings.Ascii.
From S2P Require Import Prelude Foundation.

(** The bytes of a string literal. *)
Definition chars (s : String.string) : list Z :=
  map (fun c => Z.of_N (Ascii.N_of_ascii c)) (String.list_ascii_of_string s).

(** ** wire.h *)

Definition read32 (data : list Z) (at_ : nat) : Z :=
  foldl (fun value i =>
           Z.lor value (u32 (Z.shiftl (data !!! (at_ + i)%nat) (8 * Z.of_nat i))))
        0 (seq 0 4).

Definition read64 (data : list Z) (at_ : nat) : Z :=
  Z.lor (read32 data at_) (u64 (Z.shiftl (read32 data (at_ + 4)) 32)).

Definition write32 (data : list Z) (at_ : nat) (value : Z) : list Z :=
  foldl (fun data i =>
           <[(at_ + i)%nat := Z.land (Z.shiftr value (8 * Z.of_nat i)) 0xff]> data)
        data (seq 0 4).

Definition write64 (data : list Z) (at_ : nat) (value : Z) : list Z :=
  write32 (write32 data at_ (u32 value)) (at_ + 4) (u32 (Z.shiftr value 32)).

#[global] Arguments read32 : simpl never.
#[global] Arguments read64 : simpl never.
#[global] Arguments write32 : simpl never.
#[global] Arguments write64 : simpl never.

(** ** crc32.h *)

Definition crc32_poly : Z := 0xedb88320.

(** One iteration of the inner loop over [bit]. *)
Definition crc32_bit (crc : Z) : Z :=
  Z.lxor (Z.shiftr crc 1) (if negb (Z.land crc 1 =? 0) then crc32_poly else 0).

(** One iteration of the outer loop over the bytes. *)
Definition crc32_byte (crc b : Z) : Z :=
  Nat.iter 8 crc32_bit (Z.lxor crc b).

Definition crc32_update (value : Z) (bytes : list Z) : Z :=
  not32 (foldl crc32_byte (not32 value) bytes).

Definition crc32_calculate (bytes : list Z) : Z := crc32_update 0 bytes.

#[global] Arguments crc32_update : simpl never.
#[global] Arguments crc32_calculate : simpl never.

(** The optional hardware accelerator: a null [update] or [in_interrupt]
    pointer is [None].  [in_interrupt] is sampled per call. *)
Record Backend := mkBackend {
  backend_update : option (Z -> list Z -> Z);
  backend_in_interrupt : option bool
}.

Definition service_update (backend : Backend) (value : Z) (bytes : list Z) : Z :=
  match backend_update backend, backend_in_interrupt backend with
  | Some update, Some in_interrupt =>
      if negb in_interrupt then update value bytes else crc32_update value bytes
  | _, _ => crc32_update value bytes
  end.

Definition service_calculate (backend : Backend) (bytes : list Z) : Z :=
  service_update backend 0 bytes.

(** ** Little-endian encodings *)

Fixpoint le_bytes (n : nat) (v : Z) : list Z :=
  match n with
  | O => []
  | S n => v mod 256 :: le_bytes n (v / 256)
  end.

Fixpoint le_val (l : list Z) : Z :=
  match l with
  | [] => 0
  | b :: l => b + 256 * le_val l
  end.

#[global] Arguments le_bytes : simpl nomatch.

Lemma length_le_bytes n v : length (le_bytes n v) = n.
Proof. revert v. induction n; intros; simpl; auto. Qed.

Lemma le_bytes_ok n v : bytes_ok (le_bytes n v).
Proof.
  revert v. induction n; intros; simpl; constructor; auto.
  unfold is_byte. change (2 ^ 8) with 256. apply Z.mod_pos_bound. lia.
Qed.

Lemma le_val_bytes n v : le_val (le_bytes n v) = v mod 256 ^ Z.of_nat n.
Proof.
  revert v. induction n as [|n IH]; intros v; simpl le_bytes; simpl le_val.
  - change (256 ^ Z.of_nat 0) with 1. by rewrite Z.mod_1_r.
  - rewrite IH, Nat2Z.inj_succ, Z.pow_succ_r by lia.
    rewrite Z.rem_mul_r by lia. lia.
Qed.

Lemma le_val_range l : bytes_ok l -> 0 <= le_val l < 256 ^ Z.of_nat (length l).
Proof.
  induction 1 as [|b l Hb _ IH]; simpl length; simpl le_val.
  - change (256 ^ Z.of_nat 0) with 1. lia.
  - rewrite Nat2Z.inj_succ, Z.pow_succ_r by lia.
    unfold is_byte in Hb. change (2 ^ 8) with 256 in Hb. lia.
Qed.

Lemma le_bytes_val l : bytes_ok l -> le_bytes (length l) (le_val l) = l.
Proof.
  induction 1 as [|b l Hb _ IH]; [done|]. cbn [length le_bytes le_val].
  unfold is_byte in Hb. change (2 ^ 8) with 256 in Hb.
  replace (b + 256 * le_val l) with (b + le_val l * 256) by lia.
  rewrite Z.mod_add, Z.mod_small, Z.div_add, Z.div_small by lia.
  rewrite Z.add_0_l. by rewrite IH.
Qed.

Lemma le_val_inj l k :
  bytes_ok l -> bytes_ok k -> length l = length k -> le_val l = le_val k -> l = k.
Proof.
  intros Hl Hk Hlen E. rewrite <- (le_bytes_val k Hk), <- (le_bytes_val l Hl). congruence.
Qed.

#[export] Hint Resolve le_bytes_ok : wf.
#[export] Hint Rewrite length_le_bytes : field.

(** ** The loops of wire.h compute these encodings *)

Lemma land_ff x : Z.land x 0xff = x mod 256.
Proof. change 0xff with (Z.ones 8). by rewrite Z.land_ones by lia. Qed.

Lemma foldl_insert_blit (f : nat -> Z) data i s n :
  foldl (fun data j => <[(i + j)%nat := f j]> data) data (seq s n) =
  blit (i + s) (f <$> seq s n) data.
Proof.
  unfold blit. revert s data. induction n as [|n IH]; intros s data; simpl; [done|].
  rewrite IH. replace (i + S s)%nat with (S (i + s)) by lia.
  symmetry. apply list_insert_inserts_lt. lia.
Qed.

Lemma shift_byte v k : 0 <= k -> Z.land (Z.shiftr v (8 * k)) 0xff = v / 256 ^ k mod 256.
Proof.
  intros. rewrite land_ff, Z.shiftr_div_pow2 by lia.
  by rewrite Z.pow_mul_r by lia.
Qed.

Lemma write32_blit data i v : write32 data i v = blit i (le_bytes 4 v) data.
Proof.
  unfold write32. rewrite foldl_insert_blit, Nat.add_0_r. f_equal.
  cbn [seq fmap list_fmap le_bytes]. rewrite !shift_byte by lia.
  change (256 ^ Z.of_nat 0) with 1. change (256 ^ Z.of_nat 1) with 256.
  change (256 ^ Z.of_nat 2) with (256 * 256).
  change (256 ^ Z.of_nat 3) with (256 * 256 * 256).
  rewrite Z.div_1_r, !Z.div_div by lia. done.
Qed.

Lemma le_bytes_app n m v :
  le_bytes (n + m) v = le_bytes n v ++ le_bytes m (v / 256 ^ Z.of_nat n).
Proof.
  revert v. induction n as [|n IH]; intros v.
  - change (256 ^ Z.of_nat 0) with 1. by rewrite Z.div_1_r.
  - simpl. f_equal. rewrite IH, Nat2Z.inj_succ, Z.pow_succ_r by lia.
    by rewrite Z.div_div by lia.
Qed.

Lemma le_bytes_mod n v : le_bytes n (v mod 256 ^ Z.of_nat n) = le_bytes n v.
Proof.
  rewrite <- le_val_bytes. rewrite <- (length_le_bytes n v) at 1.
  apply le_bytes_val, le_bytes_ok.
Qed.

Lemma blit_app {A} i (k1 k2 l : list A) :
  blit i (k1 ++ k2) l = blit (i + length k1) k2 (blit i k1 l).
Proof.
  unfold blit. revert i. induction k1 as [|x k1 IH]; intros i; simpl.
  - by rewrite Nat.add_0_r.
  - rewrite IH. replace (i + S (length k1))%nat with (S i + length k1)%nat by lia.
    rewrite list_insert_inserts_lt by lia. done.
Qed.

Lemma write64_blit data i v : write64 data i v = blit i (le_bytes 8 v) data.
Proof.
  unfold write64. rewrite !write32_blit. change 8%nat with (4 + 4)%nat.
  rewrite le_bytes_app, blit_app, length_le_bytes. f_equal; [|f_equal; apply (le_bytes_mod 4)].
  unfold u32. rewrite Z.shiftr_div_pow2 by lia. apply (le_bytes_mod 4).
Qed.

Lemma lor_shift a b k : 0 <= k -> 0 <= a < 2 ^ k -> Z.lor a (Z.shiftl b k) = a + b * 2 ^ k.
Proof.
  intros Hk Ha. assert (Hand : Z.land a (Z.shiftl b k) = 0).
  { apply Z.bits_inj'. intros n Hn. rewrite Z.land_spec, Z.bits_0, Z.shiftl_spec by done.
    destruct (Z.lt_ge_cases n k).
    - rewrite (Z.testbit_neg_r b) by lia. apply andb_false_r.
    - rewrite <- (Z.mod_small a (2 ^ k)), Z.mod_pow2_bits_high by lia. done. }
  rewrite <- Z.lxor_lor, <- Z.add_nocarry_lxor by done. by rewrite Z.shiftl_mul_pow2.
Qed.

Lemma lookup_total_byte (l : list Z) i : bytes_ok l -> 0 <= l !!! i < 256.
Proof.
  intros Hl. rewrite list_lookup_total_alt. destruct (l !! i) eqn:E; simpl; [|done].
  apply (Forall_lookup_1 _ _ _ _ Hl E).
Qed.

Lemma sub_cons (l : list Z) i n :
  (i < length l)%nat -> sub l i (S n) = l !!! i :: sub l (S i) n.
Proof.
  intros Hi. unfold sub. destruct (lookup_lt_is_Some_2 l i Hi) as [x Hx].
  rewrite (drop_S _ x) by done. simpl. by rewrite (list_lookup_total_correct _ _ _ Hx).
Qed.

Lemma read32_val data i :
  bytes_ok data -> (i + 4 <= length data)%nat -> read32 data i = le_val (sub data i 4).
Proof.
  intros Hok Hlen. rewrite !sub_cons by lia. unfold read32. cbn [seq foldl].
  pose proof (fun j => lookup_total_byte data j Hok) as Hb.
  replace (i + 0)%nat with i by lia. replace (i + 1)%nat with (S i) by lia.
  replace (i + 2)%nat with (S (S i)) by lia. replace (i + 3)%nat with (S (S (S i))) by lia.
  pose proof (Hb i). pose proof (Hb (S i)). pose proof (Hb (S (S i))).
  pose proof (Hb (S (S (S i)))).
  rewrite !u32_small by (unfold is_u32; rewrite Z.shiftl_mul_pow2 by lia; simpl Z.mul; lia).
  rewrite Z.lor_0_l. change (8 * Z.of_nat 0) with 0. change (8 * Z.of_nat 1) with 8.
  change (8 * Z.of_nat 2) with 16. change (8 * Z.of_nat 3) with 24. rewrite Z.shiftl_0_r.
  rewrite (lor_shift (data !!! i)) by lia.
  rewrite (lor_shift (data !!! i + _)) by lia.
  rewrite (lor_shift (data !!! i + _ + _)) by lia.
  unfold sub. rewrite take_0. cbn [le_val]. lia.
Qed.

Lemma read64_val data i :
  bytes_ok data -> (i + 8 <= length data)%nat -> read64 data i = le_val (sub data i 8).
Proof.
  intros Hok Hlen. unfold read64. rewrite !read32_val by (done || lia).
  change 8%nat with (4 + 4)%nat. rewrite sub_app.
  pose proof (le_val_range (sub data i 4)) as Hlo.
  pose proof (le_val_range (sub data (i + 4) 4)) as Hhi.
  rewrite length_sub in Hlo, Hhi by lia.
  specialize (Hlo ltac:(by apply Forall_sub)). specialize (Hhi ltac:(by apply Forall_sub)).
  change (256 ^ Z.of_nat 4) with (2 ^ 32) in *.
  rewrite u64_small by (unfold is_u64; rewrite Z.shiftl_mul_pow2 by lia; lia).
  rewrite lor_shift by lia.
  assert (Happ : forall k l, le_val (k ++ l) = le_val k + 256 ^ Z.of_nat (length k) * le_val l).
  { induction k as [|b k IH]; intros l; cbn [app length le_val].
    - change (256 ^ Z.of_nat 0) with 1. lia.
    - rewrite IH, Nat2Z.inj_succ, Z.pow_succ_r by lia. lia. }
  rewrite Happ, length_sub by lia. change (256 ^ Z.of_nat 4) with (2 ^ 32). lia.
Qed.

Lemma length_write32 data i v : length (write32 data i v) = length data.
Proof. rewrite write32_blit. apply length_blit. Qed.
Lemma length_write64 data i v : length (write64 data i v) = length data.
Proof. rewrite write64_blit. apply length_blit. Qed.
Lemma write32_ok data i v : bytes_ok data -> bytes_ok (write32 data i v).
Proof. intros. rewrite write32_blit. auto with wf. Qed.
Lemma write64_ok data i v : bytes_ok data -> bytes_ok (write64 data i v).
Proof. intros. rewrite write64_blit. auto with wf. Qed.

Lemma read32_range data i :
  bytes_ok data -> (i + 4 <= length data)%nat -> is_u32 (read32 data i).
Proof.
  intros Hok Hlen. rewrite read32_val by done.
  pose proof (le_val_range (sub data i 4) (Forall_sub _ _ _ _ Hok)) as H.
  rewrite length_sub in H by lia. exact H.
Qed.

Lemma read64_range data i :
  bytes_ok data -> (i + 8 <= length data)%nat -> is_u64 (read64 data i).
Proof.
  intros Hok Hlen. rewrite read64_val by done.
  pose proof (le_val_range (sub data i 8) (Forall_sub _ _ _ _ Hok)) as H.
  rewrite length_sub in H by lia. exact H.
Qed.

(** A field read depends only on the bytes of the field. *)
Lemma read32_sub data data' i i' :
  bytes_ok data -> bytes_ok data' -> (i + 4 <= length data)%nat -> (i' + 4 <= length data')%nat ->
  sub data i 4 = sub data' i' 4 -> read32 data i = read32 data' i'.
Proof. intros. rewrite !read32_val by done. congruence. Qed.

Lemma read64_sub data data' i i' :
  bytes_ok data -> bytes_ok data' -> (i + 8 <= length data)%nat -> (i' + 8 <= length data')%nat ->
  sub data i 8 = sub data' i' 8 -> read64 data i = read64 data' i'.
Proof. intros. rewrite !read64_val by done. congruence. Qed.

(** A field that was just written reads back, and a field determines its bytes. *)
Lemma read32_le data i v :
  bytes_ok data -> (i + 4 <= length data)%nat -> is_u32 v ->
  read32 data i = v <-> sub data i 4 = le_bytes 4 v.
Proof.
  intros Hok Hlen Hv. rewrite read32_val by done. split.
  - intros <-. rewrite <- (le_bytes_val (sub data i 4)) at 1 by auto with wf.
    by rewrite length_sub.
  - intros ->. rewrite le_val_bytes. by apply Z.mod_small.
Qed.

Lemma read64_le data i v :
  bytes_ok data -> (i + 8 <= length data)%nat -> is_u64 v ->
  read64 data i = v <-> sub data i 8 = le_bytes 8 v.
Proof.
  intros Hok Hlen Hv. rewrite read64_val by done. split.
  - intros <-. rewrite <- (le_bytes_val (sub data i 8)) at 1 by auto with wf.
    by rewrite length_sub.
  - intros ->. rewrite le_val_bytes. by apply Z.mod_small.
Qed.

(** ** Reading a field of an array built by a sequence of writes

    After [write32_blit] and its companions every write is a [blit]; the
    [field_simpl] tactic then resolves each read against the write that
    produced the field. *)

Lemma insert_blit (l : list Z) i x : <[i := x]> l = blit i [x] l.
Proof. done. Qed.

Lemma read32_ext data data' i :
  (forall j, (i <= j < i + 4)%nat -> data !! j = data' !! j) -> read32 data i = read32 data' i.
Proof.
  intros H. unfold read32. cbn [seq foldl]. rewrite !list_lookup_total_alt, !H by lia. done.
Qed.

Lemma read32_blit_other i k l j :
  (i + 4 <= j \/ j + length k <= i)%nat -> read32 (blit j k l) i = read32 l i.
Proof. intros. apply read32_ext. intros. apply lookup_blit_out. lia. Qed.

Lemma read64_blit_other i k l j :
  (i + 8 <= j \/ j + length k <= i)%nat -> read64 (blit j k l) i = read64 l i.
Proof. intros. unfold read64. rewrite !read32_blit_other by lia. done. Qed.

Lemma read32_blit_same i v l :
  (i + 4 <= length l)%nat -> is_u32 v -> read32 (blit i (le_bytes 4 v) l) i = v.
Proof.
  intros Hlen Hv.
  transitivity (read32 (blit i (le_bytes 4 v) (replicate (length l) 0)) i).
  - apply read32_ext. intros j Hj.
    rewrite !lookup_blit_in; rewrite ?length_le_bytes, ?length_replicate; try lia. done.
  - apply read32_le; rewrite ?length_blit, ?length_replicate; try done.
    + apply Forall_blit; [apply le_bytes_ok|by apply Forall_replicate].
    + apply sub_blit_same; rewrite ?length_le_bytes, ?length_replicate; lia.
Qed.

Lemma read64_blit_same i v l :
  (i + 8 <= length l)%nat -> is_u64 v -> read64 (blit i (le_bytes 8 v) l) i = v.
Proof.
  intros Hlen Hv. unfold is_u64 in Hv. unfold read64.
  change 8%nat with (4 + 4)%nat.
  rewrite le_bytes_app, blit_app, length_le_bytes. change (256 ^ Z.of_nat 4) with (2 ^ 32).
  rewrite read32_blit_other by (rewrite length_le_bytes; lia).
  rewrite <- (le_bytes_mod 4 v). change (256 ^ Z.of_nat 4) with (2 ^ 32).
  pose proof (Z.div_mod v (2 ^ 32)). pose proof (Z.mod_pos_bound v (2 ^ 32)).
  rewrite !read32_blit_same; rewrite ?length_blit; try lia.
  - rewrite u64_small; [rewrite lor_shift by lia; lia|].
    unfold is_u64. rewrite Z.shiftl_mul_pow2 by lia. lia.
  - unfold is_u32. split; [apply Z.div_pos; lia|]. apply Z.div_lt_upper_bound; lia.
  - apply u32_range.
Qed.

Ltac field_side := rewrite ?length_blit, ?length_le_bytes, ?length_replicate; simpl length; lia.
Ltac field_simpl :=
  rewrite ?write32_blit, ?write64_blit, ?insert_blit;
  repeat first
    [ rewrite read32_blit_other by field_side
    | rewrite read32_blit_same by first [solve [auto with wf] | field_side]
    | rewrite read64_blit_other by field_side
    | rewrite read64_blit_same by first [solve [auto with wf] | field_side]
    | rewrite sub_blit_other by field_side ].

(** ** CRC-32 *)

Lemma not32_involutive x : not32 (not32 x) = x.
Proof. unfold not32. by rewrite Z.lxor_assoc, Z.lxor_nilpotent, Z.lxor_0_r. Qed.

(** Feeding a buffer in pieces gives the checksum of the whole; this is what the
    256-byte loop of [Control::verify] and the two-part [otp::Checksum] rely on. *)
Lemma crc32_update_app value a b :
  crc32_update value (a ++ b) = crc32_update (crc32_update value a) b.
Proof. unfold crc32_update. by rewrite foldl_app, not32_involutive. Qed.

Lemma crc32_update_nil value : crc32_update value [] = value.
Proof. apply not32_involutive. Qed.

Lemma lxor_u32 a b : is_u32 a -> is_u32 b -> is_u32 (Z.lxor a b).
Proof.
  unfold is_u32. intros Ha Hb. split; [apply Z.lxor_nonneg; lia|].
  destruct (Z.eq_dec (Z.lxor a b) 0) as [->|Hne]; [lia|].
  assert (0 < Z.lxor a b) by (pose proof (proj2 (Z.lxor_nonneg a b)); lia).
  apply Z.log2_lt_pow2; [done|]. eapply Z.le_lt_trans; [apply Z.log2_lxor; lia|].
  assert (forall x, 0 <= x < 2 ^ 32 -> Z.log2 x < 32) as L.
  { intros x Hx. destruct (Z.eq_dec x 0) as [->|]; [done|]. apply Z.log2_lt_pow2; lia. }
  pose proof (L a Ha). pose proof (L b Hb). lia.
Qed.

Lemma not32_u32 x : is_u32 x -> is_u32 (not32 x).
Proof. intros. apply lxor_u32; [done|]. unfold is_u32, UINT32_MAX. lia. Qed.

Lemma crc32_bit_u32 c : is_u32 c -> is_u32 (crc32_bit c).
Proof.
  intros Hc. apply lxor_u32.
  - unfold is_u32 in *. rewrite Z.shiftr_div_pow2 by lia. change (2 ^ 1) with 2.
    split; [apply Z.div_pos; lia|apply Z.div_lt_upper_bound; lia].
  - unfold is_u32, crc32_poly. case_match; lia.
Qed.

Lemma iter_u32 n c : is_u32 c -> is_u32 (Nat.iter n crc32_bit c).
Proof. intros. induction n; simpl; [done|]. by apply crc32_bit_u32. Qed.

Lemma byte_u32 b : is_byte b -> is_u32 b.
Proof. unfold is_byte, is_u32. lia. Qed.

Lemma crc32_byte_iter c b : crc32_byte c b = Nat.iter 8 crc32_bit (Z.lxor c b).
Proof. reflexivity. Qed.

Lemma crc32_byte_u32 c b : is_u32 c -> is_byte b -> is_u32 (crc32_byte c b).
Proof. intros. by apply iter_u32, lxor_u32, byte_u32. Qed.

Lemma crc32_foldl_u32 c bs : is_u32 c -> bytes_ok bs -> is_u32 (foldl crc32_byte c bs).
Proof.
  intros Hc Hbs. revert c Hc. induction Hbs; intros; simpl; [done|].
  by apply IHHbs, crc32_byte_u32.
Qed.

Lemma crc32_update_u32 v bs : is_u32 v -> bytes_ok bs -> is_u32 (crc32_update v bs).
Proof. intros. by apply not32_u32, crc32_foldl_u32; [apply not32_u32|]. Qed.

Lemma crc32_calculate_u32 bs : bytes_ok bs -> is_u32 (crc32_calculate bs).
Proof. apply crc32_update_u32. unfold is_u32. lia. Qed.

#[export] Hint Resolve crc32_calculate_u32 crc32_update_u32 write32_ok write64_ok : wf.

(** Every step of the shift register loses nothing: the polynomial's top bit
    records the bit that was shifted out. *)
Lemma crc32_bit_top c : is_u32 c -> Z.testbit (crc32_bit c) 31 = Z.odd c.
Proof.
  intros Hc. unfold crc32_bit. rewrite Z.lxor_spec, Z.shiftr_spec by lia.
  change (31 + 1) with 32.
  assert (Hc32 : Z.testbit c 32 = false).
  { rewrite <- (Z.mod_small c (2 ^ 32)) by exact Hc. by apply Z.mod_pow2_bits_high. }
  rewrite Hc32. change 1 with (Z.ones 1) at 1. rewrite Z.land_ones by lia.
  change (2 ^ 1) with 2. rewrite Zmod_odd. by destruct (Z.odd c).
Qed.

Lemma lxor_cancel_r a b c : Z.lxor a c = Z.lxor b c -> a = b.
Proof.
  intros E. apply (f_equal (fun x => Z.lxor x c)) in E.
  by rewrite !Z.lxor_assoc, Z.lxor_nilpotent, !Z.lxor_0_r in E.
Qed.

Lemma crc32_bit_inj a b : is_u32 a -> is_u32 b -> crc32_bit a = crc32_bit b -> a = b.
Proof.
  intros Ha Hb E.
  assert (Hodd : Z.odd a = Z.odd b) by (rewrite <- !crc32_bit_top by done; by rewrite E).
  unfold crc32_bit in E. change 1 with (Z.ones 1) in E at 2 4.
  rewrite !Z.land_ones in E by lia. change (2 ^ 1) with 2 in E.
  rewrite !Zmod_odd, Hodd in E. apply lxor_cancel_r in E.
  rewrite !Z.shiftr_div_pow2 in E by lia. change (2 ^ 1) with 2 in E.
  rewrite (Z.div_mod a 2), (Z.div_mod b 2), !Zmod_odd, E, Hodd by lia. done.
Qed.

Lemma iter_crc32_inj n a b :
  is_u32 a -> is_u32 b -> Nat.iter n crc32_bit a = Nat.iter n crc32_bit b -> a = b.
Proof.
  intros Ha Hb. induction n; simpl; [done|]. intros E.
  apply crc32_bit_inj in E; auto using iter_u32.
Qed.

Lemma crc32_foldl_inj a b bs :
  is_u32 a -> is_u32 b -> bytes_ok bs ->
  foldl crc32_byte a bs = foldl crc32_byte b bs -> a = b.
Proof.
  intros Ha Hb Hbs. revert a b Ha Hb.
  induction Hbs as [|x bs Hx Hbs IH]; intros a b Ha Hb; simpl; [done|]. intros E.
  apply IH in E; [|by apply crc32_byte_u32..].
  rewrite !crc32_byte_iter in E.
  apply (iter_crc32_inj 8) in E; [|apply lxor_u32; auto using byte_u32..].
  by apply lxor_cancel_r in E.
Qed.

Lemma crc32_byte_inj c x y :
  is_u32 c -> is_byte x -> is_byte y -> crc32_byte c x = crc32_byte c y -> x = y.
Proof.
  intros Hc Hx Hy E. rewrite !crc32_byte_iter in E.
  apply (iter_crc32_inj 8) in E; [|apply lxor_u32; auto using byte_u32..].
  rewrite !(Z.lxor_comm c) in E. by apply lxor_cancel_r in E.
Qed.

(** A corruption confined to one byte, wherever it sits in a protected
    buffer, always changes the CRC-32 of the buffer. *)
Theorem crc32_detects_byte_error pre x y post :
  bytes_ok (pre ++ x :: post) -> is_byte y -> x <> y ->
  crc32_calculate (pre ++ x :: post) <> crc32_calculate (pre ++ y :: post).
Proof.
  intros Hok Hy Hne E. apply Forall_app in Hok as [Hpre Hpost].
  apply Forall_cons_1 in Hpost as [Hx Hpost].
  unfold crc32_calculate, crc32_update in E. apply (f_equal not32) in E.
  rewrite !not32_involutive, !foldl_app in E. simpl in E.
  assert (is_u32 (foldl crc32_byte (not32 0) pre)).
  { apply crc32_foldl_u32; [apply not32_u32; unfold is_u32; lia|done]. }
  apply crc32_foldl_inj in E; [|by apply crc32_byte_u32..|done].
  by apply crc32_byte_inj in E.
Qed.

Lemma crc32_detects_byte_error_witness :
  crc32_calculate ([1; 2] ++ 3 :: [4]) <> crc32_calculate ([1; 2] ++ 7 :: [4]).
Proof.
  apply (crc32_detects_byte_error [1; 2] 3 7 [4]).
  - by apply (bool_decide_unpack _).
  - by split.
  - discriminate.
Defined.

(** The published check value of CRC-32/ISO-HDLC ("123456789"). *)
Example crc32_check_value :
  crc32_calculate [49; 50; 51; 52; 53; 54; 55; 56; 57] = 0xcbf43926.
Proof. vm_compute. reflexivity. Qed.

(** A hardware backend that computes the documented function (it "restores the
    supplied state on every call") makes the service transparent: callers see
    [crc32_update] whether or not they run in an interrupt. *)
Definition backend_faithful (b : Backend) : Prop :=
  forall update, backend_update b = Some update ->
  forall v bs, update v bs = crc32_update v bs.

Lemma service_update_correct b v bs :
  backend_faithful b -> service_update b v bs = crc32_update v bs.
Proof. unfold service_update. intros H. repeat case_match; auto. Qed.

Lemma service_calculate_correct b bs :
  backend_faithful b -> service_calculate b bs = crc32_calculate bs.
Proof. apply service_update_correct. Qed.

(** The default-constructed service has no backend. *)
Definition no_backend : Backend := mkBackend None None.
Lemma no_backend_faithful : backend_faithful no_backend.
Proof. intros ?. discriminate. Qed.
