(* ===== verification/StateMachine.v ===== *)
(** * The state-machine helper (src/lib/core/state_machine/state_machine.hpp)

    [StateMachine<Derived, State, Initial, Count>] is a CRTP base: the machine
    is a member of the object whose hooks it calls.  The model keeps that
    shape: the whole object is a world [W], the machine is reached in it
    through [HasMachine], and the derived class is a record of hooks on [W].
    A hook can therefore call [tick] again, as the C++ code can. *)

From S2P Require Import Prelude Foundation.

Record StateStatistics := mkStateStatistics { ticks : Z; entries : Z }.
#[export] Instance StateStatistics_eta : RecordEta StateStatistics :=
  fun r => mkStateStatistics (ticks r) (entries r).

#[export] Instance StateStatistics_inhabited : Inhabited StateStatistics :=
  populate (mkStateStatistics 0 0).

Record Machine (S : Type) := mkMachine {
  cs : S;
  statistics_ : list StateStatistics;
  dwell_ : Z;
  started_ : bool;
  ticking_ : bool
}.
Arguments mkMachine {S}. Arguments cs {S}. Arguments statistics_ {S}.
Arguments dwell_ {S}. Arguments started_ {S}. Arguments ticking_ {S}.
#[export] Instance Machine_eta S : RecordEta (Machine S) :=
  fun r => mkMachine (cs r) (statistics_ r) (dwell_ r) (started_ r) (ticking_ r).

(** The enumeration: contiguous values, [index] is the static cast. *)
Class StateEnum (S : Type) := {
  state_index : S -> nat;
  state_count : nat;
  state_eq_dec :: EqDecision S
}.

(** Where the machine sits in the object it is a base of. *)
Class HasMachine (W S : Type) := {
  machine : W -> Machine S;
  with_machine : Machine S -> W -> W
}.

Class HasMachineLaws W S `{HasMachine W S} : Prop := {
  machine_with m w : machine (with_machine m w) = m;
  with_machine_with m m' w : with_machine m (with_machine m' w) = with_machine m w;
  with_machine_id w : with_machine (machine w) w = w
}.

(** Hooks of the derived class; an absent optional hook is the identity.
    [Step cs w] returns the [ns] it selects. *)
Record Derived (W S : Type) := mkDerived {
  OnEnter : S -> W -> W;
  OnExit : S -> W -> W;
  OnTick : S -> W -> W;
  Step : S -> W -> S * W
}.
Arguments mkDerived {W S}. Arguments OnEnter {W S}. Arguments OnExit {W S}.
Arguments OnTick {W S}. Arguments Step {W S}.

(** A derived class that defines [Step] only. *)
Definition step_only {W S} (step : S -> W -> S * W) : Derived W S :=
  mkDerived (fun _ w => w) (fun _ w => w) (fun _ w => w) step.

(** Diagnostic counters saturate. *)
Definition Increment (count : Z) : Z :=
  if negb (count =? UINT64_MAX) then count + 1 else count.

Section state_machine.
Context {W S : Type} `{StateEnum S, HasMachine W S}.
Context (derived : Derived W S).

Definition Valid (s : S) : bool := (state_index s <? state_count)%nat.
Definition Index (s : S) : nat := state_index s.

Definition initial_machine (initial : S) : Machine S :=
  mkMachine initial (replicate state_count (mkStateStatistics 0 0)) 0 false false.

Definition upd_machine (f : Machine S -> Machine S) (w : W) : W :=
  with_machine (f (machine w)) w.

Definition count_entry (s : S) (m : Machine S) : Machine S :=
  m <| statistics_ :=
    alter (fun st => st <| entries := Increment (entries st) |>) (Index s) (statistics_ m) |>.

Definition count_tick (s : S) (m : Machine S) : Machine S :=
  m <| statistics_ :=
    alter (fun st => st <| ticks := Increment (ticks st) |>) (Index s) (statistics_ m) |>.

Definition Enter (w : W) : W :=
  let w := upd_machine (fun m => count_entry (cs m) m) w in
  OnEnter derived (cs (machine w)) w.

Definition tick (w : W) : Status * W :=
  if ticking_ (machine w) then (Status.busy, w) else
  let w := upd_machine (fun m => m <| ticking_ := true |>) w in
  let w := if negb (started_ (machine w))
           then Enter (upd_machine (fun m => m <| started_ := true |>) w) else w in
  let w := upd_machine (fun m => m <| dwell_ := Increment (dwell_ m) |>) w in
  let w := upd_machine (fun m => count_tick (cs m) m) w in
  let w := OnTick derived (cs (machine w)) w in
  let '(ns, w) := Step derived (cs (machine w)) w in
  if negb (Valid ns)
  then (Status.invalid_argument, upd_machine (fun m => m <| ticking_ := false |>) w)
  else
    let w :=
      if negb (bool_decide (ns = cs (machine w))) then
        let w := OnExit derived (cs (machine w)) w in
        let w := upd_machine (fun m => m <| cs := ns |> <| dwell_ := 0 |>) w in
        Enter w
      else w in
    (Status.ok, upd_machine (fun m => m <| ticking_ := false |>) w).

Definition dwell_count (m : Machine S) : Z := dwell_ m.
Definition statistics (m : Machine S) (s : S) : StateStatistics :=
  if Valid s then statistics_ m !!! Index s else mkStateStatistics 0 0.
End state_machine.


(** ** What one tick does to the machine

    [pre_machine] is the machine the hooks and [Step] observe, and
    [post_machine] the one a completed tick leaves behind. *)

Section reference.
Context {S : Type} `{StateEnum S}.

Definition pre_machine (m : Machine S) : Machine S :=
  let m := m <| ticking_ := true |> in
  let m := if started_ m then m else count_entry (cs m) (m <| started_ := true |>) in
  count_tick (cs m) (m <| dwell_ := Increment (dwell_ m) |>).

Definition post_machine (ns : S) (m : Machine S) : Machine S :=
  let m := pre_machine m in
  let m := if Valid ns && negb (bool_decide (ns = cs m))
           then count_entry ns (m <| cs := ns |> <| dwell_ := 0 |>) else m in
  m <| ticking_ := false |>.

#[local] Arguments pre_machine : simpl never.

Lemma cs_pre_machine m : cs (pre_machine m) = cs m.
Proof. destruct m as [? ? ? [] ?]; done. Qed.
Lemma ticking_pre_machine m : ticking_ (pre_machine m) = true.
Proof. destruct m as [? ? ? [] ?]; done. Qed.
Lemma started_pre_machine m : started_ (pre_machine m) = true.
Proof. destruct m as [? ? ? [] ?]; done. Qed.
Lemma dwell_pre_machine m : dwell_ (pre_machine m) = Increment (dwell_ m).
Proof. destruct m as [? ? ? [] ?]; done. Qed.

Lemma cs_post_machine ns m :
  cs (post_machine ns m) = if Valid ns then ns else cs m.
Proof.
  unfold post_machine. destruct (Valid ns); cbn [andb].
  - case_bool_decide as E; cbn; [by rewrite E|done].
  - cbn. by rewrite cs_pre_machine.
Qed.
Lemma ticking_post_machine ns m : ticking_ (post_machine ns m) = false.
Proof. done. Qed.

(** What the diagnostic counters of a machine always satisfy. *)
Record machine_ok (m : Machine S) : Prop := {
  ok_valid : Valid (cs m) = true;
  ok_length : length (statistics_ m) = state_count;
  ok_counters : Forall (fun st => is_u64 (ticks st) /\ is_u64 (entries st)) (statistics_ m);
  ok_dwell : 0 <= dwell_ m <= ticks (statistics_ m !!! Index (cs m));
  ok_entered : started_ m = true -> 1 <= entries (statistics_ m !!! Index (cs m))
}.

Lemma Increment_u64 x : is_u64 x -> is_u64 (Increment x).
Proof. unfold Increment, is_u64, UINT64_MAX. intros. case_match; lia. Qed.
Lemma Increment_mono x y : x <= y -> is_u64 y -> Increment x <= Increment y.
Proof. unfold Increment, is_u64, UINT64_MAX. intros. repeat case_match; lia. Qed.
Lemma Increment_ge x : x <= Increment x.
Proof. unfold Increment. case_match; lia. Qed.
Lemma Increment_pos x : 0 <= x -> 1 <= Increment x.
Proof. unfold Increment, UINT64_MAX. intros. case_match; lia. Qed.

Lemma Valid_Index (m : Machine S) s :
  length (statistics_ m) = state_count -> Valid s = true ->
  (Index s < length (statistics_ m))%nat.
Proof. unfold Valid, Index. intros ? ?%Nat.ltb_lt. lia. Qed.

Lemma count_tick_lookup s t m :
  (Index s < length (statistics_ m))%nat ->
  statistics_ (count_tick s m) !!! Index t =
  if decide (Index s = Index t)
  then (statistics_ m !!! Index t) <| ticks := Increment (ticks (statistics_ m !!! Index t)) |>
  else statistics_ m !!! Index t.
Proof.
  intros Hs. rewrite !list_lookup_total_alt. unfold count_tick. cbn.
  rewrite list_lookup_alter. case_decide as E; [|done]. rewrite E in *.
  destruct (lookup_lt_is_Some_2 _ _ Hs) as [x ->]. done.
Qed.

Lemma count_entry_lookup s t m :
  (Index s < length (statistics_ m))%nat ->
  statistics_ (count_entry s m) !!! Index t =
  if decide (Index s = Index t)
  then (statistics_ m !!! Index t) <| entries := Increment (entries (statistics_ m !!! Index t)) |>
  else statistics_ m !!! Index t.
Proof.
  intros Hs. rewrite !list_lookup_total_alt. unfold count_entry. cbn.
  rewrite list_lookup_alter. case_decide as E; [|done]. rewrite E in *.
  destruct (lookup_lt_is_Some_2 _ _ Hs) as [x ->]. done.
Qed.

Lemma count_tick_ok s m :
  Forall (fun st => is_u64 (ticks st) /\ is_u64 (entries st)) (statistics_ m) ->
  Forall (fun st => is_u64 (ticks st) /\ is_u64 (entries st)) (statistics_ (count_tick s m)).
Proof.
  intros HF. unfold count_tick. cbn. apply Forall_alter; [done|].
  intros x Hx HP. cbn. destruct HP. auto using Increment_u64.
Qed.

Lemma count_entry_ok s m :
  Forall (fun st => is_u64 (ticks st) /\ is_u64 (entries st)) (statistics_ m) ->
  Forall (fun st => is_u64 (ticks st) /\ is_u64 (entries st)) (statistics_ (count_entry s m)).
Proof.
  intros HF. unfold count_entry. cbn. apply Forall_alter; [done|].
  intros x Hx HP. cbn. destruct HP. auto using Increment_u64.
Qed.

Lemma length_count_tick s m : length (statistics_ (count_tick s m)) = length (statistics_ m).
Proof. apply length_alter. Qed.
Lemma length_count_entry s m : length (statistics_ (count_entry s m)) = length (statistics_ m).
Proof. apply length_alter. Qed.

Lemma lookup_counters m s :
  machine_ok m -> Valid s = true ->
  is_u64 (ticks (statistics_ m !!! Index s)) /\ is_u64 (entries (statistics_ m !!! Index s)).
Proof.
  intros Hm Hs. pose proof (Valid_Index m s (ok_length m Hm) Hs) as Hi.
  rewrite list_lookup_total_alt. destruct (lookup_lt_is_Some_2 _ _ Hi) as [x Hx]. rewrite Hx.
  apply (Forall_lookup_1 _ _ _ _ (ok_counters m Hm) Hx).
Qed.

Lemma ticking_machine_ok b m : machine_ok m -> machine_ok (m <| ticking_ := b |>).
Proof. by intros []. Qed.

(** The three bookkeeping steps of a tick keep the counters consistent: the
    deferred first entry, the tick itself and a transition. *)
Lemma start_machine_ok m :
  machine_ok m -> machine_ok (count_entry (cs m) (m <| started_ := true |>)).
Proof.
  intros Hm. pose proof (Valid_Index m _ (ok_length m Hm) (ok_valid m Hm)) as Hi.
  destruct (lookup_counters m (cs m) Hm (ok_valid m Hm)) as [_ He].
  destruct Hm. split; try done.
  - by rewrite length_count_entry.
  - by apply count_entry_ok.
  - change (cs (count_entry _ _)) with (cs m).
    rewrite count_entry_lookup, decide_True by done. done.
  - intros _. change (cs (count_entry _ _)) with (cs m).
    rewrite count_entry_lookup, decide_True by done. cbn.
    apply Increment_pos. unfold is_u64 in He. lia.
Qed.

Lemma tick_machine_ok m :
  machine_ok m -> machine_ok (count_tick (cs m) (m <| dwell_ := Increment (dwell_ m) |>)).
Proof.
  intros Hm. pose proof (Valid_Index m _ (ok_length m Hm) (ok_valid m Hm)) as Hi.
  destruct (lookup_counters m (cs m) Hm (ok_valid m Hm)) as [Ht _].
  destruct Hm. split; try done.
  - by rewrite length_count_tick.
  - by apply count_tick_ok.
  - change (cs (count_tick _ _)) with (cs m). rewrite count_tick_lookup, decide_True by done.
    cbn. pose proof (Increment_ge (dwell_ m)).
    pose proof (Increment_mono (dwell_ m) _ (proj2 ok_dwell0) Ht). lia.
  - change (cs (count_tick _ _)) with (cs m).
    rewrite count_tick_lookup, decide_True by done. done.
Qed.

Lemma enter_machine_ok ns m :
  machine_ok m -> Valid ns = true ->
  machine_ok (count_entry ns (m <| cs := ns |> <| dwell_ := 0 |>)).
Proof.
  intros Hm Hns. pose proof (Valid_Index m _ (ok_length m Hm) Hns) as Hi.
  destruct (lookup_counters m ns Hm Hns) as [Ht He]. unfold is_u64 in Ht, He.
  destruct Hm. split; try done.
  - by rewrite length_count_entry.
  - by apply count_entry_ok.
  - change (cs (count_entry _ _)) with ns. rewrite count_entry_lookup, decide_True by done.
    cbn. lia.
  - intros _. change (cs (count_entry _ _)) with ns.
    rewrite count_entry_lookup, decide_True by done. cbn. apply Increment_pos. lia.
Qed.

Lemma pre_machine_ok m : machine_ok m -> machine_ok (pre_machine m).
Proof.
  intros Hm. apply (ticking_machine_ok true) in Hm. unfold pre_machine.
  destruct (started_ _); [by apply tick_machine_ok|].
  by apply tick_machine_ok, start_machine_ok.
Qed.

Lemma post_machine_ok ns m : machine_ok m -> machine_ok (post_machine ns m).
Proof.
  intros Hm%pre_machine_ok. unfold post_machine. apply ticking_machine_ok.
  destruct (Valid ns) eqn:Hns; [|done]. destruct (bool_decide _); [done|].
  by apply enter_machine_ok.
Qed.

Lemma initial_machine_ok s : Valid s = true -> machine_ok (initial_machine s).
Proof.
  intros Hs. unfold initial_machine. split; cbn; try done.
  - apply length_replicate.
  - apply Forall_replicate. unfold is_u64. cbn. lia.
  - rewrite list_lookup_total_alt, lookup_replicate_2; [done|].
    by apply Nat.ltb_lt in Hs.
Qed.
End reference.

(** ** [tick] against the reference

    The hooks may do anything to the rest of the object, but cannot reach the
    machine, whose members are private. *)

Class FramedHooks {W S} `{HasMachine W S} (d : Derived W S) : Prop := {
  frame_enter s w : machine (OnEnter d s w) = machine w;
  frame_exit s w : machine (OnExit d s w) = machine w;
  frame_tick s w : machine (OnTick d s w) = machine w;
  frame_step s w : machine (snd (Step d s w)) = machine w
}.

Section tick.
Context {W S : Type} `{!StateEnum S, !HasMachine W S, !HasMachineLaws W S}.
Context (d : Derived W S) `{!FramedHooks d}.

Lemma machine_upd f w : machine (upd_machine f w) = f (machine w).
Proof. apply machine_with. Qed.

Lemma machine_Enter w : machine (Enter d w) = count_entry (cs (machine w)) (machine w).
Proof. unfold Enter. by rewrite frame_enter, machine_upd. Qed.

(** The world that [Step] is called on. *)
Definition step_world (w : W) : W :=
  let w := upd_machine (fun m => m <| ticking_ := true |>) w in
  let w := if negb (started_ (machine w))
           then Enter d (upd_machine (fun m => m <| started_ := true |>) w) else w in
  let w := upd_machine (fun m => m <| dwell_ := Increment (dwell_ m) |>) w in
  let w := upd_machine (fun m => count_tick (cs m) m) w in
  OnTick d (cs (machine w)) w.

Lemma machine_step_world w : machine (step_world w) = pre_machine (machine w).
Proof.
  unfold step_world. rewrite frame_tick, !machine_upd. unfold pre_machine.
  destruct (started_ (machine w)) eqn:E; cbn; rewrite E; cbn [negb].
  - by rewrite machine_upd.
  - by rewrite machine_Enter, !machine_upd.
Qed.

Lemma tick_busy w : ticking_ (machine w) = true -> tick d w = (Status.busy, w).
Proof. intros Ht. unfold tick. by rewrite Ht. Qed.

Lemma tick_body w :
  ticking_ (machine w) = false ->
  let '(ns, w1) := Step d (cs (machine w)) (step_world w) in
  fst (tick d w) = (if Valid ns then Status.ok else Status.invalid_argument) /\
  machine (snd (tick d w)) = post_machine ns (machine w).
Proof.
  intros Ht. pose proof (machine_step_world w) as Hw.
  pose proof (frame_step (cs (machine w)) (step_world w)) as Hstep.
  unfold tick. rewrite Ht. fold (step_world w).
  change (OnTick d _ _) with (step_world w). rewrite Hw, cs_pre_machine.
  destruct (Step d _ _) as [ns w1]. cbn [fst snd] in *. rewrite Hw in Hstep.
  unfold post_machine. destruct (Valid ns); cbn [negb andb fst snd]; split; try done.
  - rewrite machine_upd, Hstep. destruct (bool_decide _); cbn [negb]; [by rewrite Hstep|].
    by rewrite machine_Enter, machine_upd, frame_exit, Hstep.
  - by rewrite machine_upd, Hstep.
Qed.

(** The diagnostic counters stay consistent through every tick: the
    current state is valid, all counters saturate inside [uint64_t], the
    dwell count never exceeds the ticks credited to the current state and a
    started machine has entered its current state at least once. *)
Theorem tick_preserves_counters w :
  machine_ok (machine w) -> machine_ok (machine (snd (tick d w))).
Proof.
  intros Hm. destruct (ticking_ (machine w)) eqn:Ht; [by rewrite tick_busy|].
  pose proof (tick_body w Ht) as H. destruct (Step d _ _) as [ns w1].
  destruct H as [_ ->]. by apply post_machine_ok.
Qed.
End tick.

(** ** The calls of the hooks

    [logged d] is [d] with a record of every call: which hook, for which state,
    and the machine it finds.  The record lives in the object, so that a call
    whose effect got lost would be missing from it. *)

Inductive Hook (S : Type) := CallEnter (s : S) | CallExit (s : S) | CallTick (s : S) | CallStep (s : S).
Arguments CallEnter {S}. Arguments CallExit {S}. Arguments CallTick {S}. Arguments CallStep {S}.

Section calls.
Context {W S : Type} `{!StateEnum S, !HasMachine W S, !HasMachineLaws W S}.
Abbreviation Logged := (W * list (Hook S * Machine S))%type.
#[export] Instance logged_machine : HasMachine Logged S := {| machine p := machine (fst p); with_machine m p := (with_machine m (fst p), snd p) |}.
#[export] Instance logged_machine_laws : HasMachineLaws Logged S.
Proof.
  split.
  - intros m p. exact (machine_with m (fst p)).
  - intros m m' [w t]. cbn. by rewrite with_machine_with.
  - intros [w t]. cbn. by rewrite with_machine_id.
Qed.
Definition note (c : Hook S) (p : Logged) : list (Hook S * Machine S) := snd p ++ [(c, machine (fst p))].
Definition logged (d : Derived W S) : Derived Logged S :=
  mkDerived (fun s p => (OnEnter d s (fst p), note (CallEnter s) p)) (fun s p => (OnExit d s (fst p), note (CallExit s) p))
    (fun s p => (OnTick d s (fst p), note (CallTick s) p))
    (fun s p => let '(ns, w) := Step d s (fst p) in (ns, (w, note (CallStep s) p))).

Context (d : Derived W S) `{!FramedHooks d}.

Lemma Enter_logged p : Enter (logged d) p =
  (Enter d (fst p), snd p ++ [(CallEnter (cs (machine (fst p))), count_entry (cs (machine (fst p))) (machine (fst p)))]).
Proof. unfold Enter, upd_machine, note. cbn. unfold note. cbn. by rewrite !machine_with. Qed.
(** The machine that the first entry finds. *)
Definition first_machine (m : Machine S) : Machine S := count_entry (cs m) (m <| ticking_ := true |> <| started_ := true |>).
Lemma step_world_logged w t : ticking_ (machine w) = false -> step_world (logged d) (w, t) =
  (step_world d w, t ++ (if started_ (machine w) then [] else [(CallEnter (cs (machine w)), first_machine (machine w))]) ++
     [(CallTick (cs (machine w)), pre_machine (machine w))]).
Proof.
  intros Ht. unfold step_world, upd_machine. cbn [machine with_machine logged_machine fst snd OnTick logged]. rewrite !machine_with.
  unfold note, first_machine, pre_machine. destruct (started_ (machine w)) eqn:E; cbn [negb started_ field_update Machine_eta]; rewrite E; cbn [negb].
  - cbn [fst snd machine with_machine logged_machine]. rewrite !machine_with. done.
  - rewrite Enter_logged. cbn [fst snd machine with_machine logged_machine]. rewrite !machine_with, !(machine_Enter d), !machine_with. cbn. by rewrite <- app_assoc.
Qed.
(** The machine on entering [ns]. *)
Definition entry_machine (ns : S) (m : Machine S) : Machine S := count_entry ns ((pre_machine m) <| cs := ns |> <| dwell_ := 0 |>).
Lemma tick_logged w t : ticking_ (machine w) = false ->
  let m := machine w in
  let ns := fst (Step d (cs m) (step_world d w)) in
  snd (tick (logged d) (w, t)) =
    (snd (tick d w), t ++ (if started_ m then [] else [(CallEnter (cs m), first_machine m)]) ++ [(CallTick (cs m), pre_machine m); (CallStep (cs m), pre_machine m)] ++
       (if Valid ns && negb (bool_decide (ns = cs m)) then [(CallExit (cs m), pre_machine m); (CallEnter ns, entry_machine ns m)] else [])).
Proof.
  intros Ht m ns. pose proof (machine_step_world d w) as Hw. pose proof (frame_step (cs m) (step_world d w)) as Hs. rewrite Hw in Hs.
  unfold tick. cbn [machine logged_machine fst]. rewrite Ht. fold m.
  change (OnTick (logged d) _ _) with (step_world (logged d) (w, t)). change (OnTick d _ _) with (step_world d w).
  rewrite (step_world_logged w t Ht). cbn [machine logged_machine fst]. rewrite Hw, cs_pre_machine. fold m. cbn [Step logged fst]. unfold ns.
  destruct (Step d (cs m) (step_world d w)) as [ns1 w1]. cbn [fst snd] in *. unfold note. cbn [fst snd]. rewrite Hw. fold m.
  destruct (Valid ns1); cbn [negb andb]; [|cbn; f_equal; by rewrite <- !app_assoc].
  cbn [machine logged_machine fst]. rewrite Hs, cs_pre_machine. fold m.
  destruct (bool_decide (ns1 = cs m)); cbn [negb]; [cbn; f_equal; by rewrite <- !app_assoc|].
  rewrite Enter_logged. unfold upd_machine, entry_machine. cbn [machine with_machine logged_machine fst snd OnExit logged]. unfold note. cbn [fst snd].
  rewrite !machine_with, frame_exit, Hs. fold m. cbn. f_equal. by rewrite <- !app_assoc.
Qed.

(** C35: one [tick] of an idle machine.  It calls, in this order and no others:
    [OnEnter] of the initial state on the first tick, [OnTick] and [Step] of the
    current state, and, when the state that [Step] selects is valid and another,
    [OnExit] of the old state and [OnEnter] of the new one; each hook finds the
    object as the previous one left it, with the machine marked as ticking, the
    departing state credited, and for the last call the new state entered with
    dwell zero.  The machine ends as the reference says and the status reports
    whether the selection was valid; an invalid selection changes no state and
    calls no further hook.  A tick requested while another is in progress, which
    is what a hook sees, is rejected as [busy] and calls and changes nothing. *)
Theorem tick_refines_reference w t :
  let m := machine w in
  (ticking_ m = true -> tick (logged d) (w, t) = (Status.busy, (w, t))) /\
  (ticking_ m = false ->
   let ns := fst (Step d (cs m) (step_world d w)) in
   snd (tick (logged d) (w, t)) =
     (snd (tick d w), t ++ (if started_ m then [] else [(CallEnter (cs m), first_machine m)]) ++ [(CallTick (cs m), pre_machine m); (CallStep (cs m), pre_machine m)] ++
        (if Valid ns && negb (bool_decide (ns = cs m)) then [(CallExit (cs m), pre_machine m); (CallEnter ns, entry_machine ns m)] else [])) /\
   machine (snd (tick d w)) = post_machine ns m /\
   fst (tick d w) = (if Valid ns then Status.ok else Status.invalid_argument) /\
   ticking_ (first_machine m) = true /\ ticking_ (pre_machine m) = true /\ ticking_ (entry_machine ns m) = true).
Proof.
  intros m. split; [intros Ht; by apply tick_busy|]. intros Ht. split; [by apply tick_logged|]. pose proof (tick_body d w Ht) as H.
  fold m in H. destruct (Step d _ _) as [ns1 w1]. destruct H as [Hst Hm]. split_and!; try done; [apply ticking_pre_machine|].
  unfold entry_machine. cbn. apply ticking_pre_machine.
Qed.
End calls.

(** ** Derived classes that define [Step] only

    Every machine of the boot, update and scheduler libraries is of this form;
    the lemma gives the whole object after a tick, not just its machine. *)
Section step_only.
Context {W S : Type} `{!StateEnum S, !HasMachine W S, !HasMachineLaws W S}.
Context (step : S -> W -> S * W).
Context (Hframe : forall s w, machine (snd (step s w)) = machine w).

#[export] Instance step_only_framed : FramedHooks (step_only step).
Proof. by split. Qed.

Lemma upd_upd f g w : upd_machine f (upd_machine g w) = upd_machine (fun m => f (g m)) w.
Proof. unfold upd_machine. by rewrite machine_with, with_machine_with. Qed.

Lemma step_world_step_only w :
  step_world (step_only step) w = with_machine (pre_machine (machine w)) w.
Proof.
  unfold step_world, Enter. cbn [OnTick OnEnter step_only]. rewrite machine_upd.
  unfold pre_machine. destruct (started_ (machine w)) eqn:E; cbn; rewrite E; cbn [negb];
    rewrite !upd_upd; unfold upd_machine; done.
Qed.

Lemma tick_step_only w :
  ticking_ (machine w) = false ->
  tick (step_only step) w =
    let '(ns, w1) := step (cs (machine w)) (with_machine (pre_machine (machine w)) w) in
    (if Valid ns then Status.ok else Status.invalid_argument,
     with_machine (post_machine ns (machine w)) w1).
Proof.
  intros Ht. pose proof (machine_step_world (step_only step) w) as Hw.
  unfold tick. rewrite Ht. change (OnTick _ _ _) with (step_world (step_only step) w).
  rewrite Hw, cs_pre_machine, step_world_step_only. cbn [Step step_only].
  pose proof (Hframe (cs (machine w)) (with_machine (pre_machine (machine w)) w)) as Hs.
  rewrite machine_with in Hs. destruct (step _ _) as [ns w1]. cbn [snd] in Hs.
  unfold Enter. cbn [OnExit OnEnter step_only]. unfold post_machine.
  destruct (Valid ns); cbn [negb andb].
  - rewrite Hs. destruct (bool_decide _); cbn [negb].
    + f_equal. unfold upd_machine. by rewrite Hs.
    + f_equal. rewrite !upd_upd. unfold upd_machine. by rewrite Hs.
  - f_equal. unfold upd_machine. by rewrite Hs.
Qed.
End step_only.

(** A step that neither reads nor writes its machine sees the object as it is
    before the tick. *)
Lemma tick_oblivious {W S : Type} `{!StateEnum S, !HasMachine W S, !HasMachineLaws W S} (step : S -> W -> S * W) w :
  (forall s m w, step s (with_machine m w) = (fst (step s w), with_machine m (snd (step s w)))) ->
  ticking_ (machine w) = false ->
  snd (tick (step_only step) w) =
    with_machine (post_machine (fst (step (cs (machine w)) w)) (machine w)) (snd (step (cs (machine w)) w)).
Proof.
  intros Hobl Ht.
  assert (Hframe : forall s w, machine (snd (step s w)) = machine w).
  { intros s w0. rewrite <- (with_machine_id w0) at 1. rewrite Hobl. cbn [snd]. apply machine_with. }
  rewrite (tick_step_only step Hframe w Ht), Hobl. cbn [snd]. apply with_machine_with.
Qed.

(** The same for a derived class with [Step] and [OnEnter], neither of which
    looks at the machine. *)
Definition step_and_entry {W S} (step : S -> W -> S * W) (enter : S -> W -> W) : Derived W S :=
  mkDerived enter (fun _ w => w) (fun _ w => w) step.

Lemma tick_entry_oblivious {W S : Type} `{!StateEnum S, !HasMachine W S, !HasMachineLaws W S}
    (step : S -> W -> S * W) (enter : S -> W -> W) w :
  (forall s m w, step s (with_machine m w) = (fst (step s w), with_machine m (snd (step s w)))) ->
  (forall s m w, enter s (with_machine m w) = with_machine m (enter s w)) ->
  ticking_ (machine w) = false ->
  let m := machine w in
  let r := step (cs m) (if started_ m then w else enter (cs m) w) in
  snd (tick (step_and_entry step enter) w) =
    with_machine (post_machine (fst r) m)
      (if Valid (fst r) && negb (bool_decide (fst r = cs m)) then enter (fst r) (snd r) else snd r).
Proof.
  intros Hstep Henter Ht m r.
  assert (Hw : step_world (step_and_entry step enter) w =
               with_machine (pre_machine m) (if started_ m then w else enter (cs m) w)).
  { unfold step_world, Enter, upd_machine. cbn [OnTick OnEnter step_and_entry]. fold m. rewrite !machine_with.
    unfold pre_machine. destruct (started_ m) eqn:E; cbn; rewrite E; cbn [negb];
      rewrite !with_machine_with, ?machine_with, ?Henter, ?with_machine_with, ?machine_with, ?with_machine_with; done. }
  unfold tick. rewrite Ht. change (OnTick _ _ _) with (step_world (step_and_entry step enter) w).
  rewrite Hw, machine_with, cs_pre_machine. cbn [Step step_and_entry]. rewrite Hstep. fold r.
  unfold Enter, upd_machine. cbn [OnExit OnEnter step_and_entry]. unfold post_machine.
  destruct (Valid (fst r)); cbn [negb andb].
  - rewrite machine_with, cs_pre_machine. destruct (bool_decide _); cbn [negb snd].
    + rewrite machine_with, with_machine_with. done.
    + rewrite !machine_with, !with_machine_with, Henter, machine_with, with_machine_with. done.
  - cbn [snd]. by rewrite machine_with, with_machine_with.
Qed.

(** A property that no hook and no change of the machine disturbs. *)
Lemma tick_preserves {W S : Type} `{!StateEnum S, !HasMachine W S} (d : Derived W S) (P : W -> Prop) w :
  (forall m w, P w -> P (with_machine m w)) -> (forall s w, P w -> P (OnEnter d s w)) -> (forall s w, P w -> P (OnExit d s w)) ->
  (forall s w, P w -> P (OnTick d s w)) -> (forall s w, P w -> P (snd (Step d s w))) -> P w -> P (snd (tick d w)).
Proof.
  intros Hm He Hx Ht Hs Hw. unfold tick, Enter, upd_machine. destruct (ticking_ _); [done|]. cbv zeta.
  match goal with |- P (snd (let '(_, _) := Step d ?s ?v in _)) => assert (P (snd (Step d s v))) as H; [|destruct (Step d s v) as [ns w1]] end.
  - apply Hs, Ht, Hm, Hm. destruct (negb _); [|by apply Hm]. by apply He, Hm, Hm, Hm.
  - cbn [snd] in H. destruct (negb (Valid ns)); [by apply Hm|]. apply Hm. destruct (negb _); [|done]. by apply He, Hm, Hm, Hx.
Qed.

(** ** A two-state machine, as an instance of the theorems *)

Definition blink_step (s : bool) (w : Machine bool * Z) : bool * (Machine bool * Z) :=
  (negb s, (fst w, snd w + 1)).
#[local] Instance blink_states : StateEnum bool :=
  {| state_index (b : bool) := if b then 1%nat else 0%nat; state_count := 2%nat |}.
#[local] Instance blink_machine : HasMachine (Machine bool * Z) bool :=
  {| machine := fst; with_machine m w := (m, snd w) |}.
#[local] Instance blink_laws : HasMachineLaws (Machine bool * Z) bool.
Proof. split; [done|done|by intros []]. Qed.

#[local] Instance blink_framed : FramedHooks (step_only blink_step).
Proof. by apply step_only_framed. Qed.

(** The same machine with hooks that count their calls. *)
Definition blink_hooks : Derived (Machine bool * Z) bool :=
  mkDerived (fun _ w => (fst w, snd w + 10)) (fun _ w => (fst w, snd w + 100)) (fun _ w => (fst w, snd w + 1000)) blink_step.
#[local] Instance blink_hooks_framed : FramedHooks blink_hooks.
Proof. by split. Qed.
Lemma tick_refines_reference_witness :
  let w := (initial_machine false, 0) in
  (fst <$> snd (snd (tick (logged blink_hooks) (w, [])))) = [CallEnter false; CallTick false; CallStep false; CallExit false; CallEnter true] /\
  snd (snd (tick blink_hooks w)) = 1121 /\ machine (snd (tick blink_hooks w)) = post_machine true (initial_machine false).
Proof.
  pose (H := proj2 (@tick_refines_reference _ _ _ _ blink_laws blink_hooks blink_hooks_framed (initial_machine false, 0) []) eq_refl).
  split; [rewrite (proj1 H); reflexivity|]. split; [reflexivity|exact (proj1 (proj2 H))].
Defined.

Lemma tick_preserves_counters_witness :
  machine_ok (machine (snd (tick (step_only blink_step) (initial_machine false, 0)))).
Proof.
  apply (@tick_preserves_counters _ _ _ _ blink_laws (step_only blink_step)
           blink_framed (initial_machine false, 0)).
  by apply initial_machine_ok.
Defined.
