(* ===== verification/Queue.v ===== *)
(** * Bounded FIFO queues (src/lib/core/queue/queue.hpp)

    [Queue] is a ring buffer; the refinement theorem compares every sequence of
    its operations with a plain list.  [ThreadSafeQueue] wraps it in a mutex or a
    critical section of the platform. *)

From S2P Require Import Prelude Foundation.

(** ** The ring buffer *)

Section queue.
Context {T : Type} `{Inhabited T} (Capacity : nat).

Record Queue := mkQueue { items_ : list T; head_ : nat; count_ : nat }.

Definition new_queue : Queue := mkQueue (replicate Capacity inhabitant) 0 0.

Definition empty (q : Queue) : bool := (count_ q =? 0)%nat.
Definition full (q : Queue) : bool := (count_ q =? Capacity)%nat.

Definition push (item : T) (q : Queue) : Status * Queue :=
  if full q then (Status.full, q)
  else (Status.ok, mkQueue (<[((head_ q + count_ q) mod Capacity)%nat := item]> (items_ q))
                           (head_ q) (S (count_ q))).

(** [out] is the caller's output variable before the call. *)
Definition pop (out : T) (q : Queue) : Status * T * Queue :=
  if empty q then (Status.empty, out, q)
  else (Status.ok, items_ q !!! head_ q,
        mkQueue (items_ q) ((head_ q + 1) mod Capacity)%nat (count_ q - 1)).

Definition peek (out : T) (q : Queue) : Status * T :=
  if empty q then (Status.empty, out) else (Status.ok, items_ q !!! head_ q).

Definition clear (q : Queue) : Queue := mkQueue (items_ q) 0 0.

(** ** Reference: a list with a bound *)

Inductive QueueOp := Push (item : T) | Pop (out : T) | Peek (out : T) | Clear.

(** The visible effect of an operation: its status and output value. *)
Definition queue_step (op : QueueOp) (q : Queue) : (Status * option T) * Queue :=
  match op with
  | Push item => let '(st, q) := push item q in ((st, None), q)
  | Pop out => let '(st, v, q) := pop out q in ((st, Some v), q)
  | Peek out => let '(st, v) := peek out q in ((st, Some v), q)
  | Clear => ((Status.ok, None), clear q)
  end.

Definition fifo_step (op : QueueOp) (l : list T) : (Status * option T) * list T :=
  match op with
  | Push item => if (length l <? Capacity)%nat then ((Status.ok, None), l ++ [item])
                 else ((Status.full, None), l)
  | Pop out => match l with [] => ((Status.empty, Some out), []) | x :: l => ((Status.ok, Some x), l) end
  | Peek out => match l with [] => ((Status.empty, Some out), l) | x :: _ => ((Status.ok, Some x), l) end
  | Clear => ((Status.ok, None), [])
  end.

Fixpoint queue_run (ops : list QueueOp) (q : Queue) : list (Status * option T) * Queue :=
  match ops with
  | [] => ([], q)
  | op :: ops => let '(r, q) := queue_step op q in
                 let '(rs, q) := queue_run ops q in (r :: rs, q)
  end.
Fixpoint fifo_run (ops : list QueueOp) (l : list T) : list (Status * option T) * list T :=
  match ops with
  | [] => ([], l)
  | op :: ops => let '(r, l) := fifo_step op l in
                 let '(rs, l) := fifo_run ops l in (r :: rs, l)
  end.

(** ** Simulation *)

Context (HC : (0 < Capacity)%nat).

Record queue_ok (q : Queue) : Prop := {
  qok_length : length (items_ q) = Capacity;
  qok_head : (head_ q < Capacity)%nat;
  qok_count : (count_ q <= Capacity)%nat
}.

Definition contents (q : Queue) : list T :=
  (fun i => items_ q !!! ((head_ q + i) mod Capacity)%nat) <$> seq 0 (count_ q).

#[local] Arguments contents : simpl never.

Lemma length_contents q : length (contents q) = count_ q.
Proof. unfold contents. by rewrite length_fmap, length_seq. Qed.

Lemma lookup_contents q i : (i < count_ q)%nat ->
  contents q !! i = Some (items_ q !!! ((head_ q + i) mod Capacity)%nat).
Proof. intros Hi. unfold contents. rewrite list_lookup_fmap, lookup_seq_lt by done. done. Qed.

Lemma ring_index h i j :
  (i < Capacity)%nat -> (j < Capacity)%nat -> ((h + i) mod Capacity = (h + j) mod Capacity)%nat -> i = j.
Proof.
  intros Hi Hj Heq. rewrite <- (Nat.Div0.add_mod_idemp_l h i), <- (Nat.Div0.add_mod_idemp_l h j) in Heq.
  pose proof (Nat.mod_upper_bound h Capacity ltac:(lia)). set (r := (h mod Capacity)%nat) in *.
  assert (Hmod : forall k, (k < Capacity)%nat -> ((r + k) mod Capacity = if decide (r + k < Capacity) then r + k else r + k - Capacity)%nat).
  { intros k Hk. case_decide; [by apply Nat.mod_small|].
    replace (r + k)%nat with ((r + k - Capacity) + 1 * Capacity)%nat at 1 by lia.
    rewrite Nat.Div0.mod_add. apply Nat.mod_small. lia. }
  rewrite !Hmod in Heq by done. repeat case_decide; lia.
Qed.

Lemma push_contents q item : queue_ok q -> (count_ q < Capacity)%nat ->
  let q' := snd (push item q) in queue_ok q' /\ contents q' = contents q ++ [item].
Proof.
  intros [] Hlt. unfold push, full. rewrite (proj2 (Nat.eqb_neq _ _)) by lia. cbn [snd].
  split; [by split; cbn; rewrite ?length_insert; try lia|].
  apply list_eq. intros i. destruct (decide (i < S (count_ q))%nat) as [Hi|Hi].
  - rewrite lookup_contents by done. cbn. destruct (decide (i = count_ q)) as [->|Hne].
    + rewrite lookup_app_r, length_contents, Nat.sub_diag by (rewrite length_contents; lia). cbn.
      rewrite list_lookup_total_insert_eq; [done|]. rewrite qok_length0. apply Nat.mod_upper_bound. lia.
    + rewrite list_lookup_total_insert_ne by (intros E; apply ring_index in E; lia).
      rewrite lookup_app_l by (rewrite length_contents; lia). rewrite lookup_contents by lia. done.
  - rewrite !lookup_ge_None_2; [done| |]; rewrite ?length_app, !length_contents; cbn; lia.
Qed.

Lemma contents_head q : queue_ok q -> (0 < count_ q)%nat ->
  contents q = items_ q !!! head_ q ::
    contents (mkQueue (items_ q) ((head_ q + 1) mod Capacity)%nat (count_ q - 1)).
Proof.
  intros [] Hc. apply list_eq. intros [|i]; cbn [lookup list_lookup].
  - rewrite lookup_contents by done. rewrite Nat.add_0_r, Nat.mod_small by done. done.
  - change (list_lookup i (contents ?q')) with (contents q' !! i).
    destruct (decide (S i < count_ q)%nat).
    + rewrite !lookup_contents by (cbn; lia). cbn. rewrite Nat.Div0.add_mod_idemp_l. do 3 f_equal. lia.
    + rewrite (lookup_ge_None_2 (contents q)) by (rewrite length_contents; lia).
      symmetry. apply lookup_ge_None_2. rewrite length_contents. cbn. lia.
Qed.

Lemma queue_step_refines op q : queue_ok q ->
  let '(r, q') := queue_step op q in
  queue_ok q' /\ fifo_step op (contents q) = (r, contents q').
Proof.
  intros Hq. pose proof (length_contents q) as Hl. destruct op as [item|out|out|]; cbn [queue_step fifo_step].
  - rewrite Hl. destruct (Nat.ltb_spec (count_ q) Capacity) as [Hlt|Hge].
    + pose proof (push_contents q item Hq Hlt) as [Hok Hc]. unfold push, full in *.
      rewrite (proj2 (Nat.eqb_neq _ _)) in * by lia. cbn in Hok, Hc. split; [done|]. by rewrite Hc.
    + unfold push, full. rewrite (proj2 (Nat.eqb_eq _ _)) by (destruct Hq; lia). by split.
  - unfold pop, empty. destruct (Nat.eqb_spec (count_ q) 0) as [E|E].
    + split; [done|]. rewrite E in Hl. by apply nil_length_inv in Hl as ->.
    + rewrite contents_head by (done || lia). split; [|done].
      destruct Hq. split; cbn; [done|apply Nat.mod_upper_bound; lia|lia].
  - unfold peek, empty. destruct (Nat.eqb_spec (count_ q) 0) as [E|E]; (split; [done|]).
    + rewrite E in Hl. by apply nil_length_inv in Hl as ->.
    + rewrite contents_head by (done || lia). done.
  - split; [|done]. destruct Hq. split; cbn; [done|lia|lia].
Qed.

Lemma queue_run_refines ops q : queue_ok q ->
  let '(rs, q') := queue_run ops q in queue_ok q' /\ fifo_run ops (contents q) = (rs, contents q').
Proof.
  revert q. induction ops as [|op ops IH]; intros q Hq; cbn; [done|].
  pose proof (queue_step_refines op q Hq) as Hs. destruct (queue_step op q) as [r q1]. destruct Hs as [Hq1 ->].
  specialize (IH q1 Hq1). destruct (queue_run ops q1) as [rs q2]. destruct IH as [Hq2 ->]. done.
Qed.

(** the ring buffer is a bounded FIFO: for every sequence of [push], [pop],
    [peek] and [clear], a new queue answers with the statuses and values of a
    list of at most [Capacity] elements, including [full] and [empty] and the
    untouched outputs. *)
Theorem queue_is_fifo ops :
  fst (queue_run ops new_queue) = fst (fifo_run ops []) /\
  contents (snd (queue_run ops new_queue)) = snd (fifo_run ops []) /\
  (length (snd (fifo_run ops [])) <= Capacity)%nat.
Proof.
  assert (Hq : queue_ok new_queue).
  { split; cbn; [by rewrite length_replicate|lia|lia]. }
  pose proof (queue_run_refines ops new_queue Hq) as Hr. destruct (queue_run ops new_queue) as [rs q].
  destruct Hr as [Hok Hf]. change (contents new_queue) with (@nil T) in Hf. rewrite Hf. cbn.
  split_and!; [done..|]. rewrite length_contents. apply Hok.
Qed.
End queue.

Lemma queue_is_fifo_witness :
  let ops : list (@QueueOp Z) := [Push 1; Push 2; Push 3; Pop 0; Push 4; Peek 9; Pop 0; Pop 0; Pop 7] in
  fst (queue_run 2 ops (new_queue (T := Z) 2)) = fst (fifo_run 2 ops []) /\
  contents 2 (snd (queue_run 2 ops (new_queue (T := Z) 2))) = snd (fifo_run 2 ops []) /\
  (length (snd (fifo_run 2 ops [])) <= 2)%nat.
Proof. apply (queue_is_fifo (T := Z) 2 ltac:(lia)). Defined.

(** ** The synchronized queue

    The platform's optional mutex is held or not; without one, a critical
    section nests. *)

Record Platform := mkPlatform { mutex_held : option bool; critical : nat }.

Section thread_safe.
Context {T : Type} `{Inhabited T} (Capacity : nat).

Record ThreadSafeQueue := mkTSQ { platform_ : Platform; queue_ : @Queue T }.

(** [WithLock]: the function may run further code of the same context, which
    sees the lock taken, so it works on the whole object. *)
Definition WithLock {A} (function : ThreadSafeQueue -> (Status * A) * ThreadSafeQueue) (out : A)
    (w : ThreadSafeQueue) : (Status * A) * ThreadSafeQueue :=
  match mutex_held (platform_ w) with
  | Some true => ((Status.busy, out), w)
  | Some false =>
      let '(r, w) := function (mkTSQ (mkPlatform (Some true) (critical (platform_ w))) (queue_ w)) in
      (r, mkTSQ (mkPlatform (Some false) (critical (platform_ w))) (queue_ w))
  | None =>
      let '(r, w) := function (mkTSQ (mkPlatform None (S (critical (platform_ w)))) (queue_ w)) in
      (r, mkTSQ (mkPlatform None (critical (platform_ w) - 1)) (queue_ w))
  end.

(** The operations: [on_queue] lifts one of the ring buffer's. *)
Definition on_queue {A} (f : @Queue T -> (Status * A) * @Queue T) (w : ThreadSafeQueue)
  : (Status * A) * ThreadSafeQueue :=
  let '(r, q) := f (queue_ w) in (r, mkTSQ (platform_ w) q).

Definition ts_push (item : T) : ThreadSafeQueue -> (Status * option T) * ThreadSafeQueue :=
  WithLock (on_queue (queue_step Capacity (Push item))) None.
Definition ts_pop (out : T) : ThreadSafeQueue -> (Status * option T) * ThreadSafeQueue :=
  WithLock (on_queue (queue_step Capacity (Pop out))) (Some out).
Definition ts_peek (out : T) : ThreadSafeQueue -> (Status * option T) * ThreadSafeQueue :=
  WithLock (on_queue (queue_step Capacity (Peek out))) (Some out).
Definition ts_clear : ThreadSafeQueue -> (Status * option T) * ThreadSafeQueue :=
  WithLock (on_queue (queue_step Capacity Clear)) None.
Definition Query {V} (default_ : V) (function : @Queue T -> V) : ThreadSafeQueue -> (Status * V) * ThreadSafeQueue :=
  WithLock (on_queue (fun q => ((Status.ok, function q), q))) default_.
Definition ts_size := Query 0%nat (@count_ T).
Definition ts_empty := Query false (@empty T).
Definition ts_full := Query false (@full T Capacity).

Definition ts_step (op : QueueOp) : ThreadSafeQueue -> (Status * option T) * ThreadSafeQueue :=
  match op with Push x => ts_push x | Pop o => ts_pop o | Peek o => ts_peek o | Clear => ts_clear end.

(** The synchronized queue is the ring buffer when the lock can be taken,
    and otherwise reports [busy] with queue and output unchanged; either way
    the mutex and the critical-section depth are as before the call. *)
Theorem ts_step_locked_or_busy op (w : ThreadSafeQueue) :
  let '((st, v), w') := ts_step op w in
  platform_ w' = platform_ w /\
  if bool_decide (mutex_held (platform_ w) = Some true)
  then st = Status.busy /\ w' = w /\ v = match op with Pop o | Peek o => Some o | _ => None end
  else queue_step Capacity op (queue_ w) = ((st, v), queue_ w').
Proof.
  destruct w as [[m c] q]. destruct op; cbn [ts_step]; unfold ts_push, ts_pop, ts_peek, ts_clear, WithLock, on_queue;
    cbn [mutex_held platform_ critical queue_]; destruct m as [[]|]; rewrite ?bool_decide_true, ?bool_decide_false by done;
    try done; destruct (queue_step Capacity _ q) as [[st v] q1]; cbn; rewrite ?Nat.sub_0_r; done.
Qed.

(** Code that runs inside the locked region, such as an interrupt handler on
    the same platform, cannot disturb it: with a mutex, any operation it tries
    is refused with [busy] and changes nothing. *)
Theorem nested_access_refused op (w : ThreadSafeQueue) seen result :
  mutex_held (platform_ w) = Some false ->
  WithLock (fun inner => let '((st, v), inner') := ts_step op inner in
                         ((st, (inner, inner')), inner')) seen w = result ->
  fst (fst result) = Status.busy /\ fst (snd (fst result)) = snd (snd (fst result)) /\
  queue_ (snd result) = queue_ w /\ platform_ (snd result) = platform_ w.
Proof.
  destruct w as [[m c] q]. cbn. intros -> <-. unfold WithLock. cbn [mutex_held platform_ queue_ critical].
  destruct op; done.
Qed.
End thread_safe.

Lemma nested_access_refused_witness :
  let w := mkTSQ (mkPlatform (Some false) 0) (new_queue (T := Z) 2) in
  Status.busy = Status.busy /\
  mkTSQ (mkPlatform (Some true) 0) (new_queue (T := Z) 2) = mkTSQ (mkPlatform (Some true) 0) (new_queue (T := Z) 2) /\
  queue_ w = new_queue (T := Z) 2 /\ platform_ w = mkPlatform (Some false) 0.
Proof.
  exact (nested_access_refused 2 (Push 5) (mkTSQ (mkPlatform (Some false) 0) (new_queue (T := Z) 2))
    (mkTSQ (mkPlatform None 0) (new_queue (T := Z) 2), mkTSQ (mkPlatform None 0) (new_queue (T := Z) 2)) _ eq_refl eq_refl).
Defined.
