(* ===== verification/Match.v ===== *)
(** * Names and abbreviations (src/lib/core/command/match.hpp)

    Case-insensitive names, their validation at registration, and the lookup of
    a name from an exact spelling or a unique abbreviation.  Characters are
    their codes; a [const char*] is an optional list. *)

From S2P Require Import Prelude Foundation.

Definition Name := list Z.

Definition Fold (c : Z) : Z := if (c >=? 65) && (c <=? 90) then c + (97 - 65) else c.

(** The loop over the characters of two views of equal length. *)
Fixpoint equal_folded (a b : Name) : bool :=
  match a, b with
  | x :: a, y :: b => if negb (Fold x =? Fold y) then false else equal_folded a b
  | _, _ => true
  end.
Definition EqualName (a b : Name) : bool :=
  if negb (length a =? length b)%nat then false else equal_folded a b.

Fixpoint UniqueNames_from (previous names : list (option Name)) (allow_null : bool) : bool :=
  match names with
  | [] => true
  | None :: names => if allow_null then UniqueNames_from (previous ++ [None]) names allow_null else false
  | Some [] :: _ => false
  | Some name :: names =>
      if existsb (fun p => match p with Some q => EqualName name q | None => false end) previous
      then false else UniqueNames_from (previous ++ [Some name]) names allow_null
  end.
Definition UniqueNames (names : list (option Name)) (allow_null : bool) : bool :=
  UniqueNames_from [] names allow_null.

Definition ValidCommandName (name : option Name) : bool :=
  match name with
  | None | Some [] => false
  | Some name =>
      forallb (fun ch => let c := Fold ch in
        ((c >=? 97) && (c <=? 122)) || ((c >=? 48) && (c <=? 57)) || (c =? 95) || (c =? 45)) name
  end.

Record NameMatch := mkNameMatch { match_status : Status; match_index : nat }.

Definition proper_prefix (query candidate : Name) : bool :=
  (length query <? length candidate)%nat && EqualName query (take (length query) candidate).

(** The loop of [lazy_match], from candidate [i] on. *)
Fixpoint lazy_loop (query : Name) (i : nat) (names : list Name) (result : NameMatch) : NameMatch :=
  match names with
  | [] => result
  | candidate :: names =>
      if EqualName query candidate then mkNameMatch Status.ok i
      else lazy_loop query (S i) names
             (if proper_prefix query candidate
              then mkNameMatch (if match_status result =s? Status.not_found then Status.ok
                                else Status.ambiguous_match) i
              else result)
  end.
Definition lazy_match (query : Name) (names : list Name) : NameMatch :=
  match query with
  | [] => mkNameMatch Status.not_found 0
  | _ => lazy_loop query 0 names (mkNameMatch Status.not_found 0)
  end.

(** ** Equality of names *)

Definition same_name (a b : Name) : Prop := map Fold a = map Fold b.
#[export] Instance same_name_equivalence : Equivalence same_name.
Proof. unfold same_name. split; [by intros ?|by intros ??|intros ???; congruence]. Qed.

Lemma EqualName_spec a b : EqualName a b = true <-> same_name a b.
Proof.
  unfold EqualName, same_name. destruct (Nat.eqb_spec (length a) (length b)) as [Hl|Hl]; cbn [negb].
  - revert b Hl. induction a as [|x a IH]; intros [|y b] Hl; try done. cbn. cbn in Hl.
    destruct (Z.eqb_spec (Fold x) (Fold y)) as [->|Hne]; cbn [negb].
    + rewrite IH by lia. split; congruence.
    + split; congruence.
  - split; [done|]. intros H. apply (f_equal length) in H. by rewrite !length_map in H.
Qed.

Lemma EqualName_sym a b : EqualName a b = EqualName b a.
Proof. apply eq_true_iff_eq. rewrite !EqualName_spec. split; intros; by symmetry. Qed.

#[export] Instance EqualName_proper : Proper (same_name ==> same_name ==> eq) EqualName.
Proof.
  intros a a' Ha b b' Hb. apply eq_true_iff_eq. rewrite !EqualName_spec. by rewrite Ha, Hb.
Qed.

(** [UniqueNames] accepts a registration exactly if every name present is
    nonempty, no two names are equal up to ASCII case, and a missing name is
    permitted. *)
Theorem UniqueNames_spec names allow_null :
  UniqueNames names allow_null = true <->
  (forall i, names !! i = Some None -> allow_null = true) /\
  (forall i n, names !! i = Some (Some n) -> n <> []) /\
  (forall i j a b, (j < i)%nat -> names !! i = Some (Some a) -> names !! j = Some (Some b) -> ~ same_name a b).
Proof.
  unfold UniqueNames.
  enough (H : forall prev, UniqueNames_from prev names allow_null = true <->
    (forall i, names !! i = Some None -> allow_null = true) /\
    (forall i n, names !! i = Some (Some n) -> n <> []) /\
    (forall i j a b, (j < length prev + i)%nat -> names !! i = Some (Some a) ->
       (prev ++ names) !! j = Some (Some b) -> ~ same_name a b)).
  { rewrite H. by setoid_rewrite app_nil_l. }
  induction names as [|n names IH]; intros prev; cbn [UniqueNames_from].
  { split; [intros _; split_and!; intros *; rewrite lookup_nil; done|done]. }
  assert (Hstep : forall x, n = x -> x <> Some [] ->
    (forall b, x = Some b -> forall j c, (j < length prev)%nat -> prev !! j = Some (Some c) -> ~ same_name b c) ->
    (x = None -> allow_null = true) ->
    (UniqueNames_from (prev ++ [x]) names allow_null = true <->
     (forall i, (n :: names) !! i = Some None -> allow_null = true) /\
     (forall i m, (n :: names) !! i = Some (Some m) -> m <> []) /\
     (forall i j a b, (j < length prev + i)%nat -> (n :: names) !! i = Some (Some a) ->
        (prev ++ n :: names) !! j = Some (Some b) -> ~ same_name a b))).
  { intros x -> Hne Huniq Hnull. rewrite (IH (prev ++ [x])), length_app, <- app_assoc. cbn [length app].
    split; intros (H1 & H2 & H3); split_and!.
    - intros [|i]; cbn; [intros [= ->]; by apply Hnull|apply H1].
    - intros [|i] m; cbn; [intros [= ->] ->; done|apply H2].
    - intros [|i] j a b Hj; cbn; [|intros Ha Hb; apply (H3 i j); [lia|done..]].
      intros [= ->]. rewrite lookup_app_l by lia. apply (Huniq _ eq_refl); lia.
    - intros i Hi. by apply (H1 (S i)).
    - intros i m Hi. by apply (H2 (S i)).
    - intros i j a b Hj Ha Hb. apply (H3 (S i) j); [lia|done..]. }
  destruct n as [[|c n]|].
  - split; [done|]. intros (_ & H & _). by destruct (H 0%nat []).
  - destruct (existsb _ prev) eqn:Ex.
    + split; [done|]. intros (_ & _ & H). apply existsb_exists in Ex as (p & Hin & Hp).
      destruct p as [q|]; [|done]. apply EqualName_spec in Hp. apply list_elem_of_In, list_elem_of_lookup in Hin as [j Hj].
      pose proof (lookup_lt_Some _ _ _ Hj). exfalso.
      apply (H 0%nat j (c :: n) q); [lia|done|by rewrite lookup_app_l by lia|done].
    + apply Hstep; [done|done| |done]. intros b [= <-] j d Hj Hd Hs.
      apply EqualName_spec in Hs. apply not_true_iff_false in Ex. apply Ex.
      apply existsb_exists. exists (Some d). split; [|done]. apply list_elem_of_In. by eapply list_elem_of_lookup_2.
  - destruct allow_null.
    + apply Hstep; try done.
    + split; [done|]. intros (H & _). by apply (H 0%nat).
Qed.

(** ** Abbreviations *)

(** Indices of the candidates that [p] accepts, from index [i] on. *)
Fixpoint hits (p : Name -> bool) (i : nat) (names : list Name) : list nat :=
  match names with
  | [] => []
  | n :: names => if p n then i :: hits p (S i) names else hits p (S i) names
  end.

(** The intended meaning: an exact name wins; otherwise the abbreviation has to
    be unique. *)
Definition lookup_name (query : Name) (names : list Name) : NameMatch :=
  match hits (EqualName query) 0 names, hits (proper_prefix query) 0 names with
  | i :: _, _ => mkNameMatch Status.ok i
  | [], [] => mkNameMatch Status.not_found 0
  | [], [i] => mkNameMatch Status.ok i
  | [], hs => mkNameMatch Status.ambiguous_match (default 0%nat (last hs))
  end.

(** The accumulator after the prefix hits [hs]. *)
Definition prefix_result (hs : list nat) : NameMatch :=
  match hs with
  | [] => mkNameMatch Status.not_found 0
  | [i] => mkNameMatch Status.ok i
  | hs => mkNameMatch Status.ambiguous_match (default 0%nat (last hs))
  end.

Lemma prefix_result_snoc hs i :
  prefix_result (hs ++ [i]) =
  mkNameMatch (if match_status (prefix_result hs) =s? Status.not_found then Status.ok else Status.ambiguous_match) i.
Proof.
  destruct hs as [|a [|b hs]]; [done|done|].
  change ((a :: b :: hs) ++ [i]) with (a :: b :: (hs ++ [i])). cbn [prefix_result].
  change (a :: b :: hs ++ [i]) with ((a :: b :: hs) ++ [i]). by rewrite last_snoc.
Qed.

Lemma lazy_loop_spec query i names hs :
  lazy_loop query i names (prefix_result hs) =
  match hits (EqualName query) i names with
  | k :: _ => mkNameMatch Status.ok k
  | [] => prefix_result (hs ++ hits (proper_prefix query) i names)
  end.
Proof.
  revert i hs. induction names as [|n names IH]; intros i hs; cbn [lazy_loop hits]; [by rewrite app_nil_r|].
  destruct (EqualName query n); [done|].
  destruct (proper_prefix query n).
  - rewrite <- prefix_result_snoc, IH. by rewrite <- app_assoc.
  - apply IH.
Qed.

(** [lazy_match] is the lookup by exact name or unique abbreviation: the
    first candidate with the same name (up to ASCII case) wins; otherwise one
    candidate that the query abbreviates is [ok], several are
    [ambiguous_match], none and the empty query are [not_found]. *)
Theorem lazy_match_spec query names :
  lazy_match query names =
  match query with [] => mkNameMatch Status.not_found 0 | _ => lookup_name query names end.
Proof.
  destruct query as [|c query]; [done|]. unfold lazy_match, lookup_name.
  rewrite (lazy_loop_spec _ 0 names []). cbn [app].
  destruct (hits (EqualName _) 0 names); [|done]. by destruct (hits (proper_prefix _) 0 names) as [|? [|]].
Qed.
