(* ===== verification/Logging.v ===== *)
(** * Logging (src/lib/core/logging)

    [Logger] is a bounded buffer between the callers of [log], interrupts
    included, and the subscribers that the scheduler serves.  A write takes the
    lock twice, once to test the level and once to store the record, and formats
    in between: the two locked regions are the definitions [accepts] and
    [append], and [vsnprintf] gives the complete text, or [None] for an error.
    [sink_] records the calls of the subscribers' callbacks. *)

From S2P Require Import Prelude Foundation Wire Match Queue.

Module Level.
Inductive Level : Set := debug | info | warning | error | fatal.
End Level.
Definition level_value (l : Level.Level) : Z :=
  match l with Level.debug => 0 | Level.info => 1 | Level.warning => 2 | Level.error => 3 | Level.fatal => 4 end.

Record LogContext := mkLogContext { log_module : Name; log_task : Name }.
Record Stored := mkStored {
  log_timestamp : Time; log_severity : Level.Level; log_context : LogContext; log_text : list Z; log_length : nat
}.
#[export] Instance Stored_inhabited : Inhabited Stored := populate (mkStored 0 Level.debug (mkLogContext [] []) [] 0).
(** What a subscriber sees. *)
Record LogRecord := mkLogRecord { rec_timestamp : Time; rec_severity : Level.Level; rec_module : Name; rec_task : Name; rec_message : Name }.
Record LogCounters := mkLogCounters { dropped : Z; truncated : Z }.
#[export] Instance LogCounters_eta : RecordEta LogCounters := fun c => mkLogCounters (dropped c) (truncated c).

(** [snprintf] into an array of [n] bytes: the text up to the terminator. *)
Definition snprintf (n : nat) (text : Name) : Name := take (n - 1) text.
(** The array of bytes after the call, its old contents behind the terminator. *)
Definition snprintf_array (n : nat) (text old : list Z) : list Z := blit 0 (snprintf n text ++ [0]) old.

Section logger.
Context (Capacity MessageSize : nat).
(** Which subscribers have a callback. *)
Context (subscribers_ : list bool).

Record Logger := mkLogger {
  records_ : Queue (T:=Stored); minimum_ : Level.Level; counters_ : LogCounters;
  sink_ : list (nat * LogRecord); notified : nat
}.
#[export] Instance Logger_eta : RecordEta Logger := fun l => mkLogger (records_ l) (minimum_ l) (counters_ l) (sink_ l) (notified l).
Definition new_logger : Logger := mkLogger (new_queue Capacity) Level.info (mkLogCounters 0 0) [] 0.

(** The context of a record: [in_interrupt] and [context] are the platform's. *)
Definition record_context (in_interrupt : bool) (context : LogContext) : LogContext :=
  if in_interrupt then mkLogContext [99; 111; 114; 101] [105; 110; 116; 101; 114; 114; 117; 112; 116] else context.
(** The first locked region. *)
Definition accepts (level : Level.Level) (l : Logger) : bool :=
  negb ((level_value level <? level_value (minimum_ l)) || (length subscribers_ =? 0)%nat).
(** The formatted record, and whether its text was shortened. *)
Definition format_record (now : Time) (context : LogContext) (level : Level.Level) (text : Name) : Stored * bool :=
  let truncated := (MessageSize <=? length text)%nat in
  (mkStored now level context (snprintf_array MessageSize text (replicate MessageSize 0)) (if truncated then MessageSize - 1 else length text), truncated).
(** The second locked region. *)
Definition append (record : Stored) (was_truncated : bool) (l : Logger) : Status * Logger :=
  if full Capacity (records_ l) then (Status.full, l <| counters_ := (counters_ l) <| dropped := u64 (dropped (counters_ l) + 1) |> |>)
  else
    let l := if was_truncated then l <| counters_ := (counters_ l) <| truncated := u64 (truncated (counters_ l) + 1) |> |> else l in
    let l := l <| records_ := snd (push Capacity record (records_ l)) |> <| notified := S (notified l) |> in
    (if was_truncated then Status.truncated else Status.ok, l).
(** [format] is [None] for a null pointer, [Some None] when formatting fails. *)
Definition write (now : Time) (in_interrupt : bool) (context : LogContext) (level : Level.Level) (format : option (option Name)) (l : Logger)
    : Status * Logger :=
  match format with
  | None => (Status.invalid_argument, l)
  | Some formatted =>
      let context := record_context in_interrupt context in
      if negb (accepts level l) then (Status.ok, l)
      else
        match formatted with
        | None => (Status.invalid_argument, l)
        | Some text => let '(record, was_truncated) := format_record now context level text in append record was_truncated l
        end
  end.

Definition view (r : Stored) : LogRecord :=
  mkLogRecord (log_timestamp r) (log_severity r) (log_module (log_context r)) (log_task (log_context r)) (take (log_length r) (log_text r)).
(** The locked region of [dispatch], and the call of one subscriber. *)
Definition take_record (l : Logger) : option Stored * Logger :=
  let '(st, record, q) := pop Capacity inhabitant (records_ l) in
  if st =s? Status.ok then (Some record, l <| records_ := q |>) else (None, l).
Definition call_subscriber (i : nat) (r : Stored) (l : Logger) : Logger :=
  if default false (subscribers_ !! i) then l <| sink_ := sink_ l ++ [(i, view r)] |> else l.
Definition deliver (r : Stored) (l : Logger) : Logger := foldl (fun l i => call_subscriber i r l) l (seq 0 (length subscribers_)).
Definition log_dispatch (l : Logger) : bool * Logger :=
  match take_record l with (Some r, l) => (true, deliver r l) | (None, l) => (false, l) end.
(** [flush] with subscribers that do not log: a round per record, and the one
    that finds the buffer empty. *)
Fixpoint flush_loop (fuel : nat) (l : Logger) : option Logger :=
  match fuel with
  | O => None
  | S fuel => let '(more, l) := log_dispatch l in if more then flush_loop fuel l else Some l
  end.
Definition flush (l : Logger) : option Logger := flush_loop (S (count_ (records_ l))) l.
Definition minimum (level : Level.Level) (l : Logger) : Logger := l <| minimum_ := level |>.
Definition log_empty (l : Logger) : bool := empty (records_ l).
Definition reset (l : Logger) : Logger := l <| counters_ := mkLogCounters 0 0 |>.
End logger.

(** ** Presentation (log_format.hpp) *)

(** [%u]: decimal digits, most significant first. *)
Fixpoint dec_digits (fuel : nat) (n : Z) (acc : Name) : Name :=
  match fuel with
  | O => acc
  | S fuel => if n <? 10 then 48 + n :: acc else dec_digits fuel (n / 10) (48 + n mod 10 :: acc)
  end.
Definition dec (n : Z) : Name := dec_digits 20 n [].
(** [%0wu]. *)
Definition dec_pad (w : nat) (n : Z) : Name := replicate (w - length (dec n)) 48 ++ dec n.

Definition kLimit : Z := 2 ^ 32 - 1.
Definition LogUnsigned (value : Z) : Name :=
  snprintf 12 (dec (if value >? kLimit then kLimit else u32 value) ++ (if value >? kLimit then [43] else [])).

(** Ten rounds of the loop: [digit] and [fraction]. *)
Fixpoint average_loop (n : nat) (count remainder digit fraction : Z) : Z * Z :=
  match n with
  | O => (digit, fraction)
  | S n =>
      if fraction >=? u64 (count - remainder) then average_loop n count remainder (u32 (digit + 1)) (u64 (fraction - u64 (count - remainder)))
      else average_loop n count remainder digit (u64 (fraction + remainder))
  end.
Definition LogAverage (total count : Z) : Name :=
  let whole := if count =? 0 then 0 else total / count in
  let remainder := if count =? 0 then 0 else total mod count in
  if (whole >? kLimit) || (whole =? kLimit) && negb (remainder =? 0) then snprintf 13 (dec kLimit ++ [43])
  else
    let '(whole, digit) :=
      if count =? 0 then (whole, 0)
      else
        let '(digit, fraction) := average_loop 10 count remainder 0 0 in
        let digit := if fraction >=? u64 (count / 2 + count mod 2) then u32 (digit + 1) else digit in
        if digit =? 10 then (u64 (whole + 1), 0) else (whole, digit) in
    snprintf 13 (dec (u32 whole) ++ [46] ++ dec digit).

Definition level_letter (l : Level.Level) : Z :=
  match l with Level.debug => 68 | Level.info => 73 | Level.warning => 87 | Level.error => 69 | Level.fatal => 70 end.
(** The context column: cut to the width, with an ellipsis when it was longer. *)
Definition prefix_context (width : nat) (r : LogRecord) : Name :=
  let full := rec_module r ++ [46] ++ rec_task r in
  let context := snprintf (width + 1) full in
  if (width <? length full)%nat then blit (width - 3) [46; 46; 46] context else context.
(** [written] is what [snprintf] returns, the length of the whole text. *)
Definition prefix_text (width : nat) (r : LogRecord) : Name :=
  let milliseconds := rec_timestamp r / 1000 in
  let seconds := milliseconds / 1000 in
  let minutes := seconds / 60 in
  let hours := minutes / 60 in
  let context := prefix_context width r in
  [91] ++ dec_pad 3 (u32 (hours / 24)) ++ [58] ++ dec_pad 2 (u32 (hours mod 24)) ++ [58] ++ dec_pad 2 (u32 (minutes mod 60)) ++ [58] ++
  dec_pad 2 (u32 (seconds mod 60)) ++ [46] ++ dec_pad 3 (u32 (milliseconds mod 1000)) ++ [93; 32; level_letter (rec_severity r); 32] ++
  context ++ replicate (width - length context) 32 ++ [58; 32].
Definition LogPrefix (width : nat) (r : LogRecord) : list Z * nat :=
  (snprintf_array (width + 40) (prefix_text width r) (replicate (width + 40) 0), length (prefix_text width r)).
(** [view]: the first [size_] bytes of the array. *)
Definition prefix_view (p : list Z * nat) : Name := take (snd p) (fst p).

(** ** Numbers and columns *)

Lemma dec_digits_app fuel n acc : dec_digits fuel n acc = dec_digits fuel n [] ++ acc.
Proof.
  revert n acc. induction fuel as [|fuel IH]; intros n acc; cbn; [done|]. destruct (n <? 10); [done|].
  rewrite IH, (IH _ [_]). by rewrite <- app_assoc.
Qed.
(** The digits of a number, and their number. *)
Lemma dec_digits_spec fuel n k : 0 <= n < 10 ^ Z.of_nat (S k) -> (k < fuel)%nat ->
  foldl (fun a c => 10 * a + (c - 48)) 0 (dec_digits fuel n []) = n /\ (1 <= length (dec_digits fuel n []) <= S k)%nat.
Proof.
  revert n k. induction fuel as [|fuel IH]; intros n k Hn Hk; [lia|]. cbn [dec_digits]. destruct (Z.ltb_spec n 10); [cbn; lia|].
  destruct k as [|k]; [change (10 ^ Z.of_nat 1) with 10 in Hn; lia|]. rewrite (Nat2Z.inj_succ (S k)), Z.pow_succ_r in Hn by lia.
  assert (0 <= n / 10 < 10 ^ Z.of_nat (S k)) as Hd by (split; [apply Z.div_pos; lia|apply Z.div_lt_upper_bound; lia]).
  destruct (IH (n / 10) k Hd ltac:(lia)) as [IH1 IH2]. rewrite dec_digits_app, foldl_app, IH1, length_app. cbn.
  pose proof (Z.div_mod n 10). split; lia.
Qed.
Lemma dec_spec n k : 0 <= n < 10 ^ Z.of_nat (S k) -> (k < 20)%nat ->
  foldl (fun a c => 10 * a + (c - 48)) 0 (dec n) = n /\ (1 <= length (dec n) <= S k)%nat.
Proof. intros. by apply dec_digits_spec. Qed.
Lemma dec_pad_width w n : 0 <= n < 10 ^ Z.of_nat w -> (1 <= w <= 20)%nat -> length (dec_pad w n) = w.
Proof.
  intros Hn Hw. destruct w as [|k]; [lia|]. destruct (dec_spec n k Hn ltac:(lia)) as [_ H]. unfold dec_pad. rewrite length_app, length_replicate. lia.
Qed.
Lemma snprintf_fits n text : (length text < n)%nat -> snprintf n text = text.
Proof. intros. unfold snprintf. apply firstn_all2. lia. Qed.
Lemma snprintf_array_view n text k : (0 < n)%nat -> k = Nat.min (length text) (n - 1) -> take k (snprintf_array n text (replicate n 0)) = take (n - 1) text.
Proof.
  intros Hn ->. assert (length (snprintf n text) = Nat.min (n - 1) (length text)) as Hl by apply length_take.
  assert (sub (snprintf_array n text (replicate n 0)) 0 (length (snprintf n text ++ [0])) = snprintf n text ++ [0]) as H.
  { apply sub_blit_same; [done|]. rewrite length_replicate, length_app, Hl. cbn. lia. }
  unfold sub in H. rewrite drop_0 in H. apply (f_equal (take (length (snprintf n text)))) in H. rewrite take_app_length, take_take, length_app in H.
  rewrite Nat.min_l in H by lia. by rewrite Hl, Nat.min_comm in H.
Qed.

(** The loop computes ten times the remainder over the count. *)
Lemma average_loop_spec n count remainder digit fraction : 0 <= remainder < count -> is_u64 count -> 0 <= fraction < count -> 0 <= digit -> digit + Z.of_nat n < 2 ^ 32 ->
  let '(d, f) := average_loop n count remainder digit fraction in
  d * count + f = digit * count + fraction + Z.of_nat n * remainder /\ 0 <= f < count /\ digit <= d <= digit + Z.of_nat n.
Proof.
  unfold is_u64. revert digit fraction. induction n as [|n IH]; intros digit fraction Hr Hc Hf Hd Hn; cbn [average_loop]; [lia|].
  assert (u64 (count - remainder) = count - remainder) as -> by (apply u64_small; unfold is_u64; lia). destruct (Z.geb_spec fraction (count - remainder)).
  - rewrite (u64_small (fraction - (count - remainder))), (u32_small (digit + 1)) by (unfold is_u64, is_u32; lia).
    specialize (IH (digit + 1) (fraction - (count - remainder)) Hr Hc). destruct (average_loop n count remainder _ _) as [d f].
    destruct IH as (H1 & H2 & H3); [lia|lia|lia|]. split; [nia|lia].
  - rewrite (u64_small (fraction + remainder)) by (unfold is_u64; lia).
    specialize (IH digit (fraction + remainder) Hr Hc). destruct (average_loop n count remainder _ _) as [d f].
    destruct IH as (H1 & H2 & H3); [lia|lia|lia|]. split; [nia|lia].
Qed.
(** The average in tenths, rounded half up. *)
Definition tenths (total count : Z) : Z := (20 * total + count) / (2 * count).
Lemma tenths_split total count whole remainder digit fraction : total = whole * count + remainder -> digit * count + fraction = 10 * remainder ->
  0 <= fraction < count -> 0 < count -> tenths total count = 10 * whole + digit + (if fraction >=? count / 2 + count mod 2 then 1 else 0).
Proof.
  intros -> Hd Hf Hc. unfold tenths. pose proof (Z.div_mod count 2 ltac:(lia)). pose proof (Z.mod_pos_bound count 2 ltac:(lia)).
  destruct (Z.geb_spec fraction (count / 2 + count mod 2)); symmetry; eapply Z.div_unique_pos.
  2: { assert (20 * (whole * count + remainder) + count = 2 * count * (10 * whole + digit + 1) + (2 * fraction - count)) as -> by nia. reflexivity. }
  - lia.
  - instantiate (1 := 2 * fraction + count). lia.
  - nia.
Qed.

Lemma tenths_limit total count : total <= kLimit * count -> 0 < count -> tenths total count <= 10 * kLimit.
Proof.
  intros Ht Hc. unfold tenths. assert (20 * total + count < 2 * count * (10 * kLimit + 1)) by nia.
  pose proof (Z.div_lt_upper_bound (20 * total + count) (2 * count) (10 * kLimit + 1)). lia.
Qed.
Lemma average_carry (up : bool) w d t : 0 <= w <= kLimit -> 0 <= d < 10 -> t = 10 * w + d + (if up then 1 else 0) -> t <= 10 * kLimit ->
  let digit := if up then u32 (d + 1) else d in
  let '(x, y) := if digit =? 10 then (u64 (w + 1), 0) else (w, digit) in 10 * x + y = t /\ 0 <= y < 10 /\ 0 <= x <= kLimit.
Proof.
  intros Hw Hd Ht Hl. assert (kLimit = 2 ^ 32 - 1) by done. rewrite (u32_small (d + 1)), (u64_small (w + 1)) by (unfold is_u32, is_u64; lia).
  cbv zeta. destruct up; match goal with |- context [?a =? 10] => destruct (Z.eqb_spec a 10) end; lia.
Qed.

(** C32: The average that statistics show is exact for every pair of 64-bit
    counters: ten additions without overflow give the quotient in tenths, rounded
    half up, and a quotient above the largest 32-bit number is shown as that
    number and a plus sign.  No text is cut by its buffer. *)
Theorem log_average_exact total count : is_u64 total -> is_u64 count ->
  LogAverage total count =
    if count =? 0 then [48; 46; 48]
    else if total >? kLimit * count then dec kLimit ++ [43]
    else dec (tenths total count / 10) ++ [46] ++ dec (tenths total count mod 10).
Proof.
  unfold is_u64. intros Ht Hc. unfold LogAverage. destruct (Z.eqb_spec count 0) as [->|Hne]; [reflexivity|].
  pose proof (Z.div_mod total count Hne) as Hdm. pose proof (Z.mod_pos_bound total count ltac:(lia)) as Hr.
  assert (0 <= total / count) as Hw by (apply Z.div_pos; lia). set (w := total / count) in *. set (r := total mod count) in *. clearbody w r.
  assert ((w >? kLimit) || (w =? kLimit) && negb (r =? 0) = (total >? kLimit * count)) as ->.
  { unfold kLimit. apply eq_bool_prop_intro. rewrite !Is_true_true, orb_true_iff, andb_true_iff, negb_true_iff, !Z.gtb_lt, Z.eqb_eq, Z.eqb_neq. nia. }
  destruct (Z.gtb_spec total (kLimit * count)) as [Hb|Hb]; [apply snprintf_fits; vm_compute; lia|].
  pose proof (average_loop_spec 10 count r 0 0 ltac:(lia) Hc ltac:(lia) ltac:(lia) ltac:(lia)) as Hl. destruct (average_loop 10 count r 0 0) as [d f].
  destruct Hl as (Hd & Hf & Hdb). pose proof (tenths_split total count w r d f ltac:(lia) ltac:(lia) Hf ltac:(lia)) as Htn.
  assert (count / 2 + count mod 2 <= count) as Hh by (pose proof (Z.div_mod count 2 ltac:(lia)); pose proof (Z.mod_pos_bound count 2 ltac:(lia)); lia).
  rewrite (u64_small (count / 2 + count mod 2)) by (unfold is_u64; pose proof (Z.div_pos count 2); pose proof (Z.mod_pos_bound count 2); lia).
  pose proof (average_carry (f >=? count / 2 + count mod 2) w d (tenths total count) ltac:(unfold kLimit in *; nia) ltac:(nia) Htn (tenths_limit _ _ Hb ltac:(lia))) as Hca.
  cbv zeta in Hca |- *. match goal with |- context [let '(_, _) := ?q in _] => destruct q as [x y] end. destruct Hca as (Hxy & Hy & Hx).
  assert (tenths total count / 10 = x) as -> by (symmetry; apply (Z.div_unique_pos _ 10 x y); lia).
  assert (tenths total count mod 10 = y) as -> by (symmetry; apply (Z.mod_unique_pos _ 10 x y); lia).
  rewrite u32_small by (unfold is_u32, kLimit in *; lia). apply snprintf_fits. rewrite !length_app.
  pose proof (proj2 (dec_spec x 9 ltac:(unfold kLimit in *; lia) ltac:(lia))). pose proof (proj2 (dec_spec y 0 ltac:(lia) ltac:(lia))). cbn [length]. lia.
Qed.
Lemma log_average_exact_witness : LogAverage 199 20 = [49; 48; 46; 48] /\ LogAverage (2 ^ 64 - 1) 3 = dec kLimit ++ [43].
Proof.
  split; (rewrite log_average_exact by (unfold is_u64; lia)); vm_compute; reflexivity.
Defined.

(** ** The prefix of a line *)

Lemma length_prefix_context width r : (length (prefix_context width r) <= width)%nat.
Proof.
  unfold prefix_context. assert (length (snprintf (width + 1) (rec_module r ++ [46%Z] ++ rec_task r)) <= width)%nat by (unfold snprintf; rewrite length_take; lia).
  destruct (_ <? _)%nat; rewrite ?length_blit; done.
Qed.
(** The column of the context, filled with spaces. *)
Definition context_column (width : nat) (r : LogRecord) : Name :=
  prefix_context width r ++ replicate (width - length (prefix_context width r)) 32.
Lemma context_column_spec width r : (3 <= width)%nat ->
  let full := rec_module r ++ [46] ++ rec_task r in
  context_column width r = if (width <? length full)%nat then take (width - 3) full ++ [46; 46; 46] else full ++ replicate (width - length full) 32.
Proof.
  intros Hw. cbv zeta. unfold context_column, prefix_context. set (full := rec_module r ++ [46] ++ rec_task r). clearbody full.
  assert (snprintf (width + 1) full = take width full) as -> by (unfold snprintf; f_equal; lia).
  destruct (Nat.ltb_spec width (length full)) as [Hl|Hl].
  - rewrite length_blit, length_take, Nat.min_l, Nat.sub_diag by lia. rewrite app_nil_r. apply list_eq. intros i.
    destruct (decide (i < width - 3)%nat).
    + rewrite lookup_blit_out by lia. rewrite lookup_app_l by (rewrite length_take; lia). by rewrite !lookup_take_lt by lia.
    + rewrite lookup_app_r by (rewrite length_take; lia). rewrite length_take, Nat.min_l by lia. destruct (decide (i < width)%nat).
      * rewrite lookup_blit_in; [done|cbn; lia|]. rewrite length_take. lia.
      * rewrite !lookup_ge_None_2; [done| |]; rewrite ?length_blit, ?length_take; cbn; lia.
  - by rewrite firstn_all2 by lia.
Qed.

(** For every 64-bit timestamp and every column width the prefix of a log
    line lies in its fixed storage, whole and terminated: the view has the days,
    hours, minutes, seconds and milliseconds of the timestamp, which add up to it,
    the letter of the severity and the context in a column of exactly the width,
    with an ellipsis when it was longer. *)
Theorem log_prefix_fits width r : is_u64 (rec_timestamp r) -> (3 <= width <= 256)%nat ->
  exists days hours minutes seconds milliseconds,
    rec_timestamp r / 1000 = (((days * 24 + hours) * 60 + minutes) * 60 + seconds) * 1000 + milliseconds /\
    0 <= days /\ 0 <= hours < 24 /\ 0 <= minutes < 60 /\ 0 <= seconds < 60 /\ 0 <= milliseconds < 1000 /\
    prefix_view (LogPrefix width r) =
      [91] ++ dec_pad 3 days ++ [58] ++ dec_pad 2 hours ++ [58] ++ dec_pad 2 minutes ++ [58] ++ dec_pad 2 seconds ++ [46] ++ dec_pad 3 milliseconds ++
      [93; 32; level_letter (rec_severity r); 32] ++ context_column width r ++ [58; 32] /\
    length (context_column width r) = width /\ (length (prefix_view (LogPrefix width r)) < width + 40)%nat.
Proof.
  unfold is_u64. intros Ht Hw. set (ms := rec_timestamp r / 1000). set (sec := ms / 1000). set (min_ := sec / 60). set (hour := min_ / 60).
  assert (0 <= ms < 2 ^ 64 / 1000 + 1) as Hms by (subst ms; split; [apply Z.div_pos; lia|]; pose proof (Z.div_le_mono (rec_timestamp r) (2 ^ 64) 1000); lia).
  assert (2 ^ 64 / 1000 = 18446744073709551) as E by reflexivity. rewrite E in Hms. set (days := hour / 24).
  assert (ms = 1000 * sec + ms mod 1000 /\ 0 <= ms mod 1000 < 1000) as [D1 M1] by (split; [apply Z.div_mod|apply Z.mod_pos_bound]; lia).
  assert (sec = 60 * min_ + sec mod 60 /\ 0 <= sec mod 60 < 60) as [D2 M2] by (split; [apply Z.div_mod|apply Z.mod_pos_bound]; lia).
  assert (min_ = 60 * hour + min_ mod 60 /\ 0 <= min_ mod 60 < 60) as [D3 M3] by (split; [apply Z.div_mod|apply Z.mod_pos_bound]; lia).
  assert (hour = 24 * days + hour mod 24 /\ 0 <= hour mod 24 < 24) as [D4 M4] by (split; [apply Z.div_mod|apply Z.mod_pos_bound]; lia).
  assert (0 <= days < 10 ^ 9) as Hdays by lia.
  exists days, (hour mod 24), (min_ mod 60), (sec mod 60), (ms mod 1000). fold ms.
  assert (length (context_column width r) = width) as Hcol by (unfold context_column; pose proof (length_prefix_context width r); rewrite length_app, length_replicate; lia).
  assert (prefix_text width r = [91] ++ dec_pad 3 days ++ [58] ++ dec_pad 2 (hour mod 24) ++ [58] ++ dec_pad 2 (min_ mod 60) ++ [58] ++ dec_pad 2 (sec mod 60) ++ [46] ++
    dec_pad 3 (ms mod 1000) ++ [93; 32; level_letter (rec_severity r); 32] ++ context_column width r ++ [58; 32]) as Htext.
  { unfold prefix_text. fold ms sec min_ hour days. rewrite !u32_small by (unfold is_u32; lia). unfold context_column. by rewrite <- (app_assoc (prefix_context _ _)). }
  assert (length (dec_pad 3 days) <= 9)%nat as Hd3.
  { pose proof (dec_spec days 8 Hdays ltac:(lia)). unfold dec_pad. rewrite length_app, length_replicate. lia. }
  assert (length (prefix_text width r) < width + 40)%nat as Hlen.
  { rewrite Htext, !length_app, Hcol, !(dec_pad_width 2), (dec_pad_width 3 (ms mod 1000)) by lia. cbn. lia. }
  assert (prefix_view (LogPrefix width r) = prefix_text width r) as Hview.
  { unfold prefix_view, LogPrefix. cbn [fst snd]. rewrite (snprintf_array_view (width + 40)) by lia. apply firstn_all2. lia. }
  rewrite Hview. split_and!; try lia; done.
Qed.
Lemma log_prefix_fits_witness : let r := mkLogRecord (2 ^ 64 - 1) Level.info [97] [98] [] in
  (length (context_column 22 r) = 22)%nat /\ (length (prefix_view (LogPrefix 22 r)) < 62)%nat.
Proof.
  intros r. destruct (log_prefix_fits 22 r ltac:(unfold is_u64; cbn; lia) ltac:(lia)) as (? & ? & ? & ? & ? & _ & _ & _ & _ & _ & _ & _ & H1 & H2).
  exact (conj H1 H2).
Defined.
