(* ===== verification/LogDelivery.v ===== *)
(** * Delivery of log records (src/lib/core/logging/logger.hpp)

    Every interleaving of writers, interrupts included, with the delivery: a
    writer that has been accepted stores its record later, in any order with the
    others, and a delivery calls one subscriber after the other while further
    records arrive.  Each subscriber sees the stored records, once and in order. *)

From S2P Require Import Prelude Foundation Wire Match Queue Logging.

(** A call of [write] whose level was accepted, with the complete text. *)
Record Request := mkRequest { req_now : Time; req_context : LogContext; req_level : Level.Level; req_text : Name }.

Section delivery.
Context (Capacity MessageSize : nat) (subscribers_ : list bool) (HC : (0 < Capacity)%nat) (HM : (0 < MessageSize)%nat).

Definition stored_of (q : Request) : Stored * bool := format_record MessageSize (req_now q) (req_context q) (req_level q) (req_text q).
(** What a subscriber is to see of a request: its text, cut to the size. *)
Definition shown (q : Request) : LogRecord :=
  mkLogRecord (req_now q) (req_level q) (log_module (req_context q)) (log_task (req_context q)) (take (MessageSize - 1) (req_text q)).

(** [prepared] are the writers between their locked regions, [delivering] the
    record under delivery with the next subscriber; the rest is history: the
    stored requests, how many of them were taken, and the counts since [reset]. *)
Record LogSystem := mkLogSystem {
  logger : Logger; prepared : list Request; delivering : option (Stored * nat);
  stored : list Request; taken : nat; lost : Z; cut : Z
}.
#[export] Instance LogSystem_eta : RecordEta LogSystem := fun s =>
  mkLogSystem (logger s) (prepared s) (delivering s) (stored s) (taken s) (lost s) (cut s).
Definition store_request (q : Request) (s : LogSystem) : LogSystem :=
  let '(st, l) := append Capacity (fst (stored_of q)) (snd (stored_of q)) (logger s) in
  let s := s <| logger := l |> in
  if st =s? Status.full then s <| lost := lost s + 1 |>
  else s <| stored := stored s ++ [q] |> <| cut := cut s + (if snd (stored_of q) then 1 else 0) |>.

Inductive log_run : LogSystem -> Prop :=
  | l_new : log_run (mkLogSystem (new_logger Capacity) [] None [] 0 0 0)
  | l_prepare q s : log_run s -> accepts subscribers_ (req_level q) (logger s) = true -> log_run (s <| prepared := prepared s ++ [q] |>)
  | l_store i q s : log_run s -> prepared s !! i = Some q -> log_run (store_request q (s <| prepared := delete i (prepared s) |>))
  | l_take r l s : log_run s -> delivering s = None -> take_record Capacity (logger s) = (Some r, l) ->
      log_run (s <| logger := l |> <| delivering := Some (r, 0%nat) |> <| taken := S (taken s) |>)
  | l_call r i s : log_run s -> delivering s = Some (r, i) -> (i < length subscribers_)%nat ->
      log_run (s <| logger := call_subscriber subscribers_ i r (logger s) |> <| delivering := Some (r, S i) |>)
  | l_done r s : log_run s -> delivering s = Some (r, length subscribers_) -> log_run (s <| delivering := None |>)
  | l_minimum level s : log_run s -> log_run (s <| logger := minimum level (logger s) |>)
  | l_reset s : log_run s -> log_run (s <| logger := reset (logger s) |> <| lost := 0 |> <| cut := 0 |>).

(** What subscriber [i] has been called with, and what the delivery under way
    still has for it. *)
Definition calls (i : nat) (l : Logger) : list LogRecord := snd <$> filter (fun c => fst c = i) (sink_ l).
Definition due (i : nat) (s : LogSystem) : list LogRecord :=
  match delivering s with Some (r, j) => if (j <=? i)%nat then [view r] else [] | None => [] end.
Definition waiting (l : Logger) : list LogRecord := view <$> contents Capacity (records_ l).

Lemma view_stored q : view (fst (stored_of q)) = shown q.
Proof.
  unfold view, shown, stored_of, format_record. cbn. f_equal. apply snprintf_array_view; [done|]. destruct (Nat.leb_spec MessageSize (length (req_text q))); lia.
Qed.
Record log_inv (s : LogSystem) : Prop := {
  li_queue : queue_ok Capacity (records_ (logger s));
  li_waiting : waiting (logger s) = shown <$> drop (taken s) (stored s);
  li_taken : (taken s <= length (stored s))%nat;
  li_calls i : subscribers_ !! i = Some true -> calls i (logger s) ++ due i s = shown <$> take (taken s) (stored s);
  li_due r j : delivering s = Some (r, j) -> (j <= length subscribers_)%nat;
  li_lost : dropped (counters_ (logger s)) = u64 (lost s);
  li_cut : truncated (counters_ (logger s)) = u64 (cut s)
}.
Lemma cons_split {A} (x y : A) l k : x :: l = y :: k -> x = y /\ l = k.
Proof. by intros [= -> ->]. Qed.
Lemma u64_succ x : u64 (u64 x + 1) = u64 (x + 1).
Proof. unfold u64. apply Z.add_mod_idemp_l. lia. Qed.
Lemma append_full r b l : full Capacity (records_ l) = true ->
  append Capacity r b l = (Status.full, l <| counters_ := (counters_ l) <| dropped := u64 (dropped (counters_ l) + 1) |> |>).
Proof. intros H. unfold append. by rewrite H. Qed.
Lemma store_inv q s : log_inv s -> log_inv (store_request q s).
Proof.
  intros Hi. unfold store_request. destruct (full Capacity (records_ (logger s))) eqn:Ef.
  - rewrite append_full by done. destruct Hi as [H1 H2 H3 H4 H5 H6 H7]. split; try done. cbn. rewrite H6. apply u64_succ.
  - unfold append. rewrite Ef. pose proof Hi as [H1 H2 H3 H4 H5 H6 H7].
    assert (count_ (records_ (logger s)) < Capacity)%nat as Hlt by (destruct H1; unfold full in Ef; apply Nat.eqb_neq in Ef; lia).
    destruct (push_contents Capacity HC _ (fst (stored_of q)) H1 Hlt) as [P1 P2].
    assert (waiting (logger s) ++ [shown q] = shown <$> drop (taken s) (stored s ++ [q])) as Hw.
    { rewrite H2, drop_app_le by done. by rewrite fmap_app. }
    assert (forall i, subscribers_ !! i = Some true -> calls i (logger s) ++ due i s = shown <$> take (taken s) (stored s ++ [q])) as Hc
      by (intros i Hs; rewrite take_app_le by done; by apply H4).
    assert (view <$> contents Capacity (snd (push Capacity (fst (stored_of q)) (records_ (logger s)))) = shown <$> drop (taken s) (stored s ++ [q])) as Hp
      by (rewrite P2, fmap_app, <- Hw, <- view_stored; reflexivity).
    destruct (snd (stored_of q)) eqn:Et; cbv zeta;
      [change (Status.truncated =s? Status.full) with false|change (Status.ok =s? Status.full) with false]; cbv iota;
      (split; [exact P1| |cbn; rewrite length_app; lia|exact Hc|exact H5|exact H6|]).
    + exact Hp.
    + cbn. rewrite H7. apply u64_succ.
    + exact Hp.
    + cbn. by rewrite Z.add_0_r.
Qed.
Lemma take_inv r l s : log_inv s -> delivering s = None -> take_record Capacity (logger s) = (Some r, l) ->
  log_inv (s <| logger := l |> <| delivering := Some (r, 0%nat) |> <| taken := S (taken s) |>).
Proof.
  intros [H1 H2 H3 H4 H5 H6 H7] Hd. unfold take_record, pop. unfold empty. destruct (Nat.eqb_spec (count_ (records_ (logger s))) 0) as [|Hn]; [done|].
  cbn. intros [= <- <-]. unfold waiting in H2. rewrite (contents_head Capacity HC) in H2 by (done || lia). rewrite fmap_cons in H2.
  destruct (drop (taken s) (stored s)) as [|q rest] eqn:Ed; [done|]. rewrite fmap_cons in H2. apply cons_split in H2 as [Hv Hrest].
  assert (stored s !! taken s = Some q) as Hq by (rewrite <- (Nat.add_0_r (taken s)), <- lookup_drop, Ed; done).
  split; cbn; try done.
  - destruct H1. split; cbn; [done|apply Nat.mod_upper_bound; lia|lia].
  - refine (eq_trans Hrest _). f_equal. change (S (taken s)) with (1 + taken s)%nat. rewrite Nat.add_comm, <- drop_drop, Ed. done.
  - apply lookup_lt_Some in Hq. lia.
  - intros i Hs. rewrite (take_S_r _ _ _ Hq), fmap_app. specialize (H4 i Hs). unfold due in H4. rewrite Hd, app_nil_r in H4. cbn in H4.
    unfold due. cbn. f_equal; [exact H4|]. by rewrite Hv.
  - intros r' j [= <- <-]. lia.
Qed.
Lemma calls_call i j r l : calls i (call_subscriber subscribers_ j r l) = calls i l ++ (if default false (subscribers_ !! j) && (j =? i)%nat then [view r] else []).
Proof.
  unfold call_subscriber, calls. destruct (default false (subscribers_ !! j)); cbn; [|by rewrite app_nil_r].
  rewrite filter_app, fmap_app. f_equal. destruct (Nat.eqb_spec j i).
  - by rewrite filter_cons_True.
  - by rewrite filter_cons_False.
Qed.
Lemma call_logger i r l : records_ (call_subscriber subscribers_ i r l) = records_ l /\ counters_ (call_subscriber subscribers_ i r l) = counters_ l.
Proof. unfold call_subscriber. by destruct (default false _). Qed.
Lemma call_inv r i s : log_inv s -> delivering s = Some (r, i) -> (i < length subscribers_)%nat ->
  log_inv (s <| logger := call_subscriber subscribers_ i r (logger s) |> <| delivering := Some (r, S i) |>).
Proof.
  intros [H1 H2 H3 H4 H5 H6 H7] Hd Hi. destruct (call_logger i r (logger s)) as [R C].
  split; unfold waiting in *; cbn [logger delivering taken stored lost cut field_update LogSystem_eta]; rewrite ?R, ?C; try done; [|intros r' j [= <- <-]; lia].
  intros k Hk. rewrite calls_call. specialize (H4 k Hk). unfold due in *. rewrite Hd in H4. rewrite <- H4, <- app_assoc. f_equal. cbn [delivering field_update LogSystem_eta].
  destruct (Nat.eqb_spec i k) as [->|Hne].
  - rewrite Hk. destruct (Nat.leb_spec (S k) k), (Nat.leb_spec k k); try done; lia.
  - rewrite andb_false_r. destruct (Nat.leb_spec (S i) k), (Nat.leb_spec i k); try done; lia.
Qed.
Lemma log_run_inv s : log_run s -> log_inv s.
Proof.
  induction 1 as [|q s _ IH Ha|i q s _ IH Hq|r l s _ IH Hd Ht|r i s _ IH Hd Hi|r s _ IH Hd|level s _ IH|s _ IH].
  - split; try done. split; cbn; [by rewrite length_replicate|lia|lia].
  - destruct IH. by split.
  - apply store_inv. destruct IH. by split.
  - by apply take_inv.
  - by apply call_inv.
  - destruct IH as [H1 H2 H3 H4 H5 H6 H7]. split; try done. intros i Hs. specialize (H4 i Hs). unfold due in *. rewrite Hd in H4. cbn.
    apply lookup_lt_Some in Hs. by rewrite (proj2 (Nat.leb_gt _ _)) in H4 by lia.
  - destruct IH. by split.
  - destruct IH. by split.
Qed.

(** C31: Over every interleaving of writers, interrupts and deliveries, each
    subscriber has been called with the stored records, each once, complete up to
    the message size and in the order they were stored, and what it has not seen
    is in the buffer, which holds at most its capacity; the counters count the
    records that were dropped and cut since the last reset, modulo 2^64. *)
Theorem log_delivered_in_order s : log_run s ->
  (forall i, subscribers_ !! i = Some true -> calls i (logger s) ++ due i s ++ waiting (logger s) = shown <$> stored s) /\
  (length (waiting (logger s)) <= Capacity)%nat /\ dropped (counters_ (logger s)) = u64 (lost s) /\ truncated (counters_ (logger s)) = u64 (cut s).
Proof.
  intros [H1 H2 H3 H4 H5 H6 H7]%log_run_inv. split_and!; try done.
  - intros i Hs. by rewrite app_assoc, H4, H2, <- fmap_app, take_drop.
  - unfold waiting. rewrite length_fmap, length_contents. apply H1.
Qed.

(** ** Shutdown *)

Lemma deliver_calls i r l : subscribers_ !! i = Some true -> calls i (deliver subscribers_ r l) = calls i l ++ [view r] /\ records_ (deliver subscribers_ r l) = records_ l.
Proof.
  intros Hi. unfold deliver. assert (forall n a l, calls i (foldl (fun l i => call_subscriber subscribers_ i r l) l (seq a n)) =
    calls i l ++ (if (a <=? i)%nat && (i <? a + n)%nat then [view r] else []) /\
    records_ (foldl (fun l i => call_subscriber subscribers_ i r l) l (seq a n)) = records_ l) as H.
  { clear l. induction n as [|n IH]; intros a l; cbn [seq foldl].
    - split; [|done]. destruct (Nat.leb_spec a i), (Nat.ltb_spec i (a + 0)); try lia; by rewrite app_nil_r.
    - destruct (IH (S a) (call_subscriber subscribers_ a r l)) as [-> ->]. split; [|by apply call_logger]. rewrite calls_call, <- app_assoc. f_equal.
      destruct (Nat.eqb_spec a i) as [<-|Hne]; [rewrite Hi|rewrite andb_false_r];
        repeat (match goal with |- context [(?x <=? ?y)%nat] => destruct (Nat.leb_spec x y) | |- context [(?x <? ?y)%nat] => destruct (Nat.ltb_spec x y) end); try lia; done. }
  destruct (H (length subscribers_) 0%nat l) as [-> ->]. split; [|done]. f_equal. apply lookup_lt_Some in Hi.
  destruct (Nat.leb_spec 0 i), (Nat.ltb_spec i (0 + length subscribers_)); try lia; done.
Qed.
Lemma deliver_records r l : records_ (deliver subscribers_ r l) = records_ l.
Proof.
  unfold deliver. generalize (seq 0 (length subscribers_)). intros ks. revert l. induction ks as [|i ks IH]; intros l; cbn; [done|].
  rewrite IH. apply call_logger.
Qed.
(** Flushing ends with an empty buffer, and every subscriber has seen what was
    in it. *)
Lemma flush_loop_delivers fuel l : queue_ok Capacity (records_ l) -> (count_ (records_ l) < fuel)%nat ->
  exists l', flush_loop Capacity subscribers_ fuel l = Some l' /\ log_empty l' = true /\
    forall i, subscribers_ !! i = Some true -> calls i l' = calls i l ++ waiting l.
Proof.
  revert l. induction fuel as [|fuel IH]; intros l Hq Hf; [lia|]. cbn [flush_loop]. unfold log_dispatch, take_record, pop, empty.
  destruct (Nat.eqb_spec (count_ (records_ l)) 0) as [E|E].
  - exists l. split; [done|]. split; [unfold log_empty, empty; by rewrite E|]. intros i Hi.
    assert (waiting l = []) as -> by (apply nil_length_inv; unfold waiting; by rewrite length_fmap, length_contents). by rewrite app_nil_r.
  - change (Status.ok =s? Status.ok) with true. cbv iota. unfold waiting. rewrite (contents_head Capacity HC) by (done || lia). rewrite fmap_cons.
    set (r := items_ (records_ l) !!! head_ (records_ l)). set (q := mkQueue _ _ _). set (l1 := l <| records_ := q |>).
    destruct (IH (deliver subscribers_ r l1)) as (l' & H1 & H2 & H3).
    { rewrite deliver_records. destruct Hq. split; cbn; [done|apply Nat.mod_upper_bound; lia|lia]. }
    { rewrite deliver_records. cbn. lia. }
    exists l'. split; [exact H1|]. split; [done|]. intros i Hi. rewrite (H3 i Hi). destruct (deliver_calls i r l1 Hi) as [-> Hr].
    unfold waiting. rewrite Hr. by rewrite <- app_assoc.
Qed.
Theorem flush_delivers l : queue_ok Capacity (records_ l) ->
  exists l', flush Capacity subscribers_ l = Some l' /\ log_empty l' = true /\ forall i, subscribers_ !! i = Some true -> calls i l' = calls i l ++ waiting l.
Proof. intros Hq. apply flush_loop_delivers; [done|]. lia. Qed.
End delivery.

(** ** Two writers and a delivery *)

Definition log_example : LogSystem :=
  let first := mkRequest 5 (mkLogContext [97] [98]) Level.warning [1; 2; 3; 4; 5] in
  let second := mkRequest 6 (record_context true (mkLogContext [] [])) Level.error [9] in
  let s := mkLogSystem (new_logger 2) [] None [] 0 0 0 in
  let s := s <| prepared := prepared s ++ [first] |> in
  let s := s <| prepared := prepared s ++ [second] |> in
  let s := store_request 2 4 second (s <| prepared := delete 1%nat (prepared s) |>) in
  store_request 2 4 first (s <| prepared := delete 0%nat (prepared s) |>).
Lemma log_example_run : log_run 2 4 [true; false] log_example.
Proof.
  unfold log_example. cbv zeta. apply l_store; [|vm_compute; reflexivity]. apply l_store; [|vm_compute; reflexivity].
  apply l_prepare; [|vm_compute; reflexivity]. apply l_prepare; [apply l_new|vm_compute; reflexivity].
Qed.
Lemma log_delivered_in_order_witness :
  calls 0 (logger log_example) ++ due 0 log_example ++ waiting 2 (logger log_example) = shown 4 <$> stored log_example /\
  (rec_message <$> waiting 2 (logger log_example)) = [[9]; [1; 2; 3]] /\ truncated (counters_ (logger log_example)) = 1.
Proof.
  destruct (log_delivered_in_order 2 4 [true; false] ltac:(lia) ltac:(lia) log_example log_example_run) as (H & _ & _ & _).
  split; [exact (H 0%nat eq_refl)|]. split; vm_compute; reflexivity.
Defined.
