(* ===== verification/Arguments.v ===== *)
(** * Command arguments (src/lib/core/command/arguments.hpp)

    Declarations of typed command parameters, their metadata, and the parsing
    of argument text into the values a handler receives.  A member function is
    its parameter types and a function on the owner [W].  What the code refuses
    at compile time ([static_assert], [abort] in a constant expression) gives
    [None].  Floating-point values are a parameter type with the operations the
    code uses. *)

From Stdlib Require Import Strings.String.
From S2P Require Import Prelude Foundation Wire Match.

(** ** Integers *)

Record IntType := mkIntType { it_signed : bool; it_bits : Z }.
Definition int_max (t : IntType) : Z := if it_signed t then 2 ^ (it_bits t - 1) - 1 else 2 ^ it_bits t - 1.
Definition int_min (t : IntType) : Z := if it_signed t then - 2 ^ (it_bits t - 1) else 0.
(** [Magnitude]. *)
Definition mag_bits (t : IntType) : Z := if it_bits t <=? 32 then 32 else 64.

(** [std::from_chars] for an unsigned type: the longest run of digits, and what
    follows it; [None] without a digit or when the value is out of range. *)
Definition digit (base c : Z) : option Z :=
  let v := if (48 <=? c) && (c <=? 57) then c - 48
           else if (97 <=? Fold c) && (Fold c <=? 122) then Fold c - 87 else base in
  if v <? base then Some v else None.
Fixpoint digits (base : Z) (text : Name) : list Z * Name :=
  match text with
  | [] => ([], [])
  | c :: more =>
      match digit base c with
      | None => ([], text)
      | Some d => let '(ds, rest) := digits base more in (d :: ds, rest)
      end
  end.
Definition digits_value (base : Z) (ds : list Z) : Z := foldl (fun a d => a * base + d) 0 ds.
Definition from_chars (bits base : Z) (text : Name) : option (Z * Name) :=
  let '(ds, rest) := digits base text in
  match ds with
  | [] => None
  | _ => if digits_value base ds <? 2 ^ bits then Some (digits_value base ds, rest) else None
  end.

(** The prefix of the base. *)
Definition base_of (text : Name) : Z * Name :=
  match text with
  | c :: x :: more =>
      if c =? 48 then
        if (x =? 120) || (x =? 88) then (16, more)
        else if (x =? 98) || (x =? 66) then (2, more) else (10, text)
      else (10, text)
  | _ => (10, text)
  end.

(** [Number] of an integer. *)
Definition Number (t : IntType) (text : Name) : option Z :=
  match text with
  | [] => None
  | c :: rest =>
      let negative := c =? 45 in
      let text := if negative || (c =? 43) then rest else text in
      if negative && negb (it_signed t) then None
      else
        let '(base, text) := base_of text in
        match text with
        | [] => None
        | c :: _ =>
            if (c =? 45) || (c =? 43) then None
            else
              match from_chars (mag_bits t) base text with
              | Some (magnitude, []) =>
                  let maximum := int_max t in
                  if it_signed t && negative then
                    let next := (maximum + 1) mod 2 ^ mag_bits t in
                    if magnitude >? next then None
                    else Some (if magnitude =? next then int_min t else - magnitude)
                  else if magnitude >? maximum then None
                  else Some magnitude
              | _ => None
              end
        end
  end.

(** ** Declarations *)

Record Choice := mkChoice { choice_name : option Name; choice_value : Z }.

(** Types of handler parameters; an enumeration comes with the table that
    [DAVEOS_ENUM] generates, if it was declared with it. *)
Inductive ParamType :=
  | PEnum (declared : option (list Choice)) | PBool | PInt (t : IntType) | PFloat (double : bool) | PText.
Record Param := mkParam { p_type : ParamType; p_optional : bool }.

Record ArgumentOf (F : Type) := mkArgument {
  a_name : option Name; a_minimum : option (Z + F); a_maximum : option (Z + F); a_friendly : bool;
  a_choices : option (list Choice)
}.
Arguments mkArgument {F}. Arguments a_name {F}. Arguments a_minimum {F}. Arguments a_maximum {F}. Arguments a_friendly {F}.
Arguments a_choices {F}.

Section arguments.
Context {F : Type}.
(** [std::from_chars] of a floating-point number ([true] for double),
    [std::isfinite], the order, and a bound converted by [CheckBound], [None]
    when it is not in range. *)
Context (float_chars : bool -> Name -> option (F * Name)) (finite : F -> bool) (flt : F -> F -> bool)
  (float_bound : Z + F -> option F).

Abbreviation Argument := (ArgumentOf F).
#[export] Instance Argument_eta : RecordEta Argument := fun a =>
  mkArgument (a_name a) (a_minimum a) (a_maximum a) (a_friendly a) (a_choices a).
Definition arg (name : option Name) : Argument := mkArgument name None None false None.
Definition arg_min (v : Z + F) (a : Argument) : Argument := a <| a_minimum := Some v |>.
Definition arg_max (v : Z + F) (a : Argument) : Argument := a <| a_maximum := Some v |>.
Definition arg_range (low high : Z + F) (a : Argument) : Argument := arg_max high (arg_min low a).
Definition arg_choices (table : list Choice) (a : Argument) : Argument := a <| a_choices := Some table |>.
Definition friendly (a : Argument) : Argument := a <| a_friendly := true |>.

Inductive Value := VEnum (v : Z) | VBool (b : bool) | VInt (z : Z) | VFloat (f : F) | VText (text : Name).

Inductive Bound := signed_value (v : Z) | unsigned_value (v : Z) | float_value (v : F).
Definition Store (t : ParamType) (v : Z + F) : option Bound :=
  match t, v with
  | PFloat _, inr f => Some (float_value f)
  | PInt t, inl z => Some (if it_signed t then signed_value z else unsigned_value z)
  | _, _ => None
  end.
Record NumericBounds := mkNumericBounds { minimum : option Bound; maximum : option Bound }.
(** A [ChoicePolicy] is the table its functions read. *)
Inductive Policy := NoPolicy | Numeric (b : NumericBounds) | ChoicePolicy (table : list Choice).
Record ArgumentMetadata := mkArgumentMetadata {
  m_name : option Name; m_type : string; m_optional : bool; m_friendly : bool; m_policy : Policy
}.
Definition CommandParameterCapacity : nat := 6.

Record ArgumentError := mkArgumentError {
  e_argument : option ArgumentMetadata; e_reason : option string; e_status : Status
}.
Definition no_error : ArgumentError := mkArgumentError None None Status.invalid_argument.

(** [CheckBound]. *)
Definition CheckBound (t : ParamType) (v : Z + F) : option (Z + F) :=
  match t with
  | PInt t => match v with inl z => if (int_min t <=? z) && (z <=? int_max t) then Some (inl z) else None | inr _ => None end
  | PFloat _ => inr <$> float_bound v
  | _ => None
  end.
Definition stored_bound (t : ParamType) (v : option (Z + F)) : option (option Bound) :=
  match v with
  | None => Some None
  | Some v => c ← CheckBound t v; b ← Store t c; Some (Some b)
  end.
Definition bound_gt (a b : Bound) : bool :=
  match a, b with
  | signed_value a, signed_value b | unsigned_value a, unsigned_value b => a >? b
  | float_value a, float_value b => flt b a
  | _, _ => false
  end.

(** [ChoiceMetadata]: the checks of a table. *)
Definition choices_valid (table : list Choice) : bool :=
  negb (length table =? 0)%nat && UniqueNames (choice_name <$> table) false.
Definition choice_names (table : list Choice) : list Name := (fun c => default [] (choice_name c)) <$> table.
Definition choice_parse (text : Name) (table : list Choice) : Status * option Z :=
  let r := lazy_match text (choice_names table) in
  (match_status r, if match_status r =s? Status.ok then choice_value <$> table !! match_index r else None).

Definition numeric32 (t : ParamType) : bool :=
  match t with PInt t => it_bits t <=? 32 | PFloat double => negb double | _ => false end.
Definition type_name (t : ParamType) (friendly : bool) : string :=
  match t with
  | PEnum _ => "enum choice" | PBool => if friendly then "boolean alias" else "true or false"
  | PInt t => if it_signed t then "signed integer" else "unsigned integer"
  | PFloat _ => "finite floating-point number" | PText => "text"
  end.

Definition Metadata (p : Param) (declaration : Argument) : option ArgumentMetadata :=
  let t := p_type p in
  let low := bool_decide (is_Some (a_minimum declaration)) in
  let high := bool_decide (is_Some (a_maximum declaration)) in
  if a_friendly declaration && negb (match t with PBool => true | _ => false end) then None
  else if bool_decide (is_Some (a_choices declaration)) && negb (match t with PEnum _ => true | _ => false end) then None
  else if (low || high) && negb (numeric32 t) then None
  else if match a_name declaration with None | Some [] => true | _ => false end then None
  else
    let result := mkArgumentMetadata (a_name declaration) (type_name t (a_friendly declaration)) (p_optional p)
                    (a_friendly declaration) in
    match t with
    | PEnum declared =>
        table ← (match a_choices declaration with Some table => Some table | None => declared end);
        if choices_valid table then Some (result (ChoicePolicy table)) else None
    | _ =>
        if low || high then
          lo ← stored_bound t (a_minimum declaration);
          hi ← stored_bound t (a_maximum declaration);
          if match lo, hi with Some lo, Some hi => bound_gt lo hi | _, _ => false end then None
          else Some (result (Numeric (mkNumericBounds lo hi)))
        else Some (result NoPolicy)
    end.

(** ** Parsing *)

Definition FloatNumber (double : bool) (text : Name) : option F :=
  match text with
  | [] => None
  | c :: rest =>
      let text := if c =? 43 then rest else text in
      if (c =? 43) && match text with c :: _ => c =? 45 | [] => false end then None
      else if match text with [] => true | c :: _ => c =? 43 end then None
      else
        match float_chars double text with
        | Some (v, []) => if finite v then Some v else None
        | _ => None
        end
  end.

Definition yes : list Name := chars <$> ["true"; "1"; "on"; "yes"; "enable"; "high"; "set"]%string.
Definition no : list Name := chars <$> ["false"; "0"; "off"; "no"; "disable"; "low"; "clear"]%string.
Fixpoint boolean_alias (text : Name) (yes no : list Name) : option bool :=
  match yes, no with
  | y :: yes, n :: no =>
      if EqualName text y || EqualName text n then Some (EqualName text y) else boolean_alias text yes no
  | _, _ => None
  end.

(** The comparisons of a parsed value with the bounds, through [Load]. *)
Definition below (v : Value) (b : Bound) : bool :=
  match v, b with
  | VInt z, (signed_value m | unsigned_value m) => z <? m
  | VFloat f, float_value m => flt f m
  | _, _ => false
  end.
Definition above (v : Value) (b : Bound) : bool :=
  match v, b with
  | VInt z, (signed_value m | unsigned_value m) => z >? m
  | VFloat f, float_value m => flt m f
  | _, _ => false
  end.
Definition in_bounds (t : ParamType) (policy : Policy) (v : Value) : bool :=
  if numeric32 t then
    match policy with
    | Numeric b =>
        negb (match minimum b with Some m => below v m | None => false end ||
              match maximum b with Some m => above v m | None => false end)
    | _ => true
    end
  else true.

Definition Parse (p : Param) (text : Name) (metadata : ArgumentMetadata) : Status + Value :=
  match p_type p with
  | PEnum _ =>
      match m_policy metadata with
      | ChoicePolicy table =>
          match choice_parse text table with
          | (_, Some v) => inr (VEnum v)
          | (status, None) => inl status
          end
      | _ => inl Status.invalid_argument
      end
  | PBool =>
      if negb (m_friendly metadata) then
        if negb (bool_decide (text = chars "true")) && negb (bool_decide (text = chars "false")) then inl Status.invalid_argument
        else inr (VBool (bool_decide (text = chars "true")))
      else match boolean_alias text yes no with Some b => inr (VBool b) | None => inl Status.invalid_argument end
  | PText => inr (VText text)
  | PInt t =>
      match Number t text with
      | None => inl Status.invalid_argument
      | Some z => if in_bounds (PInt t) (m_policy metadata) (VInt z) then inr (VInt z) else inl Status.invalid_argument
      end
  | PFloat double =>
      match FloatNumber double text with
      | None => inl Status.invalid_argument
      | Some f => if in_bounds (PFloat double) (m_policy metadata) (VFloat f) then inr (VFloat f) else inl Status.invalid_argument
      end
  end.

(** ** Descriptors *)

Context {W : Type}.

Record CommandParameters := mkCommandParameters { arguments : list ArgumentMetadata; count : nat; required : nat }.
(** A handler: one that takes the argument views as they are, or one with typed
    parameters.  An absent optional argument is [None]. *)
Inductive Handler :=
  | Raw (f : list Name -> W -> Status * W)
  | Typed (params : list Param) (f : list (option Value) -> W -> Status * W).
Definition Callback : Type := W -> list Name -> CommandParameters -> Status * ArgumentError * W.
Record CommandDescriptor := mkCommandDescriptor {
  d_name : option Name; d_help : option Name; d_callback : Callback; d_handler : option Name;
  d_parameters : CommandParameters
}.

Definition parse_reason (status : Status) : string :=
  if status =s? Status.ambiguous_match then "ambiguous choice"
  else if status =s? Status.not_found then "unknown choice"
  else "invalid value or outside allowed range".

(** The fold of [Invoke] over the parameters. *)
Fixpoint parse_values (params : list Param) (metadata : list ArgumentMetadata) (args : list Name)
    : ArgumentError + list (option Value) :=
  match params, metadata with
  | p :: params, m :: metadata =>
      match args with
      | [] => match parse_values params metadata [] with inl e => inl e | inr vs => inr (None :: vs) end
      | a :: args =>
          match Parse p a m with
          | inl status => inl (mkArgumentError (Some m) (Some (parse_reason status)) status)
          | inr v => match parse_values params metadata args with inl e => inl e | inr vs => inr (Some v :: vs) end
          end
      end
  | _, _ => inr []
  end.
Definition Invoke (params : list Param) (f : list (option Value) -> W -> Status * W)
    (owner : W) (args : list Name) (descriptor : CommandParameters) : Status * ArgumentError * W :=
  match parse_values params (arguments descriptor) args with
  | inl error => (e_status error, error, owner)
  | inr values => let '(status, owner) := f values owner in (status, no_error, owner)
  end.

Definition typed_callback (params : list Param) (f : list (option Value) -> W -> Status * W) : Callback :=
  fun owner args descriptor =>
    if (length args <? required descriptor)%nat || (count descriptor <? length args)%nat
    then (Status.invalid_argument, mkArgumentError None (Some "wrong argument count"%string) Status.invalid_argument, owner)
    else Invoke params f owner args descriptor.
Definition raw_callback (f : list Name -> W -> Status * W) : Callback :=
  fun owner args _ => let '(status, owner) := f args owner in (status, no_error, owner).

(** Required parameters cannot follow optional ones. *)
Fixpoint count_required (metadata : list ArgumentMetadata) (optional : bool) (n : nat) : option nat :=
  match metadata with
  | [] => Some n
  | m :: metadata =>
      if m_optional m then count_required metadata true n
      else if optional then None
      else count_required metadata optional (S n)
  end.

Fixpoint metadata_of (params : list Param) (declarations : list Argument) : option (list ArgumentMetadata) :=
  match params, declarations with
  | [], [] => Some []
  | p :: params, d :: declarations => m ← Metadata p d; ms ← metadata_of params declarations; Some (m :: ms)
  | _, _ => None
  end.

(** [command<Function>(name, help, arguments...)]. *)
Definition command (name help : option Name) (function : Handler) (declarations : list Argument) : option CommandDescriptor :=
  match function with
  | Raw f =>
      if (length declarations =? 0)%nat
      then Some (mkCommandDescriptor name help (raw_callback f) name (mkCommandParameters [] 0 0)) else None
  | Typed params f =>
      if (CommandParameterCapacity <? length params)%nat then None
      else
        ms ← metadata_of params declarations;
        n ← count_required ms false 0;
        Some (mkCommandDescriptor name help (typed_callback params f) name (mkCommandParameters ms (length params) n))
  end.

(** ** The compact table of a module

    Every declaration has room for six arguments; the table has one array for
    all commands and a view of it for each. *)
Definition table_arguments (commands : list CommandDescriptor) : list ArgumentMetadata :=
  concat ((fun c => take (count (d_parameters c)) (arguments (d_parameters c))) <$> commands).
Fixpoint table_from (table : list ArgumentMetadata) (offset : nat) (commands : list CommandDescriptor) : list CommandDescriptor :=
  match commands with
  | [] => []
  | c :: commands =>
      let n := count (d_parameters c) in
      mkCommandDescriptor (d_name c) (d_help c) (d_callback c) (d_handler c)
        (mkCommandParameters (sub table offset n) n (required (d_parameters c))) ::
      table_from table (offset + n) commands
  end.
Definition CommandTable (commands : list CommandDescriptor) : list CommandDescriptor :=
  table_from (table_arguments commands) 0 commands.
End arguments.

(** ** Integers exactly

    The numerals: a sign, a prefix that selects the base, and digits. *)
Definition prefixes : list (Name * Z) := [([], 10); ([48; 120], 16); ([48; 88], 16); ([48; 98], 2); ([48; 66], 2)].
Definition signs : list (Name * bool) := [([], false); ([43], false); ([45], true)].
Definition numeral (text : Name) (negative : bool) (magnitude : Z) : Prop :=
  exists sign prefix base body ds, text = sign ++ prefix ++ body /\ (sign, negative) ∈ signs /\ (prefix, base) ∈ prefixes /\
    body <> [] /\ Forall2 (fun c d => digit base c = Some d) body ds /\ magnitude = digits_value base ds.
Definition int_type_ok (t : IntType) : Prop := it_bits t ∈ [8; 16; 32; 64].

Lemma digits_all base body ds : Forall2 (fun c d => digit base c = Some d) body ds -> digits base body = (ds, []).
Proof. induction 1 as [|c d body ds Hd _ IH]; [done|]. cbn. by rewrite Hd, IH. Qed.
Lemma digits_sound base text ds : digits base text = (ds, []) -> Forall2 (fun c d => digit base c = Some d) text ds.
Proof.
  revert ds. induction text as [|c text IH]; intros ds Hd; cbn in Hd; [by simplify_eq|].
  destruct (digit base c) as [d|] eqn:Ec; [|done]. destruct (digits base text) as [ds' rest]. simplify_eq. constructor; auto.
Qed.
Lemma from_chars_all bits base text v : from_chars bits base text = Some (v, []) <->
  exists ds, Forall2 (fun c d => digit base c = Some d) text ds /\ text <> [] /\ v = digits_value base ds /\ v < 2 ^ bits.
Proof.
  unfold from_chars. split.
  - destruct (digits base text) as [ds rest] eqn:Ed. destruct ds as [|d ds]; [done|].
    destruct (_ <? _) eqn:El; [|done]. intros [= <- ->]. apply digits_sound in Ed. exists (d :: ds). split; [done|].
    split; [by destruct text; [inversion Ed|]|]. split; [done|]. by apply Z.ltb_lt.
  - intros (ds & Hf & Hne & -> & Hlt). rewrite (digits_all _ _ _ Hf). destruct ds as [|d ds]; [by inversion Hf; subst|].
    apply Z.ltb_lt in Hlt. by rewrite Hlt.
Qed.

Lemma digit_char base c d : digit base c = Some d -> c <> 45 /\ c <> 43 /\ 0 <= d.
Proof.
  unfold digit. destruct ((48 <=? c) && (c <=? 57)) eqn:E1.
  - destruct (_ <? base); [|done]. intros [= <-]. lia.
  - destruct ((97 <=? Fold c) && (Fold c <=? 122)) eqn:E2; [|by rewrite Z.ltb_irrefl].
    destruct (_ <? base); [|done]. intros [= <-]. split; [by intros ->|]. split; [by intros ->|]. lia.
Qed.
Lemma digits_value_pos base ds acc : 0 <= base -> Forall (fun d => 0 <= d) ds -> 0 <= acc -> 0 <= foldl (fun a d => a * base + d) acc ds.
Proof. intros Hb Hds. revert acc. induction Hds as [|d ds Hd _ IH]; intros acc Ha; [done|]. cbn. apply IH. apply Z.add_nonneg_nonneg; [by apply Z.mul_nonneg_nonneg|done]. Qed.
Lemma numeral_pos base body ds : 0 <= base -> Forall2 (fun c d => digit base c = Some d) body ds -> 0 <= digits_value base ds.
Proof.
  intros Hb Hf. apply digits_value_pos; [done| |done]. apply Forall_forall. intros d Hd.
  apply list_elem_of_lookup in Hd as [i Hi]. destruct (Forall2_lookup_r _ _ _ _ _ Hf Hi) as (c & _ & Hc). by apply digit_char in Hc as (_ & _ & Hc).
Qed.

Lemma base_of_sound text base body : base_of text = (base, body) -> exists prefix, text = prefix ++ body /\ (prefix, base) ∈ prefixes.
Proof.
  unfold base_of, prefixes.
  assert (forall t, (10, t) = (base, body) -> exists prefix, t = prefix ++ body /\ (prefix, base) ∈ prefixes) as H10.
  { intros t [= <- <-]. exists []. split; [done|]. unfold prefixes. set_solver. }
  destruct text as [|c [|x more]]; [apply H10|apply H10|]. destruct (c =? 48) eqn:Ec; [|apply H10]. apply Z.eqb_eq in Ec as ->.
  destruct ((x =? 120) || (x =? 88)) eqn:E1; [intros [= <- <-]|destruct ((x =? 98) || (x =? 66)) eqn:E2; [intros [= <- <-]|apply H10]].
  - apply orb_true_iff in E1 as [->%Z.eqb_eq | ->%Z.eqb_eq]; eexists [48; _]; (split; [done|]); set_solver.
  - apply orb_true_iff in E2 as [->%Z.eqb_eq | ->%Z.eqb_eq]; eexists [48; _]; (split; [done|]); set_solver.
Qed.
Lemma base_of_prefix prefix base body ds : (prefix, base) ∈ prefixes -> body <> [] ->
  Forall2 (fun c d => digit base c = Some d) body ds -> base_of (prefix ++ body) = (base, body).
Proof.
  intros Hp Hne Hf. unfold prefixes in Hp. repeat (apply elem_of_cons in Hp as [[= -> ->]|Hp]; [|]); try done; try (by apply elem_of_nil in Hp).
  destruct body as [|c [|x body]]; [done|done|]. cbn [app base_of]. destruct (c =? 48); [|done].
  assert (exists d, digit 10 x = Some d) as [d Hx].
  { inversion Hf as [|? ? ? ? _ Hf2]; subst. inversion Hf2; subst. eauto. }
  destruct ((x =? 120) || (x =? 88)) eqn:E1; [apply orb_true_iff in E1 as [->%Z.eqb_eq | ->%Z.eqb_eq]; done|].
  destruct ((x =? 98) || (x =? 66)) eqn:E2; [apply orb_true_iff in E2 as [->%Z.eqb_eq | ->%Z.eqb_eq]; done|done].
Qed.
Lemma prefix_base prefix base : (prefix, base) ∈ prefixes -> 0 <= base.
Proof. unfold prefixes. rewrite !elem_of_cons. intros Hp. destruct_or!; simplify_eq; try lia. by apply elem_of_nil in Hp. Qed.

Lemma int_type_facts t : int_type_ok t -> int_max t < 2 ^ mag_bits t /\ 0 <= int_max t /\
  (it_signed t = true -> (int_max t + 1) mod 2 ^ mag_bits t = int_max t + 1 /\ int_min t = - (int_max t + 1) /\ int_max t + 1 < 2 ^ mag_bits t) /\
  (it_signed t = false -> int_min t = 0).
Proof.
  destruct t as [sg bits]. unfold int_type_ok. cbn [it_bits it_signed]. rewrite !elem_of_cons.
  intros [->|[->|[->|[->|[]%elem_of_nil]]]]; destruct sg; vm_compute; split_and!; done.
Qed.

(** The sign of a text, as [Number] removes it. *)
Lemma sign_split c rest : exists sign negative, c :: rest = sign ++ (if (c =? 45) || (c =? 43) then rest else c :: rest) /\
  (sign, negative) ∈ signs /\ negative = (c =? 45).
Proof.
  unfold signs. destruct (c =? 45) eqn:E1; cbn [orb]; [apply Z.eqb_eq in E1 as ->; exists [45], true; split_and!; [done|set_solver|done]|].
  destruct (c =? 43) eqn:E2; [apply Z.eqb_eq in E2 as ->; exists [43], false; split_and!; [done|set_solver|done]|].
  exists [], false. split_and!; [done|set_solver|done].
Qed.
Lemma unsigned_start prefix base body ds : (prefix, base) ∈ prefixes -> body <> [] ->
  Forall2 (fun c d => digit base c = Some d) body ds -> exists c rest, prefix ++ body = c :: rest /\ c <> 45 /\ c <> 43.
Proof.
  intros Hp Hne Hf. unfold prefixes in Hp. rewrite !elem_of_cons in Hp.
  destruct Hf as [|c d body ds Hd Hf]; [done|]. destruct (digit_char _ _ _ Hd) as (H1 & H2 & _).
  destruct Hp as [[= -> ->]|[[= -> ->]|[[= -> ->]|[[= -> ->]|[[= -> ->]|[]%elem_of_nil]]]]]; eexists _, _; (split; [reflexivity|]); done.
Qed.

(** What [Number] makes of a text split at its sign. *)
Definition unsigned_number (t : IntType) (negative : bool) (text : Name) : option Z :=
  let '(base, body) := base_of text in
  match from_chars (mag_bits t) base body with
  | Some (magnitude, []) =>
      if it_signed t && negative then
        let next := (int_max t + 1) mod 2 ^ mag_bits t in
        if magnitude >? next then None else Some (if magnitude =? next then int_min t else - magnitude)
      else if magnitude >? int_max t then None
      else Some magnitude
  | _ => None
  end.
Lemma from_chars_sign bits base c text : (c =? 45) || (c =? 43) = true -> from_chars bits base (c :: text) = None.
Proof.
  intros Hc. unfold from_chars. cbn [digits]. destruct (digit base c) as [d|] eqn:Ed; [|done].
  apply digit_char in Ed as (H1 & H2 & _). apply orb_true_iff in Hc as [Hc%Z.eqb_eq|Hc%Z.eqb_eq]; done.
Qed.
Lemma Number_unsigned t c rest : let negative := c =? 45 in
  Number t (c :: rest) = if negative && negb (it_signed t) then None
    else unsigned_number t negative (if negative || (c =? 43) then rest else c :: rest).
Proof.
  intros negative. unfold Number, unsigned_number. fold negative. destruct (negative && negb (it_signed t)); [done|].
  destruct (base_of _) as [base [|x body]]; [done|].
  destruct ((x =? 45) || (x =? 43)) eqn:Ex; [by rewrite from_chars_sign|done].
Qed.
Lemma unsigned_number_exact t negative text v : int_type_ok t -> (negative = true -> it_signed t = true) ->
  unsigned_number t negative text = Some v <->
  exists prefix base body ds, text = prefix ++ body /\ (prefix, base) ∈ prefixes /\ body <> [] /\
    Forall2 (fun c d => digit base c = Some d) body ds /\ v = (if negative then - digits_value base ds else digits_value base ds) /\
    int_min t <= v <= int_max t.
Proof.
  intros Ht Hneg. destruct (int_type_facts t Ht) as (Hm & H0 & Hs & Hu). unfold unsigned_number. split.
  - destruct (base_of text) as [base body] eqn:Eb. destruct (base_of_sound _ _ _ Eb) as (prefix & -> & Hp).
    destruct (from_chars _ _ _) as [[m [|]]|] eqn:Ef; [|done|done]. apply from_chars_all in Ef as (ds & Hf & Hne & -> & Hlt).
    pose proof (numeral_pos _ _ _ (prefix_base _ _ Hp) Hf) as Hpos. intros Hv. exists prefix, base, body, ds.
    split; [done|]. split; [done|]. split; [done|]. split; [done|]. set (m := digits_value base ds) in *. destruct negative.
    + destruct (Hs (Hneg eq_refl)) as (Hnext & Hmin & _). rewrite (Hneg eq_refl), Hnext in Hv. cbn [andb] in Hv.
      destruct (m >? _) eqn:Eg; [done|]. destruct (m =? _) eqn:Ee; simplify_eq; lia.
    + rewrite andb_false_r in Hv. destruct (m >? _) eqn:Eg; [done|]. simplify_eq. split; [done|].
      destruct (it_signed t); [destruct (Hs eq_refl)|rewrite (Hu eq_refl)]; lia.
  - intros (prefix & base & body & ds & -> & Hp & Hne & Hf & -> & Hr). rewrite (base_of_prefix _ _ _ _ Hp Hne Hf).
    set (m := digits_value base ds) in *.
    assert (m < 2 ^ mag_bits t) as Hlt by (destruct negative; [destruct (Hs (Hneg eq_refl))|]; lia).
    rewrite (proj2 (from_chars_all (mag_bits t) base body m)) by (by exists ds). destruct negative.
    + destruct (Hs (Hneg eq_refl)) as (Hnext & Hmin & _). rewrite (Hneg eq_refl), Hnext. cbn [andb].
      destruct (m >? _) eqn:Eg; [lia|]. destruct (m =? _) eqn:Ee; f_equal; lia.
    + rewrite andb_false_r. destruct (m >? _) eqn:Eg; [lia|done].
Qed.

(** C26: Integer arguments are read exactly: for every integer type of 8 to 64
    bits a text is accepted precisely when it is an optional sign, an optional
    0x or 0b and one or more digits of that base, with a minus sign only for
    signed types, and its value lies in the range of the type; the value read is
    the value written.  No text wraps around. *)
Theorem number_exact t text v : int_type_ok t ->
  Number t text = Some v <->
  exists negative magnitude, numeral text negative magnitude /\ (negative = true -> it_signed t = true) /\
    v = (if negative then - magnitude else magnitude) /\ int_min t <= v <= int_max t.
Proof.
  intros Ht. split.
  - destruct text as [|c rest]; [done|]. rewrite Number_unsigned. destruct (sign_split c rest) as (sign & negative & Htext & Hs & Hn).
    rewrite <-Hn in *. destruct (negative && negb (it_signed t)) eqn:Es; [done|].
    assert (negative = true -> it_signed t = true) as Hneg by (intros ->; by destruct (it_signed t)).
    intros (prefix & base & body & ds & Hb & Hp & Hne & Hf & Hv & Hr)%unsigned_number_exact; [|done|done].
    exists negative, (digits_value base ds). split; [|done]. exists sign, prefix, base, body, ds. split; [rewrite <-Hb; exact Htext|done].
  - intros (negative & m & (sign & prefix & base & body & ds & -> & Hs & Hp & Hne & Hf & ->) & Hneg & Hv & Hr).
    destruct (unsigned_start _ _ _ _ Hp Hne Hf) as (c & rest & Hstart & H45 & H43).
    assert (unsigned_number t negative (prefix ++ body) = Some v) as Hu by (apply unsigned_number_exact; [done|done|]; by exists prefix, base, body, ds).
    rewrite Hstart in *. unfold signs in Hs. rewrite !elem_of_cons in Hs.
    destruct Hs as [[= -> ->]|[[= -> ->]|[[= -> ->]|[]%elem_of_nil]]]; cbn [app]; rewrite Number_unsigned.
    + apply Z.eqb_neq in H45, H43. by rewrite H45, H43.
    + done.
    + by rewrite (Hneg eq_refl).
Qed.
Lemma number_exact_witness : Number (mkIntType true 8) (chars "-0x80") = Some (-128) /\ Number (mkIntType true 8) (chars "128") <> Some 128.
Proof.
  split.
  - apply number_exact; [unfold int_type_ok; set_solver|]. exists true, 128. split; [|by vm_compute].
    exists [45], [48; 120], 16, [56; 48], [8; 0]. split; [reflexivity|]. split; [unfold signs; set_solver|].
    split; [unfold prefixes; set_solver|]. split; [done|]. split; [repeat constructor|done].
  - rewrite number_exact by (unfold int_type_ok; set_solver). intros (negative & m & _ & _ & _ & Hr). vm_compute in Hr. by destruct Hr as [_ []].
Defined.

(** ** What a handler receives *)

Lemma Number_range t text v : int_type_ok t -> Number t text = Some v -> int_min t <= v <= int_max t.
Proof.
  intros Ht. destruct text as [|c rest]; [done|]. rewrite Number_unsigned. destruct (_ && _) eqn:Es; [done|].
  intros (? & ? & ? & ? & _ & _ & _ & _ & _ & Hr)%unsigned_number_exact; [exact Hr|done|]. intros Hn. rewrite Hn in Es. by destruct (it_signed t).
Qed.
Lemma lazy_loop_index query names : forall i r, match_status (lazy_loop query i names r) = Status.ok ->
  (match_status r = Status.ok /\ match_index (lazy_loop query i names r) = match_index r) \/
  (i <= match_index (lazy_loop query i names r) < i + length names)%nat.
Proof.
  induction names as [|n names IH]; intros i r Hok; cbn [lazy_loop] in *; [by left|].
  destruct (EqualName query n); [right; cbn; lia|]. destruct (IH _ _ Hok) as [[H1 H2]|H]; [|right; cbn; lia].
  destruct (proper_prefix query n); [|by left]. rewrite H2. right. cbn. lia.
Qed.
Lemma lazy_match_index query names : match_status (lazy_match query names) = Status.ok ->
  (match_index (lazy_match query names) < length names)%nat.
Proof.
  unfold lazy_match. destruct query as [|c q]; [done|]. intros Hok. by destruct (lazy_loop_index _ _ _ _ Hok) as [[? _]|?]; [|lia].
Qed.

Section received.
Context {F : Type}.
Context (float_chars : bool -> Name -> option (F * Name)) (finite : F -> bool) (flt : F -> F -> bool)
  (float_bound : Z + F -> option F).
Abbreviation meta := (Metadata flt float_bound).
Abbreviation parse := (Parse float_chars finite flt).

Definition param_ok (p : Param) : Prop := match p_type p with PInt t => int_type_ok t | _ => True end.

(** The value is one of the declared type within the declared bounds. *)
Definition value_fits (p : Param) (d : ArgumentOf F) (v : Value) : Prop :=
  match p_type p, v with
  | PEnum declared, VEnum z =>
      exists table c, (match a_choices d with Some table => Some table | None => declared end) = Some table /\
        c ∈ table /\ choice_value c = z
  | PBool, VBool _ | PText, VText _ => True
  | PInt t, VInt z => int_min t <= z <= int_max t /\ (forall lo, a_minimum d = Some (inl lo) -> lo <= z) /\
      (forall hi, a_maximum d = Some (inl hi) -> z <= hi)
  | PFloat _, VFloat f => finite f = true /\ (forall lo m, a_minimum d = Some lo -> float_bound lo = Some m -> flt f m = false) /\
      (forall hi m, a_maximum d = Some hi -> float_bound hi = Some m -> flt m f = false)
  | _, _ => False
  end.

(** The values of a call: one per argument text, each read by its declaration,
    and optional parameters for which there is no text. *)
Fixpoint received (params : list Param) (declarations : list (ArgumentOf F)) (args : list Name) (values : list (option Value)) : Prop :=
  match params, declarations, args, values with
  | [], [], [], [] => True
  | p :: params, d :: declarations, [], None :: values => p_optional p = true /\ received params declarations [] values
  | p :: params, d :: declarations, a :: args, Some v :: values =>
      (exists m, meta p d = Some m /\ parse p a m = inr v) /\ value_fits p d v /\ received params declarations args values
  | _, _, _, _ => False
  end.

Definition policy_of (p : Param) (d : ArgumentOf F) (policy : Policy) : Prop :=
  match p_type p with
  | PEnum declared => exists table, (match a_choices d with Some table => Some table | None => declared end) = Some table /\
      policy = ChoicePolicy table
  | t => (a_minimum d = None /\ a_maximum d = None) \/
      (numeric32 t = true /\ exists lo hi, stored_bound float_bound t (a_minimum d) = Some lo /\
         stored_bound float_bound t (a_maximum d) = Some hi /\ policy = Numeric (mkNumericBounds lo hi))
  end.
Lemma Metadata_inv p d m : meta p d = Some m -> m_optional m = p_optional p /\ policy_of p d (m_policy m).
Proof.
  unfold Metadata. destruct (a_friendly d && _); [done|]. destruct (bool_decide (is_Some (a_choices d)) && _); [done|].
  destruct ((_ || _) && negb (numeric32 (p_type p))) eqn:E3; [done|]. destruct (match a_name d with None => _ | _ => _ end); [done|]. cbn zeta.
  unfold policy_of. destruct (p_type p) as [declared| |t|dbl|] eqn:Et.
  { destruct (match a_choices d with Some table => _ | None => _ end) as [table|] eqn:Ec; [|done]. cbn [mbind option_bind].
    destruct (choices_valid table); [|done]. intros [= <-]. split; [done|]. by exists table. }
  all: destruct (bool_decide _ || bool_decide _) eqn:Eb;
    [|intros [= <-]; split; [done|]; left; apply orb_false_iff in Eb as [H1%bool_decide_eq_false H2%bool_decide_eq_false];
      by rewrite !eq_None_not_Some].
  all: cbn [andb] in E3; apply negb_false_iff in E3; try done.
  all: destruct (stored_bound _ _ (a_minimum d)) as [lo|] eqn:El; [|done]; destruct (stored_bound _ _ (a_maximum d)) as [hi|] eqn:Eh; [|done];
    cbn [mbind option_bind]; destruct (match lo with Some _ => _ | None => _ end); [done|]; intros [= <-]; (split; [done|]); right;
    (split; [done|]); by exists lo, hi.
Qed.

(** Bounds survive their storage. *)
Lemma stored_int t v b : stored_bound float_bound (PInt t) v = Some b ->
  match v with Some (inl z) => b = Some (if it_signed t then signed_value z else unsigned_value z) | Some (inr _) => False | None => b = None end.
Proof.
  destruct v as [[z|f]|]; cbn; [|done|by intros [= <-]]. destruct (_ && _); [|done]. cbn. by intros [= <-].
Qed.
Lemma stored_float dbl v b : stored_bound float_bound (PFloat dbl) v = Some b ->
  match v with Some v => exists m, float_bound v = Some m /\ b = Some (float_value m) | None => b = None end.
Proof.
  destruct v as [v|]; cbn; [|by intros [= <-]]. destruct (float_bound v) as [m|]; [|done]. cbn. intros [= <-]. by exists m.
Qed.

Lemma choice_parse_in text table status v : choice_parse text table = (status, v) ->
  match v with Some z => exists c, c ∈ table /\ choice_value c = z | None => status <> Status.ok end.
Proof.
  unfold choice_parse. intros [= <- <-]. destruct (match_status _ =s? Status.ok) eqn:Es.
  - apply st_eqb_eq in Es. pose proof (lazy_match_index _ _ Es) as Hi. unfold choice_names in Hi. rewrite length_fmap in Hi.
    destruct (lookup_lt_is_Some_2 _ _ Hi) as [c Hc]. unfold choice_names. rewrite Hc. cbn. exists c. split; [|done].
    by eapply list_elem_of_lookup_2.
  - by apply st_eqb_neq in Es.
Qed.

Lemma parse_fits p d m text v : param_ok p -> meta p d = Some m -> parse p text m = inr v -> value_fits p d v.
Proof.
  intros Hok Hm%Metadata_inv. destruct Hm as [_ Hp]. unfold Parse, value_fits, policy_of, param_ok in *.
  destruct (p_type p) as [declared| |t|dbl|].
  - destruct Hp as (table & Ht & ->). destruct (choice_parse text table) as [st [z|]] eqn:Ec; [|done]. intros [= <-].
    apply choice_parse_in in Ec as (c & Hc & Hz). by exists table, c.
  - destruct (negb _); [destruct (_ && _); [done|]|destruct (boolean_alias _ _ _); [|done]]; by intros [= <-].
  - destruct (Number t text) as [z|] eqn:En; [|done]. pose proof (Number_range _ _ _ Hok En) as Hr.
    destruct (in_bounds _ _ _ _) eqn:Eb; [|done]. intros [= <-]. split; [done|].
    destruct Hp as [[-> ->]|(Hn & lo & hi & Hlo%stored_int & Hhi%stored_int & Hpol)]; [done|].
    unfold in_bounds in Eb. rewrite Hn, Hpol in Eb. cbn [minimum maximum] in Eb. apply negb_true_iff, orb_false_iff in Eb as [E1 E2].
    split.
    + intros l Hl. rewrite Hl in Hlo. subst lo. destruct (it_signed t); cbn in E1; lia.
    + intros h Hh. rewrite Hh in Hhi. subst hi. destruct (it_signed t); cbn in E2; lia.
  - destruct (FloatNumber _ _ _ _) as [f|] eqn:En; [|done].
    assert (finite f = true) as Hf.
    { unfold FloatNumber in En. repeat (case_match; try done); by simplify_eq. }
    destruct (in_bounds _ _ _ _) eqn:Eb; [|done]. intros [= <-]. split; [done|].
    destruct Hp as [[-> ->]|(Hn & lo & hi & Hlo%stored_float & Hhi%stored_float & Hpol)]; [done|].
    unfold in_bounds in Eb. rewrite Hn, Hpol in Eb. cbn [minimum maximum] in Eb. apply negb_true_iff, orb_false_iff in Eb as [E1 E2].
    split.
    + intros l m' Hl Hm. rewrite Hl in Hlo. destruct Hlo as (m2 & Hm2 & ->). simplify_eq. done.
    + intros h m' Hh Hm. rewrite Hh in Hhi. destruct Hhi as (m2 & Hm2 & ->). simplify_eq. done.
  - by intros [= <-].
Qed.
Lemma parse_error p m text status : parse p text m = inl status -> status <> Status.ok.
Proof.
  unfold Parse. destruct (p_type p).
  - destruct (m_policy m) as [| |table]; [by intros [= <-]|by intros [= <-]|].
    destruct (choice_parse text table) as [st [z|]] eqn:Ec; [done|]. intros [= <-]. by apply choice_parse_in in Ec.
  - destruct (negb _); [destruct (_ && _)|destruct (boolean_alias _ _ _)]; by intros [= <-].
  - destruct (Number _ _); [destruct (in_bounds _ _ _ _)|]; by intros [= <-].
  - destruct (FloatNumber _ _ _ _); [destruct (in_bounds _ _ _ _)|]; by intros [= <-].
  - done.
Qed.

(** The parameters from the [n]-th on are optional. *)
Fixpoint rest_optional (params : list Param) (n : nat) : Prop :=
  match params, n with
  | [], _ => True
  | p :: params, O => p_optional p = true /\ rest_optional params O
  | _ :: params, S n => rest_optional params n
  end.
Lemma parse_values_spec params : forall declarations ms args, Forall param_ok params ->
  metadata_of flt float_bound params declarations = Some ms -> (length args <= length params)%nat -> rest_optional params (length args) ->
  match parse_values float_chars finite flt params ms args with
  | inr values => received params declarations args values
  | inl e => e_status e <> Status.ok /\ is_Some (e_reason e)
  end.
Proof.
  induction params as [|p params IH]; intros [|d declarations] ms args Hok Hm Hlen Hopt; cbn [metadata_of] in Hm; simplify_eq/=; try done.
  { by destruct args; cbn in *; [|lia]. }
  destruct (meta p d) as [m|] eqn:Em; [|done]. cbn [mbind option_bind] in Hm.
  destruct (metadata_of _ _ params declarations) as [ms'|] eqn:Ems; [|done]. cbn in Hm. simplify_eq.
  apply Forall_cons in Hok as [Hp Hps]. destruct args as [|a args]; cbn [length rest_optional] in *.
  - destruct Hopt as [Ho Hopt]. specialize (IH declarations ms' [] Hps Ems ltac:(cbn; lia) Hopt).
    destruct (parse_values _ _ _ params ms' []); [exact IH|]. by split.
  - destruct (parse p a m) as [st|v] eqn:Ep; [split; [by eapply parse_error|by eexists]|].
    specialize (IH declarations ms' args Hps Ems ltac:(lia) Hopt).
    destruct (parse_values _ _ _ params ms' args); [exact IH|]. split; [by exists m|]. split; [by eapply parse_fits|exact IH].
Qed.

Lemma count_required_spec params : forall declarations ms optional k n, metadata_of flt float_bound params declarations = Some ms ->
  count_required ms optional k = Some n -> (k <= n)%nat /\ rest_optional params (n - k) /\ (optional = true -> n = k).
Proof.
  induction params as [|p params IH]; intros [|d declarations] ms optional k n Hm Hc; cbn [metadata_of] in Hm; simplify_eq/=; try done.
  destruct (meta p d) as [m|] eqn:Em; [|done]. cbn [mbind option_bind] in Hm.
  destruct (metadata_of _ _ params declarations) as [ms'|] eqn:Ems; [|done]. cbn in Hm. simplify_eq.
  apply Metadata_inv in Em as [Ho _]. cbn [count_required] in Hc. destruct (m_optional m) eqn:Eo.
  - destruct (IH _ _ _ _ _ Ems Hc) as (Hk & Hr & Hn). rewrite (Hn eq_refl), Nat.sub_diag in *. split; [done|]. by split.
  - destruct optional; [done|]. destruct (IH _ _ _ _ _ Ems Hc) as (Hk & Hr & _). split; [lia|]. split; [|done].
    replace (n - k)%nat with (S (n - S k)) by lia. exact Hr.
Qed.
Lemma rest_optional_more params n m : (n <= m)%nat -> rest_optional params n -> rest_optional params m.
Proof.
  revert n m. induction params as [|p params IH]; intros n m Hle Hr; [done|].
  destruct n as [|n], m as [|m]; cbn in *; [done|destruct Hr as [_ Hr]; by apply (IH 0%nat); [lia|]|lia|apply (IH n); [lia|done]].
Qed.

Lemma received_shape params : forall declarations args values, received params declarations args values ->
  (length args <= length params)%nat /\ rest_optional params (length args).
Proof.
  induction params as [|p params IH]; intros [|d declarations] [|a args] [|[v|] values] Hr; cbn in *; try done.
  - destruct Hr as [Ho Hr]. apply IH in Hr as [_ Hr]. split; [lia|]. by split.
  - destruct Hr as (_ & _ & Hr). apply IH in Hr as [Hl Hr]. split; [lia|done].
Qed.
Lemma received_complete params : forall declarations ms args values, metadata_of flt float_bound params declarations = Some ms ->
  received params declarations args values -> parse_values float_chars finite flt params ms args = inr values.
Proof.
  induction params as [|p params IH]; intros [|d declarations] ms args values Hm Hr; cbn [metadata_of] in Hm; simplify_eq/=; try done.
  { by destruct args, values. }
  destruct (meta p d) as [m|] eqn:Em; [|done]. cbn [mbind option_bind] in Hm.
  destruct (metadata_of _ _ params declarations) as [ms'|] eqn:Ems; [|done]. cbn in Hm. simplify_eq.
  destruct args as [|a args], values as [|[v|] values]; cbn in Hr; try done.
  - destruct Hr as [_ Hr]. by rewrite (IH _ _ _ _ Ems Hr).
  - destruct Hr as ((m' & Hm' & Hp) & _ & Hr). simplify_eq. by rewrite Hp, (IH _ _ _ _ Ems Hr).
Qed.
Lemma count_required_le params : forall declarations ms optional k n j, metadata_of flt float_bound params declarations = Some ms ->
  count_required ms optional k = Some n -> rest_optional params j -> (n <= k + j)%nat.
Proof.
  induction params as [|p params IH]; intros [|d declarations] ms optional k n j Hm Hc Hr; cbn [metadata_of] in Hm; simplify_eq/=; try done.
  { lia. }
  destruct (meta p d) as [m|] eqn:Em; [|done]. cbn [mbind option_bind] in Hm.
  destruct (metadata_of _ _ params declarations) as [ms'|] eqn:Ems; [|done]. cbn in Hm. simplify_eq.
  apply Metadata_inv in Em as [Ho _]. cbn [count_required] in Hc. destruct (m_optional m) eqn:Eo.
  - destruct (count_required_spec _ _ _ _ _ _ Ems Hc) as (_ & _ & Hn). rewrite (Hn eq_refl). lia.
  - destruct optional; [done|]. destruct j as [|j]; [destruct Hr; congruence|]. specialize (IH _ _ _ _ _ _ Ems Hc Hr). lia.
Qed.

Context {W : Type}.
(** C25: A typed command calls its handler exactly when the texts are one per
    declared parameter, missing only for optional parameters at the end, and
    each is read by its declaration; the handler then gets those values, each of
    its declared type and within the declared bounds or choices.  Otherwise the
    handler is not called, nothing changes, and the caller gets an error status
    with its reason. *)
Theorem handler_receives_declared name help params f declarations d (w : W) args :
  Forall param_ok params ->
  command float_chars finite flt float_bound name help (Typed params f) declarations = Some d ->
  let r := d_callback d w args (d_parameters d) in
  (forall values, received params declarations args values -> r = (fst (f values w), no_error, snd (f values w))) /\
  ((exists values, received params declarations args values) \/
   exists status e, r = (status, e, w) /\ status <> Status.ok /\ is_Some (e_reason e)).
Proof.
  intros Hok Hc r. unfold command in Hc. destruct (_ <? _)%nat; [done|].
  destruct (metadata_of _ _ params declarations) as [ms|] eqn:Em; [|done]. cbn [mbind option_bind] in Hc.
  destruct (count_required ms false 0) as [n|] eqn:En; [|done]. injection Hc as <-. subst r.
  cbn [d_callback d_parameters]. unfold typed_callback. cbn [required count]. unfold Invoke. cbn [arguments].
  destruct (count_required_spec _ _ _ _ _ _ Em En) as (_ & Hopt & _). rewrite Nat.sub_0_r in Hopt. split.
  - intros values Hr. destruct (received_shape _ _ _ _ Hr) as [Hlen Hrest]. pose proof (count_required_le _ _ _ _ _ _ _ Em En Hrest) as Hn.
    assert ((length args <? n)%nat || (length params <? length args)%nat = false) as ->.
    { apply orb_false_iff. split; apply Nat.ltb_ge; lia. }
    rewrite (received_complete _ _ _ _ _ Em Hr). by destruct (f values w).
  - destruct (_ || _) eqn:El; [right; eexists _, _; split; [done|]; by split|].
    apply orb_false_iff in El as [H1%Nat.ltb_ge H2%Nat.ltb_ge].
    pose proof (parse_values_spec params declarations ms args Hok Em H2 (rest_optional_more _ _ _ H1 Hopt)) as Hs.
    destruct (parse_values _ _ _ params ms args) as [e|values]; [right|left; by exists values].
    exists (e_status e), e. split; [done|exact Hs].
Qed.

(** The compact table loses nothing. *)
Lemma table_from_same (table : list (ArgumentMetadata (F:=F))) commands : forall pre post,
  table = pre ++ table_arguments commands ++ post ->
  Forall (fun c : CommandDescriptor (F:=F) (W:=W) => count (d_parameters c) = length (arguments (d_parameters c))) commands ->
  table_from table (length pre) commands = commands.
Proof.
  induction commands as [|c commands IH]; intros pre post Ht Hf; [done|]. apply Forall_cons in Hf as [Hc Hf]. cbn [table_from].
  unfold table_arguments in Ht. cbn in Ht. rewrite Hc in *. rewrite take_ge in Ht by lia. rewrite <-app_assoc in Ht. f_equal.
  - destruct c as [nm hl cb hd [ags cnt req]]. cbn in *. do 2 f_equal; [|done].
    unfold sub. rewrite Ht, drop_app_length. by rewrite take_app_length.
  - rewrite <-length_app. apply (IH (pre ++ arguments (d_parameters c)) post); [|done]. rewrite Ht. by rewrite <-app_assoc.
Qed.
Lemma metadata_of_length params : forall declarations ms, metadata_of flt float_bound params declarations = Some ms ->
  length ms = length params.
Proof.
  induction params as [|p params IH]; intros [|d declarations] ms Hm; cbn [metadata_of] in Hm; simplify_eq/=; try done.
  destruct (meta p d) as [m|] eqn:Em; [|done]. cbn [mbind option_bind] in Hm.
  destruct (metadata_of _ _ params declarations) as [ms'|] eqn:Ems; [|done]. cbn in Hm. simplify_eq. cbn. by rewrite (IH _ _ Ems).
Qed.
Lemma command_count name help (h : Handler (F:=F) (W:=W)) declarations d :
  command float_chars finite flt float_bound name help h declarations = Some d ->
  count (d_parameters d) = length (arguments (d_parameters d)).
Proof.
  unfold command. destruct h as [f|params f]; [destruct (_ =? _)%nat; [|done]; by intros [= <-]|].
  destruct (_ <? _)%nat; [done|]. destruct (metadata_of _ _ _ _) as [ms|] eqn:Em; [|done]. cbn [mbind option_bind].
  destruct (count_required _ _ _); [|done]. intros [= <-]. cbn. by rewrite (metadata_of_length _ _ _ Em).
Qed.
Definition declared (c : CommandDescriptor (F:=F) (W:=W)) : Prop :=
  exists name help h declarations, command float_chars finite flt float_bound name help h declarations = Some c.
Lemma CommandTable_same commands : Forall declared commands -> CommandTable commands = commands.
Proof.
  intros Hf. unfold CommandTable. apply (table_from_same (table_arguments commands) commands [] []); [by rewrite app_nil_r|].
  eapply Forall_impl; [exact Hf|]. intros c (name & help & h & ds & Hc). by eapply command_count.
Qed.
End received.

(** ** A command with a bounded number and an optional switch *)

Definition no_float : bool -> Name -> option (unit * Name) := fun _ _ => None.
Definition led_params : list Param := [mkParam (PInt (mkIntType false 8)) false; mkParam PBool true].
Definition led_arguments : list (ArgumentOf unit) :=
  [arg_range (inl 1) (inl 16) (arg (Some (chars "led"))); friendly (arg (Some (chars "state")))].
Definition led_handler (values : list (option (Value (F:=unit)))) (w : list (option (Value (F:=unit)))) := (Status.ok, values).
Definition led : option (CommandDescriptor (F:=unit)) :=
  command no_float (fun _ => true) (fun _ _ => false) (fun _ => None) (Some (chars "led")) None (Typed led_params led_handler) led_arguments.

Lemma handler_receives_declared_witness : exists d, led = Some d /\
  d_callback d [] [chars "0x10"; chars "ON"] (d_parameters d) = (Status.ok, no_error, [Some (VInt 16); Some (VBool true)]) /\
  exists status e, d_callback d [] [chars "17"] (d_parameters d) = (status, e, []) /\ status <> Status.ok /\ is_Some (e_reason e).
Proof.
  destruct led as [d|] eqn:Ed; [|discriminate Ed]. exists d. split; [reflexivity|].
  assert (Forall param_ok led_params) as Hok.
  { apply Forall_cons. split; [unfold param_ok, int_type_ok; cbn; set_solver|]. apply Forall_cons. by split. }
  split.
  - apply (proj1 (handler_receives_declared no_float (fun _ => true) (fun _ _ => false) (fun _ => None)
      _ _ led_params led_handler led_arguments d [] [chars "0x10"; chars "ON"] Hok Ed) [Some (VInt 16); Some (VBool true)]).
    split; [eexists; split; reflexivity|]. split; [split; [by vm_compute|]; split; intros ? [= <-]; lia|].
    split; [eexists; split; reflexivity|]. by split.
  - destruct (proj2 (handler_receives_declared no_float (fun _ => true) (fun _ _ => false) (fun _ => None)
      _ _ led_params led_handler led_arguments d [] [chars "17"] Hok Ed)) as [[values Hr]|Hr]; [|exact Hr]. exfalso.
    destruct values as [|[v|] values]; [exact Hr| |exact Hr]. destruct Hr as ((m & Hm & Hp) & _ & _).
    vm_compute in Hm. injection Hm as <-. vm_compute in Hp. discriminate Hp.
Defined.
