(* ===== verification/Command.v ===== *)
(** * The command dispatcher (src/lib/core/command/command.hpp, source.hpp, binding.hpp)

    A complete line is cut into arguments in a fixed buffer, the first two of
    which select a module and a command.  Modules live in the world [W]; the
    scheduler is reached through [SchedulerInterface].  A handler that
    dispatches again finds the dispatcher busy ([dispatch_busy]), so the
    dispatcher's own state is passed beside [W]. *)

From Stdlib Require Import Strings.String.
From S2P Require Import Prelude Foundation Wire Match Arguments.

(** ** Cutting a line *)

Definition Space (c : Z) : bool :=
  (c =? 32) || (c =? 9) || (c =? 13) || (c =? 10) || (c =? 11) || (c =? 12).
Definition quote : Z := 34.
Definition backslash : Z := 92.

(** The buffer with its write index, and the views of the arguments in it. *)
Record Tokens := mkTokens { buffer_ : list Z; write_ : nat; arguments_ : list (nat * nat); argc_ : nat }.
#[export] Instance Tokens_eta : RecordEta Tokens := fun t => mkTokens (buffer_ t) (write_ t) (arguments_ t) (argc_ t).
Definition put (c : Z) (t : Tokens) : Tokens := t <| buffer_ := <[write_ t := c]> (buffer_ t) |> <| write_ := S (write_ t) |>.
Definition view (t : Tokens) (i : nat) : Name := let '(start, n) := arguments_ t !!! i in sub (buffer_ t) start n.
Definition views (t : Tokens) : list Name := view t <$> seq 0 (argc_ t).

(** One argument: the buffer, the text after it, and whether it was closed;
    [None] is a parse error, and what it leaves in the buffer is never read. *)
Fixpoint token (quoted : bool) (text : Name) (t : Tokens) : option (Tokens * Name * bool) :=
  match text with
  | [] => Some (t, [], negb quoted)
  | c :: rest =>
      let plain :=
        if c =? quote then
          if negb quoted then None
          else match rest with
               | x :: _ => if negb (Space x) then None else Some (t, rest, true)
               | [] => Some (t, rest, true)
               end
        else if negb quoted && Space c then Some (t, text, true)
        else token quoted rest (put c t) in
      match rest with
      | e :: more => if (c =? backslash) && ((e =? quote) || (e =? backslash)) then token quoted more (put e t) else plain
      | [] => plain
      end
  end.

Section dispatcher.
Context (LineCapacity ArgumentCapacity : nat).

(** The outer loop; [fuel] bounds its rounds by the length of the text. *)
Fixpoint tokens (fuel : nat) (text : Name) (t : Tokens) : Status * Tokens :=
  match fuel, text with
  | _, [] => (Status.ok, t)
  | O, _ => (Status.ok, t)
  | S fuel, c :: rest =>
      if Space c then tokens fuel rest t
      else if (argc_ t =? ArgumentCapacity)%nat then (Status.too_many_arguments, t)
      else
        let start := write_ t in
        let quoted := c =? quote in
        match token quoted (if quoted then rest else text) t with
        | None => (Status.parse_error, t)
        | Some (t, rest, closed) =>
            if negb closed then (Status.parse_error, t)
            else tokens fuel rest (t <| arguments_ := <[argc_ t := (start, write_ t - start)%nat]> (arguments_ t) |> <| argc_ := S (argc_ t) |>)
        end
  end.
Definition ParseLine (line : Name) (t : Tokens) : Status * Tokens :=
  if (LineCapacity <? length line)%nat then (Status.line_too_long, t)
  else if existsb (fun c => c =? 0) line then (Status.parse_error, t)
  else tokens (length line) line (t <| argc_ := 0%nat |> <| write_ := 0%nat |>).

(** ** The dispatcher *)

Context {F W : Type}.
Abbreviation Descriptor := (CommandDescriptor (F:=F) (W:=W)).

(** A module with commands: its route and name are read from the instance. *)
Record Entry := mkEntry { route : W -> option Name; module_name : W -> option Name; commands : list Descriptor }.

Inductive Line :=
  | LHelp | LModule (route : option Name) | LModuleHelp | LCommand (name help : option Name)
  | LArgument (optional : bool) (name : option Name) (type : string) | LChoice (name : option Name)
  | LBadChoice (route command argument : option Name) (reason : string) (status : Status)
  | LBadValue (route command argument : option Name) (type : string) (status : Status)
  | LCount (route command : option Name) (required count received : Z) (status : Status)
  | LError (message : string) (status : Status).

(** What the dispatcher uses of the scheduler: the log, and [Invoke], which
    refuses with a status or runs a callback in a context. *)
Record SchedulerInterface := mkSchedulerInterface {
  si_log : Line -> W -> W;
  si_gate : W -> option Status;
  si_enter : option Name * option Name -> W -> W;
  si_leave : W -> W -> W
}.
Context (scheduler : SchedulerInterface).
Definition SchedInvoke {A} (context : option Name * option Name) (f : W -> Status * A * W) (refused : A) (w : W) : Status * A * W :=
  match si_gate scheduler w with
  | Some status => (status, refused, w)
  | None => let '(status, a, w') := f (si_enter scheduler context w) in (status, a, si_leave scheduler w w')
  end.

Record Dispatcher := mkDispatcher { entries_ : list Entry; tokens_ : Tokens; busy_ : bool; valid_ : bool }.
#[export] Instance Dispatcher_eta : RecordEta Dispatcher := fun d => mkDispatcher (entries_ d) (tokens_ d) (busy_ d) (valid_ d).

(** [Register] of every module: null pointers are remembered, modules without
    commands have no entry. *)
Definition new_dispatcher (modules : list (option Entry)) : Dispatcher :=
  mkDispatcher (filter (fun e => commands e <> []) (omap id modules))
    (mkTokens (replicate LineCapacity 0) 0 (replicate ArgumentCapacity (0%nat, 0%nat)) 0) false
    (forallb (fun m => bool_decide (is_Some m)) modules).

Definition routes (d : Dispatcher) (w : W) : list (option Name) := (fun e => route e w) <$> entries_ d.
Definition route_names (d : Dispatcher) (w : W) : list Name := (fun e => default [] (route e w)) <$> entries_ d.
Definition help_name : Name := chars "help".

(** The loop of [validate] over the routes, after [previous] ones. *)
Fixpoint validate_routes (previous rs : list (option Name)) : Status :=
  match rs with
  | [] => Status.ok
  | r :: rs =>
      if negb (ValidCommandName r) || EqualName (default [] r) help_name then Status.invalid_argument
      else if existsb (fun p => EqualName (default [] r) (default [] p)) previous then Status.duplicate_name
      else validate_routes (previous ++ [r]) rs
  end.
Definition validate (d : Dispatcher) (w : W) : Status :=
  if negb (valid_ d) then Status.invalid_argument else validate_routes [] (routes d w).

(** [ValidModule]: what is checked of a module with commands at compile time;
    [prefix] is its fixed route, if it has one. *)
Fixpoint valid_commands (previous cs : list Descriptor) : bool :=
  match cs with
  | [] => true
  | c :: cs =>
      ValidCommandName (d_name c) && negb (EqualName (default [] (d_name c)) help_name) &&
      match d_help c with None | Some [] => false | _ => true end &&
      match d_handler c with None | Some [] => false | _ => true end &&
      negb (existsb (fun p => EqualName (default [] (d_name c)) (default [] (d_name p))) previous) && valid_commands (previous ++ [c]) cs
  end.
Definition ValidModule (prefix : option Name) (cs : list Descriptor) : bool :=
  match cs with
  | [] => true
  | _ => match prefix with None => true | Some r => ValidCommandName prefix && negb (EqualName r help_name) end && valid_commands [] cs
  end.

(** Sources that submit lines. *)
Record CommandSource := mkCommandSource { bound : bool }.
Definition bind_sources (d : Dispatcher) (w : W) (sources : list CommandSource) : Status * list CommandSource :=
  let status := validate d w in
  if negb (status =s? Status.ok) then (status, sources) else (Status.ok, (fun _ => mkCommandSource true) <$> sources).

Definition say (l : Line) (w : W) : W := si_log scheduler l w.
Definition help_lines (e : Entry) (w : W) : list Line :=
  [LModule (route e w); LModuleHelp] ++
  concat ((fun c => LCommand (d_name c) (d_help c) ::
    concat ((fun a => LArgument (m_optional a) (m_name a) (m_type a) ::
      match m_policy a with ChoicePolicy table => (fun x => LChoice (choice_name x)) <$> table | _ => [] end)
      <$> take (count (d_parameters c)) (arguments (d_parameters c)))) <$> CommandTable (commands e)).
Definition Help (e : Entry) (w : W) : W := foldl (fun w l => say l w) w (help_lines e w).

Definition report (e : Entry) (c : Descriptor) (error : ArgumentError (F:=F)) (received : nat) (status : Status) (w : W) : W :=
  match e_reason error with
  | None => w
  | Some reason =>
      match e_argument error with
      | Some a =>
          match m_policy a with
          | ChoicePolicy _ => say (LBadChoice (route e w) (d_name c) (m_name a) reason status) w
          | _ => say (LBadValue (route e w) (d_name c) (m_name a) (m_type a) status) w
          end
      | None =>
          say (LCount (route e w) (d_name c) (u32 (Z.of_nat (required (d_parameters c)))) (u32 (Z.of_nat (count (d_parameters c))))
                 (u32 (Z.of_nat received)) status) w
      end
  end.

(** [Handle]: the status, whether the error has been reported, and the world. *)
Definition Handle (e : Entry) (args : list Name) (w : W) : Status * bool * W :=
  let table := CommandTable (commands e) in
  match args with
  | [] => (Status.ok, false, Help e w)
  | name :: rest =>
      let r := lazy_match name (((fun c => default [] (d_name c)) <$> table) ++ [help_name]) in
      if negb (match_status r =s? Status.ok) then (match_status r, false, w)
      else
        match table !! match_index r with
        | None => if negb (length args =? 1)%nat then (Status.invalid_argument, false, w) else (Status.ok, false, Help e w)
        | Some c =>
            let '(status, error, w) :=
              SchedInvoke (module_name e w, d_handler c) (fun w => d_callback c w rest (d_parameters c)) no_error w in
            (status, bool_decide (is_Some (e_reason error)), report e c error (length rest) status w)
        end
  end.

(** [Dispatch]; the [Active] guard clears [busy_] on every return. *)
Definition Dispatch (line : Name) (d : Dispatcher) (w : W) : Status * bool * Dispatcher * W :=
  if busy_ d then (Status.busy, false, d, w)
  else if negb (valid_ d) then (Status.invalid_argument, false, d, w)
  else
    let '(status, t) := ParseLine line (tokens_ d) in
    let d := d <| tokens_ := t |> in
    if negb (status =s? Status.ok) || (argc_ t =? 0)%nat then (status, false, d, w)
    else
      let r := lazy_match (view t 0) (route_names d w ++ [help_name]) in
      if negb (match_status r =s? Status.ok) then (match_status r, false, d, w)
      else
        match entries_ d !! match_index r with
        | None =>
            if negb (argc_ t =? 1)%nat then (Status.invalid_argument, false, d, w)
            else (Status.ok, false, d, foldl (fun w e => Help e w) (say LHelp w) (entries_ d))
        | Some e =>
            let '(status, diagnosed, w) := Handle e (tail (views t)) w in
            (status, diagnosed, d, w)
        end.

Definition error_message (status : Status) : string :=
  match status with
  | Status.parse_error => "malformed command line" | Status.ambiguous_match => "ambiguous command or choice"
  | Status.not_found => "unknown command or choice" | Status.line_too_long => "command line too long"
  | Status.too_many_arguments => "too many arguments" | Status.busy => "command dispatcher busy"
  | Status.invalid_argument => "invalid command arguments" | _ => "handler failed"
  end.
Definition Error (status : Status) (w : W) : W := say (LError (error_message status) status) w.

Definition dispatch (line : Name) (d : Dispatcher) (w : W) : Status * Dispatcher * W :=
  SchedInvoke (Some (chars "core"), Some (chars "command"))
    (fun w =>
       let '(status, diagnosed, d, w) := Dispatch line d w in
       (status, d, if negb (status =s? Status.ok) && negb diagnosed then Error status w else w)) d w.

Definition source_dispatch (s : CommandSource) (line : Name) (d : Dispatcher) (w : W) : Status * Dispatcher * W :=
  if bound s then dispatch line d w else (Status.not_running, d, w).
End dispatcher.

(** ** Lines that are written out

    An argument in quotes, or bare when it has no spaces; quotes and
    backslashes are escaped. *)
Definition escape (arg : Name) : Name :=
  concat ((fun c => if (c =? quote) || (c =? backslash) then [backslash; c] else [c]) <$> arg).
Definition render (quoted : bool) (arg : Name) : Name := if quoted then quote :: escape arg ++ [quote] else escape arg.
(** Each argument with its quoting and the spaces that follow it. *)
Definition Word : Type := bool * Name * Name.
Definition word_text (w : Word) : Name := let '(quoted, arg, gap) := w in render quoted arg ++ gap.
Definition line_of (ws : list Word) : Name := concat (word_text <$> ws).
Definition word_arg (w : Word) : Name := w.1.2.
Definition word_ok (w : Word) : Prop :=
  let '(quoted, arg, gap) := w in
  Forall (fun c => Space c = true) gap /\ (quoted = true \/ (arg <> [] /\ Forall (fun c => Space c = false) arg)).
(** Every argument but the last is followed by a space. *)
Fixpoint words_ok (ws : list Word) : Prop :=
  match ws with
  | [] => True
  | w :: ws => word_ok w /\ (ws <> [] -> w.2 <> []) /\ words_ok ws
  end.

Definition puts (arg : Name) (t : Tokens) : Tokens := foldl (fun t c => put c t) t arg.

Lemma Space_not c : Space c = true -> c <> quote /\ c <> backslash.
Proof. unfold Space, quote, backslash. rewrite !orb_true_iff, !Z.eqb_eq. lia. Qed.

(** An escaped argument is put into the buffer as it was. *)
Lemma token_escape quoted arg : forall tail t, quoted = true \/ Forall (fun c => Space c = false) arg ->
  token quoted (escape arg ++ tail) t = token quoted tail (puts arg t).
Proof.
  induction arg as [|c arg IH]; intros tail t Hq; [done|].
  assert (quoted = true \/ Forall (fun c => Space c = false) arg) as Hq' by (destruct Hq as [?|Hq]; [by left|right; by apply Forall_cons in Hq as [_ Hq]]).
  unfold escape in *. cbn [fmap list_fmap concat]. rewrite <-app_assoc. change (puts (c :: arg) t) with (puts arg (put c t)).
  destruct ((c =? quote) || (c =? backslash)) eqn:Ec.
  - cbn [app token]. rewrite Ec. cbn [Z.eqb backslash Pos.eqb andb]. by rewrite IH.
  - apply orb_false_iff in Ec as [E1 E2]. cbn [app]. rewrite <-IH by done. set (rest := _ ++ _). cbn [token]. rewrite E1, E2. cbn [andb].
    assert (negb quoted && Space c = false) as ->.
    { destruct Hq as [->|Hq]; [done|]. apply Forall_cons in Hq as [-> _]. by destruct quoted. }
    by destruct rest.
Qed.
Lemma token_word quoted arg tail t : quoted = true \/ Forall (fun c => Space c = false) arg ->
  (forall c rest, tail = c :: rest -> Space c = true) ->
  token quoted (escape arg ++ (if quoted then [quote] else []) ++ tail) t = Some (puts arg t, tail, true).
Proof.
  intros Hq Htail. rewrite token_escape by done. destruct quoted; cbn [app].
  - cbn [token quote Z.eqb Pos.eqb negb backslash andb]. destruct tail as [|c rest]; [done|]. by rewrite (Htail c rest).
  - destruct tail as [|c rest]; [done|]. specialize (Htail c rest eq_refl). destruct (Space_not _ Htail) as [H1 H2].
    cbn [token]. apply Z.eqb_neq in H1, H2. rewrite H1, H2, Htail. cbn. by destruct rest.
Qed.

Section lines.
Context (LineCapacity ArgumentCapacity : nat).
Abbreviation toks := (tokens ArgumentCapacity).

Definition add_word (arg : Name) (t : Tokens) : Tokens :=
  let t' := puts arg t in
  t' <| arguments_ := <[argc_ t' := (write_ t, write_ t' - write_ t)%nat]> (arguments_ t') |> <| argc_ := S (argc_ t') |>.

Lemma tokens_gap gap : forall fuel rest t, Forall (fun c => Space c = true) gap ->
  toks (length gap + fuel) (gap ++ rest) t = toks fuel rest t.
Proof.
  induction gap as [|c gap IH]; intros fuel rest t Hg; [done|]. apply Forall_cons in Hg as [Hc Hg]. cbn [length app Nat.add tokens].
  rewrite Hc. by apply IH.
Qed.
Lemma render_start quoted arg tail : word_ok (quoted, arg, []) -> exists c rest, render quoted arg ++ tail = c :: rest /\ Space c = false /\
  (c =? quote) = quoted /\ (if quoted then rest else c :: rest) = escape arg ++ (if quoted then [quote] else []) ++ tail /\
  (if quoted then True else rest = drop 1 (escape arg ++ tail)).
Proof.
  intros [_ Hw]. unfold render. destruct quoted.
  - exists quote, ((escape arg ++ [quote]) ++ tail). split; [done|]. split; [done|]. split; [done|]. by rewrite <-app_assoc.
  - destruct Hw as [?|[Hne Hs]]; [done|]. destruct arg as [|c arg]; [done|]. apply Forall_cons in Hs as [Hc _]. unfold escape. cbn [fmap list_fmap concat].
    destruct ((c =? quote) || (c =? backslash)) eqn:Ec.
    + eexists backslash, _. split; [reflexivity|]. done.
    + apply orb_false_iff in Ec as [E1 _]. eexists c, _. split; [reflexivity|]. done.
Qed.
Lemma tokens_word quoted arg gap fuel rest t : word_ok (quoted, arg, gap) -> (argc_ t < ArgumentCapacity)%nat ->
  (forall c more, gap ++ rest = c :: more -> Space c = true) ->
  toks (S fuel + length gap) (render quoted arg ++ gap ++ rest) t = toks fuel rest (add_word arg t).
Proof.
  intros Hw Hargc Htail. destruct (render_start quoted arg (gap ++ rest)) as (c & more & Hstart & Hc & Hq & Htok & _).
  { destruct Hw as [_ Hw]. split; [constructor|exact Hw]. }
  rewrite Hstart. cbn [Nat.add tokens]. rewrite Hc. assert ((argc_ t =? ArgumentCapacity)%nat = false) as -> by (apply Nat.eqb_neq; lia).
  cbn zeta. rewrite Hq. destruct Hw as [Hg Hw].
  match goal with |- context [token quoted ?x t] => assert (token quoted x t = Some (puts arg t, gap ++ rest, true)) as -> end.
  { etrans; [|apply (token_word quoted arg (gap ++ rest)); [destruct Hw as [?|[_ ?]]; auto|done]]. f_equal. exact Htok. }
  cbn [negb].
  rewrite Nat.add_comm. by apply tokens_gap.
Qed.

Lemma render_length quoted arg gap : word_ok (quoted, arg, gap) -> (1 <= length (render quoted arg))%nat.
Proof.
  intros [_ Hw]. destruct (render_start quoted arg []) as (c & rest & Hr & _); [split; [constructor|exact Hw]|].
  rewrite app_nil_r in Hr. rewrite Hr. cbn. lia.
Qed.
Definition add_words (ws : list Word) (t : Tokens) : Tokens := foldl (fun t w => add_word (word_arg w) t) t ws.
Lemma argc_puts arg : forall t, argc_ (puts arg t) = argc_ t.
Proof. induction arg as [|c arg IH]; intros t; [done|]. change (puts (c :: arg) t) with (puts arg (put c t)). by rewrite IH. Qed.
Lemma tokens_line ws : forall t fuel, words_ok ws -> (argc_ t + length ws <= ArgumentCapacity)%nat -> (length (line_of ws) <= fuel)%nat ->
  toks fuel (line_of ws) t = (Status.ok, add_words ws t).
Proof.
  induction ws as [|[[quoted arg] gap] ws IH]; intros t fuel Hok Hargc Hfuel; [by destruct fuel|].
  destruct Hok as (Hw & Hgap & Hok). unfold line_of in *. cbn [fmap list_fmap concat word_text length] in *.
  rewrite <-app_assoc in *. rewrite !length_app in Hfuel. pose proof (render_length _ _ _ Hw) as Hr.
  replace fuel with (S (fuel - 1 - length gap) + length gap)%nat by lia. rewrite tokens_word; [|exact Hw|lia|].
  - rewrite IH; [done|exact Hok| |lia]. unfold add_word. cbn [argc_ Tokens_eta field_update]. rewrite argc_puts. lia.
  - intros c more Htail. destruct gap as [|g gap].
    + destruct ws; [done|]. by destruct Hgap.
    + cbn in Htail. injection Htail as -> _. destruct Hw as [Hg _]. by apply Forall_cons in Hg as [Hg _].
Qed.

(** What the buffer holds. *)
Record tokens_ok (t : Tokens) : Prop := {
  to_buffer : length (buffer_ t) = LineCapacity;
  to_arguments : length (arguments_ t) = ArgumentCapacity;
  to_argc : (argc_ t <= ArgumentCapacity)%nat;
  to_views : forall i start n, (i < argc_ t)%nat -> arguments_ t !! i = Some (start, n) -> (start + n <= write_ t)%nat
}.
Lemma puts_buffer arg : forall t, (write_ t + length arg <= length (buffer_ t))%nat ->
  buffer_ (puts arg t) = take (write_ t) (buffer_ t) ++ arg ++ drop (write_ t + length arg) (buffer_ t) /\
  write_ (puts arg t) = (write_ t + length arg)%nat /\ arguments_ (puts arg t) = arguments_ t.
Proof.
  induction arg as [|c arg IH]; intros t Hlen.
  { cbn [puts foldl length app]. rewrite Nat.add_0_r. by rewrite take_drop. }
  change (puts (c :: arg) t) with (puts arg (put c t)). cbn [length] in Hlen.
  destruct (IH (put c t)) as (Hb & Hw & Ha). { unfold put. cbn. rewrite length_insert. lia. }
  rewrite Hb, Hw, Ha. unfold put. cbn [buffer_ write_ arguments_ Tokens_eta field_update length]. split; [|split; [lia|done]].
  rewrite insert_take_drop by lia. set (w := write_ t). set (b := buffer_ t).
  assert (length (take w b) = w) as Hl by (rewrite length_take; subst w b; lia).
  rewrite take_app_ge, Hl by (rewrite Hl; lia). replace (S w - w)%nat with 1%nat by lia. cbn [take]. rewrite <-app_assoc. cbn [app].
  rewrite (drop_app_ge (take w b)), Hl by (rewrite Hl; lia). replace (S w + length arg - w)%nat with (S (length arg)) by lia.
  cbn [drop]. rewrite drop_drop. by replace (S w + length arg)%nat with (w + S (length arg))%nat by lia.
Qed.
Lemma add_word_spec arg t : tokens_ok t -> (write_ t + length arg <= LineCapacity)%nat -> (argc_ t < ArgumentCapacity)%nat ->
  tokens_ok (add_word arg t) /\ write_ (add_word arg t) = (write_ t + length arg)%nat /\ argc_ (add_word arg t) = S (argc_ t) /\
  views (add_word arg t) = views t ++ [arg].
Proof.
  intros [Hb Ha Hc Hv] Hlen Hargc. destruct (puts_buffer arg t) as (Eb & Ew & Ea); [by rewrite Hb|].
  unfold add_word. cbn zeta. rewrite argc_puts, Ew, Ea. replace (write_ t + length arg - write_ t)%nat with (length arg) by lia.
  match goal with |- tokens_ok ?x /\ _ => set (t' := x) end.
  assert (buffer_ t' = take (write_ t) (buffer_ t) ++ arg ++ drop (write_ t + length arg) (buffer_ t)) as Hbuf by exact Eb.
  assert (arguments_ t' = <[argc_ t:=(write_ t, length arg)]> (arguments_ t)) as Harg by done.
  assert (length (take (write_ t) (buffer_ t)) = write_ t) as Hlt by (rewrite length_take; lia).
  split; [|split; [exact Ew|split; [done|]]].
  - split.
    + rewrite Hbuf, !length_app, length_take, length_drop. lia.
    + rewrite Harg. by rewrite length_insert.
    + change (argc_ t') with (S (argc_ t)). lia.
    + intros i start n Hi Hl. change (argc_ t') with (S (argc_ t)) in Hi. change (write_ t') with (write_ (puts arg t)). rewrite Ew.
      rewrite Harg in Hl. destruct (decide (i = argc_ t)) as [->|Hne].
      * rewrite list_lookup_insert_eq in Hl by lia. injection Hl as <- <-. lia.
      * rewrite list_lookup_insert_ne in Hl by done. specialize (Hv i start n ltac:(lia) Hl). lia.
  - unfold views. change (argc_ t') with (S (argc_ t)). rewrite seq_S, fmap_app. cbn [fmap list_fmap Nat.add]. f_equal.
    + apply list_fmap_ext. intros j i Hi. apply lookup_seq in Hi as [-> Hi]. cbn [Nat.add]. unfold view. rewrite Harg.
      destruct (lookup_lt_is_Some_2 (arguments_ t) j ltac:(lia)) as [[start n] Hl].
      rewrite (list_lookup_total_correct _ _ (start, n)) by (by rewrite list_lookup_insert_ne by lia).
      rewrite (list_lookup_total_correct _ _ _ Hl). specialize (Hv j start n Hi Hl).
      unfold sub. rewrite Hbuf. rewrite drop_app_le by (rewrite Hlt; lia).
      rewrite take_app_le by (rewrite length_drop, Hlt; lia). by rewrite !take_drop_commute, take_take, Nat.min_l by lia.
    + unfold view. rewrite Harg. rewrite (list_lookup_total_correct _ _ (write_ t, length arg)) by (apply list_lookup_insert_eq; lia).
      unfold sub. rewrite Hbuf. rewrite drop_app_ge, Hlt, Nat.sub_diag, drop_0 by (rewrite Hlt; lia). by rewrite take_app_length.
Qed.

Lemma escape_length arg : (length arg <= length (escape arg))%nat.
Proof.
  induction arg as [|c arg IH]; [done|]. unfold escape in *. cbn [fmap list_fmap concat]. rewrite length_app.
  destruct (_ || _); cbn [length]; lia.
Qed.
Lemma word_length w : (length (word_arg w) <= length (word_text w))%nat.
Proof.
  destruct w as [[quoted arg] gap]. cbn [word_arg word_text fst snd]. rewrite length_app. pose proof (escape_length arg).
  unfold render. destruct quoted; cbn [length]; rewrite ?length_app; lia.
Qed.
Lemma add_words_spec ws : forall t, tokens_ok t -> (write_ t + length (line_of ws) <= LineCapacity)%nat ->
  (argc_ t + length ws <= ArgumentCapacity)%nat -> tokens_ok (add_words ws t) /\ views (add_words ws t) = views t ++ (word_arg <$> ws).
Proof.
  induction ws as [|w ws IH]; intros t Hok Hlen Hargc; [by rewrite app_nil_r|].
  unfold line_of in *. cbn [fmap list_fmap concat length] in *. rewrite length_app in Hlen. pose proof (word_length w) as Hw.
  destruct (add_word_spec (word_arg w) t Hok) as (Hok' & Hwr & Hc & Hv); [lia|lia|].
  destruct (IH (add_word (word_arg w) t) Hok') as [H1 H2]; [rewrite Hwr; lia|rewrite Hc; lia|].
  split; [exact H1|]. change (add_words (w :: ws) t) with (add_words ws (add_word (word_arg w) t)). rewrite H2, Hv. by rewrite <-app_assoc.
Qed.

(** On any text at all: what is written is no longer than what is read. *)
Lemma token_bound_step quoted n : forall text, (length text <= n)%nat -> forall t t' rest closed,
  token quoted text t = Some (t', rest, closed) ->
  (write_ t' + length rest <= write_ t + length text)%nat /\ (write_ t <= write_ t')%nat /\ (length rest <= length text)%nat /\
  length (buffer_ t') = length (buffer_ t) /\ arguments_ t' = arguments_ t /\ argc_ t' = argc_ t.
Proof.
  induction n as [|n IH]; intros text Hn t t' rest closed Ht.
  { destruct text; [|cbn in Hn; lia]. cbn in Ht. simplify_eq. split_and!; done || lia. }
  destruct text as [|c text]; [cbn in Ht; simplify_eq; split_and!; done || lia|]. cbn [length] in Hn.
  assert (forall x, token quoted text (put x t) = Some (t', rest, closed) -> (write_ t' + length rest <= write_ t + length (c :: text))%nat /\
    (write_ t <= write_ t')%nat /\ (length rest <= length (c :: text))%nat /\
    length (buffer_ t') = length (buffer_ t) /\ arguments_ t' = arguments_ t /\ argc_ t' = argc_ t) as Hplain.
  { intros x Hx. apply IH in Hx as (H1 & H2 & H3 & H4 & H5 & H6); [|lia]. unfold put in *.
    cbn [write_ buffer_ arguments_ argc_ Tokens_eta field_update length] in *. rewrite length_insert in H4. split_and!; done || lia. }
  cbn [token] in Ht. destruct (match text with e :: _ => (c =? backslash) && ((e =? quote) || (e =? backslash)) | [] => false end) eqn:Eesc.
  - destruct text as [|e more]; [done|]. rewrite Eesc in Ht. apply IH in Ht as (H1 & H2 & H3 & H4 & H5 & H6); [|cbn in Hn; lia].
    unfold put in *. cbn [write_ buffer_ arguments_ argc_ Tokens_eta field_update length] in *. rewrite length_insert in H4. split_and!; done || lia.
  - assert ((if c =? quote then if negb quoted then None
          else match text with x :: _ => if negb (Space x) then None else Some (t, text, true) | [] => Some (t, text, true) end
        else if negb quoted && Space c then Some (t, c :: text, true) else token quoted text (put c t)) = Some (t', rest, closed)) as Hp.
    { destruct text as [|e more]; [exact Ht|]. by rewrite Eesc in Ht. }
    destruct (c =? quote); [|destruct (negb quoted && Space c); [simplify_eq; split_and!; done || lia|by apply (Hplain c)]].
    destruct quoted; [|done]. cbn [negb] in Hp. destruct text as [|x more]; [simplify_eq; split_and!; cbn; done || lia|].
    destruct (Space x); [|done]. cbn [negb] in Hp. simplify_eq. split_and!; cbn; done || lia.
Qed.
Lemma token_bound quoted text t t' rest closed : token quoted text t = Some (t', rest, closed) ->
  (write_ t' + length rest <= write_ t + length text)%nat /\ (write_ t <= write_ t')%nat /\ (length rest <= length text)%nat /\
  length (buffer_ t') = length (buffer_ t) /\ arguments_ t' = arguments_ t /\ argc_ t' = argc_ t.
Proof. by apply (token_bound_step quoted (length text)). Qed.
Lemma token_strict c text t t' rest closed : Space c = false -> (c =? quote) = false ->
  token false (c :: text) t = Some (t', rest, closed) -> (length rest < length (c :: text))%nat.
Proof.
  intros Hs Hq. cbn [token]. rewrite Hs, Hq. cbn [negb andb length]. destruct text as [|e more].
  - intros (_ & _ & Hl & _)%token_bound. cbn in *. lia.
  - destruct (_ && _); intros (_ & _ & Hl & _)%token_bound; cbn in *; lia.
Qed.

(** The text that follows an argument, or the rest after a space. *)
Lemma tokens_safe fuel : forall text t st t', toks fuel text t = (st, t') -> tokens_ok t ->
  (write_ t + length text <= LineCapacity)%nat -> tokens_ok t' /\ (write_ t' <= LineCapacity)%nat.
Proof.
  induction fuel as [|fuel IH]; intros text t st t' Ht Hok Hlen; cbn [tokens] in Ht.
  { destruct text; simplify_eq; (split; [done|lia]). }
  destruct text as [|c text]; [simplify_eq; split; [done|lia]|]. cbn [length] in Hlen.
  destruct (Space c); [eapply IH; [exact Ht|done|lia]|].
  destruct (argc_ t =? ArgumentCapacity)%nat eqn:Ea; [simplify_eq; split; [done|lia]|]. apply Nat.eqb_neq in Ea.
  destruct (token _ _ t) as [[[t1 rest] closed]|] eqn:Et; [|simplify_eq; split; [done|lia]].
  apply token_bound in Et as (H1 & H2 & H3 & H4 & H5 & H6). destruct Hok as [Hb Hag Hc Hv].
  assert (write_ t1 + length rest <= LineCapacity)%nat as Hw by (destruct (c =? quote); cbn [length] in *; lia).
  assert (tokens_ok t1) as Hok1.
  { split; [congruence|congruence|congruence|]. rewrite H5, H6. intros i start n Hi Hl. specialize (Hv i start n Hi Hl). lia. }
  destruct closed; cbn [negb] in Ht; [|simplify_eq; split; [done|lia]]. eapply IH; [exact Ht| |exact Hw].
  split; cbn [buffer_ write_ arguments_ argc_ Tokens_eta field_update]; [apply Hok1|rewrite length_insert; apply Hok1|pose proof (to_argc _ Hok1); lia|].
  intros i start n Hi Hl. destruct (decide (i = argc_ t1)) as [->|Hne].
  - rewrite list_lookup_insert_eq in Hl by (rewrite H5, H6; lia). injection Hl as <- <-. lia.
  - rewrite list_lookup_insert_ne in Hl by done. by apply (to_views _ Hok1 i); [lia|].
Qed.
(** The fuel is enough: more of it changes nothing. *)
Lemma tokens_fuel fuel : forall text t more, (length text <= fuel)%nat -> toks (fuel + more) text t = toks fuel text t.
Proof.
  induction fuel as [|fuel IH]; intros text t more Hlen; [destruct text; [by destruct more|cbn in Hlen; lia]|].
  destruct text as [|c text]; [done|]. cbn [length] in Hlen. cbn [Nat.add tokens]. destruct (Space c) eqn:Es; [apply IH; lia|].
  destruct (_ =? _)%nat; [done|]. destruct (c =? quote) eqn:Eq.
  - destruct (token true text t) as [[[t1 rest] closed]|] eqn:Et; [|done]. apply token_bound in Et as (_ & _ & H3 & _).
    destruct closed; cbn [negb]; [apply IH; lia|done].
  - destruct (token false (c :: text) t) as [[[t1 rest] closed]|] eqn:Et; [|done]. apply token_strict in Et; [|done|done].
    destruct closed; cbn [negb]; [apply IH; cbn in *; lia|done].
Qed.

Lemma no_nul ws : words_ok ws -> Forall (fun w => Forall (fun c => c <> 0) (word_arg w)) ws ->
  existsb (fun c => c =? 0) (line_of ws) = false.
Proof.
  intros Hok Hn. apply not_true_is_false. rewrite existsb_exists. intros (c & Hc & ->%Z.eqb_eq). revert Hok Hn Hc.
  induction ws as [|[[quoted arg] gap] ws IH]; intros Hok Hn Hc; [done|]. destruct Hok as ([Hg _] & _ & Hok).
  apply Forall_cons in Hn as [Ha Hn]. unfold line_of in Hc. cbn [fmap list_fmap concat word_text] in Hc.
  rewrite !in_app_iff in Hc. destruct Hc as [[Hc|Hc]|Hc]; [|by rewrite Forall_forall in Hg; apply list_elem_of_In, Hg in Hc|by apply IH].
  assert (In 0 (escape arg)) as He.
  { unfold render in Hc. destruct quoted; [|done]. cbn in Hc. destruct Hc as [Hc|Hc]; [done|]. apply in_app_iff in Hc as [Hc|[Hc|[]]]; done. }
  clear -Ha He. cbn in Ha. unfold escape in He. apply in_concat in He as (l & Hl & H0). apply list_elem_of_In, list_elem_of_fmap in Hl as (c & -> & Hc).
  rewrite Forall_forall in Ha. specialize (Ha c Hc). destruct ((c =? quote) || (c =? backslash)); cbn in H0; [destruct H0 as [?|[?|[]]]|destruct H0 as [?|[]]]; done.
Qed.

Lemma ParseLine_words lead ws t : tokens_ok t -> Forall (fun c => Space c = true) lead -> words_ok ws ->
  Forall (fun w => Forall (fun c => c <> 0) (word_arg w)) ws ->
  (length (lead ++ line_of ws) <= LineCapacity)%nat -> (length ws <= ArgumentCapacity)%nat ->
  exists t', ParseLine LineCapacity ArgumentCapacity (lead ++ line_of ws) t = (Status.ok, t') /\ tokens_ok t' /\ views t' = word_arg <$> ws.
Proof.
  intros Hok Hl Hw Hn Hlen Hargs. unfold ParseLine. apply Nat.ltb_ge in Hlen as Hlt. rewrite Hlt. rewrite existsb_app, no_nul by done.
  assert (existsb (fun c => c =? 0) lead = false) as ->.
  { apply not_true_is_false. rewrite existsb_exists. intros (c & Hc & ->%Z.eqb_eq). rewrite Forall_forall in Hl. by apply list_elem_of_In, Hl in Hc. }
  cbn [orb]. rewrite length_app in *. rewrite tokens_gap by done.
  match goal with |- context [toks _ _ ?x] => set (t0 := x) end.
  assert (tokens_ok t0) as Hok0. { destruct Hok as [H1 H2 H3 H4]. split; cbn; [done|done|lia|lia]. }
  rewrite (tokens_line ws t0 (length (line_of ws)) Hw ltac:(cbn; lia) ltac:(lia)).
  destruct (add_words_spec ws t0 Hok0) as [H1 H2]; [cbn; lia|cbn; lia|]. eexists. split; [reflexivity|]. by split.
Qed.
Lemma ParseLine_safe line t : tokens_ok t -> let t' := snd (ParseLine LineCapacity ArgumentCapacity line t) in
  tokens_ok t' /\ (write_ t <= LineCapacity -> write_ t' <= LineCapacity)%nat.
Proof.
  intros Hok. unfold ParseLine. destruct (_ <? _)%nat eqn:El; [done|]. destruct (existsb _ _); [done|].
  destruct (toks _ _ _) as [st t'] eqn:Et. apply tokens_safe in Et as [H1 H2]; [done| |cbn; apply Nat.ltb_ge in El; lia].
  destruct Hok as [H1 H2 H3 H4]. split; cbn; [done|done|lia|lia].
Qed.

(** C27: A command line carries any arguments: quoted, or bare where they have no
    space, with quotes and backslashes escaped and any white space around them,
    they are cut out of the line exactly as they were, empty ones included.  And
    on any line whatsoever the cutter stays inside its two arrays. *)
Theorem command_line_roundtrip t : tokens_ok t ->
  (forall lead ws, Forall (fun c => Space c = true) lead -> words_ok ws ->
     Forall (fun w => Forall (fun c => c <> 0) (word_arg w)) ws ->
     (length (lead ++ line_of ws) <= LineCapacity)%nat -> (length ws <= ArgumentCapacity)%nat ->
     exists t', ParseLine LineCapacity ArgumentCapacity (lead ++ line_of ws) t = (Status.ok, t') /\ views t' = word_arg <$> ws) /\
  (forall line, let t' := snd (ParseLine LineCapacity ArgumentCapacity line t) in
     tokens_ok t' /\ (write_ t <= LineCapacity -> write_ t' <= LineCapacity)%nat).
Proof.
  intros Hok. split; [|intros line; by apply ParseLine_safe]. intros lead ws H1 H2 H3 H4 H5.
  destruct (ParseLine_words lead ws t Hok H1 H2 H3 H4 H5) as (t' & Hp & _ & Hv). by exists t'.
Qed.
End lines.

Lemma command_line_roundtrip_witness : exists t',
  ParseLine 32 4 (line_of [(false, chars "say", [32]); (true, [104; 105; 32; 34; 92], [9; 32]); (true, [], [])])
    (mkTokens (replicate 32 0) 0 (replicate 4 (0%nat, 0%nat)) 0) = (Status.ok, t') /\
  views t' = [chars "say"; [104; 105; 32; 34; 92]; []].
Proof.
  refine (proj1 (command_line_roundtrip 32 4 (mkTokens (replicate 32 0) 0 (replicate 4 (0%nat, 0%nat)) 0) _) [] [(false, chars "say", [32]); (true, [104; 105; 32; 34; 92], [9; 32]); (true, [], [])] _ _ _ _ _).
  - split; cbn; [by rewrite length_replicate|by rewrite length_replicate|lia|lia].
  - constructor.
  - repeat (split; [split; [repeat constructor|]|split; [done|]]); [right; split; [done|repeat constructor]|by left|by left|exact I].
  - repeat constructor; done.
  - vm_compute. lia.
  - cbn. lia.
Defined.

(** ** Which handler a line reaches *)

Lemma lazy_exact q names : forall k r i n, names !! i = Some n -> EqualName q n = true ->
  (forall j m, (j < i)%nat -> names !! j = Some m -> EqualName q m = false) -> lazy_loop q k names r = mkNameMatch Status.ok (k + i).
Proof.
  induction names as [|x names IH]; intros k r i n Hn He Hfirst; [done|]. cbn [lazy_loop]. destruct i as [|i].
  - injection Hn as ->. rewrite He. by rewrite Nat.add_0_r.
  - rewrite (Hfirst 0%nat x) by (done || lia). rewrite (IH (S k) _ i n); [f_equal; lia|done|done|]. intros j m Hj Hm. apply (Hfirst (S j)); [lia|done].
Qed.
Lemma lazy_match_exact q names i n : names !! i = Some n -> n <> [] -> EqualName q n = true ->
  (forall j m, (j < i)%nat -> names !! j = Some m -> EqualName n m = false) -> lazy_match q names = mkNameMatch Status.ok i.
Proof.
  intros Hn Hne He Hfirst. unfold lazy_match. destruct q as [|c q]; [by destruct n|]. apply (lazy_exact (c :: q) names 0 _ i n); [done|done|].
  intros j m Hj Hm. apply not_true_is_false. intros Hq. specialize (Hfirst j m Hj Hm).
  assert (EqualName n m = true) as Hnm; [|congruence]. apply EqualName_spec. apply EqualName_spec in He, Hq. by rewrite <-He.
Qed.
Lemma ValidCommandName_some r : ValidCommandName r = true -> default [] r <> [].
Proof. by destruct r as [[|]|]. Qed.

Section reach.
Context (LineCapacity ArgumentCapacity : nat) {F W : Type} (scheduler : SchedulerInterface (W:=W)).
Abbreviation Descriptor := (CommandDescriptor (F:=F) (W:=W)).
Abbreviation Entry := (Entry (F:=F) (W:=W)).
Abbreviation Dispatcher := (Dispatcher (F:=F) (W:=W)).
Abbreviation disp := (dispatch LineCapacity ArgumentCapacity scheduler).

(** Logging and entering and leaving contexts: no handler runs. *)
Inductive bookkeeping : W -> W -> Prop :=
  | bk_refl w : bookkeeping w w
  | bk_log l w w' : bookkeeping w w' -> bookkeeping w (si_log scheduler l w')
  | bk_enter c w w' : bookkeeping w w' -> bookkeeping w (si_enter scheduler c w')
  | bk_leave before w w' : bookkeeping w w' -> bookkeeping w (si_leave scheduler before w').
Hint Constructors bookkeeping : core.

Definition command_context : option Name * option Name := (Some (chars "core"), Some (chars "command")).
Lemma Help_bk (e : Entry) w0 w : bookkeeping w0 w -> bookkeeping w0 (Help scheduler e w).
Proof.
  intros Hb. unfold Help. generalize (help_lines e w). intros ls. revert w Hb. induction ls as [|l ls IH]; intros w Hb; [done|]. cbn. apply IH. by constructor.
Qed.
Lemma Helps_bk (es : list Entry) w0 : forall w, bookkeeping w0 w -> bookkeeping w0 (foldl (fun w e => Help scheduler e w) w es).
Proof. induction es as [|e es IH]; intros w Hb; [done|]. cbn. by apply IH, Help_bk. Qed.
Lemma report_bk (e : Entry) (c : Descriptor) error n st w0 w : bookkeeping w0 w -> bookkeeping w0 (report scheduler e c error n st w).
Proof. intros Hb. unfold report. destruct (e_reason error); [|done]. destruct (e_argument error) as [a|]; [destruct (m_policy a)|]; by constructor. Qed.

Lemma match_eta m : match_status m = Status.ok -> m = mkNameMatch Status.ok (match_index m).
Proof. destruct m. cbn. by intros ->. Qed.
(** [Handle] runs the named handler or none. *)
Lemma Handle_spec (e : Entry) args w0 w : bookkeeping w0 w -> let '(st, diagnosed, w') := Handle scheduler e args w in
  bookkeeping w0 w' \/
  exists n rest c j w1 error w2, args = n :: rest /\
    lazy_match n (((fun c => default [] (d_name c)) <$> CommandTable (commands e)) ++ [help_name]) = mkNameMatch Status.ok j /\
    CommandTable (commands e) !! j = Some c /\ bookkeeping w0 w1 /\ d_callback c w1 rest (d_parameters c) = (st, error, w2) /\ bookkeeping w2 w'.
Proof.
  intros Hb. unfold Handle. destruct args as [|n rest]; [left; by apply Help_bk|].
  set (r := lazy_match n _). destruct (match_status r =s? Status.ok) eqn:Es; cbn [negb]; [|by left].
  apply st_eqb_eq in Es. destruct (CommandTable (commands e) !! match_index r) as [c|] eqn:Ec.
  2:{ destruct (negb _); left; [done|by apply Help_bk]. }
  unfold SchedInvoke. destruct (si_gate scheduler w) as [st|]; [left; by apply report_bk|].
  destruct (d_callback c _ rest (d_parameters c)) as [[st error] w2] eqn:Ecall. right.
  exists n, rest, c, (match_index r), (si_enter scheduler (module_name e w, d_handler c) w), error, w2.
  split; [done|]. split; [by apply match_eta|]. split; [done|]. split; [by constructor|]. split; [exact Ecall|].
  apply report_bk. by constructor.
Qed.
Lemma views_0 t : (argc_ t =? 0)%nat = false -> views t = view t 0 :: tail (views t).
Proof. intros Hc%Nat.eqb_neq. unfold views. by destruct (argc_ t). Qed.

(** Registered names are distinct. *)
Lemma validate_routes_spec rs : forall previous, validate_routes previous rs = Status.ok ->
  forall i r, rs !! i = Some r -> default [] r <> [] /\
    (forall p, p ∈ previous -> EqualName (default [] r) (default [] p) = false) /\
    forall j p, (j < i)%nat -> rs !! j = Some p -> EqualName (default [] r) (default [] p) = false.
Proof.
  induction rs as [|x rs IH]; intros previous Hv i r Hr; [done|]. cbn [validate_routes] in Hv.
  destruct (ValidCommandName x) eqn:Ex; [|done]. cbn [negb orb] in Hv. destruct (EqualName _ help_name); [done|].
  match type of Hv with context [existsb ?f ?l] => destruct (existsb f l) eqn:Ed end; [done|]. destruct i as [|i].
  - injection Hr as ->. split; [by apply ValidCommandName_some|]. split; [|lia]. intros p Hp. apply not_true_is_false. intros He.
    apply not_true_iff_false in Ed. apply Ed, existsb_exists. exists p. split; [by apply list_elem_of_In|done].
  - destruct (IH _ Hv i r Hr) as (H1 & H2 & H3). split; [done|]. split; [intros p Hp; apply H2; set_solver|].
    intros [|j] p Hj Hp; [injection Hp as ->; apply H2; set_solver|]. by apply (H3 j); [lia|].
Qed.
Lemma valid_commands_spec (cs : list Descriptor) : forall previous, valid_commands previous cs = true ->
  forall i c, cs !! i = Some c -> default [] (d_name c) <> [] /\
    (forall p, p ∈ previous -> EqualName (default [] (d_name c)) (default [] (d_name p)) = false) /\
    forall j p, (j < i)%nat -> cs !! j = Some p -> EqualName (default [] (d_name c)) (default [] (d_name p)) = false.
Proof.
  induction cs as [|x cs IH]; intros previous Hv i c Hc; [done|]. cbn [valid_commands] in Hv.
  rewrite !andb_true_iff, negb_true_iff in Hv. destruct Hv as (((((Hx & _) & _) & _) & Hd) & Hv). apply negb_true_iff in Hd. destruct i as [|i].
  - injection Hc as ->. split; [by apply ValidCommandName_some|]. split; [|lia]. intros p Hp. apply not_true_is_false. intros He.
    apply not_true_iff_false in Hd. apply Hd, existsb_exists. exists p. split; [by apply list_elem_of_In|done].
  - destruct (IH _ Hv i c Hc) as (H1 & H2 & H3). split; [done|]. split; [intros p Hp; apply H2; set_solver|].
    intros [|j] p Hj Hp; [injection Hp as ->; apply H2; set_solver|]. by apply (H3 j); [lia|].
Qed.
Lemma route_match (d : Dispatcher) w r i (e : Entry) : validate d w = Status.ok -> entries_ d !! i = Some e ->
  EqualName r (default [] (route e w)) = true -> lazy_match r (route_names d w ++ [help_name]) = mkNameMatch Status.ok i.
Proof.
  intros Hv He Hr. unfold validate in Hv. destruct (valid_ d); [|done]. cbn [negb] in Hv.
  assert (routes d w !! i = Some (route e w)) as Hi by (unfold routes; by rewrite list_lookup_fmap, He).
  destruct (validate_routes_spec _ _ Hv i _ Hi) as (Hne & _ & Hfirst).
  assert (route_names d w !! i = Some (default [] (route e w))) as Hn by (unfold route_names; by rewrite list_lookup_fmap, He).
  pose proof (lookup_lt_Some _ _ _ Hn) as Hlt. apply (lazy_match_exact r _ i (default [] (route e w))); [by rewrite lookup_app_l|done|done|].
  intros j m Hj Hm. rewrite lookup_app_l in Hm by exact (Nat.lt_trans _ _ _ Hj Hlt). unfold route_names in Hm. rewrite list_lookup_fmap in Hm.
  destruct (entries_ d !! j) as [p|] eqn:Ep; [|done]. injection Hm as <-. apply (Hfirst j (route p w)); [done|].
  unfold routes. by rewrite list_lookup_fmap, Ep.
Qed.
Lemma command_match (cs : list Descriptor) n j c : valid_commands [] cs = true -> cs !! j = Some c ->
  EqualName n (default [] (d_name c)) = true ->
  lazy_match n (((fun c => default [] (d_name c)) <$> cs) ++ [help_name]) = mkNameMatch Status.ok j.
Proof.
  intros Hv Hc Hn. destruct (valid_commands_spec _ _ Hv j c Hc) as (Hne & _ & Hfirst).
  assert (j < length ((fun c : Descriptor => default [] (d_name c)) <$> cs))%nat as Hlt by (rewrite length_fmap; by eapply lookup_lt_Some).
  apply (lazy_match_exact n _ j (default [] (d_name c))); [|done|done|].
  - rewrite lookup_app_l by done. by rewrite list_lookup_fmap, Hc.
  - intros k m Hk Hm. rewrite lookup_app_l in Hm by exact (Nat.lt_trans _ _ _ Hk Hlt). rewrite list_lookup_fmap in Hm.
    destruct (cs !! k) as [p|] eqn:Ep; [|done]. injection Hm as <-. by apply (Hfirst k).
Qed.

Context (float_chars : bool -> Name -> option (F * Name)) (finite : F -> bool) (flt : F -> F -> bool) (float_bound : Z + F -> option F).

(** A line that spells out a registered route and a command of that module,
    in any case and with any quoting, reaches that command: its callback runs
    once, with exactly the remaining arguments, and its status is the result of
    the dispatch. *)
Theorem dispatch_by_name lead ws (d : Dispatcher) w r n rest i (e : Entry) j c :
  let w0 := si_enter scheduler command_context w in
  tokens_ok LineCapacity ArgumentCapacity (tokens_ d) -> busy_ d = false -> si_gate scheduler w = None -> si_gate scheduler w0 = None ->
  validate d w0 = Status.ok -> Forall (declared float_chars finite flt float_bound) (commands e) -> valid_commands [] (commands e) = true ->
  Forall (fun c => Space c = true) lead -> words_ok ws -> Forall (fun w => Forall (fun c => c <> 0) (word_arg w)) ws ->
  (length (lead ++ line_of ws) <= LineCapacity)%nat -> (length ws <= ArgumentCapacity)%nat -> (word_arg <$> ws) = r :: n :: rest ->
  entries_ d !! i = Some e -> EqualName r (default [] (route e w0)) = true ->
  commands e !! j = Some c -> EqualName n (default [] (d_name c)) = true ->
  let '(status, error, w2) := d_callback c (si_enter scheduler (module_name e w0, d_handler c) w0) rest (d_parameters c) in
  exists d' w', disp (lead ++ line_of ws) d w = (status, d', w') /\ bookkeeping w2 w'.
Proof.
  intros w0 Htok Hbusy Hg Hg0 Hval Hdecl Hcmds Hlead Hws Hnul Hlen Hargs Hviews He Hr Hc Hn.
  destruct (d_callback c _ rest (d_parameters c)) as [[st error] w2] eqn:Ecall.
  assert (valid_ d = true) as Hvd by (unfold validate in Hval; by destruct (valid_ d)).
  destruct (ParseLine_words LineCapacity ArgumentCapacity lead ws (tokens_ d) Htok Hlead Hws Hnul Hlen Hargs) as (t & Hp & Htok' & Hv).
  rewrite Hviews in Hv.
  assert ((argc_ t =? 0)%nat = false) as Hargc by (apply Nat.eqb_neq; intros H0; unfold views in Hv; by rewrite H0 in Hv).
  assert (view t 0 = r) as Hv0 by (rewrite (views_0 t Hargc) in Hv; by injection Hv).
  unfold dispatch, SchedInvoke. rewrite Hg. fold command_context. fold w0. unfold Dispatch. rewrite Hbusy, Hvd, Hp. cbn [negb].
  rewrite st_eqb_refl, Hargc. cbn [negb orb]. change (route_names (d <| tokens_ := t |>) w0) with (route_names d w0).
  rewrite Hv0, (route_match d w0 r i e Hval He Hr). cbn [match_status match_index]. rewrite st_eqb_refl. cbn [negb].
  cbn [entries_ Dispatcher_eta field_update]. rewrite He, Hv. cbn [tail]. unfold Handle. rewrite (CommandTable_same _ _ _ _ _ Hdecl).
  rewrite (command_match _ n j c Hcmds Hc Hn). cbn [match_status match_index]. rewrite st_eqb_refl, Hc. cbn [negb].
  unfold SchedInvoke. rewrite Hg0, Ecall. eexists _, _. split; [reflexivity|]. constructor.
  match goal with |- bookkeeping w2 (if ?b then _ else _) => destruct b end; [constructor|]; apply report_bk; constructor; constructor.
Qed.
End reach.

(** ** A line that reaches the command of the last file *)

Definition quiet_scheduler : SchedulerInterface (W:=list (option (Value (F:=unit)))) :=
  mkSchedulerInterface (fun _ w => w) (fun _ => None) (fun _ w => w) (fun _ w => w).
Definition led_named : option (CommandDescriptor (F:=unit)) :=
  command no_float (fun _ => true) (fun _ _ => false) (fun _ => None) (Some (chars "set")) (Some (chars "switch a led"))
    (Typed led_params led_handler) led_arguments.
Definition led_entry (c : CommandDescriptor (F:=unit) (W:=list (option (Value (F:=unit))))) : Entry :=
  mkEntry (fun _ => Some (chars "led")) (fun _ => Some (chars "led")) [c].
Definition led_words : list Word := [(false, chars "LED", [32]); (true, chars "Set", [32]); (false, chars "3", [])].

Lemma dispatch_by_name_witness : exists c d', led_named = Some c /\
  dispatch 64 8 quiet_scheduler (line_of led_words) (new_dispatcher 64 8 [Some (led_entry c)]) [] =
    (Status.ok, d', [Some (VInt 3); None]).
Proof.
  destruct led_named as [c|] eqn:Ec; [|discriminate Ec].
  assert (d_callback c [] [chars "3"] (d_parameters c) = (Status.ok, no_error, [Some (VInt 3); None])) as Hcall.
  { assert ((fun c => d_callback c [] [chars "3"] (d_parameters c)) <$> led_named = Some (Status.ok, no_error, [Some (VInt 3); None])) as Hc
      by (vm_compute; reflexivity). rewrite Ec in Hc. by injection Hc. }
  assert (d_name c = Some (chars "set") /\ d_help c = Some (chars "switch a led") /\ d_handler c = Some (chars "set")) as (Hname & Hhelp & Hhd).
  { assert ((fun c => (d_name c, d_help c, d_handler c)) <$> led_named = Some (Some (chars "set"), Some (chars "switch a led"), Some (chars "set"))) as Hc
      by (vm_compute; reflexivity). rewrite Ec in Hc. by injection Hc. }
  pose proof (dispatch_by_name 64 8 quiet_scheduler no_float (fun _ => true) (fun _ _ => false) (fun _ => None) [] led_words
    (new_dispatcher 64 8 [Some (led_entry c)]) [] (chars "LED") (chars "Set") [chars "3"] 0 (led_entry c) 0 c) as H.
  cbn zeta in H. change (si_enter quiet_scheduler _ _) with (@nil (option (Value (F:=unit)))) in H.
  change (si_enter quiet_scheduler _ _) with (@nil (option (Value (F:=unit)))) in H. rewrite Hcall in H.
  destruct H as (d' & w' & Hd & Hbk).
  - split; cbn; [by rewrite length_replicate|by rewrite length_replicate|lia|lia].
  - reflexivity.
  - reflexivity.
  - reflexivity.
  - vm_compute. reflexivity.
  - apply Forall_cons. split; [|by apply Forall_nil]. eexists _, _, _, _. exact Ec.
  - cbn [led_entry commands valid_commands]. rewrite Hname, Hhelp, Hhd. vm_compute. reflexivity.
  - constructor.
  - repeat (split; [split; [repeat constructor|]|split; [done|]]); [right; split; [done|repeat constructor]|by left|right; split; [done|repeat constructor]|exact I].
  - repeat constructor; done.
  - vm_compute. lia.
  - cbn. lia.
  - reflexivity.
  - reflexivity.
  - vm_compute. reflexivity.
  - reflexivity.
  - rewrite Hname. vm_compute. reflexivity.
  - exists c, d'. split; [reflexivity|]. assert (w' = [Some (VInt 3); None]) as ->; [|exact Hd].
    remember [Some (VInt 3); None] as v eqn:Ev. clear -Hbk. induction Hbk; done.
Defined.
