(* ===== verification/CommandLine.v ===== *)
(** * Which handler a line runs (src/lib/core/command/command.hpp, match.hpp)

    The grammar of a line as an inductive relation, and what it means that a
    text names a command, both without the code; the dispatcher is measured by
    them. *)

From Stdlib Require Import Strings.String.
From S2P Require Import Prelude Foundation Wire Match Arguments Command.

(** ** The grammar of a line *)

(** [spells quoted after raw arg]: [raw], followed by [after], spells the
    characters [arg].  A backslash before a quote or a backslash escapes it; any
    other character stands for itself, white space only inside quotes. *)
Definition special (c : Z) : Prop := c = quote \/ c = backslash.
Definition starts_special (l : Name) : Prop := exists c rest, l = c :: rest /\ special c.
Inductive spells (quoted : bool) (after : Name) : Name -> Name -> Prop :=
  | sp_end : spells quoted after [] []
  | sp_escape c raw arg : special c -> spells quoted after raw arg -> spells quoted after (backslash :: c :: raw) (c :: arg)
  | sp_plain c raw arg : c <> quote -> (quoted = true \/ Space c = false) -> (c = backslash -> ~ starts_special (raw ++ after)) ->
      spells quoted after raw arg -> spells quoted after (c :: raw) (c :: arg).

(** [lexed line args]: the line is cut into these arguments, separated by white
    space; an argument in quotes may be empty. *)
Definition ends_word (l : Name) : Prop := l = [] \/ exists c rest, l = c :: rest /\ Space c = true.
Inductive lexed : Name -> list Name -> Prop :=
  | lx_end : lexed [] []
  | lx_space c line args : Space c = true -> lexed line args -> lexed (c :: line) args
  | lx_bare raw arg rest args : arg <> [] -> spells false rest raw arg -> ends_word rest -> lexed rest args -> lexed (raw ++ rest) (arg :: args)
  | lx_quoted raw arg rest args : spells true (quote :: rest) raw arg -> ends_word rest -> lexed rest args ->
      lexed (quote :: raw ++ quote :: rest) (arg :: args).

Lemma special_test e : (e =? quote) || (e =? backslash) = true <-> special e.
Proof. unfold special. rewrite orb_true_iff, !Z.eqb_eq. done. Qed.

(** What one argument is cut from. *)
Definition cut_of (quoted : bool) (text rest raw : Name) : Prop :=
  if quoted then text = raw ++ quote :: rest else text = raw ++ rest.
Lemma token_sound quoted n : forall text t t' rest, (length text <= n)%nat -> token quoted text t = Some (t', rest, true) ->
  exists raw arg, spells quoted (if quoted then quote :: rest else rest) raw arg /\ cut_of quoted text rest raw /\ ends_word rest /\ t' = puts arg t.
Proof.
  induction n as [|n IH]; intros text t t' rest Hn Ht.
  { destruct text; [|cbn in Hn; lia]. destruct quoted; cbn in Ht; simplify_eq. exists [], []. split; [constructor|]. split; [done|]. split; [by left|done]. }
  destruct text as [|c text].
  { destruct quoted; cbn in Ht; simplify_eq. exists [], []. split; [constructor|]. split; [done|]. split; [by left|done]. }
  cbn [length] in Hn. cbn [token] in Ht.
  destruct (match text with e :: _ => (c =? backslash) && ((e =? quote) || (e =? backslash)) | [] => false end) eqn:Eesc.
  { destruct text as [|e more]; [done|]. rewrite Eesc in Ht. apply andb_true_iff in Eesc as [->%Z.eqb_eq He%special_test].
    destruct (IH more (put e t) t' rest ltac:(cbn in Hn; lia) Ht) as (raw & arg & H1 & H2 & H3 & ->).
    exists (backslash :: e :: raw), (e :: arg). split; [by constructor|]. split; [unfold cut_of in *; destruct quoted; by rewrite H2|]. by split. }
  assert ((if c =? quote then if negb quoted then None
          else match text with x :: _ => if negb (Space x) then None else Some (t, text, true) | [] => Some (t, text, true) end
        else if negb quoted && Space c then Some (t, c :: text, true) else token quoted text (put c t)) = Some (t', rest, true)) as Hp.
  { destruct text as [|e more]; [exact Ht|]. by rewrite Eesc in Ht. }
  clear Ht. destruct (Z.eqb_spec c quote) as [->|Hq].
  { destruct quoted; [|done]. cbn [negb] in Hp. exists [], [].
    assert (t' = t /\ rest = text /\ ends_word text) as (-> & -> & He).
    { destruct text as [|x more]; [simplify_eq; split_and!; try done; by left|]. destruct (Space x) eqn:Ex; [|done]. cbn in Hp. simplify_eq.
      split_and!; try done. right. by exists x, more. }
    split; [constructor|]. split; [done|]. by split. }
  destruct (negb quoted && Space c) eqn:Es.
  { apply andb_true_iff in Es as [Hqu Hs]. destruct quoted; [done|]. injection Hp as <- <-. exists [], []. split; [constructor|]. split; [done|].
    split; [right; by exists c, text|done]. }
  destruct (IH text (put c t) t' rest ltac:(lia) Hp) as (raw & arg & H1 & H2 & H3 & ->).
  exists (c :: raw), (c :: arg). split.
  - constructor; [done|apply andb_false_iff in Es as [Hqu|Hs]; [left; by destruct quoted|by right]| |done]. intros -> (e & more & He & Hspe).
    assert (text = e :: more) as -> by (destruct quoted; unfold cut_of in H2; congruence).
    apply special_test in Hspe. rewrite Hspe in Eesc. by cbn in Eesc.
  - split; [unfold cut_of in *; destruct quoted; by rewrite H2|]. by split.
Qed.

Section lines.
Context (LineCapacity ArgumentCapacity : nat).
Abbreviation toks := (tokens ArgumentCapacity).
Abbreviation tok_ok := (tokens_ok LineCapacity ArgumentCapacity).

Lemma write_puts arg : forall t, write_ (puts arg t) = (write_ t + length arg)%nat.
Proof. induction arg as [|c arg IH]; intros t; cbn; [lia|]. fold (puts arg (put c t)). rewrite IH. cbn. lia. Qed.
Lemma tokens_sound fuel : forall text t t', toks fuel text t = (Status.ok, t') -> (length text <= fuel)%nat -> tok_ok t ->
  (write_ t + length text <= LineCapacity)%nat -> exists args, lexed text args /\ views t' = views t ++ args /\ tok_ok t'.
Proof.
  induction fuel as [|fuel IH]; intros text t t' Ht Hf Hok Hlen.
  { destruct text; [|cbn in Hf; lia]. cbn in Ht. injection Ht as <-. exists []. rewrite app_nil_r. split; [constructor|done]. }
  destruct text as [|c text].
  { cbn in Ht. injection Ht as <-. exists []. rewrite app_nil_r. split; [constructor|done]. }
  cbn [length] in *. cbn [tokens] in Ht. destruct (Space c) eqn:Es.
  { destruct (IH text t t' Ht ltac:(lia) Hok ltac:(lia)) as (args & H1 & H2). exists args. split; [by constructor|done]. }
  destruct (argc_ t =? ArgumentCapacity)%nat eqn:Ea; [done|]. apply Nat.eqb_neq in Ea. pose proof (to_argc _ _ _ Hok).
  destruct (token (c =? quote) _ t) as [[[t1 rest] closed]|] eqn:Et; [|done]. destruct closed; [|done]. cbn [negb] in Ht.
  pose proof (token_bound _ _ _ _ _ _ Et) as (B1 & B2 & B3 & _).
  destruct (token_sound _ _ _ _ _ _ (Nat.le_refl _) Et) as (raw & arg & S1 & S2 & S3 & ->). rewrite write_puts in B1.
  assert (length rest <= length text)%nat as Hr.
  { destruct (c =? quote) eqn:Eq; [done|]. apply token_strict in Et; [cbn in Et; lia|done|done]. }
  destruct (add_word_spec LineCapacity ArgumentCapacity arg t Hok) as (A1 & A2 & A3 & A4); [destruct (c =? quote); cbn in B1; lia|lia|].
  destruct (IH rest (add_word arg t) t' Ht ltac:(lia) A1) as (args & L1 & L2 & L3); [rewrite A2; destruct (c =? quote); cbn in B1; lia|].
  exists (arg :: args). split; [|split; [by rewrite L2, A4, <- app_assoc|done]].
  destruct (Z.eqb_spec c quote) as [->|Hq].
  - cbn in S2. rewrite S2. by constructor.
  - cbn in S2. rewrite S2. constructor; try done. intros ->. inversion S1; subst. cbn in S2. destruct S3 as [->|(x & more & -> & Hx)]; [done|]. injection S2 as -> _. congruence.
Qed.
(** A line that is accepted is cut as the grammar says. *)
Lemma ParseLine_sound line t t' : tok_ok t -> ParseLine LineCapacity ArgumentCapacity line t = (Status.ok, t') ->
  lexed line (views t') /\ (length line <= LineCapacity)%nat /\ Forall (fun c => c <> 0) line /\ tok_ok t'.
Proof.
  intros Hok. unfold ParseLine. destruct (Nat.ltb_spec LineCapacity (length line)); [done|]. destruct (existsb _ line) eqn:Ez; [done|]. intros Ht.
  match type of Ht with toks _ _ ?q = _ => assert (tok_ok q) as Hq by (destruct Hok as [H1 H2 H3 H4]; split; cbn; [done|done|lia|lia]) end.
  destruct (tokens_sound _ _ _ _ Ht ltac:(lia) Hq ltac:(cbn; lia)) as (args & H1 & H2 & H3). cbn in H2. rewrite H2.
  split_and!; try done. apply Forall_forall. intros c Hc ->. apply not_true_iff_false in Ez. apply Ez, existsb_exists. exists 0. split; [by apply list_elem_of_In|done].
Qed.
End lines.

(** ** Names and abbreviations *)

Definition abbreviates (q n : Name) : Prop := (length q < length n)%nat /\ same_name q (take (length q) n).
(** [selects q names i]: the text is the [i]th name, the first one spelled so up
    to case, or an abbreviation of this name only and no name itself. *)
Definition selects (q : Name) (names : list Name) (i : nat) : Prop :=
  q <> [] /\ exists n, names !! i = Some n /\
    (same_name q n /\ (forall j m, (j < i)%nat -> names !! j = Some m -> ~ same_name q m) \/
     abbreviates q n /\ (forall j m, names !! j = Some m -> ~ same_name q m /\ (abbreviates q m -> j = i))).
Lemma proper_prefix_spec q n : proper_prefix q n = true <-> abbreviates q n.
Proof. unfold proper_prefix, abbreviates. by rewrite andb_true_iff, Nat.ltb_lt, EqualName_spec. Qed.
Lemma elem_of_hits p names : forall k i, i ∈ hits p k names <-> exists j n, i = (k + j)%nat /\ names !! j = Some n /\ p n = true.
Proof.
  induction names as [|x names IH]; intros k i; cbn [hits].
  - split; [by intros ?%elem_of_nil|]. intros (j & n & _ & Hn & _). by rewrite lookup_nil in Hn.
  - assert (i ∈ hits p (S k) names <-> exists j n, i = (k + S j)%nat /\ (x :: names) !! S j = Some n /\ p n = true) as Hrec.
    { rewrite IH. split; intros (j & n & -> & H); exists j, n; (split; [lia|exact H]). }
    assert (forall j n, (x :: names) !! j = Some n -> p n = true -> i = (k + j)%nat -> j = 0%nat /\ p x = true \/ i ∈ hits p (S k) names) as Hany.
    { intros [|j] n Hn Hp ->; [left; split; [done|]; by injection Hn as ->|]. right. apply Hrec. by exists j, n. }
    destruct (p x) eqn:Ex.
    + rewrite elem_of_cons, Hrec. split; [intros [->|(j & n & H)]; [by exists 0%nat, x; rewrite Nat.add_0_r|by exists (S j), n]|].
      intros (j & n & Hi & Hn & Hp). destruct (Hany j n Hn Hp Hi) as [[-> _]|H]; [left; lia|by right; apply Hrec].
    + rewrite Hrec. split; [intros (j & n & H); by exists (S j), n|]. intros (j & n & Hi & Hn & Hp). destruct (Hany j n Hn Hp Hi) as [[_ H]|H]; [done|by apply Hrec].
Qed.
Lemma hits_first p names : forall k i rest, hits p k names = i :: rest -> forall j n, names !! j = Some n -> p n = true -> (i <= k + j)%nat.
Proof.
  induction names as [|x names IH]; intros k i rest Hh j n Hn Hp; [done|]. cbn [hits] in Hh. destruct (p x) eqn:Ex; [injection Hh as <- _; lia|].
  destruct j as [|j]; [injection Hn as ->; congruence|]. specialize (IH (S k) i rest Hh j n Hn Hp). lia.
Qed.
Lemma lazy_match_selects q names i : lazy_match q names = mkNameMatch Status.ok i -> selects q names i.
Proof.
  rewrite lazy_match_spec. destruct q as [|c q]; [done|]. set (w := c :: q). unfold lookup_name. intros H. split; [done|].
  destruct (hits (EqualName w) 0 names) as [|k ks] eqn:E1.
  - destruct (hits (proper_prefix w) 0 names) as [|k [|]] eqn:E2; try done. injection H as ->.
    assert (i ∈ hits (proper_prefix w) 0 names) as (j & n & -> & Hn & Hp)%elem_of_hits by (rewrite E2; by left). exists n. split; [done|]. right. split; [by apply proper_prefix_spec|].
    intros j' m Hm. split.
    + intros Hs%EqualName_spec. assert (j' ∈ hits (EqualName w) 0 names) as Hj by (apply elem_of_hits; by exists j', m). rewrite E1 in Hj. by apply elem_of_nil in Hj.
    + intros Ha%proper_prefix_spec. assert (j' ∈ hits (proper_prefix w) 0 names) as Hj by (apply elem_of_hits; by exists j', m). rewrite E2 in Hj. by apply list_elem_of_singleton in Hj.
  - injection H as ->. assert (i ∈ hits (EqualName w) 0 names) as (j & n & -> & Hn & Hp)%elem_of_hits by (rewrite E1; by left).
    exists n. split; [done|]. left. split; [by apply EqualName_spec|]. intros j' m Hj Hm Hs%EqualName_spec.
    pose proof (hits_first _ _ _ _ _ E1 j' m Hm Hs). lia.
Qed.

(** ** The handler *)

Section handler.
Context (LineCapacity ArgumentCapacity : nat) {F W : Type} (scheduler : SchedulerInterface (W:=W)).
Abbreviation Descriptor := (CommandDescriptor (F:=F) (W:=W)).
Abbreviation Entry := (Entry (F:=F) (W:=W)).
Abbreviation Dispatcher := (Dispatcher (F:=F) (W:=W)).
Abbreviation disp := (dispatch LineCapacity ArgumentCapacity scheduler).
Abbreviation tok_ok := (tokens_ok LineCapacity ArgumentCapacity).
Abbreviation entered := (si_enter scheduler command_context).
Abbreviation logs := (bookkeeping scheduler).

(** The texts [r] and [n] name command [c] of module [e]; "help" is a name too. *)
Definition names_command (d : Dispatcher) (w : W) (r n : Name) (e : Entry) (c : Descriptor) : Prop :=
  (exists i, selects r (route_names d w ++ [help_name]) i /\ entries_ d !! i = Some e) /\
  (exists j, selects n (((fun c => default [] (d_name c)) <$> CommandTable (commands e)) ++ [help_name]) j /\ CommandTable (commands e) !! j = Some c).
(** The line names a command and its callback, and nothing else, has run. *)
Definition ran (line : Name) (d : Dispatcher) (w : W) (status : Status) (w' : W) : Prop :=
  (length line <= LineCapacity)%nat /\ Forall (fun c => c <> 0) line /\
  exists r n rest e c w1 error w2, lexed line (r :: n :: rest) /\ names_command d (entered w) r n e c /\
    logs w w1 /\ d_callback c w1 rest (d_parameters c) = (status, error, w2) /\ logs w2 w'.

Lemma Dispatch_spec line (d : Dispatcher) w : tok_ok (tokens_ d) -> let '(st, diagnosed, d', w') := Dispatch LineCapacity ArgumentCapacity scheduler line d (entered w) in
  busy_ d' = busy_ d /\ entries_ d' = entries_ d /\ tok_ok (tokens_ d') /\ (logs w w' \/ ran line d w st w').
Proof.
  intros Hok. assert (logs w (entered w)) as Hb by (constructor; constructor). set (w0 := entered w) in *.
  unfold Dispatch. destruct (busy_ d) eqn:Ebusy; [by auto|]. destruct (valid_ d); cbn [negb]; [|by auto].
  pose proof (proj1 (ParseLine_safe LineCapacity ArgumentCapacity line (tokens_ d) Hok)) as Hsafe.
  destruct (ParseLine _ _ line _) as [pst t] eqn:Eparse. cbn [snd] in Hsafe. destruct (_ || _) eqn:Ep; [cbn; by auto|]. apply orb_false_iff in Ep as [Epst Hargc].
  apply negb_false_iff, st_eqb_eq in Epst. subst pst. destruct (ParseLine_sound _ _ _ _ _ Hok Eparse) as (Hlex & Hlen & Hnul & _).
  change (route_names (d <| tokens_ := t |>) w0) with (route_names d w0). set (r := lazy_match (view t 0) _).
  destruct (match_status r =s? Status.ok) eqn:Es; cbn [negb]; [|cbn; by auto]. apply st_eqb_eq in Es.
  cbn [entries_ Dispatcher_eta field_update]. destruct (entries_ d !! match_index r) as [e|] eqn:Ee.
  2:{ destruct (negb _); cbn; split_and!; try done; left; [done|]. apply Helps_bk. by constructor. }
  pose proof (Handle_spec scheduler e (tail (views t)) w w0 Hb) as HH. destruct (Handle scheduler e (tail (views t)) w0) as [[st dg] w'].
  cbn [busy_ entries_ Dispatcher_eta field_update]. split; [done|]. split; [done|]. split; [exact Hsafe|]. destruct HH as [HH|HH]; [by left|right].
  destruct HH as (n & rest & c & j & w1 & error & w2 & Hargs & Hj & Hc & Hb1 & Hcall & Hb2).
  split; [done|]. split; [done|]. exists (view t 0), n, rest, e, c, w1, error, w2. rewrite (views_0 t Hargc), Hargs in Hlex.
  split; [done|]. split; [|done]. split; [exists (match_index r); split; [by apply lazy_match_selects, match_eta|done]|]. exists j. by split; [apply lazy_match_selects|].
Qed.

(** C24: A line runs at most one handler, and only the one it names.  Then it is
    no longer than the buffer, has no NUL, and by the grammar of lines consists
    of arguments of which the first names a module by its route and the second a
    command of it, each by its exact spelling or a unique abbreviation; the
    handler gets exactly the remaining arguments and its status is the result.
    In every other case, malformed and oversized lines, errors and help included,
    the world sees log records only.  The dispatcher comes back with its modules,
    its buffer intact and not busier than before. *)
Theorem dispatch_one_handler line (d : Dispatcher) w : tok_ok (tokens_ d) -> let '(status, d', w') := disp line d w in
  busy_ d' = busy_ d /\ entries_ d' = entries_ d /\ tok_ok (tokens_ d') /\ (logs w w' \/ ran line d w status w').
Proof.
  intros Hok. unfold dispatch, SchedInvoke. destruct (si_gate scheduler w) as [st|]; [split_and!; try done; left; constructor|].
  fold command_context. pose proof (Dispatch_spec line d w Hok) as HD.
  destruct (Dispatch _ _ _ _ _ _) as [[[st dg] d'] w']. destruct HD as (H1 & H2 & H3 & H4). split; [done|]. split; [done|]. split; [done|].
  destruct H4 as [H4|(P0 & P1 & r & n & rest & e & c & w1 & error & w2 & P2 & P3 & P4 & P5 & P6)].
  - left. constructor. destruct (_ && _); [by constructor|done].
  - right. split; [done|]. split; [done|]. exists r, n, rest, e, c, w1, error, w2. split_and!; try done. constructor. destruct (_ && _); [by constructor|done].
Qed.
End handler.

(** A line that is too long runs nothing. *)
Lemma dispatch_one_handler_witness : exists c, led_named = Some c /\
  let d := new_dispatcher 8 8 [Some (led_entry c)] in
  bookkeeping quiet_scheduler [] (dispatch 8 8 quiet_scheduler (line_of led_words) d []).2.
Proof.
  destruct led_named as [c|] eqn:Ec; [|discriminate Ec]. exists c. split; [reflexivity|]. intros d.
  assert (tokens_ok 8 8 (tokens_ d)) as Hok by (split; cbn; [by rewrite length_replicate|by rewrite length_replicate|lia|lia]).
  pose proof (dispatch_one_handler 8 8 quiet_scheduler (line_of led_words) d [] Hok) as H.
  destruct (dispatch 8 8 quiet_scheduler (line_of led_words) d []) as [[st d'] w']. destruct H as (_ & _ & _ & [H|(Hlen & _)]); [exact H|].
  exfalso. revert Hlen. vm_compute. lia.
Defined.
