(* ===== verification/Scheduler.v ===== *)
(** * The cooperative scheduler (src/lib/core/schedule/scheduler.hpp)

    The scheduler's members and the parts of the platform it uses form one
    record; every operation is a function on it.  Critical sections need no
    model of their own: the body of a [Guard] is one function.

    Application code (task bodies, event handlers, initialization, timer
    callbacks) is a parameter: a terminating program over the operations that a
    callback may call, with the application's own state [A] passed through it.
    A callback may yield; nested dispatch is bounded by [yield_limit_], which is
    what makes the interpreter below terminate. *)

From S2P Require Import Prelude Foundation StateMachine Match.

(** ** Enumerations *)

Module Lifecycle.
Inductive State : Set := fresh | initializing | ready | running | stopping | stopped | failed.
Inductive Request : Set := request_initialize | request_ready | request_fail | request_run
  | request_stop | request_stopped.
End Lifecycle.
#[global] Instance Lifecycle_eq_dec : EqDecision Lifecycle.State.
Proof. solve_decision. Defined.
#[export] Instance Lifecycle_enum : StateEnum Lifecycle.State := {|
  state_index (s : Lifecycle.State) := match s with
    | Lifecycle.fresh => 0 | Lifecycle.initializing => 1 | Lifecycle.ready => 2 | Lifecycle.running => 3
    | Lifecycle.stopping => 4 | Lifecycle.stopped => 5 | Lifecycle.failed => 6
    end%nat;
  state_count := 7%nat
|}.

Inductive InitStage : Set := stage1 | stage2.
Inductive Mode : Set := once | repeat_.
Inductive CallbackKind : Set :=
  | kind_outside | kind_initialization | kind_task | kind_event | kind_command | kind_logging | kind_idle.
#[global] Instance Mode_eq_dec : EqDecision Mode.
Proof. solve_decision. Defined.
#[global] Instance InitStage_eq_dec : EqDecision InitStage.
Proof. solve_decision. Defined.
#[global] Instance CallbackKind_eq_dec : EqDecision CallbackKind.
Proof. solve_decision. Defined.

(** ** The lifecycle machine *)

#[export] Instance Lifecycle_machine : HasMachine (Machine Lifecycle.State) Lifecycle.State := {|
  machine m := m; with_machine m _ := m
|}.
#[export] Instance Lifecycle_machine_laws : HasMachineLaws (Machine Lifecycle.State) Lifecycle.State.
Proof. by split. Qed.

Definition lifecycle_step (request : Lifecycle.Request) (cs : Lifecycle.State)
  (m : Machine Lifecycle.State) : Lifecycle.State * Machine Lifecycle.State :=
  (match cs, request with
   | Lifecycle.fresh, Lifecycle.request_initialize => Lifecycle.initializing
   | Lifecycle.initializing, Lifecycle.request_ready => Lifecycle.ready
   | Lifecycle.initializing, Lifecycle.request_fail => Lifecycle.failed
   | Lifecycle.ready, Lifecycle.request_run => Lifecycle.running
   | Lifecycle.running, Lifecycle.request_stop => Lifecycle.stopping
   | Lifecycle.stopping, Lifecycle.request_stopped => Lifecycle.stopped
   | _, _ => cs
   end, m).

Definition lifecycle_tick (request : Lifecycle.Request) (m : Machine Lifecycle.State)
  : Machine Lifecycle.State :=
  snd (StateMachine.tick (step_only (lifecycle_step request)) m).

(** ** Data *)

(** Modules are identified by a number in place of their address. *)
Record Registration := mkRegistration { r_object : nat; r_name : option Name; instance_name : option Name }.
#[export] Instance Registration_eta : RecordEta Registration := fun r =>
  mkRegistration (r_object r) (r_name r) (instance_name r).

Record Task := mkTask {
  t_module : nat; module_name : option Name; t_index : nat; t_name : option Name;
  active : bool; executing : bool; mode : Mode; interval : Time; due : Time;
  default_period : Time; explicitly_scheduled : bool; first_due : Time;
  completed : Z; generation : Z
}.
#[export] Instance Task_eta : RecordEta Task := fun r =>
  mkTask (t_module r) (module_name r) (t_index r) (t_name r) (active r) (executing r) (mode r)
    (interval r) (due r) (default_period r) (explicitly_scheduled r) (first_due r)
    (completed r) (generation r).
#[export] Instance Task_inhabited : Inhabited Task :=
  populate (mkTask 0 None 0 None false false once 0 0 0 false 0 0 0).

Record TaskStatistics := mkTaskStatistics {
  st_module : option Name; st_task : option Name;
  executions : Z; late_starts : Z; max_lateness : Time; min_duration : Time; max_duration : Time;
  total_duration : Time; total_self_duration : Time; total_nested_duration : Time
}.
#[export] Instance TaskStatistics_eta : RecordEta TaskStatistics := fun r =>
  mkTaskStatistics (st_module r) (st_task r) (executions r) (late_starts r) (max_lateness r)
    (min_duration r) (max_duration r) (total_duration r) (total_self_duration r)
    (total_nested_duration r).
Definition new_statistics (module task : option Name) : TaskStatistics :=
  mkTaskStatistics module task 0 0 0 0 0 0 0 0.
#[export] Instance TaskStatistics_inhabited : Inhabited TaskStatistics :=
  populate (new_statistics None None).

Record Statistics := mkStatistics {
  task_statistics : list TaskStatistics;
  event_overflows : Z; timer_overflows : Z; invalid_yields : Z; yield_depth_errors : Z
}.
#[export] Instance Statistics_eta : RecordEta Statistics := fun r =>
  mkStatistics (task_statistics r) (event_overflows r) (timer_overflows r) (invalid_yields r)
    (yield_depth_errors r).

(** The task names of the contexts of callbacks that are no tasks: "init",
    "on_event" and "can_sleep". *)
Definition name_init : Name := [105; 110; 105; 116].
Definition name_on_event : Name := [111; 110; 95; 101; 118; 101; 110; 116].
Definition name_can_sleep : Name := [99; 97; 110; 95; 115; 108; 101; 101; 112].

(** A timer callback is identified by a number; [None] is the null callback. *)
Record Timer := mkTimer { timer_active : bool; timer_due : Time; callback : option nat }.
#[export] Instance Timer_eta : RecordEta Timer := fun r =>
  mkTimer (timer_active r) (timer_due r) (callback r).
#[export] Instance Timer_inhabited : Inhabited Timer := populate (mkTimer false 0 None).

Record Context := mkContext {
  c_module : option Name; c_task : option Name; kind : CallbackKind; c_scheduler : bool
}.

Record InitializationFailure := mkInitFailure {
  if_status : Status; if_module : option Name; if_stage : InitStage
}.

(** ** Application code and platform *)

(** The calls a callback may make. *)
Inductive Act (E : Type) :=
  | ASchedule (module index : nat) (delay : Time) (m : Mode)
  | ACancel (module index : nat)
  | APost (value : E) (sender : option nat)
  | ATimer (delay : Time) (cb : option nat)
  | ACancelTimer (cb : option nat)
  | AStop
  | AResetStatistics
  | AYield.

(** A callback: it returns, or stores its state, calls the scheduler and goes on
    with the status and the state it then finds. *)
Inductive Prog (E A : Type) :=
  | Return (status : Status) (a : A)
  | Call (a : A) (act : Act E) (k : Status -> A -> Prog E A).
Arguments ASchedule {E}.
Arguments ACancel {E}.
Arguments APost {E}.
Arguments ATimer {E}.
Arguments ACancelTimer {E}.
Arguments AStop {E}.
Arguments AResetStatistics {E}.
Arguments AYield {E}.
Arguments Return {E A}.
Arguments Call {E A}.

(** The logging service, absent for [NoLogging]. *)
Record Logging (L : Type) := mkLogging {
  has_logging : bool; uses_platform : bool;
  log_dispatch : L -> bool * L; log_flush : L -> L; log_empty : L -> bool; log_failure : L -> L
}.
Arguments mkLogging {L}.
Arguments has_logging {L}.
Arguments uses_platform {L}.
Arguments log_dispatch {L}.
Arguments log_flush {L}.
Arguments log_empty {L}.
Arguments log_failure {L}.

(** What a scheduler is instantiated with: the event type's test, the sizes, the
    platform (readings of its clock, and its constant answers), the logging
    service and the callbacks of the modules.  A [can_sleep] callback answers
    with [ok] for true. *)
Class Application (E A L : Type) := {
  valueless : E -> bool;
  EventCapacity : nat; TimerCapacity : nat; yield_limit_ : nat;
  clock : nat -> Time; platform_can_sleep : bool; platform_can_stop : bool;
  logging : Logging L;
  task_body : nat -> A -> Prog E A;
  init_body : nat -> InitStage -> A -> Prog E A;
  event_body : nat -> E -> A -> Prog E A;
  sleep_body : nat -> A -> Prog E A;
  timer_body : nat -> A -> Prog E A
}.

Section scheduler.
Context `{Application E A L}.

Record EventRecord := mkEventRecord { e_value : E; e_sender : option nat; e_due : Time }.

Record Scheduler := mkScheduler {
  modules_ : list Registration;
  tasks_ : list Task;
  events_ : list EventRecord;      (** the first [event_count_] elements *)
  timers_ : list Timer;            (** [TimerCapacity + 1] elements *)
  statistics_ : Statistics;
  registration_error_ : bool;
  used_ : bool;
  stop_requested_ : bool;
  lifecycle_ : Machine Lifecycle.State;
  failure_ : Status;
  initialization_failure_ : InitializationFailure;
  frame_ : list Time;              (** the frames on the stack, innermost first *)
  task_depth_ : nat;
  logging_ : L;
  (* platform *)
  clock_count : nat;
  context_ : Context;
  interrupt_ : bool;
  armed_ : option Time;
  sequence_ : nat;
  (* application *)
  app : A
}.
#[export] Instance Scheduler_eta : RecordEta Scheduler := fun r =>
  mkScheduler (modules_ r) (tasks_ r) (events_ r) (timers_ r) (statistics_ r)
    (registration_error_ r) (used_ r) (stop_requested_ r) (lifecycle_ r) (failure_ r)
    (initialization_failure_ r) (frame_ r) (task_depth_ r) (logging_ r) (clock_count r)
    (context_ r) (interrupt_ r) (armed_ r) (sequence_ r) (app r).

Implicit Types s : Scheduler.

Definition state s : Lifecycle.State := cs (lifecycle_ s).
Definition in_state s (st : Lifecycle.State) : bool := bool_decide (state s = st).

(** Platform calls. *)
Definition now s : Time * Scheduler := (clock (clock_count s), s <| clock_count := S (clock_count s) |>).
Definition notify s : Scheduler := s <| sequence_ := S (sequence_ s) |>.

(** Array accesses. *)
Definition upd_task (i : nat) (f : Task -> Task) s : Scheduler :=
  s <| tasks_ := alter f i (tasks_ s) |>.
Definition upd_stats (f : Statistics -> Statistics) s : Scheduler :=
  s <| statistics_ := f (statistics_ s) |>.

(** ** Requests *)

Definition AcceptsWork s : bool :=
  in_state s Lifecycle.fresh || in_state s Lifecycle.initializing ||
  in_state s Lifecycle.ready || in_state s Lifecycle.running.

Definition Contains (module : nat) s : bool := existsb (fun r => (r_object r =? module)%nat) (modules_ s).

(** The loops [for (auto& task : tasks_) if (task.module == ... )]. *)
Fixpoint find_task (module index i : nat) (tasks : list Task) : option nat :=
  match tasks with
  | [] => None
  | t :: tasks => if ((t_module t =? module) && (t_index t =? index))%nat then Some i
                  else find_task module index (S i) tasks
  end.

Definition ScheduleSlot (module index : nat) (delay : Time) (m : Mode) s : Status * Scheduler :=
  if negb (AcceptsWork s) then (Status.not_running, s)
  else if bool_decide (m = repeat_) && (delay =? 0) then (Status.invalid_argument, s)
  else
    match find_task module index 0 (tasks_ s) with
    | None => (Status.not_found, s)
    | Some i =>
        let '(d, s) := if in_state s Lifecycle.running
                       then let '(t, s) := now s in (After t delay, s) else (delay, s) in
        let s := upd_task i (fun t => t <| active := true |> <| explicitly_scheduled := true |>
                   <| interval := delay |> <| mode := m |> <| due := d |> <| first_due := d |>
                   <| completed := 0 |> <| generation := u64 (generation t + 1) |>) s in
        (Status.ok, notify s)
    end.

Definition CancelSlot (module index : nat) s : Status * Scheduler :=
  if interrupt_ s then (Status.invalid_argument, s)
  else if negb (AcceptsWork s) then (Status.not_running, s)
  else
    match find_task module index 0 (tasks_ s) with
    | None => (Status.not_found, s)
    | Some i =>
        if negb (active (tasks_ s !!! i)) then (Status.not_found, s)
        else
          let s := upd_task i (fun t => t <| active := false |> <| explicitly_scheduled := true |>
                     <| generation := u64 (generation t + 1) |>) s in
          (Status.ok, notify s)
    end.

Definition post (value : E) (sender : option nat) s : Status * Scheduler :=
  if negb (AcceptsWork s) then (Status.not_running, s)
  else if valueless value then (Status.invalid_argument, s)
  else if match sender with Some m => negb (Contains m s) | None => false end
  then (Status.not_found, s)
  else if (length (events_ s) =? EventCapacity)%nat then
    (Status.full, upd_stats (fun st => st <| event_overflows := u64 (event_overflows st + 1) |>) s)
  else
    let '(t, s) := now s in
    (Status.ok, notify (s <| events_ := events_ s ++ [mkEventRecord value sender t] |>)).

Definition stop s : Status * Scheduler :=
  if negb (in_state s Lifecycle.running) then (Status.not_running, s)
  else (Status.ok, if platform_can_stop then notify (s <| stop_requested_ := true |>) else s).

(** ** Timers *)

(** The earliest deadline among active timers, as in [Rearm]. *)
Fixpoint earliest_timer (earliest : Time) (timers : list Timer) : Time :=
  match timers with
  | [] => earliest
  | t :: timers => earliest_timer (if timer_active t && (timer_due t <? earliest) then timer_due t else earliest) timers
  end.

Definition Rearm s : Scheduler :=
  let earliest := earliest_timer kForever (timers_ s) in
  if earliest =? kForever then s <| armed_ := None |>
  else let '(t, s) := now s in
       s <| armed_ := Some (if earliest >? t then earliest - t else 0) |>.

(** The slot search of [TimerSlot]: a matching active slot wins at once, else
    the last inactive one. *)
Fixpoint timer_slot (cb : nat) (i : nat) (timers : list Timer) (slot : option nat) : option nat :=
  match timers with
  | [] => slot
  | t :: timers =>
      if timer_active t && bool_decide (callback t = Some cb) then Some i
      else timer_slot cb (S i) timers (if negb (timer_active t) then Some i else slot)
  end.

Definition TimerSlot (delay : Time) (cb : option nat) s : Status * Scheduler :=
  if negb (in_state s Lifecycle.running) then (Status.not_running, s)
  else
    match cb with
    | None => (Status.invalid_argument, s)
    | Some c =>
        if delay =? 0 then (Status.invalid_argument, s)
        else
          match timer_slot c 0 (take TimerCapacity (timers_ s)) None with
          | None => (Status.full, upd_stats (fun st => st <| timer_overflows := u64 (timer_overflows st + 1) |>) s)
          | Some i =>
              let '(t, s) := now s in
              let s := s <| timers_ := <[i := mkTimer true (After t delay) cb]> (timers_ s) |> in
              (Status.ok, notify (Rearm s))
          end
    end.

Fixpoint find_timer (cb : option nat) (i : nat) (timers : list Timer) : option nat :=
  match timers with
  | [] => None
  | t :: timers => if timer_active t && bool_decide (callback t = cb) then Some i
                   else find_timer cb (S i) timers
  end.

Definition cancel_timer (cb : option nat) s : Status * Scheduler :=
  if negb (in_state s Lifecycle.running) then (Status.not_running, s)
  else
    match find_timer cb 0 (take TimerCapacity (timers_ s)) with
    | None => (Status.not_found, s)
    | Some i =>
        let s := s <| timers_ := alter (fun t => t <| timer_active := false |>) i (timers_ s) |> in
        (Status.ok, notify (Rearm s))
    end.

Definition reset_statistics s : Scheduler :=
  s <| statistics_ := mkStatistics (map (fun t => new_statistics (module_name t) (t_name t)) (tasks_ s)) 0 0 0 0 |>.

Record TaskProgress := mkTaskProgress {
  p_module : option Name; p_task : option Name; repeating : bool;
  p_first_due : Time; period : Time; p_completed : Z; p_generation : Z
}.
Record Progress := mkProgress { p_running : bool; p_now : Time; p_tasks : list TaskProgress }.

Definition progress s : Progress * Scheduler :=
  let '(t, s) := now s in
  (mkProgress (in_state s Lifecycle.running) t
     (map (fun k => mkTaskProgress (module_name k) (t_name k) (active k && bool_decide (mode k = repeat_))
                      (first_due k) (interval k) (completed k) (generation k)) (tasks_ s)), s).

(** ** Callbacks *)

(** Every call but [yield]. *)
Definition api (act : Act E) s : Status * Scheduler :=
  match act with
  | ASchedule module index delay m => ScheduleSlot module index delay m s
  | ACancel module index => CancelSlot module index s
  | APost value sender => post value sender s
  | ATimer delay cb => TimerSlot delay cb s
  | ACancelTimer cb => cancel_timer cb s
  | AStop => stop s
  | AResetStatistics => (Status.ok, reset_statistics s)
  | AYield => (Status.invalid_context, s)
  end.

Fixpoint exec (yield : Scheduler -> Status * Scheduler) (p : Prog E A) s : Status * Scheduler :=
  match p with
  | Return st a => (st, s <| app := a |>)
  | Call a act k =>
      let s := s <| app := a |> in
      let '(st, s) := match act with AYield => yield s | _ => api act s end in
      exec yield (k st (app s)) s
  end.

(** [ContextGuard] around a callback. *)
Definition in_context (c : Context) (yield : Scheduler -> Status * Scheduler) (p : Prog E A) s : Status * Scheduler :=
  let previous := context_ s in
  let '(st, s) := exec yield p (s <| context_ := c |>) in
  (st, s <| context_ := previous |>).

(** ** Dispatch of a task *)

(** Selection loops: [ok] is the loop's condition on a task. *)
Fixpoint select_task (ok : Task -> bool) (t_now : Time) (i : nat) (tasks : list Task)
    (earliest : Time) (selected : option nat) : Time * option nat :=
  match tasks with
  | [] => (earliest, selected)
  | t :: tasks =>
      if ok t && (due t <=? t_now) && (due t <? earliest)
      then select_task ok t_now (S i) tasks (due t) (Some i)
      else select_task ok t_now (S i) tasks earliest selected
  end.

Definition TakeTask (i : nat) s : Time * Z * Scheduler :=
  let t := tasks_ s !!! i in
  (due t, generation t,
   upd_task i (fun t =>
     let t := t <| executing := true |> in
     match mode t with
     | repeat_ => t <| due := After (due t) (interval t) |>
     | once => t <| active := false |>
     end) s).

(** The accounting after a callback of [duration], [nested] of it in nested
    tasks. *)
Definition account (start scheduled duration nested : Time) (st : TaskStatistics) : TaskStatistics :=
  let st := if (executions st =? 0) || (duration <? min_duration st)
            then st <| min_duration := duration |> else st in
  let st := if duration >? max_duration st then st <| max_duration := duration |> else st in
  let st := st <| executions := u64 (executions st + 1) |>
               <| total_duration := u64 (total_duration st + duration) |>
               <| total_self_duration := u64 (total_self_duration st + u64 (duration - nested)) |>
               <| total_nested_duration := u64 (total_nested_duration st + nested) |> in
  if start >? scheduled then
    let st := st <| late_starts := u64 (late_starts st + 1) |> in
    if start - scheduled >? max_lateness st then st <| max_lateness := start - scheduled |> else st
  else st.

Definition run_body (yield : Scheduler -> Status * Scheduler) (i : nat) (scheduled : Time) (gen : Z) s : Scheduler :=
  let t := tasks_ s !!! i in
  let s := s <| frame_ := 0 :: frame_ s |> <| task_depth_ := S (task_depth_ s) |> in
  let '(start, s) := now s in
  let '(_, s) := in_context (mkContext (module_name t) (t_name t) kind_task true) yield (task_body i (app s)) s in
  let '(finish, s) := now s in
  let duration := u64 (finish - start) in
  let nested := default 0 (head (frame_ s)) in
  let parents := match tail (frame_ s) with
                 | [] => []
                 | p :: rest => u64 (p + duration) :: rest
                 end in
  let s := s <| task_depth_ := task_depth_ s - 1 |>%nat <| frame_ := parents |> in
  let s := upd_task i (fun t =>
             let t := t <| executing := false |> in
             if generation t =? gen then t <| completed := u64 (completed t + 1) |> else t) s in
  upd_stats (fun st => st <| task_statistics :=
    alter (account start scheduled duration nested) i (task_statistics st) |>) s.

(** [yield], given the dispatch of nested tasks. *)
Definition yield_with (run : nat -> Time -> Z -> Scheduler -> Scheduler) s : Status * Scheduler :=
  if interrupt_ s || negb (bool_decide (kind (context_ s) = kind_task)) || negb (c_scheduler (context_ s))
  then (Status.invalid_context,
        upd_stats (fun st => st <| invalid_yields := u64 (invalid_yields st + 1) |>) s)
  else if stop_requested_ s || negb (in_state s Lifecycle.running) then (Status.not_running, s)
  else
    let '(t, s) := now s in
    match select_task (fun k => active k && negb (executing k)) t 0 (tasks_ s) kForever None with
    | (_, None) => (Status.empty, s)
    | (_, Some i) =>
        if (yield_limit_ <=? task_depth_ s)%nat then
          (Status.depth_limit,
           upd_stats (fun st => st <| yield_depth_errors := u64 (yield_depth_errors st + 1) |>) s)
        else
          let '(scheduled, gen, s) := TakeTask i s in
          (Status.ok, run i scheduled gen s)
    end.

(** [RunTask] with nested dispatch down to [depth] further levels.  The cut-off
    [no_nesting] is never reached when [depth] is [yield_limit_]: see
    [RunTask_enough]. *)
Definition no_nesting (i : nat) (scheduled : Time) (gen : Z) s : Scheduler :=
  upd_task i (fun t => t <| executing := false |>) s.

Fixpoint RunTask (depth : nat) (i : nat) (scheduled : Time) (gen : Z) s : Scheduler :=
  let nested := match depth with O => no_nesting | S depth => RunTask depth end in
  run_body (yield_with nested) i scheduled gen s.

Definition full_depth : nat := yield_limit_.
Definition yield : Scheduler -> Status * Scheduler := yield_with (RunTask full_depth).

(** ** Registration and validation *)

Record TaskDescriptor := mkTaskDescriptor { d_name : option Name; d_callback : option nat; d_period : Time }.
Record ModuleDescriptor := mkModuleDescriptor {
  md_object : nat; md_name : option Name; md_instance_name : option Name; md_tasks : list TaskDescriptor
}.

(** The descriptors of one module; [earlier] are those before [index]. *)
Fixpoint register_tasks (m : ModuleDescriptor) (index : nat) (earlier ds : list TaskDescriptor) s : Scheduler :=
  match ds with
  | [] => s
  | d :: ds =>
      let t := mkTask (md_object m) (md_name m) index (d_name d) false false once 0 0 (d_period d) false 0 0 0 in
      let bad := bool_decide (d_callback d = None) || (d_period d =? kForever) ||
                 existsb (fun e => bool_decide (d_callback e = d_callback d)) earlier in
      let s := s <| tasks_ := tasks_ s ++ [t] |> <| registration_error_ := registration_error_ s || bad |> in
      let s := upd_stats (fun st => st <| task_statistics :=
                 task_statistics st ++ [new_statistics (md_name m) (d_name d)] |>) s in
      register_tasks m (S index) (earlier ++ [d]) ds s
  end.

(** [None] is a null module pointer. *)
Definition Register (m : option ModuleDescriptor) s : Scheduler :=
  match m with
  | None => s <| registration_error_ := true |>
  | Some m =>
      let s := s <| modules_ := modules_ s ++ [mkRegistration (md_object m) (md_name m) (md_instance_name m)] |> in
      register_tasks m 0 [] (md_tasks m) s
  end.

Definition new_scheduler (ms : list (option ModuleDescriptor)) (l : L) (a : A) : Scheduler :=
  foldl (fun s m => Register m s)
    (mkScheduler [] [] [] (replicate (S TimerCapacity) (mkTimer false 0 None)) (mkStatistics [] 0 0 0 0)
       false false false (initial_machine Lifecycle.fresh) Status.initialization_failed
       (mkInitFailure Status.ok None stage1) [] 0 l 0 (mkContext None None kind_outside false) false None 0 a) ms.

Definition is_empty_name (n : option Name) : bool :=
  match n with None | Some [] => true | _ => false end.

(** Instance names, in registration order; the names read so far are kept even
    if the check fails. *)
Fixpoint validate_modules (previous rest : list Registration) : Status * list Registration :=
  match rest with
  | [] => (Status.ok, previous)
  | r :: rest =>
      let r := r <| r_name := instance_name r |> in
      if is_empty_name (r_name r) then (Status.invalid_argument, previous ++ r :: rest)
      else if existsb (fun p => EqualName (default [] (r_name r)) (default [] (r_name p))) previous
      then (Status.duplicate_name, previous ++ r :: rest)
      else validate_modules (previous ++ [r]) rest
  end.

Definition owner_name (modules : list Registration) (t : Task) : option Name :=
  foldl (fun n r => if (r_object r =? t_module t)%nat then r_name r else n) (module_name t) modules.

Fixpoint validate_tasks (previous rest : list Task) : Status :=
  match rest with
  | [] => Status.ok
  | t :: rest =>
      if is_empty_name (t_name t) then Status.invalid_argument
      else if existsb (fun p => (t_module t =? t_module p)%nat && bool_decide (t_name t = t_name p)) previous
      then Status.duplicate_name
      else validate_tasks (previous ++ [t]) rest
  end.

Definition Validate s : Status * Scheduler :=
  if has_logging logging && negb (uses_platform logging) then (Status.invalid_argument, s)
  else if registration_error_ s then (Status.invalid_argument, s)
  else
    let '(st, modules) := validate_modules [] (modules_ s) in
    let s := s <| modules_ := modules |> in
    if negb (st =s? Status.ok) then (st, s)
    else
      let s := s <| tasks_ := map (fun t => t <| module_name := owner_name modules t |>) (tasks_ s) |> in
      let s := upd_stats (fun st => st <| task_statistics :=
                 zip_with (fun x t => x <| st_module := module_name t |>) (task_statistics st) (tasks_ s) |>) s in
      (validate_tasks [] (tasks_ s), s).

(** ** Initialization *)

Fixpoint init_modules (stage : InitStage) (modules : list Registration) s : Status * Scheduler :=
  match modules with
  | [] => (Status.ok, s)
  | m :: modules =>
      let '(st, s) := in_context (mkContext (r_name m) (Some name_init) kind_initialization true) yield
                        (init_body (r_object m) stage (app s)) s in
      if negb (st =s? Status.ok)
      then (st, s <| initialization_failure_ := mkInitFailure st (r_name m) stage |>)
      else init_modules stage modules s
  end.

Definition default_schedule (t : Task) : Task :=
  if negb (default_period t =? 0) && negb (explicitly_scheduled t)
  then t <| active := true |> <| mode := repeat_ |> <| interval := default_period t |> <| due := default_period t |>
  else t.

Definition deactivate (t : Task) : Task := t <| active := false |>.

Definition init s : Status * Scheduler :=
  if in_state s Lifecycle.failed then (failure_ s, s)
  else if negb (in_state s Lifecycle.fresh) then (Status.already_initialized, s)
  else
    let s := s <| lifecycle_ := lifecycle_tick Lifecycle.request_initialize (lifecycle_ s) |> in
    let '(st, s) := Validate s in
    let '(st, s) :=
      if st =s? Status.ok then
        let s := s <| tasks_ := map default_schedule (tasks_ s) |> in
        let '(st, s) := init_modules stage1 (modules_ s) s in
        if st =s? Status.ok then init_modules stage2 (modules_ s) s else (st, s)
      else (st, s) in
    if st =s? Status.ok
    then (st, s <| lifecycle_ := lifecycle_tick Lifecycle.request_ready (lifecycle_ s) |>)
    else
      let s := s <| lifecycle_ := lifecycle_tick Lifecycle.request_fail (lifecycle_ s) |> <| failure_ := st |>
                 <| initialization_failure_ :=
                      mkInitFailure st (if_module (initialization_failure_ s)) (if_stage (initialization_failure_ s)) |>
                 <| tasks_ := map deactivate (tasks_ s) |> <| events_ := [] |> in
      (st, if has_logging logging
           then s <| logging_ := log_flush logging (log_failure logging (logging_ s)) |> else s).

(** ** The dispatch loop *)

Fixpoint select_event (t_now : Time) (i : nat) (events : list EventRecord) (earliest : Time)
    (selected : option nat) : option nat :=
  match events with
  | [] => selected
  | e :: events =>
      if (e_due e <=? t_now) && (e_due e <? earliest)
      then select_event t_now (S i) events (e_due e) (Some i)
      else select_event t_now (S i) events earliest selected
  end.

(** [events_[i] = events_[--event_count_]]. *)
Definition remove_event (i : nat) (events : list EventRecord) : list EventRecord :=
  match last events with
  | None => events
  | Some e => take (length events - 1) (<[i := e]> events)
  end.

Fixpoint broadcast (value : E) (sender : option nat) (modules : list Registration) s : Scheduler :=
  match modules with
  | [] => s
  | m :: modules =>
      let s := if bool_decide (Some (r_object m) = sender) then s
               else snd (in_context (mkContext (r_name m) (Some name_on_event) kind_event true) yield
                           (event_body (r_object m) value (app s)) s) in
      broadcast value sender modules s
  end.

Fixpoint ask_sleep (modules : list Registration) (sleep : bool) s : bool * Scheduler :=
  match modules with
  | [] => (sleep, s)
  | m :: modules =>
      let '(st, s) := in_context (mkContext (r_name m) (Some name_can_sleep) kind_idle true) yield
                        (sleep_body (r_object m) (app s)) s in
      ask_sleep modules (if st =s? Status.ok then sleep else false) s
  end.

Fixpoint earliest_task (deadline : Time) (tasks : list Task) : Time :=
  match tasks with
  | [] => deadline
  | t :: tasks => earliest_task (if active t && (due t <? deadline) then due t else deadline) tasks
  end.

(** What one iteration of the loop did; [Idle] carries the arguments of
    [platform_.idle]. *)
Inductive Outcome :=
  | Stop
  | Dispatched
  | Idle (deadline : Time) (sleep : bool) (observed : nat).

(** The choice made under the guard: an event, a task or nothing. *)
Inductive Choice := ChooseEvent (i : nat) | ChooseTask (i : nat) | ChooseNone.

Definition choose (t_now : Time) s : Choice :=
  let '(earliest, task) := select_task active t_now 0 (tasks_ s) kForever None in
  match select_event t_now 0 (events_ s) earliest None, task with
  | Some i, _ => ChooseEvent i
  | None, Some i => ChooseTask i
  | None, None => ChooseNone
  end.

Definition idle (observed : nat) s : Outcome * Scheduler :=
  let '(sleep, s) := ask_sleep (modules_ s) platform_can_sleep s in
  if stop_requested_ s then (Dispatched, s)
  else if has_logging logging && negb (log_empty logging (logging_ s)) then (Dispatched, s)
  else
    let deadline := earliest_task kForever (tasks_ s) in
    let s := s <| timers_ := <[TimerCapacity := mkTimer (negb (deadline =? kForever)) deadline None]> (timers_ s) |> in
    let deadline := earliest_timer deadline (timers_ s) in
    (Idle deadline sleep observed, Rearm s).

Definition iterate s : Outcome * Scheduler :=
  let observed := sequence_ s in
  if stop_requested_ s then (Stop, s)
  else
    let '(t, s) := now s in
    match choose t s with
    | ChooseEvent i =>
        match events_ s !! i with
        | None => (Dispatched, s)
        | Some e =>
            let s := s <| events_ := remove_event i (events_ s) |> in
            (Dispatched, broadcast (e_value e) (e_sender e) (modules_ s) s)
        end
    | ChooseTask i =>
        let '(scheduled, gen, s) := TakeTask i s in
        (Dispatched, RunTask full_depth i scheduled gen s)
    | ChooseNone =>
        let '(dispatched, s) :=
          if has_logging logging
          then let '(d, l) := log_dispatch logging (logging_ s) in (d, s <| logging_ := l |>)
          else (false, s) in
        if (dispatched : bool) then (Dispatched, s) else idle observed s
    end.

Definition start_task (t_now : Time) (t : Task) : Task :=
  if active t then t <| due := After t_now (interval t) |> <| first_due := After t_now (interval t) |> else t.

(** [run] up to its loop: [inl] is an early return. *)
Definition run_start s : (Status + unit) * Scheduler :=
  if used_ s then (inl Status.already_run, s)
  else
    let s := s <| used_ := true |> in
    if in_state s Lifecycle.failed then (inl (failure_ s), s)
    else if negb (in_state s Lifecycle.fresh) && negb (in_state s Lifecycle.ready) then (inl Status.busy, s)
    else
      let '(st, s) := if in_state s Lifecycle.fresh then init s else (Status.ok, s) in
      if negb (st =s? Status.ok) then (inl st, s)
      else
        let s := s <| lifecycle_ := lifecycle_tick Lifecycle.request_run (lifecycle_ s) |> in
        let '(t, s) := now s in
        (inr tt, s <| tasks_ := map (start_task t) (tasks_ s) |>).

(** [run] after its loop. *)
Definition run_stop s : Status * Scheduler :=
  let s := s <| lifecycle_ := lifecycle_tick Lifecycle.request_stop (lifecycle_ s) |>
             <| timers_ := map (fun t => t <| timer_active := false |>) (timers_ s) |>
             <| armed_ := None |>
             <| tasks_ := map deactivate (tasks_ s) |>
             <| events_ := [] |> in
  let s := if has_logging logging then s <| logging_ := log_flush logging (logging_ s) |> else s in
  (Status.ok, s <| lifecycle_ := lifecycle_tick Lifecycle.request_stopped (lifecycle_ s) |>).

(** [run] for at most [fuel] iterations; [world] is what happens between them:
    the platform idles and interrupts run. *)
Fixpoint run_loop (world : Outcome -> Scheduler -> Scheduler) (fuel : nat) s : option (Status * Scheduler) :=
  match fuel with
  | O => None
  | S fuel =>
      match iterate s with
      | (Stop, s) => Some (run_stop s)
      | (o, s) => run_loop world fuel (world o s)
      end
  end.
Definition run (world : Outcome -> Scheduler -> Scheduler) (fuel : nat) s : option (Status * Scheduler) :=
  match run_start s with
  | (inl st, s) => Some (st, s)
  | (inr _, s) => run_loop world fuel s
  end.

(** ** The timer interrupt *)

Fixpoint select_timer (t_now : Time) (i : nat) (timers : list Timer) (earliest : Time)
    (selected : option nat) : option nat :=
  match timers with
  | [] => selected
  | t :: timers =>
      if timer_active t && (timer_due t <=? t_now) && (timer_due t <? earliest)
      then select_timer t_now (S i) timers (timer_due t) (Some i)
      else select_timer t_now (S i) timers earliest selected
  end.

(** Callbacks run as interrupts. *)
Definition in_isr (p : Prog E A) s : Scheduler :=
  let before := interrupt_ s in
  let '(_, s) := exec yield p (s <| interrupt_ := true |>) in
  s <| interrupt_ := before |>.

(** [Fire] for at most [fuel] callbacks. *)
Fixpoint Fire (fuel : nat) s : option Scheduler :=
  if negb (in_state s Lifecycle.running) then Some s
  else
    let '(t, s) := now s in
    match select_timer t 0 (timers_ s) kForever None with
    | None => Some (Rearm s)
    | Some i =>
        match fuel with
        | O => None
        | S fuel =>
            let cb := callback (timers_ s !!! i) in
            let s := s <| timers_ := alter (fun t => t <| timer_active := false |>) i (timers_ s) |> in
            let s := match cb with
                     | Some c => in_isr (timer_body c (app s)) s
                     | None => s
                     end in
            Fire fuel (notify s)
        end
    end.

(** [Invoke]: a callback with the context of a command. *)
Definition Invoke (c : Context) (p : Prog E A) s : Status * Scheduler :=
  if interrupt_ s then (Status.invalid_argument, s)
  else if negb (in_state s Lifecycle.running) then (Status.not_running, s)
  else in_context (mkContext (c_module c) (c_task c) kind_command true) yield p s.
End scheduler.
