(* ===== verification/SchedulerInv.v ===== *)
(** * What every callback of the scheduler leaves unchanged

    [kept] relates the states before and after application code ran: the
    lifecycle, the execution context, the stack of frames and the static part
    of the registration are restored, whatever the callback did.  [wf] is the
    scheduler's invariant; it holds in every state that [reachable] collects,
    the states at the borders of callbacks and interrupts. *)

From S2P Require Import Prelude Foundation StateMachine Match Scheduler.

(** Reads of fields of updated records. *)
Ltac sfields := cbn [modules_ tasks_ events_ timers_ Scheduler.statistics_ registration_error_ used_
  stop_requested_ lifecycle_ failure_ initialization_failure_ frame_ task_depth_ logging_
  clock_count context_ interrupt_ armed_ sequence_ app field_update
  task_statistics event_overflows timer_overflows invalid_yields yield_depth_errors fst snd] in *.

Section invariant.
Context `{Application E A L}.
Implicit Types s : @Scheduler E A L.

(** The part of a task that is fixed once it is registered, and its [executing]
    flag, which only the dispatcher writes. *)
Definition task_static (t : Task) : nat * nat * option Name * option Name * Time * bool :=
  (t_module t, t_index t, module_name t, t_name t, default_period t, executing t).

Record kept s s' : Prop := {
  kept_modules : modules_ s' = modules_ s;
  kept_static : map task_static (tasks_ s') = map task_static (tasks_ s);
  kept_error : registration_error_ s' = registration_error_ s;
  kept_used : used_ s' = used_ s;
  kept_lifecycle : lifecycle_ s' = lifecycle_ s;
  kept_failure : failure_ s' = failure_ s;
  kept_initialization : initialization_failure_ s' = initialization_failure_ s;
  kept_frames : length (frame_ s') = length (frame_ s);
  kept_depth : task_depth_ s' = task_depth_ s;
  kept_logging : logging_ s' = logging_ s;
  kept_context : context_ s' = context_ s;
  kept_interrupt : interrupt_ s' = interrupt_ s;
  kept_clock : (clock_count s <= clock_count s')%nat
}.

#[export] Instance kept_preorder : PreOrder kept.
Proof.
  split.
  - intros s. by split.
  - intros s1 s2 s3 [] []. split; try congruence; lia.
Qed.

(** The timers: [TimerCapacity] slots with distinct callbacks, and the
    scheduler's own wake-up slot. *)
Record timers_ok (ts : list Timer) : Prop := {
  timers_length : length ts = S TimerCapacity;
  timers_some i t : ts !! i = Some t -> (i < TimerCapacity)%nat -> timer_active t = true -> is_Some (callback t);
  timers_inj i j t t' : ts !! i = Some t -> ts !! j = Some t' ->
    (i < TimerCapacity)%nat -> (j < TimerCapacity)%nat ->
    timer_active t = true -> timer_active t' = true -> callback t = callback t' -> i = j
}.

Record wf s : Prop := {
  wf_events : (length (events_ s) <= EventCapacity)%nat;
  wf_timers : timers_ok (timers_ s);
  wf_statistics : length (task_statistics (Scheduler.statistics_ s)) = length (tasks_ s);
  wf_depth : task_depth_ s = length (frame_ s);
  wf_ticking : ticking_ (lifecycle_ s) = false
}.

(** ** Timers *)

Lemma timer_slot_spec c ts : forall i slot,
  match timer_slot c i ts slot with
  | Some j =>
      (exists t, ts !! (j - i)%nat = Some t /\ (i <= j)%nat /\ timer_active t = true /\ callback t = Some c) \/
      (forall k t, ts !! k = Some t -> timer_active t = true -> callback t <> Some c) /\
      (slot = Some j \/ exists t, ts !! (j - i)%nat = Some t /\ (i <= j)%nat /\ timer_active t = false)
  | None => slot = None /\ forall k t, ts !! k = Some t -> timer_active t = true /\ callback t <> Some c
  end.
Proof.
  induction ts as [|t ts IH]; intros i slot; cbn [timer_slot].
  - destruct slot; [right|]; split; (done || by left).
  - destruct (timer_active t && _) eqn:Ht.
    + breflect. left. exists t. rewrite Nat.sub_diag. split_and!; [done|lia|done|].
      by apply bool_decide_eq_true in H1.
    + specialize (IH (S i) (if negb (timer_active t) then Some i else slot)).
      assert (Hhd : timer_active t = true -> callback t <> Some c).
      { intros Ha Hc. rewrite Ha, Hc, bool_decide_eq_true_2 in Ht by done. done. }
      assert (Hall : forall P : Timer -> Prop, P t -> (forall k t, ts !! k = Some t -> P t) ->
                forall k t', (t :: ts) !! k = Some t' -> P t').
      { intros P ?? [|k] t' Hk; [by injection Hk as <-|eauto]. }
      destruct (timer_slot c (S i) ts _) as [j|].
      * destruct IH as [(u & Hu & ? & ? & ?)|[Hno IH]].
        { left. exists u. replace (j - i)%nat with (S (j - S i)) by lia. split_and!; (done || lia). }
        right. split; [apply (Hall (fun t => timer_active t = true -> callback t <> Some c)); eauto|].
        destruct IH as [IH|(u & Hu & ? & ?)].
        { destruct (timer_active t) eqn:?; simpl in IH; [by left|]. injection IH as <-.
          right. exists t. rewrite Nat.sub_diag. split_and!; (done || lia). }
        right. exists u. replace (j - i)%nat with (S (j - S i)) by lia. split_and!; (done || lia).
      * destruct IH as [IH Hno]. destruct (timer_active t) eqn:Ha; simpl in IH; [|done].
        split; [done|]. apply (Hall (fun t => timer_active t = true /\ callback t <> Some c)); eauto.
Qed.

Lemma find_timer_spec cb ts : forall i,
  match find_timer cb i ts with
  | Some j => exists t, ts !! (j - i)%nat = Some t /\ (i <= j)%nat /\ timer_active t = true /\ callback t = cb
  | None => forall k t, ts !! k = Some t -> timer_active t = true -> callback t <> cb
  end.
Proof.
  induction ts as [|t ts IH]; intros i; cbn [find_timer]; [done|].
  destruct (timer_active t && _) eqn:Ht.
  - breflect. exists t. rewrite Nat.sub_diag. split_and!; [done|lia|done|].
    by apply bool_decide_eq_true in H1.
  - specialize (IH (S i)). destruct (find_timer cb (S i) ts) as [j|].
    + destruct IH as (u & Hu & ? & ? & ?). exists u. replace (j - i)%nat with (S (j - S i)) by lia.
      split_and!; (done || lia).
    + intros [|k] t' Hk; [|eauto]. injection Hk as <-. intros Ha Hc.
      rewrite Ha, Hc, bool_decide_eq_true_2 in Ht by done. done.
Qed.

(** Deactivating slots keeps the timers well formed. *)
Lemma timers_ok_weaken ts ts' :
  timers_ok ts -> length ts' = length ts ->
  (forall i t', ts' !! i = Some t' -> (i < TimerCapacity)%nat -> timer_active t' = true ->
     exists t, ts !! i = Some t /\ timer_active t = true /\ callback t' = callback t) ->
  timers_ok ts'.
Proof.
  intros [Hl Hs Hi] Hl' Hw. split; [congruence| |].
  - intros i t' Hi' Hlt Ha. destruct (Hw i t' Hi' Hlt Ha) as (t & ? & ? & ->). eauto.
  - intros i j t t' Ht Ht' ? ? Ha Ha' Hc.
    destruct (Hw i t) as (u & ? & ? & Hu); [done..|].
    destruct (Hw j t') as (u' & ? & ? & Hu'); [done..|].
    eapply Hi; eauto. congruence.
Qed.

Lemma timers_ok_deactivate i ts :
  timers_ok ts -> timers_ok (alter (fun t => t <| timer_active := false |>) i ts).
Proof.
  intros Hts. eapply timers_ok_weaken; [done|by rewrite length_alter|].
  intros j t' Hj Hlt Ha. destruct (decide (i = j)) as [->|].
  - rewrite list_lookup_alter_eq in Hj. destruct (ts !! j); [|done]. simpl in Hj. by simplify_eq.
  - rewrite list_lookup_alter_ne in Hj by done. eauto.
Qed.

Lemma timers_ok_insert c i d ts :
  timers_ok ts -> timer_slot c 0 (take TimerCapacity ts) None = Some i ->
  timers_ok (<[i := mkTimer true d (Some c)]> ts).
Proof.
  intros Hts Hslot.
  pose proof (timer_slot_spec c (take TimerCapacity ts) 0 None) as Hspec. rewrite Hslot, Nat.sub_0_r in Hspec.
  assert (Hother : forall j t, ts !! j = Some t -> (j < TimerCapacity)%nat -> timer_active t = true ->
            callback t = Some c -> i = j).
  { intros j t Hj Hlt Ha Hc. destruct Hspec as [(u & Hu & _ & Hau & Hcu)|[Hno _]].
    - rewrite lookup_take in Hu. case_decide; [|done].
      eapply (timers_inj _ Hts); eauto. congruence.
    - destruct (Hno j t); [by rewrite lookup_take_lt|done..]. }
  split; [by rewrite length_insert, (timers_length _ Hts)| |].
  - intros j t Hj Hlt Ha. destruct (decide (i = j)) as [->|].
    + apply list_lookup_insert_Some in Hj as [(_ & <- & _)|(? & _)]; [by eexists|done].
    + rewrite list_lookup_insert_ne in Hj by done. by eapply (timers_some _ Hts).
  - intros j k t t' Hj Hk Hlj Hlk Ha Ha' Hc.
    apply list_lookup_insert_Some in Hj as [(<- & <- & _)|(Hij & Hj)];
      apply list_lookup_insert_Some in Hk as [(<- & <- & _)|(Hik & Hk)]; simpl in *; try done.
    + exfalso. eauto.
    + exfalso. eauto.
    + eapply (timers_inj _ Hts); eauto.
Qed.

Lemma alter_compose {B} (f g : B -> B) i (l : list B) : alter f i (alter g i l) = alter (f ∘ g) i l.
Proof. revert i. induction l as [|x l IH]; intros [|i]; simpl; try done. f_equal. apply IH. Qed.

(** ** Requests *)

(** A callback's effect: it keeps the frame and the invariant. *)
Definition sound s s' : Prop := kept s s' /\ (wf s -> wf s').

#[export] Instance sound_preorder : PreOrder sound.
Proof.
  split.
  - intros s. by split.
  - intros s1 s2 s3 [] []. split; [by etransitivity|auto].
Qed.

Lemma static_alter f i ts :
  (forall t, task_static (f t) = task_static t) -> map task_static (alter f i ts) = map task_static ts.
Proof.
  intros Hf. revert i. induction ts as [|t ts IH]; intros [|i]; simpl; [done..| |].
  - by rewrite Hf.
  - f_equal. apply IH.
Qed.

(** Every state change below only touches fields that [kept] ignores. *)
Lemma sound_intro s s' :
  modules_ s' = modules_ s -> map task_static (tasks_ s') = map task_static (tasks_ s) ->
  registration_error_ s' = registration_error_ s -> used_ s' = used_ s -> lifecycle_ s' = lifecycle_ s ->
  failure_ s' = failure_ s -> initialization_failure_ s' = initialization_failure_ s ->
  frame_ s' = frame_ s -> task_depth_ s' = task_depth_ s -> logging_ s' = logging_ s ->
  context_ s' = context_ s -> interrupt_ s' = interrupt_ s -> (clock_count s <= clock_count s')%nat ->
  length (task_statistics (Scheduler.statistics_ s')) = length (task_statistics (Scheduler.statistics_ s)) \/
  length (task_statistics (Scheduler.statistics_ s')) = length (tasks_ s') ->
  (wf s -> (length (events_ s') <= EventCapacity)%nat) -> (wf s -> timers_ok (timers_ s')) ->
  sound s s'.
Proof.
  intros ? Hst ?? Hlc ?? Hf ????? Hlen He Ht. split; [split; congruence || lia|].
  intros Hwf. apply (f_equal length) in Hst. rewrite !length_map in Hst.
  split; [auto|auto| | |].
  - destruct Hlen; [|done]. rewrite Hst. by rewrite <- (wf_statistics _ Hwf).
  - rewrite Hf. destruct Hwf. congruence.
  - rewrite Hlc. by destruct Hwf.
Qed.

Ltac sound_tac :=
  apply sound_intro; unfold notify, upd_task, upd_stats in *; sfields; auto;
  try (by intros []).

Lemma sound_app s a : sound s (s <| app := a |>).
Proof. sound_tac. Qed.
Lemma sound_notify s : sound s (notify s).
Proof. sound_tac. Qed.
Lemma sound_now s : sound s (s <| clock_count := S (clock_count s) |>).
Proof. sound_tac. Qed.
Lemma sound_armed s o : sound s (s <| armed_ := o |>).
Proof. sound_tac. Qed.

Lemma Rearm_sound s : sound s (Rearm s).
Proof.
  unfold Rearm, now. destruct (_ =? _); [apply sound_armed|].
  etransitivity; [apply sound_now|apply sound_armed].
Qed.

Lemma ScheduleSlot_sound module index delay m s : sound s (ScheduleSlot module index delay m s).2.
Proof.
  unfold ScheduleSlot, now. repeat split_match; simplify_eq; cbn [snd]; try reflexivity.
  all: sound_tac; by apply static_alter.
Qed.

Lemma CancelSlot_sound module index s : sound s (CancelSlot module index s).2.
Proof.
  unfold CancelSlot. repeat split_match; cbn [snd]; try reflexivity.
  sound_tac. by apply static_alter.
Qed.

Lemma post_sound value sender s : sound s (post value sender s).2.
Proof.
  unfold post, now. destruct (negb _); [reflexivity|]. destruct (valueless value); [reflexivity|].
  destruct (match sender with Some m => negb (Contains m s) | None => false end); [reflexivity|].
  destruct (Nat.eqb_spec (length (events_ s)) EventCapacity); cbn [snd]; sound_tac.
  intros [He _ _ _ _]. rewrite length_app. simpl. lia.
Qed.

Lemma stop_sound s : sound s (stop s).2.
Proof. unfold stop. repeat case_match; cbn [snd]; (reflexivity || sound_tac). Qed.

Lemma TimerSlot_sound delay cb s : sound s (TimerSlot delay cb s).2.
Proof.
  unfold TimerSlot, now. repeat split_match; cbn [snd]; try (reflexivity || by sound_tac).
  etransitivity; [|apply sound_notify]. etransitivity; [|apply Rearm_sound].
  sound_tac. intros [_ Hts _ _ _]. by apply timers_ok_insert.
Qed.

Lemma cancel_timer_sound cb s : sound s (cancel_timer cb s).2.
Proof.
  unfold cancel_timer. repeat split_match; cbn [snd]; try reflexivity.
  etransitivity; [|apply sound_notify]. etransitivity; [|apply Rearm_sound].
  sound_tac. intros [_ Hts _ _ _]. by apply timers_ok_deactivate.
Qed.

Lemma reset_statistics_sound s : sound s (reset_statistics s).
Proof. unfold reset_statistics. sound_tac. right. by rewrite length_map. Qed.

Lemma api_sound act s : sound s (api act s).2.
Proof.
  destruct act; cbn [api snd]; auto using ScheduleSlot_sound, CancelSlot_sound, post_sound,
    TimerSlot_sound, cancel_timer_sound, stop_sound, reset_statistics_sound.
  reflexivity.
Qed.

(** ** Callbacks and nested dispatch *)

Lemma exec_sound (y : Scheduler -> Status * Scheduler) p : forall s,
  (forall s, sound s (y s).2) -> sound s (exec y p s).2.
Proof.
  induction p as [st a|a act k IH]; intros s Hy; cbn [exec].
  - apply sound_app.
  - etransitivity; [apply (sound_app s a)|]. set (s1 := s <| app := a |>).
    assert (Hs : sound s1 (match act with AYield => y s1 | _ => api act s1 end).2).
    { destruct act; try apply api_sound. apply Hy. }
    destruct (match act with AYield => y s1 | _ => api act s1 end) as [st s2].
    etransitivity; [exact Hs|]. by apply IH.
Qed.

Lemma in_context_sound c y p s : (forall s, sound s (y s).2) -> sound s (in_context c y p s).2.
Proof.
  intros Hy. unfold in_context.
  pose proof (exec_sound y p (s <| context_ := c |>) Hy) as [Hk Hw].
  destruct (exec y p _) as [st s']. destruct Hk. sfields. split.
  - split; sfields; done.
  - intros Hwf. destruct Hw as [?????]; [by destruct Hwf|]. by split.
Qed.

(** The selection loop finds an earliest due task among those that satisfy [ok]. *)
Lemma select_task_spec ok t_now tasks : forall i earliest selected,
  let '(e, sel) := select_task ok t_now i tasks earliest selected in
  e <= earliest /\
  (sel = selected /\ e = earliest \/
   exists j t, sel = Some (i + j)%nat /\ tasks !! j = Some t /\ ok t = true /\ due t <= t_now /\
     e = due t /\ e < earliest) /\
  (forall j t, tasks !! j = Some t -> ok t = true -> due t <= t_now -> e <= due t).
Proof.
  induction tasks as [|t tasks IH]; intros i earliest selected; cbn [select_task].
  { split_and!; [lia|by left|done]. }
  destruct (ok t && (due t <=? t_now) && (due t <? earliest)) eqn:Ht.
  - breflect. apply Z.leb_le in H2. apply Z.ltb_lt in H1. specialize (IH (S i) (due t) (Some i)).
    destruct (select_task _ _ _ _ _ _) as [e sel]. destruct IH as (Hle & Hsel & Hmin).
    split_and!; [lia| |].
    + right. destruct Hsel as [[-> ->]|(j & u & -> & ? & ? & ? & ? & ?)].
      * exists 0%nat, t. rewrite Nat.add_0_r. done.
      * exists (S j), u. split; [f_equal; lia|]. split_and!; (done || lia).
    + intros [|j] u Hj Hok Hdue; [injection Hj as <-; lia|eauto].
  - specialize (IH (S i) earliest selected).
    destruct (select_task _ _ _ _ _ _) as [e sel]. destruct IH as (Hle & Hsel & Hmin).
    split_and!; [lia| |].
    + destruct Hsel as [?|(j & u & -> & ? & ? & ? & ? & ?)]; [by left|right].
      exists (S j), u. split; [f_equal; lia|]. done.
    + intros [|j] u Hj Hok Hdue; [injection Hj as <-|eauto].
      rewrite Hok in Ht. simpl in Ht. apply Z.leb_le in Hdue. rewrite Hdue in Ht. simpl in Ht.
      apply Z.ltb_ge in Ht. lia.
Qed.

(** The dispatcher's flag, cleared. *)
Definition cleared i s := upd_task i (fun t => t <| executing := false |>) s.

(** Taking an idle task and clearing the flag changes nothing that [kept] sees. *)
Lemma TakeTask_sound i t s :
  tasks_ s !! i = Some t -> executing t = false -> sound s (cleared i (TakeTask i s).2).
Proof.
  intros Hi Ht. unfold cleared, TakeTask. cbn [snd]. unfold upd_task. sfields.
  rewrite alter_compose.
  assert (Hst : map task_static (alter ((fun t => t <| executing := false |>) ∘ (fun t =>
     let t := t <| executing := true |> in
     match mode t with
     | repeat_ => t <| due := After (due t) (interval t) |>
     | once => t <| active := false |>
     end)) i (tasks_ s)) = map task_static (tasks_ s)).
  { revert i Hi. induction (tasks_ s) as [|u us IH]; intros [|i] Hi; [done..| |].
    - injection Hi as ->. simpl. f_equal. unfold task_static. simpl.
      destruct (mode t); simpl; by rewrite Ht.
    - simpl. f_equal. by apply IH. }
  sound_tac.
Qed.

Lemma wf_upd_task i f s : wf (upd_task i f s) <-> wf s.
Proof.
  unfold upd_task. split; intros [H1 H2 H3 H4 H5]; sfields; split; sfields; try done;
    by rewrite length_alter in *.
Qed.

Lemma run_body_sound y i scheduled gen s :
  (forall s, sound s (y s).2) -> sound (cleared i s) (run_body y i scheduled gen s).
Proof.
  intros Hy. unfold run_body, now.
  set (s1 := _ <| clock_count := _ |>).
  pose proof (in_context_sound (mkContext (module_name (tasks_ s !!! i)) (t_name (tasks_ s !!! i)) kind_task true)
    y (task_body i (app s1)) s1 Hy) as [[] Hwf].
  destruct (in_context _ y _ _) as [st s2]. unfold s1 in *. clear s1. sfields.
  unfold cleared, upd_task, upd_stats. sfields.
  assert (Hfr : length (match tail (frame_ s2) with [] => [] | p :: rest => u64 (p + u64 (clock (clock_count s2) - clock (clock_count s))) :: rest end)
            = length (frame_ s)).
  { destruct (frame_ s2) as [|? [|??]]; simpl in *; lia. }
  split.
  - split; sfields; try done; [|lia|lia].
    revert kept_static0. generalize (tasks_ s), (tasks_ s2). clear.
    intros ts us. revert i us. induction ts as [|t ts IH]; intros [|i] [|u us]; simpl; try done.
    + intros E. injection E as ?????? E2. rewrite E2. f_equal.
      destruct (generation u =? gen); unfold task_static; simpl; congruence.
    + intros E. injection E as ?????? E2. f_equal; [|by apply IH].
      unfold task_static. congruence.
  - intros Hw. apply (wf_upd_task i) in Hw. destruct Hw as [Hw1 Hw2 Hw3 Hw4 Hw5].
    destruct Hwf as [???Hd ?]; [split; sfields; [done..|by rewrite Hw4|done]|].
    split; sfields; [done|done|by rewrite !length_alter| |done].
    rewrite Hfr, kept_depth0, <- Hw4. lia.
Qed.

Lemma yield_with_sound run s :
  (forall i scheduled gen s, sound (cleared i s) (run i scheduled gen s)) -> sound s (yield_with run s).2.
Proof.
  intros Hrun. unfold yield_with, now.
  destruct (_ || _ : bool); [cbn [snd]; sound_tac|].
  destruct (_ || _ : bool); [reflexivity|].
  pose proof (select_task_spec (fun k => active k && negb (executing k)) (clock (clock_count s))
    (tasks_ s) 0 kForever None) as Hsel. sfields.
  destruct (select_task _ _ _ _ _ _) as [e [i|]]; [|apply sound_now].
  destruct Hsel as (_ & [[? _]|(j & t & Hj & Ht & Hok & _)] & _); [done|].
  simpl in Hj. injection Hj as ->. apply andb_true_iff in Hok as [_ Hidle]. apply negb_true_iff in Hidle.
  etransitivity; [apply sound_now|]. destruct (_ <=? _)%nat; [sound_tac|].
  set (s1 := s <| clock_count := _ |>).
  pose proof (TakeTask_sound j t s1 Ht Hidle) as Htake.
  destruct (TakeTask j s1) as [[scheduled gen] s2]. cbn [snd] in *.
  etransitivity; [exact Htake|apply Hrun].
Qed.

Lemma RunTask_sound depth : forall i scheduled gen s,
  sound (cleared i s) (RunTask depth i scheduled gen s).
Proof.
  induction depth as [|depth IH]; intros i scheduled gen s; cbn [RunTask];
    apply run_body_sound; intros s'; apply yield_with_sound; [|done].
  intros. reflexivity.
Qed.

Lemma yield_sound s : sound s (yield s).2.
Proof. apply yield_with_sound, RunTask_sound. Qed.

(** ** The depth bound *)

(** Programs that only see states at one depth cannot tell apart two dispatchers
    that agree at this depth. *)
Lemma exec_ext (y y' : Scheduler -> Status * Scheduler) k p : forall s,
  (forall s, sound s (y s).2) -> (forall s, task_depth_ s = k -> y s = y' s) ->
  task_depth_ s = k -> exec y p s = exec y' p s.
Proof.
  induction p as [st a|a act c IH]; intros s Hy Hyy Hs; cbn [exec]; [done|].
  set (s1 := s <| app := a |>).
  assert (Heq : match act with AYield => y s1 | _ => api act s1 end =
              match act with AYield => y' s1 | _ => api act s1 end).
  { destruct act; try done. by apply Hyy. }
  assert (Hd : task_depth_ (match act with AYield => y s1 | _ => api act s1 end).2 = k).
  { rewrite <- Hs. change (task_depth_ s) with (task_depth_ s1).
    destruct act; try apply (kept_depth _ _ (proj1 (api_sound _ s1))). apply Hy. }
  rewrite <- Heq. destruct (match act with AYield => y s1 | _ => api act s1 end) as [st s2]. by apply IH.
Qed.

Lemma run_body_ext y y' i scheduled gen s :
  (forall s, sound s (y s).2) -> (forall s', task_depth_ s' = S (task_depth_ s) -> y s' = y' s') ->
  run_body y i scheduled gen s = run_body y' i scheduled gen s.
Proof.
  intros Hy Hyy. unfold run_body, now, in_context. sfields.
  rewrite (exec_ext y y' (S (task_depth_ s))) by done. done.
Qed.

Lemma yield_with_ext run run' s :
  ((task_depth_ s < yield_limit_)%nat -> forall i scheduled gen s',
     task_depth_ s' = task_depth_ s -> run i scheduled gen s' = run' i scheduled gen s') ->
  yield_with run s = yield_with run' s.
Proof.
  intros Hrun. unfold yield_with, now, TakeTask. repeat (case_match; [done|]).
  destruct (select_task _ _ _ _ _ _) as [e [i|]]; [|done]. sfields.
  destruct (Nat.leb_spec yield_limit_ (task_depth_ s)); [done|]. by rewrite Hrun.
Qed.

Lemma RunTask_enough d : forall d' i scheduled gen s,
  (yield_limit_ <= d + S (task_depth_ s))%nat -> (yield_limit_ <= d' + S (task_depth_ s))%nat ->
  RunTask d i scheduled gen s = RunTask d' i scheduled gen s.
Proof.
  assert (Hs : forall d s, sound s (yield_with (match d with O => no_nesting | S d => RunTask d end) s).2).
  { intros d0 s. apply yield_with_sound. destruct d0; [intros; reflexivity|apply RunTask_sound]. }
  induction d as [|d IH]; intros [|d'] i scheduled gen s H1 H2; cbn [RunTask];
    apply run_body_ext; try apply (Hs 0%nat); try apply (Hs (S _)); intros s' Hs';
    apply yield_with_ext; intros Hlt i' sch' gen' s'' Hs''; try done; try lia.
  apply IH; lia.
Qed.

(** ** The operations of the scheduler's owner and of the platform *)

(** Between callbacks: the lifecycle stands still and the invariant holds. *)
Definition steady s s' : Prop := lifecycle_ s' = lifecycle_ s /\ (wf s -> wf s').

#[export] Instance steady_preorder : PreOrder steady.
Proof.
  split; [by intros s; split|]. intros s1 s2 s3 [] []. split; [congruence|auto].
Qed.

Lemma sound_steady s s' : sound s s' -> steady s s'.
Proof. intros [[] ?]. by split. Qed.

Lemma steady_intro s s' :
  lifecycle_ s' = lifecycle_ s -> frame_ s' = frame_ s -> task_depth_ s' = task_depth_ s ->
  (wf s -> length (task_statistics (Scheduler.statistics_ s')) = length (tasks_ s')) ->
  (wf s -> (length (events_ s') <= EventCapacity)%nat) -> (wf s -> timers_ok (timers_ s')) -> steady s s'.
Proof.
  intros Hl Hf Hd Hs He Ht. split; [done|]. intros Hwf.
  split; auto; [rewrite Hf, Hd|rewrite Hl]; by destruct Hwf.
Qed.

Ltac steady_tac :=
  apply steady_intro; unfold notify, upd_task, upd_stats in *; sfields; auto;
  try (by intros []); try (by intros []; rewrite ?length_map, ?length_alter).

Lemma steady_lifecycle r s :
  wf s -> wf (s <| lifecycle_ := lifecycle_tick r (lifecycle_ s) |>) /\
          cs (lifecycle_tick r (lifecycle_ s)) = (lifecycle_step r (state s) (lifecycle_ s)).1.
Proof.
  intros [? ? ? ? Ht]. unfold lifecycle_tick.
  rewrite (tick_step_only (lifecycle_step r)) by done. cbn [lifecycle_step snd fst machine with_machine Lifecycle_machine].
  split; [split; sfields; done|]. rewrite cs_post_machine. unfold state. cbn [machine Lifecycle_machine].
  destruct (cs (lifecycle_ s)), r; done.
Qed.

Lemma Validate_steady s : steady s (Validate s).2.
Proof.
  unfold Validate. destruct (has_logging logging && _); [reflexivity|].
  destruct (registration_error_ s); [reflexivity|].
  destruct (validate_modules [] (modules_ s)) as [st ms].
  destruct (negb (st =s? Status.ok)); cbn [snd]; [steady_tac|].
  apply steady_intro; unfold upd_stats; sfields; auto; try (by intros []).
  intros []. rewrite length_zip_with, length_map. lia.
Qed.

Lemma init_modules_steady stage ms : forall s, steady s (init_modules stage ms s).2.
Proof.
  induction ms as [|m ms IH]; intros s; cbn [init_modules]; [reflexivity|].
  set (c := mkContext _ _ _ _). set (p := init_body _ _ _).
  pose proof (sound_steady _ _ (in_context_sound c yield p s yield_sound)) as Hs.
  destruct (in_context c yield p s) as [st s1]. cbn [snd] in Hs. etransitivity; [exact Hs|].
  destruct (negb _); [cbn [snd]; steady_tac|apply IH].
Qed.

Lemma broadcast_sound value sender ms : forall s, sound s (broadcast value sender ms s).
Proof.
  induction ms as [|m ms IH]; intros s; cbn [broadcast]; [reflexivity|].
  etransitivity; [|apply IH]. case_match; [reflexivity|]. apply in_context_sound, yield_sound.
Qed.

Lemma ask_sleep_sound ms : forall b s, sound s (ask_sleep ms b s).2.
Proof.
  induction ms as [|m ms IH]; intros b s; cbn [ask_sleep]; [reflexivity|].
  set (c := mkContext _ _ _ _). set (p := sleep_body _ _).
  pose proof (in_context_sound c yield p s yield_sound) as Hs.
  destruct (in_context c yield p s) as [st s1]. etransitivity; [exact Hs|apply IH].
Qed.

Lemma timers_ok_wake t ts : timers_ok ts -> timers_ok (<[TimerCapacity := t]> ts).
Proof.
  intros Hts. eapply timers_ok_weaken; [done|by rewrite length_insert|].
  intros i t' Hi Hlt Ha. rewrite list_lookup_insert_ne in Hi by lia. eauto.
Qed.

Lemma idle_steady observed s : steady s (idle observed s).2.
Proof.
  unfold idle. pose proof (sound_steady _ _ (ask_sleep_sound (modules_ s) platform_can_sleep s)) as Hs.
  destruct (ask_sleep _ _ s) as [b s1]. cbn [snd] in Hs. etransitivity; [exact Hs|].
  repeat (case_match; [reflexivity|]). cbn [snd]. etransitivity; [|apply sound_steady, Rearm_sound].
  steady_tac. intros []. by apply timers_ok_wake.
Qed.

Lemma TakeTask_steady i s : steady s (TakeTask i s).2.
Proof. unfold TakeTask. cbn [snd]. steady_tac. Qed.

Lemma RunTask_steady d i scheduled gen s : steady s (RunTask d i scheduled gen s).
Proof.
  destruct (RunTask_sound d i scheduled gen s) as [[] Hwf]. split; [done|].
  intros Hw. apply Hwf. by apply wf_upd_task.
Qed.

Lemma remove_event_length i (l : list (@EventRecord E)) : (length (remove_event i l) <= length l)%nat.
Proof. unfold remove_event. case_match; [|done]. rewrite length_take, length_insert. lia. Qed.

Lemma iterate_steady s : steady s (iterate s).2.
Proof.
  unfold iterate, now. case_match; [reflexivity|].
  etransitivity; [apply sound_steady, sound_now|]. set (s1 := s <| clock_count := _ |>).
  destruct (choose _ s1) as [i|i|].
  - destruct (events_ s1 !! i) as [e|]; [|reflexivity]. cbn [snd].
    etransitivity; [|apply sound_steady, broadcast_sound]. steady_tac.
    intros []. pose proof (remove_event_length i (events_ s1)). sfields. lia.
  - pose proof (TakeTask_steady i s1) as Ht. destruct (TakeTask i s1) as [[sch gen] s2]. cbn [snd] in *.
    etransitivity; [exact Ht|apply RunTask_steady].
  - set (s2 := if has_logging logging then _ else _).
    assert (Hs2 : steady s1 s2.2).
    { unfold s2. destruct (has_logging _); [|reflexivity]. destruct (log_dispatch _ _). cbn [snd]. steady_tac. }
    destruct s2 as [b s2]. etransitivity; [exact Hs2|]. destruct b; [reflexivity|apply idle_steady].
Qed.

Lemma in_isr_sound p s : sound s (in_isr p s).
Proof.
  unfold in_isr. pose proof (exec_sound yield p (s <| interrupt_ := true |>) yield_sound) as [Hk Hw].
  destruct (exec yield p _) as [st s']. destruct Hk. sfields. split.
  - split; sfields; done.
  - intros Hwf. destruct Hw as [?????]; [by destruct Hwf|]. by split.
Qed.

Lemma Fire_sound fuel : forall s s', Fire fuel s = Some s' -> sound s s'.
Proof.
  induction fuel as [|fuel IH]; intros s s'; cbn [Fire]; unfold now;
    (destruct (negb _); [by intros [= ->]|]);
    (destruct (select_timer _ _ _ _ _) as [i|];
     [|intros [= <-]; etransitivity; [apply sound_now|apply Rearm_sound]]); [done|].
  intros Hf. etransitivity; [apply sound_now|]. set (s1 := s <| clock_count := _ |>) in *.
  etransitivity; [|by eapply IH]. etransitivity; [|apply sound_notify].
  set (s2 := s1 <| timers_ := _ |>).
  assert (Hs2 : sound s1 s2).
  { unfold s2. sound_tac. intros []. by apply timers_ok_deactivate. }
  destruct (callback _); [|exact Hs2]. etransitivity; [exact Hs2|apply in_isr_sound].
Qed.

Lemma Invoke_sound c p s : sound s (Invoke c p s).2.
Proof.
  unfold Invoke. repeat (case_match; [reflexivity|]). apply in_context_sound, yield_sound.
Qed.

(** ** Construction *)

Lemma register_tasks_wf m ds : forall index earlier s,
  lifecycle_ (register_tasks m index earlier ds s) = lifecycle_ s /\
  (wf s -> wf (register_tasks m index earlier ds s)).
Proof.
  induction ds as [|d ds IH]; intros index earlier s; cbn [register_tasks]; [done|].
  match goal with |- context [register_tasks m _ _ ds ?s'] =>
    destruct (IH (S index) (earlier ++ [d]) s') as [Hl Hw]; assert (Hs : steady s s') end.
  { steady_tac. intros []. rewrite !length_app. simpl. lia. }
  destruct Hs as [Hs1 Hs2]. split; [by rewrite Hl|auto].
Qed.

Lemma Register_steady m s : steady s (Register m s).
Proof.
  destruct m as [m|]; cbn [Register]; [|steady_tac].
  etransitivity; [|apply register_tasks_wf]. steady_tac.
Qed.

Lemma new_scheduler_wf ms l a : wf (new_scheduler ms l a) /\ state (new_scheduler ms l a) = Lifecycle.fresh.
Proof.
  unfold new_scheduler, state. match goal with |- context [foldl _ ?s0 _] => set (s := s0) end.
  assert (Hs : wf s).
  { split; try done; [cbn; lia|]. split; cbn.
    - by rewrite length_replicate.
    - intros i t Hi. apply lookup_replicate in Hi as [-> _]. done.
    - intros i j t t' Hi. apply lookup_replicate in Hi as [-> _]. done. }
  assert (Hf : steady s (foldl (fun s m => Register m s) s ms)).
  { clearbody s. revert s Hs. induction ms as [|m ms IH]; intros s Hs; simpl; [reflexivity|].
    pose proof (Register_steady m s) as Hr. etransitivity; [exact Hr|]. apply IH. by apply Hr. }
  destruct Hf as [Hl Hw]. split; [auto|]. by rewrite Hl.
Qed.

(** ** Dispatch of a task *)

(** C39: dispatch of a task always returns and leaves no trace in the dispatcher,
    whatever its body and the chain of tasks that yields does.  Nesting is
    bounded by [yield_limit_]: allowing any number of further levels changes
    nothing, because [yield] refuses to go deeper.  Afterwards the execution
    context, the depth, the stack of frames, the lifecycle, the registration and
    the [executing] flags of all other tasks are as before, and the task's own
    flag is cleared. *)
Theorem RunTask_bounded_and_balanced n i scheduled gen s :
  RunTask (full_depth + n) i scheduled gen s = RunTask full_depth i scheduled gen s /\
  kept (cleared i s) (RunTask full_depth i scheduled gen s).
Proof.
  split; [apply RunTask_enough; unfold full_depth; lia|]. apply (RunTask_sound full_depth i scheduled gen s).
Qed.
End invariant.
