(* ===== verification/SchedulerLife.v ===== *)
(** * Life of a scheduler: reachable states, lifecycle and initialization

    [step] is one operation of the scheduler as the outside sees it: calls of
    its owner, one round of the dispatch loop, requests from interrupts and
    other threads, the timer interrupt and the passage of time.  Application
    code runs inside these steps. *)

From S2P Require Import Prelude Foundation StateMachine Match Scheduler SchedulerInv.

Section life.
Context `{Application E A L}.
Implicit Types s : @Scheduler E A L.

Inductive step : @Scheduler E A L -> @Scheduler E A L -> Prop :=
  | step_init s : step s (init s).2
  | step_start s : step s (run_start s).2
  | step_iterate s : state s = Lifecycle.running -> step s (iterate s).2
  | step_stop s : state s = Lifecycle.running -> step s (run_stop s).2
  | step_call act s : step s (api act s).2
  | step_invoke c p s : step s (Invoke c p s).2
  | step_fire fuel s s' : Fire fuel s = Some s' -> step s s'
  | step_interrupt b s : step s (s <| interrupt_ := b |>)
  | step_time n s : step s (s <| clock_count := clock_count s + n |>%nat)
  | step_log l s : step s (s <| logging_ := l |>).

Inductive reachable : @Scheduler E A L -> Prop :=
  | reachable_new ms l a : reachable (new_scheduler ms l a)
  | reachable_step s s' : reachable s -> step s s' -> reachable s'.

(** No work is left: every task is inactive and the event queue is empty. *)
Definition quiescent s : Prop := Forall (fun t => active t = false) (tasks_ s) /\ events_ s = [].
Definition terminal (st : Lifecycle.State) : Prop := st = Lifecycle.stopped \/ st = Lifecycle.failed.

Definition lifecycle_rank (st : Lifecycle.State) : nat :=
  match st with
  | Lifecycle.fresh => 0 | Lifecycle.initializing => 1 | Lifecycle.ready => 2 | Lifecycle.running => 3
  | Lifecycle.stopping => 4 | Lifecycle.stopped | Lifecycle.failed => 5
  end.

Lemma in_state_true s st : in_state s st = true <-> state s = st.
Proof. unfold in_state. apply bool_decide_eq_true. Qed.
Lemma in_state_false s st : in_state s st = false <-> state s <> st.
Proof. unfold in_state. apply bool_decide_eq_false. Qed.

(** ** Initialization *)

(** The calls of the two stages, and a run of initializers that all succeed. *)
Definition init_calls (ms : list Registration) : list (InitStage * Registration) :=
  map (pair stage1) ms ++ map (pair stage2) ms.

Definition init_call (stage : InitStage) (m : Registration) s : Status * Scheduler :=
  in_context (mkContext (r_name m) (Some name_init) kind_initialization true) yield
    (init_body (r_object m) stage (app s)) s.

Inductive init_trace : list (InitStage * Registration) -> @Scheduler E A L -> @Scheduler E A L -> Prop :=
  | trace_nil s : init_trace [] s s
  | trace_cons stage m calls s s1 s2 :
      init_call stage m s = (Status.ok, s1) -> init_trace calls s1 s2 ->
      init_trace ((stage, m) :: calls) s s2.

Lemma init_trace_app c1 c2 s s1 s2 :
  init_trace c1 s s1 -> init_trace c2 s1 s2 -> init_trace (c1 ++ c2) s s2.
Proof. induction 1; [done|]. intros. simpl. econstructor; eauto. Qed.

(** How a prefix of the calls ended. *)
Definition init_failed (calls : list (InitStage * Registration)) s (st : Status) s' : Prop :=
  exists before stage m rest s1 s2,
    calls = before ++ (stage, m) :: rest /\ init_trace before s s1 /\
    init_call stage m s1 = (st, s2) /\ st <> Status.ok /\
    s' = s2 <| initialization_failure_ := mkInitFailure st (r_name m) stage |>.

Lemma init_modules_trace stage ms : forall s,
  let '(st, s') := init_modules stage ms s in
  if st =s? Status.ok then init_trace (map (pair stage) ms) s s'
  else init_failed (map (pair stage) ms) s st s'.
Proof.
  induction ms as [|m ms IH]; intros s; cbn [init_modules map]; [constructor|].
  fold (init_call stage m s). destruct (init_call stage m s) as [st s1] eqn:Hc.
  destruct (st =s? Status.ok) eqn:Hst; cbn [negb].
  - apply st_eqb_eq in Hst as ->. specialize (IH s1). destruct (init_modules stage ms s1) as [st' s2].
    destruct (st' =s? Status.ok); [by econstructor|].
    destruct IH as (before & stage' & m' & rest & t1 & t2 & Hcalls & ? & ? & ? & ?).
    exists ((stage, m) :: before), stage', m', rest, t1, t2. rewrite Hcalls.
    split_and!; try done. by econstructor.
  - rewrite Hst. apply st_eqb_neq in Hst.
    exists [], stage, m, (map (pair stage) ms), s, s1. split_and!; try done. constructor.
Qed.

Lemma init_trace_kept calls s s' : init_trace calls s s' -> sound s s'.
Proof.
  induction 1 as [|stage m calls s s1 s2 Hc _ IH]; [reflexivity|].
  etransitivity; [|exact IH].
  pose proof (in_context_sound (mkContext (r_name m) (Some name_init) kind_initialization true) yield
    (init_body (r_object m) stage (app s)) s yield_sound) as Hs.
  fold (init_call stage m s) in Hs. by rewrite Hc in Hs.
Qed.

(** The two loops of [init] run the initializers in one sequence. *)
Lemma init_loops s :
  let '(st, s') :=
    let '(st, s) := init_modules stage1 (modules_ s) s in
    if st =s? Status.ok then init_modules stage2 (modules_ s) s else (st, s) in
  if st =s? Status.ok then init_trace (init_calls (modules_ s)) s s'
  else init_failed (init_calls (modules_ s)) s st s'.
Proof.
  pose proof (init_modules_trace stage1 (modules_ s) s) as H1. unfold init_calls.
  destruct (init_modules stage1 (modules_ s) s) as [st1 s1].
  destruct (st1 =s? Status.ok) eqn:Hst1.
  - pose proof (init_modules_trace stage2 (modules_ s1) s1) as H2.
    rewrite (kept_modules _ _ (proj1 (init_trace_kept _ _ _ H1))) in *.
    destruct (init_modules stage2 (modules_ s) s1) as [st2 s2].
    destruct (st2 =s? Status.ok); [by eapply init_trace_app|].
    destruct H2 as (before & stage & m & rest & t1 & t2 & Hcalls & ? & ? & ? & ?).
    exists (map (pair stage1) (modules_ s) ++ before), stage, m, rest, t1, t2.
    rewrite Hcalls, <- app_assoc. split_and!; try done. by eapply init_trace_app.
  - rewrite Hst1. destruct H1 as (before & stage & m & rest & t1 & t2 & Hcalls & ? & ? & ? & ?).
    exists before, stage, m, (rest ++ map (pair stage2) (modules_ s)), t1, t2.
    rewrite Hcalls, <- app_assoc. done.
Qed.

(** The state in which the first initializer runs. *)
Definition init_begin s : Status * Scheduler :=
  let '(st, s) := Validate (s <| lifecycle_ := lifecycle_tick Lifecycle.request_initialize (lifecycle_ s) |>) in
  (st, s <| tasks_ := map default_schedule (tasks_ s) |>).

Lemma init_failed_steady calls s st s' : init_failed calls s st s' -> steady s s'.
Proof.
  intros (before & stage & m & rest & s1 & s2 & _ & Ht & Hc & _ & ->).
  etransitivity; [apply sound_steady, (init_trace_kept _ _ _ Ht)|].
  pose proof (in_context_sound (mkContext (r_name m) (Some name_init) kind_initialization true) yield
    (init_body (r_object m) stage (app s1)) s1 yield_sound) as Hs.
  fold (init_call stage m s1) in Hs. rewrite Hc in Hs. apply sound_steady in Hs.
  etransitivity; [exact Hs|]. apply steady_intro; sfields; auto; by intros [].
Qed.

(** The last part of [init]. *)
Definition init_end (st : Status) s : Status * Scheduler :=
  if st =s? Status.ok
  then (st, s <| lifecycle_ := lifecycle_tick Lifecycle.request_ready (lifecycle_ s) |>)
  else
    let s := s <| lifecycle_ := lifecycle_tick Lifecycle.request_fail (lifecycle_ s) |> <| failure_ := st |>
               <| initialization_failure_ :=
                    mkInitFailure st (if_module (initialization_failure_ s)) (if_stage (initialization_failure_ s)) |>
               <| tasks_ := map deactivate (tasks_ s) |> <| events_ := [] |> in
    (st, if has_logging logging
         then s <| logging_ := log_flush logging (log_failure logging (logging_ s)) |> else s).

Lemma Forall_deactivate ts : Forall (fun t => active t = false) (map deactivate ts).
Proof. induction ts; simpl; by constructor. Qed.

Lemma init_end_spec st s :
  wf s -> state s = Lifecycle.initializing ->
  let '(st', s') := init_end st s in
  st' = st /\ wf s' /\
  (if st =s? Status.ok then state s' = Lifecycle.ready /\ tasks_ s' = tasks_ s
   else state s' = Lifecycle.failed /\ quiescent s' /\ failure_ s' = st /\
        if_status (initialization_failure_ s') = st /\
        if_module (initialization_failure_ s') = if_module (initialization_failure_ s) /\
        if_stage (initialization_failure_ s') = if_stage (initialization_failure_ s)) /\
  used_ s' = used_ s.
Proof.
  intros Hwf Hs. unfold init_end. destruct (st =s? Status.ok).
  - destruct (steady_lifecycle Lifecycle.request_ready s Hwf) as [? Hcs].
    rewrite Hs in Hcs. done.
  - destruct (steady_lifecycle Lifecycle.request_fail s Hwf) as [Hw Hcs].
    rewrite Hs in Hcs. destruct Hw as [He Ht Hst Hd Htk]. sfields.
    assert (Hfin : forall s', lifecycle_ s' = lifecycle_tick Lifecycle.request_fail (lifecycle_ s) ->
      frame_ s' = frame_ s -> task_depth_ s' = task_depth_ s -> timers_ s' = timers_ s ->
      Scheduler.statistics_ s' = Scheduler.statistics_ s -> tasks_ s' = map deactivate (tasks_ s) ->
      events_ s' = [] -> wf s' /\ state s' = Lifecycle.failed /\ quiescent s').
    { intros s' Hl Hf Hdep Htm Hstat Htk' Hev. split_and!.
      - split; [rewrite Hev; cbn; lia|by rewrite Htm|by rewrite Hstat, Htk', length_map|
                by rewrite Hf, Hdep|by rewrite Hl].
      - unfold state. by rewrite Hl, Hcs.
      - split; [rewrite Htk'; apply Forall_deactivate|done]. }
    destruct (has_logging logging).
    all: match goal with |- context [wf ?s'] => destruct (Hfin s') as (Hw & Hst' & Hq); try done end.
Qed.

Lemma init_fresh s :
  state s = Lifecycle.fresh ->
  init s =
    let '(st, s1) := init_begin s in
    if st =s? Status.ok then
      let '(st, s2) := let '(st, s) := init_modules stage1 (modules_ s1) s1 in
                       if st =s? Status.ok then init_modules stage2 (modules_ s) s else (st, s) in
      init_end st s2
    else init_end st (Validate (s <| lifecycle_ := lifecycle_tick Lifecycle.request_initialize (lifecycle_ s) |>)).2.
Proof.
  intros Hs. unfold init, init_begin.
  rewrite (proj2 (in_state_false s Lifecycle.failed)) by congruence.
  rewrite (proj2 (in_state_true s Lifecycle.fresh)) by done. cbn [negb].
  destruct (Validate _) as [st s1]. destruct (st =s? Status.ok) eqn:Hst; [|unfold init_end; by rewrite Hst].
  cbn [fst snd]. set (s2 := s1 <| tasks_ := _ |>).
  destruct (let '(st0, s0) := init_modules stage1 (modules_ s2) s2 in _) as [st3 s3] eqn:E3.
  unfold init_end. done.
Qed.

Lemma init_begin_spec s :
  wf s -> state s = Lifecycle.fresh ->
  wf (init_begin s).2 /\ state (init_begin s).2 = Lifecycle.initializing /\
  let sv := (Validate (s <| lifecycle_ := lifecycle_tick Lifecycle.request_initialize (lifecycle_ s) |>)).2 in
  wf sv /\ state sv = Lifecycle.initializing /\ used_ sv = used_ s.
Proof.
  intros Hwf Hs. unfold init_begin.
  destruct (steady_lifecycle Lifecycle.request_initialize s Hwf) as [Hw Hcs]. rewrite Hs in Hcs.
  set (s1 := s <| lifecycle_ := _ |>) in *.
  pose proof (Validate_steady s1) as [Hl Hv].
  assert (Hu : used_ (Validate s1).2 = used_ s).
  { unfold Validate. repeat (case_match; try done). }
  destruct (Validate s1) as [st s2]. cbn [snd] in *. specialize (Hv Hw).
  assert (Hst : state s2 = Lifecycle.initializing) by (unfold state; rewrite Hl; exact Hcs).
  split_and!; try done.
  destruct Hv as [????]. split; sfields; try done. by rewrite length_map.
Qed.

(** [init] ends in [init_end], after a successful or a failed run of the calls. *)
Lemma init_result s :
  wf s -> state s = Lifecycle.fresh ->
  exists st s2, init s = init_end st s2 /\ wf s2 /\ state s2 = Lifecycle.initializing /\
  if st =s? Status.ok
  then exists s1, init_begin s = (Status.ok, s1) /\ init_trace (init_calls (modules_ s1)) s1 s2
  else (init_begin s).1 = st \/
       exists s1, init_begin s = (Status.ok, s1) /\ init_failed (init_calls (modules_ s1)) s1 st s2.
Proof.
  intros Hwf Hs. rewrite (init_fresh s Hs).
  destruct (init_begin_spec s Hwf Hs) as (Hw1 & Hs1 & Hwv & Hsv & _).
  destruct (init_begin s) as [st s1]. cbn [fst snd] in *.
  destruct (st =s? Status.ok) eqn:Hst.
  - apply st_eqb_eq in Hst as ->. pose proof (init_loops s1) as Hloop.
    destruct (let '(st0, s0) := init_modules stage1 _ _ in _) as [st s2].
    assert (Hsteady : steady s1 s2).
    { destruct (st =s? Status.ok); [by apply init_trace_kept, sound_steady in Hloop|].
      by apply init_failed_steady in Hloop. }
    destruct Hsteady as [Hl Hw]. exists st, s2. split_and!; [done|auto|unfold state; by rewrite Hl|].
    destruct (st =s? Status.ok); [|right]; by exists s1.
  - eexists st, _. rewrite Hst. split_and!; try done. by left.
Qed.

Lemma init_failed_again st s :
  state s = Lifecycle.failed -> failure_ s = st ->
  init s = (st, s) /\ (used_ s = false -> (run_start s).1 = inl st).
Proof.
  intros Hf Hst. split.
  - unfold init. by rewrite (proj2 (in_state_true s _) Hf), Hst.
  - intros Hu. unfold run_start. rewrite Hu.
    change (in_state (s <| used_ := true |>) Lifecycle.failed) with (in_state s Lifecycle.failed).
    rewrite (proj2 (in_state_true s _) Hf). cbn. by rewrite Hst.
Qed.

(** Initialization runs stage 1 of every module in registration order and
    only then stage 2 of every module, and stops at the first failure.  On
    success every initializer returned [ok] and the scheduler is [ready].  On
    failure the scheduler is [failed] for good: the tasks are inactive, the
    event queue is empty, the failing module and stage are on record, and
    later [init] and [run] calls only report the failure again. *)
Theorem init_runs_stages_in_order s :
  wf s -> state s = Lifecycle.fresh ->
  let '(st, s') := init s in
  wf s' /\
  if st =s? Status.ok then
    state s' = Lifecycle.ready /\
    exists s1 s2, init_begin s = (Status.ok, s1) /\
      init_trace (init_calls (modules_ s1)) s1 s2 /\ tasks_ s' = tasks_ s2
  else
    state s' = Lifecycle.failed /\ quiescent s' /\ failure_ s' = st /\
    init s' = (st, s') /\ (used_ s' = false -> (run_start s').1 = inl st) /\
    if_status (initialization_failure_ s') = st /\
    ((init_begin s).1 = st \/
     exists s1 s2, init_begin s = (Status.ok, s1) /\
       init_failed (init_calls (modules_ s1)) s1 st s2 /\
       if_module (initialization_failure_ s') = if_module (initialization_failure_ s2) /\
       if_stage (initialization_failure_ s') = if_stage (initialization_failure_ s2)).
Proof.
  intros Hwf Hs. destruct (init_result s Hwf Hs) as (st & s2 & -> & Hw2 & Hs2 & Hres).
  pose proof (init_end_spec st s2 Hw2 Hs2) as He.
  destruct (init_end st s2) as [st' s']. destruct He as (-> & Hw' & He & _). split; [done|].
  destruct (st =s? Status.ok).
  - destruct He as [? Ht], Hres as (s1 & ? & ?). split; [done|]. by exists s1, s2.
  - destruct He as (Hf & Hq & Hfail & ? & Hm & Hstg).
    destruct (init_failed_again st s' Hf Hfail). split; [done|]. split; [done|]. split_and!; try done.
    destruct Hres as [|(s1 & ? & ?)]; [by left|right; by exists s1, s2].
Qed.

(** ** Steps *)

Lemma terminal_refuses s : terminal (state s) -> AcceptsWork s = false.
Proof. unfold AcceptsWork, in_state. by intros [-> | ->]. Qed.

Lemma terminal_not_running s : terminal (state s) -> in_state s Lifecycle.running = false.
Proof. unfold in_state. by intros [-> | ->]. Qed.

Lemma api_terminal act s : terminal (state s) ->
  tasks_ (api act s).2 = tasks_ s /\ events_ (api act s).2 = events_ s.
Proof.
  intros Ht. pose proof (terminal_refuses s Ht) as Hw. pose proof (terminal_not_running s Ht) as Hr.
  destruct act; cbn [api]; unfold ScheduleSlot, CancelSlot, post, TimerSlot, cancel_timer, stop;
    rewrite ?Hw, ?Hr; try done. by destruct (interrupt_ s).
Qed.

(** What a step must do: keep [wf], never go back, and never leave or wake up a
    terminal state. *)
Definition advances s s' : Prop :=
  wf s' /\ (lifecycle_rank (state s) <= lifecycle_rank (state s'))%nat /\
  (terminal (state s) -> state s' = state s /\ (quiescent s -> quiescent s')) /\
  (~ terminal (state s) -> terminal (state s') -> quiescent s').

Lemma advances_same s s' :
  wf s' -> state s' = state s -> (terminal (state s) -> quiescent s -> quiescent s') -> advances s s'.
Proof. intros ? Hst ?. unfold advances. rewrite Hst. split_and!; try done; try lia. auto. Qed.

Lemma advances_active s s' : wf s -> steady s s' -> ~ terminal (state s) -> advances s s'.
Proof.
  intros Hw [Hl Hw'] Ht. apply advances_same; [auto|unfold state; by rewrite Hl|done].
Qed.

Lemma advances_running s s' :
  wf s' -> state s' = Lifecycle.running -> (lifecycle_rank (state s) <= 3)%nat -> advances s s'.
Proof.
  intros Hw Hs' Hr. unfold advances. rewrite Hs'. split_and!; try done.
  - intros [Ht|Ht]; rewrite Ht in Hr; cbn in Hr; lia.
  - by intros _ [].
Qed.

Lemma init_advances s : wf s -> advances s (init s).2.
Proof.
  intros Hwf. destruct (decide (state s = Lifecycle.fresh)) as [Hs|Hs].
  - destruct (init_result s Hwf Hs) as (st & s2 & -> & Hw2 & Hs2 & _).
    pose proof (init_end_spec st s2 Hw2 Hs2) as He.
    destruct (init_end st s2) as [st' s']. destruct He as (-> & Hw' & He & _). cbn [snd].
    unfold advances. rewrite Hs.
    destruct (st =s? Status.ok).
    + destruct He as [-> _]. split_and!; try done; [cbn; lia|by intros []|by intros ? []].
    + destruct He as (-> & Hq & _). split_and!; try done; [cbn; lia|by intros []].
  - unfold init. destruct (in_state s Lifecycle.failed); [by apply advances_same|].
    rewrite (proj2 (in_state_false s Lifecycle.fresh)) by done. by apply advances_same.
Qed.

(** [run_start] from [ready] on. *)
Lemma start_running s :
  wf s -> state s = Lifecycle.ready ->
  let s1 := s <| lifecycle_ := lifecycle_tick Lifecycle.request_run (lifecycle_ s) |> in
  let s' := s1 <| clock_count := S (clock_count s1) |> <| tasks_ := map (start_task (clock (clock_count s1))) (tasks_ s1) |> in
  wf s' /\ state s' = Lifecycle.running.
Proof.
  intros Hwf Hs. destruct (steady_lifecycle Lifecycle.request_run s Hwf) as [Hw Hcs].
  rewrite Hs in Hcs. cbn zeta. split.
  - destruct Hw. split; sfields; try done. by rewrite length_map.
  - exact Hcs.
Qed.

Lemma run_start_advances s : wf s -> advances s (run_start s).2.
Proof.
  intros Hwf. unfold run_start. destruct (used_ s); [by apply advances_same|].
  set (s0 := s <| used_ := true |>). assert (Hw0 : wf s0) by by destruct Hwf.
  destruct (in_state s0 Lifecycle.failed) eqn:Hf; [by apply advances_same|].
  destruct (in_state s0 Lifecycle.fresh) eqn:Hfresh; cbn [negb andb].
  - apply in_state_true in Hfresh. change (state s0) with (state s) in Hfresh.
    destruct (init_result s0 Hw0 Hfresh) as (st & s2 & -> & Hw2 & Hs2 & _).
    pose proof (init_end_spec st s2 Hw2 Hs2) as He.
    destruct (init_end st s2) as [st' s']. destruct He as (-> & Hw' & He & _).
    destruct (st =s? Status.ok); cbn [negb].
    + destruct He as [Hs' _]. destruct (start_running s' Hw' Hs') as [? Hrun]. unfold now. cbn [snd].
      apply advances_running; [done|done|rewrite Hfresh; cbn; lia].
    + unfold advances. rewrite Hfresh. cbn [snd]. destruct He as (-> & Hq & _). split_and!; try done; [cbn; lia|by intros []].
  - destruct (in_state s0 Lifecycle.ready) eqn:Hready; cbn [negb]; [|by apply advances_same].
    apply in_state_true in Hready. destruct (start_running s0 Hw0 Hready) as [? Hrun].
    rewrite st_eqb_refl. cbn [negb]. unfold now. cbn [snd].
    change (state s0) with (state s) in Hready.
    apply advances_running; [done|done|rewrite Hready; cbn; lia].
Qed.

Lemma run_stop_advances s : wf s -> state s = Lifecycle.running -> advances s (run_stop s).2.
Proof.
  intros Hwf Hs. unfold run_stop. cbn [snd].
  destruct (steady_lifecycle Lifecycle.request_stop s Hwf) as [Hw Hcs]. rewrite Hs in Hcs.
  set (s1 := s <| lifecycle_ := _ |>) in *.
  set (s2 := s1 <| timers_ := _ |> <| armed_ := _ |> <| tasks_ := _ |> <| events_ := _ |>).
  assert (Hw2 : wf s2).
  { destruct Hw as [? Hts ???]. split; unfold s2; sfields; try done; [cbn; lia| |by rewrite length_map].
    eapply timers_ok_weaken; [done|by rewrite length_map|].
    intros i t Hi _ Ha. apply list_lookup_fmap_Some in Hi as (t' & -> & _). done. }
  set (s3 := if has_logging logging then _ else _).
  assert (Hw3 : wf s3 /\ state s3 = Lifecycle.stopping /\ quiescent s3).
  { split_and!; [|by unfold s3; destruct (has_logging _)|].
    - unfold s3. destruct (has_logging _); [by destruct Hw2|done].
    - assert (quiescent s2) by (split; [apply Forall_deactivate|done]).
      unfold s3. by destruct (has_logging _). }
  destruct Hw3 as (Hw3 & Hs3 & Hq).
  destruct (steady_lifecycle Lifecycle.request_stopped s3 Hw3) as [Hw4 Hcs4]. rewrite Hs3 in Hcs4.
  unfold advances. rewrite Hs.
  change (state (s3 <| lifecycle_ := _ |>)) with (cs (lifecycle_tick Lifecycle.request_stopped (lifecycle_ s3))).
  rewrite Hcs4. split_and!; try done; [cbn; lia|by intros []].
Qed.

Lemma step_advances s s' : wf s -> step s s' -> advances s s'.
Proof.
  intros Hwf. destruct 1 as [s|s|s Hr|s Hr|act s|c p s|fuel s s' Hf|b s|n s|l s].
  - by apply init_advances.
  - by apply run_start_advances.
  - apply advances_active; [done|apply iterate_steady|rewrite Hr; by intros []].
  - by apply run_stop_advances.
  - pose proof (api_sound act s) as [[] Hw]. apply advances_same; [auto|unfold state; congruence|].
    intros Ht. destruct (api_terminal act s Ht) as [Htk Hev]. unfold quiescent. by rewrite Htk, Hev.
  - destruct (decide (state s = Lifecycle.running)) as [Hr|Hr].
    + apply advances_active; [done|apply sound_steady, Invoke_sound|rewrite Hr; by intros []].
    + unfold Invoke. destruct (interrupt_ s); [by apply advances_same|].
      rewrite (proj2 (in_state_false s _)) by done. by apply advances_same.
  - destruct (decide (state s = Lifecycle.running)) as [Hr|Hr].
    + apply advances_active; [done|by eapply sound_steady, Fire_sound|rewrite Hr; by intros []].
    + destruct fuel; cbn [Fire] in Hf; rewrite (proj2 (in_state_false s _)) in Hf by done;
        injection Hf as <-; by apply advances_same.
  - apply advances_same; [by destruct Hwf|done|done].
  - apply advances_same; [by destruct Hwf|done|done].
  - apply advances_same; [by destruct Hwf|done|done].
Qed.

Lemma reachable_ok s : reachable s -> wf s /\ (terminal (state s) -> quiescent s).
Proof.
  induction 1 as [ms l a|s s' _ [Hwf Hq] Hstep].
  - destruct (new_scheduler_wf ms l a) as [? ->]. split; [done|by intros []].
  - destruct (step_advances s s' Hwf Hstep) as (? & _ & Hsame & Hnew). split; [done|].
    intros Ht'. destruct (decide (state s = Lifecycle.stopped)) as [Hs|Hs];
      [|destruct (decide (state s = Lifecycle.failed)) as [Hs'|Hs']].
    + assert (Ht : terminal (state s)) by by left. apply Hsame; auto.
    + assert (Ht : terminal (state s)) by by right. apply Hsame; auto.
    + apply Hnew; [|done]. by intros [].
Qed.

(** C38: in every reachable state, whatever the application's callbacks do, the
    event queue stays within its capacity, the timer slots keep their number
    and hold pairwise distinct callbacks, every task has its statistics, and
    the depth counter equals the number of task frames on the stack; once the
    scheduler has stopped or failed, no task is active and no event is queued. *)
Theorem scheduler_invariant s :
  reachable s -> wf s /\ (terminal (state s) -> quiescent s).
Proof. apply reachable_ok. Qed.

(** The lifecycle only moves forward (fresh, initializing, ready, running,
    stopping, then stopped or failed), whatever operation comes next; stopped
    and failed are final. *)
Theorem lifecycle_forward s s' :
  reachable s -> step s s' ->
  (lifecycle_rank (state s) <= lifecycle_rank (state s'))%nat /\
  (terminal (state s) -> state s' = state s).
Proof.
  intros Hr Hs. destruct (reachable_ok s Hr) as [Hwf _].
  destruct (step_advances s s' Hwf Hs) as (_ & ? & Hsame & _). split; [done|]. intros. by apply Hsame.
Qed.
End life.
