(* ===== verification/SchedulerDispatch.v ===== *)
(** * Dispatch order, cadence, idling and timers

    What the dispatch loop picks, when a repeating task runs again, how long the
    platform may sleep, and the timer slots as a finite map from callbacks to
    deadlines. *)

From stdpp Require Import gmap.
From S2P Require Import Prelude Foundation StateMachine Match Scheduler SchedulerInv SchedulerLife.

Section dispatch.
Context `{Application E A L}.
Implicit Types s : @Scheduler E A L.

(** ** Choice *)

Lemma select_event_spec t_now (events : list (@EventRecord E)) : forall i earliest selected,
  match select_event t_now i events earliest selected with
  | sel =>
    (sel = selected /\ (forall e, e ∈ events -> e_due e <= t_now -> earliest <= e_due e)) \/
    (exists j e, sel = Some (i + j)%nat /\ events !! j = Some e /\ e_due e <= t_now /\ e_due e < earliest /\
       forall e', e' ∈ events -> e_due e' <= t_now -> e_due e <= e_due e')
  end.
Proof.
  induction events as [|e events IH]; intros i earliest selected; cbn [select_event].
  { left. split; [done|]. intros e He. by apply elem_of_nil in He. }
  destruct ((e_due e <=? t_now) && (e_due e <? earliest)) eqn:He.
  - apply andb_true_iff in He as [Hle%Z.leb_le Hlt%Z.ltb_lt]. right.
    destruct (IH (S i) (e_due e) (Some i)) as [[-> Hmin]|(j & e' & -> & Hj & ? & ? & Hmin)].
    + exists 0%nat, e. rewrite Nat.add_0_r. split_and!; try done.
      intros e' [->|Hin]%elem_of_cons ?; [lia|auto].
    + exists (S j), e'. split_and!; try done; [f_equal; lia|lia|].
      intros u [->|Hin]%elem_of_cons ?; [lia|auto].
  - assert (Hhd : e_due e <= t_now -> earliest <= e_due e).
    { intros Hle%Z.leb_le. rewrite Hle in He. by apply Z.ltb_ge in He. }
    destruct (IH (S i) earliest selected) as [[-> Hmin]|(j & e' & -> & Hj & ? & ? & Hmin)].
    + left. split; [done|]. intros u [->|Hin]%elem_of_cons ?; auto.
    + right. exists (S j), e'. split_and!; try done; [f_equal; lia|].
      intros u [->|Hin]%elem_of_cons Hu; [specialize (Hhd Hu); lia|auto].
Qed.

(** Deadlines of the work that is due at [t]. *)
Definition task_due (t : Time) s (d : Time) : Prop :=
  exists i k, tasks_ s !! i = Some k /\ active k = true /\ due k <= t /\ d = due k.
Definition event_due (t : Time) s (d : Time) : Prop :=
  exists e, e ∈ events_ s /\ e_due e <= t /\ d = e_due e.

(** C36: the dispatch loop serves due work earliest first.  A chosen task is
    active and due, and no due task or event is earlier; a chosen event is due,
    no other event is earlier and every due task is strictly later; nothing is
    chosen only when nothing is due (the sentinel [kForever] is never due). *)
Theorem dispatch_earliest_first t s :
  match choose t s with
  | ChooseTask i => exists k, tasks_ s !! i = Some k /\ active k = true /\ due k <= t /\
      (forall d, task_due t s d -> due k <= d) /\ (forall d, event_due t s d -> due k <= d)
  | ChooseEvent i => exists e, events_ s !! i = Some e /\ e_due e <= t /\
      (forall d, event_due t s d -> e_due e <= d) /\ (forall d, task_due t s d -> e_due e < d)
  | ChooseNone =>
      (forall d, task_due t s d -> kForever <= d) /\ (forall d, event_due t s d -> kForever <= d)
  end.
Proof.
  unfold choose. pose proof (select_task_spec active t (tasks_ s) 0 kForever None) as Ht.
  destruct (select_task _ _ _ _ _ _) as [earliest sel]. destruct Ht as (Hle & Hsel & Hmin).
  assert (Htask : forall d, task_due t s d -> earliest <= d).
  { intros d (i & k & Hk & Ha & Hd & ->). eauto. }
  destruct (select_event_spec t (events_ s) 0 earliest None) as [[-> He]|(j & e & -> & Hj & Hd & Hlt & He)].
  - assert (Hev : forall d, event_due t s d -> earliest <= d).
    { intros d (e & Hin & Hd & ->). auto. }
    destruct Hsel as [[-> ->]|(j & k & -> & Hk & Ha & Hd & -> & _)]; [done|]. exists k. done.
  - exists e. split_and!; try done.
    + intros d (e' & Hin & Hd' & ->). auto.
    + intros d Htd. specialize (Htask d Htd). lia.
Qed.

(** ** Cadence *)

(** A program that never schedules or cancels task [(m, x)]. *)
Definition act_spares (m x : nat) (act : Act E) : Prop :=
  match act with
  | ASchedule m' x' _ _ | ACancel m' x' => ~ (m' = m /\ x' = x)
  | _ => True
  end.
Fixpoint spares (m x : nat) (p : Prog E A) : Prop :=
  match p with
  | Return _ _ => True
  | Call _ act k => act_spares m x act /\ forall st a, spares m x (k st a)
  end.

Lemma find_task_spec m x ts : forall i j, find_task m x i ts = Some j ->
  exists t, ts !! (j - i)%nat = Some t /\ (i <= j)%nat /\ t_module t = m /\ t_index t = x.
Proof.
  induction ts as [|t ts IH]; intros i j; cbn [find_task]; [done|].
  destruct ((t_module t =? m) && (t_index t =? x))%nat eqn:Ht.
  - intros [= <-]. apply andb_true_iff in Ht as [?%Nat.eqb_eq ?%Nat.eqb_eq].
    exists t. rewrite Nat.sub_diag. done.
  - intros (u & Hu & ? & ?)%IH. exists u. replace (j - i)%nat with (S (j - S i)) by lia.
    split_and!; try done; lia.
Qed.

Lemma lookup_alter_other {B} (f : B -> B) i j (l : list B) : i <> j -> alter f i l !! j = l !! j.
Proof. intros. by apply list_lookup_alter_ne. Qed.

Lemma api_spares act i t s :
  tasks_ s !! i = Some t -> act_spares (t_module t) (t_index t) act -> tasks_ (api act s).2 !! i = Some t.
Proof.
  intros Hi Hsp.
  assert (Hother : forall m x j, find_task m x 0 (tasks_ s) = Some j ->
            ~ (m = t_module t /\ x = t_index t) -> j <> i).
  { intros m x j (u & Hu & _ & Hm & Hx)%find_task_spec Hne ->. rewrite Nat.sub_0_r, Hi in Hu.
    injection Hu as <-. by apply Hne. }
  destruct act; cbn [api act_spares] in *;
    unfold ScheduleSlot, CancelSlot, post, TimerSlot, cancel_timer, stop, Rearm, now, notify, upd_task, upd_stats.
  all: repeat split_match; simplify_eq; sfields; try done.
  all: rewrite lookup_alter_other; eauto.
Qed.

Lemma exec_spares (y : Scheduler -> Status * Scheduler) i t p : forall s,
  (forall s, tasks_ s !! i = Some t -> tasks_ (y s).2 !! i = Some t) ->
  tasks_ s !! i = Some t -> spares (t_module t) (t_index t) p ->
  tasks_ (exec y p s).2 !! i = Some t.
Proof.
  induction p as [st a|a act k IH]; intros s Hy Hi Hsp; cbn [exec]; [done|].
  destruct Hsp as [Hact Hk]. set (s1 := s <| app := a |>).
  assert (Hs : tasks_ (match act with AYield => y s1 | _ => api act s1 end).2 !! i = Some t).
  { destruct act; try (by apply api_spares). by apply Hy. }
  destruct (match act with AYield => y s1 | _ => api act s1 end) as [st s2]. by apply IH.
Qed.

Lemma in_context_spares c (y : Scheduler -> Status * Scheduler) i t p s :
  (forall s, tasks_ s !! i = Some t -> tasks_ (y s).2 !! i = Some t) ->
  tasks_ s !! i = Some t -> spares (t_module t) (t_index t) p ->
  tasks_ (in_context c y p s).2 !! i = Some t.
Proof.
  intros Hy Hi Hsp. unfold in_context.
  match goal with |- context [exec y p ?s1] =>
    pose proof (exec_spares y i t p s1 Hy Hi Hsp) as He; destruct (exec y p s1) end.
  exact He.
Qed.

Section spared.
Context (i : nat) (t : Task) (Hexec : executing t = true).
Context (Hsp : forall j a, spares (t_module t) (t_index t) (task_body j a)).

Lemma run_body_spares (y : Scheduler -> Status * Scheduler) j scheduled gen s :
  (forall s, tasks_ s !! i = Some t -> tasks_ (y s).2 !! i = Some t) -> j <> i ->
  tasks_ s !! i = Some t -> tasks_ (run_body y j scheduled gen s) !! i = Some t.
Proof.
  intros Hy Hj Hi. unfold run_body, now.
  match goal with |- context [in_context ?c y ?p ?s1] =>
    pose proof (in_context_spares c y i t p s1 Hy Hi) as Hc; destruct (in_context c y p s1) as [st s2] end.
  unfold upd_task, upd_stats. sfields. rewrite lookup_alter_other by done. apply Hc, Hsp.
Qed.

Lemma yield_with_spares run s :
  (forall j scheduled gen s, j <> i -> tasks_ s !! i = Some t -> tasks_ (run j scheduled gen s) !! i = Some t) ->
  tasks_ s !! i = Some t -> tasks_ (yield_with run s).2 !! i = Some t.
Proof.
  intros Hrun Hi. unfold yield_with, now. repeat (case_match; [done|]).
  pose proof (select_task_spec (fun k => active k && negb (executing k)) (clock (clock_count s))
    (tasks_ s) 0 kForever None) as Hsel. sfields.
  destruct (select_task _ _ _ _ _ _) as [e [j|]]; [|done].
  destruct Hsel as (_ & [[? _]|(j' & u & Hj & Hu & Hok & _)] & _); [done|].
  simpl in Hj. injection Hj as <-. case_match; [done|].
  assert (j <> i). { intros ->. rewrite Hi in Hu. injection Hu as <-. by rewrite Hexec, andb_false_r in Hok. }
  unfold TakeTask, upd_task. cbn [snd]. apply Hrun; [done|]. sfields. by rewrite lookup_alter_other.
Qed.

Lemma RunTask_spares d : forall j scheduled gen s,
  j <> i -> tasks_ s !! i = Some t -> tasks_ (RunTask d j scheduled gen s) !! i = Some t.
Proof.
  induction d as [|d IH]; intros j scheduled gen s Hj Hi; cbn [RunTask]; apply run_body_spares; try done;
    intros s' Hs'; apply yield_with_spares; try done.
  intros j' ?? s'' ??. unfold no_nesting, upd_task. sfields. by rewrite lookup_alter_other.
Qed.

Lemma RunTask_own d scheduled s :
  tasks_ s !! i = Some t ->
  tasks_ (RunTask d i scheduled (generation t) s) !! i =
    Some (t <| executing := false |> <| completed := u64 (completed t + 1) |>).
Proof.
  intros Hi.
  assert (Hy : forall s, tasks_ s !! i = Some t ->
    tasks_ (yield_with (match d with O => no_nesting | S d => RunTask d end) s).2 !! i = Some t).
  { intros s' Hs'. apply yield_with_spares; [|done]. intros j sch gen s'' Hj Hs''. destruct d.
    - unfold no_nesting, upd_task. sfields. by rewrite lookup_alter_other.
    - by apply RunTask_spares. }
  assert (E1 : RunTask d i scheduled (generation t) s =
    run_body (yield_with (match d with O => no_nesting | S d => RunTask d end)) i scheduled (generation t) s).
  { by destruct d. }
  rewrite E1. clear E1. unfold run_body, now.
  match goal with |- context [in_context ?c ?y ?p ?s1] =>
    pose proof (in_context_spares c y i t p s1 Hy Hi) as Hc; destruct (in_context c y p s1) as [st s2] end.
  unfold upd_task, upd_stats. sfields. rewrite list_lookup_alter_eq, Hc by apply Hsp.
  cbn [fmap option_fmap option_map]. cbn [generation field_update]. by rewrite Z.eqb_refl.
Qed.
End spared.

(** C37: a repeating task keeps its cadence.  When the loop dispatches it, its next
    deadline is computed from the deadline it was scheduled for and not from the
    time it ran, so no overdue iteration is lost and lateness does not
    accumulate, and the completed iteration is counted; whatever the task bodies
    do (yields and nested tasks included), short of rescheduling or cancelling
    this very task. *)
Theorem repeating_task_cadence s i t :
  stop_requested_ s = false -> choose (clock (clock_count s)) s = ChooseTask i ->
  tasks_ s !! i = Some t -> mode t = repeat_ ->
  (forall j a, spares (t_module t) (t_index t) (task_body j a)) ->
  (iterate s).1 = Dispatched /\
  tasks_ (iterate s).2 !! i =
    Some (t <| executing := false |> <| due := After (due t) (interval t) |>
            <| completed := u64 (completed t + 1) |>).
Proof.
  intros Hstop Hch Hi Hm Hsp. unfold iterate, now. rewrite Hstop.
  change (choose (clock (clock_count s)) (s <| clock_count := _ |>)) with (choose (clock (clock_count s)) s).
  rewrite Hch. unfold TakeTask. sfields.
  rewrite (list_lookup_total_correct _ _ _ Hi). split; [done|].
  set (t1 := t <| executing := true |> <| due := After (due t) (interval t) |>).
  change (generation t) with (generation t1).
  rewrite (RunTask_own i t1); [done|done|exact Hsp|].
  unfold upd_task. sfields. rewrite list_lookup_alter_eq, Hi.
  cbn [fmap option_fmap option_map mode field_update]. by rewrite Hm.
Qed.

(** ** Deadlines *)

Lemma earliest_timer_spec ts : forall e,
  earliest_timer e ts <= e /\
  (forall t, t ∈ ts -> timer_active t = true -> earliest_timer e ts <= timer_due t) /\
  (earliest_timer e ts = e \/ exists t, t ∈ ts /\ timer_active t = true /\ earliest_timer e ts = timer_due t).
Proof.
  induction ts as [|t ts IH]; intros e; cbn [earliest_timer].
  { split_and!; [lia| |by left]. intros t Ht. by apply elem_of_nil in Ht. }
  destruct (timer_active t && (timer_due t <? e)) eqn:Ht.
  - apply andb_true_iff in Ht as [Ha Hlt%Z.ltb_lt]. destruct (IH (timer_due t)) as (Hle & Hmin & Heq).
    split_and!; [lia| |].
    + intros u [->|Hu]%elem_of_cons ?; auto.
    + right. destruct Heq as [->|(u & ? & ? & ->)]; [exists t|exists u]; rewrite elem_of_cons; auto.
  - destruct (IH e) as (Hle & Hmin & Heq). split_and!; [lia| |].
    + intros u [->|Hu]%elem_of_cons Ha; [|auto]. rewrite Ha in Ht. simpl in Ht. apply Z.ltb_ge in Ht. lia.
    + destruct Heq as [->|(u & ? & ? & ->)]; [by left|right; exists u]. rewrite elem_of_cons; auto.
Qed.

Lemma earliest_task_spec ts : forall e,
  earliest_task e ts <= e /\
  (forall t, t ∈ ts -> active t = true -> earliest_task e ts <= due t).
Proof.
  induction ts as [|t ts IH]; intros e; cbn [earliest_task].
  { split; [lia|]. intros t Ht. by apply elem_of_nil in Ht. }
  destruct (active t && (due t <? e)) eqn:Ht.
  - apply andb_true_iff in Ht as [Ha Hlt%Z.ltb_lt]. destruct (IH (due t)) as (Hle & Hmin).
    split; [lia|]. intros u [->|Hu]%elem_of_cons ?; auto.
  - destruct (IH e) as (Hle & Hmin). split; [lia|].
    intros u [->|Hu]%elem_of_cons Ha; [|auto]. rewrite Ha in Ht. simpl in Ht. apply Z.ltb_ge in Ht. lia.
Qed.

(** The hardware timer covers a deadline read at time [t]. *)
Definition armed_for (deadline t : Time) (o : option Time) : Prop :=
  (deadline = kForever /\ o = None) \/ (deadline <> kForever /\ o = Some (Z.max 0 (deadline - t))).

Lemma Rearm_armed s :
  let s' := Rearm s in
  timers_ s' = timers_ s /\ tasks_ s' = tasks_ s /\ stop_requested_ s' = stop_requested_ s /\
  armed_for (earliest_timer kForever (timers_ s)) (clock (clock_count s)) (armed_ s').
Proof.
  unfold Rearm, now, armed_for. destruct (Z.eqb_spec (earliest_timer kForever (timers_ s)) kForever); sfields.
  - split_and!; try done. by left.
  - split_and!; try done. right. split; [done|]. f_equal. destruct (Z.gtb_spec (earliest_timer kForever (timers_ s)) (clock (clock_count s))); lia.
Qed.

(** With the wake-up slot set to the earliest task, the timers alone give the
    deadline of tasks and timers. *)
Lemma wake_deadline d ts :
  d <= kForever -> (TimerCapacity < length ts)%nat ->
  let ts' := <[TimerCapacity := mkTimer (negb (d =? kForever)) d None]> ts in
  earliest_timer kForever ts' = earliest_timer d ts'.
Proof.
  intros Hd Hlen ts'. set (w := mkTimer (negb (d =? kForever)) d None).
  assert (Hw : w ∈ ts').
  { apply list_elem_of_lookup. exists TimerCapacity. by apply list_lookup_insert_eq. }
  destruct (earliest_timer_spec ts' kForever) as (H1 & H2 & H3).
  destruct (earliest_timer_spec ts' d) as (H4 & H5 & H6).
  assert (Hwd : earliest_timer kForever ts' <= d).
  { destruct (Z.eqb_spec d kForever) as [->|Hne]; [done|]. by apply (H2 w Hw). }
  apply Z.le_antisymm.
  - destruct H6 as [->|(t & Ht & Ha & ->)]; [done|auto].
  - destruct H3 as [->|(t & Ht & Ha & ->)]; [lia|auto].
Qed.

(** The loop idles only until the next deadline.  When a round goes idle, the
    deadline it hands to the platform is not later than that of any active task
    or timer, the hardware timer is armed for exactly that deadline (or disarmed
    when there is none), no stop is pending, the platform's sequence number was
    read before the work was looked at, so a request that comes in meanwhile
    cancels the idle, and deep sleep is asked for only if the platform has it. *)
Theorem idle_covers_deadlines s deadline sleep observed s' :
  wf s -> iterate s = (Idle deadline sleep observed, s') ->
  (forall k, k ∈ tasks_ s' -> active k = true -> deadline <= due k) /\
  (forall t, t ∈ timers_ s' -> timer_active t = true -> deadline <= timer_due t) /\
  (exists n, armed_for deadline (clock n) (armed_ s')) /\
  stop_requested_ s' = false /\ observed = sequence_ s /\
  (sleep = true -> platform_can_sleep = true).
Proof.
  intros Hwf. unfold iterate, now. destruct (stop_requested_ s); [done|].
  set (s1 := s <| clock_count := _ |>).
  destruct (choose _ s1) as [i|i|]; [by destruct (events_ s1 !! i)|done|].
  set (s2 := if has_logging logging then _ else _).
  assert (Hs2 : steady s1 s2.2).
  { unfold s2. destruct (has_logging _); [|reflexivity]. destruct (log_dispatch _ _). cbn [snd].
    apply steady_intro; sfields; auto; by intros []. }
  destruct s2 as [b s2]. destruct b; [done|]. unfold idle.
  pose proof (sound_steady _ _ (ask_sleep_sound (modules_ s2) platform_can_sleep s2)) as Hs3.
  assert (Hsl : forall ms b s, (ask_sleep ms b s).1 = true -> b = true).
  { intros ms. induction ms as [|m ms IH]; intros b0 s0; cbn [ask_sleep]; [done|].
    destruct (in_context _ _ _ _) as [st s4]. intros Hb%IH. by destruct (st =s? Status.ok). }
  specialize (Hsl (modules_ s2) platform_can_sleep s2).
  destruct (ask_sleep _ _ s2) as [sl s3]. cbn [fst snd] in *.
  assert (Hw3 : wf s3). { apply Hs3, Hs2. by destruct Hwf. }
  destruct (stop_requested_ s3) eqn:Hstop; [done|]. case_match; [done|]. intros [= <- <- <- <-].
  set (d := earliest_task kForever (tasks_ s3)).
  destruct (earliest_task_spec (tasks_ s3) kForever) as [Hdle Hdmin]. fold d in Hdle, Hdmin.
  match goal with |- context [Rearm ?s4] => destruct (Rearm_armed s4) as (Ht & Htk & Hst & Harm);
    generalize dependent (Rearm s4); intros s5 Ht Htk Hst Harm end.
  sfields. set (ts := <[TimerCapacity := _]> (timers_ s3)) in *.
  assert (Hwake : earliest_timer kForever ts = earliest_timer d ts).
  { apply wake_deadline; [done|]. rewrite (timers_length _ (wf_timers _ Hw3)). lia. }
  destruct (earliest_timer_spec ts d) as (Hle & Hmin & _). split_and!.
  - rewrite Htk. intros k Hk Ha. specialize (Hdmin k Hk Ha). lia.
  - rewrite Ht. exact Hmin.
  - rewrite Hwake in Harm. by eexists.
  - by rewrite Hst.
  - done.
  - done.
Qed.

(** ** Timers as a finite map *)

Definition timer_entry (t : Timer) : option (nat * Time) :=
  if timer_active t then (fun c => (c, timer_due t)) <$> callback t else None.
Definition entries_of (ts : list Timer) : list (nat * Time) := omap timer_entry (take TimerCapacity ts).
Definition pending (ts : list Timer) : gmap nat Time := list_to_map (entries_of ts).

Lemma timer_entry_Some t c d :
  timer_entry t = Some (c, d) <-> timer_active t = true /\ callback t = Some c /\ timer_due t = d.
Proof.
  unfold timer_entry. destruct (timer_active t), (callback t); cbn; split;
    (done || (by intros [= <- <-]) || (by intros (? & [= ->] & ->)) || (by intros (? & ? & _))).
Qed.

Lemma elem_entries ts c d :
  (c, d) ∈ entries_of ts <->
  exists i t, ts !! i = Some t /\ (i < TimerCapacity)%nat /\
    timer_active t = true /\ callback t = Some c /\ timer_due t = d.
Proof.
  unfold entries_of. rewrite list_elem_of_omap. split.
  - intros (t & [i Hi]%list_elem_of_lookup & He%timer_entry_Some).
    rewrite lookup_take in Hi. case_decide; [|done]. by exists i, t.
  - intros (i & t & Hi & Hlt & He). exists t. split; [|by apply timer_entry_Some].
    apply list_elem_of_lookup. exists i. by rewrite lookup_take_lt.
Qed.

Lemma NoDup_entries ts : timers_ok ts -> NoDup (entries_of ts).*1.
Proof.
  intros [_ _ Hinj]. unfold entries_of.
  assert (Hd : forall i j t t' c, take TimerCapacity ts !! i = Some t -> take TimerCapacity ts !! j = Some t' ->
            timer_active t = true -> timer_active t' = true -> callback t = Some c -> callback t' = Some c -> i = j).
  { intros i j t t' c Hi Hj ????. rewrite lookup_take in Hi, Hj. do 2 (case_decide; [|done]).
    eapply Hinj; eauto. congruence. }
  clear Hinj. induction (take TimerCapacity ts) as [|t l IH]; simpl; [constructor|].
  assert (IHl : NoDup (omap timer_entry l).*1).
  { apply IH. intros i j u u' c Hi Hj ????. assert (S i = S j) by (eapply (Hd (S i) (S j)); eauto). lia. }
  destruct (timer_entry t) as [[c d]|] eqn:He; [|done]. cbn. constructor; [|done].
  intros Hin. apply list_elem_of_fmap in Hin as ((c' & d') & Hc & Hin).
  apply list_elem_of_omap in Hin as (u & [j Hj]%list_elem_of_lookup & Hu). simpl in Hc. subst c'. apply timer_entry_Some in He as (? & ? & _), Hu as (? & ? & _).
  assert (0%nat = S j) by (eapply (Hd 0%nat (S j)); eauto). lia.
Qed.

Lemma lookup_pending ts c d :
  timers_ok ts ->
  pending ts !! c = Some d <->
  exists i t, ts !! i = Some t /\ (i < TimerCapacity)%nat /\
    timer_active t = true /\ callback t = Some c /\ timer_due t = d.
Proof.
  intros Hts. rewrite <- elem_entries. unfold pending. split.
  - apply elem_of_list_to_map_2.
  - intros. apply elem_of_list_to_map_1; [by apply NoDup_entries|done].
Qed.

Lemma pending_None ts c : timers_ok ts ->
  pending ts !! c = None <->
  forall i t, ts !! i = Some t -> (i < TimerCapacity)%nat -> timer_active t = true -> callback t <> Some c.
Proof.
  intros Hts. rewrite eq_None_not_Some. split.
  - intros Hn i t ? ? ? ?. apply Hn. exists (timer_due t). apply lookup_pending; [done|]. by exists i, t.
  - intros Hn [d (i & t & ? & ? & ? & ? & _)%lookup_pending]; [|done]. by eapply Hn.
Qed.

Lemma omap_cons_eq {B C} (f : B -> option C) x l :
  omap f (x :: l) = match f x with Some y => y :: omap f l | None => omap f l end.
Proof. done. Qed.

Lemma length_omap_le {B C} (f : B -> option C) l : (length (omap f l) <= length l)%nat.
Proof. induction l as [|x l IH]; [done|]. rewrite omap_cons_eq. destruct (f x); cbn [length]; lia. Qed.

Lemma length_omap_all {B C} (f : B -> option C) l :
  length (omap f l) = length l <-> forall x, x ∈ l -> is_Some (f x).
Proof.
  induction l as [|x l IH]; [split; [intros _ x Hx; by apply elem_of_nil in Hx|done]|].
  pose proof (length_omap_le f l). rewrite omap_cons_eq. destruct (f x) eqn:Hx; cbn [length].
  - split.
    + intros [= Hl] y [->|Hy]%elem_of_cons; [done|]. by apply IH.
    + intros Hall. f_equal. apply IH. intros y Hy. apply Hall. by apply elem_of_cons; right.
  - split; [intros; exfalso; lia|]. intros Hall. destruct (Hall x) as [? Hs]; [by apply elem_of_cons; left|].
    by rewrite Hx in Hs.
Qed.

(** The map is full exactly when every slot is active. *)
Lemma size_pending ts :
  timers_ok ts ->
  (size (pending ts) <= TimerCapacity)%nat /\
  (size (pending ts) = TimerCapacity <->
   forall i t, ts !! i = Some t -> (i < TimerCapacity)%nat -> timer_active t = true).
Proof.
  intros Hts. unfold pending. rewrite map_size_list_to_map by by apply NoDup_entries.
  assert (Hlen : length (take TimerCapacity ts) = TimerCapacity).
  { rewrite length_take, (timers_length _ Hts). lia. }
  unfold entries_of. split; [rewrite <- Hlen at 2; apply length_omap_le|].
  rewrite <- Hlen at 2. rewrite length_omap_all. split.
  - intros Hall i t Hi Hlt. destruct (Hall t) as [[c d] He%timer_entry_Some]; [|by destruct He].
    apply list_elem_of_lookup. exists i. by rewrite lookup_take_lt.
  - intros Hall t [i Hi]%list_elem_of_lookup. rewrite lookup_take in Hi. case_decide; [|done].
    destruct (timers_some _ Hts i t) as [c Hc]; [done..|by eauto|]. exists (c, timer_due t).
    apply timer_entry_Some. eauto.
Qed.

Lemma pending_insert c i d ts :
  timers_ok ts -> timer_slot c 0 (take TimerCapacity ts) None = Some i ->
  pending (<[i := mkTimer true d (Some c)]> ts) = <[c := d]> (pending ts).
Proof.
  intros Hts Hslot. pose proof (timers_ok_insert c i d ts Hts Hslot) as Hts'.
  pose proof (timer_slot_spec c (take TimerCapacity ts) 0 None) as Hspec. rewrite Hslot, Nat.sub_0_r in Hspec.
  assert (Hi : (i < TimerCapacity)%nat /\ (i < length ts)%nat /\
               forall t c', ts !! i = Some t -> timer_active t = true -> callback t = Some c' -> c' = c).
  { destruct Hspec as [(t & Ht & _ & _ & Hc)|[_ [?|(t & Ht & _ & Hin)]]]; [| done|];
      rewrite lookup_take in Ht; (case_decide; [|done]); (split_and!; [done|by eapply lookup_lt_Some|]);
      intros t' c' Ht' Ha' Hc'; rewrite Ht in Ht'; injection Ht' as <-; congruence. }
  destruct Hi as (Hlt & Hlen & Hown).
  apply map_eq. intros c'. apply option_eq. intros d'. rewrite lookup_pending by done.
  rewrite lookup_insert_Some, lookup_pending by done. split.
  - intros (j & t & Hj & Hjlt & Ha & Hc & Hd).
    apply list_lookup_insert_Some in Hj as [(<- & <- & _)|(Hne & Hj)]; simpl in *.
    + left. naive_solver.
    + right. split; [|by exists j, t]. intros <-.
      apply Hne. symmetry.
      apply (timers_inj _ Hts' j i t (mkTimer true d (Some c)));
        [by rewrite list_lookup_insert_ne|by apply list_lookup_insert_eq|done..].
  - intros [(<- & <-)|(Hne & j & t & Hj & Hjlt & Ha & Hc & Hd)].
    + exists i, (mkTimer true d (Some c)). split; [by apply list_lookup_insert_eq|done].
    + exists j, t. split; [|done]. rewrite list_lookup_insert_ne; [done|]. intros ->.
      apply Hne. symmetry. by eapply Hown.
Qed.

Lemma pending_deactivate c i t ts :
  timers_ok ts -> ts !! i = Some t -> (i < TimerCapacity)%nat -> timer_active t = true -> callback t = Some c ->
  pending (alter (fun t => t <| timer_active := false |>) i ts) = delete c (pending ts).
Proof.
  intros Hts Hi Hlt Ha Hc. pose proof (timers_ok_deactivate i ts Hts) as Hts'.
  apply map_eq. intros c'. apply option_eq. intros d'. rewrite lookup_pending by done.
  rewrite lookup_delete_Some, lookup_pending by done. split.
  - intros (j & u & Hj & Hjlt & Hau & Hcu & Hd). destruct (decide (i = j)) as [->|Hne].
    { rewrite list_lookup_alter_eq, Hi in Hj. simpl in Hj. by simplify_eq. }
    rewrite lookup_alter_other in Hj by done. split; [|by exists j, u]. intros <-.
    apply Hne. eapply (timers_inj _ Hts i j); eauto. congruence.
  - intros (Hne & j & u & Hj & Hjlt & Hau & Hcu & Hd). exists j, u. split; [|done].
    rewrite lookup_alter_other; [done|]. intros ->. rewrite Hi in Hj. injection Hj as <-. congruence.
Qed.

(** The timer operations on the map, as the interface documents them. *)
Definition timer_spec (c : nat) (d : Time) (m : gmap nat Time) : Status * gmap nat Time :=
  if decide (is_Some (m !! c) \/ (size m < TimerCapacity)%nat) then (Status.ok, <[c := d]> m) else (Status.full, m).
Definition cancel_spec (c : nat) (m : gmap nat Time) : Status * gmap nat Time :=
  if decide (is_Some (m !! c)) then (Status.ok, delete c m) else (Status.not_found, m).

(** the multiplexed timers are a map from callbacks to deadlines with at most
    [TimerCapacity] entries: setting a timer replaces the entry of its callback
    without needing a new slot, or adds one, and fails with [full] (counted)
    only when the map is full; cancelling removes exactly that entry.  After
    each change the hardware timer covers the earliest deadline. *)
Theorem timers_refine_map s c delay :
  wf s -> state s = Lifecycle.running -> delay <> 0 ->
  let m := pending (timers_ s) in
  (let '(st, s') := TimerSlot delay (Some c) s in
   (st, pending (timers_ s')) = timer_spec c (After (clock (clock_count s)) delay) m /\
   (st = Status.ok -> exists n, armed_for (earliest_timer kForever (timers_ s')) (clock n) (armed_ s'))) /\
  (let '(st, s') := cancel_timer (Some c) s in
   (st, pending (timers_ s')) = cancel_spec c m /\
   (st = Status.ok -> exists n, armed_for (earliest_timer kForever (timers_ s')) (clock n) (armed_ s'))).
Proof.
  intros [_ Hts _ _ _] Hrun Hdelay. apply in_state_true in Hrun. apply Z.eqb_neq in Hdelay. cbn zeta.
  destruct (size_pending _ Hts) as [Hsz Hfull]. split.
  - unfold TimerSlot, timer_spec, now. rewrite Hrun, Hdelay. cbn [negb].
    pose proof (timer_slot_spec c (take TimerCapacity (timers_ s)) 0 None) as Hspec.
    destruct (timer_slot c 0 _ None) as [i|] eqn:Hslot.
    + match goal with |- context [Rearm ?s1] => destruct (Rearm_armed s1) as (Ht & _ & _ & Harm);
        generalize dependent (Rearm s1); intros s2 Ht Harm end.
      unfold notify. sfields. rewrite Ht. split; [|by eexists].
      rewrite (pending_insert c i _ _ Hts Hslot). rewrite decide_True; [done|].
      rewrite Nat.sub_0_r in Hspec. destruct Hspec as [(t & Hi & _ & Ha & Hc)|[_ [?|(t & Hi & _ & Ha)]]]; [|done|];
        rewrite lookup_take in Hi; (case_decide; [|done]).
      * left. exists (timer_due t). apply lookup_pending; [done|]. by exists i, t.
      * right. assert (size (pending (timers_ s)) <> TimerCapacity); [|lia].
        intros Heq. pose proof (proj1 Hfull Heq i t Hi ltac:(done)). congruence.
    + destruct Hspec as [_ Hall]. unfold upd_stats. sfields. split; [|done]. rewrite decide_False; [done|].
      intros [[d Hd]|Hlt].
      * apply lookup_pending in Hd as (i & t & Hi & Hlt & _ & Hc & _); [|done].
        by destruct (Hall i t); [rewrite lookup_take_lt|].
      * assert (size (pending (timers_ s)) = TimerCapacity); [|lia]. apply (proj2 Hfull).
        intros i t Hi Hi'. apply (Hall i t). by rewrite lookup_take_lt.
  - unfold cancel_timer, cancel_spec. rewrite Hrun. cbn [negb].
    pose proof (find_timer_spec (Some c) (take TimerCapacity (timers_ s)) 0) as Hspec.
    destruct (find_timer _ 0 _) as [i|].
    + destruct Hspec as (t & Hi & _ & Ha & Hc). rewrite Nat.sub_0_r, lookup_take in Hi. case_decide; [|done].
      match goal with |- context [Rearm ?s1] => destruct (Rearm_armed s1) as (Ht & _ & _ & Harm);
        generalize dependent (Rearm s1); intros s2 Ht Harm end.
      unfold notify. sfields. rewrite Ht. split; [|by eexists].
      rewrite (pending_deactivate c i t _ Hts) by done. rewrite decide_True; [done|].
      exists (timer_due t). apply lookup_pending; [done|]. by exists i, t.
    + sfields. split; [|done]. rewrite decide_False; [done|].
      intros [d (i & t & Hi & Hlt & Ha & Hc & _)%lookup_pending]; [|done].
      by destruct (Hspec i t); [rewrite lookup_take_lt|..].
Qed.

(** ** The timer interrupt *)

Lemma select_timer_spec t_now ts : forall i earliest selected,
  match select_timer t_now i ts earliest selected with
  | sel =>
    (sel = selected /\ (forall t, t ∈ ts -> timer_active t = true -> timer_due t <= t_now -> earliest <= timer_due t)) \/
    (exists j t, sel = Some (i + j)%nat /\ ts !! j = Some t /\ timer_active t = true /\
       timer_due t <= t_now /\ timer_due t < earliest /\
       forall t', t' ∈ ts -> timer_active t' = true -> timer_due t' <= t_now -> timer_due t <= timer_due t')
  end.
Proof.
  induction ts as [|t ts IH]; intros i earliest selected; cbn [select_timer].
  { left. split; [done|]. intros t Ht. by apply elem_of_nil in Ht. }
  destruct (timer_active t && (timer_due t <=? t_now) && (timer_due t <? earliest)) eqn:Hc.
  - apply andb_true_iff in Hc as [[Ha Hle%Z.leb_le]%andb_true_iff Hlt%Z.ltb_lt]. right.
    destruct (IH (S i) (timer_due t) (Some i)) as [[-> Hmin]|(j & u & -> & Hj & ? & ? & ? & Hmin)].
    + exists 0%nat, t. rewrite Nat.add_0_r. split_and!; try done.
      intros u [->|Hin]%elem_of_cons ??; [lia|auto].
    + exists (S j), u. split_and!; try done; [f_equal; lia|lia|].
      intros v [->|Hin]%elem_of_cons ??; [lia|auto].
  - assert (Hhd : timer_active t = true -> timer_due t <= t_now -> earliest <= timer_due t).
    { intros Ha Hle%Z.leb_le. rewrite Ha, Hle in Hc. by apply Z.ltb_ge in Hc. }
    destruct (IH (S i) earliest selected) as [[-> Hmin]|(j & u & -> & Hj & ? & ? & ? & Hmin)].
    + left. split; [done|]. intros v [->|Hin]%elem_of_cons ??; auto.
    + right. exists (S j), u. split_and!; try done; [f_equal; lia|].
      intros v [->|Hin]%elem_of_cons Hv Hd; [specialize (Hhd Hv Hd); lia|auto].
Qed.

(** When the timer interrupt returns, no timer is overdue.  At its last
    reading of the clock every remaining active timer was still in the future
    (or at the sentinel), and the hardware timer is armed for the earliest of
    them, so that no deadline is lost whatever the callbacks did with timers. *)
Theorem Fire_leaves_nothing_due fuel : forall s s',
  state s = Lifecycle.running -> Fire fuel s = Some s' ->
  exists n m, (n < m)%nat /\
    (forall t, t ∈ timers_ s' -> timer_active t = true -> timer_due t <= clock n -> kForever <= timer_due t) /\
    armed_for (earliest_timer kForever (timers_ s')) (clock m) (armed_ s').
Proof.
  induction fuel as [|fuel IH]; intros s s' Hrun; cbn [Fire]; unfold now;
    rewrite (proj2 (in_state_true s _) Hrun); cbn [negb].
  all: set (s1 := s <| clock_count := _ |>); change (timers_ s1) with (timers_ s).
  all: destruct (select_timer_spec (clock (clock_count s)) (timers_ s) 0 kForever None)
         as [[-> Hno]|(j & t & -> & _)]; [|try done].
  1,2: intros [= <-]; destruct (Rearm_armed s1) as (Ht & _ & _ & Harm);
       exists (clock_count s), (S (clock_count s)); split; [lia|]; by rewrite Ht.
  simpl plus. intros Hf. eapply IH; [|exact Hf].
  set (s2 := s1 <| timers_ := _ |>). unfold notify, state. sfields.
  destruct (callback _); [|done]. by rewrite (kept_lifecycle _ _ (proj1 (in_isr_sound _ s2))).
Qed.
End dispatch.
