(* ===== verification/SchedulerExample.v ===== *)
(** * A small application, as an instance of the scheduler's theorems

    One module with two repeating tasks; the first yields, the second records
    that it ran.  Every callback is a concrete program, so the whole life of the
    scheduler evaluates. *)

From S2P Require Import Prelude Foundation StateMachine Match Scheduler SchedulerInv SchedulerLife SchedulerDispatch.

Definition demo_task (i : nat) (a : list nat) : Prog nat (list nat) :=
  match i with
  | O => Call (0%nat :: a) AYield (fun st a => Return st a)
  | _ => Return Status.ok (i :: a)
  end.

#[local] Instance demo : Application nat (list nat) unit := {|
  valueless _ := false;
  EventCapacity := 2; TimerCapacity := 2; yield_limit_ := 2;
  clock n := Z.of_nat n * 10; platform_can_sleep := true; platform_can_stop := true;
  logging := mkLogging false true (fun l => (false, l)) id (fun _ => true) id;
  task_body := demo_task;
  init_body _ _ a := Return Status.ok a;
  event_body _ e a := Return Status.ok (e :: a);
  sleep_body _ a := Return Status.ok a;
  timer_body c a := Return Status.ok (c :: a)
|}.

Definition demo_module : ModuleDescriptor :=
  mkModuleDescriptor 1 (Some [109]) (Some [109])
    [mkTaskDescriptor (Some [97]) (Some 1%nat) 5; mkTaskDescriptor (Some [98]) (Some 2%nat) 1000].

Definition demo_new : @Scheduler nat (list nat) unit := new_scheduler [Some demo_module] tt [].
Definition demo_started := (run_start demo_new).2.
(** After one round the first task is late for the next one. *)
Definition demo_round := (iterate demo_started).2.

Example demo_dispatch :
  (state demo_started, choose 10 demo_started, app demo_round) =
  (Lifecycle.running, ChooseTask 0, [0%nat]).
Proof. vm_compute. reflexivity. Qed.

Lemma demo_wf : wf demo_new.
Proof. apply new_scheduler_wf. Qed.

Lemma demo_reachable : reachable demo_started.
Proof. eapply reachable_step; [apply (reachable_new [Some demo_module] tt [])|apply step_start]. Qed.

Lemma init_runs_stages_in_order_witness :
  state (init demo_new).2 = Lifecycle.ready /\
  exists s1 s2, init_begin demo_new = (Status.ok, s1) /\
    init_trace (init_calls (modules_ s1)) s1 s2 /\ tasks_ (init demo_new).2 = tasks_ s2.
Proof.
  assert (Hok : (init demo_new).1 = Status.ok) by (vm_compute; reflexivity).
  pose proof (init_runs_stages_in_order demo_new demo_wf ltac:(vm_compute; reflexivity)) as H.
  destruct (init demo_new) as [st s']. cbn [fst] in Hok. subst st. exact (proj2 H).
Defined.

Lemma scheduler_invariant_witness :
  wf demo_started /\ (terminal (state demo_started) -> quiescent demo_started).
Proof. exact (scheduler_invariant demo_started demo_reachable). Defined.

Lemma lifecycle_forward_witness :
  (lifecycle_rank (state demo_started) <= lifecycle_rank (state (run_stop demo_started).2))%nat.
Proof. apply (lifecycle_forward demo_started _ demo_reachable (step_stop demo_started ltac:(vm_compute; reflexivity))). Defined.

Lemma demo_spares j a m x : spares m x (demo_task j a).
Proof. by destruct j. Qed.

Lemma repeating_task_cadence_witness :
  due <$> (tasks_ demo_started !! 0%nat) = Some 5 /\
  due <$> (tasks_ (iterate demo_started).2 !! 0%nat) = Some 10.
Proof.
  split; [vm_compute; reflexivity|].
  rewrite (proj2 (repeating_task_cadence demo_started 0 (tasks_ demo_started !!! 0%nat)
    ltac:(vm_compute; reflexivity) ltac:(vm_compute; reflexivity) ltac:(vm_compute; reflexivity)
    ltac:(vm_compute; reflexivity) (fun j a => demo_spares j a _ _))).
  vm_compute. reflexivity.
Defined.

(** A scheduler whose module has no tasks, with one timer pending. *)
Definition demo_plain : ModuleDescriptor := mkModuleDescriptor 2 (Some [110]) (Some [110]) [].
Definition demo_bare : @Scheduler nat (list nat) unit := (run_start (new_scheduler [Some demo_plain] tt [])).2.
Definition demo_timer := (TimerSlot 1000 (Some 7%nat) demo_bare).2.

Lemma demo_timer_reachable : reachable demo_timer.
Proof.
  eapply reachable_step; [|apply (step_call (ATimer 1000 (Some 7%nat)))].
  eapply reachable_step; [apply (reachable_new [Some demo_plain] tt [])|apply step_start].
Qed.
Lemma demo_timer_wf : wf demo_timer.
Proof. apply (reachable_ok _ demo_timer_reachable). Qed.

Lemma idle_covers_deadlines_witness :
  (iterate demo_timer).1 = Idle 1010 true 1 /\
  forall t, t ∈ timers_ (iterate demo_timer).2 -> timer_active t = true -> 1010 <= timer_due t.
Proof.
  assert (H1 : (iterate demo_timer).1 = Idle 1010 true 1) by (vm_compute; reflexivity).
  split; [exact H1|].
  assert (H2 : iterate demo_timer = (Idle 1010 true 1, (iterate demo_timer).2)).
  { rewrite <- H1. by destruct (iterate demo_timer). }
  exact (proj1 (proj2 (idle_covers_deadlines demo_timer 1010 true 1 _ demo_timer_wf H2))).
Defined.

Lemma timers_refine_map_witness :
  let '(st, s') := cancel_timer (Some 7%nat) demo_timer in
  (st, pending (timers_ s')) = cancel_spec 7 (pending (timers_ demo_timer)).
Proof.
  pose proof (proj2 (timers_refine_map demo_timer 7 5 demo_timer_wf ltac:(vm_compute; reflexivity)
    ltac:(lia))) as H.
  exact (proj1 H).
Defined.

(** The timer interrupt once the clock has reached the deadline. *)
Definition demo_late := demo_timer <| clock_count := 200%nat |>.

Lemma Fire_leaves_nothing_due_witness :
  exists s', Fire 3 demo_late = Some s' /\ app s' = [7%nat] /\
  exists n m, (n < m)%nat /\
    (forall t, t ∈ timers_ s' -> timer_active t = true -> timer_due t <= clock n -> kForever <= timer_due t) /\
    armed_for (earliest_timer kForever (timers_ s')) (clock m) (armed_ s').
Proof.
  assert (H : app <$> Fire 3 demo_late = Some [7%nat]) by (vm_compute; reflexivity).
  destruct (Fire 3 demo_late) as [s'|] eqn:Hf; [|discriminate H].
  exists s'. split; [reflexivity|]. split; [injection H as H; exact H|].
  exact (Fire_leaves_nothing_due 3 demo_late s' ltac:(vm_compute; reflexivity) Hf).
Defined.
