(* ===== verification/Flash.v ===== *)
(** * The flash device and its layout (src/lib/boot/flash.h, Layout::valid)

    [Flash D] is the table of callbacks that boot, update and OTP code borrow;
    [D] is the state of the device behind [context].  [FlashContract] is what
    the comment of flash.h promises of such a device, over an abstract view of
    its cells; the clients' theorems are proved against it. *)

From S2P Require Import Prelude Foundation.

Definition kRecordSize : Z := 256.

(** ** Geometry *)

(** A two-element array indexed by slot or bank number. *)
Definition sel {A} (p : A * A) (i : Z) : A := if i =? 0 then fst p else snd p.
Definition set_sel {A} (p : A * A) (i : Z) (x : A) : A * A :=
  if i =? 0 then (x, snd p) else (fst p, x).

Record Layout := mkLayout {
  slots : Z * Z;
  metadata : Z * Z;
  slot_size : Z;
  sector_size : Z;
  write_size : Z;
  product : Z;
  revision : Z;
  operation_timeout : Time
}.

(** The nested loops over [regions]: each region must end inside the 32-bit
    address space and must not overlap an earlier one. *)
Fixpoint regions_disjoint (previous regions : list (Z * Z)) : bool :=
  match regions with
  | [] => true
  | r :: regions =>
      if snd r >? 0x100000000 then false
      else if existsb (fun q => (fst r <? snd q) && (fst q <? snd r)) previous then false
      else regions_disjoint (previous ++ [r]) regions
  end.

Definition Layout_valid (l : Layout) : bool :=
  if (slot_size l =? 0) || (sector_size l =? 0) || (operation_timeout l =? 0) ||
     negb (sector_size l mod kRecordSize =? 0) ||
     (negb (write_size l =? 16) && negb (write_size l =? 32)) ||
     negb (slot_size l mod sector_size l =? 0) || (product l =? 0) || (revision l =? 0)
  then false
  else if existsb (fun i => negb (sel (slots l) i mod sector_size l =? 0) ||
                            negb (sel (metadata l) i mod sector_size l =? 0)) [0; 1]
  then false
  else
    regions_disjoint []
      [(fst (slots l), fst (slots l) + slot_size l);
       (snd (slots l), snd (slots l) + slot_size l);
       (fst (metadata l), fst (metadata l) + sector_size l);
       (snd (metadata l), snd (metadata l) + sector_size l)].

(** ** The callback table

    [flash_valid] is the value of [Flash::valid()], i.e. whether the required
    callbacks are present; the optional one is an [option].  [flash_read d a buf]
    is called with the current contents of the span and returns its contents
    afterwards. *)
Record Flash (D : Type) := mkFlash {
  flash_valid : bool;
  flash_read : D -> Z -> list Z -> Status * list Z * D;
  flash_erase : D -> Z -> Status * D;
  flash_program : D -> Z -> list Z -> Status * D;
  flash_poll : D -> Status * D;
  flash_now : D -> Time * D;
  flash_executing_bank : option (D -> Z)
}.
Arguments mkFlash {D}. Arguments flash_valid {D}. Arguments flash_read {D}.
Arguments flash_erase {D}. Arguments flash_program {D}. Arguments flash_poll {D}.
Arguments flash_now {D}. Arguments flash_executing_bank {D}.

(** ** Cells

    [m a = Some b]: the byte at address [a] reads as [b]; [None]: the cell is
    unreadable (ECC error). *)
Definition Mem := Z -> option Z.

Definition mem_read (m : Mem) (a : Z) (n : nat) : option (list Z) :=
  mapM m (seqZ a (Z.of_nat n)).

Definition mem_ok (m : Mem) : Prop := forall a b, m a = Some b -> is_byte b.

Definition in_block (a n x : Z) : Prop := a <= x < a + n.

Inductive Op := OpErase (a size : Z) | OpProgram (a : Z) (bs : list Z).

Definition op_start (o : Op) : Z :=
  match o with OpErase a _ => a | OpProgram a _ => a end.
Definition op_size (o : Op) : Z :=
  match o with OpErase _ n => n | OpProgram _ bs => Z.of_nat (length bs) end.

(** Cells after a completed operation.  Programming is specified on erased
    cells only: that is the only way the code uses it. *)
Definition op_done (o : Op) (m m' : Mem) : Prop :=
  (forall x, ~ in_block (op_start o) (op_size o) x -> m' x = m x) /\
  match o with
  | OpErase a n => forall x, in_block a n x -> m' x = Some byte_ff
  | OpProgram a bs =>
      (forall x, in_block a (Z.of_nat (length bs)) x -> m x = Some byte_ff) ->
      mem_read m' a (length bs) = Some bs
  end.

(** Cells after an operation that was interrupted (power loss, or an error
    status): a program leaves anything in its unit, including unreadable
    cells; an erase has erased a prefix of its sector, in which cells may be
    unreadable as well. *)
Definition op_torn (o : Op) (m m' : Mem) : Prop :=
  (forall x, ~ in_block (op_start o) (op_size o) x -> m' x = m x) /\
  match o with
  | OpErase a n => exists k, 0 <= k <= n /\
      (forall x, in_block a k x -> m' x = Some byte_ff \/ m' x = None) /\
      (forall x, in_block (a + k) (n - k) x -> m' x = m x)
  | OpProgram a bs => True
  end.

(** ** The contract

    [dev_ok] is the device's own invariant, [covers a n] the addresses it
    serves, [flight] the single operation in progress. *)
Class FlashContract {D} (F : Flash D) (sector write : Z) := {
  dev_ok : D -> Prop;
  view : D -> Mem;
  flight : D -> option Op;
  covers : Z -> Z -> Prop;
  view_ok d : dev_ok d -> mem_ok (view d);
  read_spec d a buf :
    dev_ok d -> flight d = None -> covers a (Z.of_nat (length buf)) ->
    exists st bs d', flash_read F d a buf = (st, bs, d') /\ dev_ok d' /\
      view d' = view d /\ flight d' = None /\ length bs = length buf /\
      match mem_read (view d) a (length buf) with
      | Some out => st = Status.ok /\ bs = out
      | None => st <> Status.ok /\ st <> Status.busy
      end;
  erase_spec d a :
    dev_ok d -> flight d = None ->
    exists st d', flash_erase F d a = (st, d') /\ dev_ok d' /\ view d' = view d /\
      flight d' = if st =s? Status.ok then Some (OpErase a sector) else None;
  program_spec d a bs :
    dev_ok d -> flight d = None -> bytes_ok bs -> Z.of_nat (length bs) = write ->
    exists st d', flash_program F d a bs = (st, d') /\ dev_ok d' /\ view d' = view d /\
      flight d' = if st =s? Status.ok then Some (OpProgram a bs) else None;
  poll_spec d :
    dev_ok d ->
    exists st d', flash_poll F d = (st, d') /\ dev_ok d' /\
      match flight d with
      | None => st <> Status.busy /\ view d' = view d /\ flight d' = None
      | Some o =>
          match st with
          | Status.busy => view d' = view d /\ flight d' = Some o
          | Status.ok => op_done o (view d) (view d') /\ flight d' = None
          | _ => op_torn o (view d) (view d') /\ flight d' = None
          end
      end;
  now_spec d :
    dev_ok d ->
    exists t d', flash_now F d = (t, d') /\ dev_ok d' /\ view d' = view d /\
      flight d' = flight d;
  bank_spec f d : flash_executing_bank F = Some f -> 0 <= f d
}.

(** The clock behind [now_]: reading number [n] returns [time_at n], and the
    other callbacks do not read it. *)
Class FlashClock {D} (F : Flash D) := {
  reads : D -> nat;
  time_at : nat -> Time;
  now_reads d : exists d', flash_now F d = (time_at (reads d), d') /\ reads d' = S (reads d);
  read_reads d a buf : reads (snd (flash_read F d a buf)) = reads d;
  erase_reads d a : reads (snd (flash_erase F d a)) = reads d;
  program_reads d a bs : reads (snd (flash_program F d a bs)) = reads d;
  poll_reads d : reads (snd (flash_poll F d)) = reads d
}.

(** What power loss can leave in the cells at a given moment. *)
Definition crash_image {D} (F : Flash D) {s w} `{!FlashContract F s w} (d : D) (m : Mem) : Prop :=
  mem_ok m /\
  match flight d with
  | None => m = view d
  | Some o => op_torn o (view d) m
  end.

(** ** Facts about cells *)

Lemma mem_read_Some m a n bs :
  mem_read m a n = Some bs <->
  length bs = n /\ forall i, (i < n)%nat -> bs !! i = m (a + Z.of_nat i).
Proof.
  unfold mem_read. rewrite mapM_Some. split.
  - intros H. pose proof H as Hl. apply Forall2_length in Hl. rewrite length_seqZ in Hl.
    split; [lia|]. intros i Hi.
    destruct (lookup_lt_is_Some_2 bs i) as [b Hb]; [lia|].
    destruct (Forall2_lookup_r _ _ _ _ _ H Hb) as (x & Hx & Hm).
    apply lookup_seqZ in Hx as [-> _]. by rewrite Hb, Hm.
  - intros [Hl H]. apply Forall2_same_length_lookup_2.
    { rewrite length_seqZ. lia. }
    intros i x b Hx Hb. apply lookup_seqZ in Hx as [-> Hi].
    rewrite <- H by lia. done.
Qed.

Lemma mem_read_ext m m' a n :
  (forall x, in_block a (Z.of_nat n) x -> m x = m' x) -> mem_read m a n = mem_read m' a n.
Proof.
  intros H. unfold mem_read, in_block in *.
  assert (HF : forall x, x ∈ seqZ a (Z.of_nat n) -> m x = m' x).
  { intros x Hx. apply elem_of_seqZ in Hx. apply H. lia. }
  induction (seqZ a (Z.of_nat n)) as [|x l IH]; simpl; [done|].
  rewrite (HF x) by set_solver. rewrite IH by set_solver. done.
Qed.

Lemma mem_read_nil m a : mem_read m a 0 = Some [].
Proof. done. Qed.

Lemma mem_read_length m a n bs : mem_read m a n = Some bs -> length bs = n.
Proof. intros H. by apply mem_read_Some in H as [? _]. Qed.

Lemma mem_read_bytes m a n bs : mem_ok m -> mem_read m a n = Some bs -> bytes_ok bs.
Proof.
  intros Hm H. apply mem_read_Some in H as [Hl H]. apply Forall_lookup. intros i b Hb.
  eapply Hm. rewrite <- H; [done|]. apply lookup_lt_Some in Hb. lia.
Qed.

Lemma mem_read_sub m a n bs i k :
  mem_read m a n = Some bs -> (i + k <= n)%nat ->
  mem_read m (a + Z.of_nat i) k = Some (sub bs i k).
Proof.
  intros H Hik. apply mem_read_Some in H as [Hl H]. apply mem_read_Some.
  split; [apply length_sub; lia|]. intros j Hj. rewrite lookup_sub, H by lia. f_equal. lia.
Qed.

Lemma mem_read_app m a n k bs cs :
  mem_read m a n = Some bs -> mem_read m (a + Z.of_nat n) k = Some cs ->
  mem_read m a (n + k) = Some (bs ++ cs).
Proof.
  intros H1 H2. apply mem_read_Some in H1 as [Hl1 H1]. apply mem_read_Some in H2 as [Hl2 H2].
  apply mem_read_Some. split; [rewrite length_app; lia|]. intros i Hi.
  destruct (decide (i < n)%nat).
  - rewrite lookup_app_l by lia. by apply H1.
  - rewrite lookup_app_r, H2 by lia. f_equal. lia.
Qed.

Lemma mem_read_split m a n k :
  mem_read m a (n + k) =
  (bs ← mem_read m a n; cs ← mem_read m (a + Z.of_nat n) k; Some (bs ++ cs)).
Proof.
  destruct (mem_read m a n) as [bs|] eqn:H1; simpl.
  - destruct (mem_read m (a + Z.of_nat n) k) as [cs|] eqn:H2; simpl.
    + by apply mem_read_app.
    + destruct (mem_read m a (n + k)) as [l|] eqn:H; [|done].
      pose proof (mem_read_sub _ _ _ _ n k H) as Hs. rewrite Hs in H2 by lia. done.
  - destruct (mem_read m a (n + k)) as [l|] eqn:H; [|done].
    pose proof (mem_read_sub _ _ _ _ 0 n H ltac:(lia)) as Hs. by rewrite Z.add_0_r, H1 in Hs.
Qed.

Lemma op_done_torn o m m' :
  (match o with OpErase _ n => 0 <= n | _ => True end) -> op_done o m m' -> op_torn o m m'.
Proof.
  destruct o as [a n|a bs]; intros Hn [Hout H]; split; try done.
  exists n. split_and!; [lia..| |].
  - intros x Hx. left. by apply H.
  - unfold in_block. intros x Hx. lia.
Qed.
