(* ===== verification/Codec.v ===== *)
(** * Journal records (src/lib/boot/journal.h, encode/decode of journal.cpp)

    The 256-byte little-endian record that makes boot metadata durable: v1 for
    16-byte programming units, v2 with the commit trailer isolated in the last
    32-byte unit.  Besides the round trip, this file proves the fact that the
    power-loss argument rests on: whether a record is accepted is decided by
    its last programming unit alone. *)

From S2P Require Import Prelude Foundation Wire Flash.

(** ** Data *)

Record Version := mkVersion {
  major : Z; minor : Z; build : Z;
  commit : list Z;  (** [char commit[41]] *)
  dirty : bool
}.

Module ImageState.
Inductive ImageState : Set := empty | incomplete | pending | trial | confirmed | rejected.
End ImageState.
Abbreviation ImageState := ImageState.ImageState.
#[global] Instance ImageState_eq_dec : EqDecision ImageState.
Proof. solve_decision. Defined.

Record Image := mkImage {
  installation : Z; image_size : Z; image_crc : Z; image_state : ImageState;
  image_product : Z; image_revision : Z; image_version : Version
}.
#[export] Instance Image_eta : RecordEta Image := fun r =>
  mkImage (installation r) (image_size r) (image_crc r) (image_state r)
          (image_product r) (image_revision r) (image_version r).

Record Snapshot := mkSnapshot { sequence : Z; counter : Z; images : Image * Image }.
#[export] Instance Snapshot_eta : RecordEta Snapshot := fun r =>
  mkSnapshot (sequence r) (counter r) (images r).

Definition no_version : Version := mkVersion 0 0 UINT32_MAX (replicate 41 0) false.
Definition no_image : Image := mkImage 0 0 0 ImageState.empty 0 0 no_version.
Definition no_snapshot : Snapshot := mkSnapshot 0 0 (no_image, no_image).

(** The casts between [ImageState] and [uint32_t]; the second one is applied
    to values already known to be at most [rejected]. *)
Definition state_code (s : ImageState) : Z :=
  match s with
  | ImageState.empty => 0 | ImageState.incomplete => 1 | ImageState.pending => 2
  | ImageState.trial => 3 | ImageState.confirmed => 4 | ImageState.rejected => 5
  end.
Definition state_of_code (c : Z) : ImageState :=
  match c with
  | 0 => ImageState.empty | 1 => ImageState.incomplete | 2 => ImageState.pending
  | 3 => ImageState.trial | 4 => ImageState.confirmed | _ => ImageState.rejected
  end.

(** ** Encoding *)

Definition kMagic : Z := 0x4a534f44.
Definition kCommit : Z := 0x454e4f44.
Definition kCrcOffset : nat := 236.
Definition kCommitOffset : nat := 240.

Definition encode_image (bytes : list Z) (i : nat) (image : Image) : list Z :=
  let at_ := (24 + i * 96)%nat in
  let bytes := write64 bytes at_ (installation image) in
  let bytes := write32 bytes (at_ + 8) (image_size image) in
  let bytes := write32 bytes (at_ + 12) (image_crc image) in
  let bytes := write32 bytes (at_ + 16) (state_code (image_state image)) in
  let bytes := write32 bytes (at_ + 20) (image_product image) in
  let bytes := write32 bytes (at_ + 24) (image_revision image) in
  let bytes := write32 bytes (at_ + 28) (major (image_version image)) in
  let bytes := write32 bytes (at_ + 32) (minor (image_version image)) in
  let bytes := write32 bytes (at_ + 36) (build (image_version image)) in
  let bytes := blit (at_ + 40) (commit (image_version image)) bytes in
  <[(at_ + 81)%nat := Z.b2z (dirty (image_version image))]> bytes.

(** Everything up to the checksum. *)
Definition encode_body (snapshot : Snapshot) (write_size : Z) : list Z :=
  let bytes := replicate 256 0 in
  let bytes := write32 bytes 0 kMagic in
  let bytes := write32 bytes 4 (if write_size =? 32 then 2 else 1) in
  let bytes := write64 bytes 8 (sequence snapshot) in
  let bytes := write64 bytes 16 (counter snapshot) in
  let bytes := encode_image bytes 0 (fst (images snapshot)) in
  encode_image bytes 1 (snd (images snapshot)).

Definition encode (snapshot : Snapshot) (write_size : Z) : list Z :=
  let crc_offset := if write_size =? 32 then 220%nat else kCrcOffset in
  let commit_offset := if write_size =? 32 then 224%nat else kCommitOffset in
  let bytes := encode_body snapshot write_size in
  let bytes := write32 bytes crc_offset (crc32_calculate (sub bytes 0 crc_offset)) in
  let bytes := write32 bytes commit_offset kCommit in
  let bytes := write64 bytes (commit_offset + 4) (sequence snapshot) in
  write32 bytes (commit_offset + 12) (not32 kCommit).

(** ** Decoding *)

Definition decode_image (bytes : list Z) (counter : Z) (i : nat) : option Image :=
  let at_ := (24 + i * 96)%nat in
  let installation := read64 bytes at_ in
  let state := read32 bytes (at_ + 16) in
  if (state >? state_code ImageState.rejected) || (installation >? counter) then None
  else Some
    (mkImage installation (read32 bytes (at_ + 8)) (read32 bytes (at_ + 12))
       (state_of_code state) (read32 bytes (at_ + 20)) (read32 bytes (at_ + 24))
       (mkVersion (read32 bytes (at_ + 28)) (read32 bytes (at_ + 32)) (read32 bytes (at_ + 36))
          (<[40%nat := 0]> (sub bytes (at_ + 40) 41))
          (negb (bytes !!! (at_ + 81)%nat =? 0)))).

(** The framing tests of [decode]: magic, version, commit trailer, checksum and
    the reserved bytes of v2. *)
Definition framed (bytes : list Z) : bool :=
  let version := read32 bytes 4 in
  let crc_offset := if version =? 2 then 220%nat else kCrcOffset in
  let commit_offset := if version =? 2 then 224%nat else kCommitOffset in
  if negb (read32 bytes 0 =? kMagic) || (negb (version =? 1) && negb (version =? 2)) ||
     negb (read32 bytes commit_offset =? kCommit) ||
     negb (read32 bytes (commit_offset + 12) =? not32 kCommit) ||
     negb (read64 bytes (commit_offset + 4) =? read64 bytes 8) ||
     negb (read32 bytes crc_offset =? crc32_calculate (sub bytes 0 crc_offset))
  then false
  else if (version =? 2) && negb (all_eq 0 (drop 240 bytes)) then false
  else true.

(** [decode] returns the snapshot it would store through its reference. *)
Definition decode (bytes : list Z) : option Snapshot :=
  if negb (framed bytes) then None
  else
    let sequence := read64 bytes 8 in
    let counter := read64 bytes 16 in
    if sequence =? 0 then None
    else
      match decode_image bytes counter 0 with
      | None => None
      | Some image0 =>
          match decode_image bytes counter 1 with
          | None => None
          | Some image1 => Some (mkSnapshot sequence counter (image0, image1))
          end
      end.

(** ** Well-formed snapshots: the ranges of the C++ member types, a terminated
    commit string, and the relations [decode] insists on. *)

Record version_ok (v : Version) : Prop := {
  vok_major : is_u32 (major v); vok_minor : is_u32 (minor v); vok_build : is_u32 (build v);
  vok_commit : bytes_ok (commit v); vok_length : length (commit v) = 41%nat;
  vok_terminated : commit v !! 40%nat = Some 0
}.

Record image_ok (i : Image) : Prop := {
  iok_installation : is_u64 (installation i); iok_size : is_u32 (image_size i);
  iok_crc : is_u32 (image_crc i); iok_product : is_u32 (image_product i);
  iok_revision : is_u32 (image_revision i); iok_version : version_ok (image_version i)
}.

Record snapshot_ok (s : Snapshot) : Prop := {
  sok_sequence : is_u64 (sequence s); sok_counter : is_u64 (counter s);
  sok_nonzero : sequence s <> 0;
  sok_image0 : image_ok (fst (images s)); sok_image1 : image_ok (snd (images s));
  sok_installed0 : installation (fst (images s)) <= counter s;
  sok_installed1 : installation (snd (images s)) <= counter s
}.

Lemma state_code_range s : is_u32 (state_code s).
Proof. destruct s; by split. Qed.
Lemma state_of_state_code s : state_of_code (state_code s) = s.
Proof. by destruct s. Qed.
Lemma kMagic_u32 : is_u32 kMagic.
Proof. by split. Qed.
Lemma kCommit_u32 : is_u32 kCommit.
Proof. by split. Qed.
Lemma not_kCommit_u32 : is_u32 (not32 kCommit).
Proof. apply not32_u32, kCommit_u32. Qed.
#[export] Hint Resolve state_code_range kMagic_u32 kCommit_u32 not_kCommit_u32 : wf.

Lemma length_encode_image b i im : length (encode_image b i im) = length b.
Proof.
  unfold encode_image. rewrite length_insert, length_blit, !length_write32, length_write64. done.
Qed.

Lemma b2z_byte b : is_byte (Z.b2z b).
Proof. destruct b; by split. Qed.

Lemma encode_image_ok b i im : bytes_ok b -> image_ok im -> bytes_ok (encode_image b i im).
Proof.
  intros Hb [_ _ _ _ _ []]. unfold encode_image.
  apply Forall_insert; [|apply b2z_byte]. apply Forall_blit; [done|]. auto 20 with wf.
Qed.

Lemma length_encode_body s w : length (encode_body s w) = 256%nat.
Proof.
  unfold encode_body. rewrite !length_encode_image, !length_write64, !length_write32.
  apply length_replicate.
Qed.

Lemma encode_body_ok s w : snapshot_ok s -> bytes_ok (encode_body s w).
Proof.
  intros []. unfold encode_body. do 2 (apply encode_image_ok; [|done]).
  assert (bytes_ok (replicate 256 0)) by (by apply Forall_replicate). auto 20 with wf.
Qed.

Lemma length_encode s w : length (encode s w) = 256%nat.
Proof.
  unfold encode. rewrite length_write32, length_write64, !length_write32. apply length_encode_body.
Qed.

Lemma encode_ok s w : snapshot_ok s -> bytes_ok (encode s w).
Proof. intros Hs%(encode_body_ok s w). unfold encode. auto 20 with wf. Qed.

(** ** Round trip *)

(** [agree l l' a b]: the arrays hold the same bytes on [[a, b)]. *)
Definition agree (l l' : list Z) (a b : nat) : Prop :=
  forall j, (a <= j < b)%nat -> l !! j = l' !! j.

Lemma agree_read32 l l' a b i :
  agree l l' a b -> (a <= i)%nat -> (i + 4 <= b)%nat -> read32 l i = read32 l' i.
Proof. intros H ? ?. apply read32_ext. intros. apply H. lia. Qed.
Lemma agree_read64 l l' a b i :
  agree l l' a b -> (a <= i)%nat -> (i + 8 <= b)%nat -> read64 l i = read64 l' i.
Proof. intros H ? ?. unfold read64. by rewrite !(agree_read32 l l' a b) by (done || lia). Qed.
Lemma agree_sub l l' a b i n :
  agree l l' a b -> (a <= i)%nat -> (i + n <= b)%nat -> sub l i n = sub l' i n.
Proof. intros H ? ?. apply sub_ext. intros. apply H. lia. Qed.
Lemma agree_byte l l' a b i :
  agree l l' a b -> (a <= i < b)%nat -> l !!! i = l' !!! i.
Proof. intros H ?. by rewrite !list_lookup_total_alt, H. Qed.

Lemma decode_image_ext l l' c i :
  agree l l' (24 + i * 96) (24 + i * 96 + 82) -> decode_image l c i = decode_image l' c i.
Proof.
  intros H. unfold decode_image.
  rewrite !(agree_read32 _ _ _ _ _ H) by lia. rewrite !(agree_read64 _ _ _ _ _ H) by lia.
  rewrite !(agree_sub _ _ _ _ _ _ H) by lia. by rewrite !(agree_byte _ _ _ _ _ H) by lia.
Qed.

Lemma decode_encode_image b c i im :
  (24 + i * 96 + 82 <= length b)%nat -> image_ok im -> installation im <= c ->
  decode_image (encode_image b i im) c i = Some im.
Proof.
  intros Hlen [] Hc. destruct iok_version0. destruct im as [ins sz cr st pr rv [mj mn bd cm dt]].
  unfold decode_image, encode_image. generalize dependent (24 + i * 96)%nat. intros at_ Hlen.
  cbn in *. field_simpl.
  destruct (Z.gtb_spec (state_code st) 5) as [Hst|_]; [destruct st; cbn in Hst; lia|].
  destruct (Z.gtb_spec ins c); [lia|]. cbn [orb].
  rewrite sub_blit_same by field_side. rewrite state_of_state_code.
  rewrite <- (insert_blit cm 40 0), list_insert_id by done. do 3 f_equal.
  rewrite list_lookup_total_alt, lookup_blit_in by field_side.
  rewrite Nat.sub_diag. by destruct dt.
Qed.

Lemma agree_refl l a b : agree l l a b.
Proof. by intros ?. Qed.
Lemma agree_trans l1 l2 l3 a b : agree l1 l2 a b -> agree l2 l3 a b -> agree l1 l3 a b.
Proof. intros H1 H2 j Hj. by rewrite H1, H2. Qed.
Lemma agree_blit i k l a b :
  (i + length k <= a \/ b <= i)%nat -> agree (blit i k l) l a b.
Proof. intros H j Hj. apply lookup_blit_out. lia. Qed.

Lemma agree_encode_image l i im a b :
  length (commit (image_version im)) = 41%nat ->
  (24 + i * 96 + 82 <= a \/ b <= 24 + i * 96)%nat -> agree (encode_image l i im) l a b.
Proof.
  intros Hc Hd. unfold encode_image. rewrite write64_blit, !write32_blit, insert_blit.
  repeat (eapply agree_trans; [apply agree_blit; rewrite ?length_le_bytes, ?Hc; simpl length; lia|]).
  apply agree_refl.
Qed.

(** The checksum and the trailer touch nothing below the checksum. *)
Lemma encode_agree s w :
  let crc_offset := if w =? 32 then 220%nat else kCrcOffset in
  agree (encode s w) (encode_body s w) 0 crc_offset.
Proof.
  unfold encode, kCommitOffset, kCrcOffset. rewrite write64_blit, !write32_blit.
  destruct (w =? 32);
    repeat (eapply agree_trans; [apply agree_blit; rewrite ?length_le_bytes; lia|]);
    apply agree_refl.
Qed.

(** The header fields, before the images are written. *)
Definition header_bytes (s : Snapshot) (w : Z) : list Z :=
  write64 (write64 (write32 (write32 (replicate 256 0) 0 kMagic) 4 (if w =? 32 then 2 else 1))
    8 (sequence s)) 16 (counter s).

Lemma encode_header_agree s w :
  snapshot_ok s -> agree (encode s w) (header_bytes s w) 0 24.
Proof.
  intros []. destruct sok_image2 as [_ _ _ _ _ []], sok_image3 as [_ _ _ _ _ []].
  apply (agree_trans _ (encode_body s w)).
  { intros j Hj. apply encode_agree. unfold kCrcOffset. destruct (w =? 32); lia. }
  unfold encode_body. do 2 (eapply agree_trans; [apply agree_encode_image; [done|lia]|]).
  apply agree_refl.
Qed.

Lemma encode_version s w : snapshot_ok s -> read32 (encode s w) 4 = if w =? 32 then 2 else 1.
Proof.
  intros Hs. pose proof (encode_header_agree s w Hs) as H.
  rewrite (agree_read32 _ _ _ _ _ H) by lia.
  assert (is_u32 (if w =? 32 then 2 else 1)) by (destruct (w =? 32); by split).
  unfold header_bytes. by field_simpl.
Qed.

Lemma encode_header s w :
  snapshot_ok s ->
  read32 (encode s w) 0 = kMagic /\ read64 (encode s w) 8 = sequence s /\
  read64 (encode s w) 16 = counter s.
Proof.
  intros Hs. pose proof (encode_header_agree s w Hs) as H.
  rewrite (agree_read32 _ _ _ _ _ H), !(agree_read64 _ _ _ _ _ H) by lia. destruct Hs.
  unfold header_bytes. split_and!; by field_simpl.
Qed.

Lemma encode_trailer s w :
  snapshot_ok s ->
  let crc_offset := if w =? 32 then 220%nat else kCrcOffset in
  let commit_offset := if w =? 32 then 224%nat else kCommitOffset in
  read32 (encode s w) commit_offset = kCommit /\
  read32 (encode s w) (commit_offset + 12) = not32 kCommit /\
  read64 (encode s w) (commit_offset + 4) = sequence s /\
  read32 (encode s w) crc_offset = crc32_calculate (sub (encode s w) 0 crc_offset).
Proof.
  intros Hs ? ?. pose proof (encode_agree s w) as Ha.
  rewrite (agree_sub _ _ _ _ 0 crc_offset Ha) by lia.
  assert (is_u64 (sequence s)) by apply Hs. pose proof (encode_body_ok s w Hs).
  assert (is_u32 (crc32_calculate (sub (encode_body s w) 0 crc_offset))) by auto with wf.
  unfold encode. fold crc_offset commit_offset.
  pose proof (length_encode_body s w). unfold commit_offset, crc_offset, kCommitOffset, kCrcOffset in *.
  destruct (w =? 32); split_and!; by field_simpl.
Qed.

Lemma encode_reserved s : snapshot_ok s -> drop 240 (encode s 32) = replicate 16 0.
Proof.
  intros Hs. transitivity (sub (encode s 32) 240 16).
  { unfold sub. rewrite take_ge; [done|]. rewrite length_drop, length_encode. lia. }
  destruct Hs. destruct sok_image2 as [_ _ _ _ _ []], sok_image3 as [_ _ _ _ _ []].
  unfold encode, encode_body, encode_image. change (32 =? 32) with true. cbn [fst snd].
  field_simpl. reflexivity.
Qed.

Lemma framed_encode s w : snapshot_ok s -> framed (encode s w) = true.
Proof.
  intros Hs. destruct (encode_header s w Hs) as (Hm & Hseq & _).
  destruct (encode_trailer s w Hs) as (Hc & Hn & Hs2 & Hcrc).
  unfold framed. rewrite (encode_version s w Hs), Hm, Hseq.
  destruct (w =? 32) eqn:E; cbn in *; unfold kCommitOffset, kCrcOffset in *; cbn in *;
    rewrite Hc, Hn, Hs2, Hcrc, !Z.eqb_refl; cbn; [|done].
  apply Z.eqb_eq in E. subst w. by rewrite encode_reserved.
Qed.

Lemma decode_encode_same s w : snapshot_ok s -> decode (encode s w) = Some s.
Proof.
  intros Hs. unfold decode. rewrite framed_encode by done. cbn [negb].
  destruct (encode_header s w Hs) as (_ & -> & ->).
  pose proof (encode_agree s w) as Ha.
  assert (Hb : agree (encode s w) (encode_body s w) 0 220).
  { intros j Hj. apply Ha. unfold kCrcOffset. destruct (w =? 32); lia. }
  pose proof Hs as Hs0. destruct Hs. destruct (Z.eqb_spec (sequence s) 0); [done|].
  assert (H1 : decode_image (encode s w) (counter s) 1 = Some (snd (images s))).
  { erewrite decode_image_ext; [|intros j Hj; apply Hb; lia].
    unfold encode_body. apply decode_encode_image; [|done..].
    rewrite length_encode_image, !length_write64, !length_write32, length_replicate. lia. }
  assert (H0 : decode_image (encode s w) (counter s) 0 = Some (fst (images s))).
  { destruct sok_image3 as [_ _ _ _ _ []].
    erewrite decode_image_ext; [|intros j Hj; rewrite Hb by lia; apply agree_encode_image with (a := 0%nat) (b := 120%nat); lia].
    apply decode_encode_image; [|done..].
    rewrite !length_write64, !length_write32, length_replicate. lia. }
  rewrite H0, H1. by destruct s as [? ? []].
Qed.

(** The journal codec is lossless: decoding an encoded snapshot gives back
    exactly that snapshot, in the v1 and in the v2 format. *)
Theorem decode_encode s w : snapshot_ok s -> decode (encode s w) = Some s.
Proof. apply decode_encode_same. Qed.

Definition sample_version : Version := mkVersion 1 2 3 (replicate 41 0) true.
Definition sample_snapshot : Snapshot :=
  mkSnapshot 7 5 (mkImage 4 1000 99 ImageState.confirmed 1 1 sample_version,
                  mkImage 5 2000 77 ImageState.pending 1 1 sample_version).

Lemma sample_snapshot_ok : snapshot_ok sample_snapshot.
Proof.
  assert (version_ok sample_version).
  { split; first [by split | done | by apply (bool_decide_unpack _)]. }
  split; first [by split | done | split; first [by split | done]].
Qed.

Lemma decode_encode_witness : decode (encode sample_snapshot 16) = Some sample_snapshot.
Proof. apply (decode_encode sample_snapshot 16), sample_snapshot_ok. Defined.

(** ** What is decoded is well-formed *)

Lemma decode_image_ok r c i im :
  bytes_ok r -> length r = 256%nat -> (i < 2)%nat -> decode_image r c i = Some im ->
  image_ok im /\ installation im <= c.
Proof.
  intros Hok Hlen Hi. unfold decode_image. set (at_ := (24 + i * 96)%nat). assert (at_ + 96 <= 216)%nat by lia.
  clearbody at_. destruct (_ || _) eqn:E; [discriminate|]. intros [= <-]. breflect.
  split; [|cbn [installation]; lia].
  split; cbn; try (apply read32_range; [done|lia]); [apply read64_range; [done|lia]|].
  split; cbn; try (apply read32_range; [done|lia]).
  - apply Forall_insert; [by apply Forall_sub|by split].
  - rewrite length_insert, length_sub by lia. done.
  - rewrite list_lookup_insert_eq; [done|]. rewrite length_sub by lia. lia.
Qed.

Lemma decode_snapshot_ok r s :
  bytes_ok r -> length r = 256%nat -> decode r = Some s -> snapshot_ok s.
Proof.
  intros Hok Hlen. unfold decode. destruct (framed r); cbn [negb]; [|discriminate].
  destruct (Z.eqb_spec (read64 r 8) 0); [discriminate|].
  destruct (decode_image r (read64 r 16) 0) as [i0|] eqn:E0; [|discriminate].
  destruct (decode_image r (read64 r 16) 1) as [i1|] eqn:E1; [|discriminate].
  apply decode_image_ok in E0 as [? ?]; [|done|done|lia].
  apply decode_image_ok in E1 as [? ?]; [|done|done|lia].
  intros [= <-]. split; cbn; try done; apply read64_range; (done || lia).
Qed.

(** ** Acceptance is decided by the last programming unit *)

Lemma framed_inv r :
  framed r = true ->
  let crc_offset := if read32 r 4 =? 2 then 220%nat else kCrcOffset in
  let commit_offset := if read32 r 4 =? 2 then 224%nat else kCommitOffset in
  read32 r 0 = kMagic /\ (read32 r 4 = 1 \/ read32 r 4 = 2) /\
  read32 r commit_offset = kCommit /\ read32 r (commit_offset + 12) = not32 kCommit /\
  read64 r (commit_offset + 4) = read64 r 8 /\
  (read32 r 4 = 2 -> all_eq 0 (drop 240 r) = true).
Proof.
  unfold framed. intros H. set (v := read32 r 4) in *. cbn zeta in *.
  destruct (_ || _ || _ || _ || _ || _) eqn:E; [done|]. breflect.
  split_and!; [done| |done..|].
  - destruct (v =? 1) eqn:?; [lia|]. destruct (v =? 2) eqn:?; [lia|done].
  - intros Hv. rewrite Hv in H. cbn in H. by destruct (all_eq _ _).
Qed.

(** The bytes of a trailer determine it. *)
Lemma trailer_bytes r at_ seq :
  bytes_ok r -> (at_ + 16 <= length r)%nat -> is_u64 seq ->
  read32 r at_ = kCommit -> read64 r (at_ + 4) = seq -> read32 r (at_ + 12) = not32 kCommit ->
  sub r at_ 16 = le_bytes 4 kCommit ++ le_bytes 8 seq ++ le_bytes 4 (not32 kCommit).
Proof.
  intros Hok Hlen Hseq H1 H2 H3.
  apply read32_le in H1; [|done|lia|auto with wf]. apply read64_le in H2; [|done|lia|done].
  apply read32_le in H3; [|done|lia|auto with wf].
  change 16%nat with (4 + (8 + 4))%nat. rewrite !sub_app, <- Nat.add_assoc.
  change (4 + 8)%nat with 12%nat. congruence.
Qed.

Lemma agree_full l l' n :
  length l = n -> length l' = n -> agree l l' 0 n -> l = l'.
Proof.
  intros H1 H2 H. apply list_eq. intros j. destruct (decide (j < n)%nat); [apply H; lia|].
  rewrite !lookup_ge_None_2 by lia. done.
Qed.

Lemma agree_sub_eq l l' i n :
  sub l i n = sub l' i n -> agree l l' i (i + n).
Proof.
  intros H j Hj. replace j with (i + (j - i))%nat by lia.
  rewrite <- !(lookup_sub _ i n) by lia. by rewrite H.
Qed.

Lemma agree_join l l' a b c : agree l l' a b -> agree l l' b c -> agree l l' a c.
Proof. intros H1 H2 j Hj. destruct (decide (j < b)%nat); [apply H1|apply H2]; lia. Qed.

(** The format of a record matches a programming unit of [w] bytes. *)
Definition fits (w : Z) (r : list Z) : Prop := read32 r 4 = if w =? 32 then 2 else 1.

Lemma torn_last_unit w r0 r :
  framed r0 = true -> fits w r0 -> bytes_ok r0 -> length r0 = 256%nat ->
  (w = 16 \/ w = 32) -> bytes_ok r -> length r = 256%nat ->
  agree r r0 0 (256 - Z.to_nat w) -> framed r = true -> r = r0.
Proof.
  intros Hf0 Hfit Hok0 Hlen0 Hw Hok Hlen Hag Hf.
  pose proof (framed_inv _ Hf) as (_ & _ & Hc & Hn & Hseq & Hz).
  pose proof (framed_inv _ Hf0) as (_ & _ & Hc0 & Hn0 & Hseq0 & Hz0).
  assert (Hv : read32 r 4 = read32 r0 4) by (apply (agree_read32 _ _ _ _ _ Hag); lia).
  assert (H8 : read64 r 8 = read64 r0 8) by (apply (agree_read64 _ _ _ _ _ Hag); lia).
  unfold fits in Hfit. rewrite H8 in Hseq. rewrite Hv, Hfit in *.
  assert (Hu : is_u64 (read64 r0 8)) by (apply read64_range; [done|lia]).
  apply (agree_full _ _ 256); [done..|]. eapply agree_join; [exact Hag|].
  destruct Hw as [-> | ->]; cbn in *; unfold kCommitOffset in *; cbn in *.
  - apply (agree_sub_eq _ _ 240 16).
    rewrite (trailer_bytes r 240 (read64 r0 8)), (trailer_bytes r0 240 (read64 r0 8)); by (done || lia).
  - apply (agree_join _ _ _ 240).
    + apply (agree_sub_eq _ _ 224 16).
      rewrite (trailer_bytes r 224 (read64 r0 8)), (trailer_bytes r0 224 (read64 r0 8)); by (done || lia).
    + specialize (Hz eq_refl). specialize (Hz0 eq_refl). apply all_eq_replicate in Hz, Hz0.
      rewrite length_drop, Hlen in Hz. rewrite length_drop, Hlen0 in Hz0.
      intros j Hj. replace j with (240 + (j - 240))%nat by lia.
      rewrite <- !lookup_drop, Hz, Hz0. done.
Qed.

(** Whatever an interrupted write leaves in the last programming unit of a
    record, the result is rejected unless it is, byte for byte, the complete
    record.  No assumption about checksum collisions is involved. *)
Theorem torn_last_unit_all_or_nothing s w r :
  snapshot_ok s -> (w = 16 \/ w = 32) ->
  bytes_ok r -> length r = 256%nat ->
  agree r (encode s w) 0 (256 - Z.to_nat w) ->
  framed r = true -> r = encode s w.
Proof.
  intros Hs Hw Hok Hlen Hag Hf.
  apply (torn_last_unit w); auto using framed_encode, encode_ok, length_encode.
  apply encode_version, Hs.
Qed.

Lemma torn_last_unit_all_or_nothing_witness :
  encode sample_snapshot 16 = encode sample_snapshot 16.
Proof.
  apply (torn_last_unit_all_or_nothing sample_snapshot 16 (encode sample_snapshot 16)).
  - apply sample_snapshot_ok.
  - by left.
  - apply encode_ok, sample_snapshot_ok.
  - apply length_encode.
  - apply agree_refl.
  - vm_compute. reflexivity.
Defined.

(** Erased cells read as 0xffffffff, which is neither the magic nor the trailer. *)
Lemma read32_erased r i :
  (forall j, (i <= j < i + 4)%nat -> r !! j = Some byte_ff) -> read32 r i = UINT32_MAX.
Proof.
  intros H. unfold read32. cbn [seq foldl]. rewrite !list_lookup_total_alt, !H by lia.
  vm_compute. done.
Qed.

Lemma erased_start_rejected r :
  bytes_ok r -> (4 <= length r)%nat -> r !! 0%nat = Some byte_ff -> framed r = false.
Proof.
  intros Hok Hlen H0. apply not_true_iff_false. intros Hf.
  pose proof (framed_inv _ Hf) as (Hm & _).
  apply read32_le in Hm; [|done|done|auto with wf].
  apply (f_equal (fun l => l !! 0%nat)) in Hm. rewrite lookup_sub in Hm by lia.
  cbn in Hm. rewrite H0 in Hm. discriminate.
Qed.

(** A record whose last unit has not been started is rejected, even if the unit
    being written holds garbage. *)
Lemma partial_rejected (w : nat) r0 r o :
  fits (Z.of_nat w) r0 -> (w = 16%nat \/ w = 32%nat) -> (o + w <= 256 - w)%nat ->
  (o = 0 \/ w <= o)%nat -> agree r r0 0 o ->
  (forall j, (o + w <= j < 256)%nat -> r !! j = Some byte_ff) ->
  framed r = false.
Proof.
  intros Hfit Hw Ho Ho0 Hag Hff. apply not_true_iff_false. intros Hf.
  pose proof (framed_inv _ Hf) as (_ & _ & Hc & _).
  assert (Hv : o = 0%nat \/ read32 r 4 = if Z.of_nat w =? 32 then 2 else 1).
  { destruct Ho0 as [?|?]; [by left|right]. rewrite <- Hfit.
    apply (agree_read32 _ _ _ _ _ Hag); lia. }
  assert (Hcommit : UINT32_MAX = kCommit); [|discriminate].
  rewrite <- Hc. symmetry. apply read32_erased. intros j Hj. apply Hff.
  unfold kCommitOffset in *.
  destruct Hv as [->|Hv]; [revert Hj; destruct (read32 r 4 =? 2); cbn; lia|].
  rewrite Hv in Hj. revert Hj. destruct Hw as [-> | ->].
  - change (Z.of_nat 16 =? 32) with false. cbn. lia.
  - change (Z.of_nat 32 =? 32) with true. cbn. lia.
Qed.
