(* ===== verification/Journal.v ===== *)
(** * The boot journal (src/lib/boot/journal.h, journal.cpp)

    Two independently erasable metadata sectors hold 256-byte records; the
    newest valid one is the current snapshot.  This file is the translation of
    the class: [load], [begin], [tick] with its state machine, the foreground
    loops [commit] and [prepare_runtime].  The flash callbacks and the layout
    are the section's parameters, [D] is the state of the flash device. *)

From S2P Require Import Prelude Foundation Wire StateMachine Flash Codec.

Module State.
Inductive State : Set :=
  | idle | erase | erase_wait | write | write_wait | verify | done | failed.
End State.
Abbreviation State := State.State.
#[global] Instance State_eq_dec : EqDecision State.
Proof. solve_decision. Defined.
#[export] Instance State_enum : StateEnum State := {|
  state_index (s : State) := match s with
    | State.idle => 0 | State.erase => 1 | State.erase_wait => 2 | State.write => 3
    | State.write_wait => 4 | State.verify => 5 | State.done => 6 | State.failed => 7
    end%nat;
  state_count := 8%nat
|}.

Record Journal := mkJournal {
  record_ : list Z;
  pending_record_ : list Z;
  pending_target_ : Z;
  checkpoint_ : bool;
  erase_only_ : bool;
  machine_ : Machine State;
  status_ : Status;
  target_ : Z;
  latest_ : Z;
  offset_ : Z;
  operation_started_ : Time;
  requested_ : bool;
  erase_needed_ : bool;
  timed_out_ : bool
}.
#[export] Instance Journal_eta : RecordEta Journal := fun j =>
  mkJournal (record_ j) (pending_record_ j) (pending_target_ j) (checkpoint_ j)
    (erase_only_ j) (machine_ j) (status_ j) (target_ j) (latest_ j) (offset_ j)
    (operation_started_ j) (requested_ j) (erase_needed_ j) (timed_out_ j).

Definition new_journal : Journal :=
  mkJournal (replicate 256 0) (replicate 256 0) 0 false false (initial_machine State.idle)
    Status.ok 0 0 0 0 false false false.

#[export] Instance Journal_machine D : HasMachine (Journal * D) State := {|
  machine w := machine_ (fst w);
  with_machine m w := ((fst w) <| machine_ := m |>, snd w)
|}.
#[export] Instance Journal_machine_laws D : HasMachineLaws (Journal * D) State.
Proof. split; [done|done|by intros [[] ?]]. Qed.

Section journal.
Context {D : Type} (F : Flash D) (layout : Layout).

(** [Erased]: header first, then the rest of the record. *)
Definition Erased (d : D) (address : Z) : bool * D :=
  let '(st, header, d) := flash_read F d address (replicate 16 0) in
  if negb (st =s? Status.ok) || negb (all_eq byte_ff header) then (false, d)
  else
    let '(st, rest, d) := flash_read F d (u32 (address + 16)) (replicate 240 0) in
    ((st =s? Status.ok) && all_eq byte_ff rest, d).

(** ** load *)

(** The locals of [load] that survive an iteration, with the member [latest_]. *)
Record Scan := mkScan {
  best : Snapshot; best_record : list Z; found : bool; read_failed : bool; scan_latest : Z
}.

(** One iteration of the inner loop; [true] is the early [checksum_error] return. *)
Definition scan_record (address : Z) (acc : Scan) (d : D) : bool * Scan * D :=
  let '(st, header, d) := flash_read F d address (replicate 16 0) in
  if negb (st =s? Status.ok) then
    (false, mkScan (best acc) (best_record acc) (found acc) true (scan_latest acc), d)
  else if negb (read32 header 0 =? kMagic) ||
          (negb (read32 header 4 =? 1) && negb (read32 header 4 =? 2)) then (false, acc, d)
  else if found acc && (read64 header 8 <? sequence (best acc)) then (false, acc, d)
  else
    let '(st, rest, d) := flash_read F d (u32 (address + 16)) (replicate 240 0) in
    if negb (st =s? Status.ok) then
      (false, mkScan (best acc) (best_record acc) (found acc) true (scan_latest acc), d)
    else
      let bytes := header ++ rest in
      match decode bytes with
      | None => (false, acc, d)
      | Some candidate =>
          if found acc && (sequence candidate =? sequence (best acc)) &&
             negb (bool_decide (bytes = best_record acc)) then (true, acc, d)
          else if negb (found acc) || (sequence candidate >? sequence (best acc)) then
            (false, mkScan candidate bytes true (read_failed acc) address, d)
          else (false, acc, d)
      end.

(** The loop [for (remaining = sector_size; remaining; remaining -= kRecordSize)]
    with [remaining = kRecordSize * n]. *)
Fixpoint scan_sector (n : nat) (sector : Z) (acc : Scan) (d : D) : bool * Scan * D :=
  match n with
  | O => (false, acc, d)
  | S n =>
      let offset := kRecordSize * Z.of_nat n in
      let '(conflict, acc, d) := scan_record (u32 (sector + offset)) acc d in
      if (conflict : bool) then (true, acc, d) else scan_sector n sector acc d
  end.

Definition records_per_sector : nat := Z.to_nat (sector_size layout / kRecordSize).

Definition load (j : Journal) (d : D) (snapshot : Snapshot) : Status * Snapshot * Journal * D :=
  if negb (flash_valid F) || negb (Layout_valid layout)
  then (Status.invalid_argument, snapshot, j, d)
  else
    let '(st, d) := flash_poll F d in
    if st =s? Status.busy then (Status.busy, snapshot, j, d)
    else
      let acc := mkScan no_snapshot (replicate 256 0) false false (latest_ j) in
      let '(conflict, acc, d) := scan_sector records_per_sector (fst (metadata layout)) acc d in
      if (conflict : bool)
      then (Status.checksum_error, snapshot, j <| latest_ := scan_latest acc |>, d)
      else
        let '(conflict, acc, d) := scan_sector records_per_sector (snd (metadata layout)) acc d in
        let j := j <| latest_ := scan_latest acc |> in
        if (conflict : bool) then (Status.checksum_error, snapshot, j, d)
        else if negb (found acc) then
          (if read_failed acc then Status.io_error else Status.not_found, snapshot, j, d)
        else (Status.ok, best acc, j, d).

(** ** begin *)

(** The loops that look for an erased record from [at_] on: [wrap] is the width
    of the loop variable ([uint32_t] in [free_record], [size_t] elsewhere).
    [None]: the loop ran off the limit. *)
Fixpoint find_erased (wrap : Z -> Z) (fuel : nat) (at_ limit : Z) (d : D) : option Z * D :=
  match fuel with
  | O => (None, d)
  | S fuel =>
      if at_ <? limit then
        let '(e, d) := Erased d (u32 at_) in
        if (e : bool) then (Some at_, d)
        else find_erased wrap fuel (wrap (at_ + kRecordSize)) limit d
      else (None, d)
  end.

Definition sector_limit (bank : Z) : Z := sel (metadata layout) bank + sector_size layout.
Definition scan_fuel : nat := S records_per_sector.

Definition free_record (bank : Z) (d : D) : Z * D :=
  let '(r, d) := find_erased u32 scan_fuel (sel (metadata layout) bank) (sector_limit bank) d in
  (default UINT32_MAX r, d).

(** Where the record goes when no bank is executing. *)
Definition place_offline (loaded : Status) (j : Journal) (d : D) : Journal * D :=
  let j := j <| erase_needed_ := true |> <| target_ := fst (metadata layout) |> in
  if loaded =s? Status.ok then
    let bank := if (latest_ j >=? snd (metadata layout)) &&
                   (u32 (latest_ j - snd (metadata layout)) <? sector_size layout)
                then 1 else 0 in
    let '(r, d) := find_erased u64 scan_fuel (latest_ j + kRecordSize) (sector_limit bank) d in
    match r with
    | Some at_ => (j <| target_ := u32 at_ |> <| erase_needed_ := false |>, d)
    | None => (j <| target_ := sel (metadata layout) (1 - bank) |>, d)
    end
  else (j, d).

(** Where it goes at run time: the inactive bank, after a checkpoint of the
    current snapshot if that bank holds its only copy. [inl] is an early return. *)
Definition place_runtime (loaded : Status) (executing : Z) (j : Journal) (d : D)
  : (Status + unit) * Journal * D :=
  let inactive := 1 - executing in
  let '(target, d) := free_record inactive d in
  let j := j <| target_ := target |> <| erase_needed_ := target =? UINT32_MAX |> in
  if erase_needed_ j then
    let j := j <| target_ := sel (metadata layout) inactive |> in
    if (loaded =s? Status.ok) && (latest_ j >=? sel (metadata layout) inactive) &&
       (latest_ j <? sector_limit inactive) then
      let '(checkpoint, d) := free_record executing d in
      if checkpoint =? UINT32_MAX then (inl Status.full, j, d)
      else
        let j := j <| pending_record_ := record_ j |> <| pending_target_ := target_ j |> in
        let '(st, bytes, d) := flash_read F d (latest_ j) (record_ j) in
        let j := j <| record_ := bytes |> in
        if negb (st =s? Status.ok) then (inl Status.io_error, j, d)
        else (inr tt, j <| target_ := checkpoint |> <| checkpoint_ := true |>
                        <| erase_needed_ := false |>, d)
    else (inr tt, j, d)
  else (inr tt, j, d).

Definition executing_bank (d : D) : Z :=
  match flash_executing_bank F with Some f => f d | None => 2 end.

Definition begin (j : Journal) (d : D) (snapshot : Snapshot) (initialize : bool)
  : Status * Journal * D :=
  if status_ j =s? Status.busy then (Status.busy, j, d)
  else
    let '(loaded, current, j, d) := load j d no_snapshot in
    if negb (loaded =s? Status.ok) && negb (initialize && (loaded =s? Status.not_found))
    then (loaded, j, d)
    else
      let '(st, d) := flash_poll F d in
      if st =s? Status.busy then (Status.busy, j, d)
      else if (sequence current =? UINT64_MAX) || (counter snapshot <? counter current)
      then (Status.counter_exhausted, j, d)
      else
        let next := snapshot <| sequence := u64 (sequence current + 1) |> in
        let j := j <| record_ := encode next (write_size layout) |>
                   <| checkpoint_ := false |> <| erase_only_ := false |> in
        match decode (record_ j) with
        | None => (Status.invalid_argument, j, d)
        | Some _ =>
            let '(j, d) := place_offline loaded j d in
            let executing := executing_bank d in
            let '(early, j, d) := if executing <? 2 then place_runtime loaded executing j d
                                  else (inr tt, j, d) in
            match early with
            | inl st => (st, j, d)
            | inr _ =>
                (Status.ok,
                 j <| offset_ := 0 |> <| timed_out_ := false |> <| requested_ := true |>
                   <| status_ := Status.busy |>, d)
            end
        end.

(** ** The state machine *)

Definition Step (cs : State) (w : Journal * D) : State * (Journal * D) :=
  let '(j, d) := w in
  match cs with
  | State.idle | State.done | State.failed =>
      if requested_ j then
        let j := j <| requested_ := false |> in
        (if erase_needed_ j then State.erase else State.write, (j, d))
      else (cs, (j, d))
  | State.erase =>
      if timed_out_ j then (State.failed, (j <| status_ := Status.timeout |>, d))
      else
        let '(result, d) := flash_erase F d (target_ j) in
        if negb (result =s? Status.ok) then
          (State.failed,
           (j <| status_ := if result =s? Status.busy then Status.io_error else result |>, d))
        else (State.erase_wait, (j, d))
  | State.erase_wait | State.write_wait =>
      let '(result, d) := flash_poll F d in
      if (result =s? Status.busy) && negb (timed_out_ j) then (cs, (j, d))
      else if negb (result =s? Status.ok) || timed_out_ j then
        (State.failed,
         (j <| status_ := if timed_out_ j then Status.timeout else result |>, d))
      else if bool_decide (cs = State.erase_wait) then
        if erase_only_ j then (State.done, (j <| status_ := Status.ok |>, d))
        else (State.write, (j, d))
      else
        let j := j <| offset_ := offset_ j + write_size layout |> in
        (if offset_ j =? Z.of_nat (length (record_ j)) then State.verify else State.write, (j, d))
  | State.write =>
      if timed_out_ j then (State.failed, (j <| status_ := Status.timeout |>, d))
      else
        let '(result, d) :=
          flash_program F d (u32 (target_ j + offset_ j))
            (sub (record_ j) (Z.to_nat (offset_ j)) (Z.to_nat (write_size layout))) in
        if negb (result =s? Status.ok) then
          (State.failed,
           (j <| status_ := if result =s? Status.busy then Status.io_error else result |>, d))
        else (State.write_wait, (j, d))
  | State.verify =>
      let '(st, readback, d) := flash_read F d (target_ j) (replicate 256 0) in
      let st := if (st =s? Status.ok) && negb (bool_decide (readback = record_ j))
                then Status.checksum_error else st in
      let j := j <| status_ := st |> in
      if (status_ j =s? Status.ok) && checkpoint_ j then
        (State.erase,
         (j <| record_ := pending_record_ j |> <| target_ := pending_target_ j |>
            <| offset_ := 0 |> <| checkpoint_ := false |> <| status_ := Status.busy |>, d))
      else
        (if status_ j =s? Status.ok then State.done else State.failed, (j, d))
  end.

Definition tick (j : Journal) (d : D) : Journal * D :=
  let '(j, d) :=
    if requested_ j then
      let '(now, d) := flash_now F d in (j <| operation_started_ := now |>, d)
    else if status_ j =s? Status.busy then
      let '(now, d) := flash_now F d in
      (if u64 (now - operation_started_ j) >=? operation_timeout layout
       then j <| timed_out_ := true |> else j, d)
    else (j, d) in
  snd (StateMachine.tick (step_only Step) (j, d)).

(** The foreground loop of [commit] and [prepare_runtime]; [fuel] bounds the
    number of iterations, [None] means it was not enough. *)
Fixpoint run_loop (fuel : nat) (start timeout : Time) (j : Journal) (d : D)
  : option (Journal * D) :=
  if status_ j =s? Status.busy then
    match fuel with
    | O => None
    | S fuel =>
        let '(now, d) := flash_now F d in
        let j := j <| timed_out_ := u64 (now - start) >=? timeout |> in
        let '(j, d) := tick j d in
        run_loop fuel start timeout j d
    end
  else Some (j, d).

Definition commit (fuel : nat) (j : Journal) (d : D) (snapshot : Snapshot) (timeout : Time)
    (initialize : bool) : option (Status * Journal * D) :=
  let timeout := if timeout =? 0 then operation_timeout layout else timeout in
  let '(result, j, d) := begin j d snapshot initialize in
  if negb (result =s? Status.ok) then Some (result, j, d)
  else
    let '(start, d) := flash_now F d in
    '(j, d) ← run_loop fuel start timeout j d;
    Some (status_ j, j, d).

(** The lambda [run] of [prepare_runtime]. *)
Definition run_request (fuel : nat) (timeout : Time) (j : Journal) (d : D)
  : option (Status * Journal * D) :=
  let j := j <| offset_ := 0 |> <| timed_out_ := false |> <| checkpoint_ := false |>
             <| requested_ := true |> <| status_ := Status.busy |> in
  let '(start, d) := flash_now F d in
  '(j, d) ← run_loop fuel start timeout j d;
  Some (status_ j, j, d).

(** [for (at = ...; blank && at < limit; at += kRecordSize) blank = Erased(at)]. *)
Fixpoint all_blank (fuel : nat) (at_ limit : Z) (d : D) : bool * D :=
  match fuel with
  | O => (true, d)
  | S fuel =>
      if at_ <? limit then
        let '(e, d) := Erased d at_ in
        if (e : bool) then all_blank fuel (u32 (at_ + kRecordSize)) limit d else (false, d)
      else (true, d)
  end.

(** The second half of [prepare_runtime]: erase the bank unless it is blank. *)
Definition prepare_erase (fuel : nat) (bank : Z) (timeout : Time) (j : Journal) (d : D)
  : option (Status * Journal * D) :=
  let '(blank, d) := all_blank scan_fuel (sel (metadata layout) bank) (sector_limit bank) d in
  if (blank : bool) then Some (Status.ok, j, d)
  else run_request fuel timeout
         (j <| target_ := sel (metadata layout) bank |> <| erase_needed_ := true |>
            <| erase_only_ := true |>) d.

Definition prepare_runtime (fuel : nat) (j : Journal) (d : D) (bank : Z) (timeout : Time)
  : option (Status * Journal * D) :=
  if (bank >=? 2) || (executing_bank d <? 2) then Some (Status.unsupported, j, d)
  else if status_ j =s? Status.busy then Some (Status.busy, j, d)
  else
    let '(result, snapshot, j, d) := load j d no_snapshot in
    if negb (result =s? Status.ok) then Some (result, j, d)
    else if (latest_ j >=? sel (metadata layout) bank) && (latest_ j <? sector_limit bank) then
      let '(st, bytes, d) := flash_read F d (latest_ j) (record_ j) in
      let j := j <| record_ := bytes |> in
      if negb (st =s? Status.ok) then Some (Status.io_error, j, d)
      else
        let other := sel (metadata layout) (1 - bank) in
        let '(r, d) := find_erased u32 scan_fuel other (sector_limit (1 - bank)) d in
        let j := j <| target_ := default other r |>
                   <| erase_needed_ := bool_decide (r = None) |>
                   <| erase_only_ := false |> in
        '(result, j, d) ← run_request fuel timeout j d;
        if negb (result =s? Status.ok) then Some (result, j, d)
        else prepare_erase fuel bank timeout j d
    else prepare_erase fuel bank timeout j d.
End journal.
