(* ===== verification/JournalScan.v ===== *)
(** * What [Journal::load] finds

    The scan over the two metadata sectors is compared with a declarative
    description of the cells: which records are present, and which one is the
    newest.  Everything later says about durability is stated in these terms. *)

From S2P Require Import Prelude Foundation Wire StateMachine Flash Codec Journal.

(** ** The layout, in arithmetic terms *)

Record layout_ok (l : Layout) : Prop := {
  lok_sector : 0 < sector_size l;
  lok_records : sector_size l mod kRecordSize = 0;
  lok_write : write_size l = 16 \/ write_size l = 32;
  lok_meta0 : 0 <= fst (metadata l);
  lok_meta1 : 0 <= snd (metadata l);
  lok_top0 : fst (metadata l) + sector_size l <= 2 ^ 32;
  lok_top1 : snd (metadata l) + sector_size l <= 2 ^ 32;
  lok_apart : fst (metadata l) + sector_size l <= snd (metadata l) \/
              snd (metadata l) + sector_size l <= fst (metadata l);
  lok_timeout : operation_timeout l <> 0;
  lok_aligned0 : fst (metadata l) mod sector_size l = 0;
  lok_aligned1 : snd (metadata l) mod sector_size l = 0
}.

(** The members have unsigned C++ types. *)
Record layout_unsigned (l : Layout) : Prop := {
  lu_slots : is_u32 (fst (slots l)) /\ is_u32 (snd (slots l));
  lu_meta : is_u32 (fst (metadata l)) /\ is_u32 (snd (metadata l));
  lu_sizes : is_u32 (slot_size l) /\ is_u32 (sector_size l);
  lu_timeout : is_u64 (operation_timeout l)
}.

Lemma Layout_valid_ok l : layout_unsigned l -> Layout_valid l = true -> layout_ok l.
Proof.
  unfold Layout_valid. intros [[Hs0 Hs1] [Hm0 Hm1] [Hz Hsec] Ht] H.
  destruct (_ || _ || _ || _ || _ || _ || _ || _) eqn:E1; [done|].
  destruct (existsb _ _) eqn:E2; [done|].
  cbn [existsb sel Z.eqb] in E2. cbn in H. breflect. unfold is_u32, is_u64 in *.
  repeat match type of H with (if ?c then false else _) = true => destruct c eqn:?; [done|] end.
  rewrite !orb_false_iff in *. destruct_and?.
  split; lia.
Qed.

(** ** Records in the cells *)

(** The record stored at address [a], if it is readable and valid. *)
Definition slot_at (m : Mem) (a : Z) : option (list Z * Snapshot) :=
  match mem_read m a 256 with
  | None => None
  | Some r => match decode r with None => None | Some s => Some (r, s) end
  end.

(** Addresses of the records of a sector. *)
Definition slot_in (sector size a : Z) : Prop :=
  sector <= a /\ a + kRecordSize <= sector + size /\ (a - sector) mod kRecordSize = 0.

Definition is_slot (l : Layout) (a : Z) : Prop :=
  slot_in (fst (metadata l)) (sector_size l) a \/ slot_in (snd (metadata l)) (sector_size l) a.

(** Records with the same sequence number are copies of each other. *)
Definition consistent (l : Layout) (m : Mem) : Prop :=
  forall a r s a' r' s', is_slot l a -> is_slot l a' ->
    slot_at m a = Some (r, s) -> slot_at m a' = Some (r', s') ->
    sequence s = sequence s' -> r = r'.

(** [s] is the snapshot of highest sequence number. *)
Definition newest (l : Layout) (m : Mem) (s : Snapshot) : Prop :=
  exists a r, is_slot l a /\ slot_at m a = Some (r, s) /\
    forall a' r' s', is_slot l a' -> slot_at m a' = Some (r', s') -> sequence s' <= sequence s.

Definition no_record (l : Layout) (m : Mem) : Prop :=
  forall a, is_slot l a -> slot_at m a = None.

Lemma slot_at_Some m a r s :
  slot_at m a = Some (r, s) <-> mem_read m a 256 = Some r /\ decode r = Some s.
Proof.
  unfold slot_at. split.
  - intros H. destruct (mem_read m a 256) as [r'|]; [|done].
    destruct (decode r') eqn:E; [|done]. by simplify_eq.
  - by intros [-> ->].
Qed.

Lemma slot_at_ext m m' a :
  (forall x, in_block a kRecordSize x -> m x = m' x) -> slot_at m a = slot_at m' a.
Proof. intros H. unfold slot_at. by rewrite (mem_read_ext m m') by exact H. Qed.

Lemma newest_unique l m s s' :
  consistent l m -> newest l m s -> newest l m s' -> s = s'.
Proof.
  intros Hc (a & r & Ha & Hs & Hmax) (a' & r' & Ha' & Hs' & Hmax').
  pose proof (Hmax _ _ _ Ha' Hs'). pose proof (Hmax' _ _ _ Ha Hs).
  pose proof (Hc _ _ _ _ _ _ Ha Ha' Hs Hs' ltac:(lia)). subst r'.
  apply slot_at_Some in Hs as [_ Hs]. apply slot_at_Some in Hs' as [_ Hs']. congruence.
Qed.

Lemma decode_framed r s : decode r = Some s -> framed r = true /\ sequence s = read64 r 8.
Proof.
  unfold decode. destruct (framed r); cbn [negb]; [|done].
  repeat case_match; intros; simplify_eq; done.
Qed.

Lemma decode_nonzero r s : decode r = Some s -> sequence s <> 0.
Proof.
  unfold decode. destruct (framed r); cbn [negb]; [|done].
  destruct (Z.eqb_spec (read64 r 8) 0); [done|]. repeat case_match; intros; simplify_eq; done.
Qed.

(** The header read of the scan tells the same as the whole record. *)
Lemma read32_app_l l k i : (i + 4 <= length l)%nat -> read32 (l ++ k) i = read32 l i.
Proof. intros. apply read32_ext. intros. apply lookup_app_l. lia. Qed.
Lemma read64_app_l l k i : (i + 8 <= length l)%nat -> read64 (l ++ k) i = read64 l i.
Proof. intros. unfold read64. rewrite !read32_app_l by lia. done. Qed.

(** ** The scan against the cells *)

Section scan.
Context {D : Type} (F : Flash D) (layout : Layout).
Context `{HC : !FlashContract F (sector_size layout) (write_size layout)}.
Context (Hlay : layout_ok layout).
Context (Hcov : forall a n, 0 <= n -> (exists b, (b = fst (metadata layout) \/ b = snd (metadata layout)) /\
                   b <= a /\ a + n <= b + sector_size layout) -> covers a n).

(** Device states that differ in nothing the contract talks about. *)
Definition same (d d' : D) : Prop :=
  dev_ok d' /\ view d' = view d /\ flight d' = flight d.

Lemma same_trans d1 d2 d3 : same d1 d2 -> same d2 d3 -> same d1 d3.
Proof. intros (? & ? & ?) (? & ? & ?). split_and!; congruence. Qed.

Lemma slot_covers a i n :
  is_slot layout a -> 0 <= i -> 0 <= n -> i + n <= kRecordSize -> covers (a + i) n.
Proof.
  intros [Ha|Ha] Hi Hn Hin; apply Hcov; [done| |done|]; destruct Ha as (? & ? & ?).
  - exists (fst (metadata layout)). split; [by left|lia].
  - exists (snd (metadata layout)). split; [by right|lia].
Qed.

Lemma slot_u32 a i : is_slot layout a -> 0 <= i <= kRecordSize -> i < kRecordSize -> u32 (a + i) = a + i.
Proof.
  intros Ha Hi Hi2. apply u32_small. unfold is_u32. destruct Hlay.
  destruct Ha as [(? & ? & _)|(? & ? & _)]; unfold kRecordSize in *; lia.
Qed.

(** Reading a record in two pieces. *)
Lemma read_header d a :
  dev_ok d -> flight d = None -> is_slot layout a ->
  exists st bs d', flash_read F d a (replicate 16 0) = (st, bs, d') /\ same d d' /\
    length bs = 16%nat /\
    match mem_read (view d) a 16 with
    | Some out => st = Status.ok /\ bs = out
    | None => st <> Status.ok
    end.
Proof.
  intros Hd Hf Ha.
  destruct (read_spec d a (replicate 16 0) Hd Hf) as (st & bs & d' & -> & ? & ? & ? & Hl & H).
  { replace a with (a + 0) by lia. rewrite length_replicate. apply slot_covers; done. }
  rewrite length_replicate in *. exists st, bs, d'. unfold same. rewrite Hf.
  split_and!; try done. by case_match; [|apply H].
Qed.

Lemma read_rest d a :
  dev_ok d -> flight d = None -> is_slot layout a ->
  exists st bs d', flash_read F d (u32 (a + 16)) (replicate 240 0) = (st, bs, d') /\ same d d' /\
    length bs = 240%nat /\
    match mem_read (view d) (a + 16) 240 with
    | Some out => st = Status.ok /\ bs = out
    | None => st <> Status.ok
    end.
Proof.
  intros Hd Hf Ha. rewrite slot_u32 by (done || (unfold kRecordSize; lia)).
  destruct (read_spec d (a + 16) (replicate 240 0) Hd Hf) as (st & bs & d' & -> & ? & ? & ? & Hl & H).
  { rewrite length_replicate. apply slot_covers; done. }
  rewrite length_replicate in *. exists st, bs, d'. unfold same. rewrite Hf.
  split_and!; try done. by case_match; [|apply H].
Qed.

Lemma mem_read_record m a :
  mem_read m a 256 = (h ← mem_read m a 16; t ← mem_read m (a + 16) 240; Some (h ++ t)).
Proof. exact (mem_read_split m a 16 240). Qed.

(** What one iteration of the inner loop does, in terms of the cells. *)
Definition scan_effect (m : Mem) (a : Z) (acc : Scan) (conflict : bool) (acc' : Scan) : Prop :=
  match slot_at m a with
  | None => conflict = false /\ best acc' = best acc /\ best_record acc' = best_record acc /\
            found acc' = found acc /\ scan_latest acc' = scan_latest acc
  | Some (r, s) =>
      if found acc then
        if sequence s <? sequence (best acc) then conflict = false /\ acc' = acc
        else if sequence s =? sequence (best acc)
        then (r = best_record acc -> conflict = false /\ acc' = acc)
        else conflict = false /\ acc' = mkScan s r true (read_failed acc) a
      else conflict = false /\ acc' = mkScan s r true (read_failed acc) a
  end.

Lemma scan_record_spec d a acc :
  dev_ok d -> flight d = None -> is_slot layout a ->
  exists conflict acc' d', scan_record F a acc d = (conflict, acc', d') /\ same d d' /\
    scan_effect (view d) a acc conflict acc'.
Proof.
  intros Hd Hf Ha. unfold scan_record, scan_effect, slot_at. rewrite mem_read_record.
  destruct (read_header d a Hd Hf Ha) as (st & h & d1 & -> & (Hd1 & Hv1 & Hf1) & Hlh & Hh).
  destruct (mem_read (view d) a 16) as [h'|]; simpl.
  2:{ apply st_eqb_neq in Hh. rewrite Hh. do 3 eexists. split_and!; try done. }
  destruct Hh as [-> ->]. rewrite st_eqb_refl. cbn [negb].
  assert (same d d1) by (by split_and!). rewrite Hf in Hf1.
  destruct (read_rest d1 a Hd1 Hf1 Ha) as (st & t & d2 & Ht2 & (Hd2 & Hv2 & Hf2) & Hlt & Ht).
  rewrite Hv1 in Ht. rewrite Hf1 in Hf2. assert (Hsame : same d d2) by (split_and!; congruence).
  set (t' := mem_read (view d) (a + 16) 240) in *.
  assert (Hhdr : forall t0 s0, decode (h' ++ t0) = Some s0 ->
            (read32 h' 0 =? kMagic) = true /\ ((read32 h' 4 =? 1) || (read32 h' 4 =? 2)) = true /\
            sequence s0 = read64 h' 8).
  { intros t0 s0 H0. apply decode_framed in H0 as [Hfr Hsq].
    pose proof (framed_inv _ Hfr) as (Hm & Hver & _).
    rewrite !read32_app_l in Hm, Hver by lia. rewrite read64_app_l in Hsq by lia.
    split_and!; [by apply Z.eqb_eq| |done]. destruct Hver as [-> | ->]; done. }
  destruct (negb (read32 h' 0 =? kMagic) || _) eqn:Ehdr.
  { exists false, acc, d1. split_and!; try done. destruct t' as [t0|]; simpl; [|by split_and!].
    destruct (decode (h' ++ t0)) eqn:Edec; [|by split_and!].
    destruct (Hhdr _ _ Edec) as (H1 & H2 & _). rewrite H1 in Ehdr. cbn in Ehdr.
    destruct (read32 h' 4 =? 1), (read32 h' 4 =? 2); done. }
  destruct (found acc && (read64 h' 8 <? sequence (best acc))) eqn:Eold.
  { exists false, acc, d1. split_and!; try done. destruct t' as [t0|]; simpl; [|by split_and!].
    destruct (decode (h' ++ t0)) eqn:Edec; [|by split_and!].
    destruct (Hhdr _ _ Edec) as (_ & _ & ->). breflect.
    match goal with H : found acc = true |- _ => rewrite H end.
    match goal with H : (_ <? _) = true |- _ => rewrite H end. done. }
  rewrite Ht2. destruct t' as [t0|]; simpl.
  2:{ apply st_eqb_neq in Ht. rewrite Ht. cbn [negb]. do 3 eexists. split_and!; done. }
  destruct Ht as [-> ->]. rewrite st_eqb_refl. cbn [negb].
  destruct (decode (h' ++ t0)) as [s|] eqn:Edec.
  2:{ do 3 eexists. split_and!; done. }
  destruct (Hhdr _ _ Edec) as (_ & _ & Hsq). rewrite <- Hsq in Eold.
  destruct (found acc) eqn:Efound; cbn [andb orb negb] in *.
  2:{ do 3 eexists. split_and!; done. }
  rewrite Eold. destruct (Z.eqb_spec (sequence s) (sequence (best acc))) as [Eseq|Eseq]; cbn [andb].
  - destruct (bool_decide _) eqn:Eb; cbn [negb].
    + rewrite Z.gtb_ltb. destruct (Z.ltb_spec (sequence (best acc)) (sequence s)); [lia|].
      do 3 eexists. split_and!; done.
    + do 3 eexists. split_and!; [done..|]. apply bool_decide_eq_false in Eb. done.
  - rewrite Z.gtb_ltb. apply Z.ltb_ge in Eold.
    destruct (Z.ltb_spec (sequence (best acc)) (sequence s)); [|lia].
    do 3 eexists. split_and!; done.
Qed.

(** From here on only the lemmas above are used, never the definitions. *)
#[global] Opaque slot_at mem_read decode framed encode.

(** The loop invariant: over the addresses visited so far, either nothing valid
    was seen, or the accumulator holds the newest record seen. *)
Definition scanned (m : Mem) (V : Z -> Prop) (acc : Scan) : Prop :=
  if found acc then
    is_slot layout (scan_latest acc) /\
    slot_at m (scan_latest acc) = Some (best_record acc, best acc) /\
    forall a r s, V a -> slot_at m a = Some (r, s) -> sequence s <= sequence (best acc)
  else forall a, V a -> slot_at m a = None.

Lemma scan_effect_scanned m V a acc conflict acc' :
  consistent layout m -> is_slot layout a -> scanned m V acc ->
  scan_effect m a acc conflict acc' ->
  conflict = false /\ scanned m (fun x => V x \/ x = a) acc'.
Proof.
  intros Hc Ha HV. unfold scan_effect.
  destruct (slot_at m a) as [[r s]|] eqn:Es.
  2:{ intros (-> & Hb & Hr & Hfd & Hl). split; [done|]. unfold scanned in *.
      rewrite Hb, Hr, Hfd, Hl. destruct (found acc).
      - destruct HV as (? & ? & HV). split_and!; [done..|].
        intros x r s [Hx | ->] Hxs; [by eapply HV|congruence].
      - intros x [Hx | ->]; [by apply HV|exact Es]. }
  assert (Hnew : found acc = false \/ sequence (best acc) < sequence s ->
          scanned m (fun x => V x \/ x = a) (mkScan s r true (read_failed acc) a)).
  { intros Hcase. unfold scanned in *. cbn. split_and!; [done..|].
    intros x r' s' [Hx | ->] Hxs; [|rewrite Es in Hxs; injection Hxs as <- <-; lia].
    destruct (found acc) eqn:Efd.
    - destruct HV as (_ & _ & HV). specialize (HV _ _ _ Hx Hxs). destruct Hcase; [done|lia].
    - by rewrite (HV x Hx) in Hxs. }
  destruct (found acc) eqn:Efd; [|intros [-> ->]; split; [done|apply Hnew; by left]].
  assert (Hkeep : sequence s <= sequence (best acc) -> scanned m (fun x => V x \/ x = a) acc).
  { intros Hle. unfold scanned in *. rewrite Efd in *. destruct HV as (? & ? & HV).
    split_and!; [done..|]. intros x r' s' [Hx | ->] Hxs; [by eapply HV|].
    rewrite Es in Hxs. injection Hxs as <- <-. exact Hle. }
  destruct (Z.ltb_spec (sequence s) (sequence (best acc))).
  { intros [-> ->]. split; [done|]. apply Hkeep. lia. }
  destruct (Z.eqb_spec (sequence s) (sequence (best acc))) as [Eseq|].
  - intros Himp. unfold scanned in HV. rewrite Efd in HV. destruct HV as (Hl & Hls & _).
    destruct Himp as [-> ->]; [|split; [done|apply Hkeep; lia]].
    exact (Hc _ _ _ _ _ _ Ha Hl Es Hls Eseq).
  - intros [-> ->]. split; [done|]. apply Hnew. right. lia.
Qed.
Lemma scanned_weaken m (V V' : Z -> Prop) acc :
  (forall a, V' a -> V a) -> scanned m V acc -> scanned m V' acc.
Proof.
  intros HVV. unfold scanned. destruct (found acc).
  - intros (? & ? & H). split_and!; [assumption..|]. intros a r s Ha. apply H, HVV, Ha.
  - intros H a Ha. apply H, HVV, Ha.
Qed.

(** [slot n sector]: the addresses below [sector + 256 * n], which the downward
    loop visits in its last [n] iterations. *)
Lemma scan_sector_spec n sector V acc d :
  consistent layout (view d) -> dev_ok d -> flight d = None ->
  (forall i, 0 <= i < Z.of_nat n -> is_slot layout (sector + kRecordSize * i)) ->
  scanned (view d) V acc ->
  exists acc' d', scan_sector F n sector acc d = (false, acc', d') /\ same d d' /\
    scanned (view d) (fun a => V a \/ exists i, 0 <= i < Z.of_nat n /\ a = sector + kRecordSize * i) acc'.
Proof.
  intros Hc. revert V acc d Hc. induction n as [|n IH]; intros V acc d Hc Hd Hf Hslots HV.
  - exists acc, d. split_and!; try done.
    eapply scanned_weaken; [|exact HV]. intros a [Ha|(i & Hi & _)]; [exact Ha|lia].
  - simpl scan_sector. assert (Ha : is_slot layout (sector + kRecordSize * Z.of_nat n)) by (apply Hslots; lia).
    pose proof (slot_u32 _ 0 Ha ltac:(done) ltac:(done)) as Hu. rewrite Z.add_0_r in Hu. rewrite Hu.
    destruct (scan_record_spec d _ acc Hd Hf Ha) as (conf & acc1 & d1 & -> & (Hd1 & Hv1 & Hf1) & Heff).
    destruct (scan_effect_scanned _ V _ _ _ _ Hc Ha HV Heff) as [-> HV1].
    rewrite <- Hv1 in HV1. rewrite <- Hv1 in Hc. rewrite Hf in Hf1.
    destruct (IH _ acc1 d1 Hc Hd1 Hf1 ltac:(intros; apply Hslots; lia) HV1)
      as (acc2 & d2 & -> & (Hd2 & Hv2 & Hf2) & HV2).
    exists acc2, d2. split; [done|]. split; [split_and!; congruence|].
    rewrite Hv1 in HV2. eapply scanned_weaken; [|exact HV2].
    intros a [Ha'|(i & Hi & ->)]; [by left; left|].
    destruct (decide (i = Z.of_nat n)) as [->|]; [left; by right|right].
    exists i. split; [lia|done].
Qed.

Lemma records_slots sector :
  (sector = fst (metadata layout) \/ sector = snd (metadata layout)) ->
  forall i, 0 <= i < Z.of_nat (records_per_sector layout) -> is_slot layout (sector + kRecordSize * i).
Proof.
  intros Hs i Hi. unfold records_per_sector in Hi. destruct Hlay as [Hpos Hmod _ _ _ _ _ _ _].
  rewrite Z2Nat.id in Hi by (apply Z.div_pos; unfold kRecordSize; lia).
  assert (Hin : slot_in sector (sector_size layout) (sector + kRecordSize * i)).
  { unfold slot_in. replace (sector + kRecordSize * i - sector) with (i * kRecordSize) by lia.
    rewrite Z.mod_mul by done. pose proof (Z.div_mod (sector_size layout) kRecordSize ltac:(done)).
    unfold kRecordSize in *. lia. }
  destruct Hs as [-> | ->]; [by left|by right].
Qed.

Lemma slot_index sector a :
  slot_in sector (sector_size layout) a ->
  exists i, 0 <= i < Z.of_nat (records_per_sector layout) /\ a = sector + kRecordSize * i.
Proof.
  intros (H1 & H2 & H3). exists ((a - sector) / kRecordSize).
  pose proof (Z.div_mod (a - sector) kRecordSize ltac:(done)) as Hdiv.
  unfold records_per_sector. destruct Hlay as [Hpos Hmod _ _ _ _ _ _ _].
  pose proof (Z.div_mod (sector_size layout) kRecordSize ltac:(done)).
  rewrite Z2Nat.id by (apply Z.div_pos; unfold kRecordSize; lia).
  unfold kRecordSize in *. split; [|lia]. split; [apply Z.div_pos; lia|].
  apply Z.div_lt_upper_bound; lia.
Qed.

(** [load] polls the device first; the scan sees the cells the poll left. *)
Lemma load_polled j d snap st0 d1 :
  flash_valid F = true -> Layout_valid layout = true ->
  flash_poll F d = (st0, d1) -> st0 <> Status.busy ->
  dev_ok d1 -> flight d1 = None -> consistent layout (view d1) ->
  exists st s j' d', load F layout j d snap = (st, s, j', d') /\ same d1 d' /\
    j' = j <| latest_ := latest_ j' |> /\
    ((st = Status.ok /\ newest layout (view d1) s /\ is_slot layout (latest_ j') /\
      exists r, slot_at (view d1) (latest_ j') = Some (r, s)) \/
     ((st = Status.not_found \/ st = Status.io_error) /\ s = snap /\ no_record layout (view d1))).
Proof.
  intros Hfv Hlv Ep Hnb Hd1 Hf1 Hc. unfold load. rewrite Hfv, Hlv. cbn [negb orb].
  rewrite Ep. apply st_eqb_neq in Hnb. rewrite Hnb.
  set (acc0 := mkScan _ _ _ _ _).
  assert (H0 : scanned (view d1) (fun _ => False) acc0) by (intros a []).
  destruct (scan_sector_spec (records_per_sector layout) (fst (metadata layout)) _ acc0 d1 Hc Hd1 Hf1
              (records_slots _ ltac:(by left)) H0) as (acc1 & d2 & -> & (Hd2 & Hv2 & Hf2) & H1).
  rewrite <- Hv2 in Hc, H1. rewrite Hf1 in Hf2.
  destruct (scan_sector_spec (records_per_sector layout) (snd (metadata layout)) _ acc1 d2 Hc Hd2 Hf2
              (records_slots _ ltac:(by right)) H1) as (acc2 & d3 & -> & (Hd3 & Hv3 & Hf3) & H2).
  rewrite Hv2 in H2. assert (Hsame : same d1 d3) by (split_and!; congruence).
  assert (Hall : scanned (view d1) (is_slot layout) acc2).
  { eapply scanned_weaken; [|exact H2].
    intros a [Ha|Ha]; apply slot_index in Ha; [left; by right|by right]. }
  unfold scanned in Hall. destruct (found acc2) eqn:Efd; cbn [negb].
  - destruct Hall as (Hsl & Hat & Hmax).
    do 4 eexists. split_and!; [done|done|done|]. left. cbn. split_and!; [done| |done|eauto].
    exists (scan_latest acc2), (best_record acc2). done.
  - do 4 eexists. split_and!; [done|done|done|]. right. split_and!; [|done|exact Hall].
    destruct (read_failed acc2); auto.
Qed.

(** [load] on an idle device whose records are consistent. *)
Lemma load_spec j d snap :
  flash_valid F = true -> Layout_valid layout = true ->
  dev_ok d -> flight d = None -> consistent layout (view d) ->
  exists st s j' d', load F layout j d snap = (st, s, j', d') /\ same d d' /\
    j' = j <| latest_ := latest_ j' |> /\
    ((st = Status.ok /\ newest layout (view d) s /\ is_slot layout (latest_ j') /\
      exists r, slot_at (view d) (latest_ j') = Some (r, s)) \/
     ((st = Status.not_found \/ st = Status.io_error) /\ s = snap /\ no_record layout (view d))).
Proof.
  intros Hfv Hlv Hd Hf Hc. destruct (poll_spec d Hd) as (pst & d1 & Ep & Hd1 & Hp). rewrite Hf in Hp.
  destruct Hp as (Hnb & Hv1 & Hf1). rewrite <- Hv1 in Hc |- *.
  destruct (load_polled j d snap pst d1) as (st & s & j' & d' & E & Hs & H); [assumption..|].
  exists st, s, j', d'. split; [exact E|]. split; [|exact H].
  eapply same_trans; [|exact Hs]. split_and!; congruence.
Qed.

(** [load] returns the newest committed snapshot: on an idle device whose
    equal-sequence records agree, it reports [ok] exactly with the snapshot of
    highest sequence number, and an error only if no valid record exists. *)
Theorem load_returns_newest j d snapshot :
  flash_valid F = true -> Layout_valid layout = true ->
  dev_ok d -> flight d = None -> consistent layout (view d) ->
  exists st s j' d', load F layout j d snapshot = (st, s, j', d') /\ view d' = view d /\
    (st = Status.ok <-> exists s', newest layout (view d) s') /\
    (st = Status.ok -> newest layout (view d) s) /\
    (st <> Status.ok -> s = snapshot /\ no_record layout (view d)).
Proof.
  intros Hfv Hlv Hd Hf Hc.
  destruct (load_spec j d snapshot) as (st & s & j' & d' & E & Hs & _ & H);
    [assumption..|].
  exists st, s, j', d'. split; [exact E|]. split; [apply Hs|].
  destruct H as [(-> & Hn & _)|(Hst & -> & Hno)].
  - split; [split; [intros _; by exists s|done]|]. by split.
  - assert (st <> Status.ok) by (destruct Hst; congruence).
    split; [|by split]. split; [done|]. intros (s' & a & r & Ha & Hat & _).
    rewrite (Hno a Ha) in Hat. discriminate.
Qed.

End scan.
