(* ===== verification/JournalCrash.v ===== *)
(** * Power-loss safety of the boot journal

    "The last valid committed record is never erased until an equivalent or
    newer snapshot has been committed and verified" (journal.h): the invariant
    of the journal's state machine below relates every state to the cells, and
    implies that a power cut at any moment, with a torn operation in flight,
    leaves cells in which [load] finds the previous or the new snapshot. *)

From S2P Require Import Prelude Foundation Wire StateMachine Flash Codec Journal JournalScan.

(** ** Facts about cells and records *)

Section cells.
Context (l : Layout) (Hlay : layout_ok l).

Lemma slots_disjoint a b :
  is_slot l a -> is_slot l b -> a <> b -> a + kRecordSize <= b \/ b + kRecordSize <= a.
Proof.
  destruct Hlay. unfold is_slot, slot_in, kRecordSize in *.
  intros [(? & ? & Ha)|(? & ? & Ha)] [(? & ? & Hb)|(? & ? & Hb)] Hne; try lia;
    apply Z.mod_divide in Ha as [x Hx]; try done; apply Z.mod_divide in Hb as [y Hy]; lia.
Qed.

(** The cells of [m'] differ from those of [m] inside [[a, a + n)] only. *)
Definition outside (a n : Z) (m m' : Mem) : Prop :=
  forall x, ~ in_block a n x -> m' x = m x.

Lemma slot_other m m' t a :
  outside t kRecordSize m m' -> is_slot l t -> is_slot l a -> a <> t ->
  slot_at m' a = slot_at m a.
Proof.
  intros Ho Ht Ha Hne. apply slot_at_ext. intros x Hx. apply Ho.
  pose proof (slots_disjoint a t Ha Ht Hne). unfold in_block in *. lia.
Qed.

(** ** Writing one record *)

(** The first [o] bytes of [r] are in the slot [t], the rest is erased. *)
Definition written (m : Mem) (t : Z) (r : list Z) (o : nat) : Prop :=
  (forall i, (i < o)%nat -> m (t + Z.of_nat i) = r !! i) /\
  (forall i, (o <= i < 256)%nat -> m (t + Z.of_nat i) = Some byte_ff).

(** A record that can be committed with units of [w] bytes. *)
Record committable (w : nat) (r : list Z) (s : Snapshot) : Prop := {
  com_decode : decode r = Some s;
  com_fits : fits (Z.of_nat w) r;
  com_bytes : bytes_ok r;
  com_length : length r = 256%nat
}.

Lemma written_complete m t r s w :
  committable w r s -> written m t r 256 -> slot_at m t = Some (r, s).
Proof.
  intros [Hd _ _ Hl] [H _]. apply slot_at_Some. split; [|done].
  apply mem_read_Some. split; [done|]. intros i Hi. symmetry. by apply H.
Qed.

Lemma read_slot m t r' :
  mem_read m t 256 = Some r' ->
  length r' = 256%nat /\ forall i, (i < 256)%nat -> r' !! i = m (t + Z.of_nat i).
Proof. apply mem_read_Some. Qed.

Lemma slot_framed m t : (forall r', mem_read m t 256 = Some r' -> framed r' = false) -> slot_at m t = None.
Proof.
  intros H. destruct (slot_at m t) as [[r s]|] eqn:E; [|done].
  apply slot_at_Some in E as [E Hd]. apply decode_framed in Hd as [Hf _].
  rewrite (H _ E) in Hf. discriminate.
Qed.

(** A slot in which a unit is in flight or torn is invisible until the last
    unit is complete, and then shows the record that was meant. *)
Lemma torn_slot (w : nat) m m' t r s o :
  (w = 16 \/ w = 32)%nat -> committable w r s -> (o + w <= 256)%nat -> (o mod w = 0)%nat ->
  written m t r o -> mem_ok m' ->
  op_torn (OpProgram (t + Z.of_nat o) (sub r o w)) m m' ->
  slot_at m' t = None \/ slot_at m' t = Some (r, s).
Proof.
  intros Hw [Hd Hfit Hok Hlen] How Hmod [Hlo Hhi] Hm' [Hout _].
  assert (Hcell : forall i, (i < 256)%nat -> (i < o \/ o + w <= i)%nat ->
            m' (t + Z.of_nat i) = m (t + Z.of_nat i)).
  { intros i Hi Hio. apply Hout. cbn. rewrite length_sub by lia. unfold in_block. lia. }
  destruct (mem_read m' t 256) as [r'|] eqn:Er.
  2:{ left. apply slot_framed. intros. congruence. }
  pose proof (read_slot _ _ _ Er) as [Hl' Hr']. pose proof (mem_read_bytes _ _ _ _ Hm' Er) as Hok'.
  assert (Hag : agree r' r 0 o).
  { intros i Hi. rewrite Hr', Hcell, Hlo by lia. done. }
  assert (Ho0 : (o = 0 \/ w <= o)%nat).
  { destruct (decide (o = 0)%nat); [by left|right].
    apply Nat.Div0.mod_divides in Hmod as [q ->]. destruct q; lia. }
  destruct (decide (o + w = 256)%nat) as [Hlast|Hlast].
  - destruct (framed r') eqn:Ef.
    + right. assert (r' = r) as ->.
      { apply decode_framed in Hd as [Hfr _].
        apply (torn_last_unit (Z.of_nat w)); try done; [lia|].
        replace (256 - Z.to_nat (Z.of_nat w))%nat with o by lia. done. }
      by apply slot_at_Some.
    + left. apply slot_framed. intros ? ?. congruence.
  - left. apply slot_framed. intros r'' Er''. rewrite Er in Er''. injection Er'' as <-.
    apply (partial_rejected w r r' o); try done.
    + apply Nat.Div0.mod_divides in Hmod as [q ->]. destruct Hw as [-> | ->]; lia.
    + intros i Hi. rewrite Hr', Hcell by lia. apply Hhi. lia.
Qed.

Lemma written_partial (w : nat) m t r s o :
  (w = 16 \/ w = 32)%nat -> committable w r s -> (o + w <= 256)%nat -> (o mod w = 0)%nat ->
  written m t r o -> mem_ok m -> slot_at m t = None.
Proof.
  intros Hw Hc How Hmod Hwr Hm.
  destruct (torn_slot w m m t r s o Hw Hc How Hmod Hwr Hm) as [H|H]; [done|exact H|].
  exfalso. apply slot_at_Some in H as [H Hd]. destruct Hc as [_ Hfit Hok Hlen].
  apply decode_framed in Hd as [Hf _].
  pose proof (read_slot _ _ _ H) as [_ Hr]. destruct Hwr as [_ Hhi].
  assert (Hff : framed r = false); [|congruence].
  destruct (decide (o + w = 256)%nat) as [Hlast|Hlast].
  - apply not_true_iff_false. intros _. pose proof (framed_inv _ Hf) as (_ & _ & Hcm & _).
    assert (E : UINT32_MAX = kCommit); [|discriminate]. rewrite <- Hcm. symmetry.
    unfold fits in Hfit. rewrite Hfit. unfold kCommitOffset.
    apply read32_erased. intros i Hi.
    assert (256 - w <= i < 256)%nat.
    { destruct Hw as [-> | ->]; [change (Z.of_nat 16 =? 32) with false in Hi
        |change (Z.of_nat 32 =? 32) with true in Hi]; cbn -[Nat.add Nat.le Nat.lt] in Hi; lia. }
    rewrite Hr by lia. apply Hhi. lia.
  - apply (partial_rejected w r r o); try done.
    + apply Nat.Div0.mod_divides in Hmod as [q ->]. destruct Hw as [-> | ->]; lia.
    + destruct (decide (o = 0)%nat); [by left|right].
      apply Nat.Div0.mod_divides in Hmod as [q ->]. destruct q; lia.
    + intros i Hi. rewrite Hr by lia. apply Hhi. lia.
Qed.

Lemma written_step (w : nat) m m' t r o :
  length r = 256%nat -> (o + w <= 256)%nat ->
  written m t r o -> op_done (OpProgram (t + Z.of_nat o) (sub r o w)) m m' ->
  written m' t r (o + w).
Proof.
  intros Hlen How [Hlo Hhi] [Hout Hin]. cbn in *. rewrite length_sub in * by lia.
  assert (Hread : mem_read m' (t + Z.of_nat o) w = Some (sub r o w)).
  { apply Hin. unfold in_block. intros x Hx.
    replace x with (t + Z.of_nat (Z.to_nat (x - t))) by lia. apply Hhi. lia. }
  apply mem_read_Some in Hread as [_ Hread].
  split; intros i Hi.
  - destruct (decide (i < o)%nat).
    + rewrite Hout by (unfold in_block; lia). by apply Hlo.
    + replace (t + Z.of_nat i) with (t + Z.of_nat o + Z.of_nat (i - o)) by lia.
      rewrite <- Hread by lia. rewrite lookup_sub by lia. f_equal. lia.
  - rewrite Hout by (unfold in_block; lia). apply Hhi. lia.
Qed.
End cells.

(** ** What a step may do to the records

    The invariant is about a commit of record [r1], snapshot [s1], over cells
    whose newest snapshot is [old]. *)

Section steady.
Context (l : Layout) (Hlay : layout_ok l).
Context (old : option Snapshot) (r1 : list Z) (s1 : Snapshot) (w : nat).
Context (Hw : write_size l = Z.of_nat w) (Hr1 : committable w r1 s1).

(** A journal that this layout's code can go on with. *)
Definition journal_ok (m : Mem) : Prop :=
  consistent l m /\
  forall a r s, is_slot l a -> slot_at m a = Some (r, s) -> fits (write_size l) r.

Definition before (m : Mem) : Prop :=
  match old with Some s => newest l m s | None => no_record l m end.

(** The new record is newer than every other one (or, for a checkpoint, a copy). *)
Definition dominated (m : Mem) : Prop :=
  forall a r s, is_slot l a -> slot_at m a = Some (r, s) -> sequence s < sequence s1 \/ r = r1.

Definition steady (m : Mem) : Prop := journal_ok m /\ before m /\ dominated m.

(** What [load] may find after a power cut. *)
Definition durable (m : Mem) : Prop := journal_ok m /\ (before m \/ newest l m s1).

Lemma steady_durable m : steady m -> durable m.
Proof. intros (? & ? & _). split; [assumption|by left]. Qed.

(** Every record of [m'] is a copy of one of [m]. *)
Definition shrinks (m m' : Mem) : Prop :=
  forall a r s, is_slot l a -> slot_at m' a = Some (r, s) ->
    exists b, is_slot l b /\ slot_at m b = Some (r, s).

Definition holds (m : Mem) : Prop :=
  forall s, old = Some s -> exists a r, is_slot l a /\ slot_at m a = Some (r, s).

Lemma steady_shrinks m m' : steady m -> shrinks m m' -> holds m' -> steady m'.
Proof.
  intros ([Hc Hfit] & Hb & Hd) Hsh Hh. split_and!; [split| |].
  - intros a r s a' r' s' Ha Ha' Hs Hs'.
    apply Hsh in Hs as (b & Hb1 & Hs); [|assumption]. apply Hsh in Hs' as (b' & Hb' & Hs'); [|assumption].
    exact (Hc _ _ _ _ _ _ Hb1 Hb' Hs Hs').
  - intros a r s Ha Hs. apply Hsh in Hs as (b & Hb1 & Hs); [|assumption]. exact (Hfit _ _ _ Hb1 Hs).
  - unfold before in *. unfold holds in Hh. destruct old as [s|].
    + destruct Hb as (? & ? & _ & _ & Hmax). destruct (Hh s eq_refl) as (a & r & Ha & Hs).
      exists a, r. split_and!; [assumption..|]. intros a' r' s' Ha' Hs'.
      apply Hsh in Hs' as (b & Hb & Hs'); [|assumption]. exact (Hmax _ _ _ Hb Hs').
    + intros a Ha. destruct (slot_at m' a) as [[r s]|] eqn:Es; [|reflexivity].
      apply Hsh in Es as (b & Hb1 & Hs); [|assumption]. rewrite (Hb b Hb1) in Hs. discriminate.
  - intros a r s Ha Hs. apply Hsh in Hs as (b & Hb1 & Hs); [|assumption]. exact (Hd _ _ _ Hb1 Hs).
Qed.

Lemma steady_holds m : steady m -> holds m.
Proof.
  intros (_ & Hb & _) s Hs. unfold before in Hb. rewrite Hs in Hb.
  destruct Hb as (a & r & ? & ? & _). by exists a, r.
Qed.

(** A slot that was invisible and stays so. *)
Lemma steady_invisible m m' t :
  steady m -> is_slot l t -> outside t kRecordSize m m' ->
  slot_at m t = None -> slot_at m' t = None -> steady m'.
Proof.
  intros Hst Ht Ho Hm Hm'.
  assert (Heq : forall a, is_slot l a -> slot_at m' a = slot_at m a).
  { intros a Ha. destruct (decide (a = t)) as [->|]; [congruence|].
    by apply (slot_other l Hlay _ _ t). }
  apply (steady_shrinks m); [assumption| |].
  - intros a r s Ha Hs. exists a. rewrite <- (Heq a Ha). by split.
  - intros s Hs. destruct (steady_holds m Hst s Hs) as (a & r & Ha & Hat).
    exists a, r. rewrite (Heq a Ha). by split.
Qed.

(** A slot that was invisible and now shows a copy: the checkpoint. *)
Lemma steady_copy m m' t r s b :
  steady m -> is_slot l t -> outside t kRecordSize m m' ->
  slot_at m t = None -> is_slot l b -> slot_at m b = Some (r, s) ->
  slot_at m' t = Some (r, s) -> steady m'.
Proof.
  intros Hst Ht Ho Hm Hb Hsb Hm'.
  assert (Heq : forall a, is_slot l a -> a <> t -> slot_at m' a = slot_at m a).
  { intros a Ha Hne. by apply (slot_other l Hlay _ _ t). }
  apply (steady_shrinks m); [assumption| |].
  - intros a r' s' Ha Hs. destruct (decide (a = t)) as [->|].
    + exists b. rewrite Hm' in Hs. injection Hs as <- <-. by split.
    + exists a. by rewrite <- (Heq a).
  - intros s' Hs. destruct (steady_holds m Hst s' Hs) as (a & r' & Ha & Hat).
    exists a, r'. rewrite (Heq a); [done|done|]. intros ->. congruence.
Qed.

(** A slot that was invisible and now shows the new record: the commit. *)
Lemma steady_commit m m' t :
  steady m -> is_slot l t -> outside t kRecordSize m m' ->
  slot_at m' t = Some (r1, s1) -> journal_ok m' /\ newest l m' s1.
Proof.
  intros ([Hc Hfit] & _ & Hd) Ht Ho Hm'.
  assert (Hcase : forall a r s, is_slot l a -> slot_at m' a = Some (r, s) ->
            (r = r1 /\ s = s1) \/ (slot_at m a = Some (r, s) /\ sequence s < sequence s1)).
  { intros a r s Ha Hs. destruct (decide (a = t)) as [->|Hne].
    { left. rewrite Hm' in Hs. injection Hs as <- <-. by split. }
    rewrite (slot_other l Hlay m m' t a Ho Ht Ha Hne) in Hs.
    destruct (Hd _ _ _ Ha Hs) as [Hlt| ->]; [by right|left]. split; [done|].
    apply slot_at_Some in Hs as [_ Hs]. pose proof (com_decode _ _ _ Hr1). congruence. }
  split; [split|].
  - intros a r s a' r' s' Ha Ha' Hs Hs' Hseq.
    destruct (Hcase _ _ _ Ha Hs) as [[-> ->]|[H1 ?]], (Hcase _ _ _ Ha' Hs') as [[-> ->]|[H2 ?]];
      [reflexivity|lia|lia|]. exact (Hc _ _ _ _ _ _ Ha Ha' H1 H2 Hseq).
  - intros a r s Ha Hs. destruct (Hcase _ _ _ Ha Hs) as [[-> ->]|[H1 ?]].
    + rewrite Hw. apply Hr1.
    + exact (Hfit _ _ _ Ha H1).
  - exists t, r1. split_and!; [assumption..|]. intros a r s Ha Hs.
    destruct (Hcase _ _ _ Ha Hs) as [[-> ->]|[H1 ?]]; lia.
Qed.

(** Erasing the sector at [b], completed or torn, when the newest record has a
    copy in the other sector. *)
Definition holds_outside (b : Z) (m : Mem) : Prop :=
  forall s, old = Some s -> exists a r, is_slot l a /\ slot_at m a = Some (r, s) /\
    (a + kRecordSize <= b \/ b + sector_size l <= a).

Definition is_sector (b : Z) : Prop := b = fst (metadata l) \/ b = snd (metadata l).

Lemma slot_or_outside b a :
  is_sector b -> is_slot l a ->
  slot_in b (sector_size l) a \/ (a + kRecordSize <= b \/ b + sector_size l <= a).
Proof.
  clear Hw Hr1.
  destruct Hlay. intros [-> | ->] [Ha|Ha]; auto; right; unfold slot_in, kRecordSize in *; lia.
Qed.

Lemma steady_erase b m m' :
  steady m -> is_sector b -> holds_outside b m -> mem_ok m' ->
  op_torn (OpErase b (sector_size l)) m m' -> steady m' /\ holds_outside b m'.
Proof.
  intros Hst Hb Hh Hm' [Hout (k & Hk & Hin & Hrest)]. cbn in Hout.
  assert (Hoth : forall a, (a + kRecordSize <= b \/ b + sector_size l <= a) ->
            slot_at m' a = slot_at m a).
  { intros a Ha. apply slot_at_ext. intros x Hx. apply Hout. unfold in_block in *. lia. }
  assert (Hh' : holds_outside b m').
  { intros s Hs. destruct (Hh s Hs) as (a & r & Ha & Hat & Hd). exists a, r.
    rewrite (Hoth a Hd). by split. }
  split; [|assumption]. apply (steady_shrinks m); [assumption| |].
  - intros a r s Ha Hs. exists a. split; [assumption|]. rewrite <- Hs. symmetry.
    destruct (slot_or_outside b a Hb Ha) as [(Hlo & Hhi & _)|Hd]; [|by apply Hoth].
    destruct (decide (a < b + k)).
    + exfalso. apply slot_at_Some in Hs as [Hrd Hdec].
      pose proof (read_slot _ _ _ Hrd) as [Hlen Hr]. pose proof (mem_read_bytes _ _ _ _ Hm' Hrd).
      apply decode_framed in Hdec as [Hf _].
      specialize (Hr 0%nat ltac:(lia)). rewrite Z.add_0_r in Hr.
      destruct (Hin a) as [E|E]; [unfold in_block; lia| |].
      * rewrite E in Hr. rewrite erased_start_rejected in Hf; [discriminate|assumption|lia|assumption].
      * rewrite E in Hr. apply lookup_ge_None_1 in Hr. lia.
    + apply slot_at_ext. intros x Hx. unfold in_block, kRecordSize in *. apply Hrest. lia.
  - intros s Hs. destruct (Hh' s Hs) as (a & r & ? & ? & _). by exists a, r.
Qed.
End steady.

(** ** The invariant of the state machine *)

Section machine.
Context {D : Type} (F : Flash D) (layout : Layout).
Context `{HC : !FlashContract F (sector_size layout) (write_size layout)}.
Context (Hlay : layout_ok layout).
Context (Hcov : forall a n, 0 <= n -> (exists b, (b = fst (metadata layout) \/ b = snd (metadata layout)) /\
                   b <= a /\ a + n <= b + sector_size layout) -> covers a n).
Context (old : option Snapshot) (r1 : list Z) (s1 : Snapshot) (w : nat).
Context (Hw : write_size layout = Z.of_nat w) (Hr1 : committable w r1 s1).

Local Abbreviation steady := (steady layout old r1 s1).
Local Abbreviation durable := (durable layout old s1).
Local Abbreviation holds_outside := (holds_outside layout old).

(** What is being written: the new record, or first a copy of the current one
    into the other sector. *)
Definition intent (j : Journal) (m : Mem) : Prop :=
  if checkpoint_ j then
    (exists s b, old = Some s /\ is_slot layout b /\ slot_at m b = Some (record_ j, s)) /\
    pending_record_ j = r1 /\ is_sector layout (pending_target_ j) /\
    (target_ j + kRecordSize <= pending_target_ j \/
     pending_target_ j + sector_size layout <= target_ j)
  else record_ j = r1.

Definition write_plan (j : Journal) (m : Mem) : Prop :=
  steady m /\ is_slot layout (target_ j) /\ erase_only_ j = false /\ intent j m /\
  exists o, offset_ j = Z.of_nat o /\ (o + w <= 256)%nat /\ (o mod w = 0)%nat /\
    written m (target_ j) (record_ j) o.

Definition erase_plan (j : Journal) (m : Mem) : Prop :=
  steady m /\ is_sector layout (target_ j) /\ holds_outside (target_ j) m /\
  (erase_only_ j = false -> record_ j = r1) /\ checkpoint_ j = false /\ offset_ j = 0.

Definition verify_plan (j : Journal) (m : Mem) : Prop :=
  is_slot layout (target_ j) /\ erase_only_ j = false /\ intent j m /\
  (exists s, slot_at m (target_ j) = Some (record_ j, s)) /\
  if checkpoint_ j then steady m else journal_ok layout m /\ newest layout m s1.

Definition settled (j : Journal) (m : Mem) : Prop :=
  journal_ok layout m /\
  if erase_only_ j
  then before layout old m /\ forall x, in_block (target_ j) (sector_size layout) x -> m x = Some byte_ff
  else newest layout m s1 /\ slot_at m (target_ j) = Some (r1, s1).

(** Every power cut leaves the old or the new snapshot. *)
Definition safe (d : D) : Prop := forall m, crash_image F d m -> durable m.

Definition working (j : Journal) : Prop := requested_ j = false /\ status_ j = Status.busy.

Definition stage (cs : State) (j : Journal) (d : D) : Prop :=
  match cs with
  | State.erase => working j /\ flight d = None /\ erase_plan j (view d)
  | State.erase_wait =>
      working j /\ flight d = Some (OpErase (target_ j) (sector_size layout)) /\
      erase_plan j (view d)
  | State.write => working j /\ flight d = None /\ write_plan j (view d)
  | State.write_wait =>
      working j /\
      flight d = Some (OpProgram (target_ j + offset_ j) (sub (record_ j) (Z.to_nat (offset_ j)) w)) /\
      write_plan j (view d)
  | State.verify => working j /\ flight d = None /\ verify_plan j (view d)
  | _ =>
      if requested_ j then
        status_ j = Status.busy /\ flight d = None /\
        if erase_needed_ j then erase_plan j (view d) else write_plan j (view d)
      else if bool_decide (cs = State.done) then
        status_ j = Status.ok /\ flight d = None /\ settled j (view d)
      else status_ j <> Status.ok /\ status_ j <> Status.busy /\ safe d
  end.

Lemma unit_sizes : (w = 16 \/ w = 32)%nat.
Proof. pose proof (lok_write _ Hlay). lia. Qed.

Lemma slot_committable m a r s :
  mem_ok m -> journal_ok layout m -> is_slot layout a -> slot_at m a = Some (r, s) ->
  committable w r s.
Proof.
  intros Hm [_ Hfit] Ha Hs. pose proof (Hfit _ _ _ Ha Hs) as Hf. rewrite Hw in Hf.
  apply slot_at_Some in Hs as [Hrd Hdec].
  split; [assumption..|exact (mem_read_bytes _ _ _ _ Hm Hrd)|exact (mem_read_length _ _ _ _ Hrd)].
Qed.

Lemma intent_committable j m :
  mem_ok m -> journal_ok layout m -> intent j m -> exists s, committable w (record_ j) s.
Proof.
  intros Hm Hj. unfold intent. destruct (checkpoint_ j).
  - intros ((s & b & _ & Hb & Hs) & _). exists s. exact (slot_committable _ _ _ _ Hm Hj Hb Hs).
  - intros ->. by exists s1.
Qed.

Lemma unit_outside (t : Z) o (bs : list Z) m m' :
  length bs = w -> (o + w <= 256)%nat ->
  op_torn (OpProgram (t + Z.of_nat o) bs) m m' -> outside t kRecordSize m m'.
Proof.
  intros Hl Ho [Hout _] x Hx. apply Hout. cbn. unfold in_block, kRecordSize in *. lia.
Qed.

(** The slot being written is invisible, shows the copy, or shows the commit. *)
Lemma write_plan_slot j m m' :
  mem_ok m -> write_plan j m -> outside (target_ j) kRecordSize m m' ->
  (slot_at m' (target_ j) = None -> steady m') /\
  (forall s, slot_at m' (target_ j) = Some (record_ j, s) ->
     if checkpoint_ j then steady m' else journal_ok layout m' /\ newest layout m' s1).
Proof.
  intros Hm (Hst & Ht & _ & Hi & o & _ & Ho & Hmod & Hwr) Hout.
  destruct (intent_committable j m Hm (proj1 Hst) Hi) as [sr Hcr].
  pose proof (written_partial w m _ _ _ _ unit_sizes Hcr Ho Hmod Hwr Hm) as Hnone.
  split.
  - intros Hm'. exact (steady_invisible layout Hlay old r1 s1 m m' _ Hst Ht Hout Hnone Hm').
  - intros s Hm'. unfold intent in Hi. destruct (checkpoint_ j).
    + destruct Hi as ((s0 & b & _ & Hb & Hs) & _).
      assert (s = s0) as ->.
      { apply slot_at_Some in Hs as [_ Hs]. apply slot_at_Some in Hm' as [_ Hm']. congruence. }
      exact (steady_copy layout Hlay old r1 s1 m m' _ _ _ b Hst Ht Hout Hnone Hb Hs Hm').
    + rewrite Hi in Hm'. assert (s = s1) as ->.
      { apply slot_at_Some in Hm' as [_ Hm']. pose proof (com_decode _ _ _ Hr1). congruence. }
      exact (steady_commit layout Hlay old r1 s1 w Hw Hr1 m m' _ Hst Ht Hout Hm').
Qed.

Lemma write_torn_durable j m m' :
  mem_ok m -> write_plan j m -> mem_ok m' ->
  op_torn (OpProgram (target_ j + offset_ j) (sub (record_ j) (Z.to_nat (offset_ j)) w)) m m' ->
  durable m'.
Proof.
  intros Hm Hp Hm' Htorn. pose proof Hp as (Hst & Ht & _ & Hi & o & Hoff & Ho & Hmod & Hwr).
  destruct (intent_committable j m Hm (proj1 Hst) Hi) as [sr Hcr].
  rewrite Hoff, Nat2Z.id in Htorn.
  assert (Hout : outside (target_ j) kRecordSize m m').
  { eapply (unit_outside _ o); [|exact Ho|exact Htorn]. apply length_sub.
    rewrite (com_length _ _ _ Hcr). lia. }
  destruct (write_plan_slot j m m' Hm Hp Hout) as [Hnone Hsome].
  destruct (torn_slot w m m' _ _ _ o unit_sizes Hcr Ho Hmod Hwr Hm' Htorn) as [E|E].
  - apply (steady_durable _ _ r1), Hnone, E.
  - specialize (Hsome _ E). destruct (checkpoint_ j); [by apply (steady_durable _ _ r1)|].
    destruct Hsome. split; [assumption|by right].
Qed.

Lemma erase_torn_steady j m m' :
  erase_plan j m -> mem_ok m' -> op_torn (OpErase (target_ j) (sector_size layout)) m m' ->
  steady m' /\ holds_outside (target_ j) m'.
Proof. intros (Hst & Hsec & Hh & _) Hm' Ht. by eapply steady_erase. Qed.

(** The crash theorem follows from the invariant, whatever the state. *)
Lemma stage_safe cs j d : dev_ok d -> stage cs j d -> safe d.
Proof.
  intros Hd Hs m [Hm Hcr]. pose proof (view_ok d Hd) as Hv.
  assert (He : flight d = None -> erase_plan j (view d) -> durable m).
  { intros Hf (Hst & _). rewrite Hf in Hcr. subst m. by apply (steady_durable _ _ r1). }
  assert (Hwp : flight d = None -> write_plan j (view d) -> durable m).
  { intros Hf (Hst & _). rewrite Hf in Hcr. subst m. by apply (steady_durable _ _ r1). }
  assert (Hidle : (if requested_ j then
        status_ j = Status.busy /\ flight d = None /\
        if erase_needed_ j then erase_plan j (view d) else write_plan j (view d)
      else if bool_decide (cs = State.done) then
        status_ j = Status.ok /\ flight d = None /\ settled j (view d)
      else status_ j <> Status.ok /\ status_ j <> Status.busy /\ safe d) -> durable m).
  { destruct (requested_ j); [destruct (erase_needed_ j); intros (_ & Hf & Hp); auto|].
    case_bool_decide.
    - intros (_ & Hf & [Hok Hp]). rewrite Hf in Hcr. subst m. split; [assumption|].
      destruct (erase_only_ j); [left|right]; apply Hp.
    - intros (_ & _ & H0). by apply H0. }
  destruct cs; cbn in Hs; [by apply Hidle|destruct Hs as (_ & Hf & Hp).. |by apply Hidle|by apply Hidle].
  - auto.
  - rewrite Hf in Hcr. apply (steady_durable _ _ r1), (erase_torn_steady j (view d) m Hp Hm Hcr).
  - auto.
  - rewrite Hf in Hcr. exact (write_torn_durable j (view d) m Hv Hp Hm Hcr).
  - rewrite Hf in Hcr. subst m. destruct Hp as (_ & _ & _ & _ & Hc).
    destruct (checkpoint_ j); [by apply (steady_durable _ _ r1)|]. split; [apply Hc|right; apply Hc].
Qed.

(** ** Every step keeps the invariant *)

Lemma same_safe d d' : safe d -> view d' = view d -> flight d' = flight d -> safe d'.
Proof. intros H Hv Hf m Hm. apply H. unfold crash_image in *. by rewrite <- Hv, <- Hf. Qed.

Lemma poll_safe d st d' :
  dev_ok d -> safe d ->
  (forall a n, flight d = Some (OpErase a n) -> 0 <= n) ->
  flash_poll F d = (st, d') -> dev_ok d' /\ safe d'.
Proof.
  intros Hd Hs Hn Hp. destruct (poll_spec d Hd) as (st' & d0 & E & Hd' & H).
  rewrite Hp in E. injection E as <- <-. split; [assumption|].
  destruct (flight d) as [o|] eqn:Ef.
  2:{ destruct H as (_ & Hv & Hf). apply (same_safe d); [assumption|congruence..]. }
  assert (Htorn : st <> Status.busy -> op_torn o (view d) (view d') /\ flight d' = None).
  { intros. destruct st; destruct H as [H ?]; try done. split; [|assumption].
    apply op_done_torn; [|assumption]. destruct o; [by eapply Hn|done]. }
  destruct (decide (st = Status.busy)) as [->|Hnb].
  { destruct H as [Hv Hf]. apply (same_safe d); [assumption|congruence..]. }
  destruct (Htorn Hnb) as [Ht Hf]. intros m [Hm Hcr]. rewrite Hf in Hcr. subst m.
  apply Hs. split; [assumption|]. by rewrite Ef.
Qed.

Local Abbreviation step_keeps cs j d :=
  (match Journal.Step F layout cs (j, d) with
   | (ns, (j', d')) => dev_ok d' /\ stage ns j' d' /\ machine_ j' = machine_ j
   end).

Lemma step_start cs j d :
  (cs = State.idle \/ cs = State.done \/ cs = State.failed) ->
  dev_ok d -> stage cs j d -> step_keeps cs j d.
Proof.
  intros Hcs Hd Hs.
  assert (Hreq : requested_ j = true -> step_keeps cs j d).
  { intros Er. destruct Hcs as [->|[->| ->]]; cbn in *; rewrite Er in *;
      destruct Hs as (Hb & Hf & Hp); destruct (erase_needed_ j); (split; [assumption|]); (split; [|reflexivity]); (split; [by split|]); (split; [assumption|exact Hp]). }
  destruct (requested_ j) eqn:Er; [by apply Hreq|].
  destruct Hcs as [->|[->| ->]]; cbn in *; rewrite Er in *; (split; [assumption|]);
    (split; [|reflexivity]); cbn; rewrite Er; exact Hs.
Qed.

(** Error exits: the status is neither [ok] nor [busy]. *)
Definition stopped (st : Status) : Prop := st <> Status.ok /\ st <> Status.busy.

Lemma stage_failed j d :
  requested_ j = false -> stopped (status_ j) -> safe d -> stage State.failed j d.
Proof. intros Hr [? ?] Hs. cbn. rewrite Hr. by split_and!. Qed.

Lemma stopped_result st : st <> Status.ok ->
  stopped (if st =s? Status.busy then Status.io_error else st).
Proof.
  intros. destruct (decide (st = Status.busy)) as [->|Hb]; [done|].
  apply st_eqb_neq in Hb as Hb'. rewrite Hb'. by split.
Qed.

Lemma step_erase j d : dev_ok d -> stage State.erase j d -> step_keeps State.erase j d.
Proof.
  intros Hd Hs. pose proof (stage_safe _ _ _ Hd Hs) as Hsafe.
  destruct Hs as ((Hr & Hb) & Hf & Hp). cbn [Journal.Step].
  destruct (timed_out_ j).
  { split_and!; [done| |done]. by apply stage_failed. }
  destruct (erase_spec d (target_ j) Hd Hf) as (st & d' & -> & Hd' & Hv & Hfl).
  destruct (decide (st = Status.ok)) as [->|Hst].
  - rewrite st_eqb_refl in *. cbn [negb]. split_and!; [done| |done].
    cbn. rewrite Hv. by split_and!.
  - apply st_eqb_neq in Hst as Hst'. rewrite Hst' in *. cbn [negb]. split_and!; [done| |done].
    apply stage_failed; [done|by apply stopped_result|]. apply (same_safe d); [assumption|congruence..].
Qed.

(** The exit of the two waiting states when the poll is not a plain success. *)
Lemma wait_failed cs j d st d' :
  dev_ok d -> stage cs j d -> (cs = State.erase_wait \/ cs = State.write_wait) ->
  flash_poll F d = (st, d') -> negb (st =s? Status.ok) || timed_out_ j = true ->
  (st =s? Status.busy) && negb (timed_out_ j) = false ->
  dev_ok d' /\
  stage State.failed (j <| status_ := if timed_out_ j then Status.timeout else st |>) d'.
Proof.
  intros Hd Hs Hcs Hp Hbad Hnb. pose proof (stage_safe _ _ _ Hd Hs) as Hsafe.
  assert (Hn : forall a n, flight d = Some (OpErase a n) -> 0 <= n).
  { intros a n Hf. pose proof (lok_sector _ Hlay). destruct Hcs as [-> | ->]; cbn in Hs;
      destruct Hs as (_ & Hf' & _); rewrite Hf' in Hf; [injection Hf as <- <-; lia|discriminate]. }
  destruct (poll_safe d st d' Hd Hsafe Hn Hp) as [Hd' Hs']. split; [assumption|].
  apply stage_failed; [|cbn|assumption].
  - destruct Hcs as [-> | ->]; apply Hs.
  - destruct (timed_out_ j); [done|]. rewrite orb_false_r, andb_true_r in *.
    split; intros ->; done.
Qed.

(** The poll of a waiting state that succeeds. *)
Lemma wait_done d o d' :
  dev_ok d -> flight d = Some o -> flash_poll F d = (Status.ok, d') ->
  dev_ok d' /\ op_done o (view d) (view d') /\ flight d' = None.
Proof.
  intros Hd Hf Hp. destruct (poll_spec d Hd) as (st & d0 & E & Hd' & H). rewrite Hp in E.
  injection E as <- <-. rewrite Hf in H. by destruct H.
Qed.

Lemma wait_busy d o d' :
  dev_ok d -> flight d = Some o -> flash_poll F d = (Status.busy, d') ->
  dev_ok d' /\ view d' = view d /\ flight d' = flight d.
Proof.
  intros Hd Hf Hp. destruct (poll_spec d Hd) as (st & d0 & E & Hd' & H). rewrite Hp in E.
  injection E as <- <-. rewrite Hf in *. by destruct H.
Qed.

Lemma erased_written b m : (forall x, in_block b (sector_size layout) x -> m x = Some byte_ff) ->
  forall r, written m b r 0.
Proof.
  intros H r. pose proof (lok_sector _ Hlay). pose proof (lok_records _ Hlay) as Hm.
  apply Z.mod_divide in Hm as [k Hk]; [|done]. unfold kRecordSize in *.
  split; intros i Hi; [lia|]. apply H. unfold in_block. lia.
Qed.

Lemma sector_slot b : is_sector layout b -> is_slot layout b.
Proof.
  pose proof (lok_sector _ Hlay). pose proof (lok_records _ Hlay) as Hm.
  apply Z.mod_divide in Hm as [k Hk]; [|done].
  intros [-> | ->]; [left|right]; unfold slot_in, kRecordSize in *; rewrite Z.sub_diag;
    split_and!; try done; lia.
Qed.

Lemma step_erase_wait j d :
  dev_ok d -> stage State.erase_wait j d -> step_keeps State.erase_wait j d.
Proof.
  intros Hd Hs. cbn [Journal.Step]. destruct (flash_poll F d) as [st d'] eqn:Hp.
  destruct ((st =s? Status.busy) && negb (timed_out_ j)) eqn:Ebusy.
  { apply andb_true_iff in Ebusy as [Eb _]. apply st_eqb_eq in Eb as ->.
    destruct Hs as (Hwk & Hf & Hpl). destruct (wait_busy _ _ _ Hd Hf Hp) as (Hd' & Hv & Hf').
    split_and!; [done| |done]. cbn. rewrite Hv, Hf'. by split_and!. }
  destruct (negb (st =s? Status.ok) || timed_out_ j) eqn:Ebad.
  { destruct (wait_failed _ _ _ _ _ Hd Hs (or_introl eq_refl) Hp Ebad Ebusy). by split_and!. }
  apply orb_false_iff in Ebad as [Eok Eto]. apply negb_false_iff, st_eqb_eq in Eok as ->.
  destruct Hs as ((Hr & Hb) & Hf & Hpl). destruct (wait_done _ _ _ Hd Hf Hp) as (Hd' & Hdone & Hf').
  pose proof (lok_sector _ Hlay).
  destruct (erase_torn_steady j (view d) (view d') Hpl (view_ok _ Hd')) as [Hst Hh].
  { apply op_done_torn; [lia|assumption]. }
  destruct Hpl as (_ & Hsec & _ & Hrec & Hck & Hoff).
  rewrite bool_decide_true by done. destruct (erase_only_ j) eqn:Eo; split_and!; try done.
  - cbn. rewrite Hr. (split; [reflexivity|]); (split; [assumption|]). split; [apply Hst|].
    cbn. rewrite Eo. split; [apply Hst|apply Hdone].
  - (split; [by split|]); (split; [assumption|]); (split; [assumption|]).
    (split; [by apply sector_slot|]); (split; [assumption|]). split.
    + unfold intent. rewrite Hck. by apply Hrec.
    + exists 0%nat. pose proof unit_sizes. split_and!; [assumption|lia|by apply Nat.Div0.mod_0_l|].
      apply erased_written. apply Hdone.
Qed.

Lemma write_address j : is_slot layout (target_ j) -> forall o, offset_ j = Z.of_nat o -> (o + w <= 256)%nat ->
  u32 (target_ j + offset_ j) = target_ j + offset_ j.
Proof.
  intros Ht o Hoff Ho. pose proof unit_sizes.
  apply (slot_u32 layout Hlay); [assumption|unfold kRecordSize; lia..].
Qed.

Lemma step_write j d : dev_ok d -> stage State.write j d -> step_keeps State.write j d.
Proof.
  intros Hd Hs. pose proof (stage_safe _ _ _ Hd Hs) as Hsafe.
  destruct Hs as ((Hr & Hb) & Hf & Hp). cbn [Journal.Step].
  destruct (timed_out_ j).
  { split_and!; [done| |done]. by apply stage_failed. }
  pose proof Hp as (Hst & Ht & _ & Hi & o & Hoff & Ho & _).
  destruct (intent_committable j _ (view_ok _ Hd) (proj1 Hst) Hi) as [sr [_ _ Hbytes Hlen]].
  rewrite (write_address j Ht o Hoff Ho).
  replace (Z.to_nat (write_size layout)) with w by lia.
  destruct (program_spec d (target_ j + offset_ j) (sub (record_ j) (Z.to_nat (offset_ j)) w) Hd Hf)
    as (st & d' & -> & Hd' & Hv & Hfl).
  { auto with wf. }
  { rewrite length_sub; [by rewrite Hw|]. rewrite Hoff, Nat2Z.id. lia. }
  destruct (decide (st = Status.ok)) as [->|Hst'].
  - rewrite st_eqb_refl in *. cbn [negb]. split_and!; [done| |done].
    split; [by split|]. split; [assumption|]. by rewrite Hv.
  - apply st_eqb_neq in Hst' as Hneq. rewrite Hneq in *. cbn [negb]. split_and!; [done| |done].
    apply stage_failed; [done|by apply stopped_result|].
    apply (same_safe d); [assumption|congruence..].
Qed.

(** The invariant after a unit has been programmed. *)
Lemma unit_written j d d' o :
  dev_ok d -> dev_ok d' -> write_plan j (view d) -> offset_ j = Z.of_nat o -> (o + w <= 256)%nat ->
  op_done (OpProgram (target_ j + offset_ j) (sub (record_ j) (Z.to_nat (offset_ j)) w)) (view d) (view d') ->
  written (view d') (target_ j) (record_ j) (o + w) /\
  outside (target_ j) kRecordSize (view d) (view d').
Proof.
  intros Hd Hd' (Hst & Ht & _ & Hi & o' & Hoff' & _ & _ & Hwr) Hoff Ho Hdone.
  assert (o' = o) as -> by lia.
  destruct (intent_committable j _ (view_ok _ Hd) (proj1 Hst) Hi) as [sr [_ _ _ Hlen]].
  rewrite Hoff, Nat2Z.id in Hdone. split.
  - by apply (written_step w (view d)).
  - eapply (unit_outside _ o); [|exact Ho|apply op_done_torn; [done|exact Hdone]].
    apply length_sub. lia.
Qed.

(** A complete record, ready to be verified. *)
Lemma complete_plan j d d' o :
  dev_ok d -> dev_ok d' -> write_plan j (view d) -> offset_ j = Z.of_nat o -> (o + w = 256)%nat ->
  op_done (OpProgram (target_ j + offset_ j) (sub (record_ j) (Z.to_nat (offset_ j)) w)) (view d) (view d') ->
  verify_plan j (view d').
Proof.
  intros Hd Hd' Hp Hoff Ho Hdone.
  destruct (unit_written j d d' o Hd Hd' Hp Hoff ltac:(lia) Hdone) as [Hwr Hout]. rewrite Ho in Hwr.
  pose proof Hp as (Hst & Ht & Heo & Hi & _).
  destruct (intent_committable j _ (view_ok _ Hd) (proj1 Hst) Hi) as [sr Hcr].
  pose proof (written_complete _ _ _ _ _ Hcr Hwr) as Hat.
  destruct (write_plan_slot j _ _ (view_ok _ Hd) Hp Hout) as [_ Hsome].
  split_and!; [assumption..| |by exists sr|by eapply Hsome].
  unfold intent in *. destruct (checkpoint_ j); [|assumption].
  destruct Hi as ((s & b & Hold & Hb & Hs) & Hrest). split; [|assumption]. exists s.
  assert (sr = s) as ->.
  { apply slot_at_Some in Hs as [_ Hs]. pose proof (com_decode _ _ _ Hcr). congruence. }
  by exists (target_ j).
Qed.

(** A record with units still to write. *)
Lemma partial_plan j d d' o :
  dev_ok d -> dev_ok d' -> write_plan j (view d) -> offset_ j = Z.of_nat o ->
  (o + w <= 256)%nat -> (o + w <> 256)%nat ->
  op_done (OpProgram (target_ j + offset_ j) (sub (record_ j) (Z.to_nat (offset_ j)) w)) (view d) (view d') ->
  write_plan (j <| offset_ := offset_ j + write_size layout |>) (view d').
Proof.
  intros Hd Hd' Hp Hoff Ho Hne Hdone.
  destruct (unit_written j d d' o Hd Hd' Hp Hoff Ho Hdone) as [Hwr Hout].
  pose proof Hp as (Hst & Ht & Heo & Hi & o' & Hoff' & _ & Hmod & Hwr0).
  assert (o' = o) as -> by lia.
  destruct (intent_committable j _ (view_ok _ Hd) (proj1 Hst) Hi) as [sr Hcr].
  assert (Hmod2 : ((o + w) mod w = 0)%nat).
  { rewrite Nat.Div0.add_mod, Hmod, Nat.Div0.mod_same. apply Nat.Div0.mod_0_l. }
  assert (Ho2 : (o + w + w <= 256)%nat).
  { apply Nat.Div0.mod_divides in Hmod2 as [q Hq]. destruct unit_sizes as [-> | ->]; lia. }
  pose proof (written_partial w _ _ _ _ _ unit_sizes Hcr Ho2 Hmod2 Hwr (view_ok _ Hd')) as Hnone.
  pose proof (written_partial w _ _ _ _ _ unit_sizes Hcr Ho Hmod Hwr0 (view_ok _ Hd)) as Hnone0.
  destruct (write_plan_slot j _ _ (view_ok _ Hd) Hp Hout) as [Hsteady _].
  split; [exact (Hsteady Hnone)|]. split; [exact Ht|]. split; [exact Heo|]. split.
  - unfold intent in *. cbn. destruct (checkpoint_ j); [|assumption].
    destruct Hi as ((s & b & Hold & Hb & Hs) & Hrest). split; [|assumption]. exists s, b.
    split_and!; [assumption..|]. rewrite (slot_other layout Hlay (view d) _ (target_ j)); try assumption.
    intros ->. congruence.
  - exists (o + w)%nat. split; [cbn; lia|]. by split_and!.
Qed.

Lemma step_write_wait j d :
  dev_ok d -> stage State.write_wait j d -> step_keeps State.write_wait j d.
Proof.
  intros Hd Hs. cbn [Journal.Step]. destruct (flash_poll F d) as [st d'] eqn:Hp.
  destruct ((st =s? Status.busy) && negb (timed_out_ j)) eqn:Ebusy.
  { apply andb_true_iff in Ebusy as [Eb _]. apply st_eqb_eq in Eb as ->.
    destruct Hs as (Hwk & Hf & Hpl). destruct (wait_busy _ _ _ Hd Hf Hp) as (Hd' & Hv & Hf').
    split_and!; [done| |done]. split; [assumption|]. rewrite Hv, Hf'. by split. }
  destruct (negb (st =s? Status.ok) || timed_out_ j) eqn:Ebad.
  { destruct (wait_failed _ _ _ _ _ Hd Hs (or_intror eq_refl) Hp Ebad Ebusy). by split_and!. }
  apply orb_false_iff in Ebad as [Eok Eto]. apply negb_false_iff, st_eqb_eq in Eok as ->.
  destruct Hs as ((Hr & Hb) & Hf & Hpl). destruct (wait_done _ _ _ Hd Hf Hp) as (Hd' & Hdone & Hf').
  rewrite bool_decide_false by done. pose proof Hpl as (Hst & _ & _ & Hi & o & Hoff & Ho & _).
  destruct (intent_committable j _ (view_ok _ Hd) (proj1 Hst) Hi) as [sr [_ _ _ Hlen]].
  cbn [offset_ record_ field_update]. 
  destruct (Z.eqb_spec (offset_ j + write_size layout) (Z.of_nat (length (record_ j)))) as [E|E].
  - split_and!; [done| |done]. split; [by split|]. split; [assumption|].
    apply (complete_plan j d d' o); try assumption. lia.
  - split_and!; [done| |done]. split; [by split|]. split; [assumption|].
    apply (partial_plan j d d' o); try assumption. lia.
Qed.

Lemma step_verify j d : dev_ok d -> stage State.verify j d -> step_keeps State.verify j d.
Proof.
  intros Hd ((Hr & Hb) & Hf & Ht & Heo & Hi & [s Hs] & Hc). cbn [Journal.Step].
  destruct (read_spec d (target_ j) (replicate 256 0) Hd Hf) as (st & bs & d' & -> & Hd' & Hv & Hf' & _ & Hrd).
  { rewrite length_replicate. replace (target_ j) with (target_ j + 0) by lia.
    apply (slot_covers F layout Hcov); first [assumption|done]. }
  pose proof Hs as Hs'. apply slot_at_Some in Hs' as [Hm Hdec].
  rewrite length_replicate, Hm in Hrd. destruct Hrd as [-> ->].
  rewrite bool_decide_true, st_eqb_refl by reflexivity. cbn [negb andb].
  unfold intent in Hi. cbn [status_ checkpoint_ field_update]. rewrite st_eqb_refl. cbn [andb].
  destruct (checkpoint_ j) eqn:Eck; (split; [assumption|]); (split; [|reflexivity]).
  - destruct Hi as ((s0 & b & Hold & Hb0 & Hs0) & Hpr & Hps & Hout).
    assert (s0 = s) as -> by (apply slot_at_Some in Hs0 as [_ Hs0]; congruence).
    (split; [by split|]); (split; [assumption|]). rewrite Hv. (split; [exact Hc|]); (split; [exact Hps|]).
    split; [|by split_and!]. intros s' Hs'. exists (target_ j), (record_ j).
    rewrite Hold in Hs'. injection Hs' as <-. split; [exact Ht|]. split; [exact Hs|exact Hout].
  - cbn. rewrite Hr. (split; [reflexivity|]); (split; [assumption|]). rewrite Hv.
    split; [apply Hc|]. cbn. rewrite Heo. split; [apply Hc|]. rewrite Hs, Hi.
    rewrite Hi, (com_decode _ _ _ Hr1) in Hdec. injection Hdec as ->. reflexivity.
Qed.

Lemma step_keeps_all cs j d : dev_ok d -> stage cs j d -> step_keeps cs j d.
Proof.
  intros Hd Hs. destruct cs;
    [apply step_start|apply step_erase|apply step_erase_wait|apply step_write|apply step_write_wait
    |apply step_verify|apply step_start|apply step_start]; auto.
Qed.

(** The bookkeeping members do not matter to the invariant. *)
Lemma stage_machine cs j d m : stage cs (j <| machine_ := m |>) d = stage cs j d.
Proof. destruct j, cs; reflexivity. Qed.
Lemma stage_started cs j d t : stage cs (j <| operation_started_ := t |>) d = stage cs j d.
Proof. destruct j, cs; reflexivity. Qed.
Lemma stage_timed_out cs j d b : stage cs (j <| timed_out_ := b |>) d = stage cs j d.
Proof. destruct j, cs; reflexivity. Qed.

Lemma stage_same cs j d d' : stage cs j d -> view d' = view d -> flight d' = flight d -> stage cs j d'.
Proof.
  intros H Hv Hf. destruct cs; cbn in *; rewrite Hv, Hf; try exact H;
    (destruct (requested_ j); [exact H|]); case_bool_decide; try exact H;
    destruct H as (? & ? & H); by split_and!; [| |by apply (same_safe d)].
Qed.

Definition Inv (j : Journal) (d : D) : Prop :=
  dev_ok d /\ ticking_ (machine_ j) = false /\ stage (cs (machine_ j)) j d.

Lemma Inv_now j d t d' : Inv j d -> flash_now F d = (t, d') -> Inv j d'.
Proof.
  intros (Hd & Ht & Hs) Hn. destruct (now_spec d Hd) as (t' & d0 & E & Hd' & Hv & Hf).
  rewrite Hn in E. injection E as <- <-. split_and!; [assumption..|]. by apply (stage_same _ _ d).
Qed.
Lemma Inv_timed_out j d b : Inv j d -> Inv (j <| timed_out_ := b |>) d.
Proof. intros (Hd & Ht & Hs). split_and!; [assumption..|]. by rewrite stage_timed_out. Qed.
Lemma Inv_started j d t : Inv j d -> Inv (j <| operation_started_ := t |>) d.
Proof. intros (Hd & Ht & Hs). split_and!; [assumption..|]. by rewrite stage_started. Qed.

Lemma Step_frame cs (jd : Journal * D) :
  machine (snd (Journal.Step F layout cs jd)) = machine jd.
Proof.
  destruct jd as [j d]. destruct cs; cbn [Journal.Step]; repeat (split_match; cbn); try reflexivity.
Qed.

(** Whether the request only erases is fixed when it is made. *)
Lemma erase_only_Step cs j d :
  erase_only_ (fst (snd (Journal.Step F layout cs (j, d)))) = erase_only_ j.
Proof. destruct cs; cbn [Journal.Step]; repeat (split_match; cbn); congruence. Qed.

Lemma erase_only_tick j d :
  ticking_ (machine_ j) = false -> erase_only_ (fst (Journal.tick F layout j d)) = erase_only_ j.
Proof.
  intros Ht. unfold Journal.tick.
  destruct (if requested_ j then _ else _) as [j1 d1] eqn:E1.
  assert (H1 : erase_only_ j1 = erase_only_ j /\ machine_ j1 = machine_ j).
  { repeat split_match_in E1; by injection E1 as <- <-. }
  destruct H1 as [<- Hm]. rewrite <- Hm in Ht.
  rewrite (tick_step_only (Journal.Step F layout) Step_frame (j1, d1) Ht). cbn [fst snd with_machine Journal_machine].
  pose proof (erase_only_Step (cs (machine_ j1)) (j1 <| machine_ := pre_machine (machine_ j1) |>) d1) as H.
  cbn [machine Journal_machine fst]. destruct (Journal.Step F layout _ _) as [ns [j2 d2]]. exact H.
Qed.

(** Without a pending checkpoint, the target is fixed as well. *)
Lemma target_Step cs j d :
  checkpoint_ j = false ->
  let j' := fst (snd (Journal.Step F layout cs (j, d))) in
  checkpoint_ j' = false /\ target_ j' = target_ j.
Proof.
  intros Hc. destruct cs; cbn [Journal.Step]; cbn [checkpoint_ field_update];
    rewrite ?Hc, ?andb_false_r; repeat (split_match; cbn); try by split.
  by rewrite andb_false_r in *.
Qed.

Lemma target_tick j d :
  ticking_ (machine_ j) = false -> checkpoint_ j = false ->
  let j' := fst (Journal.tick F layout j d) in checkpoint_ j' = false /\ target_ j' = target_ j.
Proof.
  intros Ht Hc. cbn zeta. unfold Journal.tick.
  destruct (if requested_ j then _ else _) as [j1 d1] eqn:E1.
  assert (H1 : target_ j1 = target_ j /\ checkpoint_ j1 = checkpoint_ j /\ machine_ j1 = machine_ j).
  { repeat split_match_in E1; by injection E1 as <- <-. }
  destruct H1 as (<- & Hc1 & Hm). rewrite <- Hm in Ht. rewrite <- Hc1 in Hc.
  rewrite (tick_step_only (Journal.Step F layout) Step_frame (j1, d1) Ht). cbn [fst snd with_machine Journal_machine].
  cbn [machine Journal_machine fst].
  match goal with |- context [Journal.Step F layout ?c (?j0, ?d0)] =>
    pose proof (target_Step c j0 d0 Hc) as H; destruct (Journal.Step F layout c (j0, d0)) as [ns [j2 d2]] end.
  exact H.
Qed.

Lemma Inv_tick j d : Inv j d ->
  let '(j', d') := Journal.tick F layout j d in Inv j' d'.
Proof.
  intros HI. unfold Journal.tick.
  destruct (if requested_ j then _ else _) as [j1 d1] eqn:E1.
  assert (HI1 : Inv j1 d1).
  { destruct (requested_ j); [|destruct (status_ j =s? Status.busy)];
      [destruct (flash_now F d) as [t d0] eqn:En; injection E1 as <- <-..|by injection E1 as <- <-].
    - eapply Inv_started, Inv_now; eassumption.
    - case_match; [apply Inv_timed_out|]; eapply Inv_now; eassumption. }
  clear HI E1. destruct HI1 as (Hd & Ht & Hs).
  rewrite (tick_step_only (Journal.Step F layout) Step_frame (j1, d1) Ht).
  cbn [machine Journal_machine fst snd with_machine].
  pose proof (step_keeps_all (cs (machine_ j1)) (j1 <| machine_ := pre_machine (machine_ j1) |>) d1 Hd)
    as Hk. rewrite stage_machine in Hk. specialize (Hk Hs).
  destruct (Journal.Step F layout _ _) as [ns [j2 d2]]. destruct Hk as (Hd2 & Hs2 & _).
  cbn [snd fst]. split; [assumption|]. split; [apply ticking_post_machine|].
  rewrite stage_machine. cbn [machine_ field_update]. rewrite cs_post_machine. by destruct ns.
Qed.

(** [run_loop] ends in [done] with the record committed, or in a failed state
    that is safe; in between the invariant held all the time. *)
Lemma Inv_run_loop fuel start timeout j d j' d' :
  Inv j d -> Journal.run_loop F layout fuel start timeout j d = Some (j', d') ->
  Inv j' d' /\ status_ j' <> Status.busy /\ erase_only_ j' = erase_only_ j.
Proof.
  revert j d. induction fuel as [|fuel IH]; intros j d HI; cbn.
  - destruct (status_ j =s? Status.busy) eqn:Eb; [discriminate|]. intros [= <- <-].
    split; [assumption|]. split; [by apply st_eqb_neq|done].
  - destruct (status_ j =s? Status.busy) eqn:Eb.
    2:{ intros [= <- <-]. split; [assumption|]. split; [by apply st_eqb_neq|done]. }
    destruct (flash_now F d) as [now d1] eqn:En. intros H.
    set (j1 := j <| timed_out_ := u64 (now - start) >=? timeout |>) in *.
    assert (HI1 : Inv j1 d1) by (apply Inv_timed_out; by eapply Inv_now).
    pose proof (Inv_tick j1 d1 HI1) as Hk.
    pose proof (erase_only_tick j1 d1 (proj1 (proj2 HI1))) as He.
    destruct (Journal.tick F layout _ _) as [j2 d2]. cbn in He.
    change (erase_only_ j1) with (erase_only_ j) in He. rewrite <- He. by apply (IH j2 d2).
Qed.

Lemma target_run_loop fuel start timeout j d j' d' :
  Inv j d -> checkpoint_ j = false ->
  Journal.run_loop F layout fuel start timeout j d = Some (j', d') -> target_ j' = target_ j.
Proof.
  revert j d. induction fuel as [|fuel IH]; intros j d HI Hc; cbn;
    (destruct (status_ j =s? Status.busy); [|by intros [= <- <-]]); [done|].
  destruct (flash_now F d) as [now d1] eqn:En. intros H.
  set (j1 := j <| timed_out_ := u64 (now - start) >=? timeout |>) in *.
  assert (HI1 : Inv j1 d1) by (apply Inv_timed_out; by eapply Inv_now).
  pose proof (Inv_tick j1 d1 HI1) as Hk.
  pose proof (target_tick j1 d1 (proj1 (proj2 HI1)) Hc) as Ht.
  destruct (Journal.tick F layout _ _) as [j2 d2]. cbn [fst] in Ht. destruct Ht as [Hc2 Ht2].
  change (target_ j1) with (target_ j) in Ht2. rewrite <- Ht2. by apply (IH j2 d2).
Qed.

(** A finished request: success means the promised newest snapshot. *)
Lemma Inv_final j d : Inv j d -> status_ j <> Status.busy ->
  safe d /\ (status_ j = Status.ok -> flight d = None /\ settled j (view d)) /\
  (cs (machine_ j) = State.idle \/ cs (machine_ j) = State.done \/ cs (machine_ j) = State.failed).
Proof.
  intros (Hd & _ & Hs) Hb. split; [by eapply stage_safe|]. split.
  2:{ destruct (cs (machine_ j)); auto; by destruct Hs as ((_ & ?) & _). }
  intros Hok.
  destruct (cs (machine_ j)); cbn in Hs;
    try (destruct Hs as ((_ & Hb') & _); congruence);
    (destruct (requested_ j); [destruct Hs as (Hb' & _); congruence|]);
    case_bool_decide; destruct Hs as (H1 & H2 & H3); try congruence; by split.
Qed.

(** ** Only the metadata sectors are touched *)

Definition in_metadata (x : Z) : Prop :=
  exists b, is_sector layout b /\ in_block b (sector_size layout) x.

Definition elsewhere (d d' : D) : Prop := forall x, ~ in_metadata x -> view d' x = view d x.

Lemma elsewhere_eq d d' : view d' = view d -> elsewhere d d'.
Proof. intros H x _. by rewrite H. Qed.
Lemma elsewhere_trans d1 d2 d3 : elsewhere d1 d2 -> elsewhere d2 d3 -> elsewhere d1 d3.
Proof. intros H1 H2 x Hx. rewrite H2, H1 by exact Hx. reflexivity. Qed.

Lemma poll_elsewhere d :
  dev_ok d ->
  (forall o x, flight d = Some o -> in_block (op_start o) (op_size o) x -> in_metadata x) ->
  elsewhere d (snd (flash_poll F d)).
Proof.
  intros Hd Ho. destruct (poll_spec d Hd) as (st & d' & E & _ & H). rewrite E. cbn [snd].
  destruct (flight d) as [o|]; [|apply elsewhere_eq, H].
  assert (Hcase : view d' = view d \/ forall x, ~ in_block (op_start o) (op_size o) x -> view d' x = view d x).
  { destruct st; destruct H as [H _]; first [right; exact (proj1 H)|left; exact H]. }
  destruct Hcase as [Hv|Hv]; [by apply elsewhere_eq|].
  intros x Hx. apply Hv. intros Hin. apply Hx. by apply (Ho o).
Qed.

Lemma slot_in_metadata a x : is_slot layout a -> in_block a kRecordSize x -> in_metadata x.
Proof.
  clear. unfold in_block. intros [(? & ? & _)|(? & ? & _)] Hx.
  - exists (fst (metadata layout)). split; [by left|unfold in_block; lia].
  - exists (snd (metadata layout)). split; [by right|unfold in_block; lia].
Qed.

Lemma flight_in_metadata cs j d o x :
  dev_ok d -> stage cs j d -> (cs = State.erase_wait \/ cs = State.write_wait) ->
  flight d = Some o -> in_block (op_start o) (op_size o) x -> in_metadata x.
Proof.
  intros Hd Hs Hcs Hf Hx. destruct Hcs as [-> | ->]; destruct Hs as (_ & Hf' & Hp); rewrite Hf' in Hf; injection Hf as <-.
  - exists (target_ j). split; [apply Hp|exact Hx].
  - pose proof Hp as (Hst & Ht & _ & Hi & o' & Hoff & Ho & _).
    destruct (intent_committable j _ (view_ok _ Hd) (proj1 Hst) Hi) as [sr [_ _ _ Hlen]].
    apply (slot_in_metadata (target_ j)); [exact Ht|]. cbn in Hx. rewrite length_sub in Hx by lia.
    unfold in_block, kRecordSize in *. lia.
Qed.

Lemma step_elsewhere cs j d :
  dev_ok d -> stage cs j d -> elsewhere d (snd (snd (Journal.Step F layout cs (j, d)))).
Proof.
  intros Hd Hs.
  assert (Hwait : cs = State.erase_wait \/ cs = State.write_wait -> elsewhere d (snd (flash_poll F d))).
  { intros Hcs. apply poll_elsewhere; [exact Hd|]. intros o x. by apply (flight_in_metadata cs j d). }
  destruct cs; cbn [Journal.Step];
    try (repeat (split_match; cbn [snd]); by apply elsewhere_eq).
  - destruct Hs as (_ & Hf & _). destruct (timed_out_ j); [by apply elsewhere_eq|].
    destruct (erase_spec d (target_ j) Hd Hf) as (st & d' & -> & _ & Hv & _).
    destruct (negb _); by apply elsewhere_eq.
  - specialize (Hwait (or_introl eq_refl)). destruct (flash_poll F d) as [st d'].
    repeat (split_match; cbn [snd]); exact Hwait.
  - destruct Hs as (_ & Hf & Hp). destruct (timed_out_ j); [by apply elsewhere_eq|].
    pose proof Hp as (Hst & Ht & _ & Hi & o & Hoff & Ho & _).
    destruct (intent_committable j _ (view_ok _ Hd) (proj1 Hst) Hi) as [sr [_ _ Hbytes Hlen]].
    match goal with |- context [flash_program F d ?a ?b] =>
      destruct (program_spec d a b Hd Hf) as (st & d' & -> & _ & Hv & _) end.
    { auto with wf. }
    { rewrite length_sub; lia. }
    destruct (negb _); by apply elsewhere_eq.
  - specialize (Hwait (or_intror eq_refl)). destruct (flash_poll F d) as [st d'].
    repeat (split_match; cbn [snd]); exact Hwait.
  - destruct Hs as (_ & Hf & Ht & _).
    destruct (read_spec d (target_ j) (replicate 256 0) Hd Hf) as (st & bs & d' & -> & _ & Hv & _).
    { rewrite length_replicate. replace (target_ j) with (target_ j + 0) by lia.
      apply (slot_covers F layout Hcov); first [assumption|done]. }
    repeat (split_match; cbn [snd]); by apply elsewhere_eq.
Qed.

(** An operation in flight after a step was there before, or has just started. *)
Lemma flight_step cs j d o :
  dev_ok d -> stage cs j d ->
  let '(ns, (j', d')) := Journal.Step F layout cs (j, d) in
  flight d' = Some o -> flight d = Some o \/ ns = State.erase_wait \/ ns = State.write_wait.
Proof.
  intros Hd Hs.
  assert (Hpoll : forall st d', flash_poll F d = (st, d') -> flight d' = Some o -> flight d = Some o).
  { intros st d' E Ho. destruct (poll_spec d Hd) as (st' & d0 & E' & _ & Hp). rewrite E in E'. injection E' as <- <-.
    destruct (flight d) as [o'|]; [|destruct Hp as (_ & _ & ?); congruence].
    destruct st; destruct Hp as [_ Hp]; congruence. }
  destruct cs; cbn [Journal.Step].
  - destruct (requested_ j); [destruct (erase_needed_ j)|]; by left.
  - destruct Hs as (_ & Hf & _). destruct (timed_out_ j); [by left|].
    destruct (erase_spec d (target_ j) Hd Hf) as (st & d' & -> & _ & _ & Hf').
    destruct (st =s? Status.ok); cbn [negb]; [by right; left|congruence].
  - destruct (flash_poll F d) as [st d'] eqn:E. specialize (Hpoll _ _ eq_refl). repeat split_match; auto.
  - destruct Hs as (_ & Hf & Hp). destruct (timed_out_ j); [by left|].
    pose proof Hp as (Hst & Ht & _ & Hi & o' & Hoff & Ho & _).
    destruct (intent_committable j _ (view_ok _ Hd) (proj1 Hst) Hi) as [sr [_ _ Hbytes Hlen]].
    match goal with |- context [flash_program F d ?a ?b] =>
      destruct (program_spec d a b Hd Hf) as (st & d' & -> & _ & _ & Hf') end.
    { auto with wf. }
    { rewrite length_sub; lia. }
    destruct (st =s? Status.ok); cbn [negb]; [by right; right|congruence].
  - destruct (flash_poll F d) as [st d'] eqn:E. specialize (Hpoll _ _ eq_refl). repeat split_match; auto.
  - destruct Hs as (_ & Hf & Ht & _).
    destruct (read_spec d (target_ j) (replicate 256 0) Hd Hf) as (st & bs & d' & -> & _ & _ & Hf' & _).
    { rewrite length_replicate. replace (target_ j) with (target_ j + 0) by lia.
      apply (slot_covers F layout Hcov); first [assumption|done]. }
    repeat split_match; congruence.
  - destruct (requested_ j); [destruct (erase_needed_ j)|]; by left.
  - destruct (requested_ j); [destruct (erase_needed_ j)|]; by left.
Qed.

Lemma tick_elsewhere j d : Inv j d -> elsewhere d (snd (Journal.tick F layout j d)).
Proof.
  intros HI. unfold Journal.tick.
  destruct (if requested_ j then _ else _) as [j1 d1] eqn:E1.
  assert (H1 : Inv j1 d1 /\ view d1 = view d).
  { destruct (requested_ j); [|destruct (status_ j =s? Status.busy)];
      [destruct (now_spec d (proj1 HI)) as (t & d0 & En & _ & Hv & _); rewrite En in E1; injection E1 as <- <-..
      |by injection E1 as <- <-].
    - split; [eapply Inv_started, Inv_now; eassumption|exact Hv].
    - split; [|exact Hv]. case_match; [apply Inv_timed_out|]; eapply Inv_now; eassumption. }
  destruct H1 as [(Hd & Ht & Hs) Hv].
  rewrite (tick_step_only (Journal.Step F layout) Step_frame (j1, d1) Ht).
  cbn [machine Journal_machine fst snd with_machine].
  pose proof (step_elsewhere (cs (machine_ j1)) (j1 <| machine_ := pre_machine (machine_ j1) |>) d1 Hd)
    as Hk. rewrite stage_machine in Hk. specialize (Hk Hs).
  destruct (Journal.Step F layout _ _) as [ns [j2 d2]]. cbn [snd fst] in *.
  eapply elsewhere_trans; [by apply elsewhere_eq|exact Hk].
Qed.

(** The operation in flight stays inside the metadata sectors. *)
Definition flight_local (d : D) : Prop :=
  forall o, flight d = Some o -> 0 <= op_size o /\ forall x, in_block (op_start o) (op_size o) x -> in_metadata x.

Lemma tick_flight_local j d :
  Inv j d -> flight_local d -> flight_local (snd (Journal.tick F layout j d)).
Proof.
  intros HI Hl. unfold Journal.tick.
  destruct (if requested_ j then _ else _) as [j1 d1] eqn:E1.
  assert (H1 : Inv j1 d1 /\ flight d1 = flight d).
  { destruct (requested_ j); [|destruct (status_ j =s? Status.busy)];
      [destruct (now_spec d (proj1 HI)) as (t & d0 & En & _ & _ & Hf); rewrite En in E1; injection E1 as <- <-..
      |by injection E1 as <- <-].
    - split; [eapply Inv_started, Inv_now; eassumption|exact Hf].
    - split; [|exact Hf]. case_match; [apply Inv_timed_out|]; eapply Inv_now; eassumption. }
  destruct H1 as [(Hd & Ht & Hs) Hf].
  rewrite (tick_step_only (Journal.Step F layout) Step_frame (j1, d1) Ht).
  cbn [machine Journal_machine fst snd with_machine]. intros o.
  pose proof (step_keeps_all (cs (machine_ j1)) (j1 <| machine_ := pre_machine (machine_ j1) |>) d1 Hd) as Hk.
  pose proof (flight_step (cs (machine_ j1)) (j1 <| machine_ := pre_machine (machine_ j1) |>) d1 o Hd) as Hfs.
  rewrite stage_machine in Hk, Hfs. specialize (Hk Hs). specialize (Hfs Hs).
  destruct (Journal.Step F layout _ _) as [ns [j2 d2]]. destruct Hk as (Hd2 & Hs2 & _). cbn [snd].
  intros Ho. destruct (Hfs Ho) as [Ho'|Hns]; [rewrite Hf in Ho'; by apply Hl|].
  split; [|intros x; by apply (flight_in_metadata ns j2 d2)].
  pose proof (lok_sector _ Hlay).
  destruct Hns as [-> | ->]; destruct Hs2 as (_ & Ho2 & _); rewrite Ho in Ho2; injection Ho2 as ->; cbn; lia.
Qed.

Lemma run_loop_elsewhere fuel start timeout j d j' d' :
  Inv j d -> Journal.run_loop F layout fuel start timeout j d = Some (j', d') -> elsewhere d d'.
Proof.
  revert j d. induction fuel as [|fuel IH]; intros j d HI; cbn;
    (destruct (status_ j =s? Status.busy); [|by intros [= <- <-]]); [done|].
  destruct (now_spec d (proj1 HI)) as (t & d1 & En & _ & Hv & _). rewrite En. intros H.
  set (j1 := j <| timed_out_ := u64 (t - start) >=? timeout |>) in *.
  assert (HI1 : Inv j1 d1) by (apply Inv_timed_out; by eapply Inv_now).
  pose proof (Inv_tick j1 d1 HI1) as Hk. pose proof (tick_elsewhere j1 d1 HI1) as He.
  destruct (Journal.tick F layout _ _) as [j2 d2]. cbn [snd] in He.
  eapply elsewhere_trans; [by apply elsewhere_eq|]. eapply elsewhere_trans; [exact He|]. by apply (IH j2).
Qed.

(** ** Termination of the foreground loop *)

Lemma step_timed_out cs j d :
  dev_ok d -> stage cs j d -> timed_out_ j = true ->
  match Journal.Step F layout cs (j, d) with
  | (ns, (j', _)) => status_ j' <> Status.busy \/
                     ((ns = State.erase \/ ns = State.write) /\ cs <> State.erase /\ cs <> State.write)
  end.
Proof.
  intros Hd Hs Ht.
  assert (Hidle : (cs = State.idle \/ cs = State.done \/ cs = State.failed) ->
    match Journal.Step F layout cs (j, d) with
    | (ns, (j', _)) => status_ j' <> Status.busy \/
                     ((ns = State.erase \/ ns = State.write) /\ cs <> State.erase /\ cs <> State.write)
    end).
  { intros [->|[->| ->]]; cbn in *; destruct (requested_ j); cbn; (destruct (erase_needed_ j); auto);
      left; destruct Hs as (? & ? & ?); congruence. }
  destruct cs; try (apply Hidle; by auto); cbn [Journal.Step]; rewrite ?Ht; try (by left).
  - destruct (flash_poll F d) as [st d']. rewrite andb_false_r, orb_true_r. by left.
  - destruct (flash_poll F d) as [st d']. rewrite andb_false_r, orb_true_r. by left.
  - pose proof (step_verify j d Hd Hs) as Hk. cbn [Journal.Step] in Hk.
    destruct (flash_read F d _ _) as [[st bs] d']. cbn [status_ checkpoint_ field_update] in *.
    destruct (_ && checkpoint_ j); [right; auto|]. left. destruct Hk as (_ & Hk & _).
    cbn [status_ field_update]. destruct (_ =s? Status.ok) eqn:E.
    + apply st_eqb_eq in E. rewrite E. done.
    + cbn in Hk. destruct Hs as ((Hr & _) & _). rewrite Hr in Hk. by destruct Hk as (_ & ? & _).
Qed.

Lemma reads_Step `{!FlashClock F} cs j d :
  reads (snd (snd (Journal.Step F layout cs (j, d)))) = reads d.
Proof.
  destruct cs; cbn [Journal.Step];
    [|pose proof (erase_reads d (target_ j))|pose proof (poll_reads d)
     |pose proof (program_reads d (u32 (target_ j + offset_ j))
          (sub (record_ j) (Z.to_nat (offset_ j)) (Z.to_nat (write_size layout))))
     |pose proof (poll_reads d)|pose proof (read_reads d (target_ j) (replicate 256 0))| |];
    repeat (split_match; cbn [snd fst] in *); try done.
Qed.

(** One tick reads the clock at most once, and keeps the timeout flag. *)
Lemma reads_tick `{!FlashClock F} j d :
  Inv j d -> (reads d <= reads (snd (Journal.tick F layout j d)) <= S (reads d))%nat.
Proof.
  intros (Hd & Ht & _). unfold Journal.tick. destruct (now_reads d) as (d0 & En & Hr0).
  destruct (if requested_ j then _ else _) as [j1 d1] eqn:E1.
  assert (H1 : (reads d <= reads d1 <= S (reads d))%nat /\ machine_ j1 = machine_ j).
  { rewrite En in E1. destruct (requested_ j); [|destruct (status_ j =s? Status.busy)];
      injection E1 as <- <-; repeat case_match; (split; [lia|reflexivity]). }
  destruct H1 as [H1 Hm]. rewrite <- Hm in Ht.
  rewrite (tick_step_only (Journal.Step F layout) Step_frame (j1, d1) Ht). cbn [fst snd with_machine Journal_machine].
  pose proof (reads_Step (cs (machine_ j1)) (j1 <| machine_ := pre_machine (machine_ j1) |>) d1) as H.
  cbn [machine Journal_machine fst]. destruct (Journal.Step F layout _ _) as [ns [j2 d2]].
  cbn [snd] in *. lia.
Qed.

Lemma tick_timed_out j d :
  Inv j d -> timed_out_ j = true ->
  match Journal.tick F layout j d with
  | (j', _) => status_ j' <> Status.busy \/
      ((cs (machine_ j') = State.erase \/ cs (machine_ j') = State.write) /\
       cs (machine_ j) <> State.erase /\ cs (machine_ j) <> State.write)
  end.
Proof.
  intros HI Hto. unfold Journal.tick.
  destruct (if requested_ j then _ else _) as [j1 d1] eqn:E1.
  assert (H1 : Inv j1 d1 /\ machine_ j1 = machine_ j /\ timed_out_ j1 = true).
  { destruct (requested_ j); [|destruct (status_ j =s? Status.busy)];
      [destruct (flash_now F d) as [t d0] eqn:En; injection E1 as <- <-..|by injection E1 as <- <-].
    - split; [eapply Inv_started, Inv_now; eassumption|done].
    - case_match; (split; [try apply Inv_timed_out; eapply Inv_now; eassumption|done]). }
  destruct H1 as ((Hd & Ht & Hs) & <- & Hto1).
  rewrite (tick_step_only (Journal.Step F layout) Step_frame (j1, d1) Ht).
  cbn [machine Journal_machine fst snd with_machine].
  pose proof (step_timed_out (cs (machine_ j1)) (j1 <| machine_ := pre_machine (machine_ j1) |>) d1 Hd)
    as Hk. rewrite stage_machine in Hk. specialize (Hk Hs Hto1).
  destruct (Journal.Step F layout _ _) as [ns [j2 d2]]. cbn [snd fst].
  destruct Hk as [Hk|[Hns Hcs]]; [by left|right]. split; [|assumption].
  cbn [machine_ field_update]. rewrite cs_post_machine. destruct Hns as [-> | ->]; auto.
Qed.

Lemma run_loop_stopped fuel start timeout j d :
  status_ j <> Status.busy -> Journal.run_loop F layout fuel start timeout j d = Some (j, d).
Proof. intros H. apply st_eqb_neq in H. by destruct fuel; cbn; rewrite H. Qed.

(** The clock has passed the deadline: two more iterations at most. *)
Lemma run_loop_late `{!FlashClock F} start timeout N fuel j d :
  (forall n, (N <= n < N + 4)%nat -> timeout <= u64 (time_at n - start)) ->
  Inv j d -> (N <= reads d <= N + 1)%nat ->
  is_Some (Journal.run_loop F layout (S (S fuel)) start timeout j d).
Proof.
  intros Hdl HI Hr. destruct (decide (status_ j = Status.busy)) as [Hb|Hb].
  2:{ rewrite run_loop_stopped by done. by eexists. }
  cbn [run_loop]. rewrite Hb, st_eqb_refl. destruct (now_reads d) as (d1 & En & Hrd). rewrite En.
  destruct (Z.geb_spec (u64 (time_at (reads d) - start)) timeout) as [_|Hlt]; [|specialize (Hdl (reads d)); lia].
  set (j1 := j <| timed_out_ := true |>).
  assert (HI1 : Inv j1 d1) by (apply Inv_timed_out; by eapply Inv_now).
  pose proof (Inv_tick j1 d1 HI1) as HI2. pose proof (reads_tick j1 d1 HI1) as Hr2.
  pose proof (tick_timed_out j1 d1 HI1 eq_refl) as Hto.
  destruct (Journal.tick F layout j1 d1) as [j2 d2]. cbn [snd] in Hr2.
  destruct Hto as [Hst|[Hcs _]].
  { apply st_eqb_neq in Hst. rewrite Hst. by eexists. }
  destruct (status_ j2 =s? Status.busy); [|by eexists].
  destruct (now_reads d2) as (d3 & En3 & Hr3). rewrite En3.
  destruct (Z.geb_spec (u64 (time_at (reads d2) - start)) timeout) as [_|Hlt]; [|specialize (Hdl (reads d2)); lia].
  set (j3 := j2 <| timed_out_ := true |>).
  assert (HI3 : Inv j3 d3) by (apply Inv_timed_out; by eapply Inv_now).
  pose proof (tick_timed_out j3 d3 HI3 eq_refl) as Hto3.
  destruct (Journal.tick F layout j3 d3) as [j4 d4].
  destruct Hto3 as [Hst|(_ & H1 & H2)]; [rewrite run_loop_stopped by done; by eexists|].
  change (machine_ j3) with (machine_ j2) in *. by destruct Hcs.
Qed.

Lemma run_loop_ends `{!FlashClock F} start timeout N k fuel j d :
  (forall n, (N <= n < N + 4)%nat -> timeout <= u64 (time_at n - start)) ->
  Inv j d -> (reads d <= N + 1)%nat -> (N <= reads d + k)%nat -> (k + 2 <= fuel)%nat ->
  is_Some (Journal.run_loop F layout fuel start timeout j d).
Proof.
  intros Hdl. revert fuel j d. induction k as [|k IH]; intros fuel j d HI Hr Hk Hfuel.
  { destruct fuel as [|[|fuel]]; [lia..|]. apply (run_loop_late _ _ N); [assumption..|lia]. }
  destruct (decide (N <= reads d)%nat).
  { apply IH; [assumption..|lia|lia]. }
  destruct fuel as [|fuel]; [lia|]. cbn [run_loop].
  destruct (status_ j =s? Status.busy); [|by eexists].
  destruct (now_reads d) as (d1 & En & Hrd). rewrite En.
  set (j1 := field_update timed_out_ _ j).
  assert (HI1 : Inv j1 d1) by (apply Inv_timed_out; by eapply Inv_now).
  pose proof (Inv_tick j1 d1 HI1) as HI2. pose proof (reads_tick j1 d1 HI1) as Hr2.
  destruct (Journal.tick F layout j1 d1) as [j2 d2]. cbn [snd] in Hr2.
  apply IH; [assumption|lia..].
Qed.
End machine.
