(* ===== verification/JournalCommit.v ===== *)
(** * Committing a snapshot

    [begin] establishes the invariant of JournalCrash.v, so every tick until the
    request is finished can be cut short by a power failure; a request that
    reports success has made its snapshot the newest one; the foreground loop
    ends when the clock passes its deadline. *)

From S2P Require Import Prelude Foundation Wire StateMachine Flash Codec Journal JournalScan JournalCrash.

Section commit.
Context {D : Type} (F : Flash D) (layout : Layout).
Context `{HC : !FlashContract F (sector_size layout) (write_size layout)}.
Context (Hlay : layout_ok layout).
Context (Hcov : forall a n, 0 <= n -> (exists b, (b = fst (metadata layout) \/ b = snd (metadata layout)) /\
                   b <= a /\ a + n <= b + sector_size layout) -> covers a n).
(** The 32-bit loop variables of [free_record] and [prepare_runtime] do not
    wrap: no metadata sector ends at the top of the address space. *)
Context (Htop : forall b, is_sector layout b -> b + sector_size layout < 2 ^ 32).

Local Abbreviation same := (same F layout).

Definition blank (m : Mem) (a : Z) : Prop := forall x, in_block a kRecordSize x -> m x = Some byte_ff.

Lemma all_ff_block m a n bs :
  mem_read m a n = Some bs -> all_eq byte_ff bs = true ->
  forall x, in_block a (Z.of_nat n) x -> m x = Some byte_ff.
Proof.
  intros Hr Hff x Hx. apply mem_read_Some in Hr as [Hl Hr]. apply all_eq_replicate in Hff.
  unfold in_block in Hx. replace x with (a + Z.of_nat (Z.to_nat (x - a))) by lia.
  rewrite <- Hr by lia. rewrite Hff. apply lookup_replicate. split; [done|lia].
Qed.

Lemma Erased_spec d a :
  dev_ok d -> flight d = None -> is_slot layout a ->
  exists e d', Erased F d a = (e, d') /\ same d d' /\ (e = true -> blank (view d) a).
Proof.
  intros Hd Hf Ha. unfold Erased.
  destruct (read_header F layout Hcov d a Hd Hf Ha) as (st & h & d1 & -> & Hs1 & _ & Hh).
  destruct (negb (st =s? Status.ok) || negb (all_eq byte_ff h)) eqn:E1.
  { exists false, d1. by split_and!. }
  apply orb_false_iff in E1 as [Est Eff]. apply negb_false_iff in Est, Eff.
  apply st_eqb_eq in Est as ->.
  destruct (mem_read (view d) a 16) as [h'|] eqn:Eh; [destruct Hh as [_ ->]|done].
  destruct Hs1 as (Hd1 & Hv1 & Hf1). rewrite Hf in Hf1.
  destruct (read_rest F layout Hlay Hcov d1 a Hd1 Hf1 Ha) as (st & t & d2 & -> & Hs2 & _ & Ht).
  exists ((st =s? Status.ok) && all_eq byte_ff t), d2. split; [done|]. split.
  { eapply same_trans; [|exact Hs2]. by split_and!; [| |congruence]. }
  intros E2. apply andb_true_iff in E2 as [Est Eff2]. apply st_eqb_eq in Est as ->.
  rewrite Hv1 in Ht. destruct (mem_read (view d) (a + 16) 240) as [t'|] eqn:Et; [destruct Ht as [_ ->]|done].
  intros x Hx. unfold in_block, kRecordSize in Hx. destruct (decide (x < a + 16)).
  - apply (all_ff_block _ _ _ _ Eh Eff). unfold in_block. lia.
  - apply (all_ff_block _ _ _ _ Et Eff2). unfold in_block. lia.
Qed.

(** The search for an erased record, from a record boundary of sector [b]. *)
Lemma find_erased_spec wrap fuel b at_ d :
  (forall x, 0 <= x < 2 ^ 32 -> wrap x = x) -> is_sector layout b ->
  dev_ok d -> flight d = None ->
  b <= at_ <= b + sector_size layout -> (at_ - b) mod kRecordSize = 0 ->
  exists r d', find_erased F wrap fuel at_ (b + sector_size layout) d = (r, d') /\ same d d' /\
    forall t, r = Some t -> slot_in b (sector_size layout) t /\ blank (view d) t.
Proof.
  intros Hwrap Hb. revert at_ d. induction fuel as [|fuel IH]; intros at_ d Hd Hf Hat Hmod.
  { by exists None, d. }
  cbn. destruct (Z.ltb_spec at_ (b + sector_size layout)).
  2:{ by exists None, d. }
  assert (Hb0 : 0 <= b) by (destruct Hlay, Hb as [-> | ->]; assumption).
  pose proof (Htop b Hb).
  pose proof (lok_records _ Hlay) as Hrec.
  assert (Hslot : slot_in b (sector_size layout) at_).
  { unfold slot_in. split_and!; [lia| |assumption].
    apply Z.mod_divide in Hmod as [k Hk]; [|done]. apply Z.mod_divide in Hrec as [k' Hk']; [|done].
    unfold kRecordSize in *. lia. }
  assert (His : is_slot layout at_) by (destruct Hb as [-> | ->]; [by left|by right]).
  rewrite u32_small by (unfold is_u32; lia).
  destruct (Erased_spec d at_ Hd Hf His) as (e & d1 & -> & Hs1 & He).
  destruct e.
  - exists (Some at_), d1. split_and!; [done..|]. intros t [= <-]. split; [assumption|by apply He].
  - pose proof Hs1 as (Hd1 & Hv1 & Hf1). rewrite Hf in Hf1.
    destruct Hslot as (_ & Hle & _).
    rewrite Hwrap by (unfold kRecordSize in *; lia).
    destruct (IH (at_ + kRecordSize) d1) as (r & d2 & -> & Hs2 & Hr);
      [assumption..|unfold kRecordSize in *; lia| |].
    { replace (at_ + kRecordSize - b) with (at_ - b + 1 * kRecordSize) by lia.
      by rewrite Z.mod_add. }
    exists r, d2. split; [done|]. split; [by eapply same_trans|]. rewrite <- Hv1. exact Hr.
Qed.

Lemma free_record_spec bank d :
  0 <= bank -> dev_ok d -> flight d = None ->
  exists t d', free_record F layout bank d = (t, d') /\ same d d' /\
    (t = UINT32_MAX \/
     (t <> UINT32_MAX /\ slot_in (sel (metadata layout) bank) (sector_size layout) t /\ blank (view d) t)).
Proof.
  intros Hbank Hd Hf. unfold free_record, sector_limit.
  assert (Hb : is_sector layout (sel (metadata layout) bank)).
  { unfold sel. destruct (bank =? 0); [by left|by right]. }
  pose proof (lok_sector _ Hlay). pose proof (Htop _ Hb).
  destruct (find_erased_spec u32 (scan_fuel layout) _ (sel (metadata layout) bank) d
              (fun x Hx => u32_small x Hx) Hb Hd Hf) as (r & d' & -> & Hs & Hr).
  { lia. } { by rewrite Z.sub_diag. }
  exists (default UINT32_MAX r), d'. split_and!; [done..|].
  destruct r as [t|]; [right|by left]. destruct (Hr t eq_refl) as [Hslot Hbl]. split_and!; [|done..].
  destruct Hslot as (? & ? & _). cbn. unfold kRecordSize, UINT32_MAX in *. lia.
Qed.

(** ** Where the record goes *)

Section place.
Context (old : option Snapshot) (r1 : list Z).

Definition placed (j : Journal) (m : Mem) : Prop :=
  erase_only_ j = false /\
  if erase_needed_ j
  then is_sector layout (target_ j) /\ holds_outside layout old (target_ j) m /\
       record_ j = r1 /\ checkpoint_ j = false
  else is_slot layout (target_ j) /\ blank m (target_ j) /\ intent layout old r1 j m.

(** What [load] told [begin]. *)
Definition known (loaded : Status) (latest : Z) (m : Mem) : Prop :=
  if loaded =s? Status.ok
  then exists s0 r0, old = Some s0 /\ is_slot layout latest /\ slot_at m latest = Some (r0, s0)
  else old = None.

Lemma sel_sector bank : is_sector layout (sel (metadata layout) bank).
Proof. unfold sel. destruct (bank =? 0); [by left|by right]. Qed.

Lemma slot_in_is bank t : slot_in (sel (metadata layout) bank) (sector_size layout) t -> is_slot layout t.
Proof. unfold sel. destruct (bank =? 0); [by left|by right]. Qed.

(** A record in one bank is outside the other. *)
Lemma banks_apart bank t :
  0 <= bank < 2 -> slot_in (sel (metadata layout) bank) (sector_size layout) t ->
  t + kRecordSize <= sel (metadata layout) (1 - bank) \/
  sel (metadata layout) (1 - bank) + sector_size layout <= t.
Proof.
  intros Hb (H1 & H2 & _). pose proof (lok_apart _ Hlay). unfold sel in *.
  assert (bank = 0 \/ bank = 1) as [-> | ->] by lia;
    [change (1 - 0 =? 0) with false|change (1 - 1 =? 0) with true]; cbn in *;
    unfold kRecordSize in *; lia.
Qed.

Lemma latest_bank latest :
  is_slot layout latest ->
  let bank := if (latest >=? snd (metadata layout)) &&
                 (u32 (latest - snd (metadata layout)) <? sector_size layout) then 1 else 0 in
  0 <= bank < 2 /\ slot_in (sel (metadata layout) bank) (sector_size layout) latest.
Proof.
  intros Hl bank. split; [unfold bank; case_match; lia|]. unfold bank.
  destruct Hlay. unfold is_slot, slot_in, kRecordSize, sel in *.
  destruct (_ && _) eqn:E; cbn.
  - apply andb_true_iff in E as [E1 E2]. rewrite u32_small in E2 by (unfold is_u32; lia). lia.
  - destruct Hl as [Hl|Hl]; [assumption|]. exfalso.
    rewrite u32_small in E by (unfold is_u32; lia). apply andb_false_iff in E. lia.
Qed.

Lemma holder_outside bank latest m r0 s0 :
  0 <= bank < 2 -> slot_in (sel (metadata layout) bank) (sector_size layout) latest ->
  old = Some s0 -> slot_at m latest = Some (r0, s0) ->
  holds_outside layout old (sel (metadata layout) (1 - bank)) m.
Proof.
  intros Hb Hin Hold Hat s Hs. rewrite Hold in Hs. injection Hs as <-.
  exists latest, r0. split; [by eapply slot_in_is|]. split; [exact Hat|by apply banks_apart].
Qed.

Lemma place_offline_spec loaded j d :
  dev_ok d -> flight d = None -> known loaded (latest_ j) (view d) ->
  record_ j = r1 -> checkpoint_ j = false -> erase_only_ j = false ->
  exists j' d', place_offline F layout loaded j d = (j', d') /\ same d d' /\
    j' = j <| erase_needed_ := erase_needed_ j' |> <| target_ := target_ j' |> /\
    placed j' (view d).
Proof.
  intros Hd Hf Hk Hrec Hck Heo. unfold place_offline. unfold known in Hk.
  cbn [latest_ field_update].
  destruct (loaded =s? Status.ok).
  2:{ do 2 eexists. split; [done|]. split; [by split_and!|]. split; [done|].
      split; [exact Heo|]. cbn. split_and!; [by left| |done..]. intros s Hs. congruence. }
  destruct Hk as (s0 & r0 & Hold & Hslot & Hat).
  destruct (latest_bank _ Hslot) as [Hbank Hin]. cbn in Hbank, Hin.
  set (bank := if _ && _ then 1 else 0) in *. clearbody bank.
  destruct Hin as (Hlo & Hhi & Hmod). pose proof (sel_sector bank) as Hsec.
  pose proof (Htop _ Hsec). unfold sector_limit.
  destruct (find_erased_spec u64 (scan_fuel layout) _ (latest_ j + kRecordSize) d
    (fun x Hx => u64_small x ltac:(unfold is_u64; lia)) Hsec Hd Hf) as (r & d' & -> & Hs & Hr).
  { unfold kRecordSize in *. lia. }
  { replace (latest_ j + kRecordSize - _) with (latest_ j - sel (metadata layout) bank + 1 * kRecordSize) by lia.
    by rewrite Z.mod_add. }
  destruct r as [t|].
  - destruct (Hr t eq_refl) as [Ht Hbl]. do 2 eexists. split; [done|]. split; [exact Hs|].
    split; [done|]. split; [exact Heo|]. cbn.
    rewrite u32_small by (destruct Ht as (? & ? & _); destruct Hlay, Hsec as [Es|Es]; rewrite Es in *;
      unfold is_u32, kRecordSize in *; lia).
    split; [by eapply slot_in_is|]. split; [exact Hbl|]. unfold intent. cbn. by rewrite Hck.
  - do 2 eexists. split; [done|]. split; [exact Hs|]. split; [done|]. split; [exact Heo|]. cbn.
    split; [apply sel_sector|]. split; [by eapply holder_outside|]. by split.
Qed.

Lemma not_in_bank bank a :
  0 <= bank < 2 -> is_slot layout a ->
  (a >=? sel (metadata layout) (1 - bank)) &&
  (a <? sel (metadata layout) (1 - bank) + sector_size layout) = false ->
  slot_in (sel (metadata layout) bank) (sector_size layout) a.
Proof.
  intros Hb Ha E. apply andb_false_iff in E. unfold is_slot, slot_in, kRecordSize in *.
  assert (bank = 0 \/ bank = 1) as [-> | ->] by lia.
  - change (sel (metadata layout) (1 - 0)) with (snd (metadata layout)) in E.
    change (sel (metadata layout) 0) with (fst (metadata layout)). lia.
  - change (sel (metadata layout) (1 - 1)) with (fst (metadata layout)) in E.
    change (sel (metadata layout) 1) with (snd (metadata layout)). lia.
Qed.

(** The copy read back for a checkpoint. *)
Lemma read_record d a buf r s :
  dev_ok d -> flight d = None -> length buf = 256%nat -> is_slot layout a ->
  slot_at (view d) a = Some (r, s) ->
  exists d', flash_read F d a buf = (Status.ok, r, d') /\ same d d'.
Proof.
  intros Hd Hf Hl Ha Hat. apply slot_at_Some in Hat as [Hm _].
  destruct (read_spec d a buf Hd Hf) as (st & bs & d' & -> & Hd' & Hv & Hf' & _ & H).
  { rewrite Hl. replace a with (a + 0) by lia.
    apply (slot_covers F layout Hcov); first [assumption|done]. }
  rewrite Hl, Hm in H. destruct H as [-> ->]. exists d'. split; [done|]. split_and!; congruence.
Qed.

Lemma place_runtime_spec loaded executing j d :
  dev_ok d -> flight d = None -> known loaded (latest_ j) (view d) -> 0 <= executing < 2 ->
  record_ j = r1 -> length r1 = 256%nat -> checkpoint_ j = false -> erase_only_ j = false ->
  exists early j' d', place_runtime F layout loaded executing j d = (early, j', d') /\ same d d' /\
    machine_ j' = machine_ j /\
    match early with inl st => st <> Status.ok | inr _ => placed j' (view d) end.
Proof.
  intros Hd Hf Hk Hex Hrec Hlen Hck Heo. unfold place_runtime. cbn zeta.
  set (inactive := 1 - executing).
  destruct (free_record_spec inactive d ltac:(lia) Hd Hf) as (t & d1 & -> & Hs1 & Ht).
  destruct Hs1 as (Hd1 & Hv1 & Hf1). rewrite Hf in Hf1. cbn [erase_needed_ field_update].
  assert (Hs1 : same d d1) by (split_and!; congruence).
  destruct (t =? UINT32_MAX) eqn:Et.
  2:{ do 3 eexists. split; [done|]. split; [exact Hs1|]. split; [done|].
      apply Z.eqb_neq in Et. destruct Ht as [?|(_ & Hin & Hbl)]; [done|].
      split; [exact Heo|]. cbn.
      split; [by eapply slot_in_is|]. split; [exact Hbl|]. unfold intent. cbn. by rewrite Hck. }
  cbn [latest_ record_ target_ field_update]. unfold sector_limit.
  destruct (_ && _ && _) eqn:Ein.
  - (* the inactive bank holds the current record: checkpoint first *)
    apply andb_true_iff in Ein as [Ein Ehi]. apply andb_true_iff in Ein as [Eok Elo].
    unfold known in Hk. rewrite Eok in Hk. destruct Hk as (s0 & r0 & Hold & Hslot & Hat).
    destruct (free_record_spec executing d1 ltac:(lia) Hd1 Hf1) as (c & d2 & -> & Hs2 & Hc).
    assert (Hs12 : same d d2) by (eapply same_trans; eassumption).
    destruct Hs2 as (Hd2 & Hv2 & Hf2). rewrite Hf1 in Hf2. rewrite Hv1 in Hv2, Hc.
    destruct (c =? UINT32_MAX) eqn:Ec.
    { do 3 eexists. split; [done|]. by split_and!. }
    apply Z.eqb_neq in Ec. destruct Hc as [?|(_ & Hcin & Hcbl)]; [done|].
    rewrite <- Hv2 in Hat.
    destruct (read_record d2 (latest_ j) (record_ j) r0 s0 Hd2 Hf2) as (d3 & -> & Hs3);
      [by rewrite Hrec|assumption..|].
    rewrite st_eqb_refl. cbn [negb]. do 3 eexists. split; [done|].
    split; [by eapply same_trans|]. split; [done|]. split; [exact Heo|]. cbn.
    split; [by eapply slot_in_is|]. split; [exact Hcbl|]. unfold intent. cbn. rewrite Hv2 in Hat.
    split_and!; [by exists s0, (latest_ j)|done|apply sel_sector|].
    by apply banks_apart.
  - do 3 eexists. split; [done|]. split; [exact Hs1|]. split; [done|].
    split; [exact Heo|]. cbn. split; [apply sel_sector|]. split; [|by split].
    unfold known in Hk. destruct (loaded =s? Status.ok).
    2:{ intros s Hs. congruence. }
    destruct Hk as (s0 & r0 & Hold & Hslot & Hat). cbn [andb] in Ein.
    assert (Hin : slot_in (sel (metadata layout) executing) (sector_size layout) (latest_ j)).
    { by apply not_in_bank. }
    by eapply holder_outside.
Qed.
End place.

(** ** [begin] *)

Context (w : nat) (Hw : write_size layout = Z.of_nat w).
Context (Hfv : flash_valid F = true) (Hlv : Layout_valid layout = true).

Definition quiet (j : Journal) : Prop :=
  ticking_ (machine_ j) = false /\
  (cs (machine_ j) = State.idle \/ cs (machine_ j) = State.done \/ cs (machine_ j) = State.failed).

(** The snapshot that a request for [snapshot] commits over [old]. *)
Definition next_snapshot (old : option Snapshot) (snapshot : Snapshot) : Snapshot :=
  snapshot <| sequence := match old with Some s => sequence s | None => 0 end + 1 |>.

(** The fields the caller provides; the sequence number is assigned by [begin]. *)
Definition request_ok (snapshot : Snapshot) : Prop := snapshot_ok (snapshot <| sequence := 1 |>).

Lemma next_ok old snapshot :
  request_ok snapshot ->
  is_u64 (match old with Some s => sequence s | None => 0 end + 1) ->
  0 <= match old with Some s => sequence s | None => 0 end ->
  snapshot_ok (next_snapshot old snapshot).
Proof. intros [] Hu H0. split; try assumption. cbn. lia. Qed.

Lemma next_committable s : snapshot_ok s -> committable w (encode s (write_size layout)) s.
Proof.
  intros Hs. split; [by apply decode_encode_same| |by apply encode_ok|by apply length_encode].
  rewrite <- Hw. by apply encode_version.
Qed.

Lemma slot_sequence_range m a r s : mem_ok m -> slot_at m a = Some (r, s) -> is_u64 (sequence s).
Proof.
  intros Hm H. apply slot_at_Some in H as [Hr Hd]. apply decode_framed in Hd as [_ ->].
  apply read64_range; [exact (mem_read_bytes _ _ _ _ Hm Hr)|].
  rewrite (mem_read_length _ _ _ _ Hr). lia.
Qed.

(** A placed record satisfies the invariant's plans. *)
Lemma placed_stage old r1 s1 c j d :
  dev_ok d -> flight d = None -> steady layout old r1 s1 (view d) ->
  (c = State.idle \/ c = State.done \/ c = State.failed) ->
  placed old r1 j (view d) ->
  stage F layout old r1 s1 w c
    (j <| offset_ := 0 |> <| timed_out_ := false |> <| requested_ := true |>
       <| status_ := Status.busy |>) d.
Proof.
  intros Hd Hf Hst Hc [Heo Hp].
  enough (H : (if erase_needed_ j
     then erase_plan layout old r1 s1 (j <| offset_ := 0 |>) (view d)
     else write_plan layout old r1 s1 w (j <| offset_ := 0 |>) (view d))).
  { destruct Hc as [->|[->| ->]]; (split; [reflexivity|]); (split; [exact Hf|exact H]). }
  destruct (erase_needed_ j).
  - destruct Hp as (H1 & H2 & H3 & H4). by split_and!.
  - destruct Hp as (H1 & H2 & H3). (split; [exact Hst|]); (split; [exact H1|]); (split; [exact Heo|]).
    split; [exact H3|]. exists 0%nat. pose proof (unit_sizes layout Hlay w Hw).
    (split; [reflexivity|]); (split; [lia|]); (split; [apply Nat.Div0.mod_0_l|]).
    cbn [target_ field_update].
    split; intros i Hi; [lia|]. apply H2. unfold in_block, kRecordSize. lia.
Qed.

Lemma new_dominates old snapshot m :
  before layout old m -> let s1 := next_snapshot old snapshot in
  dominated layout (encode s1 (write_size layout)) s1 m.
Proof.
  intros Hb s1 a r s Ha Hs. left. unfold s1, next_snapshot. cbn. unfold before in Hb.
  destruct old as [s0|].
  - destruct Hb as (_ & _ & _ & _ & Hmax). specialize (Hmax _ _ _ Ha Hs). lia.
  - rewrite (Hb a Ha) in Hs. discriminate.
Qed.

(** What [load] established, as the parameter [old] of the invariant. *)
Lemma loaded_old loaded current latest d :
  dev_ok d ->
  (loaded = Status.ok /\ newest layout (view d) current /\ is_slot layout latest /\
     (exists r, slot_at (view d) latest = Some (r, current)) \/
   (loaded = Status.not_found \/ loaded = Status.io_error) /\ current = no_snapshot /\
     no_record layout (view d)) ->
  exists old, before layout old (view d) /\ known old loaded latest (view d) /\
    sequence current = match old with Some s => sequence s | None => 0 end /\
    is_u64 (sequence current).
Proof.
  intros Hd [(-> & Hnew & Hsl & r & Hat)|(Hst & Hcur & Hno)]; unfold known.
  - exists (Some current). rewrite st_eqb_refl. split_and!; [done|by exists current, r|done|].
    exact (slot_sequence_range _ _ _ _ (view_ok _ Hd) Hat).
  - exists None. replace (loaded =s? Status.ok) with false by (destruct Hst as [-> | ->]; done).
    rewrite Hcur. by split_and!.
Qed.

(** Placement as a whole: [place_offline], refined when a bank is executing. *)
Lemma place_spec old r1 loaded j d :
  dev_ok d -> flight d = None -> known old loaded (latest_ j) (view d) ->
  record_ j = r1 -> length r1 = 256%nat -> checkpoint_ j = false -> erase_only_ j = false ->
  exists j1 d1 early j2 d2, place_offline F layout loaded j d = (j1, d1) /\
    (if executing_bank F d1 <? 2 then place_runtime F layout loaded (executing_bank F d1) j1 d1
     else (inr tt, j1, d1)) = (early, j2, d2) /\
    same d d2 /\ machine_ j2 = machine_ j /\
    match early with inl st => st <> Status.ok | inr _ => placed old r1 j2 (view d) end.
Proof.
  intros Hd Hf Hk Hrec Hlen Hck Heo.
  destruct (place_offline_spec old r1 loaded j d Hd Hf Hk Hrec Hck Heo) as (j1 & d1 & E1 & Hs1 & Hj1 & Hp1).
  exists j1, d1. destruct (executing_bank F d1 <? 2) eqn:Eex.
  2:{ exists (inr tt), j1, d1. split_and!; try done. by rewrite Hj1. }
  assert (Hex : 0 <= executing_bank F d1 < 2).
  { split; [|by apply Z.ltb_lt]. unfold executing_bank in *.
    destruct (flash_executing_bank F) eqn:E; [by eapply bank_spec|lia]. }
  pose proof Hs1 as (Hd1 & Hv1 & Hf1). rewrite Hf in Hf1.
  destruct (place_runtime_spec old r1 loaded (executing_bank F d1) j1 d1 Hd1 Hf1)
    as (early & j2 & d2 & E2 & Hs2 & Hm2 & Hp2); [|exact Hex| |exact Hlen| | |];
    [by rewrite Hv1, Hj1|by rewrite Hj1..|].
  exists early, j2, d2. split_and!; [done|done|by eapply same_trans| |by rewrite <- Hv1].
  rewrite Hm2, Hj1. done.
Qed.

Lemma placed_Inv old r1 s1 j j' d :
  quiet j -> dev_ok d -> flight d = None -> steady layout old r1 s1 (view d) ->
  machine_ j' = machine_ j -> placed old r1 j' (view d) ->
  Inv F layout old r1 s1 w (j' <| offset_ := 0 |> <| timed_out_ := false |>
              <| requested_ := true |> <| status_ := Status.busy |>) d.
Proof.
  intros [Htick Hcs] Hd Hf Hst Hm Hp. rewrite <- Hm in Htick, Hcs.
  split; [assumption|]. split; [exact Htick|]. by apply placed_stage.
Qed.

Lemma begin_spec j d snapshot initialize :
  dev_ok d -> flight d = None -> journal_ok layout (view d) -> quiet j -> request_ok snapshot ->
  exists st j' d', begin F layout j d snapshot initialize = (st, j', d') /\
    view d' = view d /\
    ((st <> Status.ok /\ same d d') \/
     (st = Status.ok /\ exists old, before layout old (view d) /\
        let s1 := next_snapshot old snapshot in
        snapshot_ok s1 /\ erase_only_ j' = false /\
        Inv F layout old (encode s1 (write_size layout)) s1 w j' d')).
Proof.
  intros Hd Hf Hj Hq Hreq. unfold begin.
  destruct (status_ j =s? Status.busy) eqn:Ebusy.
  { do 3 eexists. split; [done|]. split; [done|left]. by split_and!. }
  destruct (load_spec F layout Hlay Hcov j d no_snapshot Hfv Hlv Hd Hf (proj1 Hj))
    as (loaded & current & j1 & d1 & -> & Hs1 & Hj1 & Hload).
  pose proof Hs1 as (Hd1 & Hv1 & Hf1). rewrite Hf in Hf1.
  destruct (negb (loaded =s? Status.ok) && _) eqn:Eld.
  { do 3 eexists. split; [done|]. split; [assumption|left]. split; [|assumption].
    apply andb_true_iff in Eld as [E _]. by apply negb_true_iff, st_eqb_neq in E. }
  destruct (poll_spec d1 Hd1) as (pst & d2 & -> & Hd2 & Hp). rewrite Hf1 in Hp.
  destruct Hp as (Hnb & Hv2 & Hf2). apply st_eqb_neq in Hnb as Hnb'. rewrite Hnb'.
  assert (Hs2 : same d d2) by (split_and!; congruence). rewrite Hv1 in Hv2.
  destruct ((sequence current =? UINT64_MAX) || _) eqn:Eex.
  { do 3 eexists. split; [done|]. split; [assumption|left]. by split. }
  destruct (loaded_old loaded current (latest_ j1) d Hd Hload) as (old & Hbef & Hkn & Hseq & Hu).
  apply orb_false_iff in Eex as [Emax _]. apply Z.eqb_neq in Emax.
  assert (Hu1 : is_u64 (sequence current + 1)) by (unfold is_u64, UINT64_MAX in *; lia).
  rewrite (u64_small _ Hu1). rewrite Hseq in *. fold (next_snapshot old snapshot).
  assert (Hok1 : snapshot_ok (next_snapshot old snapshot)).
  { apply next_ok; [assumption..|]. unfold is_u64 in Hu. lia. }
  pose proof (new_dominates old snapshot (view d) Hbef) as Hdom. cbn zeta in Hdom.
  cbn [record_ field_update]. rewrite decode_encode_same by assumption.
  set (s1 := next_snapshot old snapshot) in *. set (j2 := field_update erase_only_ _ _).
  destruct (place_spec old (encode s1 (write_size layout)) loaded j2 d2 Hd2 Hf2)
    as (j3 & d3 & early & j4 & d4 & -> & -> & Hs4 & Hm4 & Hpl);
    [by rewrite Hv2|done|apply length_encode|done..|].
  destruct Hs4 as (Hd4 & Hv4 & Hf4). rewrite Hv2 in Hv4, Hpl. rewrite Hf2 in Hf4.
  destruct early as [st|[]]; do 3 eexists; (split; [done|]); (split; [assumption|]).
  - left. split; [assumption|]. split_and!; congruence.
  - right. split; [done|]. exists old. split; [assumption|]. split; [assumption|].
    split; [exact (proj1 Hpl)|]. apply (placed_Inv _ _ _ j); [assumption..|by rewrite Hv4| |by rewrite Hv4].
    rewrite Hm4. unfold j2. by rewrite Hj1.
Qed.
End commit.

(** ** A refused request *)

(** What a request that is not accepted leaves alone. *)
Definition kept (j j' : Journal) : Prop :=
  machine_ j' = machine_ j /\ status_ j' = status_ j /\ requested_ j' = requested_ j.

Section refused.
Context {D : Type} (F : Flash D) (layout : Layout).

Lemma kept_trans j1 j2 j3 : kept j1 j2 -> kept j2 j3 -> kept j1 j3.
Proof. unfold kept. intuition congruence. Qed.

Lemma load_kept j d snap : kept j (snd (fst (Journal.load F layout j d snap))).
Proof. unfold Journal.load. by repeat (split_match; cbn [fst snd]). Qed.

Lemma place_offline_kept loaded j d : kept j (fst (place_offline F layout loaded j d)).
Proof. unfold place_offline. by repeat (split_match; cbn [fst snd]). Qed.

Lemma place_runtime_kept loaded executing j d : kept j (snd (fst (place_runtime F layout loaded executing j d))).
Proof. unfold place_runtime. cbn zeta. by repeat (split_match; cbn [fst snd]). Qed.

(** Either nothing of the machine changes, or a request is pending. *)
Lemma begin_cases j d snapshot initialize st j' d' :
  Journal.begin F layout j d snapshot initialize = (st, j', d') ->
  (st <> Status.ok -> kept j j') /\
  (st = Status.ok -> machine_ j' = machine_ j /\ status_ j' = Status.busy /\ requested_ j' = true).
Proof.
  unfold Journal.begin. destruct (status_ j =s? Status.busy); [by intros [= <- <- <-]|].
  pose proof (load_kept j d no_snapshot) as H1. destruct (Journal.load _ _ _ _ _) as [[[loaded current] j1] d1].
  cbn [fst snd] in H1. destruct (negb (loaded =s? Status.ok) && _) eqn:Eld.
  { intros [= <- <- <-]. split; [done|]. intros ->. discriminate. }
  destruct (flash_poll F d1) as [pst d2]. destruct (pst =s? Status.busy); [by intros [= <- <- <-]|].
  destruct (_ || _); [by intros [= <- <- <-]|]. cbn zeta. set (j2 := field_update erase_only_ _ _).
  assert (H2 : kept j j2) by (eapply kept_trans; [exact H1|done]). clearbody j2.
  destruct (decode _); [|by intros [= <- <- <-]].
  pose proof (place_offline_kept loaded j2 d2) as H3. destruct (place_offline _ _ _ _ _) as [j3 d3]. cbn [fst] in H3.
  set (executing := executing_bank F d3).
  assert (H4 : kept j3 (snd (fst (if executing <? 2 then place_runtime F layout loaded executing j3 d3 else (inr tt, j3, d3))))).
  { destruct (executing <? 2); [apply place_runtime_kept|done]. }
  destruct (if executing <? 2 then _ else _) as [[early j4] d4] eqn:Epr; cbn [fst snd] in H4.
  assert (H5 : kept j j4) by (eapply kept_trans; [exact H2|]; by eapply kept_trans).
  destruct early as [early|[]]; intros [= <- <- <-].
  - split; [done|]. intros ->. exfalso. revert Epr. destruct (executing <? 2); [|done].
    unfold place_runtime. cbn zeta. repeat (split_match; try discriminate).
  - split; [done|]. intros _. split; [apply H5|done].
Qed.
End refused.

(** ** The promises of the journal *)

(** A journal on a device that fulfils the flash contract and serves the two
    metadata sectors of a valid layout. *)
Record journal_device {D} (F : Flash D) (layout : Layout)
    `{!FlashContract F (sector_size layout) (write_size layout)} : Prop := {
  jd_callbacks : flash_valid F = true;
  jd_layout : Layout_valid layout = true;
  jd_unsigned : layout_unsigned layout;
  jd_covers : forall a n, 0 <= n -> (exists b, (b = fst (metadata layout) \/ b = snd (metadata layout)) /\
                b <= a /\ a + n <= b + sector_size layout) -> covers a n;
  jd_top : forall b, is_sector layout b -> b + sector_size layout < 2 ^ 32
}.

Section promises.
Context {D : Type} (F : Flash D) (layout : Layout).
Context `{HC : !FlashContract F (sector_size layout) (write_size layout)}.
Context (HJ : journal_device F layout).

Definition tick_pair (w : Journal * D) : Journal * D := Journal.tick F layout (fst w) (snd w).

Lemma device_layout : layout_ok layout.
Proof. destruct HJ. by apply Layout_valid_ok. Qed.

Lemma device_unit : write_size layout = Z.of_nat (Z.to_nat (write_size layout)).
Proof. destruct (lok_write _ device_layout) as [E|E]; rewrite E; done. Qed.

Lemma Inv_ticks old r1 s1 w n j d j' d' :
  write_size layout = Z.of_nat w -> committable w r1 s1 ->
  Inv F layout old r1 s1 w j d -> Nat.iter n tick_pair (j, d) = (j', d') ->
  Inv F layout old r1 s1 w j' d'.
Proof.
  intros Hw Hc HI. revert j' d'. induction n as [|n IH]; intros j' d'; cbn.
  { by intros [= <- <-]. }
  change (nat_rect _ _ _ n) with (Nat.iter n tick_pair (j, d)).
  destruct (Nat.iter n tick_pair (j, d)) as [j0 d0]. unfold tick_pair. cbn [fst snd]. intros E.
  pose proof (Inv_tick F layout device_layout (jd_covers _ _ HJ) old r1 s1 w Hw Hc j0 d0
                (IH _ _ eq_refl)) as H.
  by rewrite E in H.
Qed.

Lemma begin_device j d snapshot initialize :
  dev_ok d -> flight d = None -> journal_ok layout (view d) -> quiet j -> request_ok snapshot ->
  exists st j' d', begin F layout j d snapshot initialize = (st, j', d') /\
    view d' = view d /\
    ((st <> Status.ok /\ same F layout d d') \/
     (st = Status.ok /\ exists old, before layout old (view d) /\
        let s1 := next_snapshot old snapshot in
        snapshot_ok s1 /\ erase_only_ j' = false /\
        Inv F layout old (encode s1 (write_size layout)) s1 (Z.to_nat (write_size layout)) j' d')).
Proof.
  destruct HJ. apply begin_spec; first [assumption|apply device_layout|apply device_unit].
Qed.

(** C1: power-loss safety of a commit.  After [begin] accepted a request, let
    the machine run for any number of ticks and cut the power with whatever
    operation is in flight torn: a [load] after the restart finds the previous
    or the new snapshot (or still none, if there was none), and the journal is
    again one that a next request can start from. *)
Theorem commit_survives_power_loss j d snapshot initialize j1 d1 n j2 d2 m d3 j3 :
  dev_ok d -> flight d = None -> journal_ok layout (view d) -> quiet j -> request_ok snapshot ->
  begin F layout j d snapshot initialize = (Status.ok, j1, d1) ->
  Nat.iter n tick_pair (j1, d1) = (j2, d2) ->
  crash_image F d2 m ->
  dev_ok d3 -> flight d3 = None -> view d3 = m ->
  exists old, before layout old (view d) /\
  exists st s j4 d4, load F layout j3 d3 no_snapshot = (st, s, j4, d4) /\
    journal_ok layout (view d4) /\
    (st = Status.ok /\ (old = Some s \/ s = next_snapshot old snapshot) \/
     st <> Status.ok /\ old = None).
Proof.
  intros Hd Hf Hj Hq Hr Hb Hn Hcr Hd3 Hf3 Hv3. pose proof (jd_covers _ _ HJ) as Hcov.
  destruct (begin_device j d snapshot initialize Hd Hf Hj Hq Hr) as (st & j' & d' & E & _ & H).
  rewrite Hb in E. injection E as <- <- <-.
  destruct H as [[? _]|(_ & old & Hbef & Hok & _ & HI)]; [done|]. exists old. split; [exact Hbef|].
  pose proof (next_committable layout _ device_unit _ Hok) as Hcom.
  pose proof (Inv_ticks _ _ _ _ _ _ _ _ _ device_unit Hcom HI Hn) as (Hd2 & _ & Hs2).
  destruct (stage_safe F layout device_layout _ _ _ _ device_unit Hcom _ _ _ Hd2 Hs2 m Hcr) as [Hjm Hcase].
  subst m. destruct (load_spec F layout device_layout Hcov j3 d3 no_snapshot (jd_callbacks _ _ HJ) (jd_layout _ _ HJ) Hd3 Hf3 (proj1 Hjm))
    as (st & s & j4 & d4 & -> & (_ & Hv4 & _) & _ & Hl).
  exists st, s, j4, d4. split; [done|]. split; [by rewrite Hv4|].
  destruct Hl as [(-> & Hnew & _)|(Hst & _ & Hno)].
  - left. split; [done|]. destruct Hcase as [Hb3|Hb3].
    + unfold before in Hb3. destruct old as [s0|].
      * left. f_equal. exact (newest_unique _ _ _ _ (proj1 Hjm) Hb3 Hnew).
      * destruct Hnew as (a & r & Ha & Hat & _). rewrite (Hb3 a Ha) in Hat. discriminate.
    + right. exact (newest_unique _ _ _ _ (proj1 Hjm) Hnew Hb3).
  - right. split; [destruct Hst; congruence|].
    assert (Hn0 : forall s', ~ newest layout (view d3) s').
    { intros s' (a & r & Ha & Hat & _). rewrite (Hno a Ha) in Hat. discriminate. }
    destruct Hcase as [Hb3|Hb3]; [|by apply Hn0 in Hb3].
    unfold before in Hb3. destruct old; [by apply Hn0 in Hb3|done].
Qed.

Lemma commit_ok_spec fuel j d snapshot timeout initialize j' d' :
  dev_ok d -> flight d = None -> journal_ok layout (view d) -> quiet j -> request_ok snapshot ->
  Journal.commit F layout fuel j d snapshot timeout initialize = Some (Status.ok, j', d') ->
  exists old, before layout old (view d) /\
    newest layout (view d') (next_snapshot old snapshot) /\
    dev_ok d' /\ journal_ok layout (view d') /\ flight d' = None /\ quiet j' /\
    (forall x, ~ in_metadata layout x -> view d' x = view d x).
Proof.
  intros Hd Hf Hj Hq Hr. unfold Journal.commit. cbn zeta.
  destruct (begin_device j d snapshot initialize Hd Hf Hj Hq Hr) as (st & j1 & d1 & -> & Hv1 & H).
  destruct H as [[Hst _]|(-> & old & Hbef & Hok & Heo & HI)].
  { apply st_eqb_neq in Hst as E. rewrite E. cbn [negb]. intros [= ? _ _]. done. }
  rewrite st_eqb_refl. cbn [negb]. destruct (flash_now F d1) as [start d2] eqn:En.
  destruct (run_loop _ _ _ _ _ _ _) as [[j3 d3]|] eqn:Er; [|done].
  cbn. intros [= Hst <- <-].
  pose proof (next_committable layout _ device_unit _ Hok) as Hcom.
  assert (HI2 : Inv F layout old _ _ _ j1 d2) by (eapply Inv_now; eassumption).
  pose proof (run_loop_elsewhere F layout device_layout (jd_covers _ _ HJ) old _ _ _ device_unit Hcom _ _ _ _ _ _ _ HI2 Er) as He.
  apply (Inv_run_loop F layout device_layout (jd_covers _ _ HJ) old _ _ _ device_unit Hcom) in Er as (HI3 & Hnb & He3).
  2:{ exact HI2. }
  pose proof (Inv_final F layout device_layout _ _ _ _ device_unit Hcom _ _ HI3 Hnb) as (_ & Hfin & Hcs3).
  destruct (Hfin Hst) as [Hf3 [Hj3 Hnew]]. exists old. split; [exact Hbef|].
  rewrite He3, Heo in Hnew. split_and!; [apply Hnew|apply HI3|exact Hj3|exact Hf3| |].
  - split; [apply HI3|exact Hcs3].
  - destruct (now_spec d1 (proj1 HI)) as (t0 & d0 & En' & _ & Hv2 & _). rewrite En in En'. injection En' as <- <-.
    intros x Hx. rewrite (He x Hx), Hv2, Hv1. reflexivity.
Qed.

(** C2: a commit that reports success is durable: its snapshot, with the next
    sequence number, is the newest record on the device, no operation is left
    in flight, the journal accepts the next request,
    and no cell outside the two metadata sectors has changed. *)
Theorem commit_ok_is_newest fuel j d snapshot timeout initialize j' d' :
  dev_ok d -> flight d = None -> journal_ok layout (view d) -> quiet j -> request_ok snapshot ->
  Journal.commit F layout fuel j d snapshot timeout initialize = Some (Status.ok, j', d') ->
  exists old, before layout old (view d) /\
    newest layout (view d') (next_snapshot old snapshot) /\
    dev_ok d' /\ journal_ok layout (view d') /\ flight d' = None /\ quiet j' /\
    (forall x, ~ in_metadata layout x -> view d' x = view d x).
Proof. apply commit_ok_spec. Qed.

(** The foreground commit terminates: if the clock, from whatever reading
    the request starts at, eventually shows the timeout as elapsed (for four
    readings in a row), then some number of iterations is enough, whatever the
    device does. *)
Theorem commit_terminates `{!FlashClock F} j d snapshot timeout initialize :
  dev_ok d -> flight d = None -> journal_ok layout (view d) -> quiet j -> request_ok snapshot ->
  (forall k, exists N, (k <= N)%nat /\ forall n, (N <= n < N + 4)%nat ->
     (if timeout =? 0 then operation_timeout layout else timeout) <= u64 (time_at n - time_at k)) ->
  exists fuel, is_Some (Journal.commit F layout fuel j d snapshot timeout initialize).
Proof.
  intros Hd Hf Hj Hq Hr Hclk. unfold Journal.commit. cbn zeta.
  set (T := if timeout =? 0 then _ else _) in *.
  destruct (begin_device j d snapshot initialize Hd Hf Hj Hq Hr) as (st & j1 & d1 & -> & _ & H).
  destruct (negb (st =s? Status.ok)) eqn:Est; [by exists 0%nat|].
  destruct H as [[Hst _]|(-> & old & _ & Hok & _ & HI)]; [by apply st_eqb_neq in Hst; rewrite Hst in Est|].
  pose proof (next_committable layout _ device_unit _ Hok) as Hcom.
  destruct (now_reads d1) as (d2 & En & Hr2). rewrite En.
  destruct (Hclk (reads d1)) as (N & HN & Hdl).
  exists (N + 2)%nat.
  destruct (run_loop_ends F layout device_layout (jd_covers _ _ HJ) old _ _ _ device_unit Hcom
    (time_at (reads d1)) T N N (N + 2) j1 d2 Hdl) as [[j3 d3] ->]; [|lia..|by eexists].
  by eapply Inv_now.
Qed.

(** ** [prepare_runtime] *)

Lemma copy_dominated s r m :
  consistent layout m -> newest layout m s -> (exists a, is_slot layout a /\ slot_at m a = Some (r, s)) ->
  dominated layout r s m.
Proof.
  intros Hc (_ & _ & _ & _ & Hmax) (a0 & Ha0 & Hat0) a r' s' Ha Hat.
  destruct (decide (sequence s' = sequence s)) as [E|E].
  - right. exact (Hc _ _ _ _ _ _ Ha Ha0 Hat Hat0 E).
  - left. specialize (Hmax _ _ _ Ha Hat). lia.
Qed.

(** A request of [prepare_runtime]: the lambda [run]. *)
Lemma run_request_spec old r1 s1 fuel timeout j d st j' d' :
  committable (Z.to_nat (write_size layout)) r1 s1 ->
  quiet j -> dev_ok d -> flight d = None -> steady layout old r1 s1 (view d) ->
  (if erase_needed_ j
   then is_sector layout (target_ j) /\ holds_outside layout old (target_ j) (view d) /\
        (erase_only_ j = false -> record_ j = r1)
   else erase_only_ j = false /\ is_slot layout (target_ j) /\ blank (view d) (target_ j) /\ record_ j = r1) ->
  run_request F layout fuel timeout j d = Some (st, j', d') ->
  dev_ok d' /\ safe F layout old s1 d' /\ quiet j' /\
  (st = Status.ok -> flight d' = None /\ target_ j' = target_ j /\ erase_only_ j' = erase_only_ j /\
     settled layout old r1 s1 j' (view d')).
Proof.
  intros Hcom Hq Hd Hf Hst Hp. unfold run_request.
  set (j0 := field_update status_ _ _).
  assert (HI : Inv F layout old r1 s1 (Z.to_nat (write_size layout)) j0 d).
  { split; [assumption|]. destruct Hq as [Ht Hcs]. split; [exact Ht|].
    enough (Hs : (if erase_needed_ j
       then erase_plan layout old r1 s1 j0 (view d)
       else write_plan layout old r1 s1 (Z.to_nat (write_size layout)) j0 (view d))).
    { change (cs (machine_ j0)) with (cs (machine_ j)).
      destruct Hcs as [->|[->| ->]]; (split; [reflexivity|]); (split; [exact Hf|exact Hs]). }
    destruct (erase_needed_ j).
    - destruct Hp as (H1 & H2 & H3). by split_and!.
    - destruct Hp as (H0 & H1 & H2 & H3).
      (split; [exact Hst|]); (split; [exact H1|]); (split; [exact H0|]). split; [exact H3|].
      exists 0%nat. pose proof (unit_sizes layout device_layout _ device_unit).
      (split; [reflexivity|]); (split; [lia|]); (split; [apply Nat.Div0.mod_0_l|]).
      change (target_ j0) with (target_ j).
      split; intros i Hi; [lia|]. apply H2. unfold in_block, kRecordSize. lia. }
  destruct (flash_now F d) as [start d1] eqn:En.
  destruct (run_loop _ _ _ _ _ _ _) as [[j3 d3]|] eqn:Er; [|done]. cbn. intros [= <- <- <-].
  assert (HI1 : Inv F layout old r1 s1 (Z.to_nat (write_size layout)) j0 d1) by (by eapply Inv_now).
  pose proof (target_run_loop F layout device_layout (jd_covers _ _ HJ) old _ _ _ device_unit Hcom
                _ _ _ _ _ _ _ HI1 eq_refl Er) as Htg.
  apply (Inv_run_loop F layout device_layout (jd_covers _ _ HJ) old _ _ _ device_unit Hcom) in Er
    as (HI3 & Hnb & He3); [|assumption].
  pose proof (Inv_final F layout device_layout _ _ _ _ device_unit Hcom _ _ HI3 Hnb) as (Hsafe & Hfin & Hcs3).
  split; [apply HI3|]. split; [exact Hsafe|]. split; [split; [apply HI3|exact Hcs3]|].
  intros Hok. destruct (Hfin Hok). by split_and!.
Qed.

Definition erased_sector (b : Z) (m : Mem) : Prop :=
  forall x, in_block b (sector_size layout) x -> m x = Some byte_ff.

Lemma all_blank_spec b fuel at_ d :
  is_sector layout b -> dev_ok d -> flight d = None ->
  b <= at_ <= b + sector_size layout -> (at_ - b) mod kRecordSize = 0 ->
  b + sector_size layout - at_ <= kRecordSize * Z.of_nat fuel ->
  exists e d', all_blank F fuel at_ (b + sector_size layout) d = (e, d') /\ same F layout d d' /\
    (e = true -> forall x, at_ <= x < b + sector_size layout -> view d x = Some byte_ff).
Proof.
  intros Hb. pose proof device_layout as Hlay. pose proof (jd_covers _ _ HJ) as Hcov.
  revert at_ d. induction fuel as [|fuel IH]; intros at_ d Hd Hf Hat Hmod Hfuel; cbn [all_blank].
  { exists true, d. split_and!; try done. intros. lia. }
  destruct (Z.ltb_spec at_ (b + sector_size layout)).
  2:{ exists true, d. split_and!; try done. intros. lia. }
  assert (Hslot : slot_in b (sector_size layout) at_).
  { pose proof (lok_records _ Hlay) as Hrec. unfold slot_in. split_and!; [lia| |assumption].
    apply Z.mod_divide in Hmod as [k Hk]; [|done]. apply Z.mod_divide in Hrec as [k' Hk']; [|done].
    unfold kRecordSize in *. lia. }
  assert (His : is_slot layout at_) by (destruct Hb as [-> | ->]; [by left|by right]).
  destruct (Erased_spec F layout Hlay Hcov d at_ Hd Hf His) as (e & d1 & -> & Hs1 & He).
  destruct e; [|by exists false, d1].
  pose proof Hs1 as (Hd1 & Hv1 & Hf1). rewrite Hf in Hf1. destruct Hslot as (_ & Hle & _).
  assert (0 <= b) by (destruct Hlay, Hb as [-> | ->]; assumption). pose proof (jd_top _ _ HJ b Hb).
  rewrite u32_small by (unfold is_u32, kRecordSize in *; lia).
  destruct (IH (at_ + kRecordSize) d1) as (e & d2 & -> & Hs2 & Hr);
    [assumption..|unfold kRecordSize in *; lia| |unfold kRecordSize in *; lia|].
  { replace (at_ + kRecordSize - b) with (at_ - b + 1 * kRecordSize) by lia. by rewrite Z.mod_add. }
  exists e, d2. split; [done|]. split; [by eapply same_trans|]. intros -> x Hx.
  destruct (decide (x < at_ + kRecordSize)); [apply He; [done|unfold in_block; lia]|].
  rewrite <- Hv1. apply Hr; [done|lia].
Qed.

(** What a successful or failed preparation keeps. *)
Definition keeps (s : Snapshot) (d : D) : Prop :=
  forall m, crash_image F d m -> journal_ok layout m /\ newest layout m s.

Lemma keeps_idle s d :
  flight d = None -> journal_ok layout (view d) -> newest layout (view d) s -> keeps s d.
Proof. intros Hf Hj Hn m [_ Hm]. rewrite Hf in Hm. by subst m. Qed.

Lemma safe_keeps s d : safe F layout (Some s) s d -> keeps s d.
Proof. intros H m Hm. destruct (H m Hm) as [? [?|?]]; by split. Qed.

Lemma prepare_erase_spec s fuel bank timeout j d st j' d' :
  0 <= bank < 2 -> quiet j -> dev_ok d -> flight d = None -> journal_ok layout (view d) ->
  newest layout (view d) s -> holds_outside layout (Some s) (sel (metadata layout) bank) (view d) ->
  prepare_erase F layout fuel bank timeout j d = Some (st, j', d') ->
  keeps s d' /\ (st = Status.ok -> flight d' = None /\ erased_sector (sel (metadata layout) bank) (view d')).
Proof.
  intros Hbank Hq Hd Hf Hj Hn Hh. unfold prepare_erase.
  pose proof Hn as (a & r & Ha & Hat & _).
  pose proof (sel_sector layout bank) as Hsec. pose proof (lok_sector _ device_layout).
  assert (Hfuel : sector_size layout <= kRecordSize * Z.of_nat (scan_fuel layout)).
  { unfold scan_fuel, records_per_sector. pose proof (lok_records _ device_layout).
    pose proof (Z.div_mod (sector_size layout) kRecordSize ltac:(done)).
    unfold kRecordSize in *. lia. }
  destruct (all_blank_spec _ (scan_fuel layout) (sel (metadata layout) bank) d Hsec Hd Hf)
    as (e & d1 & E & (Hd1 & Hv1 & Hf1) & He); [lia|by rewrite Z.sub_diag|lia|].
  unfold sector_limit. rewrite E. rewrite Hf in Hf1. destruct e.
  { intros [= <- <- <-]. split; [apply keeps_idle; by rewrite ?Hv1|].
    intros _. split; [assumption|]. intros x Hx. rewrite Hv1. apply He; [done|exact Hx]. }
  intros Hrun. apply (run_request_spec (Some s) r s) in Hrun; try assumption.
  - destruct Hrun as (Hd' & Hsafe & _ & Hok). split; [by apply safe_keeps|]. intros ->.
    destruct (Hok eq_refl) as (Hf' & Htg & Heo & Hset). split; [assumption|].
    destruct Hset as [_ Hset]. rewrite Heo, Htg in Hset. exact (proj2 Hset).
  - apply (slot_committable layout _ device_unit (view d) a); [by apply view_ok|assumption..].
  - split_and!; [by rewrite Hv1|by rewrite Hv1|]. rewrite Hv1.
    apply copy_dominated; [apply Hj|assumption|by exists a].
  - cbn. rewrite Hv1. by split_and!.
Qed.

(** The first half of [prepare_runtime]: a copy of the current record in the
    other bank. *)
Lemma prepare_copy s r fuel bank timeout j d latest d1 d2 found st j' d' :
  0 <= bank < 2 -> quiet j -> dev_ok d -> flight d = None -> journal_ok layout (view d) ->
  newest layout (view d) s ->
  slot_in (sel (metadata layout) bank) (sector_size layout) latest ->
  slot_at (view d) latest = Some (r, s) -> same F layout d d1 ->
  find_erased F u32 (scan_fuel layout) (sel (metadata layout) (1 - bank)) (sector_limit layout (1 - bank)) d1
    = (found, d2) ->
  run_request F layout fuel timeout
    (j <| record_ := r |> <| target_ := default (sel (metadata layout) (1 - bank)) found |>
       <| erase_needed_ := bool_decide (found = None) |> <| erase_only_ := false |>) d2
    = Some (st, j', d') ->
  dev_ok d' /\ quiet j' /\ keeps s d' /\
  (st = Status.ok -> flight d' = None /\ journal_ok layout (view d') /\ newest layout (view d') s /\
     holds_outside layout (Some s) (sel (metadata layout) bank) (view d')).
Proof.
  intros Hbank Hq Hd Hf Hj Hn Hlat Hat (Hd1 & Hv1 & Hf1) Hfind. rewrite Hf in Hf1.
  pose proof device_layout as Hlay. pose proof (sel_sector layout (1 - bank)) as Hsec.
  pose proof (lok_sector _ Hlay). pose proof (jd_top _ _ HJ _ Hsec).
  destruct (find_erased_spec F layout Hlay (jd_covers _ _ HJ) (jd_top _ _ HJ) u32 (scan_fuel layout) _
    (sel (metadata layout) (1 - bank)) d1 (fun x Hx => u32_small x Hx) Hsec Hd1 Hf1)
    as (f & d2' & E & (Hd2 & Hv2 & Hf2) & Hfd); [lia|by rewrite Z.sub_diag|].
  unfold sector_limit in Hfind. rewrite Hfind in E. injection E as <- <-.
  rewrite Hv1 in Hv2, Hfd. rewrite Hf1 in Hf2.
  assert (Hslot : is_slot layout latest) by (by eapply slot_in_is).
  intros Hrun. apply (run_request_spec (Some s) r s) in Hrun; try assumption.
  - destruct Hrun as (Hd' & Hsafe & Hq' & Hok). split_and!; [assumption..|by apply safe_keeps|].
    intros ->. destruct (Hok eq_refl) as (Hf' & Htg & Heo & [Hj' Hset]). rewrite Heo in Hset.
    destruct Hset as [Hn' Hat']. split_and!; [assumption..|]. rewrite Htg in Hat'.
    set (t := default (sel (metadata layout) (1 - bank)) found) in *.
    change (slot_at (view d') t = Some (r, s)) in Hat'.
    assert (Hin : slot_in (sel (metadata layout) (1 - bank)) (sector_size layout) t).
    { unfold t. destruct found as [t0|]; [by apply Hfd|].
      pose proof (lok_records _ Hlay) as Hm.
      apply Z.mod_divide in Hm as [k Hk]; [|done]. cbn. unfold slot_in, kRecordSize in *.
      rewrite Z.sub_diag. split_and!; [lia..|done]. }
    intros s' [= <-]. exists t, r. split; [by eapply slot_in_is|]. split; [exact Hat'|].
    pose proof (banks_apart layout Hlay (1 - bank) t ltac:(lia) Hin) as Hap.
    by replace (1 - (1 - bank)) with bank in Hap by lia.
  - apply (slot_committable layout _ device_unit (view d) latest); [by apply view_ok|assumption..].
  - rewrite Hv2. split_and!; [assumption..|]. apply copy_dominated; [apply Hj|assumption|by exists latest].
  - cbn [erase_needed_ target_ record_ erase_only_ field_update]. rewrite Hv2.
    destruct found as [t|]; cbn.
    + destruct (Hfd t eq_refl). split_and!; [done|by eapply slot_in_is|done..].
    + split_and!; [assumption| |done]. by eapply holder_outside.
Qed.

(** [prepare_runtime] never loses the current snapshot: whatever it reports,
    and even if the power fails at that moment, [s] stays the newest snapshot;
    if it reports success, the sector of the given bank is erased. *)
Theorem prepare_runtime_keeps_newest fuel j d bank timeout s st j' d' :
  0 <= bank -> quiet j -> length (record_ j) = 256%nat ->
  dev_ok d -> flight d = None -> journal_ok layout (view d) -> newest layout (view d) s ->
  prepare_runtime F layout fuel j d bank timeout = Some (st, j', d') ->
  (forall m, crash_image F d' m -> journal_ok layout m /\ newest layout m s) /\
  (st = Status.ok -> flight d' = None /\ erased_sector (sel (metadata layout) bank) (view d')).
Proof.
  intros Hb0 Hq Hlen Hd Hf Hj Hn. unfold prepare_runtime. fold (keeps s d').
  pose proof device_layout as Hlay. pose proof (jd_covers _ _ HJ) as Hcov.
  destruct (_ || _) eqn:Eb; [intros [= <- <- <-]; split; [by apply keeps_idle|done]|].
  apply orb_false_iff in Eb as [Eb _]. assert (Hbank : 0 <= bank < 2) by lia.
  destruct (status_ j =s? Status.busy); [intros [= <- <- <-]; split; [by apply keeps_idle|done]|].
  destruct (load_spec F layout Hlay Hcov j d no_snapshot (jd_callbacks _ _ HJ) (jd_layout _ _ HJ) Hd Hf (proj1 Hj))
    as (lst & s' & j1 & d1 & -> & Hs1 & Hj1 & Hl).
  pose proof Hs1 as (Hd1 & Hv1 & Hf1). rewrite Hf in Hf1.
  destruct Hl as [(-> & Hn' & Hslot & r & Hat)|(_ & _ & Hno)].
  2:{ destruct Hn as (a & r & Ha & Hat & _). rewrite (Hno a Ha) in Hat. discriminate. }
  rewrite (newest_unique _ _ _ _ (proj1 Hj) Hn' Hn) in Hat. rewrite st_eqb_refl. cbn [negb].
  assert (Hq1 : quiet j1) by (rewrite Hj1; exact Hq).
  destruct (_ && _) eqn:Ein.
  - destruct (read_record F layout Hcov d1 (latest_ j1) (record_ j1) r s) as (d2 & -> & Hs2);
      [assumption..|by rewrite Hj1|assumption|by rewrite Hv1|].
    rewrite st_eqb_refl. cbn [negb]. cbn zeta.
    destruct (find_erased F u32 _ _ _ d2) as [found d3] eqn:Efind.
    destruct (run_request _ _ _ _ _ _) as [[[rst j3] d4]|] eqn:Erun; [|done]. cbn.
    assert (Hlat : slot_in (sel (metadata layout) bank) (sector_size layout) (latest_ j1)).
    { unfold sector_limit in Ein. destruct (slot_or_outside layout Hlay _ (latest_ j1) (sel_sector layout bank) Hslot);
        [assumption|]. apply andb_true_iff in Ein. unfold kRecordSize in *. lia. }
    apply (prepare_copy s r fuel bank timeout j1 d (latest_ j1) d2 d3 found) in Erun as (Hd4 & Hq4 & Hk4 & Hok4);
      try assumption; [|by eapply same_trans].
    destruct (rst =s? Status.ok) eqn:Er; cbn [negb].
    + apply st_eqb_eq in Er as ->. destruct (Hok4 eq_refl) as (Hf4 & Hj4 & Hn4 & Hh4).
      by apply prepare_erase_spec.
    + intros [= <- <- <-]. split; [assumption|]. apply st_eqb_neq in Er. done.
  - apply prepare_erase_spec; rewrite ?Hv1; try assumption.
    assert (Hin : slot_in (sel (metadata layout) (1 - bank)) (sector_size layout) (latest_ j1)).
    { apply (not_in_bank layout); [lia|assumption|]. by replace (1 - (1 - bank)) with bank by lia. }
    pose proof (holder_outside layout Hlay (Some s) (1 - bank) (latest_ j1) (view d) r s ltac:(lia) Hin eq_refl Hat) as Hh.
    by replace (1 - (1 - bank)) with bank in Hh by lia.
Qed.
End promises.
