(* ===== verification/HostFlash.v ===== *)
(** * The file-backed flash device (src/platform/host/flash.h, flash.cpp)

    [FileFlash] implements the callback table of flash.h on top of POSIX file
    operations.  The operating system is the model's environment: every call of
    [pread], [pwrite] and [fsync] takes its outcome from a list (after the list
    is used up, calls succeed completely), and the clock is a function of the
    number of readings.  The second half proves that the device satisfies the
    contract that the boot journal relies on. *)

From S2P Require Import Prelude Foundation StateMachine Flash.

(** ** The environment *)

(** One [pread] or [pwrite]: [errno == EINTR], another failure (or end of
    file), or at most [n > 0] bytes transferred. *)
Inductive Io := Eintr | Fail | Transfer (n : positive).

(** ** Data *)

Record Geometry := mkGeometry { base : Z; size : Z; g_sector_size : Z; g_write_size : Z }.

Module HostState.
Inductive HostState : Set := idle | execute.
End HostState.
Abbreviation HostState := HostState.HostState.
#[global] Instance HostState_eq_dec : EqDecision HostState.
Proof. solve_decision. Defined.
#[export] Instance HostState_enum : StateEnum HostState := {|
  state_index (s : HostState) := match s with HostState.idle => 0 | HostState.execute => 1 end%nat;
  state_count := 2%nat
|}.

Inductive Operation : Set := op_erase | op_program.
#[global] Instance Operation_eq_dec : EqDecision Operation.
Proof. solve_decision. Defined.

(** [fd_] is [None] for the descriptor -1, otherwise the file's contents. *)
Record FileFlash := mkFileFlash {
  fd_ : option (list Z);
  geometry_ : Geometry;
  host_machine_ : Machine HostState;
  operation_ : Operation;
  host_requested_ : bool;
  closed_ : bool;
  address_ : Z;
  word_ : list Z;
  preads : list Io;
  pwrites : list Io;
  fsyncs : list bool;
  clock_reads : nat
}.
#[export] Instance FileFlash_eta : RecordEta FileFlash := fun r =>
  mkFileFlash (fd_ r) (geometry_ r) (host_machine_ r) (operation_ r) (host_requested_ r)
    (closed_ r) (address_ r) (word_ r) (preads r) (pwrites r) (fsyncs r) (clock_reads r).

Definition host_idle (f : FileFlash) : bool := bool_decide (cs (host_machine_ f) = HostState.idle).

(** ** File operations *)

Definition Range (f : FileFlash) (address n : Z) : bool :=
  match fd_ f with
  | None => false
  | Some _ =>
      (address >=? base (geometry_ f)) &&
      (address - base (geometry_ f) <=? size (geometry_ f)) &&
      (n <=? size (geometry_ f) - (address - base (geometry_ f)))
  end.

(** The loop of [Read]: [bytes] is the caller's buffer, of which the first [at_]
    bytes are filled; [offset] is the file offset of the whole transfer. *)
Fixpoint pread_loop (os : list Io) (file : list Z) (offset : Z) (at_ : nat) (bytes : list Z)
  : bool * list Z * list Io :=
  if (at_ <? length bytes)%nat then
    match os with
    | [] => (true, blit at_ (sub file (Z.to_nat offset + at_) (length bytes - at_)) bytes, [])
    | Eintr :: os => pread_loop os file offset at_ bytes
    | Fail :: os => (false, bytes, os)
    | Transfer n :: os =>
        let n := Nat.min (Pos.to_nat n) (length bytes - at_) in
        pread_loop os file offset (at_ + n) (blit at_ (sub file (Z.to_nat offset + at_) n) bytes)
    end
  else (true, bytes, os).

Definition Read (f : FileFlash) (address : Z) (bytes : list Z) : Status * list Z * FileFlash :=
  match fd_ f with
  | None => (Status.not_running, bytes, f)
  | Some file =>
      if negb (Range f address (Z.of_nat (length bytes))) then (Status.invalid_argument, bytes, f)
      else if host_requested_ f || negb (host_idle f) then (Status.busy, bytes, f)
      else
        let '(ok, bytes, os) := pread_loop (preads f) file (address - base (geometry_ f)) 0 bytes in
        (if (ok : bool) then Status.ok else Status.io_error, bytes, f <| preads := os |>)
  end.

(** [pwrite] extends the file, with zeros in a gap. *)
Definition file_write (at_ : nat) (bytes file : list Z) : list Z :=
  blit at_ bytes (file ++ replicate (at_ + length bytes - length file) 0).

(** The loop of [Write]: the bytes from [at_] on are still to be written. *)
Fixpoint pwrite_loop (os : list Io) (file : list Z) (offset : Z) (at_ : nat) (bytes : list Z)
  : bool * list Z * list Io :=
  if (at_ <? length bytes)%nat then
    match os with
    | [] => (true, file_write (Z.to_nat offset + at_) (drop at_ bytes) file, [])
    | Eintr :: os => pwrite_loop os file offset at_ bytes
    | Fail :: os => (false, file, os)
    | Transfer n :: os =>
        let n := Nat.min (Pos.to_nat n) (length bytes - at_) in
        pwrite_loop os (file_write (Z.to_nat offset + at_) (sub bytes at_ n) file) offset (at_ + n) bytes
    end
  else (true, file, os).

Definition Write (f : FileFlash) (offset : Z) (bytes : list Z) : bool * FileFlash :=
  match fd_ f with
  | None => (false, f)
  | Some file =>
      let '(ok, file, os) := pwrite_loop (pwrites f) file offset 0 bytes in
      (ok, f <| fd_ := Some file |> <| pwrites := os |>)
  end.

(** The chunked loops that write erased bytes over [[at_, limit)] (at [start]
    in the file); 4096 bytes at a time, so [fuel] counts the chunks. *)
Fixpoint fill_loop (fuel : nat) (f : FileFlash) (start at_ limit : Z) : bool * FileFlash :=
  match fuel with
  | O => (true, f)
  | S fuel =>
      if at_ <? limit then
        let n := Z.min 4096 (limit - at_) in
        let '(ok, f) := Write f (start + at_) (replicate (Z.to_nat n) byte_ff) in
        if (ok : bool) then fill_loop fuel f start (at_ + n) limit else (false, f)
      else (true, f)
  end.
Definition fill_fuel (n : Z) : nat := Z.to_nat ((n + 4095) / 4096).

(** [::fsync(fd_) == 0]. *)
Definition fsync (f : FileFlash) : bool * FileFlash :=
  match fsyncs f with
  | [] => (true, f)
  | ok :: rest => (ok, f <| fsyncs := rest |>)
  end.

(** ** Requests *)

Definition Erase (f : FileFlash) (address : Z) : Status * FileFlash :=
  match fd_ f with
  | None => (Status.not_running, f)
  | Some _ =>
      if host_requested_ f || negb (host_idle f) then (Status.busy, f)
      else if negb (Range f address (g_sector_size (geometry_ f))) ||
              negb (address mod g_sector_size (geometry_ f) =? 0)
      then (Status.invalid_argument, f)
      else (Status.ok, f <| address_ := address |> <| operation_ := op_erase |>
                         <| host_requested_ := true |>)
  end.

Definition Program (f : FileFlash) (address : Z) (bytes : list Z) : Status * FileFlash :=
  match fd_ f with
  | None => (Status.not_running, f)
  | Some _ =>
      if host_requested_ f || negb (host_idle f) then (Status.busy, f)
      else if negb (Z.of_nat (length bytes) =? g_write_size (geometry_ f)) ||
              negb (address mod g_write_size (geometry_ f) =? 0) ||
              negb (Range f address (Z.of_nat (length bytes)))
      then (Status.invalid_argument, f)
      else
        let storage := replicate (Z.to_nat (g_write_size (geometry_ f))) 0 in
        let '(status, old, f) := Read f address storage in
        if negb (status =s? Status.ok) then (status, f)
        else if negb (forallb (fun p => Z.land (fst p) (snd p) =? snd p) (zip old bytes))
        then (Status.invalid_argument, f)
        else (Status.ok, f <| word_ := blit 0 bytes (word_ f) |> <| address_ := address |>
                           <| operation_ := op_program |> <| host_requested_ := true |>)
  end.

(** ** The two-state machine behind [Poll]

    [Step] has the status of the poll as an in-out argument. *)
#[export] Instance FileFlash_machine : HasMachine (FileFlash * Status) HostState := {|
  machine w := host_machine_ (fst w);
  with_machine m w := ((fst w) <| host_machine_ := m |>, snd w)
|}.
#[export] Instance FileFlash_machine_laws : HasMachineLaws (FileFlash * Status) HostState.
Proof. split; [done|done|by intros [[] ?]]. Qed.

Definition execute (f : FileFlash) : bool * FileFlash :=
  let g := geometry_ f in
  if bool_decide (operation_ f = op_program)
  then Write f (u32 (address_ f - base g)) (sub (word_ f) 0 (Z.to_nat (g_write_size g)))
  else fill_loop (fill_fuel (g_sector_size g)) f (u32 (address_ f - base g)) 0 (g_sector_size g).

Definition Step (cs : HostState) (w : FileFlash * Status) : HostState * (FileFlash * Status) :=
  let '(f, status) := w in
  match cs with
  | HostState.idle =>
      if closed_ f then (cs, (f <| closed_ := false |>, status))
      else if host_requested_ f then (HostState.execute, (f, Status.busy))
      else (cs, (f, status))
  | HostState.execute =>
      let '(f, status) :=
        if closed_ f then (f <| closed_ := false |>, status)
        else
          let '(written, f) := execute f in
          if (written : bool) then
            let '(synced, f) := fsync f in
            (f, if (synced : bool) then status else Status.io_error)
          else (f, Status.io_error) in
      (HostState.idle, (f <| host_requested_ := false |>, status))
  end.

Definition Poll (f : FileFlash) : Status * FileFlash :=
  let status := match fd_ f with None => Status.not_running | Some _ => Status.ok end in
  let '(f, status) := snd (StateMachine.tick (step_only Step) (f, status)) in
  (status, f).

(** ** Opening and closing *)

Definition close (f : FileFlash) : FileFlash :=
  f <| fd_ := None |> <| closed_ := true |> <| host_requested_ := false |>.

Inductive OpenMode : Set := existing | create.
#[global] Instance OpenMode_eq_dec : EqDecision OpenMode.
Proof. solve_decision. Defined.

(** What the system calls of [open] answer: the contents of the file that
    [::open] returned (empty if it was created), whether the lock was taken,
    and whether [fstat] found a regular file. *)
Record OsOpen := mkOsOpen { os_file : option (list Z); os_locked : bool; os_regular : bool }.

Definition geometry_valid (g : Geometry) : bool :=
  negb ((size g =? 0) || (g_sector_size g =? 0) ||
        (negb (g_write_size g =? 16) && negb (g_write_size g =? 32)) ||
        negb (g_sector_size g mod g_write_size g =? 0) ||
        negb (size g mod g_sector_size g =? 0) ||
        negb (base g mod g_sector_size g =? 0) ||
        (base g + size g >? 0x100000000)).

Definition open (f : FileFlash) (path : bool) (geometry : Geometry) (mode : OpenMode) (os : OsOpen)
  : Status * FileFlash :=
  match fd_ f with
  | Some _ => (Status.already_initialized, f)
  | None =>
      if negb path || negb (geometry_valid geometry) then (Status.invalid_argument, f)
      else
        match os_file os with
        | None => (Status.io_error, f)
        | Some file =>
            let f := f <| fd_ := Some file |> <| geometry_ := geometry |> in
            if negb (os_locked os) then (Status.busy, close f)
            else if negb (os_regular os) then (Status.io_error, close f)
            else if bool_decide (mode = existing) && negb (Z.of_nat (length file) =? size geometry)
            then (Status.invalid_argument, close f)
            else
              let '(created, f) :=
                if bool_decide (mode = create) then
                  let '(written, f) := fill_loop (fill_fuel (size geometry)) f 0 0 (size geometry) in
                  if (written : bool) then fsync f else (false, f)
                else (true, f) in
              if negb created then (Status.io_error, close f)
              else (Status.ok, snd (Poll f))
        end
  end.

(** ** The callback table *)

Section driver.
Context (clock : nat -> Time).

Definition Now (f : FileFlash) : Time * FileFlash :=
  (clock (clock_reads f), f <| clock_reads := S (clock_reads f) |>).

Definition driver : Flash FileFlash :=
  mkFlash true Read Erase Program Poll Now None.
End driver.

(** ** Transfers

    [overlay file offset bytes k file']: the first [k] of [bytes] have replaced
    the contents of [file] at [offset]. *)
Definition overlay (file : list Z) (offset : nat) (bytes : list Z) (k : nat) (file' : list Z) : Prop :=
  length file' = length file /\
  forall i, file' !! i = if decide (offset <= i < offset + k)%nat then bytes !! (i - offset)%nat else file !! i.

Lemma overlay_none file offset bytes : overlay file offset bytes 0 file.
Proof. split; [done|]. intros i. by rewrite decide_False by lia. Qed.

Lemma overlay_write file offset bytes k n file' :
  overlay file offset bytes k file' -> (k + n <= length bytes)%nat ->
  (offset + length bytes <= length file)%nat ->
  overlay file offset bytes (k + n) (file_write (offset + k) (sub bytes k n) file').
Proof.
  intros [Hl H] Hn Hlen. unfold file_write.
  assert (Hs : length (sub bytes k n) = n) by (apply length_sub; lia).
  rewrite Hs. replace (offset + k + n - length file')%nat with 0%nat by lia.
  change (replicate 0 0) with (@nil Z). rewrite app_nil_r.
  split; [rewrite length_blit; lia|]. intros i.
  destruct (decide (offset + k <= i < offset + k + n)%nat).
  - rewrite decide_True by lia. rewrite lookup_blit_in by lia. rewrite lookup_sub by lia. f_equal. lia.
  - rewrite lookup_blit_out by lia. rewrite H. repeat case_decide; try lia; done.
Qed.

Lemma pwrite_loop_spec os file0 file offset at_ bytes :
  overlay file0 offset bytes at_ file -> (at_ <= length bytes)%nat ->
  (offset + length bytes <= length file0)%nat ->
  exists ok file' os' k, pwrite_loop os file (Z.of_nat offset) at_ bytes = (ok, file', os') /\
    overlay file0 offset bytes k file' /\ (k <= length bytes)%nat /\ (ok = true -> k = length bytes).
Proof.
  intros Ho Hat Hlen. revert file at_ Ho Hat. induction os as [|io os IH]; intros file at_ Ho Hat; cbn [pwrite_loop];
    rewrite Nat2Z.id; destruct (Nat.ltb_spec at_ (length bytes));
    try (do 4 eexists; split; [done|]; split; [exact Ho|]; split; [lia|intros; lia]).
  - do 4 eexists. split; [done|].
    replace (drop at_ bytes) with (sub bytes at_ (length bytes - at_)).
    + split; [apply overlay_write; [exact Ho|lia..]|]. split; [lia|intros; lia].
    + unfold sub. rewrite take_ge; [done|]. rewrite length_drop. lia.
  - destruct io as [| |n].
    + by apply IH.
    + do 4 eexists. split; [done|]. split; [exact Ho|]. split; [lia|done].
    + apply IH; [apply overlay_write; [exact Ho|lia..]|lia].
Qed.

Lemma pread_loop_spec os file offset at_ bytes :
  Fail ∉ os -> (at_ <= length bytes)%nat -> (offset + length bytes <= length file)%nat ->
  take at_ bytes = sub file offset at_ ->
  exists os', pread_loop os file (Z.of_nat offset) at_ bytes = (true, sub file offset (length bytes), os') /\
    (Fail ∉ os').
Proof.
  intros Hos Hat Hlen. revert at_ bytes Hos Hat Hlen. induction os as [|io os IH];
    intros at_ bytes Hos Hat Hlen Hpre; cbn [pread_loop]; rewrite Nat2Z.id;
    destruct (Nat.ltb_spec at_ (length bytes)) as [Hlt|Hge];
    try (assert (at_ = length bytes) as -> by lia; rewrite take_ge in Hpre by lia;
         eexists; split; [by rewrite <- Hpre|done]).
  - eexists. split; [|done]. do 2 f_equal. apply list_eq. intros i.
    assert (Hs : length (sub file (offset + at_) (length bytes - at_)) = (length bytes - at_)%nat)
      by (apply length_sub; lia).
    destruct (decide (i < at_)%nat).
    + rewrite lookup_blit_out by lia. rewrite <- (lookup_take_lt bytes at_) by lia.
      rewrite Hpre, !lookup_sub by lia. done.
    + destruct (decide (i < length bytes)%nat).
      * rewrite lookup_blit_in by lia. rewrite !lookup_sub by lia. f_equal. lia.
      * rewrite !lookup_ge_None_2; [done| |]; [rewrite length_sub by lia|rewrite length_blit by lia]; lia.
  - destruct io as [| |n].
    + apply IH; [set_solver|assumption..].
    + exfalso. apply Hos. apply list_elem_of_here.
    + set (k := Nat.min (Pos.to_nat n) (length bytes - at_)).
      assert (Hs : length (sub file (offset + at_) k) = k) by (apply length_sub; lia).
      assert (Hbl : length (blit at_ (sub file (offset + at_) k) bytes) = length bytes)
        by (rewrite length_blit; lia).
      destruct (IH (at_ + k)%nat (blit at_ (sub file (offset + at_) k) bytes)) as (os' & E & Hos');
        [set_solver|lia|lia| |rewrite Hbl in E; by exists os'].
      apply list_eq. intros i. destruct (decide (i < at_ + k)%nat).
      * rewrite lookup_take_lt by lia. rewrite (lookup_sub file offset) by lia.
        destruct (decide (i < at_)%nat).
        -- rewrite lookup_blit_out by lia. rewrite <- (lookup_take_lt bytes at_) by lia.
           rewrite Hpre, lookup_sub by lia. done.
        -- rewrite lookup_blit_in by lia. rewrite lookup_sub by lia. f_equal. lia.
      * rewrite !lookup_ge_None_2; [done| |]; [rewrite length_sub by lia; lia|rewrite length_take; lia].
Qed.

(** [f'] is [f] with the file's contents and the rest of the outcomes changed. *)
Definition wrote (f : FileFlash) (file' : list Z) (f' : FileFlash) : Prop :=
  exists os fs, f' = f <| fd_ := Some file' |> <| pwrites := os |> <| fsyncs := fs |>.

Lemma wrote_refl f file : fd_ f = Some file -> wrote f file f.
Proof. intros H. exists (pwrites f), (fsyncs f). destruct f; cbn in *. by subst. Qed.

Lemma Write_spec f file offset bytes :
  fd_ f = Some file -> (offset + length bytes <= length file)%nat ->
  exists ok f' file' k, Write f (Z.of_nat offset) bytes = (ok, f') /\ wrote f file' f' /\
    overlay file offset bytes k file' /\ (k <= length bytes)%nat /\ (ok = true -> k = length bytes).
Proof.
  intros Hfd Hlen. unfold Write. rewrite Hfd.
  destruct (pwrite_loop_spec (pwrites f) file file offset 0 bytes) as (ok & file' & os' & k & -> & Ho & Hk & Hok);
    [apply overlay_none|lia|lia|].
  exists ok, (f <| fd_ := Some file' |> <| pwrites := os' |>), file', k.
  split_and!; try done. exists os', (fsyncs f). by destruct f.
Qed.

Lemma overlay_extend file start n at_ m file1 k file2 :
  overlay file start (replicate n byte_ff) at_ file1 ->
  overlay file1 (start + at_) (replicate m byte_ff) k file2 ->
  (at_ + m <= n)%nat -> (k <= m)%nat -> overlay file start (replicate n byte_ff) (at_ + k) file2.
Proof.
  intros [H1l H1] [H2l H2] Hm Hk. split; [lia|]. intros i. rewrite H2, H1.
  repeat case_decide; try lia; try done; rewrite !lookup_replicate_2 by lia; done.
Qed.

Lemma fill_loop_spec f0 file0 start n fuel f file at_ :
  wrote f0 file f -> overlay file0 start (replicate n byte_ff) at_ file ->
  (at_ <= n)%nat -> (start + n <= length file0)%nat ->
  Z.of_nat n - Z.of_nat at_ <= 4096 * Z.of_nat fuel ->
  exists ok f' file' k, fill_loop fuel f (Z.of_nat start) (Z.of_nat at_) (Z.of_nat n) = (ok, f') /\
    wrote f0 file' f' /\ overlay file0 start (replicate n byte_ff) k file' /\ (k <= n)%nat /\
    (ok = true -> k = n).
Proof.
  intros Hw Ho Hat Hlen. revert f file at_ Hw Ho Hat.
  induction fuel as [|fuel IH]; intros f file at_ Hw Ho Hat Hfuel; cbn [fill_loop].
  { do 4 eexists. split; [done|]. split; [exact Hw|]. split; [exact Ho|]. split; [lia|intros; lia]. }
  destruct (Z.ltb_spec (Z.of_nat at_) (Z.of_nat n)).
  2:{ do 4 eexists. split; [done|]. split; [exact Hw|]. split; [exact Ho|]. split; [lia|intros; lia]. }
  set (c := Z.min 4096 (Z.of_nat n - Z.of_nat at_)). destruct Hw as (os & fs & ->).
  rewrite <- Nat2Z.inj_add.
  match goal with |- context [Write ?f1 _ _] => set (f1' := f1) end.
  destruct (Write_spec f1' file (start + at_) (replicate (Z.to_nat c) byte_ff)) as (ok & f2 & file2 & k & -> & Hw2 & Ho2 & Hk & Hok).
  { done. } { rewrite length_replicate. destruct Ho. lia. }
  rewrite length_replicate in *.
  assert (Hw' : wrote f0 file2 f2).
  { destruct Hw2 as (os2 & fs2 & ->). exists os2, fs2. by destruct f0. }
  pose proof (overlay_extend _ _ _ _ _ _ _ _ Ho Ho2 ltac:(lia) Hk) as Ho3.
  destruct ok.
  - specialize (Hok eq_refl). subst k.
    replace (Z.of_nat at_ + c) with (Z.of_nat (at_ + Z.to_nat c)) by lia.
    apply (IH f2 file2); [assumption..|lia|lia].
  - exists false, f2, file2, (at_ + k)%nat. split_and!; [done..|lia|done].
Qed.

(** ** The device satisfies the flash contract *)

Section contract.
Context (clock : nat -> Time) (sector write : Z) (g0 : Geometry).

(** The cells of an open device. *)
Definition host_view (f : FileFlash) : Mem := fun x =>
  match fd_ f with
  | None => None
  | Some file => if decide (base (geometry_ f) <= x) then file !! Z.to_nat (x - base (geometry_ f)) else None
  end.

Definition host_op (f : FileFlash) : Op :=
  match operation_ f with
  | op_erase => OpErase (address_ f) sector
  | op_program => OpProgram (address_ f) (sub (word_ f) 0 (Z.to_nat write))
  end.

Definition host_flight (f : FileFlash) : option Op :=
  if host_requested_ f then Some (host_op f) else None.

Definition in_geometry (g : Geometry) (a n : Z) : Prop := base g <= a /\ a + n <= base g + size g.

(** An open device on which reads do not fail. *)
Record host_core (f : FileFlash) : Prop := {
  ho_file : exists file, fd_ f = Some file /\ Z.of_nat (length file) = size (geometry_ f) /\ bytes_ok file;
  ho_is : geometry_ f = g0;
  ho_geometry : geometry_valid (geometry_ f) = true;
  ho_base : 0 <= base (geometry_ f);
  ho_sector : g_sector_size (geometry_ f) = sector;
  ho_sector_pos : 0 < sector;
  ho_write : g_write_size (geometry_ f) = write;
  ho_closed : closed_ f = false;
  ho_word : length (word_ f) = 32%nat /\ bytes_ok (word_ f);
  ho_target : host_requested_ f = true ->
    in_geometry (geometry_ f) (address_ f) (op_size (host_op f));
  ho_reads : Fail ∉ preads f
}.

(** The device between two calls. *)
Definition host_ok (f : FileFlash) : Prop :=
  host_core f /\ ticking_ (host_machine_ f) = false /\
  (host_requested_ f = false -> cs (host_machine_ f) = HostState.idle).

Lemma host_write_size f : host_core f -> write = 16 \/ write = 32.
Proof.
  intros []. unfold geometry_valid in *. apply negb_true_iff in ho_geometry0.
  rewrite !orb_false_iff in ho_geometry0. destruct_and!.
  destruct (g_write_size (geometry_ f) =? 16) eqn:E1; [lia|].
  destruct (g_write_size (geometry_ f) =? 32) eqn:E2; [lia|done].
Qed.

Lemma host_top f : host_core f -> base (geometry_ f) + size (geometry_ f) <= 2 ^ 32.
Proof.
  intros []. unfold geometry_valid in *. apply negb_true_iff in ho_geometry0.
  rewrite !orb_false_iff in ho_geometry0. destruct_and!. lia.
Qed.

Lemma host_view_read f file a n :
  fd_ f = Some file -> Z.of_nat (length file) = size (geometry_ f) ->
  in_geometry (geometry_ f) a (Z.of_nat n) ->
  mem_read (host_view f) a n = Some (sub file (Z.to_nat (a - base (geometry_ f))) n).
Proof.
  intros Hfd Hlen [H1 H2]. apply mem_read_Some. split; [apply length_sub; lia|].
  intros i Hi. unfold host_view. rewrite Hfd, decide_True by lia. rewrite lookup_sub by lia. f_equal. lia.
Qed.

Lemma Range_spec f file a n :
  fd_ f = Some file -> (Range f a n = true) <-> (in_geometry (geometry_ f) a n /\ a <= base (geometry_ f) + size (geometry_ f)).
Proof.
  intros Hfd. unfold Range, in_geometry. rewrite Hfd, !andb_true_iff. lia.
Qed.

Lemma Read_spec f a buf :
  host_ok f -> host_requested_ f = false -> in_geometry (geometry_ f) a (Z.of_nat (length buf)) ->
  exists os', (Fail ∉ os') /\
    Read f a buf = (Status.ok, default [] (mem_read (host_view f) a (length buf)), f <| preads := os' |>) /\
    is_Some (mem_read (host_view f) a (length buf)).
Proof.
  intros (Hf & _ & Hidle) Hr Hg. pose proof Hf as []. destruct ho_file0 as (file & Hfd & Hlen & Hb).
  unfold Read. rewrite Hfd. rewrite (proj2 (Range_spec f file a _ Hfd)) by (unfold in_geometry in *; split; [done|lia]).
  rewrite Hr. unfold host_idle. rewrite bool_decide_true by auto. cbn [negb orb].
  rewrite (host_view_read f file) by done.
  destruct Hg as [Hg1 Hg2].
  destruct (pread_loop_spec (preads f) file (Z.to_nat (a - base (geometry_ f))) 0 buf) as (os' & E & Hos');
    [done|lia|lia|done|].
  rewrite Z2Nat.id in E by lia. rewrite E. exists os'. split_and!; [done|done|by eexists].
Qed.

(** The cells after a (partial) transfer. *)
Lemma overlay_view f file f' file' a bytes k :
  fd_ f = Some file -> wrote f file' f' ->
  base (geometry_ f) <= a ->
  overlay file (Z.to_nat (a - base (geometry_ f))) bytes k file' ->
  forall x, host_view f' x = if decide (a <= x < a + Z.of_nat k) then bytes !! Z.to_nat (x - a) else host_view f x.
Proof.
  intros Hfd (os & fs & ->) Ha [_ Ho] x. unfold host_view. cbn [fd_ geometry_ field_update]. rewrite Hfd, Ho.
  repeat case_decide; try lia; try done. f_equal. lia.
Qed.

(** The body of the state [execute]. *)
Lemma execute_spec f :
  host_core f -> host_requested_ f = true ->
  exists ok f' file', execute f = (ok, f') /\ wrote f file' f' /\
    Z.of_nat (length file') = size (geometry_ f) /\ bytes_ok file' /\
    (if ok then op_done (host_op f) (host_view f) (host_view f')
     else op_torn (host_op f) (host_view f) (host_view f')).
Proof.
  intros Hf Hr. pose proof (host_write_size f Hf) as Hws. pose proof (host_top f Hf) as Htop.
  pose proof Hf as []. destruct ho_file0 as (file & Hfd & Hlen & Hb). destruct ho_word0 as [Hwl Hwb].
  specialize (ho_target0 Hr). destruct ho_target0 as [Ha1 Ha2].
  unfold execute, host_op in *. set (a := address_ f) in *. set (g := geometry_ f) in *.
  assert (Hbytes : forall bytes k file', bytes_ok bytes -> overlay file (Z.to_nat (a - base g)) bytes k file' ->
            Z.of_nat (length file') = size g /\ bytes_ok file').
  { intros bytes k file' Hbb [Hl' Ho]. split; [lia|]. apply Forall_lookup. intros i b Hi.
    rewrite Ho in Hi. case_decide; [by eapply Forall_lookup_1|by eapply (Forall_lookup_1 _ file)]. }
  destruct (operation_ f) eqn:Eop.
  - rewrite bool_decide_false by done. cbn in Ha2. rewrite u32_small by (unfold is_u32; lia).
    rewrite ho_sector0 in *.
    destruct (fill_loop_spec f file (Z.to_nat (a - base g)) (Z.to_nat sector) (fill_fuel sector) f file 0)
      as (ok & f' & file' & k & E & Hw & Ho & Hk & Hok);
      [by apply wrote_refl|apply overlay_none|lia|lia| |].
    { unfold fill_fuel. pose proof (Z.div_mod (sector + 4095) 4096 ltac:(lia)).
      pose proof (Z.mod_pos_bound (sector + 4095) 4096 ltac:(lia)).
      pose proof (Z.div_pos (sector + 4095) 4096 ltac:(lia) ltac:(lia)). lia. }
    rewrite !Z2Nat.id in E by lia. change (Z.of_nat 0) with 0 in E. rewrite E. exists ok, f', file'. split; [done|]. split; [done|].
    destruct (Hbytes _ _ _ (Forall_replicate is_byte (Z.to_nat sector) byte_ff ltac:(by split)) Ho) as [? ?]. split_and!; [done..|].
    pose proof (overlay_view f file f' file' a _ k Hfd Hw Ha1 Ho) as Hv.
    destruct ok; [specialize (Hok eq_refl); subst k|].
    + split; cbn; unfold in_block; intros x Hx; rewrite Hv; [by rewrite decide_False by lia|].
      rewrite decide_True, lookup_replicate_2 by lia. done.
    + split; cbn; unfold in_block; [intros x Hx; rewrite Hv; by rewrite decide_False by lia|].
      exists (Z.of_nat k). split; [lia|]. split; intros x Hx; rewrite Hv.
      * rewrite decide_True, lookup_replicate_2 by lia. by left.
      * by rewrite decide_False by lia.
  - rewrite bool_decide_true by done. cbn in Ha2. rewrite ho_write0 in *.
    set (bytes := sub (word_ f) 0 (Z.to_nat write)) in *.
    assert (Hbl : length bytes = Z.to_nat write) by (apply length_sub; lia). rewrite Hbl in Ha2.
    rewrite u32_small by (unfold is_u32; lia).
    destruct (Write_spec f file (Z.to_nat (a - base g)) bytes Hfd) as (ok & f' & file' & k & E & Hw & Ho & Hk & Hok); [lia|].
    rewrite Z2Nat.id in E by lia. rewrite E. exists ok, f', file'. split; [done|]. split; [done|].
    destruct (Hbytes bytes _ _ ltac:(by apply Forall_sub) Ho) as [? ?]. split_and!; [done..|].
    pose proof (overlay_view f file f' file' a _ k Hfd Hw Ha1 Ho) as Hv.
    assert (Hout : forall x, ~ in_block a (Z.of_nat (length bytes)) x -> host_view f' x = host_view f x).
    { unfold in_block. intros x Hx. rewrite Hv. by rewrite decide_False by lia. }
    destruct ok; [|by split]. specialize (Hok eq_refl). subst k. split; [done|]. intros _.
    apply mem_read_Some. split; [done|]. intros i Hi. rewrite Hv, decide_True by lia. f_equal. lia.
Qed.

Lemma Write_machine g o b : host_machine_ (snd (Write g o b)) = host_machine_ g.
Proof. unfold Write. destruct (fd_ g); [|done]. by destruct (pwrite_loop _ _ _ _ _) as [[? ?] ?]. Qed.

Lemma fill_loop_machine n g start z lim :
  host_machine_ (snd (fill_loop n g start z lim)) = host_machine_ g.
Proof.
  revert g z. induction n as [|n IH]; intros g z; cbn [fill_loop]; [done|].
  destruct (z <? lim); [|done].
  pose proof (Write_machine g (start + z) (replicate (Z.to_nat (Z.min 4096 (lim - z))) byte_ff)) as H.
  destruct (Write _ _ _) as [[] g2]; cbn in *; [rewrite IH|]; done.
Qed.

Lemma Step_machine s w : machine (snd (Step s w)) = machine w.
Proof.
  destruct w as [f st], s; cbn [Step]; [by repeat case_match|].
  destruct (closed_ f); [done|].
  assert (Hm : host_machine_ (snd (execute f)) = host_machine_ f).
  { unfold execute. case_bool_decide; [apply Write_machine|apply fill_loop_machine]. }
  destruct (execute f) as [[] f1]; [|done]. unfold fsync. by destruct (fsyncs f1).
Qed.

(** A completed or failed operation leaves an idle device. *)
Lemma host_ok_idle f file f' ns :
  host_core f -> wrote f file f' -> Z.of_nat (length file) = size (geometry_ f) -> bytes_ok file ->
  ns = HostState.idle ->
  host_ok (f' <| host_requested_ := false |> <| host_machine_ := post_machine ns (host_machine_ f) |>).
Proof.
  intros [] (os & fs & ->) Hlen Hb ->. split; [|split; [done|]].
  - split; try assumption; [by exists file|done].
  - intros _. cbn [host_machine_ field_update]. by rewrite cs_post_machine.
Qed.

Lemma fsync_wrote f file f1 :
  wrote f file f1 -> wrote f file (snd (fsync f1)) /\ host_view (snd (fsync f1)) = host_view f1.
Proof.
  intros (os & fs & ->). unfold fsync. cbn [fsyncs field_update]. destruct fs as [|b fs]; cbn [snd].
  - split; [|done]. by exists os, [].
  - split; [|done]. by exists os, fs.
Qed.

(** The step out of [execute], on any machine state. *)
Lemma Step_execute f :
  host_core f -> host_requested_ f = true ->
  exists f1 file st, Step HostState.execute (f, Status.ok) =
      (HostState.idle, (f1 <| host_requested_ := false |>, st)) /\
    wrote f file f1 /\ Z.of_nat (length file) = size (geometry_ f) /\ bytes_ok file /\
    match st with
    | Status.ok => op_done (host_op f) (host_view f) (host_view f1)
    | _ => st <> Status.busy /\ op_torn (host_op f) (host_view f) (host_view f1)
    end.
Proof.
  intros Hf Hr. destruct (execute_spec f Hf Hr) as (ok & f1 & file & E & Hw & Hlen & Hb & Hop).
  cbn [Step]. rewrite (ho_closed _ Hf), E. destruct ok.
  - destruct (fsync_wrote f file f1 Hw) as [Hw2 Hv2]. rewrite (surjective_pairing (fsync f1)).
    destruct (fst (fsync f1)); do 3 eexists; (split; [done|]); (split; [exact Hw2|]);
      (split; [assumption|]); (split; [assumption|]); rewrite Hv2; [assumption|].
    split; [done|]. apply op_done_torn; [|assumption]. unfold host_op. destruct (operation_ f); [|done].
    apply Z.lt_le_incl, Hf.
  - do 3 eexists. (split; [done|]); (split; [exact Hw|]); (split; [assumption|]); (split; [assumption|]).
    by split.
Qed.

Lemma Poll_spec f :
  host_ok f ->
  exists st f', Poll f = (st, f') /\ host_ok f' /\ clock_reads f' = clock_reads f /\
    match host_flight f with
    | None => st <> Status.busy /\ host_view f' = host_view f /\ host_flight f' = None
    | Some o =>
        match st with
        | Status.busy => host_view f' = host_view f /\ host_flight f' = Some o
        | Status.ok => op_done o (host_view f) (host_view f') /\ host_flight f' = None
        | _ => op_torn o (host_view f) (host_view f') /\ host_flight f' = None
        end
    end.
Proof.
  intros (Hf & Ht & Hidle). destruct (ho_file f Hf) as (file & Hfd & Hlen & Hb).
  unfold Poll. rewrite Hfd.
  rewrite (tick_step_only Step Step_machine (f, Status.ok) Ht).
  cbn [machine FileFlash_machine fst with_machine snd]. unfold host_flight.
  destruct (cs (host_machine_ f)) eqn:Ecs.
  - cbn [Step closed_ host_requested_ field_update]. rewrite (ho_closed _ Hf).
    destruct (host_requested_ f) eqn:Er; do 2 eexists; (split; [done|]).
    + split; [split; [by destruct Hf|by split; [|cbn; congruence]]|].
      split; [done|]. split; [done|]. cbn. by rewrite Er.
    + split; [split; [by destruct Hf|split; [done|intros _; cbn [snd fst host_machine_ field_update];
        by rewrite cs_post_machine]]|].
      split; [done|]. split; [done|]. split; [done|]. cbn. by rewrite Er.
  - destruct (host_requested_ f) eqn:Er; [|specialize (Hidle eq_refl); congruence].
    set (f0 := f <| host_machine_ := pre_machine (host_machine_ f) |>).
    assert (Hf0 : host_core f0) by (by destruct Hf).
    destruct (Step_execute f0 Hf0 Er) as (f1 & file1 & st & -> & Hw & Hlen1 & Hb1 & Hop).
    do 2 eexists. split; [done|]. split.
    + pose proof (host_ok_idle f file1 (f1 <| host_machine_ := host_machine_ f |>) HostState.idle Hf) as Hi.
      destruct Hw as (os & fs & ->). apply Hi; [exists os, fs; by destruct f|assumption..|done].
    + destruct Hw as (os & fs & ->). split; [done|].
      destruct st; first [done|by destruct Hop|destruct Hop; by split|by split].
Qed.

Lemma Read_keeps f a buf : host_ok f -> 
  let '(_, _, f') := Read f a buf in host_ok f' /\ host_view f' = host_view f /\
    host_requested_ f' = host_requested_ f /\ clock_reads f' = clock_reads f.
Proof.
  intros Hf. pose proof Hf as (Hc & Ht & Hi). destruct (ho_file f Hc) as (file & Hfd & Hlen & Hb).
  unfold Read. rewrite Hfd. destruct (Range f a _) eqn:Er; cbn [negb]; [|by split_and!].
  destruct (host_requested_ f || _); [by split_and!|].
  apply (Range_spec f file a _ Hfd) in Er as [[Hr1 Hr2] _].
  destruct (pread_loop_spec (preads f) file (Z.to_nat (a - base (geometry_ f))) 0 buf) as (os' & E & Hos');
    [apply Hc|lia|lia|done|].
  rewrite Z2Nat.id in E by lia. rewrite E. split; [|done]. split; [|done]. by destruct Hc.
Qed.

Lemma Erase_spec f a :
  host_ok f -> host_flight f = None ->
  exists st f', Erase f a = (st, f') /\ host_ok f' /\ host_view f' = host_view f /\
    clock_reads f' = clock_reads f /\
    host_flight f' = if st =s? Status.ok then Some (OpErase a sector) else None.
Proof.
  intros Hsame Hfl. pose proof Hsame as (Hc & Ht & Hi). destruct (ho_file f Hc) as (file & Hfd & Hlen & Hb).
  unfold host_flight in Hfl. destruct (host_requested_ f) eqn:Er; [done|].
  unfold Erase. rewrite Hfd, Er. unfold host_idle. rewrite bool_decide_true by auto. cbn [orb negb].
  destruct (negb (Range f a _) || _) eqn:Ebad.
  { do 2 eexists. split; [done|]. split_and!; try done. unfold host_flight. by rewrite Er. }
  apply orb_false_iff in Ebad as [Hr _]. apply negb_false_iff, (Range_spec f file _ _ Hfd) in Hr as [Hr _].
  do 2 eexists. split; [done|]. split_and!; try done.
  destruct Hc. split; [|by split]. split; try assumption. intros _. cbn. by rewrite <- ho_sector0.
Qed.

Lemma Program_spec f a bs :
  host_ok f -> host_flight f = None -> bytes_ok bs -> Z.of_nat (length bs) = write ->
  exists st f', Program f a bs = (st, f') /\ host_ok f' /\ host_view f' = host_view f /\
    clock_reads f' = clock_reads f /\
    host_flight f' = if st =s? Status.ok then Some (OpProgram a bs) else None.
Proof.
  intros Hf Hfl Hbs Hlb. pose proof Hf as (Hc & Ht & Hi). destruct (ho_file f Hc) as (file & Hfd & Hlen & Hb).
  unfold host_flight in Hfl. destruct (host_requested_ f) eqn:Er; [done|].
  unfold Program. rewrite Hfd, Er. unfold host_idle. rewrite bool_decide_true by auto. cbn [orb negb].
  destruct (negb _ || _ || _) eqn:Ebad.
  { do 2 eexists. split; [done|]. split_and!; try done. unfold host_flight. by rewrite Er. }
  apply orb_false_iff in Ebad as [_ Hr]. apply negb_false_iff, (Range_spec f file _ _ Hfd) in Hr as [Hr _].
  pose proof (Read_keeps f a (replicate (Z.to_nat (g_write_size (geometry_ f))) 0) Hf) as Hrd.
  assert (Hg : forall x y z, Read f a (replicate (Z.to_nat (g_write_size (geometry_ f))) 0) = (x, y, z) ->
            geometry_ z = geometry_ f).
  { intros x y z. unfold Read. repeat case_match; intros; by simplify_eq. }
  destruct (Read f a _) as [[st old] f1]. destruct Hrd as (Hf1 & Hv1 & Hr1 & Hk1). specialize (Hg _ _ _ eq_refl).
  assert (Hfl1 : host_flight f1 = None) by (unfold host_flight; by rewrite Hr1, Er).
  destruct (negb (st =s? Status.ok)) eqn:Est.
  { do 2 eexists. split; [done|]. split_and!; try done. apply negb_true_iff in Est. by rewrite Est. }
  destruct (negb (forallb _ _)); [by do 2 eexists|].
  pose proof (host_write_size f Hc) as Hws.
  do 2 eexists. split; [done|]. pose proof Hf1 as (Hc1 & Ht1 & _). pose proof (ho_word _ Hc1) as [Hwl Hwb].
  assert (Hsub : sub (blit 0 bs (word_ f1)) 0 (Z.to_nat write) = bs) by (apply sub_blit_same; lia).
  split_and!; try done.
  - destruct Hc1. split; [|by split]. split; try assumption.
    + cbn [word_ field_update]. split; [by rewrite length_blit|by apply Forall_blit].
    + intros _. unfold host_op. cbn [operation_ address_ word_ geometry_ field_update op_size].
      rewrite Hsub, Hg. exact Hr.
  - unfold host_flight, host_op. cbn [host_requested_ operation_ address_ word_ field_update].
    by rewrite Hsub.
Qed.

#[export] Instance FileFlash_contract : FlashContract (driver clock) sector write.
Proof.
  refine {| dev_ok := host_ok; view := host_view; flight := host_flight;
            covers := fun a n => in_geometry g0 a n |}.
  - intros f (Hc & _) x b. destruct (ho_file f Hc) as (file & Hfd & _ & Hb). unfold host_view.
    rewrite Hfd. case_decide; [|done]. intros Hx. by eapply (Forall_lookup_1 _ file).
  - intros f a buf Hf Hfl Hcov. unfold host_flight in Hfl. destruct (host_requested_ f) eqn:Er; [done|].
    rewrite <- (ho_is f (proj1 Hf)) in Hcov.
    destruct (Read_spec f a buf Hf Er Hcov) as (os' & Hos & E & [out Hm]). cbn [driver flash_read]. rewrite E, Hm.
    exists Status.ok, out, (f <| preads := os' |>). split; [done|]. cbn.
    pose proof Hf as (Hc & Ht & Hi). split; [split; [|done]; by destruct Hc|].
    split; [done|]. split; [by unfold host_flight; cbn; rewrite Er|].
    split; [exact (mem_read_length _ _ _ _ Hm)|done].
  - intros f a Hf Hfl. destruct (Erase_spec f a Hf Hfl) as (st & f' & E & H1 & H2 & _ & H3).
    by exists st, f'.
  - intros f a bs Hf Hfl Hb Hl. destruct (Program_spec f a bs Hf Hfl Hb Hl) as (st & f' & E & H1 & H2 & _ & H3).
    by exists st, f'.
  - intros f Hf. destruct (Poll_spec f Hf) as (st & f' & E & H1 & _ & H2). by exists st, f'.
  - intros f Hf. exists (clock (clock_reads f)), (f <| clock_reads := S (clock_reads f) |>).
    split; [done|]. split; [|done]. destruct Hf as (Hc & Ht & Hi). split; [by destruct Hc|done].
  - done.
Defined.
End contract.

(** ** The clock of the device: its readings count the calls of [Now] *)

Lemma Write_clock g o b : clock_reads (snd (Write g o b)) = clock_reads g.
Proof. unfold Write. destruct (fd_ g); [|done]. by destruct (pwrite_loop _ _ _ _ _) as [[? ?] ?]. Qed.

Lemma fill_loop_clock n g start z lim :
  clock_reads (snd (fill_loop n g start z lim)) = clock_reads g.
Proof.
  revert g z. induction n as [|n IH]; intros g z; cbn [fill_loop]; [done|].
  destruct (z <? lim); [|done].
  pose proof (Write_clock g (start + z) (replicate (Z.to_nat (Z.min 4096 (lim - z))) byte_ff)) as H.
  destruct (Write _ _ _) as [[] g2]; cbn in *; [rewrite IH|]; done.
Qed.

Lemma Step_clock s w : clock_reads (fst (snd (Step s w))) = clock_reads (fst w).
Proof.
  destruct w as [f st], s; cbn [Step]; [by repeat case_match|].
  destruct (closed_ f); [done|].
  assert (Hm : clock_reads (snd (execute f)) = clock_reads f).
  { unfold execute. case_bool_decide; [apply Write_clock|apply fill_loop_clock]. }
  destruct (execute f) as [[] f1]; [|done]. unfold fsync. by destruct (fsyncs f1).
Qed.

Lemma Poll_clock f : clock_reads (snd (Poll f)) = clock_reads f.
Proof.
  unfold Poll. set (st := match fd_ f with None => _ | Some _ => _ end).
  destruct (ticking_ (host_machine_ f)) eqn:Et.
  - unfold StateMachine.tick. cbn [machine FileFlash_machine fst]. by rewrite Et.
  - rewrite (tick_step_only Step Step_machine (f, st) Et). cbn [machine FileFlash_machine fst with_machine snd].
    match goal with |- context [Step ?c ?p] => pose proof (Step_clock c p) as H; destruct (Step c p) as [ns [f1 st1]] end.
    exact H.
Qed.

Lemma Read_clock f a buf : clock_reads (snd (Read f a buf)) = clock_reads f.
Proof. unfold Read. by repeat case_match. Qed.

#[export] Instance FileFlash_clock clock : FlashClock (driver clock).
Proof.
  refine {| reads := clock_reads; time_at := clock |}.
  - intros f. by exists (f <| clock_reads := S (clock_reads f) |>).
  - apply Read_clock.
  - intros f a. cbn. unfold Erase. by repeat case_match.
  - intros f a bs. cbn. unfold Program. destruct (fd_ f); [|done]. do 2 (case_match; [done|]).
    pose proof (Read_clock f a (replicate (Z.to_nat (g_write_size (geometry_ f))) 0)) as H1.
    destruct (Read f a _) as [[st old] f1]. by repeat case_match.
  - apply Poll_clock.
Defined.

(** ** Creating an image *)

Lemma file_write_end file bytes : file_write (length file) bytes file = file ++ bytes.
Proof.
  unfold file_write. rewrite Nat.add_comm, Nat.add_sub. apply list_eq. intros i.
  destruct (decide (i < length file)%nat).
  { rewrite lookup_blit_out by lia. by rewrite !lookup_app_l by lia. }
  destruct (decide (i < length file + length bytes)%nat).
  - rewrite lookup_blit_in by (rewrite ?length_app, ?length_replicate; lia).
    by rewrite lookup_app_r by lia.
  - rewrite !lookup_ge_None_2; [done| |]; rewrite ?length_blit, length_app, ?length_replicate; lia.
Qed.

Lemma pwrite_append os file0 at_ bytes file' os' :
  (at_ <= length bytes)%nat ->
  pwrite_loop os (file0 ++ take at_ bytes) (Z.of_nat (length file0)) at_ bytes = (true, file', os') ->
  file' = file0 ++ bytes.
Proof.
  revert at_. induction os as [|io os IH]; intros at_ Hat; cbn [pwrite_loop]; rewrite Nat2Z.id;
    destruct (Nat.ltb_spec at_ (length bytes));
    try (intros [= <- <-]; by rewrite take_ge by lia).
  - intros [= <- <-].
    replace (length file0 + at_)%nat with (length (file0 ++ take at_ bytes)) by (rewrite length_app, length_take; lia).
    by rewrite file_write_end, <- app_assoc, take_drop.
  - destruct io as [| |n]; [by apply IH|done|].
    set (k := Nat.min (Pos.to_nat n) (length bytes - at_)).
    replace (length file0 + at_)%nat with (length (file0 ++ take at_ bytes)) by (rewrite length_app, length_take; lia).
    rewrite file_write_end, <- app_assoc. unfold sub. rewrite take_take_drop. apply IH. lia.
Qed.

Lemma fill_append fuel f at_ n f' :
  fd_ f = Some (replicate at_ byte_ff) -> (at_ <= n)%nat ->
  Z.of_nat n - Z.of_nat at_ <= 4096 * Z.of_nat fuel ->
  fill_loop fuel f 0 (Z.of_nat at_) (Z.of_nat n) = (true, f') ->
  fd_ f' = Some (replicate n byte_ff).
Proof.
  revert f at_. induction fuel as [|fuel IH]; intros f at_ Hfd Hat Hfuel; cbn [fill_loop].
  { intros [= <-]. rewrite Hfd. do 2 f_equal. lia. }
  destruct (Z.ltb_spec (Z.of_nat at_) (Z.of_nat n)).
  2:{ intros [= <-]. rewrite Hfd. do 2 f_equal. lia. }
  set (c := Z.min 4096 (Z.of_nat n - Z.of_nat at_)). unfold Write. rewrite Hfd.
  destruct (pwrite_loop _ _ _ _ _) as [[ok file1] os1] eqn:E. destruct ok; [|done].
  replace (0 + Z.of_nat at_) with (Z.of_nat (length (replicate at_ byte_ff))) in E
    by (rewrite length_replicate; lia).
  rewrite <- (app_nil_r (replicate at_ byte_ff)) in E at 1.
  change (@nil Z) with (take 0 (replicate (Z.to_nat c) byte_ff)) in E.
  apply pwrite_append in E as ->; [|lia]. rewrite <- replicate_add.
  replace (Z.of_nat at_ + c) with (Z.of_nat (at_ + Z.to_nat c)) by lia.
  apply IH; [done|lia|lia].
Qed.

Definition new_file_flash (preads pwrites : list Io) (fsyncs : list bool) : FileFlash :=
  mkFileFlash None (mkGeometry 0 0 0 16) (initial_machine HostState.idle) op_erase false false 0
    (replicate 32 0) preads pwrites fsyncs 0.

Lemma Poll_file f :
  ticking_ (host_machine_ f) = false -> cs (host_machine_ f) = HostState.idle ->
  fd_ (snd (Poll f)) = fd_ f.
Proof.
  intros Ht Hcs. unfold Poll.
  rewrite (tick_step_only Step Step_machine (f, _) Ht). cbn [machine FileFlash_machine fst with_machine snd].
  rewrite Hcs. cbn [Step closed_ host_requested_ field_update].
  destruct (closed_ f), (host_requested_ f); reflexivity.
Qed.

(** [open] in create mode, whatever partial writes, interruptions and
    failures the system calls show: success means that the file holds exactly
    [size] erased bytes, any failure leaves the device closed. *)
Theorem open_create_erased rd wr fs g os st f :
  open (new_file_flash rd wr fs) true g create os = (st, f) ->
  os_file os = Some [] \/ os_file os = None -> 0 <= size g ->
  if st =s? Status.ok then fd_ f = Some (replicate (Z.to_nat (size g)) byte_ff) else fd_ f = None.
Proof.
  unfold open. cbn [fd_ new_file_flash]. intros H Hos Hsz.
  destruct (negb true || negb (geometry_valid g)); [by injection H as <- <-|].
  destruct (os_file os) as [file|]; [|by injection H as <- <-].
  destruct Hos as [[= ->]|]; [|done].
  destruct (negb (os_locked os)); [by injection H as <- <-|].
  destruct (negb (os_regular os)); [by injection H as <- <-|].
  rewrite bool_decide_false, bool_decide_true in H by done. cbn [andb] in H.
  set (f0 := field_update geometry_ _ _) in H.
  destruct (fill_loop (fill_fuel (size g)) f0 0 0 (size g)) as [ok f1] eqn:Ef.
  pose proof (fill_loop_machine (fill_fuel (size g)) f0 0 0 (size g)) as Hm. rewrite Ef in Hm. cbn [snd] in Hm.
  destruct ok; [|by injection H as <- <-].
  assert (Hfd : fd_ f1 = Some (replicate (Z.to_nat (size g)) byte_ff)).
  { replace (size g) with (Z.of_nat (Z.to_nat (size g))) in Ef at 2 by lia.
    eapply (fill_append _ f0 0 (Z.to_nat (size g))); [done|lia| |exact Ef].
    unfold fill_fuel. pose proof (Z.div_mod (size g + 4095) 4096 ltac:(lia)).
    pose proof (Z.mod_pos_bound (size g + 4095) 4096 ltac:(lia)).
    pose proof (Z.div_pos (size g + 4095) 4096 ltac:(lia) ltac:(lia)). lia. }
  destruct (fsync f1) as [synced f2] eqn:Es.
  assert (H2 : fd_ f2 = fd_ f1 /\ host_machine_ f2 = host_machine_ f1).
  { unfold fsync in Es. destruct (fsyncs f1); by injection Es as <- <-. }
  destruct H2 as (Hf2 & Hm2).
  destruct synced; cbn [negb] in H; [|by injection H as <- <-].
  injection H as <- <-. rewrite st_eqb_refl. rewrite Poll_file; [by rewrite Hf2| |].
  - by rewrite Hm2, Hm.
  - by rewrite Hm2, Hm.
Qed.

(** ** An executable test for an idle device *)

Definition host_idle_ok (g : Geometry) (f : FileFlash) : bool :=
  match fd_ f with
  | Some file => (Z.of_nat (length file) =? size g) && bool_decide (bytes_ok file)
  | None => false
  end && negb (closed_ f) && negb (ticking_ (host_machine_ f)) && negb (host_requested_ f) &&
  host_idle f && (length (word_ f) =? 32)%nat && bool_decide (bytes_ok (word_ f)) &&
  forallb (fun io => match io with Fail => false | _ => true end) (preads f) &&
  geometry_valid g && (0 <=? base g) && (0 <? g_sector_size g).

Lemma host_idle_ok_spec g f :
  geometry_ f = g -> host_idle_ok g f = true -> host_ok (g_sector_size g) (g_write_size g) g f.
Proof.
  intros Hg. unfold host_idle_ok. rewrite !andb_true_iff, !negb_true_iff.
  intros ((((((((((Hfile & Hcl) & Ht) & Hr) & Hi) & Hw) & Hwb) & Hp) & Hgv) & Hgb) & Hgs).
  destruct (fd_ f) as [file|] eqn:Hfd; [|done]. apply andb_true_iff in Hfile as [Hl Hb].
  apply bool_decide_eq_true in Hb, Hwb. apply Nat.eqb_eq in Hw. apply Z.eqb_eq in Hl.
  apply Z.leb_le in Hgb. apply Z.ltb_lt in Hgs.
  unfold host_idle in Hi. apply bool_decide_eq_true in Hi.
  split; [|done]. split; rewrite ?Hg; try done.
  - exists file. by split_and!.
  - by rewrite Hr.
  - intros Hin. rewrite forallb_forall in Hp. apply list_elem_of_In in Hin. by apply Hp in Hin.
Qed.
