(* ===== verification/JournalExample.v ===== *)
(** * The boot journal on a file-backed device

    A concrete journal on [FileFlash]: the layout of the repository's
    reliability tests, with 512-byte sectors, on a file that holds the two
    metadata sectors.  Its evaluation instantiates the theorems of
    JournalCommit.v. *)

From S2P Require Import Prelude Foundation Wire StateMachine Flash Codec Journal JournalScan JournalCrash JournalCommit HostFlash.

Definition ex_layout : Layout := mkLayout (1024, 3072) (0, 512) 1024 512 16 1 1 1000000.
Definition ex_geometry : Geometry := mkGeometry 0 1024 512 16.
Definition ex_clock (n : nat) : Time := 1000 * Z.of_nat n.

(** A blank device; its first transfers are interrupted and short. *)
Definition ex_device : FileFlash :=
  mkFileFlash (Some (replicate 1024 byte_ff)) ex_geometry (initial_machine HostState.idle) op_erase
    false false 0 (replicate 32 0) [Eintr; Transfer 3] [Transfer 5; Eintr] [] 0.

Abbreviation ex_flash := (driver ex_clock).
#[local] Instance ex_contract : FlashContract ex_flash (sector_size ex_layout) (write_size ex_layout) :=
  FileFlash_contract ex_clock 512 16 ex_geometry.

Lemma ex_layout_unsigned : layout_unsigned ex_layout.
Proof. split; repeat split; done. Qed.

Lemma ex_journal_device : journal_device ex_flash ex_layout.
Proof.
  split; [done|done|apply ex_layout_unsigned| |].
  - intros a n Hn (b & Hb & H1 & H2). cbn in *. unfold in_geometry. cbn. lia.
  - intros b [-> | ->]; done.
Qed.

Lemma ex_device_ok : dev_ok ex_device.
Proof. apply (host_idle_ok_spec ex_geometry); vm_compute; reflexivity. Qed.

Lemma ex_blank a : is_slot ex_layout a -> slot_at (view ex_device) a = None.
Proof.
  intros Ha. apply slot_framed. intros r' Hr. pose proof (mem_read_bytes _ _ _ _ (view_ok _ ex_device_ok) Hr) as Hb.
  pose proof (mem_read_length _ _ _ _ Hr) as Hl. apply mem_read_Some in Hr as [_ Hr].
  apply erased_start_rejected; [assumption|lia|]. rewrite Hr by lia. rewrite Z.add_0_r.
  cbn [view ex_contract FileFlash_contract]. unfold host_view. cbn [fd_ geometry_ ex_device base ex_geometry].
  assert (0 <= a < 1024) by (destruct Ha as [(? & ? & _)|(? & ? & _)]; cbn in *; unfold kRecordSize in *; lia).
  rewrite decide_True by lia. apply lookup_replicate_2. lia.
Qed.

Lemma ex_journal_ok : journal_ok ex_layout (view ex_device).
Proof.
  split; [intros a r s a' r' s' Ha _ Hs|intros a r s Ha Hs]; rewrite (ex_blank a Ha) in Hs; discriminate.
Qed.

Lemma ex_request_ok : request_ok sample_snapshot.
Proof. destruct sample_snapshot_ok. split; try done. Qed.

Lemma ex_quiet : quiet new_journal.
Proof. split; [done|by left]. Qed.

Definition ex_begin : Status * Journal * FileFlash :=
  begin ex_flash ex_layout new_journal ex_device sample_snapshot true.
Definition ex_run (n : nat) : Journal * FileFlash :=
  Nat.iter n (tick_pair ex_flash ex_layout) (snd (fst ex_begin), snd ex_begin).

(** The device after a restart: the operation in flight is forgotten. *)
Definition ex_restart (f : FileFlash) : FileFlash :=
  f <| host_requested_ := false |> <| host_machine_ := initial_machine HostState.idle |>.

Example ex_begin_ok : fst (fst ex_begin) = Status.ok.
Proof. vm_compute. reflexivity. Qed.
Example ex_in_flight : flight (snd (ex_run 6)) <> None.
Proof. vm_compute. discriminate. Qed.

Lemma ex_crash n m : host_idle_ok ex_geometry (ex_restart (snd (ex_run n))) = true ->
  geometry_ (snd (ex_run n)) = ex_geometry ->
  (match flight (snd (ex_run n)) with Some (OpErase _ _) => False | _ => True end) ->
  m = view (snd (ex_run n)) -> crash_image ex_flash (snd (ex_run n)) m.
Proof.
  intros Hok Hg Hop ->. assert (Hd : dev_ok (ex_restart (snd (ex_run n)))) by (by apply (host_idle_ok_spec ex_geometry)).
  split; [exact (view_ok _ Hd)|]. destruct (flight _) as [[|]|]; [done|by split|done].
Qed.

Lemma ex_run_eq n :
  Nat.iter n (tick_pair ex_flash ex_layout) (snd (fst ex_begin), snd ex_begin) =
  (fst (ex_run n), snd (ex_run n)).
Proof. unfold ex_run. apply surjective_pairing. Qed.

Lemma ex_restart_flight f : flight (ex_restart f) = None.
Proof. reflexivity. Qed.
Lemma ex_restart_view f : view (ex_restart f) = view f.
Proof. reflexivity. Qed.

(** The commit of a first snapshot, cut in its sixth tick, while a programming
    unit is in flight. *)
Lemma commit_survives_power_loss_witness :
  exists old, before ex_layout old (view ex_device) /\
  exists st s j4 d4, load ex_flash ex_layout new_journal (ex_restart (snd (ex_run 6))) no_snapshot = (st, s, j4, d4) /\
    journal_ok ex_layout (view d4) /\
    (st = Status.ok /\ (old = Some s \/ s = next_snapshot old sample_snapshot) \/
     st <> Status.ok /\ old = None).
Proof.
  apply (commit_survives_power_loss ex_flash ex_layout ex_journal_device new_journal ex_device sample_snapshot true
    (snd (fst ex_begin)) (snd ex_begin) 6 (fst (ex_run 6)) (snd (ex_run 6)) (view (snd (ex_run 6)))).
  - exact ex_device_ok.
  - reflexivity.
  - exact ex_journal_ok.
  - exact ex_quiet.
  - exact ex_request_ok.
  - vm_compute. reflexivity.
  - apply ex_run_eq.
  - apply ex_crash; [vm_compute; reflexivity|vm_compute; reflexivity|vm_compute; exact I|reflexivity].
  - apply (host_idle_ok_spec ex_geometry); vm_compute; reflexivity.
  - apply ex_restart_flight.
  - apply ex_restart_view.
Defined.

Definition ex_commit : option (Status * Journal * FileFlash) :=
  Journal.commit ex_flash ex_layout 60 new_journal ex_device sample_snapshot 0 true.
Definition ex_committed : Journal * FileFlash :=
  match ex_commit with Some (_, j, d) => (j, d) | None => (new_journal, ex_device) end.

Lemma commit_ok_is_newest_witness :
  exists old, before ex_layout old (view ex_device) /\
    newest ex_layout (view (snd ex_committed)) (next_snapshot old sample_snapshot) /\
    dev_ok (snd ex_committed) /\ journal_ok ex_layout (view (snd ex_committed)) /\
    flight (snd ex_committed) = None /\ quiet (fst ex_committed) /\
    (forall x, ~ in_metadata ex_layout x -> view (snd ex_committed) x = view ex_device x).
Proof.
  apply (commit_ok_is_newest ex_flash ex_layout ex_journal_device 60 new_journal ex_device sample_snapshot 0 true).
  - exact ex_device_ok.
  - reflexivity.
  - exact ex_journal_ok.
  - exact ex_quiet.
  - exact ex_request_ok.
  - vm_compute. reflexivity.
Defined.

Lemma load_returns_newest_witness :
  exists st s j' d', load ex_flash ex_layout new_journal ex_device no_snapshot = (st, s, j', d') /\
    view d' = view ex_device /\
    (st = Status.ok <-> exists s', newest ex_layout (view ex_device) s') /\
    (st = Status.ok -> newest ex_layout (view ex_device) s) /\
    (st <> Status.ok -> s = no_snapshot /\ no_record ex_layout (view ex_device)).
Proof.
  apply (load_returns_newest ex_flash ex_layout (device_layout _ _ ex_journal_device)
    (jd_covers _ _ ex_journal_device) new_journal ex_device no_snapshot).
  - reflexivity.
  - reflexivity.
  - exact ex_device_ok.
  - reflexivity.
  - exact (proj1 ex_journal_ok).
Defined.

Lemma commit_terminates_witness :
  exists fuel, is_Some (Journal.commit ex_flash ex_layout fuel new_journal ex_device sample_snapshot 0 true).
Proof.
  apply (commit_terminates ex_flash ex_layout ex_journal_device new_journal ex_device sample_snapshot 0 true).
  - exact ex_device_ok.
  - reflexivity.
  - exact ex_journal_ok.
  - exact ex_quiet.
  - exact ex_request_ok.
  - intros k. exists (k + 1000)%nat. split; [lia|]. intros n Hn. cbn. unfold ex_clock.
    rewrite u64_small by (unfold is_u64; lia). lia.
Defined.

Definition ex_prepare : option (Status * Journal * FileFlash) :=
  prepare_runtime ex_flash ex_layout 60 (fst ex_committed) (snd ex_committed) 0 1000000.
Definition ex_prepared : Status * Journal * FileFlash :=
  default (Status.busy, new_journal, ex_device) ex_prepare.

Definition ex_first : Snapshot := next_snapshot None sample_snapshot.

Lemma ex_committed_ok :
  dev_ok (snd ex_committed) /\ flight (snd ex_committed) = None /\
  journal_ok ex_layout (view (snd ex_committed)) /\ quiet (fst ex_committed) /\
  newest ex_layout (view (snd ex_committed)) ex_first.
Proof.
  destruct (commit_ok_spec ex_flash ex_layout ex_journal_device 60 new_journal ex_device sample_snapshot 0 true
    (fst ex_committed) (snd ex_committed) ex_device_ok eq_refl ex_journal_ok ex_quiet ex_request_ok)
    as (old & Hold & Hn & Hd & Hj & Hf & Hq & _); [vm_compute; reflexivity|].
  (split; [exact Hd|]); (split; [exact Hf|]); (split; [exact Hj|]); (split; [exact Hq|]).
  destruct old as [s|]; [|exact Hn]. destruct Hold as (a & r & Ha & Hat & _).
  rewrite (ex_blank a Ha) in Hat. discriminate Hat.
Qed.

(** Preparing bank 0, which holds the only record: it is copied to bank 1
    first. *)
Lemma prepare_runtime_keeps_newest_witness :
  (forall m, crash_image ex_flash (snd ex_prepared) m ->
     journal_ok ex_layout m /\ newest ex_layout m ex_first) /\
  (Status.ok = Status.ok -> flight (snd ex_prepared) = None /\
     erased_sector ex_layout (sel (metadata ex_layout) 0) (view (snd ex_prepared))).
Proof.
  pose proof ex_committed_ok as (Hd & Hf & Hj & Hq & Hn).
  apply (prepare_runtime_keeps_newest ex_flash ex_layout ex_journal_device 60 (fst ex_committed)
    (snd ex_committed) 0 1000000 ex_first Status.ok (snd (fst ex_prepared)) (snd ex_prepared)).
  - lia.
  - exact Hq.
  - vm_compute. reflexivity.
  - exact Hd.
  - exact Hf.
  - exact Hj.
  - exact Hn.
  - vm_compute. reflexivity.
Defined.

(** [open] in create mode on a short geometry, with interrupted writes. *)
Lemma open_create_erased_witness :
  fd_ (snd (open (new_file_flash [] [Eintr; Transfer 7] []) true (mkGeometry 0 32 16 16) create
              (mkOsOpen (Some []) true true))) = Some (replicate 32 byte_ff).
Proof.
  apply (open_create_erased [] [Eintr; Transfer 7] [] (mkGeometry 0 32 16 16)
    (mkOsOpen (Some []) true true) Status.ok).
  - vm_compute. reflexivity.
  - by left.
  - by vm_compute.
Defined.
