(* ===== verification/Control.v ===== *)
(** * Boot policy (src/lib/boot/control.h, control.cpp)

    Which image to boot, and the trial / confirm / rollback protocol.  The
    policy sees the journal through an interface, [SnapshotStore]: what it
    promises is stated by [SnapshotStoreLaws], which the boot journal
    discharges at the end of the file. *)

From S2P Require Import Prelude Foundation Wire StateMachine Flash Codec Journal JournalScan JournalCrash JournalCommit.

(** ** The interface to the journal

    [J] is the state of the store, [D] the flash device it shares with its
    client. [None] of [store_commit] is a foreground loop that did not end. *)
Class SnapshotStore (J D : Type) := {
  store_load : J -> D -> Snapshot -> Status * Snapshot * J * D;
  store_commit : J -> D -> Snapshot -> option (Status * J * D)
}.

Class SnapshotStoreLaws {J D} (F : Flash D) (layout : Layout)
    `{!FlashContract F (sector_size layout) (write_size layout)} (Store : SnapshotStore J D) := {
  store_ok : J -> D -> Prop;
  store_idle j d : store_ok j d -> dev_ok d /\ flight d = None;
  store_consistent j d : store_ok j d -> consistent layout (view d);
  store_same j d d' : store_ok j d -> dev_ok d' -> view d' = view d -> flight d' = None -> store_ok j d';
  store_newest_ok j d s : store_ok j d -> newest layout (view d) s -> snapshot_ok s;
  store_load_law j d out : store_ok j d ->
    exists st s j' d', store_load j d out = (st, s, j', d') /\ store_ok j' d' /\ view d' = view d /\
      (st = Status.ok <-> exists s', newest layout (view d) s') /\
      (st = Status.ok -> newest layout (view d) s);
  store_commit_law j d s j' d' : store_ok j d -> snapshot_ok s ->
    store_commit j d s = Some (Status.ok, j', d') ->
    store_ok j' d' /\ (exists q, newest layout (view d') (s <| sequence := q |>)) /\
    (forall x, ~ in_metadata layout x -> view d' x = view d x)
}.

(** ** Data *)

Record Selection := mkSelection {
  selection_status : Status; selection_slot : Z; selection_trial : bool; selection_image : Image
}.
Definition no_selection (st : Status) : Selection := mkSelection st 2 false no_image.

Definition reject_trial (image : Image) : Image :=
  if bool_decide (image_state image = ImageState.trial)
  then image <| image_state := ImageState.rejected |> else image.

Definition set_state (s : Snapshot) (slot : Z) (st : ImageState) : Snapshot :=
  s <| images := set_sel (images s) slot ((sel (images s) slot) <| image_state := st |>) |>.

Section control.
Context {J D : Type} (F : Flash D) (layout : Layout) (crc : Backend) `{Store : !SnapshotStore J D}.

(** The loop of [verify]; [fuel] counts the 256-byte chunks. *)
Fixpoint verify_loop (fuel : nat) (address size offset value : Z) (d : D) : Status * Z * D :=
  match fuel with
  | O => (Status.ok, value, d)
  | S fuel =>
      if offset <? size then
        let count := Z.min 256 (size - offset) in
        let '(result, bytes, d) := flash_read F d (u32 (address + offset)) (replicate (Z.to_nat count) 0) in
        if negb (result =s? Status.ok) then (result, value, d)
        else verify_loop fuel address size (offset + count) (service_update crc value bytes) d
      else (Status.ok, value, d)
  end.
Definition verify_fuel (size : Z) : nat := Z.to_nat ((size + 255) / 256).

(** The conditions under which [verify] looks at the slot at all. *)
Definition compatible (slot : Z) (image : Image) : bool :=
  negb (negb (flash_valid F) || negb (Layout_valid layout) || (slot >=? 2) || (image_size image =? 0) ||
        (image_size image >? slot_size layout) || negb (image_product image =? product layout) ||
        negb (image_revision image =? revision layout) || (installation image =? 0)).

Definition verify (slot : Z) (image : Image) (d : D) : Status * D :=
  if negb (compatible slot image) then (Status.incompatible, d)
  else
    let '(result, value, d) :=
      verify_loop (verify_fuel (image_size image)) (sel (slots layout) slot) (image_size image) 0 0 d in
    if negb (result =s? Status.ok) then (result, d)
    else (if value =? image_crc image then Status.ok else Status.checksum_error, d).

(** The loop over [{newest, 1 - newest}]. *)
Fixpoint try_slots (slots : list Z) (snapshot : Snapshot) (failure : Status) (j : J) (d : D)
  : option (Selection * J * D) :=
  match slots with
  | [] => Some (no_selection failure, j, d)
  | slot :: rest =>
      let image := sel (images snapshot) slot in
      if negb (bool_decide (image_state image = ImageState.pending)) &&
         negb (bool_decide (image_state image = ImageState.confirmed))
      then try_slots rest snapshot failure j d
      else
        let '(result, d) := verify slot image d in
        if negb (result =s? Status.ok) then try_slots rest snapshot result j d
        else
          let trial := bool_decide (image_state image = ImageState.pending) in
          if trial then
            let snapshot := set_state snapshot slot ImageState.trial in
            '(result, j, d) ← store_commit j d snapshot;
            if negb (result =s? Status.ok) then Some (no_selection result, j, d)
            else Some (mkSelection Status.ok slot true (sel (images snapshot) slot), j, d)
          else Some (mkSelection Status.ok slot false image, j, d)
  end.

Definition select (j : J) (d : D) : option (Selection * J * D) :=
  let '(result, snapshot, j, d) := store_load j d no_snapshot in
  if negb (result =s? Status.ok) then Some (no_selection result, j, d)
  else
    let rejected := bool_decide (image_state (fst (images snapshot)) = ImageState.trial) ||
                    bool_decide (image_state (snd (images snapshot)) = ImageState.trial) in
    let snapshot := snapshot <| images := (reject_trial (fst (images snapshot)),
                                           reject_trial (snd (images snapshot))) |> in
    '(result, j, d) ← (if rejected then store_commit j d snapshot else Some (Status.ok, j, d));
    if negb (result =s? Status.ok) then Some (no_selection result, j, d)
    else
      let newest := if installation (snd (images snapshot)) >? installation (fst (images snapshot))
                    then 1 else 0 in
      try_slots [newest; 1 - newest] snapshot Status.not_found j d.

Definition confirm_image (running_slot : Z) (j : J) (d : D) : option (Status * J * D) :=
  if running_slot >=? 2 then Some (Status.unsupported, j, d)
  else
    let '(result, snapshot, j, d) := store_load j d no_snapshot in
    if negb (result =s? Status.ok) then Some (result, j, d)
    else
      let image := sel (images snapshot) running_slot in
      if bool_decide (image_state image = ImageState.confirmed) then Some (Status.ok, j, d)
      else if negb (bool_decide (image_state image = ImageState.trial)) then Some (Status.not_running, j, d)
      else store_commit j d (set_state snapshot running_slot ImageState.confirmed).
End control.

(** ** Verification of an image *)

Section verify.
Context {D : Type} (F : Flash D) (layout : Layout) (crc : Backend).
Context `{HC : !FlashContract F (sector_size layout) (write_size layout)}.
Context (Hcrc : backend_faithful crc).
Context (Hcov : forall slot, 0 <= slot < 2 -> forall a n, 0 <= n -> sel (slots layout) slot <= a ->
                  a + n <= sel (slots layout) slot + slot_size layout -> covers a n).
Context (Hslots : forall slot, 0 <= slot < 2 -> 0 <= sel (slots layout) slot /\
                  sel (slots layout) slot + slot_size layout <= 2 ^ 32).

(** The bytes of an image in the cells. *)
Definition image_bytes (m : Mem) (slot : Z) (image : Image) : option (list Z) :=
  mem_read m (sel (slots layout) slot) (Z.to_nat (image_size image)).

(** The chunked loop computes the checksum of the whole. *)
Lemma verify_loop_spec fuel slot size offset value d :
  0 <= slot < 2 -> dev_ok d -> flight d = None ->
  0 <= offset <= size -> size <= slot_size layout -> size - offset <= 256 * Z.of_nat fuel ->
  exists st v d', verify_loop F crc fuel (sel (slots layout) slot) size offset value d = (st, v, d') /\
    dev_ok d' /\ view d' = view d /\ flight d' = None /\
    match mem_read (view d) (sel (slots layout) slot + offset) (Z.to_nat (size - offset)) with
    | Some bs => st = Status.ok /\ v = crc32_update value bs
    | None => st <> Status.ok
    end.
Proof.
  intros Hs. destruct (Hslots slot Hs) as [Hb0 Hb1]. set (base := sel (slots layout) slot) in *.
  revert offset value d. induction fuel as [|fuel IH]; intros offset value d Hd Hf Ho Hsz Hfuel; cbn [verify_loop].
  { exists Status.ok, value, d. split_and!; try done. replace (Z.to_nat (size - offset)) with 0%nat by lia.
    rewrite mem_read_nil. by rewrite crc32_update_nil. }
  destruct (Z.ltb_spec offset size).
  2:{ exists Status.ok, value, d. split_and!; try done. replace (Z.to_nat (size - offset)) with 0%nat by lia.
      rewrite mem_read_nil. by rewrite crc32_update_nil. }
  set (count := Z.min 256 (size - offset)).
  rewrite u32_small by (unfold is_u32; lia).
  destruct (read_spec d (base + offset) (replicate (Z.to_nat count) 0) Hd Hf) as (st & bs & d1 & -> & Hd1 & Hv1 & Hf1 & _ & Hr).
  { rewrite length_replicate. apply (Hcov slot Hs); lia. }
  rewrite length_replicate in Hr.
  replace (Z.to_nat (size - offset)) with (Z.to_nat count + Z.to_nat (size - (offset + count)))%nat by lia.
  rewrite mem_read_split. destruct (mem_read (view d) (base + offset) (Z.to_nat count)) as [bs0|]; simpl.
  2:{ destruct Hr as [Hst _]. apply st_eqb_neq in Hst as E. rewrite E. by do 3 eexists. }
  destruct Hr as [-> ->]. rewrite st_eqb_refl. cbn [negb].
  destruct (IH (offset + count) (service_update crc value bs0) d1 Hd1 Hf1) as (st & v & d2 & -> & Hd2 & Hv2 & Hf2 & Hr);
    [lia|lia|lia|].
  rewrite Hv1 in Hr, Hv2. exists st, v, d2. split_and!; try done.
  replace (base + offset + Z.of_nat (Z.to_nat count)) with (base + (offset + count)) by lia.
  destruct (mem_read (view d) (base + (offset + count)) _) as [bs1|]; simpl; [|done].
  destruct Hr as [-> ->]. split; [done|]. rewrite service_update_correct by done. by rewrite crc32_update_app.
Qed.

Lemma compatible_inv slot image :
  compatible F layout slot image = true ->
  slot < 2 /\ image_size image <> 0 /\ image_size image <= slot_size layout /\
  image_product image = product layout /\ image_revision image = revision layout /\ installation image <> 0.
Proof.
  unfold compatible. rewrite negb_true_iff, !orb_false_iff. intros H. destruct_and!. breflect. lia.
Qed.

Lemma verify_spec slot image d :
  0 <= slot -> 0 <= image_size image -> dev_ok d -> flight d = None ->
  exists st d', verify F layout crc slot image d = (st, d') /\
    dev_ok d' /\ view d' = view d /\ flight d' = None /\
    (st = Status.ok <->
       compatible F layout slot image = true /\
       exists bs, image_bytes (view d) slot image = Some bs /\ crc32_calculate bs = image_crc image).
Proof.
  intros Hs Hsz Hd Hf. unfold verify. destruct (compatible F layout slot image) eqn:Ec; cbn [negb].
  2:{ do 2 eexists. split; [done|]. split_and!; try done. by split; [|intros [? _]]. }
  destruct (compatible_inv _ _ Ec) as (Hs2 & _ & Hle & _).
  destruct (verify_loop_spec (verify_fuel (image_size image)) slot (image_size image) 0 0 d)
    as (st & v & d' & -> & Hd' & Hv' & Hf' & Hr); [lia|done|done|lia|lia| |].
  { unfold verify_fuel. pose proof (Z.div_mod (image_size image + 255) 256 ltac:(lia)).
    pose proof (Z.mod_pos_bound (image_size image + 255) 256 ltac:(lia)).
    pose proof (Z.div_pos (image_size image + 255) 256 ltac:(lia) ltac:(lia)). lia. }
  rewrite Z.add_0_r, Z.sub_0_r in Hr. fold (image_bytes (view d) slot image) in Hr.
  destruct (image_bytes (view d) slot image) as [bs|].
  - destruct Hr as [-> ->]. rewrite st_eqb_refl. cbn [negb]. do 2 eexists. split; [done|]. split_and!; try done.
    fold (crc32_calculate bs). destruct (Z.eqb_spec (crc32_calculate bs) (image_crc image)).
    + split; [intros _; split; [done|by exists bs]|done].
    + split; [done|]. intros (_ & bs' & [= <-] & ?). done.
  - apply st_eqb_neq in Hr as E. rewrite E. cbn [negb]. do 2 eexists. split; [done|]. split_and!; try done.
    split; [done|]. by intros (_ & bs' & ? & _).
Qed.
End verify.

(** ** Slots and metadata do not overlap *)

Lemma Layout_valid_slots l : layout_unsigned l -> Layout_valid l = true ->
  forall slot, 0 <= slot < 2 -> 0 <= sel (slots l) slot /\ sel (slots l) slot + slot_size l <= 2 ^ 32 /\
    forall x, in_block (sel (slots l) slot) (slot_size l) x -> ~ in_metadata l x.
Proof.
  unfold Layout_valid. intros [[Hs0 Hs1] [Hm0 Hm1] [Hz Hsec] Ht] H slot Hs.
  destruct (_ || _ || _ || _ || _ || _ || _ || _); [done|].
  destruct (existsb _ _); [done|]. cbn in H.
  repeat match type of H with (if ?c then false else _) = true => destruct c eqn:?; [done|] end.
  rewrite !orb_false_iff in *. destruct_and?. unfold is_u32, in_metadata, is_sector, in_block in *.
  assert (slot = 0 \/ slot = 1) as [-> | ->] by lia; cbn [sel Z.eqb]; (split; [lia|]); (split; [lia|]);
    intros x Hx (b & [-> | ->] & Hb); lia.
Qed.

(** ** Snapshots keep their shape *)

Lemma state_image_ok im st : image_ok im -> image_ok (im <| image_state := st |>).
Proof. by intros []. Qed.

Lemma reject_trial_ok im : image_ok im -> image_ok (reject_trial im).
Proof. unfold reject_trial. case_bool_decide; [apply state_image_ok|done]. Qed.

Lemma reject_trial_installation im : installation (reject_trial im) = installation im.
Proof. unfold reject_trial. by case_bool_decide. Qed.

Lemma rejected_ok s : snapshot_ok s ->
  snapshot_ok (s <| images := (reject_trial (fst (images s)), reject_trial (snd (images s))) |>).
Proof.
  intros []. split; cbn; try done; try (by apply reject_trial_ok); by rewrite reject_trial_installation.
Qed.

Lemma set_state_ok s slot st : snapshot_ok s -> snapshot_ok (set_state s slot st).
Proof.
  intros []. unfold set_state, set_sel, sel.
  destruct (slot =? 0); split; cbn; try done; by apply state_image_ok.
Qed.

Lemma sel_set_state s slot st :
  sel (images (set_state s slot st)) slot = (sel (images s) slot) <| image_state := st |>.
Proof. unfold set_state, set_sel, sel. by destruct (slot =? 0) eqn:E; cbn; rewrite ?E. Qed.

Lemma sel_set_other s slot st i : 0 <= slot < 2 -> 0 <= i < 2 -> i <> slot ->
  sel (images (set_state s slot st)) i = sel (images s) i.
Proof.
  intros Hs Hi Hne. unfold set_state, set_sel, sel.
  destruct (Z.eqb_spec slot 0), (Z.eqb_spec i 0); cbn; try done; lia.
Qed.

(** ** Selection *)

Section policy.
Context {J D : Type} (F : Flash D) (layout : Layout) (crc : Backend).
Context `{HC : !FlashContract F (sector_size layout) (write_size layout)}.
Context {Store : SnapshotStore J D} `{HS : !SnapshotStoreLaws F layout Store}.
Context (Hcrc : backend_faithful crc) (Hu : layout_unsigned layout) (Hlv : Layout_valid layout = true).
Context (Hcov : forall slot, 0 <= slot < 2 -> forall a n, 0 <= n -> sel (slots layout) slot <= a ->
                  a + n <= sel (slots layout) slot + slot_size layout -> covers a n).

Lemma slots_range slot : 0 <= slot < 2 -> 0 <= sel (slots layout) slot /\
                  sel (slots layout) slot + slot_size layout <= 2 ^ 32.
Proof. intros Hs. by destruct (Layout_valid_slots layout Hu Hlv slot Hs) as (? & ? & _). Qed.

(** An image that may be booted: its state allows it and its bytes are intact. *)
Definition verified (m : Mem) (slot : Z) (image : Image) : Prop :=
  compatible F layout slot image = true /\
  exists bs, image_bytes layout m slot image = Some bs /\ crc32_calculate bs = image_crc image.

Definition eligible (m : Mem) (s : Snapshot) (slot : Z) : Prop :=
  (image_state (sel (images s) slot) = ImageState.pending \/
   image_state (sel (images s) slot) = ImageState.confirmed) /\
  verified m slot (sel (images s) slot).

(** Journal writes do not disturb the images. *)
Lemma image_bytes_elsewhere m m' slot image :
  0 <= slot < 2 -> image_size image <= slot_size layout ->
  (forall x, ~ in_metadata layout x -> m' x = m x) ->
  image_bytes layout m' slot image = image_bytes layout m slot image.
Proof.
  intros Hs Hsz Hm. apply mem_read_ext. intros x Hx. apply Hm.
  destruct (Layout_valid_slots layout Hu Hlv slot Hs) as (_ & _ & Hd). apply Hd.
  unfold in_block in *. lia.
Qed.

Lemma verified_elsewhere m m' slot image :
  0 <= slot < 2 -> (forall x, ~ in_metadata layout x -> m' x = m x) ->
  verified m slot image -> verified m' slot image.
Proof.
  intros Hs Hm [Hc (bs & Hbs & Hcr)]. split; [done|]. exists bs. split; [|done].
  destruct (compatible_inv F layout slot image Hc) as (_ & _ & Hle & _).
  by rewrite (image_bytes_elsewhere m m').
Qed.

Definition image_sizes_ok (s : Snapshot) : Prop := forall slot, 0 <= image_size (sel (images s) slot).

Lemma snapshot_sizes s : snapshot_ok s -> image_sizes_ok s.
Proof.
  intros Hs slot. unfold sel. destruct (slot =? 0); [apply (sok_image0 s Hs)|apply (sok_image1 s Hs)].
Qed.

(** What a successful pass over the candidates has done. *)
Definition chosen (m : Mem) (s : Snapshot) (slots : list Z) (sn : Selection) (j' : J) (d' : D) : Prop :=
  exists pre post, slots = pre ++ selection_slot sn :: post /\
    Forall (fun i => ~ eligible m s i) pre /\ eligible m s (selection_slot sn) /\
    selection_trial sn = bool_decide (image_state (sel (images s) (selection_slot sn)) = ImageState.pending) /\
    store_ok j' d' /\ (forall x, ~ in_metadata layout x -> view d' x = m x) /\
    exists s1, newest layout (view d') s1 /\
      images s1 = images (if selection_trial sn then set_state s (selection_slot sn) ImageState.trial else s).

Lemma try_slots_spec slots s failure j d sn j' d' :
  store_ok j d -> snapshot_ok s -> (exists s', newest layout (view d) s' /\ images s' = images s) ->
  Forall (fun i => 0 <= i < 2) slots -> failure <> Status.ok ->
  try_slots F layout crc slots s failure j d = Some (sn, j', d') ->
  selection_status sn = Status.ok -> chosen (view d) s slots sn j' d'.
Proof.
  intros Hok Hs Hnew Hsl Hfail. revert failure d Hok Hnew Hfail.
  induction Hsl as [|slot rest Hslot Hrest IH]; intros failure d Hok Hnew Hfail; cbn [try_slots].
  { intros [= <- <- <-]. done. }
  set (im := sel (images s) slot).
  assert (Hskip : forall f2 d2, f2 <> Status.ok -> ~ eligible (view d) s slot -> store_ok j d2 -> view d2 = view d ->
     try_slots F layout crc rest s f2 j d2 = Some (sn, j', d') -> selection_status sn = Status.ok ->
     chosen (view d) s (slot :: rest) sn j' d').
  { intros f2 d2 Hf2 Hne Hok2 Hv2 Hrec Hst.
    destruct (IH f2 d2 Hok2 ltac:(by rewrite Hv2) Hf2 Hrec Hst) as (pre & post & -> & Hpre & Hc).
    exists (slot :: pre), post. rewrite Hv2 in *. split; [done|]. split; [by constructor|done]. }
  destruct (negb (bool_decide _) && negb (bool_decide _)) eqn:Est.
  { intros Hrec. apply (Hskip failure d); [done| |done|done|exact Hrec].
    apply andb_true_iff in Est as [E1 E2]. apply negb_true_iff, bool_decide_eq_false in E1, E2.
    intros [[?|?] _]; done. }
  destruct (store_idle j d Hok) as [Hd Hf].
  destruct (verify_spec F layout crc Hcrc Hcov slots_range slot im d) as (st & d1 & -> & Hd1 & Hv1 & Hf1 & Hiff);
    [lia|apply snapshot_sizes, Hs|done|done|].
  assert (Hok1 : store_ok j d1) by (by apply (store_same j d)).
  destruct (st =s? Status.ok) eqn:Eok; cbn [negb].
  2:{ apply st_eqb_neq in Eok. intros Hrec. apply (Hskip st d1); [done| |done|done|exact Hrec].
      intros [_ Hv]. apply Eok, Hiff, Hv. }
  apply st_eqb_eq in Eok as ->. destruct (proj1 Hiff eq_refl) as [Hc Hbs].
  assert (Hel : eligible (view d) s slot).
  { split; [|by split]. fold im. apply andb_false_iff in Est.
    rewrite !negb_false_iff, !bool_decide_eq_true in Est. exact Est. }
  destruct (bool_decide (image_state im = ImageState.pending)) eqn:Ep.
  - destruct (store_commit j d1 _) as [[[cst j2] d2]|] eqn:Ec; [|done]. cbn.
    destruct (cst =s? Status.ok) eqn:Ecs; cbn [negb].
    2:{ apply st_eqb_neq in Ecs. intros [= <- <- <-]. done. }
    apply st_eqb_eq in Ecs as ->. intros [= <- <- <-] _.
    apply store_commit_law in Ec as (Hok2 & (q & Hq) & Helse); [|exact Hok1|exact (set_state_ok s slot ImageState.trial Hs)].
    exists [], rest. cbn [selection_slot selection_trial]. fold im. rewrite Ep.
    do 2 (split; [by constructor|]). (split; [exact Hel|]); (split; [reflexivity|]); (split; [exact Hok2|]). split.
    + intros x Hx. by rewrite (Helse x Hx), Hv1.
    + by eexists.
  - intros [= <- <- <-] _. exists [], rest. cbn [selection_slot selection_trial]. fold im. rewrite Ep.
    do 2 (split; [by constructor|]). (split; [exact Hel|]); (split; [reflexivity|]); (split; [exact Hok1|]). split.
    + intros x _. by rewrite Hv1.
    + rewrite Hv1. exact Hnew.
Qed.

(** The snapshot after the trials of [s] have been rejected. *)
Definition rejected (s : Snapshot) : Snapshot :=
  s <| images := (reject_trial (fst (images s)), reject_trial (snd (images s))) |>.

Lemma sel_rejected s i : sel (images (rejected s)) i = reject_trial (sel (images s) i).
Proof. unfold rejected, sel. by destruct (i =? 0). Qed.

Definition candidates (s : Snapshot) : list Z :=
  let newest := if installation (snd (images s)) >? installation (fst (images s)) then 1 else 0 in
  [newest; 1 - newest].

Lemma candidates_range s : Forall (fun i => 0 <= i < 2) (candidates s).
Proof. unfold candidates. case_match; repeat constructor; lia. Qed.

Lemma select_chosen j d s0 sn j' d' :
  store_ok j d -> consistent layout (view d) -> newest layout (view d) s0 ->
  select F layout crc j d = Some (sn, j', d') -> selection_status sn = Status.ok ->
  exists m, (forall x, ~ in_metadata layout x -> m x = view d x) /\
    chosen m (rejected s0) (candidates (rejected s0)) sn j' d'.
Proof.
  intros Hok Hcons Hn. unfold select.
  destruct (store_load_law j d no_snapshot Hok) as (st & s & j1 & d1 & -> & Hok1 & Hv1 & _ & Hnew).
  destruct (st =s? Status.ok) eqn:Est; cbn [negb]; [|intros [= <- <- <-] H; by apply st_eqb_neq in Est].
  apply st_eqb_eq in Est as ->. specialize (Hnew eq_refl).
  rewrite (newest_unique _ _ _ _ Hcons Hnew Hn) in *. clear Hnew s.
  pose proof (store_newest_ok j d s0 Hok Hn) as Hs0. pose proof (rejected_ok s0 Hs0) as Hr0.
  cbn zeta. fold (rejected s0) in *.
  destruct (bool_decide _ || bool_decide _) eqn:Er.
  - destruct (store_commit j1 d1 (rejected s0)) as [[[cst j2] d2]|] eqn:Ec; [|done]. cbn [mbind option_bind].
    destruct (cst =s? Status.ok) eqn:Ecs; cbn [negb]; [|intros [= <- <- <-] H; by apply st_eqb_neq in Ecs].
    apply st_eqb_eq in Ecs as ->.
    apply store_commit_law in Ec as (Hok2 & (q & Hq) & He); [|exact Hok1|exact Hr0].
    intros Htry Hst. exists (view d2). split; [intros x Hx; by rewrite (He x Hx), Hv1|].
    eapply try_slots_spec; [exact Hok2|exact Hr0| |apply candidates_range| |exact Htry|exact Hst]; [by eexists|done].
  - cbn [mbind option_bind]. rewrite st_eqb_refl. cbn [negb]. intros Htry Hst.
    exists (view d1). split; [intros x _; by rewrite Hv1|].
    eapply try_slots_spec; [exact Hok1|exact Hr0| |apply candidates_range| |exact Htry|exact Hst]; [|done].
    exists s0. split; [by rewrite Hv1|]. apply orb_false_iff in Er as [E1 E2].
    unfold rejected, reject_trial. rewrite E1, E2. by destruct s0 as [? ? []].
Qed.

Lemma chosen_range m s sn j' d' :
  chosen m s (candidates s) sn j' d' -> 0 <= selection_slot sn < 2.
Proof.
  intros (pre & post & Hc & _). pose proof (candidates_range s) as Hr. rewrite Hc in Hr.
  apply Forall_app in Hr as [_ Hr]. by apply Forall_cons in Hr as [? _].
Qed.

Lemma rejected_eligible_state s i :
  image_state (sel (images (rejected s)) i) = ImageState.pending \/
  image_state (sel (images (rejected s)) i) = ImageState.confirmed ->
  sel (images (rejected s)) i = sel (images s) i.
Proof.
  rewrite sel_rejected. unfold reject_trial. case_bool_decide; [|done]. cbn. by intros [?|?].
Qed.

(** C5: what a successful [select] guarantees, from the journal's newest
    snapshot [s0]: the slot it returns was pending or confirmed, the image's
    bytes are compatible and have the recorded checksum, and before the image
    can be started the journal's newest snapshot shows it as trial (if it was
    pending) or confirmed, with every earlier unconfirmed trial rejected. *)
Theorem select_boots_verified j d s0 sn j' d' :
  store_ok j d -> consistent layout (view d) -> newest layout (view d) s0 ->
  select F layout crc j d = Some (sn, j', d') -> selection_status sn = Status.ok ->
  let slot := selection_slot sn in
  0 <= slot < 2 /\
  (image_state (sel (images s0) slot) = ImageState.pending \/
   image_state (sel (images s0) slot) = ImageState.confirmed) /\
  verified (view d') slot (sel (images s0) slot) /\
  store_ok j' d' /\
  exists s1, newest layout (view d') s1 /\
    image_state (sel (images s1) slot) = (if selection_trial sn then ImageState.trial else ImageState.confirmed) /\
    (forall i, 0 <= i < 2 -> image_state (sel (images s0) i) = ImageState.trial ->
       image_state (sel (images s1) i) = ImageState.rejected).
Proof.
  intros Hok Hc Hn Hsel Hst slot. destruct (select_chosen _ _ _ _ _ _ Hok Hc Hn Hsel Hst) as (m & Hm & Hch).
  pose proof (chosen_range _ _ _ _ _ Hch) as Hr. fold slot in Hr. split; [exact Hr|].
  destruct Hch as (pre & post & _ & _ & [Hst0 Hv] & Htr & Hok' & He & s1 & Hn1 & Him).
  fold slot in Hst0, Hv, Htr, Him. pose proof (rejected_eligible_state _ _ Hst0) as Heq. rewrite Heq in *.
  split; [exact Hst0|]. split; [eapply (verified_elsewhere m); [exact Hr|exact He|exact Hv]|].
  split; [exact Hok'|]. exists s1. split; [exact Hn1|].
  destruct (selection_trial sn) eqn:Et; rewrite Him; symmetry in Htr.
  - rewrite sel_set_state. split; [done|]. intros i Hi Hti.
    assert (i <> slot) by (intros ->; destruct Hst0; congruence).
    rewrite sel_set_other by assumption. rewrite sel_rejected. unfold reject_trial.
    by rewrite bool_decide_true.
  - rewrite Heq. apply bool_decide_eq_false in Htr. split; [by destruct Hst0|].
    intros i Hi Hti. rewrite sel_rejected. unfold reject_trial. by rewrite bool_decide_true.
Qed.

(** Preference.  [select] passes over a slot with a later installation only
    if that slot's image is not eligible (wrong state, incompatible, unreadable
    or damaged). *)
Theorem select_prefers_newest j d s0 sn j' d' i :
  store_ok j d -> consistent layout (view d) -> newest layout (view d) s0 ->
  select F layout crc j d = Some (sn, j', d') -> selection_status sn = Status.ok ->
  0 <= i < 2 -> installation (sel (images s0) (selection_slot sn)) < installation (sel (images s0) i) ->
  ~ eligible (view d) s0 i.
Proof.
  intros Hok Hc Hn Hsel Hst Hi Hlt. destruct (select_chosen _ _ _ _ _ _ Hok Hc Hn Hsel Hst) as (m & Hm & Hch).
  pose proof (chosen_range _ _ _ _ _ Hch) as Hr.
  destruct Hch as (pre & post & Hcand & Hpre & _). set (slot := selection_slot sn) in *.
  assert (Hin : pre = [i]).
  { assert (Hor : forall k, installation (sel (images (rejected s0)) k) = installation (sel (images s0) k))
      by (intros k; by rewrite sel_rejected, reject_trial_installation).
    unfold candidates in Hcand. pose proof (Hor 0) as H0. pose proof (Hor 1) as H1. cbn [sel Z.eqb] in H0, H1.
    rewrite H0, H1 in Hcand. cbn [sel Z.eqb] in *.
    assert (Hcase : (slot = 0 /\ i = 1) \/ (slot = 1 /\ i = 0)).
    { destruct (decide (slot = i)) as [E|]; [rewrite E in Hlt; lia|lia]. }
    destruct Hcase as [[Es Ei]|[Es Ei]]; rewrite Es, Ei in *; cbn [sel Z.eqb] in Hlt.
    - change (sel (images s0) 1) with (snd (images s0)) in *. change (sel (images s0) 0) with (fst (images s0)) in *.
      destruct (Z.gtb_spec (installation (snd (images s0))) (installation (fst (images s0)))); [|lia].
      destruct pre as [|p [|p' pre]]; cbn in Hcand; [done|by injection Hcand as <-|].
      destruct pre; done.
    - change (sel (images s0) 1) with (snd (images s0)) in *. change (sel (images s0) 0) with (fst (images s0)) in *.
      destruct (Z.gtb_spec (installation (snd (images s0))) (installation (fst (images s0)))); [lia|].
      destruct pre as [|p [|p' pre]]; cbn in Hcand; [done|by injection Hcand as <-|].
      destruct pre; done. }
  subst pre. apply Forall_cons in Hpre as [Hne _]. intros [Hst0 Hv]. apply Hne.
  assert (Heq : sel (images (rejected s0)) i = sel (images s0) i).
  { rewrite sel_rejected. unfold reject_trial. rewrite bool_decide_false; [done|]. destruct Hst0; congruence. }
  split; rewrite Heq; [exact Hst0|]. eapply (verified_elsewhere (view d)); [exact Hi|exact Hm|exact Hv].
Qed.

(** Confirmation is durable.  When [confirm_image] reports [ok], the journal's
    newest snapshot has the running slot confirmed and the other slot
    unchanged; it reports [ok] only for a slot that was on trial or confirmed. *)
Theorem confirm_is_durable slot j d s0 j' d' :
  0 <= slot -> store_ok j d -> consistent layout (view d) -> newest layout (view d) s0 ->
  confirm_image slot j d = Some (Status.ok, j', d') ->
  (image_state (sel (images s0) slot) = ImageState.trial \/
   image_state (sel (images s0) slot) = ImageState.confirmed) /\
  store_ok j' d' /\
  exists s1, newest layout (view d') s1 /\
    sel (images s1) slot = (sel (images s0) slot) <| image_state := ImageState.confirmed |> /\
    sel (images s1) (1 - slot) = sel (images s0) (1 - slot).
Proof.
  intros Hs Hok Hc Hn. unfold confirm_image. destruct (Z.geb_spec slot 2); [by intros [= ? _ _]|].
  destruct (store_load_law j d no_snapshot Hok) as (st & s & j1 & d1 & -> & Hok1 & Hv1 & _ & Hnew).
  destruct (st =s? Status.ok) eqn:Est; cbn [negb]; [|intros [= -> _ _]; by apply st_eqb_neq in Est].
  apply st_eqb_eq in Est as ->. specialize (Hnew eq_refl).
  rewrite (newest_unique _ _ _ _ Hc Hnew Hn) in *. clear Hnew s.
  case_bool_decide as Eco.
  { intros [= <- <-]. split; [by right|]. split; [exact Hok1|]. exists s0. rewrite Hv1. split; [exact Hn|].
    split; [|done]. destruct (sel (images s0) slot). cbn in *. by subst. }
  case_bool_decide as Etr; cbn [negb]; [|by intros [= _ _ _]].
  intros Hcm. pose proof (store_newest_ok j d s0 Hok Hn) as Hs0.
  apply store_commit_law in Hcm as (Hok2 & (q & Hq) & _); [|exact Hok1|apply set_state_ok, Hs0].
  split; [by left|]. split; [exact Hok2|]. eexists. split; [exact Hq|]. cbn [images field_update].
  split; [apply sel_set_state|]. apply sel_set_other; lia.
Qed.

(** ** Rollback over any number of boots *)

(** Everything a successful [select] leaves in the journal: the selected image
    changed its state only, any other image was rejected if it was on trial and
    is otherwise as it was. *)
Lemma select_records j d s0 sn j' d' :
  store_ok j d -> newest layout (view d) s0 ->
  select F layout crc j d = Some (sn, j', d') -> selection_status sn = Status.ok ->
  0 <= selection_slot sn < 2 /\
  (image_state (sel (images s0) (selection_slot sn)) = ImageState.pending \/
   image_state (sel (images s0) (selection_slot sn)) = ImageState.confirmed) /\
  verified (view d') (selection_slot sn) (sel (images s0) (selection_slot sn)) /\ store_ok j' d' /\
  exists s1 st, newest layout (view d') s1 /\
    sel (images s1) (selection_slot sn) = (sel (images s0) (selection_slot sn)) <| image_state := st |> /\
    forall k, 0 <= k < 2 -> k <> selection_slot sn -> sel (images s1) k = reject_trial (sel (images s0) k).
Proof.
  intros Hok Hn Hsel Hst. destruct (select_chosen _ _ _ _ _ _ Hok (store_consistent _ _ Hok) Hn Hsel Hst) as (m & _ & Hch).
  pose proof (chosen_range _ _ _ _ _ Hch) as Hr. set (slot := selection_slot sn) in *. split; [exact Hr|].
  destruct Hch as (pre & post & _ & _ & [Hst0 Hv] & _ & Hok' & He & s1 & Hn1 & Him).
  fold slot in Hst0, Hv, Him. pose proof (rejected_eligible_state _ _ Hst0) as Heq. rewrite Heq in *.
  split; [exact Hst0|]. split; [eapply (verified_elsewhere m); [exact Hr|exact He|exact Hv]|]. split; [exact Hok'|].
  exists s1. destruct (selection_trial sn); rewrite Him.
  - exists ImageState.trial. split; [exact Hn1|]. rewrite sel_set_state, Heq. split; [done|].
    intros k Hk Hne. by rewrite sel_set_other, sel_rejected.
  - exists (image_state (sel (images s0) slot)). split; [exact Hn1|]. rewrite Heq. split; [by destruct (sel (images s0) slot)|].
    intros k _ _. apply sel_rejected.
Qed.

(** What a device does between installations: it boots, and the running
    firmware may confirm its own image.  [booted] are the slots started so far,
    the running one first.  The volatile store of a boot is a fresh one over the
    same device. *)
Inductive life (j0 : J) (d0 : D) : list Z -> J -> D -> Prop :=
  | life_start : life j0 d0 [] j0 d0
  | life_boot booted j d j1 sn j' d' : life j0 d0 booted j d -> store_ok j1 d ->
      select F layout crc j1 d = Some (sn, j', d') -> selection_status sn = Status.ok ->
      life j0 d0 (selection_slot sn :: booted) j' d'
  | life_confirm slot booted j d j' d' : life j0 d0 (slot :: booted) j d ->
      confirm_image slot j d = Some (Status.ok, j', d') -> life j0 d0 (slot :: booted) j' d'.

(** The state after at least one boot, when image [i] was on trial as [im]. *)
Definition fallen_back (i : Z) (im : Image) (booted : list Z) (d : D) : Prop :=
  Forall (fun k => 0 <= k < 2 /\ k <> i) booted /\
  exists s1, newest layout (view d) s1 /\ sel (images s1) i = im <| image_state := ImageState.rejected |> /\
    forall slot, head booted = Some slot -> verified (view d) slot (sel (images s1) slot).

Lemma verified_state m slot im st : verified m slot im -> verified m slot (im <| image_state := st |>).
Proof. by destruct im. Qed.

Lemma confirm_outside slot j d j' d' : store_ok j d ->
  confirm_image slot j d = Some (Status.ok, j', d') -> 0 <= slot -> forall x, ~ in_metadata layout x -> view d' x = view d x.
Proof.
  intros Hok. unfold confirm_image. destruct (slot >=? 2); [by intros [= ? _ _]|].
  destruct (store_load_law j d no_snapshot Hok) as (st & s & j1 & d1 & -> & Hok1 & Hv1 & _ & Hnew).
  destruct (st =s? Status.ok) eqn:Est; cbn [negb]; [|intros [= -> _ _]; by apply st_eqb_neq in Est].
  apply st_eqb_eq in Est as ->. specialize (Hnew eq_refl).
  case_bool_decide; [intros [= _ <-] _ x _; by rewrite Hv1|]. case_bool_decide; [|by intros [= _ _ _]]. cbn [negb].
  intros Hcm _ x Hx. rewrite <- Hv1 in Hnew. pose proof (store_newest_ok _ _ s Hok1 Hnew) as Hs.
  apply store_commit_law in Hcm as (_ & _ & He); [|exact Hok1|by apply set_state_ok]. by rewrite (He x Hx), Hv1.
Qed.

Lemma fallen_back_boot i im booted j d j' d' sn :
  0 <= i < 2 -> store_ok j d -> fallen_back i im booted d ->
  select F layout crc j d = Some (sn, j', d') -> selection_status sn = Status.ok ->
  store_ok j' d' /\ fallen_back i im (selection_slot sn :: booted) d'.
Proof.
  intros Hi Hok (Hb & s1 & Hn & Him & _) Hsel Hst.
  destruct (select_records _ _ _ _ _ _ Hok Hn Hsel Hst) as (Hr & Hel & Hv & Hok' & s2 & st & Hn2 & Hs & Ho).
  assert (i <> selection_slot sn) as Hne by (intros E; rewrite <-E, Him in Hel; by destruct Hel).
  split; [exact Hok'|]. split; [by constructor|]. exists s2. split; [exact Hn2|]. split.
  - rewrite Ho, Him by done. unfold reject_trial. by rewrite bool_decide_false.
  - intros slot [= <-]. rewrite Hs. by apply verified_state.
Qed.

Lemma fallen_back_confirm i im slot booted j d j' d' :
  store_ok j d -> 0 <= i < 2 -> fallen_back i im (slot :: booted) d ->
  confirm_image slot j d = Some (Status.ok, j', d') -> store_ok j' d' /\ fallen_back i im (slot :: booted) d'.
Proof.
  intros Hok Hi (Hb & s1 & Hn & Him & Hv) Hc. pose proof (proj1 (Forall_cons_1 _ _ _ Hb)) as [Hsr Hne].
  destruct (confirm_is_durable slot j d s1 j' d' ltac:(lia) Hok (store_consistent _ _ Hok) Hn Hc) as (_ & Hok' & s2 & Hn2 & Hs & Ho).
  split; [exact Hok'|]. split; [exact Hb|]. exists s2. split; [exact Hn2|]. split.
  - replace i with (1 - slot) by lia. rewrite Ho. by replace (1 - slot) with i by lia.
  - intros slot' [= <-]. rewrite Hs. apply verified_state.
    eapply (verified_elsewhere (view d)); [exact Hsr|by eapply confirm_outside; eauto; lia|by apply Hv].
Qed.

Lemma life_fallen_back j0 d0 s0 i booted j d :
  store_ok j0 d0 -> newest layout (view d0) s0 -> 0 <= i < 2 ->
  image_state (sel (images s0) i) = ImageState.trial -> life j0 d0 booted j d ->
  (booted = [] /\ d = d0) \/ store_ok j d /\ fallen_back i (sel (images s0) i) booted d.
Proof.
  intros Hok0 Hn Hi Htr. induction 1 as [|booted j d j1 sn j' d' _ IH Hok Hsel Hst|slot booted j d j' d' _ IH Hc]; [by left| |].
  - right. destruct IH as [[-> ->]|[_ IH]]; [|by eapply fallen_back_boot].
    destruct (select_records _ _ _ _ _ _ Hok Hn Hsel Hst) as (Hr & Hel & Hv & Hok' & s1 & st & Hn1 & Hs & Ho).
    assert (i <> selection_slot sn) as Hne by (intros E; rewrite <-E, Htr in Hel; by destruct Hel).
    split; [exact Hok'|]. split; [by repeat constructor; try lia|]. exists s1. split; [exact Hn1|]. split.
    + rewrite Ho by done. unfold reject_trial. by rewrite bool_decide_true.
    + intros slot [= <-]. rewrite Hs. by apply verified_state.
  - right. destruct IH as [[? _]|[Hok IH]]; [done|]. by eapply fallen_back_confirm.
Qed.

(** Only a slot on trial or confirmed can be confirmed. *)
Lemma confirm_rejected_refused i j d s1 : 0 <= i < 2 -> store_ok j d -> newest layout (view d) s1 ->
  image_state (sel (images s1) i) = ImageState.rejected ->
  exists j' d', confirm_image i j d = Some (Status.not_running, j', d') /\ view d' = view d.
Proof.
  intros Hi Hok Hn Hst. unfold confirm_image. destruct (Z.geb_spec i 2); [lia|].
  destruct (store_load_law j d no_snapshot Hok) as (st & s & j1 & d1 & -> & Hok1 & Hv1 & Hiff & Hnew).
  rewrite (proj2 Hiff) in * by by exists s1. specialize (Hnew eq_refl).
  rewrite (newest_unique _ _ _ _ (store_consistent _ _ Hok) Hnew Hn), st_eqb_refl. cbn [negb].
  rewrite !bool_decide_false by congruence. cbn [negb]. by exists j1, d1.
Qed.

(** C4: rollback is permanent.  Image [i] was started on trial and its firmware
    never confirmed it before the device restarted.  Then over any number of
    boots from there, with any confirmations by the firmware that runs, slot [i]
    is never selected; from the first boot on the journal's newest snapshot
    shows the image as rejected and otherwise unchanged, so that confirming it is
    refused without any write; and the slot that runs holds, at every moment, the
    bytes the newest snapshot records for it. *)
Theorem unconfirmed_trial_not_selected j0 d0 s0 i booted j d :
  store_ok j0 d0 -> newest layout (view d0) s0 -> 0 <= i < 2 ->
  image_state (sel (images s0) i) = ImageState.trial -> life j0 d0 booted j d ->
  Forall (fun slot => 0 <= slot < 2 /\ slot <> i) booted /\
  (booted <> [] -> exists s1, newest layout (view d) s1 /\
     sel (images s1) i = (sel (images s0) i) <| image_state := ImageState.rejected |> /\
     (exists j' d', confirm_image i j d = Some (Status.not_running, j', d') /\ view d' = view d) /\
     (forall slot, head booted = Some slot -> verified (view d) slot (sel (images s1) slot))).
Proof.
  intros Hok Hn Hi Htr Hl. destruct (life_fallen_back _ _ _ _ _ _ _ Hok Hn Hi Htr Hl) as [[-> ->]|[Hok' (Hb & s1 & Hn1 & Him & Hv)]]; [done|].
  split; [exact Hb|]. intros _. exists s1. split; [exact Hn1|]. split; [exact Him|]. split; [|exact Hv].
  apply (confirm_rejected_refused i j d s1 Hi Hok' Hn1). by rewrite Him.
Qed.
End policy.

(** ** The journal implements the interface *)

Section journal_store.
Context {D : Type} (F : Flash D) (layout : Layout) (fuel : nat).

#[export] Instance journal_store : SnapshotStore Journal D := {|
  store_load := load F layout;
  store_commit j d s := Journal.commit F layout fuel j d s 0 false
|}.

Context `{HC : !FlashContract F (sector_size layout) (write_size layout)}.
Context (HJ : journal_device F layout).

Lemma request_of_ok s : snapshot_ok s -> request_ok s.
Proof. intros []. by split. Qed.

Lemma newest_snapshot_ok m s : mem_ok m -> newest layout m s -> snapshot_ok s.
Proof.
  intros Hm (a & r & _ & Hat & _). apply slot_at_Some in Hat as [Hr Hd].
  exact (decode_snapshot_ok _ _ (mem_read_bytes _ _ _ _ Hm Hr) (mem_read_length _ _ _ _ Hr) Hd).
Qed.

Definition journal_store_laws : SnapshotStoreLaws F layout journal_store.
Proof.
  refine {| store_ok j d := dev_ok d /\ flight d = None /\ journal_ok layout (view d) /\ quiet j |}.
  - by intros j d (? & ? & _).
  - by intros j d (_ & _ & [? _] & _).
  - intros j d d' (_ & _ & Hj & Hq) Hd Hv Hf. by rewrite Hv.
  - intros j d s (Hd & _) Hn. exact (newest_snapshot_ok _ _ (view_ok _ Hd) Hn).
  - intros j d out (Hd & Hf & Hj & Hq). pose proof (device_layout F layout HJ) as Hlay.
    destruct (load_spec F layout Hlay (jd_covers _ _ HJ) j d out (jd_callbacks _ _ HJ) (jd_layout _ _ HJ) Hd Hf (proj1 Hj))
      as (st & s & j' & d' & E & (Hd' & Hv & Hf') & Hj' & H).
    exists st, s, j', d'. split; [exact E|]. split; [split_and!; [assumption|congruence|by rewrite Hv|by rewrite Hj']|].
    split; [exact Hv|]. destruct H as [(-> & Hn & _)|(Hst & _ & Hno)]; [split; [split; [intros _; by exists s|done]|done]|].
    assert (st <> Status.ok) by (destruct Hst; congruence). split; [|done]. split; [done|].
    intros (s' & a & r & Ha & Hat & _). rewrite (Hno a Ha) in Hat. discriminate Hat.
  - intros j d s j' d' (Hd & Hf & Hj & Hq) Hs Hc. cbn [store_commit journal_store] in Hc.
    apply (commit_ok_spec F layout HJ) in Hc as (old & _ & Hn & Hd' & Hj' & Hf' & Hq' & He);
      [|assumption..|by apply request_of_ok].
    split; [by split_and!|]. split; [|exact He]. eexists. exact Hn.
Defined.
End journal_store.
