(* ===== verification/ControlExample.v ===== *)
(** * Boot selection on a file-backed device

    A device with a pending image in slot 0 and a confirmed older one in slot 1:
    the first boot tries the new image, a boot without confirmation falls back,
    a confirmation makes it permanent. *)

From S2P Require Import Prelude Foundation Wire StateMachine Flash Codec Journal JournalScan JournalCrash JournalCommit HostFlash Control.

Definition bex_layout : Layout := mkLayout (1024, 1536) (0, 512) 512 512 16 1 1 1000000.
Definition bex_geometry : Geometry := mkGeometry 0 2048 512 16.
Definition bex_clock (n : nat) : Time := 1000 * Z.of_nat n.

Definition bex_new : list Z := [1; 2; 3; 4; 5].
Definition bex_old : list Z := [9; 8; 7].
Definition bex_image (n : Z) (bytes : list Z) (st : ImageState) : Image :=
  mkImage n (Z.of_nat (length bytes)) (crc32_calculate bytes) st 1 1 sample_version.
Definition bex_snapshot (q : Z) (st : ImageState) : Snapshot :=
  mkSnapshot q 2 (bex_image 2 bex_new st, bex_image 1 bex_old ImageState.confirmed).

(** The device after the installation of the new image. *)
Definition bex_file (st : ImageState) : list Z :=
  blit 0 (encode (bex_snapshot 1 st) 16)
    (blit 1024 bex_new (blit 1536 bex_old (replicate 2048 byte_ff))).
Definition bex_device (st : ImageState) : FileFlash :=
  mkFileFlash (Some (bex_file st)) bex_geometry (initial_machine HostState.idle) op_erase
    false false 0 (replicate 32 0) [Eintr; Transfer 3] [Transfer 5; Eintr] [] 0.

Abbreviation bex_flash := (driver bex_clock).
#[local] Instance bex_contract : FlashContract bex_flash (sector_size bex_layout) (write_size bex_layout) :=
  FileFlash_contract bex_clock 512 16 bex_geometry.

Lemma bex_layout_unsigned : layout_unsigned bex_layout.
Proof. split; repeat split; done. Qed.

Lemma bex_journal_device : journal_device bex_flash bex_layout.
Proof.
  split; [done|done|apply bex_layout_unsigned| |].
  - intros a n Hn (b & Hb & H1 & H2). cbn in *. unfold in_geometry. cbn. lia.
  - intros b [-> | ->]; done.
Qed.

#[local] Instance bex_store : SnapshotStore Journal FileFlash := journal_store bex_flash bex_layout 60.
#[local] Instance bex_laws : SnapshotStoreLaws bex_flash bex_layout bex_store :=
  journal_store_laws bex_flash bex_layout 60 bex_journal_device.

Lemma bex_covers slot : 0 <= slot < 2 -> forall a n, 0 <= n -> sel (slots bex_layout) slot <= a ->
  a + n <= sel (slots bex_layout) slot + slot_size bex_layout -> covers a n.
Proof.
  intros Hs a n Hn. assert (slot = 0 \/ slot = 1) as [-> | ->] by lia; cbn; unfold in_geometry; cbn; lia.
Qed.

#[local] Opaque bex_file.

Lemma bex_device_ok st : bytes_ok (bex_file st) -> length (bex_file st) = 2048%nat -> dev_ok (bex_device st).
Proof.
  intros Hb Hl. split; [|split; reflexivity]. split; try reflexivity.
  - exists (bex_file st). split; [reflexivity|]. split; [|exact Hb]. cbn. by rewrite Hl.
  - split; [reflexivity|]. by apply (bool_decide_unpack _).
  - discriminate.
  - cbn. rewrite !not_elem_of_cons. split_and!; [discriminate..|apply not_elem_of_nil].
Qed.

Lemma bex_slots a : is_slot bex_layout a -> a = 0 \/ a = 256 \/ a = 512 \/ a = 768.
Proof.
  intros [(H1 & H2 & H3)|(H1 & H2 & H3)]; cbn in *; unfold kRecordSize in *;
    apply Z.mod_divide in H3 as [k Hk]; lia.
Qed.

(** The one record of the device. *)
Definition bex_record (st : ImageState) : Prop :=
  slot_at (view (bex_device st)) 0 = Some (encode (bex_snapshot 1 st) 16, bex_snapshot 1 st) /\
  slot_at (view (bex_device st)) 256 = None /\
  slot_at (view (bex_device st)) 512 = None /\
  slot_at (view (bex_device st)) 768 = None.

Lemma bex_only st a r s : bex_record st -> is_slot bex_layout a ->
  slot_at (view (bex_device st)) a = Some (r, s) ->
  r = encode (bex_snapshot 1 st) 16 /\ s = bex_snapshot 1 st.
Proof.
  intros (H0 & H1 & H2 & H3) Ha Hs.
  destruct (bex_slots a Ha) as [-> |[-> |[-> | ->]]]; rewrite ?H0, ?H1, ?H2, ?H3 in Hs;
    [injection Hs as <- <-; by split|discriminate Hs..].
Qed.

Lemma bex_store_ok st :
  bytes_ok (bex_file st) -> length (bex_file st) = 2048%nat -> bex_record st ->
  fits 16 (encode (bex_snapshot 1 st) 16) ->
  store_ok new_journal (bex_device st) /\ consistent bex_layout (view (bex_device st)) /\
  newest bex_layout (view (bex_device st)) (bex_snapshot 1 st).
Proof.
  intros Hb Hl Hr Hfit.
  assert (Hc : consistent bex_layout (view (bex_device st))).
  { intros a r s a' r' s' Ha Ha' Hs Hs' _. apply bex_only in Hs as [-> _]; [|assumption..].
    by apply bex_only in Hs' as [-> _]. }
  split; [|split; [exact Hc|]].
  - split; [by apply bex_device_ok|]. split; [reflexivity|]. split; [|by split; [|left]].
    split; [exact Hc|]. intros a r s Ha Hs. apply bex_only in Hs as [-> _]; [exact Hfit|assumption..].
  - exists 0, (encode (bex_snapshot 1 st) 16). split; [by left; split_and!|].
    split; [apply Hr|]. intros a r s Ha Hs. apply bex_only in Hs as [_ ->]; [lia|assumption..].
Qed.

Lemma bex_pending : store_ok new_journal (bex_device ImageState.pending) /\
  consistent bex_layout (view (bex_device ImageState.pending)) /\
  newest bex_layout (view (bex_device ImageState.pending)) (bex_snapshot 1 ImageState.pending).
Proof.
  apply bex_store_ok; [apply (bool_decide_unpack _); vm_compute; exact I|vm_compute; reflexivity| |vm_compute; reflexivity].
  split_and!; vm_compute; reflexivity.
Qed.
Lemma bex_trial : store_ok new_journal (bex_device ImageState.trial) /\
  consistent bex_layout (view (bex_device ImageState.trial)) /\
  newest bex_layout (view (bex_device ImageState.trial)) (bex_snapshot 1 ImageState.trial).
Proof.
  apply bex_store_ok; [apply (bool_decide_unpack _); vm_compute; exact I|vm_compute; reflexivity| |vm_compute; reflexivity].
  split_and!; vm_compute; reflexivity.
Qed.

(** ** The three boots *)

Definition bex_select (st : ImageState) : Selection * Journal * FileFlash :=
  default (no_selection Status.busy, new_journal, bex_device st)
    (select bex_flash bex_layout no_backend new_journal (bex_device st)).

Example first_boot_tries_new :
  selection_slot (fst (fst (bex_select ImageState.pending))) = 0 /\
  selection_trial (fst (fst (bex_select ImageState.pending))) = true.
Proof. vm_compute. split; reflexivity. Qed.

Example second_boot_falls_back :
  selection_slot (fst (fst (bex_select ImageState.trial))) = 1 /\
  selection_trial (fst (fst (bex_select ImageState.trial))) = false.
Proof. vm_compute. split; reflexivity. Qed.

Lemma select_boots_verified_witness :
  let sn := fst (fst (bex_select ImageState.pending)) in
  verified bex_flash bex_layout (view (snd (bex_select ImageState.pending))) (selection_slot sn)
    (sel (images (bex_snapshot 1 ImageState.pending)) (selection_slot sn)).
Proof.
  destruct bex_pending as (H1 & H2 & H3). cbn zeta.
  eapply (select_boots_verified bex_flash bex_layout no_backend no_backend_faithful bex_layout_unsigned eq_refl
    bex_covers new_journal (bex_device ImageState.pending) (bex_snapshot 1 ImageState.pending)
    (fst (fst (bex_select ImageState.pending))) (snd (fst (bex_select ImageState.pending)))
    (snd (bex_select ImageState.pending)) H1 H2 H3); vm_compute; reflexivity.
Defined.

(** Two boots after the restart of an unconfirmed trial; between them the image
    that runs is confirmed. *)
Definition bex_first : Selection * Journal * FileFlash := bex_select ImageState.trial.
Definition bex_kept : Status * Journal * FileFlash :=
  default (Status.busy, new_journal, bex_device ImageState.trial) (confirm_image 1 (snd (fst bex_first)) (snd bex_first)).
Definition bex_again : Selection * Journal * FileFlash :=
  default (no_selection Status.busy, new_journal, bex_device ImageState.trial)
    (select bex_flash bex_layout no_backend (snd (fst bex_kept)) (snd bex_kept)).

Lemma bex_kept_ok : store_ok (snd (fst bex_kept)) (snd bex_kept).
Proof.
  destruct bex_trial as (H1 & H2 & H3).
  destruct (select_records bex_flash bex_layout no_backend no_backend_faithful bex_layout_unsigned eq_refl
    bex_covers new_journal (bex_device ImageState.trial) (bex_snapshot 1 ImageState.trial)
    (fst (fst bex_first)) (snd (fst bex_first)) (snd bex_first) H1 H3) as (_ & _ & _ & Hok & s1 & _ & Hn & _);
    [vm_compute; reflexivity..|].
  eapply (confirm_is_durable bex_flash bex_layout 1); [lia|exact Hok|exact (store_consistent _ _ Hok)|exact Hn|vm_compute; reflexivity].
Qed.

Lemma unconfirmed_trial_not_selected_witness :
  exists s1, newest bex_layout (view (snd bex_again)) s1 /\
    sel (images s1) 0 = bex_image 2 bex_new ImageState.rejected.
Proof.
  destruct bex_trial as (H1 & H2 & H3).
  destruct (unconfirmed_trial_not_selected bex_flash bex_layout no_backend no_backend_faithful bex_layout_unsigned eq_refl
    bex_covers new_journal (bex_device ImageState.trial) (bex_snapshot 1 ImageState.trial) 0
    [1; 1] (snd (fst bex_again)) (snd bex_again) H1 H3) as (_ & H).
  - lia.
  - vm_compute. reflexivity.
  - eapply life_boot with (booted := [1]) (sn := fst (fst bex_again));
      [|exact bex_kept_ok|vm_compute; reflexivity|vm_compute; reflexivity].
    eapply life_confirm with (j := snd (fst bex_first)) (d := snd bex_first); [|vm_compute; reflexivity].
    eapply life_boot with (booted := []) (sn := fst (fst bex_first));
      [apply life_start|exact H1|vm_compute; reflexivity|vm_compute; reflexivity].
  - destruct (H ltac:(discriminate)) as (s1 & Hn & Hs & _). exists s1. split; [exact Hn|exact Hs].
Defined.

Lemma select_prefers_newest_witness :
  ~ eligible bex_flash bex_layout (view (bex_device ImageState.trial)) (bex_snapshot 1 ImageState.trial) 0.
Proof.
  destruct bex_trial as (H1 & H2 & H3).
  apply (select_prefers_newest bex_flash bex_layout no_backend no_backend_faithful bex_layout_unsigned eq_refl
    bex_covers new_journal (bex_device ImageState.trial) (bex_snapshot 1 ImageState.trial)
    (fst (fst (bex_select ImageState.trial))) (snd (fst (bex_select ImageState.trial)))
    (snd (bex_select ImageState.trial)) 0 H1 H2 H3).
  - vm_compute. reflexivity.
  - vm_compute. reflexivity.
  - lia.
  - vm_compute. reflexivity.
Defined.

Definition bex_confirm : Status * Journal * FileFlash :=
  default (Status.busy, new_journal, bex_device ImageState.trial)
    (confirm_image 0 new_journal (bex_device ImageState.trial)).

Lemma confirm_is_durable_witness :
  exists s1, newest bex_layout (view (snd bex_confirm)) s1 /\
    sel (images s1) 0 = bex_image 2 bex_new ImageState.confirmed.
Proof.
  destruct bex_trial as (H1 & H2 & H3).
  destruct (confirm_is_durable bex_flash bex_layout 0 new_journal (bex_device ImageState.trial)
    (bex_snapshot 1 ImageState.trial) (snd (fst bex_confirm)) (snd bex_confirm)) as (_ & _ & s1 & Hn & Hs & _).
  - lia.
  - exact H1.
  - exact H2.
  - exact H3.
  - vm_compute. reflexivity.
  - exists s1. split; [exact Hn|exact Hs].
Defined.
