(* ===== verification/Otp.v ===== *)
(** * OTP records and their store (src/lib/otp/record.cpp, driver.h, store.cpp)

    A record is its 64 bytes.  [Driver D] is the table of callbacks of a
    write-once backend with state [D]; [Store] is the RAM cache over it.  The
    laws a backend promises are the class [DriverLaws]; the store's theorems
    are proved against it, and OtpFlash.v discharges it for the flash emulator. *)

From S2P Require Import Prelude Foundation Wire.

(** ** Records (record.h, record.cpp) *)

Definition kBlockCount : nat := 32.
Definition kRecordSize : nat := 64.
Definition kPayloadSize : Z := 56.
Definition Type_serial_number : Z := 1.
Definition Type_unwritten : Z := 0xffff.

Abbreviation OtpRecord := (list Z).

Definition Read16 (p : list Z) (at_ : nat) : Z :=
  u16 (Z.lor (p !!! at_) (Z.shiftl (p !!! S at_) 8)).

Definition Checksum (record : OtpRecord) (crc : Backend) : Z :=
  service_update crc (service_update crc 0 (take 4 record)) (drop 8 record).

Definition record_type (r : OtpRecord) : Z := Read16 r 0.
Definition record_size (r : OtpRecord) : Z := Read16 r 2.

Definition record_valid (crc : Backend) (r : OtpRecord) : bool :=
  if (record_type r =? Type_unwritten) || (record_size r >? kPayloadSize) then false
  else
    let stored := foldl (fun stored i => Z.lor stored (u32 (Z.shiftl (r !!! (4 + i)%nat) (Z.of_nat i * 8))))
                    0 (seq 0 4) in
    (stored =? Checksum r crc) && all_eq byte_ff (drop (8 + Z.to_nat (record_size r)) r).

Definition payload (r : OtpRecord) : list Z :=
  if record_size r >? kPayloadSize then [] else sub r 8 (Z.to_nat (record_size r)).

Definition valid_serial (value : list Z) : bool :=
  negb (bool_decide (value = [])) && (Z.of_nat (length value) <=? kPayloadSize) &&
  forallb (fun c => (c >=? 0x20) && (c <=? 0x7e)) value.

Definition erased_record : OtpRecord := replicate kRecordSize byte_ff.

Definition serial_record (crc : Backend) (value : list Z) : OtpRecord :=
  let record := erased_record in
  if negb (valid_serial value) then record
  else
    let record := <[0%nat := 1]> record in
    let record := <[1%nat := 0]> record in
    let record := <[2%nat := u8 (Z.of_nat (length value))]> record in
    let record := <[3%nat := 0]> record in
    let record := blit 8 value record in
    let checksum := Checksum record crc in
    foldl (fun record i => <[(4 + i)%nat := Z.land (Z.shiftr checksum (8 * Z.of_nat i)) 0xff]> record)
      record (seq 0 4).

(** ** Backends (driver.h) *)

Module Storage.
Inductive Storage : Set := unused | consumed | unreadable.
End Storage.
#[global] Instance Storage_eq_dec : EqDecision Storage.Storage.
Proof. solve_decision. Defined.

Record Block := mkBlock { record : OtpRecord; storage : Storage.Storage; locked : bool }.
(** A default-constructed block: [Record]'s bytes are value-initialized. *)
Definition no_block : Block := mkBlock (replicate kRecordSize 0) Storage.unused false.

Record ProgramResult := mkProgramResult { pr_status : Status; attempted : bool }.

Record Driver (D : Type) := mkDriver {
  drv_name : option (list Z);
  drv_callbacks : bool;            (** all four function pointers are set *)
  drv_blocks : nat;
  drv_block_size : nat;
  drv_init : D -> Status * D;
  drv_inspect : D -> nat -> Block -> Status * Block * D;
  drv_program : D -> nat -> OtpRecord -> ProgramResult * D;
  drv_lock : D -> nat -> Status * D
}.
Arguments mkDriver {D}. Arguments drv_name {D}. Arguments drv_callbacks {D}. Arguments drv_blocks {D}.
Arguments drv_block_size {D}. Arguments drv_init {D}. Arguments drv_inspect {D}.
Arguments drv_program {D}. Arguments drv_lock {D}.

Definition driver_valid {D} (drv : Driver D) : bool := bool_decide (drv_name drv <> None) && drv_callbacks drv.

(** ** The store (store.h, store.cpp) *)

Module Phase.
Inductive Phase : Set := none | scan | program | verify | lock.
End Phase.
Module Kind.
Inductive Kind : Set := unused | valid | invalid | unknown | unreadable.
End Kind.
#[global] Instance Kind_eq_dec : EqDecision Kind.Kind.
Proof. solve_decision. Defined.

Record Snapshot := mkSnapshot {
  backend : option (list Z); sn_ready : bool;
  consumed : Z; remaining : Z; gaps : Z; invalid : Z; unknown : Z; unreadable : Z;
  serial_block : option nat; serial_locked : bool;
  errors : Z; phase : Phase.Phase; error_block : option nat; error : Status
}.
#[export] Instance Snapshot_eta : RecordEta Snapshot := fun r =>
  mkSnapshot (backend r) (sn_ready r) (consumed r) (remaining r) (gaps r) (invalid r) (unknown r)
    (unreadable r) (serial_block r) (serial_locked r) (errors r) (phase r) (error_block r) (error r).
Definition no_diagnostics : Snapshot :=
  mkSnapshot None false 0 (Z.of_nat kBlockCount) 0 0 0 0 None false 0 Phase.none None Status.ok.

Record Store := mkStore {
  kinds_ : list Kind.Kind;
  serial_ : OtpRecord;
  serial_block_ : option nat;
  next_ : nat;
  initialized_ : bool; ready_ : bool; locked_ : bool;
  diagnostics_ : Snapshot
}.
#[export] Instance Store_eta : RecordEta Store := fun r =>
  mkStore (kinds_ r) (serial_ r) (serial_block_ r) (next_ r) (initialized_ r) (ready_ r) (locked_ r)
    (diagnostics_ r).
Definition new_store : Store :=
  mkStore (replicate kBlockCount Kind.unused) (replicate kRecordSize 0) None 0 false false false no_diagnostics.

Section store.
Context {D : Type} (driver_ : Driver D) (crc_ : Backend).
Implicit Types st : Store.

Definition Classify (block : Block) : Kind.Kind :=
  match storage block with
  | Storage.unreadable => Kind.unreadable
  | _ =>
      if bool_decide (storage block = Storage.unused) && negb (locked block) then Kind.unused
      else if negb (record_valid crc_ (record block)) then Kind.invalid
      else if negb (record_type (record block) =? Type_serial_number) then Kind.unknown
      else if valid_serial (payload (record block)) then Kind.valid else Kind.invalid
  end.

Definition Error (status : Status) (ph : Phase.Phase) (block : option nat) st : Status * Store :=
  let diag := diagnostics_ st in
  let diag := if negb (errors diag =? UINT32_MAX) then diag <| errors := errors diag + 1 |> else diag in
  (status, st <| diagnostics_ := diag <| error := status |> <| phase := ph |> <| error_block := block |> |>).

(** The loop of [init] from block [i] on. *)
Fixpoint scan (is_ : list nat) st (d : D) : Status * Store * D :=
  match is_ with
  | [] => (Status.ok, st <| ready_ := true |>, d)
  | i :: is_ =>
      let '(status, block, d) := drv_inspect driver_ d i no_block in
      if negb (status =s? Status.ok) then (Error status Phase.scan (Some i) st, d)
      else
        let kind := Classify block in
        let st := st <| kinds_ := <[i := kind]> (kinds_ st) |> in
        let st := if bool_decide (kind <> Kind.unused) then st <| next_ := S i |> else st in
        let st := if bool_decide (kind = Kind.unreadable)
                  then snd (Error Status.io_error Phase.scan (Some i) st) else st in
        let st := if bool_decide (kind = Kind.valid)
                  then st <| serial_ := record block |> <| serial_block_ := Some i |> <| locked_ := locked block |>
                  else st in
        scan is_ st d
  end.

Definition init st (d : D) : Status * Store * D :=
  if initialized_ st
  then (if ready_ st then Status.already_initialized else Status.initialization_failed, st, d)
  else
    let st := st <| initialized_ := true |> in
    if negb (driver_valid driver_) || negb (drv_blocks driver_ =? kBlockCount)%nat ||
       negb (drv_block_size driver_ =? kRecordSize)%nat
    then (Error Status.incompatible Phase.scan None st, d)
    else
      let '(status, d) := drv_init driver_ d in
      if negb (status =s? Status.ok) then (Error status Phase.scan None st, d)
      else scan (seq 0 kBlockCount) st d.

Definition serial st : option (list Z) :=
  if negb (ready_ st) then None
  else match serial_block_ st with None => None | Some _ => Some (payload (serial_ st)) end.

Definition Lock (index : nat) st (d : D) : Status * Store * D :=
  let '(status, d) := drv_lock driver_ d index in
  let '(inspected, block, d) := drv_inspect driver_ d index no_block in
  let st := st <| locked_ := (inspected =s? Status.ok) && locked block |> in
  if negb (status =s? Status.ok) then (Error status Phase.lock (Some index) st, d)
  else if negb (locked_ st)
  then (Error (if inspected =s? Status.ok then Status.io_error else inspected) Phase.lock (Some index) st, d)
  else (Status.ok, st, d).

Definition set_serial (value : list Z) st (d : D) : Status * Store * D :=
  if negb (ready_ st) then (Status.not_running, st, d)
  else if negb (valid_serial value) then (Status.invalid_argument, st, d)
  else
    let write :=
      if (next_ st =? kBlockCount)%nat then (Status.full, st, d)
      else
        let proposed := serial_record crc_ value in
        let index := next_ st in
        let '(result, d) := drv_program driver_ d index proposed in
        let st := if attempted result || (pr_status result =s? Status.ok)
                  then st <| next_ := S (next_ st) |> <| kinds_ := <[index := Kind.invalid]> (kinds_ st) |>
                  else st in
        if negb (pr_status result =s? Status.ok)
        then (Error (pr_status result) Phase.program (Some index) st, d)
        else
          let '(status, block, d) := drv_inspect driver_ d index no_block in
          if negb (status =s? Status.ok) || bool_decide (storage block = Storage.unreadable) then
            let st := st <| kinds_ := <[index := Kind.unreadable]> (kinds_ st) |> in
            (Error (if status =s? Status.ok then Status.io_error else status) Phase.verify (Some index) st, d)
          else if negb (bool_decide (Classify block = Kind.valid)) ||
                  negb (bool_decide (record block = proposed))
          then (Error Status.checksum_error Phase.verify (Some index) st, d)
          else
            let st := st <| kinds_ := <[index := Kind.valid]> (kinds_ st) |> <| serial_ := record block |>
                         <| serial_block_ := Some index |> <| locked_ := locked block |> in
            Lock index st d
    in
    match serial_block_ st with
    | Some b => if bool_decide (payload (serial_ st) = value)
                then (if locked_ st then (Status.ok, st, d) else Lock b st d)
                else write
    | None => write
    end.

Definition count_kind (k : Kind.Kind) (l : list Kind.Kind) : Z :=
  Z.of_nat (length (filter (fun x => x = k) l)).

Definition snapshot st : Snapshot :=
  let n := Z.of_nat (length (filter (fun x => x <> Kind.unused) (kinds_ st))) in
  let r := diagnostics_ st in
  let used := u32 (consumed r + n) in
  r <| backend := drv_name driver_ |> <| sn_ready := ready_ st |>
    <| remaining := if ready_ st then u32 (Z.of_nat kBlockCount - Z.of_nat (next_ st)) else 0 |>
    <| serial_block := if ready_ st then serial_block_ st else None |>
    <| serial_locked := ready_ st && locked_ st |>
    <| consumed := used |>
    <| invalid := u32 (invalid r + count_kind Kind.invalid (kinds_ st)) |>
    <| unknown := u32 (unknown r + count_kind Kind.unknown (kinds_ st)) |>
    <| unreadable := u32 (unreadable r + count_kind Kind.unreadable (kinds_ st)) |>
    <| gaps := u32 (Z.of_nat (next_ st) - used) |>.
End store.

(** ** Round trip of a serial record *)

Definition serial_header (value : list Z) : OtpRecord :=
  <[3%nat := 0]> (<[2%nat := u8 (Z.of_nat (length value))]> (<[1%nat := 0]> (<[0%nat := 1]> erased_record))).

Lemma valid_serial_spec v :
  valid_serial v = true <-> v <> [] /\ (length v <= 56)%nat /\ Forall (fun c => 0x20 <= c <= 0x7e) v.
Proof.
  unfold valid_serial, kPayloadSize. rewrite !andb_true_iff, negb_true_iff, bool_decide_eq_false, Z.leb_le.
  assert (Hf : forallb (fun c => (c >=? 0x20) && (c <=? 0x7e)) v = true <-> Forall (fun c => 0x20 <= c <= 0x7e) v).
  { rewrite forallb_forall, List.Forall_forall. split; intros Hx c Hc; specialize (Hx c Hc); lia. }
  rewrite Hf. split; intros; split_and!; try tauto; lia.
Qed.

Lemma serial_record_blit crc v :
  valid_serial v = true ->
  serial_record crc v =
    blit 4 (le_bytes 4 (Checksum (blit 8 v (serial_header v)) crc)) (blit 8 v (serial_header v)).
Proof.
  intros Hv. unfold serial_record. rewrite Hv. cbn [negb]. rewrite <- write32_blit. reflexivity.
Qed.

Lemma length_serial_header v : length (serial_header v) = 64%nat.
Proof. unfold serial_header. rewrite !length_insert. reflexivity. Qed.

Lemma length_serial_record crc v : length (serial_record crc v) = 64%nat.
Proof.
  destruct (valid_serial v) eqn:Hv.
  - rewrite serial_record_blit, !length_blit by done. apply length_serial_header.
  - unfold serial_record. by rewrite Hv.
Qed.

Lemma drop_sub {A} (l : list A) i n : length l = (i + n)%nat -> drop i l = sub l i n.
Proof. intros Hl. unfold sub. symmetry. apply firstn_all2. rewrite length_drop. lia. Qed.

Lemma Checksum_ext crc r r' :
  length r = 64%nat -> length r' = 64%nat -> sub r 0 4 = sub r' 0 4 -> sub r 8 56 = sub r' 8 56 ->
  Checksum r crc = Checksum r' crc.
Proof.
  intros Hl Hl' H1 H2. unfold Checksum. rewrite (drop_sub r 8 56), (drop_sub r' 8 56) by done.
  change (take 4 r) with (sub r 0 4). change (take 4 r') with (sub r' 0 4). by rewrite H1, H2.
Qed.

Lemma lookup_total_blit_out {A} `{Inhabited A} i (k l : list A) j :
  (j < i \/ i + length k <= j)%nat -> blit i k l !!! j = l !!! j.
Proof. intros Hj. rewrite !list_lookup_total_alt. by rewrite lookup_blit_out. Qed.

Lemma serial_record_fields crc v :
  valid_serial v = true ->
  let r := serial_record crc v in
  record_type r = 1 /\ record_size r = Z.of_nat (length v) /\ sub r 8 (length v) = v /\
  Forall (eq byte_ff) (drop (8 + length v) r).
Proof.
  intros Hv. cbn zeta. pose proof Hv as (_ & Hlen & _)%valid_serial_spec.
  rewrite serial_record_blit by done. set (c := le_bytes 4 _).
  assert (Hlc : length c = 4%nat) by apply length_le_bytes.
  assert (Hhd : forall j, (j < 4)%nat -> blit 4 c (blit 8 v (serial_header v)) !!! j = serial_header v !!! j).
  { intros j Hj. rewrite !lookup_total_blit_out by lia. done. }
  unfold record_type, record_size, Read16. rewrite !Hhd by lia.
  split_and!.
  - reflexivity.
  - unfold serial_header. cbn -[u8 u16 Z.of_nat]. rewrite u8_small by (unfold is_byte; lia).
    rewrite Z.lor_0_r. unfold u16. apply Z.mod_small. lia.
  - rewrite sub_blit_other by lia. apply sub_blit_same; [done|]. rewrite length_serial_header. lia.
  - apply Forall_lookup. intros j b Hb. rewrite lookup_drop in Hb.
    rewrite !lookup_blit_out in Hb by lia. unfold serial_header in Hb.
    rewrite !list_lookup_insert_ne in Hb by lia. by apply lookup_replicate in Hb as [-> _].
Qed.

Lemma stored_read32 r :
  foldl (fun stored i => Z.lor stored (u32 (Z.shiftl (r !!! (4 + i)%nat) (Z.of_nat i * 8)))) 0 (seq 0 4) =
  read32 r 4.
Proof. reflexivity. Qed.

Lemma serial_header_bytes v : Forall is_byte (serial_header v).
Proof.
  unfold serial_header. repeat apply Forall_insert; try (unfold is_byte; lia); [|apply u8_range].
  apply Forall_replicate. by vm_compute.
Qed.

Lemma valid_serial_bytes v : valid_serial v = true -> bytes_ok v.
Proof.
  intros (_ & _ & Hf)%valid_serial_spec. eapply Forall_impl; [exact Hf|]. unfold is_byte. simpl. lia.
Qed.

Lemma Checksum_u32 crc r : backend_faithful crc -> bytes_ok r -> is_u32 (Checksum r crc).
Proof.
  intros Hcrc Hr. unfold Checksum. rewrite !service_update_correct by done.
  apply crc32_update_u32; [|by apply Forall_drop].
  apply crc32_update_u32; [unfold is_u32; lia|by apply Forall_take].
Qed.

Lemma serial_record_bytes crc v : bytes_ok (serial_record crc v).
Proof.
  destruct (valid_serial v) eqn:Hv.
  - rewrite serial_record_blit by done. apply Forall_blit; [apply le_bytes_ok|].
    apply Forall_blit; [by apply valid_serial_bytes|apply serial_header_bytes].
  - unfold serial_record. rewrite Hv. apply Forall_replicate. by vm_compute.
Qed.

Lemma serial_record_valid crc v :
  backend_faithful crc -> valid_serial v = true ->
  let r := serial_record crc v in
  record_valid crc r = true /\ record_type r = Type_serial_number /\ payload r = v.
Proof.
  intros Hcrc Hv. cbn zeta. destruct (serial_record_fields crc v Hv) as (Ht & Hs & Hp & Hf).
  pose proof Hv as (_ & Hlen & _)%valid_serial_spec.
  assert (Hsz : (record_size (serial_record crc v) >? kPayloadSize) = false).
  { rewrite Hs. unfold kPayloadSize. rewrite Z.gtb_ltb. apply Z.ltb_ge. lia. }
  split_and!; [|done|].
  - unfold record_valid. rewrite Hsz, Ht, stored_read32. cbn [orb Type_unwritten Z.eqb].
    apply andb_true_iff. split.
    + apply Z.eqb_eq. rewrite serial_record_blit by done.
      set (b := blit 8 v (serial_header v)).
      assert (Hlb : length b = 64%nat) by (unfold b; rewrite length_blit; apply length_serial_header).
      rewrite (Checksum_ext crc (blit 4 _ b) b);
        [|by rewrite length_blit|done|apply sub_blit_other; rewrite length_le_bytes; lia..].
      rewrite read32_blit_same; [done|lia|]. apply Checksum_u32; [done|].
      unfold b. apply Forall_blit; [by apply valid_serial_bytes|apply serial_header_bytes].
    + apply all_eq_spec. rewrite Hs, Nat2Z.id. exact Hf.
  - unfold payload. rewrite Hsz, Hs, Nat2Z.id. exact Hp.
Qed.

(** A record built for a serial number reads back as that serial number:
    every value of 1 to 56 printable ASCII bytes gives a record that passes its
    own validation (type, size, checksum, padding) and whose payload is the
    value, with or without a hardware CRC. *)
Theorem serial_record_roundtrip crc v :
  backend_faithful crc -> valid_serial v = true ->
  length (serial_record crc v) = kRecordSize /\
  record_valid crc (serial_record crc v) = true /\
  record_type (serial_record crc v) = Type_serial_number /\
  payload (serial_record crc v) = v.
Proof.
  intros Hcrc Hv. destruct (serial_record_valid crc v Hcrc Hv) as (? & ? & ?).
  split; [apply length_serial_record|done].
Qed.

Lemma serial_record_roundtrip_witness :
  record_valid no_backend (serial_record no_backend [65; 66; 67]) = true /\
  payload (serial_record no_backend [65; 66; 67]) = [65; 66; 67].
Proof.
  destruct (serial_record_roundtrip no_backend [65; 66; 67] no_backend_faithful eq_refl) as (_ & ? & _ & ?).
  split; assumption.
Defined.
