(* ===== verification/OtpStore.v ===== *)
(** * What the OTP store promises, over any backend that keeps its contract

    [DriverLaws] is the contract of otp/driver.h.  [synced] says that the RAM
    cache describes the device; [serial_of] is the abstract specification: the
    serial number of a device is the payload of its last valid record. *)

From S2P Require Import Prelude Foundation Wire Otp.

(** A block that was never written. *)
Definition virgin : Block := mkBlock erased_record Storage.unused false.

Class DriverLaws {D} (drv : Driver D) := {
  dok : D -> Prop;
  healthy : D -> Prop;
  block_at : D -> nat -> Block;
  reboot : D -> D;
  drv_well : driver_valid drv = true /\ drv_blocks drv = kBlockCount /\ drv_block_size drv = kRecordSize;
  init_spec d :
    dok d -> healthy d -> exists d', drv_init drv (reboot d) = (Status.ok, d') /\ dok d' /\ healthy d' /\
      forall i, (i < kBlockCount)%nat -> block_at d' i = block_at (reboot d) i;
  reboot_spec d i :
    dok d -> healthy d -> (i < kBlockCount)%nat -> block_at (reboot d) i = block_at d i \/
      (record (block_at d i) = erased_record /\ block_at (reboot d) i = virgin);
  inspect_spec d i b :
    dok d -> healthy d -> (i < kBlockCount)%nat ->
    exists d', drv_inspect drv d i b = (Status.ok, block_at d i, d') /\ dok d' /\ healthy d' /\
      forall j, (j < kBlockCount)%nat -> block_at d' j = block_at d j;
  program_spec d i r :
    dok d -> healthy d -> (i < kBlockCount)%nat -> length r = kRecordSize -> bytes_ok r ->
    exists res d', drv_program drv d i r = (res, d') /\ dok d' /\
      (pr_status res = Status.ok -> healthy d') /\
      forall j, (j < kBlockCount)%nat -> j <> i -> block_at d' j = block_at d j;
  lock_spec d i :
    dok d -> healthy d -> (i < kBlockCount)%nat ->
    exists st d', drv_lock drv d i = (st, d') /\ dok d' /\ (st = Status.ok -> healthy d') /\
      (forall j, (j < kBlockCount)%nat -> j <> i -> block_at d' j = block_at d j) /\
      record (block_at d' i) = record (block_at d i) /\ storage (block_at d' i) = storage (block_at d i)
}.

Section store.
Context {D : Type} (drv : Driver D) (crc : Backend).
Context `{!DriverLaws drv}.
Implicit Types (st : Store) (d : D) (blocks : nat -> Block).

Abbreviation valid_at blocks i := (Classify crc (blocks i) = Kind.valid).

(** [last_valid blocks n b]: [b] is the last valid one of the first [n] blocks. *)
Definition last_valid blocks (n : nat) (b : option nat) : Prop :=
  match b with
  | Some b => (b < n)%nat /\ valid_at blocks b /\ forall i, (b < i < n)%nat -> ~ valid_at blocks i
  | None => forall i, (i < n)%nat -> ~ valid_at blocks i
  end.

(** The serial number that a device holds. *)
Definition serial_of blocks (v : option (list Z)) : Prop :=
  exists b, last_valid blocks kBlockCount b /\ v = (fun b => payload (record (blocks b))) <$> b.

(** The cache after scanning the first [n] blocks. *)
Record scanned blocks (n : nat) st : Prop := {
  scanned_kinds : length (kinds_ st) = kBlockCount;
  scanned_next : (next_ st <= n)%nat;
  scanned_free i : (next_ st <= i < n)%nat -> Classify crc (blocks i) = Kind.unused;
  scanned_last : last_valid blocks n (serial_block_ st);
  scanned_serial b : serial_block_ st = Some b -> serial_ st = record (blocks b);
  scanned_locked b : serial_block_ st = Some b -> locked_ st = locked (blocks b)
}.

Record synced st d : Prop := {
  synced_ready : ready_ st = true;
  synced_dok : dok d;
  synced_healthy : healthy d;
  synced_scanned : scanned (block_at d) kBlockCount st
}.

Lemma last_valid_ext blocks blocks' n b :
  (forall i, (i < n)%nat -> valid_at blocks' i <-> valid_at blocks i) ->
  last_valid blocks n b -> last_valid blocks' n b.
Proof.
  intros He. destruct b as [b|]; simpl.
  - intros (Hb & Hv & Hn). split_and!; [done|by apply He|]. intros i Hi. rewrite He by lia. auto.
  - intros Hn i Hi. rewrite He by done. auto.
Qed.

Lemma last_valid_fun blocks n b b' : last_valid blocks n b -> last_valid blocks n b' -> b = b'.
Proof.
  destruct b as [b|], b' as [b'|]; simpl; try done.
  - intros (H1 & H2 & H3) (H4 & H5 & H6). f_equal.
    destruct (Nat.lt_trichotomy b b') as [Hlt|[|Hlt]]; [|done|].
    + by destruct (H3 b').
    + by destruct (H6 b).
  - intros (H1 & H2 & _) Hn. by destruct (Hn b).
  - intros Hn (H1 & H2 & _). by destruct (Hn b').
Qed.

(** ** Initialization *)

Lemma scan_step blocks n st :
  (n < kBlockCount)%nat -> scanned blocks n st ->
  let kind := Classify crc (blocks n) in
  let st := st <| kinds_ := <[n := kind]> (kinds_ st) |> in
  let st := if bool_decide (kind <> Kind.unused) then st <| next_ := S n |> else st in
  let st := if bool_decide (kind = Kind.unreadable) then snd (Error Status.io_error Phase.scan (Some n) st) else st in
  let st := if bool_decide (kind = Kind.valid)
            then st <| serial_ := record (blocks n) |> <| serial_block_ := Some n |> <| locked_ := locked (blocks n) |>
            else st in
  scanned blocks (S n) st.
Proof.
  intros Hn [Hk Hnx Hfr Hl Hs Hlk]. cbn zeta.
  assert (Hkeep : ~ valid_at blocks n -> last_valid blocks (S n) (serial_block_ st)).
  { intros Hnv. destruct (serial_block_ st) as [b|]; simpl in *.
    - destruct Hl as (? & ? & Hl). split_and!; [lia|done|]. intros i Hi.
      destruct (decide (i = n)) as [->|]; [done|apply Hl; lia].
    - intros i Hi. destruct (decide (i = n)) as [->|]; [done|apply Hl; lia]. }
  assert (Hfree : Classify crc (blocks n) = Kind.unused -> forall i, (next_ st <= i < S n)%nat ->
            Classify crc (blocks i) = Kind.unused).
  { intros Hu i Hi. destruct (decide (i = n)) as [->|]; [done|apply Hfr; lia]. }
  destruct (Classify crc (blocks n)) eqn:Hc;
    repeat case_bool_decide; try done; try (by exfalso; auto);
    split; cbn [kinds_ next_ serial_block_ serial_ locked_ field_update Error snd]; rewrite ?length_insert;
    try done; try lia; try (intros; lia); try (by auto); try (by apply Hkeep; rewrite Hc).
  - split_and!; [lia|done|lia].
  - by intros b [= <-].
  - by intros b [= <-].
Qed.

Lemma scan_ok n : forall k st d,
  (k + n = kBlockCount)%nat -> dok d -> healthy d -> scanned (block_at d) k st ->
  exists st' d', scan drv crc (seq k n) st d = (Status.ok, st', d') /\ synced st' d' /\
    initialized_ st' = initialized_ st /\ forall j, (j < kBlockCount)%nat -> block_at d' j = block_at d j.
Proof.
  induction n as [|n IH]; intros k st d Hkn Hd Hh Hs; cbn [seq scan].
  - replace k with kBlockCount in Hs by lia. eexists _, d. split; [done|]. split; [|done].
    split; try done. by destruct Hs.
  - destruct (inspect_spec d k no_block Hd Hh) as (d1 & -> & Hd1 & Hh1 & Hb1); [lia|].
    rewrite st_eqb_refl. cbn [negb].
    cbv zeta. match goal with |- context [scan drv crc (seq (S k) n) ?x d1] => set (st1 := x) end.
    assert (Hst : scanned (block_at d) (S k) st1) by exact (scan_step (block_at d) k st ltac:(lia) Hs).
    assert (Hini : initialized_ st1 = initialized_ st).
    { unfold st1. by destruct (Classify crc (block_at d k)). }
    clearbody st1.
    assert (Hs1 : scanned (block_at d1) (S k) st1).
    { destruct Hst as [? ? Hf Hl Hr Hk]. split; try done.
      - intros i Hi. rewrite Hb1 by lia. auto.
      - eapply last_valid_ext; [|exact Hl]. intros i Hi. by rewrite Hb1 by lia.
      - intros b Hb. rewrite Hb1; [auto|]. rewrite Hb in Hl. destruct Hl. lia.
      - intros b Hb. rewrite Hb1; [auto|]. rewrite Hb in Hl. destruct Hl. lia. }
    destruct (IH (S k) st1 d1) as (st' & d' & Hscan & Hsy & Hin & Hb'); [lia|done..|].
    exists st', d'. split; [exact Hscan|]. split; [done|]. split.
    + congruence.
    + intros j Hj. rewrite Hb', Hb1 by done. done.
Qed.

Lemma init_synced d :
  dok d -> healthy d -> exists st d', init drv crc new_store (reboot d) = (Status.ok, st, d') /\ synced st d' /\
    forall j, (j < kBlockCount)%nat -> block_at d' j = block_at (reboot d) j.
Proof.
  intros Hd Hh. unfold init. cbn [initialized_ new_store].
  destruct drv_well as (Hv & Hn & Hz). rewrite Hv, Hn, Hz, !Nat.eqb_refl. cbn [negb orb].
  destruct (init_spec d Hd Hh) as (d1 & -> & Hd1 & Hh1 & Hb1). rewrite st_eqb_refl. cbn [negb].
  destruct (scan_ok kBlockCount 0 (new_store <| initialized_ := true |>) d1) as (st & d' & ? & ? & _ & Hb').
  - done.
  - done.
  - done.
  - split; cbn; try done; lia.
  - exists st, d'. split_and!; [done..|]. intros j Hj. rewrite Hb', Hb1 by done. done.
Qed.

Lemma synced_serial st d : synced st d -> serial_of (block_at d) (serial st).
Proof.
  intros [Hr _ _ [_ _ _ Hl Hs _]]. exists (serial_block_ st). split; [done|].
  unfold serial. rewrite Hr. cbn [negb]. destruct (serial_block_ st) as [b|]; [|done].
  simpl. by rewrite (Hs b).
Qed.

(** ** Restart *)

Lemma erased_not_valid : record_valid crc erased_record = false.
Proof. reflexivity. Qed.

Lemma Classify_virgin : Classify crc virgin = Kind.unused.
Proof. reflexivity. Qed.

Lemma Classify_erased b : record b = erased_record -> Classify crc b <> Kind.valid.
Proof.
  intros Hr. unfold Classify. destruct (storage b); try done; destruct (bool_decide _ && _); try done;
    rewrite Hr, erased_not_valid; done.
Qed.

Lemma Classify_valid_record b : Classify crc b = Kind.valid -> record_valid crc (record b) = true.
Proof. unfold Classify. destruct (storage b); try done; destruct (bool_decide _ && _); try done; by destruct (record_valid crc (record b)). Qed.

Lemma reboot_valid d i :
  dok d -> healthy d -> (i < kBlockCount)%nat -> valid_at (block_at (reboot d)) i <-> valid_at (block_at d) i.
Proof.
  intros Hd Hh Hi. destruct (reboot_spec d i Hd Hh Hi) as [->|[Hr ->]]; [done|].
  rewrite Classify_virgin. split; [done|]. intros Hv. by apply Classify_erased in Hv.
Qed.

Lemma serial_of_reboot d v : dok d -> healthy d -> serial_of (block_at d) v -> serial_of (block_at (reboot d)) v.
Proof.
  intros Hd Hh (b & Hl & ->). exists b. split.
  - eapply last_valid_ext; [|exact Hl]. intros i Hi. by apply reboot_valid.
  - destruct b as [b|]; [|done]. destruct Hl as (Hb & Hv & _). simpl.
    destruct (reboot_spec d b Hd Hh Hb) as [->|[Hr _]]; [done|]. by apply Classify_erased in Hr.
Qed.

Lemma serial_of_fun blocks v v' : serial_of blocks v -> serial_of blocks v' -> v = v'.
Proof. intros (b & Hb & ->) (b' & Hb' & ->). by rewrite (last_valid_fun _ _ _ _ Hb Hb'). Qed.

Lemma serial_of_ext blocks blocks' v :
  (forall i, (i < kBlockCount)%nat -> blocks' i = blocks i) -> serial_of blocks v -> serial_of blocks' v.
Proof.
  intros He (b & Hl & ->). exists b. split.
  - eapply last_valid_ext; [|exact Hl]. intros i Hi. by rewrite He.
  - destruct b as [b|]; [|done]. simpl. rewrite He; [done|]. by destruct Hl.
Qed.

(** ** Writing *)

(** A block with the storage and record of a valid one, and locked, is valid. *)
Lemma Classify_lock b b' :
  Classify crc b = Kind.valid -> record b' = record b -> storage b' = storage b -> locked b' = true ->
  Classify crc b' = Kind.valid.
Proof.
  unfold Classify. intros Hv Hr Hs Hl. rewrite Hs, Hr, Hl. cbn [negb]. rewrite andb_false_r.
  destruct (storage b); try done; destruct (bool_decide _ && _); done.
Qed.

Lemma Lock_ok index st d st' d' :
  dok d -> healthy d -> (index < kBlockCount)%nat -> valid_at (block_at d) index ->
  Lock drv index st d = (Status.ok, st', d') ->
  st' = st <| locked_ := true |> /\ dok d' /\ healthy d' /\
  (forall j, (j < kBlockCount)%nat -> j <> index -> block_at d' j = block_at d j) /\
  record (block_at d' index) = record (block_at d index) /\ valid_at (block_at d') index /\
  locked (block_at d' index) = true.
Proof.
  intros Hd Hh Hi Hv. unfold Lock.
  destruct (lock_spec d index Hd Hh Hi) as (ls & d1 & -> & Hd1 & Hh1 & Hb1 & Hr1 & Hst1).
  destruct (decide (ls = Status.ok)) as [->|Hls].
  - destruct (inspect_spec d1 index no_block Hd1 (Hh1 eq_refl) Hi) as (d2 & -> & Hd2 & Hh2 & Hb2).
    rewrite !st_eqb_refl. cbn [negb andb locked_ field_update].
    destruct (locked (block_at d1 index)) eqn:Hlk; cbn [negb]; [|done]. intros [= <- <-].
    split_and!; try done.
    + intros j Hj Hne. rewrite Hb2, Hb1 by done. done.
    + by rewrite Hb2.
    + rewrite Hb2 by done. by apply (Classify_lock (block_at d index)).
    + by rewrite Hb2.
  - destruct (drv_inspect drv d1 index no_block) as [[is_ b] d2].
    apply st_eqb_neq in Hls as Hn. rewrite Hn. cbn [negb]. unfold Error. by intros [= ? _ _].
Qed.

(** The cache follows a locked block. *)
Lemma synced_locked index st d d' :
  scanned (block_at d) kBlockCount st -> ready_ st = true -> serial_block_ st = Some index ->
  dok d' -> healthy d' ->
  (forall j, (j < kBlockCount)%nat -> j <> index -> block_at d' j = block_at d j) ->
  record (block_at d' index) = record (block_at d index) -> valid_at (block_at d') index -> locked (block_at d' index) = true ->
  synced (st <| locked_ := true |>) d'.
Proof.
  intros [Hk Hn Hf Hl Hs _] Hr Hsb Hd Hh Hj Hrec Hv Hlk. split; try done. rewrite Hsb in Hl. destruct Hl as (Hi & Hvi & Hlast).
  split; try done.
  - intros i Hi'. destruct (decide (i = index)) as [->|]; [|rewrite Hj by (done || lia); by apply Hf].
    rewrite (Hf index Hi') in Hvi. done.
  - cbn [serial_block_ field_update]. rewrite Hsb. split_and!; [done|done|].
    intros i Hi'. rewrite Hj by lia. auto.
  - intros b. cbn [serial_block_ serial_ field_update]. rewrite Hsb. intros [= <-]. rewrite Hrec. auto.
  - intros b. cbn [serial_block_ locked_ field_update]. rewrite Hsb. by intros [= <-].
Qed.

Lemma set_serial_write st d v st' d' :
  backend_faithful crc -> synced st d -> valid_serial v = true -> (next_ st < kBlockCount)%nat ->
  let index := next_ st in
  (exists res d1, drv_program drv d index (serial_record crc v) = (res, d1) /\ pr_status res = Status.ok /\
     exists d2, drv_inspect drv d1 index no_block = (Status.ok, block_at d1 index, d2) /\
     Classify crc (block_at d1 index) = Kind.valid /\ record (block_at d1 index) = serial_record crc v /\
     Lock drv index (st <| next_ := S index |> <| kinds_ := <[index := Kind.invalid]> (kinds_ st) |>
       <| kinds_ := <[index := Kind.valid]> (<[index := Kind.invalid]> (kinds_ st)) |>
       <| serial_ := record (block_at d1 index) |> <| serial_block_ := Some index |>
       <| locked_ := locked (block_at d1 index) |>) d2 = (Status.ok, st', d')) ->
  synced st' d' /\ serial st' = Some v /\ locked_ st' = true.
Proof.
  intros Hcrc [Hr Hd Hh [Hk Hn Hf Hl Hs Hlo]] Hv Hlt. cbn zeta.
  intros (res & d1 & Hp & Hres & d2 & Hi & Hc & Hrec & Hlock).
  destruct (program_spec d (next_ st) (serial_record crc v) Hd Hh Hlt) as (res' & d1' & Hp' & Hd1 & Hh1 & Hb1);
    [apply length_serial_record|apply serial_record_bytes|].
  rewrite Hp in Hp'. injection Hp' as <- <-.
  destruct (inspect_spec d1 (next_ st) no_block Hd1 (Hh1 Hres) Hlt) as (d2' & Hi' & Hd2 & Hh2 & Hb2).
  rewrite Hi in Hi'. injection Hi' as <-.
  destruct (serial_record_valid crc v Hcrc Hv) as (_ & _ & Hpay).
  set (st1 := st <| next_ := _ |> <| kinds_ := _ |> <| kinds_ := _ |> <| serial_ := _ |> <| serial_block_ := _ |> <| locked_ := _ |>) in Hlock.
  assert (Hsc : scanned (block_at d2) kBlockCount st1).
  { unfold st1. split; cbn [kinds_ next_ serial_block_ serial_ locked_ field_update].
    - by rewrite !length_insert.
    - lia.
    - intros i Hi'. rewrite Hb2, Hb1 by lia. apply Hf. lia.
    - split_and!; [done|by rewrite Hb2|]. intros i Hi'. rewrite Hb2, Hb1 by lia. rewrite Hf by lia. done.
    - intros b [= <-]. by rewrite Hb2.
    - intros b [= <-]. by rewrite Hb2. }
  destruct (Lock_ok (next_ st) st1 d2 st' d' Hd2 Hh2 Hlt) as (-> & Hd' & Hh' & Hb' & Hrec' & Hv' & Hlk').
  { by rewrite Hb2. }
  { exact Hlock. }
  split_and!.
  - by apply (synced_locked (next_ st) st1 d2 d').
  - unfold serial. cbn [ready_ serial_block_ serial_ field_update st1]. rewrite Hr. cbn [negb].
    by rewrite Hrec, Hpay.
  - done.
Qed.

Lemma set_serial_ok st d v st' d' :
  backend_faithful crc -> synced st d -> set_serial drv crc v st d = (Status.ok, st', d') ->
  synced st' d' /\ serial st' = Some v /\ locked_ st' = true.
Proof.
  intros Hcrc Hsy. unfold set_serial.
  destruct (ready_ st) eqn:Hr; cbn [negb]; [|done].
  destruct (valid_serial v) eqn:Hv; cbn [negb]; [|done].
  set (write := if (next_ st =? kBlockCount)%nat then _ else _).
  assert (Hwrite : write = (Status.ok, st', d') -> synced st' d' /\ serial st' = Some v /\ locked_ st' = true).
  { unfold write. destruct (Nat.eqb_spec (next_ st) kBlockCount) as [|Hne]; [done|].
    destruct Hsy as [Hr' Hd Hh Hsc] eqn:Hsy'. clear Hsy'. pose proof (scanned_next _ _ _ Hsc) as Hle.
    destruct (program_spec d (next_ st) (serial_record crc v) Hd Hh) as (res & d1 & Hp & Hd1 & Hh1 & Hb1);
      [lia|apply length_serial_record|apply serial_record_bytes|].
    rewrite Hp. destruct (pr_status res =s? Status.ok) eqn:Hres; cbn [negb];
      [|apply st_eqb_neq in Hres; unfold Error; by intros [= ? _ _]].
    rewrite orb_true_r. pose proof Hres as Hok%st_eqb_eq.
    destruct (inspect_spec d1 (next_ st) no_block Hd1 (Hh1 Hok)) as (d2 & Hi & Hd2 & Hh2 & Hb2); [lia|].
    rewrite Hi. rewrite st_eqb_refl. cbn [negb orb].
    destruct (bool_decide (storage (block_at d1 (next_ st)) = Storage.unreadable)); [unfold Error; by intros [= ? _ _]|].
    case_bool_decide as Hc; cbn [negb orb]; [|unfold Error; by intros [= ? _ _]].
    case_bool_decide as Hrec; cbn [negb]; [|unfold Error; by intros [= ? _ _]].
    intros Hlock. apply (set_serial_write st d v); [done|by split|done|lia|].
    exists res, d1. split_and!; [done..|]. exists d2. split_and!; done. }
  destruct (serial_block_ st) as [b|] eqn:Hb; [|exact Hwrite].
  case_bool_decide as Hpay; [|exact Hwrite]. clear Hwrite write.
  assert (Hser : serial st = Some v) by (unfold serial; by rewrite Hr, Hb, Hpay).
  destruct (locked_ st) eqn:Hlk; [by intros [= <- <-]|].
  destruct Hsy as [_ Hd Hh Hsc]. pose proof (scanned_last _ _ _ Hsc) as Hl. rewrite Hb in Hl.
  destruct Hl as (Hlt & Hvb & _).
  intros (-> & Hd' & Hh' & Hb' & Hrec' & Hv' & Hlk')%Lock_ok; [|done..].
  split_and!; [|by rewrite <- Hser|done]. by apply (synced_locked b st d d').
Qed.

(** The row that a cache with a serial number stands for. *)
Lemma synced_row st d v : synced st d -> serial st = Some v ->
  exists index, serial_block_ st = Some index /\ (index < kBlockCount)%nat /\ valid_at (block_at d) index /\
    payload (record (block_at d index)) = v /\ locked (block_at d index) = locked_ st.
Proof.
  intros [Hr _ _ [_ _ _ Hl Hs Hk]]. unfold serial. rewrite Hr. cbn [negb]. destruct (serial_block_ st) as [b|]; [|done].
  intros [= <-]. destruct Hl as (Hb & Hv & _). exists b. rewrite (Hs b eq_refl), (Hk b eq_refl). by split_and!.
Qed.
(** A valid row is the same after a restart, and no later one becomes valid. *)
Lemma row_after_restart st d st2 d2 index : synced st d -> synced st2 d2 -> (forall j, (j < kBlockCount)%nat -> block_at d2 j = block_at (reboot d) j) ->
  serial_block_ st = Some index -> serial_block_ st2 = Some index /\ block_at d2 index = block_at d index.
Proof.
  intros [_ Hd Hh [_ _ _ Hl _ _]] [_ _ _ [_ _ _ Hl2 _ _]] Hb2 Hi. rewrite Hi in Hl. pose proof Hl as (Hlt & Hv & _). split.
  - apply (last_valid_fun (block_at d2) kBlockCount); [exact Hl2|]. apply (last_valid_ext (block_at d)); [|exact Hl]. intros i Hib. rewrite Hb2 by done. by apply reboot_valid.
  - rewrite Hb2 by done. destruct (reboot_spec d index Hd Hh Hlt) as [->|[Hr _]]; [done|]. by apply Classify_erased in Hr.
Qed.

(** C40: a serial number that was accepted is durable.  If [set_serial] reports
    [ok], a row of the device holds the value in a valid record and the device
    has that row locked; the store returns the value; and a store built afresh
    after a restart finds the same row with the value, still locked on the
    device; for every backend that keeps the driver contract. *)
Theorem set_serial_is_durable st d v st' d' :
  backend_faithful crc -> synced st d -> set_serial drv crc v st d = (Status.ok, st', d') ->
  exists index, (index < kBlockCount)%nat /\ locked (block_at d' index) = true /\
    record_valid crc (record (block_at d' index)) = true /\ payload (record (block_at d' index)) = v /\
    serial st' = Some v /\ synced st' d' /\
    exists st2 d2, init drv crc new_store (reboot d') = (Status.ok, st2, d2) /\ serial st2 = Some v /\
      serial_block_ st2 = Some index /\ block_at d2 index = block_at d' index.
Proof.
  intros Hcrc Hsy Hset. destruct (set_serial_ok st d v st' d' Hcrc Hsy Hset) as (Hsy' & Hser & Hlk).
  destruct (synced_row st' d' v Hsy' Hser) as (index & Hi & Hlt & Hv & Hpay & Hlo). rewrite Hlk in Hlo.
  exists index. split; [done|]. split; [done|]. split; [by apply (Classify_valid_record (block_at d' index))|]. split_and!; [done..|].
  destruct (init_synced d' (synced_dok _ _ Hsy') (synced_healthy _ _ Hsy')) as (st2 & d2 & Hinit & Hsy2 & Hb2). exists st2, d2. split; [done|].
  destruct (row_after_restart st' d' st2 d2 index Hsy' Hsy2 Hb2 Hi) as [Hi2 Hrow]. split; [|done].
  pose proof Hsy2 as [Hr2 _ _ [_ _ _ _ Hs2 _]]. unfold serial. rewrite Hr2, Hi2, (Hs2 index Hi2), Hrow, Hpay. done.
Qed.
End store.
