(* ===== verification/OtpFlash.v ===== *)
(** * The flash emulator of OTP rows (src/lib/otp/flash.h, flash.cpp)

    Each of the 32 rows is a 256-byte slot of sixteen flash words: a claim, four
    words of record body, a commit and ten lock cells.  [FlashOtp] is the
    emulator's state with the flash device behind it; its operations form the
    [Driver] of the store. *)

From S2P Require Import Prelude Foundation Wire Flash Otp OtpStore.

Definition kSlotSize : Z := 256.
Definition kSize : Z := Z.of_nat kBlockCount * kSlotSize.
Definition kWriteTimeout : Time := 100000.
Definition kPollBudget : nat := N.to_nat 1000000.

Definition kClaim : Z := 0x3143504f.
Definition kCommit : Z := 0x3144504f.
Definition kLock : Z := 0x314c504f.
Definition kBodyOffset : nat := 16.
Definition kCommitOffset : nat := 80.
Definition kLockOffset : nat := 96.

Definition Erased (bytes : list Z) : bool := all_eq byte_ff bytes.

Definition Marker (kind : Z) (block : nat) (tag : Z) (body : list Z) : list Z :=
  let word := replicate 16 0 in
  let word := write32 word 0 kind in
  let word := write32 word 4 (Z.of_nat block) in
  let word := write32 word 8 tag in
  let crc := crc32_calculate (take 12 word) in
  write32 word 12 (crc32_update crc body).

Definition Matches (bytes marker : list Z) : bool := bool_decide (bytes = marker).

(** "flash-emulator" *)
Definition emulator_name : list Z := [102; 108; 97; 115; 104; 45; 101; 109; 117; 108; 97; 116; 111; 114].

Record FlashOtp (D : Type) := mkFlashOtp {
  dev : D;
  pending_ : list Z;
  attempted_ : list bool;
  lock_next_ : list Z;
  fo_initialized_ : bool;
  timed_out_ : bool
}.
Arguments mkFlashOtp {D}. Arguments dev {D}. Arguments pending_ {D}. Arguments attempted_ {D}.
Arguments lock_next_ {D}. Arguments fo_initialized_ {D}. Arguments timed_out_ {D}.
#[export] Instance FlashOtp_eta D : RecordEta (FlashOtp D) := fun r =>
  mkFlashOtp (dev r) (pending_ r) (attempted_ r) (lock_next_ r) (fo_initialized_ r) (timed_out_ r).

Definition new_flash_otp {D} (d : D) : FlashOtp D :=
  mkFlashOtp d (replicate 16 0) (replicate kBlockCount false) (replicate kBlockCount 0) false false.

Section flash_otp.
Context {D : Type} (flash_ : Flash D) (base_ : Z).
Implicit Types o : FlashOtp D.

Definition Init o : Status * FlashOtp D :=
  if fo_initialized_ o then (Status.already_initialized, o)
  else if negb (flash_valid flash_) || negb (base_ mod kSize =? 0) || (base_ >? UINT32_MAX - kSize)
  then (Status.incompatible, o)
  else (Status.ok, o <| fo_initialized_ := true |>).

Definition slot_address (block : nat) (offset : Z) : Z :=
  u32 (base_ + Z.of_nat block * kSlotSize + offset).

(** The loop of [Load] over the words [is_]; [bad] is filled as it goes. *)
Fixpoint load_words (block : nat) (is_ : list nat) (image : list Z) (bad : list bool) (d : D)
  : Status * list Z * list bool * D :=
  match is_ with
  | [] => (Status.ok, image, bad, d)
  | i :: is_ =>
      let '(status, bytes, d) := flash_read flash_ d (slot_address block (Z.of_nat i * 16)) (sub image (i * 16) 16) in
      let image := blit (i * 16) bytes image in
      let ecc := status =s? Status.io_error in
      let bad := <[i := ecc]> bad in
      if negb (status =s? Status.ok) && negb ecc then (status, image, bad, d)
      else load_words block is_ image bad d
  end.

Definition Load (block : nat) (image : list Z) (bad : list bool) o : Status * list Z * list bool * FlashOtp D :=
  if negb (fo_initialized_ o) then (Status.not_running, image, bad, o)
  else if timed_out_ o then (Status.timeout, image, bad, o)
  else if (kBlockCount <=? block)%nat then (Status.invalid_argument, image, bad, o)
  else
    let image := replicate 256 byte_ff in
    let '(status, image, bad, d) := load_words block (seq 0 16) image bad (dev o) in
    (status, image, bad, o <| dev := d |>).

(** The default-constructed locals [Image image] and [bad{}]. *)
Definition no_words : list Z := replicate 256 0.
Definition no_bad : list bool := replicate 16 false.

(** [Inspect] after a successful [Load]. *)
Definition inspect_image (att : bool) (block : nat) (image : list Z) (bad : list bool) : Block :=
  let output := mkBlock erased_record Storage.unused false in
  let body := sub image kBodyOffset kRecordSize in
  if negb att && Erased image && negb (existsb id bad) then output
  else
    if existsb id (take 6 bad) then mkBlock (record output) Storage.unreadable false
    else
      let output := mkBlock (record output) Storage.consumed false in
      let type := read32 image (kCommitOffset + 8) in
      if negb (Matches (take 16 image) (Marker kClaim block 1 [])) || (type >=? 0xffff) ||
         negb (Matches (sub image kCommitOffset 16) (Marker kCommit block type body))
      then output
      else
        let bytes := blit 0 body (record output) in
        let bytes := <[0%nat := Z.land type 0xff]> bytes in
        let bytes := <[1%nat := u8 (Z.shiftr type 8)]> bytes in
        let lock := Marker kLock block (read32 bytes 4) [] in
        mkBlock bytes Storage.consumed
          (existsb (fun i => negb (bad !!! i) && Matches (sub image (i * 16) 16) lock) (seq 6 10)).

Definition Inspect (block : nat) (output : Block) o : Status * Block * FlashOtp D :=
  let '(status, image, bad, o) := Load block no_words no_bad o in
  if negb (status =s? Status.ok) then (status, output, o)
  else (Status.ok, inspect_image (attempted_ o !!! block) block image bad, o).

(** The polling loop of [Write]; [None] when it gives up. *)
Fixpoint poll_loop (budget : nat) (start : Time) (d : D) : option Status * D :=
  match budget with
  | O => (None, d)
  | S budget =>
      let '(status, d) := flash_poll flash_ d in
      if negb (status =s? Status.busy) then (Some status, d)
      else
        let '(t, d) := flash_now flash_ d in
        if u64 (t - start) >=? kWriteTimeout then (None, d) else poll_loop budget start d
  end.

Definition Write (block : nat) (offset : Z) (word : list Z) o : ProgramResult * FlashOtp D :=
  let o := o <| pending_ := word |> in
  let '(status, d) := flash_program flash_ (dev o) (slot_address block offset) (pending_ o) in
  let o := o <| dev := d |> in
  if negb (status =s? Status.ok) then (mkProgramResult status false, o)
  else
    let o := o <| attempted_ := <[block := true]> (attempted_ o) |> in
    let '(start, d) := flash_now flash_ (dev o) in
    match poll_loop kPollBudget start d with
    | (Some status, d) => (mkProgramResult status true, o <| dev := d |>)
    | (None, d) => (mkProgramResult Status.timeout true, o <| dev := d |> <| timed_out_ := true |>)
    end.

(** The loop of [Program] over the words of the body. *)
Fixpoint write_body (block : nat) (body : list Z) (ws : list nat) o : option Status * FlashOtp D :=
  match ws with
  | [] => (None, o)
  | w :: ws =>
      let bytes := sub body (w * 16) 16 in
      if Erased bytes then write_body block body ws o
      else
        let '(result, o) := Write block (Z.of_nat kBodyOffset + Z.of_nat w * 16) bytes o in
        if negb (pr_status result =s? Status.ok) then (Some (pr_status result), o)
        else write_body block body ws o
  end.

Definition Program (block : nat) (r : OtpRecord) o : ProgramResult * FlashOtp D :=
  let '(status, before, o) := Inspect block no_block o in
  if negb (status =s? Status.ok) then (mkProgramResult status false, o)
  else if negb (bool_decide (storage before = Storage.unused)) || locked before
  then (mkProgramResult Status.rejected false, o)
  else
    let '(result, o) := Write block 0 (Marker kClaim block 1 []) o in
    if negb (pr_status result =s? Status.ok) then (result, o)
    else
      let body := <[0%nat := byte_ff]> (<[1%nat := byte_ff]> r) in
      match write_body block body (seq 0 4) o with
      | (Some status, o) => (mkProgramResult status true, o)
      | (None, o) =>
          let '(result, o) := Write block (Z.of_nat kCommitOffset) (Marker kCommit block (record_type r) body) o in
          (mkProgramResult (pr_status result) true, o)
      end.

Definition Lock (block : nat) o : Status * FlashOtp D :=
  let '(status, current, o) := Inspect block no_block o in
  if negb (status =s? Status.ok) || locked current then (status, o)
  else if negb (bool_decide (storage current = Storage.consumed)) || negb (record_valid no_backend (record current))
  then (Status.rejected, o)
  else
    let '(status, image, bad, o) := Load block no_words no_bad o in
    if negb (status =s? Status.ok) then (status, o)
    else
      let next := foldl (fun next i => if (bad !!! i) || negb (Erased (sub image (i * 16) 16)) then Z.of_nat i + 1 else next)
                    6 (seq 6 10) in
      let next := Z.max next (lock_next_ o !!! block) in
      if next =? 16 then (Status.io_error, o)
      else
        let '(result, o) := Write block (next * 16) (Marker kLock block (read32 (record current) 4) []) o in
        let o := if attempted result then o <| lock_next_ := <[block := u8 (next + 1)]> (lock_next_ o) |> else o in
        (pr_status result, o).

Definition driver : Driver (FlashOtp D) :=
  mkDriver (Some emulator_name) true kBlockCount kRecordSize Init
    (fun o i b => Inspect i b o) (fun o i r => Program i r o) (fun o i => Lock i o).
End flash_otp.
