(* ===== verification/OtpFlashProof.v ===== *)
(** * The flash emulator keeps the driver contract

    Over any flash device that keeps its own contract (Flash.v), what [Inspect]
    reports is a function of the cells of one slot and of the row's [attempted_]
    flag; programming and locking stay inside the slot; a restart changes no row
    that holds a record. *)

From S2P Require Import Prelude Foundation Wire Flash Otp OtpStore OtpFlash.

(** Guarded per-address ECC errors are reported as [io_error]. *)
Class FlashEcc {D} (F : Flash D) {s w} `{!FlashContract F s w} : Prop :=
  ecc_spec d a buf : dev_ok d -> flight d = None -> covers a (Z.of_nat (length buf)) ->
    mem_read (view d) a (length buf) = None -> fst (fst (flash_read F d a buf)) = Status.io_error.

(** ** Words of an image *)

Lemma words_agree (l l' : list Z) lo n :
  (forall i, (lo <= i < lo + n)%nat -> sub l (i * 16) 16 = sub l' (i * 16) 16) ->
  sub l (lo * 16) (n * 16) = sub l' (lo * 16) (n * 16).
Proof.
  intros Hw. apply sub_ext. intros j Hj.
  pose proof (Nat.div_mod_eq j 16) as Hjd. pose proof (Nat.mod_upper_bound j 16 ltac:(lia)) as Hm.
  assert (Hi : (lo <= j / 16 < lo + n)%nat) by lia.
  specialize (Hw _ Hi). apply (f_equal (fun l => l !! (j mod 16)%nat)) in Hw.
  rewrite !lookup_sub in Hw by lia. replace (j / 16 * 16 + j mod 16)%nat with j in Hw by lia. done.
Qed.

Lemma inspect_image_ext att b image image' bad :
  length image = 256%nat -> length image' = 256%nat -> length bad = 16%nat ->
  (forall i, (i < 16)%nat -> bad !! i = Some false -> sub image (i * 16) 16 = sub image' (i * 16) 16) ->
  inspect_image att b image bad = inspect_image att b image' bad.
Proof.
  intros Hl Hl' Hb Hw. unfold inspect_image.
  assert (Hall : existsb id bad = false -> image = image').
  { intros He. rewrite <- (sub_full image), <- (sub_full image'), Hl, Hl'.
    apply (words_agree image image' 0 16). intros i Hi. apply Hw; [lia|].
    destruct (lookup_lt_is_Some_2 bad i) as [[] Hx]; [lia| |done].
    assert (existsb id bad = true); [|congruence]. apply existsb_exists. exists true.
    split; [|done]. apply list_elem_of_In. by apply list_elem_of_lookup_2 in Hx. }
  assert (Hc : negb att && Erased image && negb (existsb id bad) = negb att && Erased image' && negb (existsb id bad)).
  { destruct (existsb id bad) eqn:He; [by rewrite !andb_false_r|by rewrite Hall]. }
  rewrite Hc. destruct (negb att && Erased image' && _); [done|].
  destruct (existsb id (take 6 bad)) eqn:H6; [done|].
  assert (Hhead : sub image 0 96 = sub image' 0 96).
  { apply (words_agree image image' 0 6). intros i Hi. apply Hw; [lia|].
    destruct (lookup_lt_is_Some_2 bad i) as [[] Hx]; [lia| |done].
    assert (existsb id (take 6 bad) = true); [|congruence]. apply existsb_exists. exists true.
    split; [|done]. apply list_elem_of_In, (list_elem_of_lookup_2 _ i). by rewrite lookup_take_lt by lia. }
  assert (Hsub : forall i n, (i + n <= 96)%nat -> sub image i n = sub image' i n).
  { intros i n Hin. pose proof (sub_sub image 0 96 i n Hin) as E1. pose proof (sub_sub image' 0 96 i n Hin) as E2.
    simpl in E1, E2. congruence. }
  change (take 16 image) with (sub image 0 16). change (take 16 image') with (sub image' 0 16).
  unfold kCommitOffset, kBodyOffset, kRecordSize in *.
  rewrite (read32_ext image image' (80 + 8)).
  2: { intros j Hj. apply (f_equal (fun l => l !! j)) in Hhead. by rewrite !lookup_sub in Hhead by lia. }
  rewrite !(Hsub 0%nat 16%nat), !(Hsub 80%nat 16%nat), !(Hsub 16%nat 64%nat) by lia.
  destruct (negb _ || _ || _); [done|]. f_equal.
  assert (Hex : forall g g' : nat -> bool, (forall i, (6 <= i < 16)%nat -> g i = g' i) ->
            existsb g (seq 6 10) = existsb g' (seq 6 10)).
  { intros g g' Hg. cbn [seq existsb]. rewrite !Hg by lia. done. }
  apply Hex. intros i Hi. destruct (lookup_lt_is_Some_2 bad i) as [[] Hx]; [lia|..].
  - by rewrite (list_lookup_total_correct _ _ _ Hx).
  - rewrite (Hw i) by (done || lia). done.
Qed.

(** ** The emulator over a device that keeps its contract *)

Section laws.
Context {D : Type} (F : Flash D) (base_ : Z) (sector : Z).
Context `{!FlashContract F sector 16, !FlashEcc F}.
Context (Hflash : flash_valid F = true) (Halign : base_ mod kSize = 0) (Hrange : 0 <= base_ <= UINT32_MAX - kSize).
Context (Hcover : forall b i, (b < kBlockCount)%nat -> (i < 16)%nat ->
                  covers (base_ + Z.of_nat b * kSlotSize + Z.of_nat i * 16) 16).
Implicit Types (o : FlashOtp D) (m : Mem) (b i j : nat).

Lemma slot_address_eq b off :
  (b < kBlockCount)%nat -> 0 <= off < kSlotSize -> slot_address base_ b off = base_ + Z.of_nat b * kSlotSize + off.
Proof.
  unfold slot_address, kSlotSize. intros Hb Hoff. apply u32_small.
  unfold is_u32, kSize, kSlotSize, UINT32_MAX in *. change (Z.of_nat kBlockCount) with 32 in *.
  unfold kBlockCount in *. lia.
Qed.

Definition word_at m b i : option (list Z) := mem_read m (slot_address base_ b (Z.of_nat i * 16)) 16.
Definition image_of m b : list Z := concat (map (fun i => default (replicate 16 byte_ff) (word_at m b i)) (seq 0 16)).
Definition bad_of m b : list bool := map (fun i => bool_decide (word_at m b i = None)) (seq 0 16).
Definition block_of m att b : Block := inspect_image att b (image_of m b) (bad_of m b).

Lemma length_word m b i w : word_at m b i = Some w -> length w = 16%nat.
Proof. apply mem_read_length. Qed.

Lemma concat_words (f : nat -> list Z) n : forall k,
  (forall i, (k <= i < k + n)%nat -> length (f i) = 16%nat) ->
  length (concat (map f (seq k n))) = (n * 16)%nat /\
  forall i, (i < n)%nat -> sub (concat (map f (seq k n))) (i * 16) 16 = f (k + i)%nat.
Proof.
  induction n as [|n IH]; intros k Hf; [split; [done|lia]|]. cbn [seq map concat].
  destruct (IH (S k)) as [Hl Hs]; [intros; apply Hf; lia|].
  assert (Hk : length (f k) = 16%nat) by (apply Hf; lia).
  split; [rewrite length_app, Hk, Hl; lia|]. intros [|i] Hi.
  - rewrite Nat.add_0_r. unfold sub. rewrite drop_0, take_app_length'; done.
  - unfold sub. replace (S i * 16)%nat with (length (f k) + i * 16)%nat by lia.
    rewrite drop_app_add. change (take 16 (drop (i * 16) ?l)) with (sub l (i * 16) 16).
    rewrite (Hs i) by lia. f_equal. lia.
Qed.

Lemma length_image_of m b : length (image_of m b) = 256%nat.
Proof.
  unfold image_of. refine (proj1 (concat_words _ 16 0 _)). intros i _.
  destruct (word_at m b i) eqn:Hw; [by eapply length_word|done].
Qed.

Lemma image_word_default m b i :
  (i < 16)%nat -> sub (image_of m b) (i * 16) 16 = default (replicate 16 byte_ff) (word_at m b i).
Proof.
  intros Hi. unfold image_of. set (f := fun i => default _ _).
  assert (Hf : forall j, (0 <= j < 0 + 16)%nat -> length (f j) = 16%nat).
  { intros j _. unfold f. destruct (word_at m b j) eqn:Hj; [by eapply length_word|done]. }
  rewrite (proj2 (concat_words f 16 0 Hf) i Hi). done.
Qed.

Lemma image_word m b i w : (i < 16)%nat -> word_at m b i = Some w -> sub (image_of m b) (i * 16) 16 = w.
Proof. intros Hi Hw. rewrite image_word_default by done. by rewrite Hw. Qed.

Lemma lookup_bad_of m b i : (i < 16)%nat -> bad_of m b !! i = Some (bool_decide (word_at m b i = None)).
Proof.
  intros Hi. unfold bad_of. apply list_lookup_fmap_Some. exists i. split; [done|].
  apply lookup_seq. lia.
Qed.

Lemma length_bad_of m b : length (bad_of m b) = 16%nat.
Proof. unfold bad_of. by rewrite length_map, length_seq. Qed.

Lemma block_of_ext m m' att b :
  (forall i, (i < 16)%nat -> word_at m' b i = word_at m b i) -> block_of m' att b = block_of m att b.
Proof.
  intros He. unfold block_of, image_of, bad_of.
  assert (Hl : forall T (f g : nat -> T), (forall i, (i < 16)%nat -> f i = g i) -> map f (seq 0 16) = map g (seq 0 16)).
  { intros T f g Hfg. cbn [seq map]. rewrite !Hfg by lia. done. }
  f_equal; [f_equal|]; apply Hl; intros i Hi; by rewrite He.
Qed.

(** ** Reading *)

(** What [Load] produced so far. *)
Definition loaded m b k (image : list Z) (bad : list bool) : Prop :=
  length image = 256%nat /\ length bad = 16%nat /\
  forall i, (i < k)%nat -> bad !! i = Some (bool_decide (word_at m b i = None)) /\
    forall w, word_at m b i = Some w -> sub image (i * 16) 16 = w.

Lemma load_words_spec b n : forall k image bad d,
  (b < kBlockCount)%nat -> (k + n = 16)%nat -> dev_ok d -> flight d = None -> loaded (view d) b k image bad ->
  exists image' bad' d', load_words F base_ b (seq k n) image bad d = (Status.ok, image', bad', d') /\
    dev_ok d' /\ view d' = view d /\ flight d' = None /\ loaded (view d) b 16 image' bad'.
Proof.
  induction n as [|n IH]; intros k image bad d Hb Hk Hd Hf (Hl & Hlb & Hw); cbn [seq load_words].
  { replace k with 16%nat in Hw by lia. exists image, bad, d. done. }
  assert (Hls : length (sub image (k * 16) 16) = 16%nat) by (apply length_sub; lia).
  assert (Haddr : slot_address base_ b (Z.of_nat k * 16) = base_ + Z.of_nat b * kSlotSize + Z.of_nat k * 16).
  { apply slot_address_eq; [done|unfold kSlotSize; lia]. }
  assert (Hcov : covers (slot_address base_ b (Z.of_nat k * 16)) (Z.of_nat (length (sub image (k * 16) 16)))).
  { rewrite Haddr, Hls. apply Hcover; lia. }
  destruct (read_spec d (slot_address base_ b (Z.of_nat k * 16)) (sub image (k * 16) 16) Hd Hf Hcov)
    as (st & bs & d1 & Hr & Hd1 & Hv1 & Hf1 & Hlb1 & Hst).
  pose proof (ecc_spec d _ (sub image (k * 16) 16) Hd Hf Hcov) as Hecc. rewrite Hr in *. cbn [fst] in Hecc.
  rewrite Hls in Hst, Hecc, Hlb1. change (mem_read (view d) _ 16) with (word_at (view d) b k) in Hst, Hecc.
  assert (Hnext : st = Status.ok \/ st = Status.io_error).
  { destruct (word_at (view d) b k); [by left; apply Hst|right; auto]. }
  assert (Hbad : (st =s? Status.io_error) = bool_decide (word_at (view d) b k = None)).
  { destruct (word_at (view d) b k); [by destruct Hst as [-> _]|by rewrite Hecc]. }
  assert (Hgo : negb (st =s? Status.ok) && negb (st =s? Status.io_error) = false) by (by destruct Hnext as [-> | ->]).
  rewrite Hgo, Hbad. rewrite <- Hv1.
  destruct (IH (S k) (blit (k * 16) bs image) (<[k := bool_decide (word_at (view d1) b k = None)]> bad) d1)
    as (image' & bad' & d' & ? & ? & Hv' & ? & Hld); [done|lia|done|done| |].
  - rewrite Hv1. split_and!; [by rewrite length_blit|by rewrite length_insert|]. intros i Hi.
    destruct (decide (i = k)) as [->|Hne].
    + split; [apply list_lookup_insert_eq; lia|]. intros w Hww. rewrite Hww in Hst. destruct Hst as [_ ->].
      apply sub_blit_same; [by rewrite Hlb1|lia].
    + destruct (Hw i) as [Hbi Hwi]; [lia|]. rewrite list_lookup_insert_ne by done. split; [done|].
      intros w Hww. rewrite sub_blit_other by lia. auto.
  - exists image', bad', d'. split_and!; [done|done|congruence|done|done].
Qed.

(** ** The contract's view of the emulator *)

Definition fo_ok o : Prop :=
  dev_ok (dev o) /\ length (attempted_ o) = kBlockCount /\ length (lock_next_ o) = kBlockCount /\
  Forall (fun x => 0 <= x <= 16) (lock_next_ o) /\ (timed_out_ o = false -> flight (dev o) = None).
Definition fo_healthy o : Prop := fo_initialized_ o = true /\ timed_out_ o = false.
Definition fo_block o b : Block := block_of (view (dev o)) (attempted_ o !!! b) b.

(** The device behind the emulator moved on, nothing else. *)
Definition fo_read o o' : Prop := exists d, o' = o <| dev := d |> /\ dev_ok d /\ view d = view (dev o) /\ flight d = None.

Lemma fo_read_ok o o' : fo_ok o -> fo_read o o' -> fo_ok o' /\ forall j, fo_block o' j = fo_block o j.
Proof.
  intros (Hd & ? & ? & ? & ?) (d & -> & Hd' & Hv & Hf). split; [done|].
  intros j. unfold fo_block. cbn [dev attempted_ field_update]. by rewrite Hv.
Qed.

Lemma Load_spec o b image0 :
  fo_ok o -> fo_healthy o -> (b < kBlockCount)%nat ->
  exists image bad o', Load F base_ b image0 no_bad o = (Status.ok, image, bad, o') /\ fo_read o o' /\
    loaded (view (dev o)) b 16 image bad.
Proof.
  intros (Hd & _ & _ & _ & Hf) [Hi Ht] Hb. unfold Load. rewrite Hi, Ht. cbn [negb].
  destruct (Nat.leb_spec kBlockCount b); [lia|].
  destruct (load_words_spec b 16 0 (replicate 256 byte_ff) no_bad (dev o) Hb) as (image & bad & d & -> & ? & Hv & ? & ?).
  - done.
  - done.
  - auto.
  - split_and!; [done|done|]. intros i Hlt. lia.
  - exists image, bad, (o <| dev := d |>). split_and!; [done| |done]. by exists d.
Qed.

Lemma loaded_bad m b image bad : loaded m b 16 image bad -> bad = bad_of m b.
Proof.
  intros (_ & Hl & Hw). apply list_eq_same_length with (n := 16%nat); [by rewrite length_bad_of|done|].
  intros i x y Hi Hx Hy. destruct (Hw i Hi) as [Hbi _]. rewrite lookup_bad_of in Hy by done. congruence.
Qed.

Lemma loaded_block m att b image bad : loaded m b 16 image bad -> inspect_image att b image bad = block_of m att b.
Proof.
  intros Hld. pose proof (loaded_bad _ _ _ _ Hld) as ->. destruct Hld as (Hl & Hlb & Hw). unfold block_of.
  apply inspect_image_ext; [done|apply length_image_of|done|]. intros i Hi Hbi.
  rewrite lookup_bad_of in Hbi by done. destruct (word_at m b i) as [w|] eqn:Hww; [|done].
  destruct (Hw i Hi) as [_ Hs]. rewrite (Hs w Hww). symmetry. by apply image_word.
Qed.

Lemma Inspect_spec o b out :
  fo_ok o -> fo_healthy o -> (b < kBlockCount)%nat ->
  exists o', Inspect F base_ b out o = (Status.ok, fo_block o b, o') /\ fo_read o o'.
Proof.
  intros Ho Hh Hb. unfold Inspect.
  destruct (Load_spec o b no_words Ho Hh Hb) as (image & bad & o' & -> & Hr & Hld).
  rewrite st_eqb_refl. cbn [negb]. exists o'. split; [|done]. destruct Hr as (d & -> & _).
  cbn [attempted_ field_update]. by rewrite (loaded_block _ _ _ _ _ Hld).
Qed.

(** ** Writing *)

Lemma poll_loop_spec op budget : forall start d,
  dev_ok d -> flight d = Some op ->
  exists r d', poll_loop F budget start d = (r, d') /\ dev_ok d' /\
  match r with
  | Some Status.ok => op_done op (view d) (view d') /\ flight d' = None
  | Some _ => op_torn op (view d) (view d') /\ flight d' = None
  | None => view d' = view d
  end.
Proof.
  induction budget as [|budget IH]; intros start d Hd Hf; cbn [poll_loop].
  { by exists None, d. }
  destruct (poll_spec d Hd) as (st & d1 & -> & Hd1 & Hst). rewrite Hf in Hst.
  destruct (decide (st = Status.busy)) as [->|Hne].
  - rewrite st_eqb_refl. cbn [negb]. destruct Hst as [Hv1 Hf1].
    destruct (now_spec d1 Hd1) as (t & d2 & -> & Hd2 & Hv2 & Hf2).
    destruct (_ >=? _).
    + exists None, d2. split_and!; [done|done|congruence].
    + destruct (IH start d2 Hd2) as (r & d' & Hr & Hd' & Hp); [congruence|].
      exists r, d'. rewrite Hv2, Hv1 in Hp. done.
  - apply st_eqb_neq in Hne as Hn. rewrite Hn. cbn [negb]. exists (Some st), d1.
    split_and!; [done|done|]. by destruct st.
Qed.

(** What a write to slot [b] may change. *)
Record touches b o o' : Prop := {
  touches_ok : fo_ok o';
  touches_initialized : fo_initialized_ o' = fo_initialized_ o;
  touches_outside x : ~ in_block (base_ + Z.of_nat b * kSlotSize) kSlotSize x -> view (dev o') x = view (dev o) x;
  touches_attempted j : j <> b -> attempted_ o' !!! j = attempted_ o !!! j
}.

Lemma touches_trans b o1 o2 o3 : touches b o1 o2 -> touches b o2 o3 -> touches b o1 o3.
Proof.
  intros [] []. split; [done|congruence| |].
  - intros x Hx. rewrite touches_outside1, touches_outside0 by done. done.
  - intros j Hj. rewrite touches_attempted1, touches_attempted0 by done. done.
Qed.

Lemma touches_read b o o' : fo_ok o -> fo_read o o' -> touches b o o'.
Proof.
  intros Ho Hr. destruct (fo_read_ok o o' Ho Hr) as [Ho' _]. destruct Hr as (d & -> & _ & Hv & _).
  split; try done. intros x _. cbn [dev field_update]. by rewrite Hv.
Qed.

(** The addresses of a slot, one word or all of it. *)
Lemma word_in_slot b i x :
  (b < kBlockCount)%nat -> (i < 16)%nat -> in_block (slot_address base_ b (Z.of_nat i * 16)) 16 x ->
  in_block (base_ + Z.of_nat b * kSlotSize) kSlotSize x.
Proof.
  intros Hb Hi. rewrite slot_address_eq by (try done; unfold kSlotSize; lia).
  unfold in_block, kSlotSize. lia.
Qed.

Lemma other_slot b j i x :
  (b < kBlockCount)%nat -> (j < kBlockCount)%nat -> (i < 16)%nat -> j <> b ->
  in_block (slot_address base_ j (Z.of_nat i * 16)) 16 x -> ~ in_block (base_ + Z.of_nat b * kSlotSize) kSlotSize x.
Proof.
  intros Hb Hj Hi Hne. rewrite slot_address_eq by (try done; unfold kSlotSize; lia).
  unfold in_block, kSlotSize. lia.
Qed.

Lemma touches_other b j o o' :
  touches b o o' -> (b < kBlockCount)%nat -> (j < kBlockCount)%nat -> j <> b -> fo_block o' j = fo_block o j.
Proof.
  intros [_ _ Hout Hatt] Hb Hj Hne. unfold fo_block. rewrite Hatt by done. apply block_of_ext.
  intros i Hi. apply mem_read_ext. intros x Hx. apply Hout. by eapply other_slot.
Qed.

Lemma fo_Write_spec o b w word :
  fo_ok o -> fo_healthy o -> (b < kBlockCount)%nat -> (w < 16)%nat -> length word = 16%nat -> bytes_ok word ->
  exists res o', Write F base_ b (Z.of_nat w * 16) word o = (res, o') /\ touches b o o' /\
    (pr_status res = Status.ok -> fo_healthy o' /\ attempted res = true /\
       op_done (OpProgram (slot_address base_ b (Z.of_nat w * 16)) word) (view (dev o)) (view (dev o'))) /\
    (forall x, ~ in_block (slot_address base_ b (Z.of_nat w * 16)) 16 x -> view (dev o') x = view (dev o) x) /\
    lock_next_ o' = lock_next_ o /\
    (if attempted res then attempted_ o' = <[b := true]> (attempted_ o)
     else attempted_ o' = attempted_ o /\ view (dev o') = view (dev o)).
Proof.
  intros (Hd & Hla & Hll & Hln & Hf) [Hi Ht] Hb Hw Hlen Hbytes. unfold Write. cbn [dev pending_ field_update].
  set (a := slot_address base_ b (Z.of_nat w * 16)).
  destruct (Flash.program_spec (dev o) a word Hd (Hf Ht) Hbytes) as (st & d1 & -> & Hd1 & Hv1 & Hf1); [lia|].
  assert (Htouch : forall o' : FlashOtp D, fo_ok o' -> fo_initialized_ o' = fo_initialized_ o ->
            (forall x, ~ in_block a 16 x -> view (dev o') x = view (dev o) x) ->
            (forall j, j <> b -> attempted_ o' !!! j = attempted_ o !!! j) -> touches b o o').
  { intros o' Ho' Hi' Hout Hatt. split; try done. intros x Hx. apply Hout. intros Hin. apply Hx.
    by eapply word_in_slot. }
  destruct (st =s? Status.ok) eqn:Hst; cbn [negb].
  - destruct (now_spec d1 Hd1) as (t & d2 & -> & Hd2 & Hv2 & Hf2). cbn [dev field_update].
    destruct (poll_loop_spec (OpProgram a word) kPollBudget t d2 Hd2) as (r & d3 & -> & Hd3 & Hr); [congruence|].
    assert (Hout : forall x, ~ in_block a 16 x -> view d3 x = view (dev o) x).
    { intros x Hx. rewrite <- Hv1, <- Hv2. destruct r as [r|]; [|by rewrite Hr].
      assert (Hx' : ~ in_block (op_start (OpProgram a word)) (op_size (OpProgram a word)) x).
      { cbn [op_start op_size]. by rewrite Hlen. }
      destruct r; destruct Hr as [[Ho _] _]; by apply Ho. }
    assert (Hins : forall j, j <> b -> <[b := true]> (attempted_ o) !!! j = attempted_ o !!! j).
    { intros j Hj. rewrite !list_lookup_total_alt, list_lookup_insert_ne by done. done. }
    destruct r as [st'|].
    + eexists _, _. split; [reflexivity|]. cbn [attempted pr_status].
      assert (Hfl : flight d3 = None) by (by destruct st'; destruct Hr).
      split_and!; try done.
      * apply Htouch; try done. split_and!; cbn; try done. by rewrite length_insert.
      * intros ->. destruct Hr as [Hdone _]. rewrite Hv2, Hv1 in Hdone. done.
    + eexists _, _. split; [reflexivity|]. cbn [attempted pr_status]. split_and!; try done.
      apply Htouch; try done. split_and!; cbn; try done. by rewrite length_insert.
  - eexists _, _. split; [reflexivity|]. cbn [attempted pr_status]. split_and!; try done.
    + apply Htouch; [split_and!; cbn; done|done|intros x _; cbn [dev field_update]; by rewrite Hv1|done].
    + intros ->. done.
    + intros x _. cbn [dev field_update]. by rewrite Hv1.
Qed.

Definition ff16 : list Z := replicate 16 byte_ff.

Lemma length_Marker kind b tag body : length (Marker kind b tag body) = 16%nat.
Proof. unfold Marker. by rewrite !length_write32. Qed.

Lemma Marker_bytes kind b tag body : bytes_ok (Marker kind b tag body).
Proof. unfold Marker. repeat apply write32_ok. apply Forall_replicate. by vm_compute. Qed.

(** One write, as seen by the words of its slot. *)
Lemma Write_words o b w word :
  fo_ok o -> fo_healthy o -> (b < kBlockCount)%nat -> (w < 16)%nat -> length word = 16%nat -> bytes_ok word ->
  exists res o', Write F base_ b (Z.of_nat w * 16) word o = (res, o') /\ touches b o o' /\
    (pr_status res = Status.ok -> fo_healthy o' /\ attempted res = true /\
       (word_at (view (dev o)) b w = Some ff16 -> word_at (view (dev o')) b w = Some word)) /\
    (forall i, (i < 16)%nat -> i <> w -> word_at (view (dev o')) b i = word_at (view (dev o)) b i) /\
    lock_next_ o' = lock_next_ o /\
    (if attempted res then attempted_ o' = <[b := true]> (attempted_ o)
     else attempted_ o' = attempted_ o /\ view (dev o') = view (dev o)).
Proof.
  intros Ho Hh Hb Hw Hl Hbytes.
  destruct (fo_Write_spec o b w word Ho Hh Hb Hw Hl Hbytes) as (res & o' & HW & Ht & Hok & Hout & Hln & Hatt).
  exists res, o'. split_and!; try done.
  - intros Hs. destruct (Hok Hs) as (? & ? & _ & Hdone). split_and!; try done. intros He.
    unfold word_at in *. rewrite <- Hl. apply Hdone. intros x Hx.
    apply mem_read_Some in He as [_ He]. unfold in_block in Hx. rewrite Hl in Hx.
    specialize (He (Z.to_nat (x - slot_address base_ b (Z.of_nat w * 16))) ltac:(lia)).
    rewrite Z2Nat.id in He by lia. replace (_ + (x - _)) with x in He by lia. rewrite <- He.
    unfold ff16. apply lookup_replicate_2. lia.
  - intros i Hi Hne. unfold word_at. apply mem_read_ext. intros x Hx. apply Hout.
    rewrite slot_address_eq in * by (try done; unfold kSlotSize; lia). unfold in_block in *. lia.
Qed.

#[local] Opaque word_at.

Lemma write_body_spec b body ws : forall o,
  fo_ok o -> fo_healthy o -> (b < kBlockCount)%nat -> length body = 64%nat -> bytes_ok body ->
  Forall (fun w => w < 4)%nat ws -> NoDup ws ->
  exists r o', write_body F base_ b body ws o = (r, o') /\ touches b o o' /\
    (r = Some Status.ok -> False) /\
    (r = None -> fo_healthy o' /\ (attempted_ o !!! b = true -> attempted_ o' !!! b = true) /\
      (forall w, w ∈ ws -> word_at (view (dev o)) b (S w) = Some ff16 ->
         word_at (view (dev o')) b (S w) = Some (sub body (w * 16) 16))) /\
    (forall i, (i < 16)%nat -> (forall w, w ∈ ws -> i <> S w) -> word_at (view (dev o')) b i = word_at (view (dev o)) b i).
Proof.
  induction ws as [|w ws IH]; intros o Ho Hh Hb Hl Hbody Hws Hnd; cbn [write_body].
  { exists None, o. split_and!; try done. intros _. split_and!; try done. intros w Hw. by apply elem_of_nil in Hw. }
  apply Forall_cons in Hws as [Hw4 Hws]. apply NoDup_cons in Hnd as [Hnin Hnd].
  assert (Hls : length (sub body (w * 16) 16) = 16%nat) by (apply length_sub; lia).
  destruct (Erased (sub body (w * 16) 16)) eqn:He.
  - destruct (IH o) as (r & o' & Hr & Ht & Hns & Hok & Hoth); [done..|].
    exists r, o'. split_and!; [done|done|done| |].
    + intros Hnone. destruct (Hok Hnone) as (? & ? & Hws'). split_and!; [done|done|].
      intros w' [->|Hin]%elem_of_cons Hff; [|by apply Hws']. rewrite Hoth; [|lia|].
      * rewrite Hff. f_equal. apply all_eq_replicate in He. by rewrite He, Hls.
      * intros v Hv Heq. injection Heq as ->. done.
    + intros i Hi Hne. apply Hoth; [done|]. intros v Hv. apply Hne. by apply elem_of_cons; right.
  - replace (Z.of_nat kBodyOffset + Z.of_nat w * 16) with (Z.of_nat (S w) * 16) by (unfold kBodyOffset; lia).
    destruct (Write_words o b (S w) (sub body (w * 16) 16)) as (res & o1 & -> & Ht1 & Hok1 & Hoth1 & _ & Hatt1);
      [done|done|done|lia|done|by apply Forall_sub|].
    destruct (pr_status res =s? Status.ok) eqn:Hst; cbn [negb].
    + apply st_eqb_eq in Hst. destruct (Hok1 Hst) as (Hh1 & Hat & Hw1).
      destruct (IH o1) as (r & o' & Hr & Ht & Hns & Hok & Hoth); [by destruct Ht1|done..|].
      exists r, o'. split_and!; [done|by eapply touches_trans|done| |].
      * intros Hnone. destruct (Hok Hnone) as (? & Ha & Hws'). split_and!; [done| |].
        { intros _. apply Ha. rewrite Hat in Hatt1. rewrite Hatt1.
          rewrite list_lookup_total_alt, list_lookup_insert_eq; [done|].
          destruct Ho as (_ & -> & _). done. }
        intros w' [->|Hin]%elem_of_cons Hff.
        { rewrite Hoth; [auto|lia|]. intros v Hv Heq. injection Heq as ->. done. }
        apply Hws'; [done|]. rewrite Hoth1; [done| |].
        { apply (Forall_forall (fun w => w < 4)%nat ws) in Hin; [lia|done]. }
        intros [= ->]. done.
      * intros i Hi Hne. rewrite Hoth, Hoth1; [done|done|apply Hne; by apply elem_of_cons; left|done|].
        intros v Hv. apply Hne. by apply elem_of_cons; right.
    + exists (Some (pr_status res)), o1. split_and!; [done|done| |done|].
      * intros [= E]. by rewrite E in Hst.
      * intros i Hi Hne. apply Hoth1; [done|]. apply Hne. by apply elem_of_cons; left.
Qed.

(** The body that [Program] writes: the record without its type. *)
Definition body_of (r : OtpRecord) : list Z := <[0%nat := byte_ff]> (<[1%nat := byte_ff]> r).

Lemma body_of_bytes r : bytes_ok r -> bytes_ok (body_of r).
Proof. intros Hr. repeat apply Forall_insert; try done; by vm_compute. Qed.

(** A row as [Program] leaves it. *)
Definition row_written m b (r : OtpRecord) : Prop :=
  word_at m b 0 = Some (Marker kClaim b 1 []) /\
  (forall w, (w < 4)%nat -> word_at m b (S w) = Some (sub (body_of r) (w * 16) 16)) /\
  word_at m b 5 = Some (Marker kCommit b (record_type r) (body_of r)) /\
  (forall i, (6 <= i < 16)%nat -> word_at m b i = Some ff16).

Definition row_virgin m b : Prop := forall i, (i < 16)%nat -> word_at m b i = Some ff16.

Lemma fo_Program_spec o b r :
  fo_ok o -> fo_healthy o -> (b < kBlockCount)%nat -> length r = kRecordSize -> bytes_ok r ->
  exists res o', Program F base_ b r o = (res, o') /\ touches b o o' /\
    (pr_status res = Status.ok -> fo_healthy o' /\ storage (fo_block o b) = Storage.unused /\
       attempted_ o' !!! b = true /\ (row_virgin (view (dev o)) b -> row_written (view (dev o')) b r)).
Proof.
  intros Ho Hh Hb Hl Hr. unfold Program.
  destruct (Inspect_spec o b no_block Ho Hh Hb) as (o1 & -> & Hread).
  rewrite st_eqb_refl. cbn [negb].
  pose proof (touches_read b o o1 Ho Hread) as Ht1.
  destruct (fo_read_ok o o1 Ho Hread) as [Ho1 _].
  assert (Hh1 : fo_healthy o1) by (by destruct Hread as (d & -> & _)).
  assert (Hv1 : view (dev o1) = view (dev o)) by (by destruct Hread as (d & -> & _ & ? & _)).
  case_bool_decide as Hun; cbn [negb orb]; [|by eexists _, o1].
  destruct (locked (fo_block o b)); [by eexists _, o1|].
  change 0 with (Z.of_nat 0 * 16).
  destruct (Write_words o1 b 0 (Marker kClaim b 1 [])) as (res & o2 & -> & Ht2 & Hok2 & Hoth2 & _ & Hatt2);
    [done|done|done|lia|apply length_Marker|apply Marker_bytes|].
  assert (Ht12 : touches b o o2) by (by eapply touches_trans).
  destruct (pr_status res =s? Status.ok) eqn:Hst; cbn [negb].
  2: { exists res, o2. split_and!; try done. intros E. by rewrite E in Hst. }
  apply st_eqb_eq in Hst. destruct (Hok2 Hst) as (Hh2 & Ha2 & Hw2). fold (body_of r).
  assert (Hatt : attempted_ o2 !!! b = true).
  { rewrite Ha2 in Hatt2. rewrite Hatt2, list_lookup_total_alt, list_lookup_insert_eq; [done|].
    destruct Ho1 as (_ & -> & _). done. }
  destruct (write_body_spec b (body_of r) (seq 0 4) o2) as (rb & o3 & -> & Ht3 & Hns & Hok3 & Hoth3);
    [by destruct Ht2|done|done|by unfold body_of; rewrite !length_insert|by apply body_of_bytes| |apply NoDup_seq|].
  { apply Forall_forall. intros w Hw. apply elem_of_seq in Hw. lia. }
  assert (Ht13 : touches b o o3) by (by eapply touches_trans).
  destruct rb as [st|].
  { exists (mkProgramResult st true), o3. split_and!; try done. cbn. intros ->. by destruct Hns. }
  destruct (Hok3 eq_refl) as (Hh3 & Ha3 & Hw3).
  change (Z.of_nat kCommitOffset) with (Z.of_nat 5 * 16).
  destruct (Write_words o3 b 5 (Marker kCommit b (record_type r) (body_of r)))
    as (res4 & o4 & -> & Ht4 & Hok4 & Hoth4 & _ & Hatt4);
    [by destruct Ht3|done|done|lia|apply length_Marker|apply Marker_bytes|].
  exists (mkProgramResult (pr_status res4) true), o4. split_and!; [done|by eapply touches_trans|].
  cbn [pr_status]. intros Hst4. destruct (Hok4 Hst4) as (Hh4 & Ha4 & Hw4). split_and!; try done.
  { rewrite Ha4 in Hatt4. rewrite Hatt4, list_lookup_total_alt, list_lookup_insert_eq; [done|].
    destruct (touches_ok _ _ _ Ht3) as (_ & -> & _). done. }
  intros Hvir. assert (Hseq : forall w, w ∈ seq 0 4 -> (w < 4)%nat) by (intros w Hw; apply elem_of_seq in Hw; lia).
  assert (H2 : forall i, (0 < i < 16)%nat -> word_at (view (dev o2)) b i = Some ff16).
  { intros i Hi. rewrite Hoth2 by lia. rewrite Hv1. apply Hvir. lia. }
  assert (H3 : forall i, (i = 0 \/ 5 <= i < 16)%nat -> word_at (view (dev o3)) b i = word_at (view (dev o2)) b i).
  { intros i Hi. apply Hoth3; [lia|]. intros w Hw%Hseq. lia. }
  split_and!.
  - rewrite Hoth4, H3 by lia. apply Hw2. rewrite Hv1. apply Hvir. lia.
  - intros w Hw. rewrite Hoth4 by lia. apply Hw3; [apply elem_of_seq; lia|apply H2; lia].
  - apply Hw4. rewrite H3, H2 by lia. done.
  - intros i Hi. rewrite Hoth4, H3, H2 by lia. done.
Qed.

(** ** What [Inspect] makes of a row *)

Lemma read32_image m b i w k :
  mem_ok m -> (i < 16)%nat -> word_at m b i = Some w -> (k + 4 <= 16)%nat ->
  read32 (image_of m b) (i * 16 + k) = read32 w k.
Proof.
  intros Hm Hi Hw Hk. pose proof (length_word _ _ _ _ Hw) as Hl.
  pose proof (image_word m b i w Hi Hw) as Hs.
  unfold read32. cbn [seq foldl]. rewrite !list_lookup_total_alt.
  assert (Hx : forall j, (j < 16)%nat -> image_of m b !! (i * 16 + j)%nat = w !! j).
  { intros j Hj. rewrite <- Hs. by rewrite lookup_sub. }
  rewrite <- !Nat.add_assoc, !Hx by lia. done.
Qed.

Lemma read32_Marker_tag kind b tag body : is_u32 tag -> read32 (Marker kind b tag body) 8 = tag.
Proof.
  intros Ht. unfold Marker. rewrite !write32_blit, read32_blit_other by (rewrite ?length_le_bytes; lia).
  rewrite read32_blit_same; [done|rewrite !length_blit, length_replicate; lia|done].
Qed.

Lemma read32_Marker_kind kind b tag body : is_u32 kind -> read32 (Marker kind b tag body) 0 = kind.
Proof.
  intros Ht. unfold Marker. rewrite !write32_blit, !read32_blit_other by (rewrite ?length_le_bytes; lia).
  rewrite read32_blit_same; [done|rewrite length_replicate; lia|done].
Qed.

Lemma ff16_no_marker b tag : Matches ff16 (Marker kLock b tag []) = false.
Proof.
  unfold Matches. apply bool_decide_eq_false. intros Heq.
  pose proof (read32_Marker_kind kLock b tag [] ltac:(by vm_compute)) as Hk. rewrite <- Heq in Hk. by vm_compute in Hk.
Qed.

Lemma record_type_bytes r :
  length r = kRecordSize -> bytes_ok r ->
  record_type r = r !!! 0%nat + r !!! 1%nat * 256 /\ 0 <= r !!! 0%nat < 256 /\ 0 <= r !!! 1%nat < 256.
Proof.
  intros Hl Hr. pose proof (lookup_total_byte r 0 Hr). pose proof (lookup_total_byte r 1 Hr).
  unfold record_type, Read16. rewrite lor_shift by lia. split_and!; try lia.
  unfold u16. apply Z.mod_small. lia.
Qed.

(** Restoring the type gives the record back. *)
Lemma restore_type r :
  length r = kRecordSize -> bytes_ok r ->
  <[1%nat := u8 (Z.shiftr (record_type r) 8)]> (<[0%nat := Z.land (record_type r) 0xff]> (body_of r)) = r.
Proof.
  intros Hl Hr. destruct (record_type_bytes r Hl Hr) as (-> & H0 & H1).
  rewrite land_ff, Z.shiftr_div_pow2 by lia. change (2 ^ 8) with 256.
  rewrite Z_mod_plus_full, Z.mod_small, Z.div_add, Z.div_small by lia.
  rewrite u8_small by (unfold is_byte; lia). unfold body_of.
  destruct r as [|x [|y r]]; [done..|]. done.
Qed.

Lemma blit_whole (k l : list Z) : length k = length l -> blit 0 k l = k.
Proof.
  intros Hl. apply list_eq. intros j. destruct (decide (j < length l)%nat).
  - rewrite lookup_blit_in by lia. f_equal. lia.
  - rewrite !lookup_ge_None_2; [done|lia|rewrite length_blit; lia].
Qed.

(** A row that [Program] completed holds the record, not yet locked. *)
Lemma row_written_block m b r :
  mem_ok m -> length r = kRecordSize -> bytes_ok r -> record_type r <> Type_unwritten -> row_written m b r ->
  block_of m true b = mkBlock r Storage.consumed false.
Proof.
  intros Hm Hl Hr Htype (H0 & Hbody & H5 & Hrest). unfold block_of, inspect_image. cbn [negb andb record].
  destruct (record_type_bytes r Hl Hr) as (Hte & Hb0 & Hb1).
  assert (Hbad : forall i, (i < 16)%nat -> bad_of m b !! i = Some false).
  { intros i Hi. rewrite lookup_bad_of by done. f_equal. apply bool_decide_eq_false. intros Hn.
    destruct (decide (i = 0)%nat) as [->|]; [by rewrite H0 in Hn|].
    destruct (decide (i = 5)%nat) as [->|]; [by rewrite H5 in Hn|].
    destruct (decide (i < 5)%nat); [|rewrite Hrest in Hn by lia; done].
    destruct i as [|w]; [done|]. rewrite Hbody in Hn by lia. done. }
  assert (H6 : existsb id (take 6 (bad_of m b)) = false).
  { apply not_true_is_false. intros (x & Hx & Hid)%existsb_exists.
    apply list_elem_of_In, list_elem_of_lookup in Hx as [i Hi]. rewrite lookup_take in Hi. case_decide; [|done].
    rewrite Hbad in Hi by lia. injection Hi as <-. done. }
  rewrite H6.
  assert (Hlb : length (body_of r) = 64%nat) by (unfold body_of; by rewrite !length_insert).
  assert (Hb : sub (image_of m b) kBodyOffset kRecordSize = body_of r).
  { rewrite <- (sub_full (body_of r)), Hlb. unfold kBodyOffset, kRecordSize.
    apply list_eq. intros j. destruct (decide (j < 64)%nat) as [Hj|]; [|by rewrite !lookup_sub_ge by lia].
    pose proof (Nat.div_mod_eq j 16) as Hjd. pose proof (Nat.mod_upper_bound j 16 ltac:(lia)) as Hjm.
    assert (Hw4 : (j / 16 < 4)%nat) by lia.
    pose proof (image_word m b (S (j / 16)) _ ltac:(lia) (Hbody (j / 16)%nat Hw4)) as Hs.
    apply (f_equal (fun l => l !! (j mod 16)%nat)) in Hs. rewrite !lookup_sub in Hs by lia.
    rewrite !lookup_sub by lia.
    replace (16 + j)%nat with (S (j / 16) * 16 + j mod 16)%nat by lia. rewrite Hs. f_equal. lia. }
  assert (Ht16 : is_u32 (record_type r)) by (unfold is_u32; lia).
  assert (Htag : read32 (image_of m b) (kCommitOffset + 8) = record_type r).
  { change (kCommitOffset + 8)%nat with (5 * 16 + 8)%nat. rewrite (read32_image m b 5 _ 8 Hm) by (try done; lia).
    by apply read32_Marker_tag. }
  rewrite Htag, Hb. change (take 16 (image_of m b)) with (sub (image_of m b) (0 * 16) 16).
  rewrite (image_word m b 0 _ ltac:(lia) H0). change (sub (image_of m b) kCommitOffset 16) with (sub (image_of m b) (5 * 16) 16).
  rewrite (image_word m b 5 _ ltac:(lia) H5). unfold Matches at 1 2. rewrite !bool_decide_eq_true_2 by done. cbn [negb orb].
  unfold Type_unwritten in Htype. destruct (Z.geb_spec (record_type r) 0xffff); [lia|].
  rewrite blit_whole, restore_type by (try done; rewrite Hlb; done). f_equal.
  apply not_true_is_false. intros (i & Hi & Hm')%existsb_exists. apply in_seq in Hi.
  rewrite (image_word m b i ff16), ff16_no_marker, andb_false_r in Hm' by (try apply Hrest; lia). done.
Qed.

(** Virgin rows are exactly what an unattempted row reads as unused. *)
Lemma unused_virgin m att b :
  storage (block_of m att b) = Storage.unused -> att = false /\ row_virgin m b /\ block_of m att b = virgin.
Proof.
  unfold block_of, inspect_image. destruct att; cbn [negb andb].
  { destruct (existsb id (take 6 _)); [done|]. by destruct (negb _ || _ || _). }
  destruct (Erased (image_of m b)) eqn:He; cbn [andb].
  2: { destruct (existsb id (take 6 _)); [done|]. by destruct (negb _ || _ || _). }
  destruct (existsb id (bad_of m b)) eqn:Hb; cbn [negb].
  { destruct (existsb id (take 6 _)); [done|]. by destruct (negb _ || _ || _). }
  intros _. split_and!; [done| |done]. intros i Hi.
  destruct (word_at m b i) as [w|] eqn:Hw.
  - pose proof (image_word m b i w Hi Hw) as Hs. f_equal. rewrite <- Hs.
    apply all_eq_replicate in He. rewrite He. apply list_eq. intros j.
    destruct (decide (j < 16)%nat) as [Hj|]; [|rewrite lookup_sub_ge by lia; symmetry; apply lookup_ge_None; unfold ff16; rewrite length_replicate; lia].
    rewrite lookup_sub by done. rewrite length_image_of. unfold ff16. rewrite !lookup_replicate_2 by lia. done.
  - assert (existsb id (bad_of m b) = true); [|congruence]. apply existsb_exists. exists true. split; [|done].
    apply list_elem_of_In, (list_elem_of_lookup_2 _ i). rewrite lookup_bad_of by done. by rewrite bool_decide_true.
Qed.

(** ** Locking *)

(** Storage and record of a consumed row depend on its first six words only. *)
Lemma inspect_head att b image image' bad bad' :
  length image = 256%nat -> length image' = 256%nat ->
  sub image 0 96 = sub image' 0 96 -> take 6 bad' = take 6 bad ->
  storage (inspect_image att b image bad) = Storage.consumed ->
  storage (inspect_image true b image' bad') = Storage.consumed /\
  record (inspect_image true b image' bad') = record (inspect_image att b image bad).
Proof.
  intros Hl Hl' Hhead Hbad. unfold inspect_image. rewrite Hbad. cbn [negb andb].
  assert (Hsub : forall i n, (i + n <= 96)%nat -> sub image i n = sub image' i n).
  { intros i n Hin. pose proof (sub_sub image 0 96 i n Hin) as E1. pose proof (sub_sub image' 0 96 i n Hin) as E2.
    simpl in E1, E2. congruence. }
  change (take 16 image) with (sub image 0 16). change (take 16 image') with (sub image' 0 16).
  unfold kCommitOffset, kBodyOffset, kRecordSize in *.
  rewrite (read32_ext image image' (80 + 8)).
  2: { intros j Hj. apply (f_equal (fun l => l !! j)) in Hhead. by rewrite !lookup_sub in Hhead by lia. }
  rewrite !(Hsub 0%nat 16%nat), !(Hsub 80%nat 16%nat), !(Hsub 16%nat 64%nat) by lia.
  destruct (negb att && Erased image && _); [done|]. destruct (existsb id (take 6 bad)); [done|].
  by destruct (negb _ || _ || _).
Qed.

Lemma block_of_head m m' att b :
  storage (block_of m att b) = Storage.consumed ->
  (forall i, (i < 6)%nat -> word_at m' b i = word_at m b i) ->
  storage (block_of m' true b) = Storage.consumed /\ record (block_of m' true b) = record (block_of m att b).
Proof.
  intros Hs Hw. apply inspect_head; try done; try apply length_image_of.
  - apply (words_agree _ _ 0 6). intros i Hi. rewrite !image_word_default, Hw by lia. done.
  - unfold bad_of. cbn [seq map firstn]. by rewrite !Hw by lia.
Qed.

(** The next lock cell is one of the ten. *)
Lemma lock_cell_range (p : nat -> bool) (ns : list nat) : forall next,
  6 <= next <= 16 -> Forall (fun i => 6 <= i < 16)%nat ns ->
  6 <= foldl (fun next i => if p i then Z.of_nat i + 1 else next) next ns <= 16.
Proof.
  induction ns as [|i ns IH]; intros next Hn Hns; cbn [foldl]; [done|].
  apply Forall_cons in Hns as [Hi Hns]. apply IH; [|done]. destruct (p i); lia.
Qed.

Lemma Lock_spec o b :
  fo_ok o -> fo_healthy o -> (b < kBlockCount)%nat ->
  exists st o', Lock F base_ b o = (st, o') /\ touches b o o' /\ (st = Status.ok -> fo_healthy o') /\
    record (fo_block o' b) = record (fo_block o b) /\ storage (fo_block o' b) = storage (fo_block o b).
Proof.
  intros Ho Hh Hb. unfold Lock.
  destruct (Inspect_spec o b no_block Ho Hh Hb) as (o1 & -> & Hr1).
  pose proof (touches_read b o o1 Ho Hr1) as Ht1. destruct (fo_read_ok o o1 Ho Hr1) as [Ho1 Hb1].
  assert (Hh1 : fo_healthy o1) by (by destruct Hr1 as (d & -> & _)).
  rewrite st_eqb_refl. cbn [negb orb].
  destruct (locked (fo_block o b)). { exists Status.ok, o1. rewrite !Hb1. done. }
  case_bool_decide as Hst; cbn [negb orb]; [|exists Status.rejected, o1; by rewrite !Hb1].
  destruct (record_valid no_backend _); cbn [negb]; [|exists Status.rejected, o1; by rewrite !Hb1].
  destruct (Load_spec o1 b no_words Ho1 Hh1 Hb) as (image & bad & o2 & -> & Hr2 & Hld).
  pose proof (touches_read b o1 o2 Ho1 Hr2) as Ht2. destruct (fo_read_ok o1 o2 Ho1 Hr2) as [Ho2 Hb2].
  assert (Hh2 : fo_healthy o2) by (by destruct Hr2 as (d & -> & _)).
  rewrite st_eqb_refl. cbn [negb].
  assert (Hcell : 6 <= foldl (fun next i => if (bad !!! i) || negb (Erased (sub image (i * 16) 16)) then Z.of_nat i + 1 else next)
                    6 (seq 6 10) <= 16).
  { apply (lock_cell_range (fun i => (bad !!! i) || negb (Erased (sub image (i * 16) 16)))); [lia|].
    apply Forall_forall. intros i Hi. apply elem_of_seq in Hi. lia. }
  set (next := Z.max _ (lock_next_ o2 !!! b)).
  assert (Hnext : 6 <= next <= 16).
  { pose proof Ho2 as (_ & _ & Hll & Hln & _).
    assert (Hln' : 0 <= lock_next_ o2 !!! b <= 16); [|unfold next; lia].
    destruct (lookup_lt_is_Some_2 (lock_next_ o2) b) as [x Hx]; [by rewrite Hll|].
    rewrite (list_lookup_total_correct _ _ _ Hx). by apply (Forall_lookup_1 _ _ _ _ Hln Hx). }
  clearbody next. clear Hcell Hld image bad.
  destruct (Z.eqb_spec next 16) as [|Hne].
  { exists Status.io_error, o2. rewrite !Hb2, !Hb1. split_and!; try done. by eapply touches_trans. }
  replace (next * 16) with (Z.of_nat (Z.to_nat next) * 16) by lia.
  destruct (Write_words o2 b (Z.to_nat next) (Marker kLock b (read32 (record (fo_block o b)) 4) []))
    as (res & o3 & -> & Ht3 & Hok3 & Hoth3 & Hln3 & Hatt3);
    [done|done|done|lia|apply length_Marker|apply Marker_bytes|].
  set (o4 := if attempted res then _ else _).
  assert (H4 : dev o4 = dev o3 /\ attempted_ o4 = attempted_ o3 /\ fo_initialized_ o4 = fo_initialized_ o3 /\
               timed_out_ o4 = timed_out_ o3) by (unfold o4; by destruct (attempted res)).
  destruct H4 as (Hd4 & Ha4 & Hi4 & Hto4).
  assert (Ho4 : fo_ok o4).
  { destruct (touches_ok _ _ _ Ht3) as (? & ? & Hl3 & Hf3 & ?).
    unfold fo_ok. rewrite Hd4, Ha4, Hto4. split_and!; try done; unfold o4; destruct (attempted res); try done;
      cbn [lock_next_ field_update]; [by rewrite length_insert|]. apply Forall_insert; [done|].
    rewrite u8_small; unfold is_byte; lia. }
  assert (Ht4 : touches b o o4).
  { eapply touches_trans; [exact Ht1|]. eapply touches_trans; [exact Ht2|]. destruct Ht3 as [_ Hi3 Hout3 Hat3].
    split; [done|by rewrite Hi4|rewrite Hd4; exact Hout3|rewrite Ha4; exact Hat3]. }
  exists (pr_status res), o4. split_and!; [done|done| | |].
  - intros Hs. destruct (Hok3 Hs) as ([? ?] & _). split; congruence.
  - rewrite <- Hb1, <- Hb2. rewrite <- Hb1, <- Hb2 in Hst. unfold fo_block in *. rewrite Hd4, Ha4.
    destruct (attempted res).
    + rewrite Hatt3. rewrite (list_lookup_total_correct _ _ true); [|apply list_lookup_insert_eq; by destruct Ho2 as (_ & -> & _)].
      apply (block_of_head (view (dev o2))); [done|]. intros i Hi. apply Hoth3; lia.
    + destruct Hatt3 as [-> ->]. done.
  - rewrite <- Hb1, <- Hb2. rewrite <- Hb1, <- Hb2 in Hst. unfold fo_block in *. rewrite Hd4, Ha4, Hst.
    destruct (attempted res).
    + rewrite Hatt3. rewrite (list_lookup_total_correct _ _ true); [|apply list_lookup_insert_eq; by destruct Ho2 as (_ & -> & _)].
      apply (block_of_head (view (dev o2)) _ (attempted_ o2 !!! b)); [done|]. intros i Hi. apply Hoth3; lia.
    + destruct Hatt3 as [-> ->]. done.
Qed.

(** ** The driver contract *)

Lemma block_of_attempted m b :
  block_of m false b = block_of m true b \/
  (record (block_of m true b) = erased_record /\ block_of m false b = virgin).
Proof.
  unfold block_of, inspect_image. cbn [negb andb].
  destruct (Erased (image_of m b) && negb (existsb id (bad_of m b))) eqn:Hc; [right|by left].
  apply andb_true_iff in Hc as [He _]. split; [|done]. destruct (existsb id (take 6 _)); [done|].
  assert (Ht : (read32 (image_of m b) (kCommitOffset + 8) >=? 0xffff) = true).
  { apply all_eq_replicate in He. rewrite He, length_image_of. by vm_compute. }
  rewrite Ht, orb_true_r. done.
Qed.

Lemma Init_spec o :
  fo_ok o -> fo_healthy o -> exists o', Init F base_ (new_flash_otp (dev o)) = (Status.ok, o') /\
    fo_ok o' /\ fo_healthy o' /\ forall i, fo_block o' i = fo_block (new_flash_otp (dev o)) i.
Proof.
  intros (Hd & _ & _ & _ & Hf) [_ Ht]. unfold Init. cbn [fo_initialized_ new_flash_otp].
  rewrite Hflash, Halign. cbn [negb orb Z.eqb]. destruct (Z.gtb_spec base_ (UINT32_MAX - kSize)); [lia|].
  eexists. split; [reflexivity|]. split; [|done]. split_and!; [done|done|done| |intros _; by apply Hf].
  cbn [lock_next_ field_update]. apply Forall_replicate. lia.
Qed.

Instance FlashOtp_laws : DriverLaws (driver F base_).
Proof.
  refine {| dok := fo_ok; healthy := fo_healthy; block_at := fo_block; reboot o := new_flash_otp (dev o) |}.
  - done.
  - intros o Ho Hh. destruct (Init_spec o Ho Hh) as (o' & ? & ? & ? & ?). exists o'. by split_and!.
  - intros o i Ho Hh Hi. unfold fo_block. cbn [dev new_flash_otp attempted_].
    rewrite (list_lookup_total_correct _ _ false) by by apply lookup_replicate_2.
    destruct (attempted_ o !!! i); [|by left]. apply block_of_attempted.
  - intros o i b Ho Hh Hi. destruct (Inspect_spec o i b Ho Hh Hi) as (o' & Hin & Hr). exists o'. split; [exact Hin|].
    destruct (fo_read_ok o o' Ho Hr) as [? Hb]. split_and!; try done. by destruct Hr as (d & -> & _).
  - intros o i r Ho Hh Hi Hl Hr. destruct (fo_Program_spec o i r Ho Hh Hi Hl Hr) as (res & o' & Hp & Ht & Hok).
    exists res, o'. split; [exact Hp|]. split; [by destruct Ht|]. split; [intros; by apply Hok|].
    intros j Hj Hne. by apply (touches_other i).
  - intros o i Ho Hh Hi. destruct (Lock_spec o i Ho Hh Hi) as (st & o' & Hl & Ht & Hok & Hrec & Hsto).
    exists st, o'. split; [exact Hl|]. split; [by destruct Ht|]. split; [done|]. split; [|done].
    intros j Hj Hne. by apply (touches_other i).
Defined.

(** The flash emulator writes rows once and reads back what it wrote.  If
    [Program] reports [ok], the row was unused before, [Inspect] then reports the
    very record, consumed and not yet locked, and every other row is exactly as
    it was; on any other result the other rows are untouched as well. *)
Theorem otp_program_roundtrip o b r :
  fo_ok o -> fo_healthy o -> (b < kBlockCount)%nat -> length r = kRecordSize -> bytes_ok r ->
  record_type r <> Type_unwritten ->
  let '(res, o') := Program F base_ b r o in
  (forall j, (j < kBlockCount)%nat -> j <> b -> fo_block o' j = fo_block o j) /\
  (pr_status res = Status.ok ->
   storage (fo_block o b) = Storage.unused /\ fo_block o' b = mkBlock r Storage.consumed false /\
   exists o'', Inspect F base_ b no_block o' = (Status.ok, mkBlock r Storage.consumed false, o'')).
Proof.
  intros Ho Hh Hb Hl Hr Hty.
  destruct (fo_Program_spec o b r Ho Hh Hb Hl Hr) as (res & o' & -> & Ht & Hok). split.
  { intros j Hj Hne. by apply (touches_other b). }
  intros Hs. destruct (Hok Hs) as (Hh' & Hun & Hatt & Hrow).
  destruct (unused_virgin _ _ _ Hun) as (_ & Hvir & _).
  pose proof (touches_ok _ _ _ Ht) as Ho'.
  assert (Hblk : fo_block o' b = mkBlock r Storage.consumed false).
  { unfold fo_block. rewrite Hatt. apply row_written_block; try done; [|by apply Hrow].
    apply view_ok. by destruct Ho'. }
  split_and!; [done|done|].
  destruct (Inspect_spec o' b no_block Ho' Hh' Hb) as (o'' & Hin & _). rewrite Hblk in Hin. by exists o''.
Qed.
End laws.
