(* ===== verification/OtpExample.v ===== *)
(** * The OTP store on the flash emulator on a file-backed device

    All layers together: the store over [FlashOtp] over [FileFlash], on a blank
    8 KiB sector.  Its evaluation instantiates the theorems of OtpStore.v and
    OtpFlashProof.v. *)

From S2P Require Import Prelude Foundation Wire StateMachine Flash HostFlash Otp OtpStore OtpFlash OtpFlashProof.

Definition otp_geometry : Geometry := mkGeometry 0 8192 8192 16.
Definition otp_clock (n : nat) : Time := 10 * Z.of_nat n.
Definition otp_device : FileFlash :=
  mkFileFlash (Some (replicate (N.to_nat 8192) byte_ff)) otp_geometry (initial_machine HostState.idle) op_erase
    false false 0 (replicate 32 0) [Eintr; Transfer 3] [Transfer 5; Eintr] [] 0.

Abbreviation otp_flash := (HostFlash.driver otp_clock).
#[local] Instance otp_contract : FlashContract otp_flash 8192 16 := FileFlash_contract otp_clock 8192 16 otp_geometry.

(** No cell of the file is unreadable. *)
#[local] Instance otp_ecc : FlashEcc otp_flash.
Proof.
  intros d a buf Hd Hf Hcov Hn. exfalso.
  destruct (read_spec d a buf Hd Hf Hcov) as (st & bs & d' & Hr & _ & _ & _ & _ & Hst). rewrite Hn in Hst.
  cbn [dev_ok otp_contract FileFlash_contract] in *. cbn [flight otp_contract FileFlash_contract] in Hf.
  unfold host_flight in Hf. destruct (host_requested_ d) eqn:Er; [done|].
  cbn [covers otp_contract FileFlash_contract] in Hcov. rewrite <- (ho_is _ _ _ d (proj1 Hd)) in Hcov.
  destruct (Read_spec 8192 16 otp_geometry d a buf Hd Er Hcov) as (_ & _ & _ & [out Hm]).
  change (mem_read (host_view d) a (length buf) = None) in Hn. congruence.
Qed.

Lemma otp_cover b i :
  (b < kBlockCount)%nat -> (i < 16)%nat -> covers (0 + Z.of_nat b * kSlotSize + Z.of_nat i * 16) 16.
Proof. unfold kBlockCount, kSlotSize. intros. cbn. unfold in_geometry. cbn. lia. Qed.

#[local] Instance otp_laws : DriverLaws (driver otp_flash 0).
Proof. refine (FlashOtp_laws otp_flash 0 8192 _ _ _ otp_cover); [done|done|by vm_compute]. Defined.

(** The emulator after its initialization. *)
Definition otp_ready : FlashOtp FileFlash := (Init otp_flash 0 (new_flash_otp otp_device)).2.

Lemma otp_ready_fo : fo_ok otp_flash 8192 otp_ready.
Proof.
  assert (Hd : host_ok 8192 16 otp_geometry otp_device).
  { apply (host_idle_ok_spec otp_geometry); vm_compute; reflexivity. }
  split; [exact Hd|]. split_and!; try (vm_compute; reflexivity).
  apply Forall_replicate. lia.
Qed.
Lemma otp_ready_fo_healthy : fo_healthy otp_ready.
Proof. split; vm_compute; reflexivity. Qed.
Lemma otp_ready_ok : dok otp_ready.
Proof. exact otp_ready_fo. Qed.
Lemma otp_ready_healthy : healthy otp_ready.
Proof. exact otp_ready_fo_healthy. Qed.

Definition otp_serial : list Z := [83; 78; 45; 49].
Definition otp_init := init (driver otp_flash 0) no_backend new_store (reboot otp_ready).
Abbreviation otp_set := (set_serial (driver otp_flash 0) no_backend otp_serial (fst otp_init).2 otp_init.2).

Lemma status_ok_eq {A B} (x : Status * A * B) : (fst x).1 = Status.ok -> x = (Status.ok, (fst x).2, x.2).
Proof. destruct x as [[? ?] ?]. by intros [= ->]. Qed.

Lemma otp_init_synced : synced (driver otp_flash 0) no_backend (fst otp_init).2 otp_init.2.
Proof.
  destruct (init_synced (driver otp_flash 0) no_backend otp_ready otp_ready_ok otp_ready_healthy)
    as (st & d' & Heq & Hsy & _).
  unfold otp_init. rewrite Heq. exact Hsy.
Qed.

Lemma set_serial_is_durable_witness :
  otp_set = (Status.ok, (fst otp_set).2, otp_set.2) /\ serial (fst otp_set).2 = Some otp_serial /\
  exists index, locked (block_at otp_set.2 index) = true /\ payload (record (block_at otp_set.2 index)) = otp_serial /\
    exists st2 d2, init (driver otp_flash 0) no_backend new_store (reboot otp_set.2) = (Status.ok, st2, d2) /\
      serial st2 = Some otp_serial.
Proof.
  assert (Hok : (fst otp_set).1 = Status.ok) by (vm_compute; reflexivity).
  pose proof (status_ok_eq _ Hok) as Heq.
  destruct (set_serial_is_durable (driver otp_flash 0) no_backend (fst otp_init).2 otp_init.2 otp_serial
    (fst otp_set).2 otp_set.2 no_backend_faithful otp_init_synced Heq) as (index & _ & Hl & _ & Hp & Hs & _ & st2 & d2 & Hi & Hs2 & _).
  split; [exact Heq|]. split; [exact Hs|]. exists index. split; [exact Hl|]. split; [exact Hp|]. exists st2, d2. exact (conj Hi Hs2).
Defined.

Definition otp_record : OtpRecord := serial_record no_backend otp_serial.
Abbreviation otp_programmed := (Program otp_flash 0 5 otp_record otp_ready).

Lemma otp_record_length : length otp_record = kRecordSize.
Proof. vm_compute. reflexivity. Qed.
Lemma otp_record_bytes : bytes_ok otp_record.
Proof. apply serial_record_bytes. Qed.
Lemma otp_record_type : record_type otp_record <> Type_unwritten.
Proof. vm_compute. discriminate. Qed.
Lemma otp_range : 0 <= 0 <= UINT32_MAX - kSize.
Proof. vm_compute. by split. Qed.

Lemma otp_program_roundtrip_witness :
  pr_status otp_programmed.1 = Status.ok /\
  fo_block otp_flash 0 8192 otp_programmed.2 5 = mkBlock otp_record Storage.consumed false.
Proof.
  assert (Hok : pr_status otp_programmed.1 = Status.ok) by (vm_compute; reflexivity).
  assert (H5 : (5 < kBlockCount)%nat) by (unfold kBlockCount; lia).
  pose proof (otp_program_roundtrip otp_flash 0 8192 otp_range otp_cover otp_ready 5 otp_record
    otp_ready_fo otp_ready_fo_healthy H5 otp_record_length otp_record_bytes otp_record_type) as H.
  destruct otp_programmed as [res o']. cbn [fst snd] in *.
  split; [exact Hok|]. exact (proj1 (proj2 (proj2 H Hok))).
Defined.
