(* ===== verification/Package.v ===== *)
(** * Update packages (src/lib/update/package.h, package.cpp)

    The 128-byte package header and the stream parser that turns package bytes,
    in chunks of any size, into blocks of the image, relocated for the slot they
    are written to. *)

From S2P Require Import Prelude Foundation Wire StateMachine Flash Codec.

Definition kHeaderSize : nat := 128.
Definition kBlockSize : nat := 1024.
Definition kMaxPatches : nat := 256.

Record Header := mkHeader {
  h_product : Z; h_revision : Z; h_image_size : Z;
  addresses : Z * Z; h_crc : Z * Z;
  encoding : Z; package_size : Z;
  h_version : Version
}.
Definition no_header : Header := mkHeader 0 0 0 (0, 0) (0, 0) 0 0 no_version.

(** ** The header *)

Definition header_result (bytes : list Z) : Header :=
  mkHeader (read32 bytes 12) (read32 bytes 16) (read32 bytes 20)
    (read32 bytes 24, read32 bytes 28) (read32 bytes 32, read32 bytes 36)
    (read32 bytes 40) (read32 bytes 104)
    (mkVersion (read32 bytes 48) (read32 bytes 52) (read32 bytes 56)
       (<[40%nat := 0]> (sub bytes 60 41)) (negb (bytes !!! 101%nat =? 0))).

Definition blocks_of (image_size : Z) : Z := (image_size + Z.of_nat kBlockSize - 1) / Z.of_nat kBlockSize.
Definition minimum_size (image_size : Z) : Z := Z.of_nat kHeaderSize + blocks_of image_size * 12 + image_size.

Definition decode_header (bytes : list Z) (layout : Layout) (destination : Z) (header : Header) : Status * Header :=
  if negb (length bytes =? kHeaderSize)%nat || negb (Layout_valid layout) || (destination >=? 2)
  then (Status.invalid_argument, header)
  else if negb (read32 bytes 0 =? 0x50534f44) || negb (read32 bytes 4 =? 1) ||
          negb (read32 bytes 8 =? Z.of_nat kHeaderSize) || negb (read32 bytes 44 =? Z.of_nat kBlockSize) ||
          negb (read32 bytes 108 =? 0)
  then (Status.incompatible, header)
  else if negb (read32 bytes 124 =? crc32_calculate (take 124 bytes))
  then (Status.checksum_error, header)
  else
    let result := header_result bytes in
    let blocks := blocks_of (h_image_size result) in
    let minimum := minimum_size (h_image_size result) in
    if (h_image_size result =? 0) || (h_image_size result >? slot_size layout) ||
       negb (h_product result =? product layout) || negb (h_revision result =? revision layout) ||
       negb (bool_decide (addresses result = slots layout)) || (encoding result >? 2) ||
       (negb (encoding result =? 0) && negb (encoding result =? u32 (destination + 1))) ||
       (package_size result <? minimum) ||
       (package_size result >? minimum + blocks * Z.of_nat kMaxPatches * 2)
    then (Status.incompatible, header)
    else (Status.ok, result).

(** ** The reader *)

Module ReaderState.
Inductive State : Set := idle | header | patches | data | ready | done | failed.
End ReaderState.
#[global] Instance ReaderState_eq_dec : EqDecision ReaderState.State.
Proof. solve_decision. Defined.
#[export] Instance ReaderState_enum : StateEnum ReaderState.State := {|
  state_index (s : ReaderState.State) := match s with
    | ReaderState.idle => 0 | ReaderState.header => 1 | ReaderState.patches => 2 | ReaderState.data => 3
    | ReaderState.ready => 4 | ReaderState.done => 5 | ReaderState.failed => 6
    end%nat;
  state_count := 7%nat
|}.

Record PackageReader := mkReader {
  header_ : Header;
  block_header_ : list Z;
  patches_ : list Z;
  data_ : list Z;
  machine_ : Machine ReaderState.State;
  status_ : Status;
  destination_ : Z; offset_ : Z; length_ : Z; patch_count_ : Z;
  filled_ : nat;
  start_requested_ : bool; release_requested_ : bool
}.
#[export] Instance PackageReader_eta : RecordEta PackageReader := fun r =>
  mkReader (header_ r) (block_header_ r) (patches_ r) (data_ r) (machine_ r) (status_ r) (destination_ r)
    (offset_ r) (length_ r) (patch_count_ r) (filled_ r) (start_requested_ r) (release_requested_ r).

Definition new_reader : PackageReader :=
  mkReader no_header (replicate 12 0) (replicate (kMaxPatches * 2) 0) (replicate kBlockSize 0)
    (initial_machine ReaderState.idle) Status.ok 0 0 0 0 0 false false.

(** A tick sees the reader and the [consumed] result. *)
#[export] Instance Reader_machine : HasMachine (PackageReader * nat) ReaderState.State := {|
  machine w := machine_ (fst w);
  with_machine m w := ((fst w) <| machine_ := m |>, snd w)
|}.
#[export] Instance Reader_machine_laws : HasMachineLaws (PackageReader * nat) ReaderState.State.
Proof. split; [done|done|by intros [[] ?]]. Qed.

Definition state (r : PackageReader) : ReaderState.State := cs (machine_ r).
Definition block (r : PackageReader) : list Z := take (Z.to_nat (length_ r)) (data_ r).

Definition start (header : Header) (destination : Z) (r : PackageReader) : PackageReader :=
  r <| header_ := header |> <| destination_ := destination |> <| start_requested_ := true |>.
Definition release (r : PackageReader) : PackageReader := r <| release_requested_ := true |>.

(** [Copy] into the first [size] bytes of [output]: the count and the buffer. *)
Definition Copy (input output : list Z) (size : Z) (filled : nat) : nat * list Z :=
  let count := Nat.min (length input) (Z.to_nat (u64 (size - Z.of_nat filled))) in
  (count, blit filled (take count input) output).

(** The loop of [Apply] from patch [i] on, with [n] patches to go; [None] is
    the return of [false]. *)
Fixpoint apply_patches (header : Header) (destination len : Z) (patches : list Z) (n i : nat) (previous : Z)
    (data : list Z) : bool * list Z :=
  match n with
  | O => (true, data)
  | S n =>
      let code := Z.lor (patches !!! (i * 2)%nat) (Z.shiftl (patches !!! (i * 2 + 1)%nat) 8) in
      let at_ := Z.land code 0xff * 4 in
      if negb (Z.land code 0x7f00 =? 0) || (at_ + 4 >? len) ||
         (negb (i =? 0)%nat && (at_ <=? previous)) || negb (encoding header =? 0)
      then (false, data)
      else
        let data :=
          if destination =? 1 then
            let value := read32 data (Z.to_nat at_) in
            let delta := u32 (snd (addresses header) - fst (addresses header)) in
            write32 data (Z.to_nat at_)
              (if negb (Z.land code 0x8000 =? 0) then u32 (value - delta) else u32 (value + delta))
          else data in
        apply_patches header destination len patches n (S i) at_ data
  end.

Definition Apply (r : PackageReader) : bool * PackageReader :=
  let '(ok, data) := apply_patches (header_ r) (destination_ r) (length_ r) (patches_ r)
                       (Z.to_nat (patch_count_ r)) 0 0 (data_ r) in
  (ok, r <| data_ := data |>).

Definition Step (input : list Z) (cs : ReaderState.State) (w : PackageReader * nat)
  : ReaderState.State * (PackageReader * nat) :=
  let '(r, consumed) := w in
  if start_requested_ r then
    (ReaderState.header,
     (r <| start_requested_ := false |> <| release_requested_ := false |> <| offset_ := 0 |> <| length_ := 0 |>
        <| patch_count_ := 0 |> <| filled_ := 0%nat |> <| status_ := Status.ok |>, consumed))
  else
    match cs with
    | ReaderState.header =>
        let '(count, buffer) := Copy input (block_header_ r) 12 (filled_ r) in
        let r := r <| block_header_ := buffer |> <| filled_ := (filled_ r + count)%nat |> in
        if (filled_ r =? 12)%nat then
          let r := r <| length_ := read32 (block_header_ r) 4 |> <| patch_count_ := read32 (block_header_ r) 8 |> in
          if negb (read32 (block_header_ r) 0 =? offset_ r) || (offset_ r >=? h_image_size (header_ r)) ||
             negb (length_ r =? Z.min (Z.of_nat kBlockSize) (u32 (h_image_size (header_ r) - offset_ r))) ||
             (patch_count_ r >? Z.of_nat kMaxPatches)
          then (ReaderState.failed, (r <| status_ := Status.parse_error |>, count))
          else (if negb (patch_count_ r =? 0) then ReaderState.patches else ReaderState.data,
                (r <| filled_ := 0%nat |>, count))
        else (cs, (r, count))
    | ReaderState.patches =>
        let '(count, buffer) := Copy input (patches_ r) (patch_count_ r * 2) (filled_ r) in
        let r := r <| patches_ := buffer |> <| filled_ := (filled_ r + count)%nat |> in
        if Z.of_nat (filled_ r) =? patch_count_ r * 2
        then (ReaderState.data, (r <| filled_ := 0%nat |>, count))
        else (cs, (r, count))
    | ReaderState.data =>
        let '(count, buffer) := Copy input (data_ r) (length_ r) (filled_ r) in
        let r := r <| data_ := buffer |> <| filled_ := (filled_ r + count)%nat |> in
        if Z.of_nat (filled_ r) =? length_ r then
          let '(ok, r) := Apply r in
          if (ok : bool) then (ReaderState.ready, (r, count))
          else (ReaderState.failed, (r <| status_ := Status.parse_error |>, count))
        else (cs, (r, count))
    | ReaderState.ready =>
        if release_requested_ r then
          let r := r <| release_requested_ := false |> <| offset_ := u32 (offset_ r + length_ r) |> <| filled_ := 0%nat |> in
          (if offset_ r =? h_image_size (header_ r) then ReaderState.done else ReaderState.header, (r, consumed))
        else (cs, (r, consumed))
    | ReaderState.idle | ReaderState.done | ReaderState.failed => (cs, (r, consumed))
    end.

Definition tick (input : list Z) (r : PackageReader) : nat * PackageReader :=
  let '(r, consumed) := snd (StateMachine.tick (step_only (Step input)) (r, 0%nat)) in (consumed, r).
