(* ===== verification/PackageStream.v ===== *)
(** * What the package reader delivers

    [stream] is the encoding of an image's blocks as the packaging tool writes
    it: per block the offset, the length and the number of relocations, the
    relocations, and the bytes linked for slot 0.  However the stream is cut
    into chunks, the reader delivers the bytes linked for its destination. *)

From S2P Require Import Prelude Foundation Wire StateMachine Flash Codec Package.

(** ** The reader's tick *)

Lemma reader_oblivious input s m (w : PackageReader * nat) :
  Step input s (with_machine m w) = (fst (Step input s w), with_machine m (snd (Step input s w))).
Proof.
  destruct w as [r n]. cbn. unfold Step. cbn [start_requested_ field_update].
  destruct (start_requested_ r); [done|].
  destruct s; cbn [Copy]; unfold Apply; cbn; repeat (split_match; cbn); try done.
Qed.

(** One tick of an idle reader. *)
Definition after (input : list Z) (r : PackageReader) : ReaderState.State * PackageReader * nat :=
  let '(ns, (r1, c)) := Step input (state r) (r, 0%nat) in (ns, r1, c).

Lemma reader_tick input r :
  ticking_ (machine_ r) = false ->
  tick input r =
    let '(ns, r1, c) := after input r in (c, r1 <| machine_ := post_machine ns (machine_ r) |>).
Proof.
  intros Ht. unfold tick. rewrite (tick_oblivious _ (r, 0%nat) (reader_oblivious input) Ht).
  unfold after, state. cbn [machine Reader_machine fst]. destruct (Step _ _ _) as [ns [r1 c]]. done.
Qed.

(** ** Relocation *)

(** A relocation: the index of the word, and whether [delta] is subtracted. *)
Abbreviation Patch := (Z * bool)%type.

Definition patch_code (p : Patch) : Z := fst p + (if snd p then 0x8000 else 0).
Definition patch_bytes (p : Patch) : list Z := le_bytes 2 (patch_code p).
Definition patches_bytes (ps : list Patch) : list Z := ps ≫= patch_bytes.

Definition word_at (p : Patch) : nat := Z.to_nat (fst p * 4).
Definition moved (delta : Z) (p : Patch) (v : Z) : Z := if snd p then u32 (v - delta) else u32 (v + delta).

(** Relocations in increasing order, from word [lo] on, inside [len] bytes. *)
Fixpoint patches_ok (lo len : Z) (ps : list Patch) : Prop :=
  match ps with
  | [] => True
  | p :: ps => lo <= fst p < 256 /\ fst p * 4 + 4 <= len /\ patches_ok (fst p + 1) len ps
  end.

(** [out] is [data] with every listed word moved by [delta]. *)
Definition relocates (delta : Z) (ps : list Patch) (data out : list Z) : Prop :=
  length out = length data /\
  (forall p, p ∈ ps -> read32 out (word_at p) = moved delta p (read32 data (word_at p))) /\
  (forall i, (forall p, p ∈ ps -> (i < word_at p \/ word_at p + 4 <= i)%nat) -> out !! i = data !! i).

Lemma patches_ok_elem lo len ps p : patches_ok lo len ps -> p ∈ ps -> 
  lo <= fst p < 256 /\ fst p * 4 + 4 <= len.
Proof.
  revert lo. induction ps as [|q ps IH]; intros lo; cbn; [by intros _ ?%elem_of_nil|].
  intros (H1 & H2 & H3) [->|Hp]%elem_of_cons; [done|]. specialize (IH _ H3 Hp). lia.
Qed.

Lemma patches_ok_weaken lo len len' ps : patches_ok lo len ps -> len <= len' -> patches_ok lo len' ps.
Proof. revert lo. induction ps; intros lo; cbn; [done|]. intros (? & ? & ?) ?. split_and!; [lia..|eauto]. Qed.

Lemma relocates_unique delta ps data o1 o2 lo :
  bytes_ok o1 -> bytes_ok o2 -> 0 <= lo -> patches_ok lo (Z.of_nat (length data)) ps ->
  relocates delta ps data o1 -> relocates delta ps data o2 -> o1 = o2.
Proof.
  intros Hb1 Hb2 Hlo Hps (Hl1 & Hr1 & Hk1) (Hl2 & Hr2 & Hk2). apply list_eq. intros i.
  destruct (decide (Exists (fun p => word_at p <= i < word_at p + 4)%nat ps)) as [Hex|Hno].
  - apply Exists_exists in Hex as (p & Hp & Hi).
    pose proof (patches_ok_elem _ _ _ _ Hps Hp) as [? ?].
    assert (Hfit : (word_at p + 4 <= length data)%nat) by (unfold word_at in *; lia).
    assert (Hf1 : (word_at p + 4 <= length o1)%nat) by lia.
    assert (Hf2 : (word_at p + 4 <= length o2)%nat) by lia.
    assert (E : sub o1 (word_at p) 4 = sub o2 (word_at p) 4).
    { rewrite (proj1 (read32_le o1 _ _ Hb1 Hf1 (read32_range _ _ Hb1 Hf1)) eq_refl).
      rewrite (proj1 (read32_le o2 _ _ Hb2 Hf2 (read32_range _ _ Hb2 Hf2)) eq_refl).
      by rewrite Hr1, Hr2. }
    replace i with (word_at p + (i - word_at p))%nat by lia.
    rewrite <- (lookup_sub o1 _ 4) by lia. rewrite E. by rewrite lookup_sub by lia.
  - rewrite Hk1, Hk2; [done|..]; intros p Hp;
      destruct (decide (word_at p <= i < word_at p + 4)%nat); try lia; exfalso; apply Hno, Exists_exists; eauto.
Qed.

Lemma relocates_take delta ps data out n :
  (n <= length data)%nat -> patches_ok 0 (Z.of_nat n) ps ->
  relocates delta ps data out -> relocates delta ps (take n data) (take n out).
Proof.
  intros Hn Hps (Hl & Hr & Hk). split; [rewrite !length_take; lia|]. split.
  - intros p Hp. pose proof (patches_ok_elem _ _ _ _ Hps Hp).
    assert (Hread : forall l, read32 (take n l) (word_at p) = read32 l (word_at p)).
    { intros l. apply read32_ext. intros j Hj. apply lookup_take_lt. unfold word_at in Hj. lia. }
    rewrite !Hread. by apply Hr.
  - intros i Hi. destruct (decide (i < n)%nat).
    + rewrite !lookup_take_lt by lia. by apply Hk.
    + rewrite !lookup_take_ge by lia. done.
Qed.

Lemma relocates_none delta data out : relocates delta [] data out -> out = data.
Proof. intros (_ & _ & H). apply list_eq. intros i. apply H. by intros p ?%elem_of_nil. Qed.

Lemma patch_code_bits p :
  0 <= fst p < 256 ->
  Z.land (patch_code p) 0xff = fst p /\ Z.land (patch_code p) 0x7f00 = 0 /\
  (Z.land (patch_code p) 0x8000 =? 0) = negb (snd p).
Proof.
  destruct p as [i s]. unfold patch_code. cbn [fst snd]. intros Hi.
  destruct (Z_of_nat_complete i) as [n ->]; [lia|].
  assert (Hall : forallb (fun n => let c := Z.of_nat n + (if s then 0x8000 else 0) in
    (Z.land c 0xff =? Z.of_nat n) && (Z.land c 0x7f00 =? 0) && eqb (Z.land c 0x8000 =? 0) (negb s)) (seq 0 256) = true)
    by (destruct s; vm_compute; reflexivity).
  rewrite forallb_forall in Hall. specialize (Hall n ltac:(apply in_seq; lia)). cbn zeta in Hall.
  rewrite !andb_true_iff, !Z.eqb_eq, eqb_true_iff in Hall. tauto.
Qed.

Lemma length_patches ps : length (patches_bytes ps) = (2 * length ps)%nat.
Proof. induction ps; cbn; [done|]. unfold patches_bytes in *. rewrite IHps. lia. Qed.

(** The code the loop assembles from bytes [2i] and [2i + 1]. *)
Lemma patch_read p i buf :
  0 <= fst p < 256 -> sub buf (i * 2) 2 = patch_bytes p ->
  Z.lor (buf !!! (i * 2)%nat) (Z.shiftl (buf !!! (i * 2 + 1)%nat) 8) = patch_code p.
Proof.
  intros Hp Hs.
  assert (H0 : buf !! (i * 2)%nat = patch_bytes p !! 0%nat).
  { rewrite <- Hs, lookup_sub by lia. f_equal. lia. }
  assert (H1 : buf !! (i * 2 + 1)%nat = patch_bytes p !! 1%nat).
  { rewrite <- Hs, lookup_sub by lia. done. }
  rewrite !list_lookup_total_alt, H0, H1. cbn [patch_bytes le_bytes lookup list_lookup from_option].
  unfold default, id. cbn.
  assert (0 <= patch_code p < 2 ^ 16) by (unfold patch_code; destruct (snd p); lia).
  rewrite lor_shift by (first [lia|apply Z.mod_pos_bound; lia]).
  rewrite (Z.mod_small (_ / 256)) by (split; [apply Z.div_pos; lia|apply Z.div_lt_upper_bound; lia]).
  pose proof (Z.div_mod (patch_code p) 256). lia.
Qed.

Lemma relocates_cons delta p ps lo data data' :
  0 <= fst p -> (word_at p + 4 <= length data)%nat -> fst p + 1 <= lo -> patches_ok lo (Z.of_nat (length data)) ps ->
  relocates delta ps (write32 data (word_at p) (moved delta p (read32 data (word_at p)))) data' ->
  relocates delta (p :: ps) data data'.
Proof.
  intros Hp Hfit Hlo Hps. rewrite write32_blit. intros (Hl & Hr & Hk). rewrite length_blit in Hl.
  assert (Hlater : forall q, q ∈ ps -> (word_at p + 4 <= word_at q)%nat).
  { intros q Hq. pose proof (patches_ok_elem _ _ _ _ Hps Hq). unfold word_at. lia. }
  split; [done|]. split.
  - intros q [->|Hq]%elem_of_cons.
    + rewrite <- (read32_blit_same (word_at p) (moved delta p (read32 data (word_at p))) data)
        by (first [done|unfold moved; destruct (snd p); apply u32_range]).
      apply read32_ext. intros j Hj. apply Hk. intros q Hq. specialize (Hlater q Hq). lia.
    + rewrite Hr by done. f_equal. apply read32_blit_other. rewrite length_le_bytes.
      specialize (Hlater q Hq). lia.
  - intros i Hi. rewrite Hk; [apply lookup_blit_out; rewrite length_le_bytes|].
    + specialize (Hi p ltac:(left)). lia.
    + intros q Hq. apply Hi. by right.
Qed.

Lemma relocates_nil delta data : relocates delta [] data data.
Proof. split; [done|]. split; [by intros ? ?%elem_of_nil|done]. Qed.

Definition delta_of (header : Header) : Z := u32 (snd (addresses header) - fst (addresses header)).

(** The loop of [Apply] on a well-formed list of relocations. *)
Lemma apply_patches_spec header dest len buf ps : forall lo i previous data,
  (ps = [] \/ encoding header = 0) -> bytes_ok data -> len <= Z.of_nat (length data) ->
  0 <= lo -> patches_ok lo len ps -> (i = 0%nat \/ previous < lo * 4) ->
  sub buf (i * 2) (2 * length ps) = patches_bytes ps ->
  exists data', apply_patches header dest len buf (length ps) i previous data = (true, data') /\
    bytes_ok data' /\
    if dest =? 1 then relocates (delta_of header) ps data data' else data' = data.
Proof.
  induction ps as [|p ps IH]; intros lo i previous data He Hb Hlen Hlo Hps Hprev Hbuf.
  { exists data. split; [done|]. split; [done|]. destruct (dest =? 1); [apply relocates_nil|done]. }
  destruct Hps as (Hp & Hfit & Hps). destruct He as [?|He]; [done|].
  cbn [length] in Hbuf. replace (2 * S (length ps))%nat with (2 + 2 * length ps)%nat in Hbuf by lia.
  rewrite sub_app in Hbuf. change (patches_bytes (p :: ps)) with (patch_bytes p ++ patches_bytes ps) in Hbuf.
  assert (Hl2 : length (sub buf (i * 2) 2) = length (patch_bytes p)).
  { unfold patch_bytes. rewrite length_le_bytes. apply (f_equal length) in Hbuf.
    rewrite !length_app, length_patches in Hbuf. unfold patch_bytes in Hbuf. rewrite length_le_bytes in Hbuf.
    unfold sub in *. rewrite !length_take, !length_drop in *. lia. }
  apply app_inj_1 in Hbuf as [Hcode Hbuf]; [|exact Hl2].
  cbn [length apply_patches]. cbn zeta.
  rewrite (patch_read p) by (first [done|lia]).
  destruct (patch_code_bits p ltac:(lia)) as (-> & -> & ->). rewrite He.
  replace (fst p * 4 + 4 >? len) with false by lia.
  replace (negb (i =? 0)%nat && (fst p * 4 <=? previous)) with false
    by (symmetry; destruct (Nat.eqb_spec i 0); [done|cbn; lia]).
  cbn [negb orb Z.eqb].
  set (data1 := if dest =? 1 then _ else _).
  assert (Hb1 : bytes_ok data1) by (unfold data1; destruct (dest =? 1); [by apply write32_ok|done]).
  assert (Hl1 : length data1 = length data)
    by (unfold data1; destruct (dest =? 1); [apply length_write32|done]).
  destruct (IH (fst p + 1) (S i) (fst p * 4) data1) as (data' & E & Hb' & Hd').
  { by right. } { done. } { by rewrite Hl1. } { lia. } { done. } { right. lia. }
  { replace (S i * 2)%nat with (i * 2 + 2)%nat by lia. done. }
  exists data'. split; [exact E|]. split; [done|].
  unfold data1 in Hd'. destruct (dest =? 1); [|done].
  apply (relocates_cons _ _ _ (fst p + 1)); [lia|unfold word_at; lia|lia| |].
  - eapply patches_ok_weaken; [exact Hps|exact Hlen].
  - unfold moved, word_at. by rewrite negb_involutive in Hd'.
Qed.

(** ** The stream *)

(** A block of the image: its relocations and its bytes as linked for slot 0
    and for slot 1. *)
Record Block := mkBlock { b_patches : list Patch; b_links : list Z * list Z }.

Section stream.
Context (header : Header) (dest : Z).

Definition delivered (b : Block) : list Z := sel (b_links b) dest.
Definition transmitted (b : Block) : list Z :=
  if encoding header =? 0 then fst (b_links b) else delivered b.
Definition block_length (b : Block) : Z := Z.of_nat (length (transmitted b)).

Definition block_header (offset : Z) (b : Block) : list Z :=
  le_bytes 4 offset ++ le_bytes 4 (block_length b) ++ le_bytes 4 (Z.of_nat (length (b_patches b))).
Definition encode_block (offset : Z) (b : Block) : list Z :=
  block_header offset b ++ patches_bytes (b_patches b) ++ transmitted b.

Fixpoint stream (offset : Z) (blocks : list Block) : list Z :=
  match blocks with
  | [] => []
  | b :: blocks => encode_block offset b ++ stream (offset + block_length b) blocks
  end.

(** A block of the package that installs the same program in either slot, or,
    with an [encoding] of a single slot, has no relocations at all. *)
Record block_ok (offset : Z) (b : Block) : Prop := {
  bo_length : block_length b = Z.min (Z.of_nat kBlockSize) (h_image_size header - offset);
  bo_offset : 0 <= offset < h_image_size header;
  bo_bytes : bytes_ok (fst (b_links b)) /\ bytes_ok (snd (b_links b));
  bo_patches : patches_ok 0 (block_length b) (b_patches b);
  bo_encoding : b_patches b = [] \/ encoding header = 0;
  bo_links : encoding header = 0 -> relocates (delta_of header) (b_patches b) (fst (b_links b)) (snd (b_links b))
}.

Fixpoint blocks_ok (offset : Z) (blocks : list Block) : Prop :=
  match blocks with
  | [] => offset = h_image_size header
  | b :: blocks => block_ok offset b /\ blocks_ok (offset + block_length b) blocks
  end.

Lemma stream_cons offset b rest :
  stream offset (b :: rest) =
    block_header offset b ++ patches_bytes (b_patches b) ++ transmitted b ++ stream (offset + block_length b) rest.
Proof. cbn. unfold encode_block. by rewrite <- !app_assoc. Qed.

(** The owner's side: in each step it offers the next [n] bytes, and takes the
    block when there is one. *)
Fixpoint feed (sizes : list nat) (r : PackageReader) (s image : list Z) : PackageReader * list Z * list Z :=
  match sizes with
  | [] => (r, s, image)
  | n :: sizes =>
      let taken := if bool_decide (state r = ReaderState.ready) then block r else [] in
      let r := if bool_decide (state r = ReaderState.ready) then release r else r in
      let '(consumed, r) := tick (take n s) r in
      feed sizes r (drop consumed s) (image ++ taken)
  end.
End stream.

Lemma patches_ok_count lo len ps : patches_ok lo len ps -> lo <= 256 -> Z.of_nat (length ps) <= 256 - lo.
Proof.
  revert lo. induction ps as [|p ps IH]; intros lo; cbn; [lia|]. intros (H1 & _ & H2) H.
  specialize (IH _ H2). lia.
Qed.

(** [Copy] moves as much of the input as the field still needs. *)
Lemma Copy_spec n s output size filled A B :
  0 <= size < 2 ^ 32 -> (Z.to_nat size <= length output)%nat -> (filled < Z.to_nat size)%nat ->
  length A = Z.to_nat size -> take filled output ++ s = A ++ B ->
  exists c buf, Copy (take n s) output size filled = (c, buf) /\ length buf = length output /\
    (filled + c <= Z.to_nat size)%nat /\ ((0 < n)%nat -> (0 < c)%nat) /\ (c <= length s)%nat /\
    (bytes_ok output -> bytes_ok s -> bytes_ok buf) /\
    take (filled + c) buf ++ drop c s = A ++ B /\
    ((filled + c)%nat = Z.to_nat size -> take (Z.to_nat size) buf = A /\ drop c s = B).
Proof.
  intros Hsz Hout Hf HA Heq. unfold Copy.
  set (c := Nat.min _ _). exists c, (blit filled (take c (take n s)) output). split; [done|].
  assert (Ec : c = Nat.min (Nat.min n (length s)) (Z.to_nat size - filled)).
  { unfold c. rewrite length_take, u64_small by (unfold is_u64; lia). f_equal. lia. }
  clearbody c.
  assert (Hc : (c <= length s /\ c <= n /\ filled + c <= Z.to_nat size)%nat) by lia.
  assert (Hs : (Z.to_nat size - filled <= length s)%nat).
  { apply (f_equal length) in Heq. rewrite !length_app, length_take in Heq. lia. }
  rewrite take_take, Nat.min_l by lia.
  assert (Htake : take (filled + c) (blit filled (take c s) output) ++ drop c s = A ++ B).
  { rewrite <- Heq.
    assert (E : take (filled + c) (blit filled (take c s) output) = take filled output ++ take c s).
    { apply list_eq. intros i. destruct (decide (i < filled + c)%nat).
      - rewrite lookup_take_lt by lia. destruct (decide (i < filled)%nat).
        + rewrite lookup_app_l by (rewrite length_take; lia). rewrite lookup_take_lt by lia.
          apply lookup_blit_out. lia.
        + rewrite lookup_app_r by (rewrite length_take; lia). rewrite length_take, Nat.min_l by lia.
          apply lookup_blit_in; [rewrite length_take; lia|lia].
      - rewrite lookup_take_ge by lia. symmetry. apply lookup_ge_None. rewrite length_app, !length_take. lia. }
    rewrite E, <- app_assoc. by rewrite take_drop. }
  split_and!; [apply length_blit|lia|lia|lia| |exact Htake|].
  - intros Hb1 Hb2. apply Forall_blit; [by apply Forall_take|done].
  - intros Hfull. rewrite Hfull in Htake. apply app_inj_1 in Htake; [done|].
    rewrite length_take, length_blit. lia.
Qed.

(** ** Where the reader is in the stream *)

Section position.
Context (header : Header) (dest : Z).
Context (Hsize : is_u32 (h_image_size header)) (Hdest : dest = 0 \/ dest = 1).
Local Abbreviation stream := (stream header dest).
Local Abbreviation block_length := (block_length header dest).
Local Abbreviation transmitted := (transmitted header dest).
Local Abbreviation blocks_ok := (blocks_ok header dest).

Record buffers_ok (r : PackageReader) : Prop := {
  bf_header : length (block_header_ r) = 12%nat /\ bytes_ok (block_header_ r);
  bf_patches : length (patches_ r) = 512%nat /\ bytes_ok (patches_ r);
  bf_data : length (data_ r) = 1024%nat /\ bytes_ok (data_ r)
}.

(** [s] is the input still to come, [rest] the blocks still to be taken. *)
Definition phase (cs : ReaderState.State) (r : PackageReader) (s : list Z) (rest : list Block) : Prop :=
  match cs, rest with
  | ReaderState.header, b :: _ =>
      (filled_ r < 12)%nat /\ take (filled_ r) (block_header_ r) ++ s = stream (offset_ r) rest
  | ReaderState.patches, b :: rest =>
      length_ r = block_length b /\ patch_count_ r = Z.of_nat (length (b_patches b)) /\
      (filled_ r < 2 * length (b_patches b))%nat /\
      take (filled_ r) (patches_ r) ++ s =
        patches_bytes (b_patches b) ++ transmitted b ++ stream (offset_ r + length_ r) rest
  | ReaderState.data, b :: rest =>
      length_ r = block_length b /\ patch_count_ r = Z.of_nat (length (b_patches b)) /\
      take (2 * length (b_patches b)) (patches_ r) = patches_bytes (b_patches b) /\
      (filled_ r < length (transmitted b))%nat /\
      take (filled_ r) (data_ r) ++ s = transmitted b ++ stream (offset_ r + length_ r) rest
  | ReaderState.ready, b :: rest =>
      length_ r = block_length b /\ block r = delivered dest b /\ s = stream (offset_ r + length_ r) rest
  | ReaderState.done, [] => s = []
  | _, _ => False
  end.

Record located (cs : ReaderState.State) (r : PackageReader) (s : list Z) (rest : list Block) : Prop := {
  loc_header : header_ r = header /\ destination_ r = dest;
  loc_requests : start_requested_ r = false /\ release_requested_ r = false;
  loc_buffers : buffers_ok r;
  loc_input : bytes_ok s;
  loc_rest : blocks_ok (offset_ r) rest;
  loc_phase : phase cs r s rest
}.

Lemma block_facts offset b :
  block_ok header dest offset b ->
  0 < block_length b <= 1024 /\ length (transmitted b) = Z.to_nat (block_length b) /\
  is_u32 offset /\ is_u32 (block_length b) /\ (length (b_patches b) <= 256)%nat /\
  u32 (h_image_size header - offset) = h_image_size header - offset.
Proof.
  intros [Hl Ho Hb Hp _ _]. pose proof (patches_ok_count _ _ _ Hp ltac:(lia)).
  unfold is_u32, kBlockSize in *. rewrite u32_small by (unfold is_u32; lia).
  unfold PackageStream.block_length in *. split_and!; lia.
Qed.

Lemma header_fields a b c buf :
  is_u32 a -> is_u32 b -> is_u32 c ->
  buf = le_bytes 4 a ++ le_bytes 4 b ++ le_bytes 4 c ->
  read32 buf 0 = a /\ read32 buf 4 = b /\ read32 buf 8 = c.
Proof.
  intros Ha Hb Hc ->.
  assert (Hok : bytes_ok (le_bytes 4 a ++ le_bytes 4 b ++ le_bytes 4 c))
    by (repeat apply Forall_app_2; apply le_bytes_ok).
  assert (Hl : length (le_bytes 4 a ++ le_bytes 4 b ++ le_bytes 4 c) = 12%nat)
    by (rewrite !length_app, !length_le_bytes; done).
  split_and!; apply read32_le; try (done || lia).
Qed.

Definition advances (n : nat) (cs : ReaderState.State) (r : PackageReader) (s : list Z) (rest : list Block) : Prop :=
  exists ns r1 c, Step (take n s) cs (r, 0%nat) = (ns, (r1, c)) /\ located ns r1 (drop c s) rest /\
    (c <= length s)%nat /\ ((0 < n)%nat -> (0 < c)%nat).

Lemma reader_step_header n r s rest : located ReaderState.header r s rest -> advances n ReaderState.header r s rest.
Proof.
  intros [[Hh Hd] [Hs Hr] [[Hl1 Hb1] Hbp Hbd] Hi Hrest Hp]. destruct rest as [|b rest]; [done|].
  destruct Hp as [Hf Heq]. destruct Hrest as [Hbo Hrest]. rewrite stream_cons in Heq.
  pose proof (block_facts _ _ Hbo) as (Hlen & Htl & Hu1 & Hu2 & Hpc & Hsub).
  assert (Hl12 : length (block_header header dest (offset_ r) b) = Z.to_nat 12).
  { unfold block_header. rewrite !length_app, !length_le_bytes. done. }
  destruct (Copy_spec n s (block_header_ r) 12 (filled_ r) _ _ ltac:(lia) ltac:(lia) ltac:(lia) Hl12 Heq)
    as (c & buf & E & Hlb & Hfc & Hpos & Hcs & Hbb & Hpart & Hfull).
  unfold advances, Step. rewrite Hs, E. cbn zeta.
  cbn [block_header_ filled_ patch_count_ length_ offset_ header_ field_update].
  destruct (Nat.eqb_spec (filled_ r + c) 12) as [E12|E12].
  - destruct (Hfull E12) as [Hbuf Hdrop]. change (Z.to_nat 12) with 12%nat in Hbuf.
    rewrite firstn_all2 in Hbuf by lia.
    assert (Hu3 : is_u32 (Z.of_nat (length (b_patches b)))) by (unfold is_u32; lia).
    destruct (header_fields _ _ _ buf Hu1 Hu2 Hu3 Hbuf) as (E0 & E4 & E8).
    rewrite E0, E4, E8, Hh, Z.eqb_refl, Hsub, (bo_length _ _ _ _ Hbo), Z.eqb_refl.
    destruct (bo_offset _ _ _ _ Hbo) as [_ Hlt].
    replace (offset_ r >=? h_image_size header) with false by lia.
    change (Z.of_nat kMaxPatches) with 256. rewrite (Z.gtb_ltb _ 256), (proj2 (Z.ltb_ge 256 _)) by lia.
    cbn [negb orb]. do 3 eexists. split; [done|]. split; [|done]. rewrite Hdrop.
    split; [done|done| |rewrite <- Hdrop; by apply Forall_drop|done|].
    + split; [|done|done]. cbn. split; [by rewrite Hlb|by apply Hbb].
    + cbn [phase filled_ length_ patch_count_ patches_ data_ offset_ field_update]. rewrite <- (bo_length _ _ _ _ Hbo).
      destruct (negb (Z.of_nat (length (b_patches b)) =? 0)) eqn:E0p; breflect; unfold phase;
        cbn [filled_ length_ patch_count_ patches_ data_ offset_ field_update].
      * split_and!; [done|done|lia|done].
      * assert (Eps : b_patches b = []) by (apply nil_length_inv; lia). rewrite Eps. split_and!; [done..|lia|done].
  - do 3 eexists. split; [done|]. split; [|done].
    split; [done|done| |by apply Forall_drop|done|].
    + split; [|done|done]. cbn. split; [by rewrite Hlb|by apply Hbb].
    + split; [cbn; lia|]. cbn [filled_ block_header_ offset_ field_update]. by rewrite Hpart, stream_cons.
Qed.

Lemma step_patches n r s rest : located ReaderState.patches r s rest -> advances n ReaderState.patches r s rest.
Proof.
  intros [[Hh Hd] [Hs Hr] [Hbh [Hl1 Hb1] Hbd] Hi Hrest Hp]. destruct rest as [|b rest]; [done|].
  destruct Hp as (Hlen & Hcount & Hf & Heq). destruct Hrest as [Hbo Hrest].
  pose proof (block_facts _ _ Hbo) as (Hlen2 & Htl & Hu1 & Hu2 & Hpc & Hsub).
  assert (Hsz : Z.to_nat (patch_count_ r * 2) = (2 * length (b_patches b))%nat) by lia.
  destruct (Copy_spec n s (patches_ r) (patch_count_ r * 2) (filled_ r) (patches_bytes (b_patches b))
              (transmitted b ++ stream (offset_ r + length_ r) rest)) as (c & buf & E & Hlb & Hfc & Hpos & Hcs & Hbb & Hpart & Hfull);
    [lia|lia|lia|rewrite length_patches; lia|done|].
  unfold advances, Step. rewrite Hs, E. cbn zeta.
  cbn [patches_ filled_ patch_count_ length_ offset_ header_ field_update].
  destruct (Z.eqb_spec (Z.of_nat (filled_ r + c)) (patch_count_ r * 2)) as [Ef|Ef].
  - destruct (Hfull ltac:(lia)) as [Hbuf Hdrop]. do 3 eexists. split; [done|]. split; [|done].
    rewrite Hdrop. split; [done|done| |rewrite <- Hdrop; by apply Forall_drop|done|].
    + split; [done| |done]. cbn. split; [by rewrite Hlb|by apply Hbb].
    + unfold phase. cbn [filled_ length_ patch_count_ patches_ data_ offset_ field_update].
      rewrite Hsz in Hbuf. split_and!; [done..|lia|done].
  - do 3 eexists. split; [done|]. split; [|done].
    split; [done|done| |by apply Forall_drop|done|].
    + split; [done| |done]. cbn. split; [by rewrite Hlb|by apply Hbb].
    + unfold phase. cbn [filled_ length_ patch_count_ patches_ offset_ field_update]. split_and!; [done|done|lia|done].
Qed.

(** The relocated block is the one linked for the destination. *)
Lemma apply_delivers r b (Hbo : block_ok header dest (offset_ r) b) :
  header_ r = header -> destination_ r = dest -> buffers_ok r ->
  length_ r = block_length b -> patch_count_ r = Z.of_nat (length (b_patches b)) ->
  take (2 * length (b_patches b)) (patches_ r) = patches_bytes (b_patches b) ->
  take (Z.to_nat (length_ r)) (data_ r) = transmitted b ->
  exists r1, Apply r = (true, r1) /\ r1 = r <| data_ := data_ r1 |> /\ buffers_ok r1 /\ block r1 = delivered dest b.
Proof.
  intros Hh Hd [Hbh Hbp [Hl Hb]] Hlen Hcount Hpat Hdata. unfold Apply.
  pose proof (block_facts _ _ Hbo) as (Hl2 & Htl & _ & _ & Hpc & _).
  destruct (apply_patches_spec header dest (length_ r) (patches_ r) (b_patches b) 0 0 0 (data_ r))
    as (data' & E & Hb' & Hr); [apply Hbo|done|lia|lia|rewrite Hlen; apply Hbo|by left| |].
  { unfold sub. by rewrite drop_0. }
  rewrite Hh, Hd, Hcount, Nat2Z.id, E. eexists. split; [done|]. split; [done|].
  assert (Hl' : length data' = 1024%nat).
  { destruct (dest =? 1); [by rewrite (proj1 Hr)|by subst]. }
  split; [split; [done|done|split; [exact Hl'|exact Hb']]|].
  unfold block. cbn [data_ length_ field_update].
  unfold PackageStream.transmitted, delivered in *. destruct Hdest as [-> | ->]; cbn [Z.eqb sel] in *.
  - subst data'. rewrite Hdata. by destruct (encoding header =? 0).
  - destruct (Z.eqb_spec (encoding header) 0) as [He|He].
    + apply (relocates_take _ _ _ _ (Z.to_nat (length_ r))) in Hr; [|lia|rewrite Hlen, Z2Nat.id by lia; apply Hbo].
      rewrite Hdata in Hr. eapply (relocates_unique _ _ (fst (b_links b)) _ _ 0);
        [by apply Forall_take|apply Hbo|lia| |exact Hr|by apply Hbo].
      replace (Z.of_nat (length (fst (b_links b)))) with (PackageStream.block_length header 1 b); [apply Hbo|].
      unfold PackageStream.block_length, PackageStream.transmitted. by rewrite He.
    + destruct (bo_encoding _ _ _ _ Hbo) as [Hnil|]; [|done]. rewrite Hnil in Hr.
      apply relocates_none in Hr. subst data'. exact Hdata.
Qed.

Lemma step_data n r s rest : located ReaderState.data r s rest -> advances n ReaderState.data r s rest.
Proof.
  intros [[Hh Hd] [Hs Hr] [Hbh Hbp [Hl1 Hb1]] Hi Hrest Hp]. destruct rest as [|b rest]; [done|].
  destruct Hp as (Hlen & Hcount & Hpat & Hf & Heq). pose proof Hrest as [Hbo Hrest'].
  pose proof (block_facts _ _ Hbo) as (Hlen2 & Htl & Hu1 & Hu2 & Hpc & Hsub).
  destruct (Copy_spec n s (data_ r) (length_ r) (filled_ r) (transmitted b) (stream (offset_ r + length_ r) rest))
    as (c & buf & E & Hlb & Hfc & Hpos & Hcs & Hbb & Hpart & Hfull); [lia|lia|lia|lia|done|].
  unfold advances, Step. rewrite Hs, E. cbn zeta.
  cbn [data_ filled_ patch_count_ length_ offset_ header_ field_update].
  assert (Hbuf1 : length buf = 1024%nat /\ bytes_ok buf) by (split; [lia|auto]).
  destruct (Z.eqb_spec (Z.of_nat (filled_ r + c)) (length_ r)) as [Ef|Ef].
  - destruct (Hfull ltac:(lia)) as [Hbuf Hdrop].
    match goal with |- context [Apply ?x] => destruct (apply_delivers x b) as (r1 & Ea & Hr1 & Hbf & Hblk) end;
      [exact Hbo|done|done|by split|done|done|done|exact Hbuf|].
    rewrite Ea. do 3 eexists. split; [done|]. split; [|done]. rewrite Hr1 in *. rewrite Hdrop.
    split; [done|done|done|rewrite <- Hdrop; by apply Forall_drop|done|].
    unfold phase. by split_and!.
  - do 3 eexists. split; [done|]. split; [|done].
    split; [done|done|by split|by apply Forall_drop|done|].
    unfold phase. cbn [filled_ length_ patch_count_ patches_ data_ offset_ field_update]. split_and!; [done..|lia|done].
Qed.

(** Taking a block leads to the next one, or to the end. *)
Lemma step_ready n r s b rest :
  located ReaderState.ready r s (b :: rest) ->
  exists ns r1, Step (take n s) ReaderState.ready (release r, 0%nat) = (ns, (r1, 0%nat)) /\ located ns r1 s rest.
Proof.
  intros [[Hh Hd] [Hs Hr] Hbf Hi Hrest Hp]. destruct Hp as (Hlen & Hblk & Heq). destruct Hrest as [Hbo Hrest].
  pose proof (block_facts _ _ Hbo) as (Hlen2 & Htl & Hu1 & Hu2 & Hpc & Hsub).
  pose proof (bo_length _ _ _ _ Hbo) as Hmin. pose proof (bo_offset _ _ _ _ Hbo) as Hoff.
  unfold Step, release. cbn [start_requested_ release_requested_ offset_ length_ header_ field_update]. rewrite Hs.
  rewrite u32_small by (unfold is_u32, kBlockSize in *; lia). rewrite Hh. do 2 eexists. split; [done|].
  split; [done|done|by destruct Hbf|done|by rewrite Hlen|].
  unfold phase. cbn [filled_ block_header_ offset_ field_update]. rewrite Hlen, Heq, Hlen. destruct rest as [|b' rest].
  - cbn [PackageStream.blocks_ok] in Hrest. by rewrite Hrest, Z.eqb_refl.
  - destruct Hrest as [Hbo' _]. pose proof (bo_offset _ _ _ _ Hbo').
    rewrite (proj2 (Z.eqb_neq _ _)) by lia. split; [lia|done].
Qed.

Lemma located_machine cs r s rest m : located cs r s rest -> located cs (r <| machine_ := m |>) s rest.
Proof. intros [? ? [] ? ? ?]. by split. Qed.

(** One step of the owner: a byte or a block less to go. *)
Lemma feed_step n r s rest :
  ticking_ (machine_ r) = false -> located (state r) r s rest ->
  let ready := bool_decide (state r = ReaderState.ready) in
  exists c r1 taken rest1, tick (take n s) (if ready then release r else r) = (c, r1) /\
    ticking_ (machine_ r1) = false /\ located (state r1) r1 (drop c s) rest1 /\ rest = taken ++ rest1 /\
    (if ready then block r else []) = concat (map (delivered dest) taken) /\
    ((0 < n)%nat -> state r <> ReaderState.done ->
     length (drop c s) + length rest1 < length s + length rest)%nat.
Proof.
  intros Ht HL ready. unfold ready. clear ready.
  assert (Hv : forall ns, Valid (ns : ReaderState.State) = true) by (by intros []).
  assert (Hstep : forall r0, machine_ r0 = machine_ r -> ticking_ (machine_ r0) = false) by congruence.
  case_bool_decide as Er.
  - destruct rest as [|b rest]; [rewrite Er in HL; by destruct HL|]. rewrite Er in HL.
    destruct (step_ready n r s b rest HL) as (ns & r1 & E & HL1).
    rewrite reader_tick by (by apply Hstep). unfold after.
    change (state (release r)) with (state r). rewrite Er, E. exists 0%nat. do 3 eexists.
    split; [done|]. split; [done|]. unfold state at 1. cbn [machine_ field_update].
    rewrite cs_post_machine, Hv. split; [apply located_machine; exact HL1|].
    split; [exact (eq_refl : b :: rest = [b] ++ rest)|]. split.
    + destruct HL as [_ _ _ _ _ (_ & -> & _)]. cbn. by rewrite app_nil_r.
    + intros _ _. rewrite drop_0. cbn [length]. lia.
  - assert (Hadv : state r = ReaderState.done \/ advances n (state r) r s rest).
    { destruct (state r) eqn:Est; try done; try (by left); try (by destruct HL; destruct rest); right.
      - by apply reader_step_header.
      - by apply step_patches.
      - by apply step_data. }
    rewrite reader_tick by done. unfold after.
    destruct Hadv as [Ed|(ns & r1 & c & E & HL1 & Hc & Hpos)].
    + rewrite Ed in *. pose proof HL as [_ [Hs _] _ _ _ Hp]. destruct rest; [|done]. cbn in Hp. subst s.
      unfold Step. rewrite Hs. exists 0%nat. do 3 eexists. split; [done|]. split; [done|]. unfold state at 1.
      cbn [machine_ field_update]. rewrite cs_post_machine, Hv. split; [apply located_machine; exact HL|].
      split; [exact (eq_refl : [] = [] ++ [])|]. by split.
    + rewrite E. exists c. do 3 eexists. split; [done|]. split; [done|]. unfold state at 1.
      cbn [machine_ field_update]. rewrite cs_post_machine, Hv. split; [apply located_machine; exact HL1|].
      split; [exact (eq_refl : rest = [] ++ rest)|]. split; [done|].
      intros Hn _. rewrite length_drop. specialize (Hpos Hn). lia.
Qed.

Lemma feed_located sizes : forall r s rest image,
  ticking_ (machine_ r) = false -> located (state r) r s rest ->
  let '(r', s', image') := feed sizes r s image in
  exists taken rest', rest = taken ++ rest' /\ located (state r') r' s' rest' /\
    image' = image ++ concat (map (delivered dest) taken) /\
    (Forall (fun n => 0 < n)%nat sizes -> (length s + length rest <= length sizes)%nat ->
     state r' = ReaderState.done).
Proof.
  induction sizes as [|n sizes IH]; intros r s rest image Ht HL.
  { exists [], rest. cbn. rewrite app_nil_r. split_and!; [done..|]. intros _ Hl.
    destruct HL as [_ _ _ _ _ Hp]. assert (rest = []) as -> by (destruct rest; cbn in Hl; [done|lia]).
    by destruct (state r). }
  cbn [feed]. destruct (feed_step n r s rest Ht HL) as (c & r1 & taken1 & rest1 & -> & Ht1 & HL1 & Hrest & Hblk & Hless).
  rewrite Hblk. specialize (IH r1 (drop c s) rest1 (image ++ concat (map (delivered dest) taken1)) Ht1 HL1).
  destruct (feed sizes r1 _ _) as [[r' s'] image']. destruct IH as (taken & rest' & -> & HL' & -> & Hend).
  exists (taken1 ++ taken), rest'. split; [by rewrite Hrest, app_assoc|]. split; [done|].
  split; [by rewrite map_app, concat_app, app_assoc|].
  intros [Hn Hns]%Forall_cons Hl. apply Hend; [done|].
  destruct (decide (state r = ReaderState.done)) as [Ed|Ed].
  - rewrite Ed in HL. destruct HL as [_ _ _ _ _ Hp]. destruct rest as [|? ?]; [|done]. cbn in Hp. subst s.
    symmetry in Hrest. apply app_eq_nil in Hrest as [-> Hnil]. rewrite Hnil, drop_nil. cbn. lia.
  - specialize (Hless Hn Ed). cbn in Hl. lia.
Qed.
End position.

Lemma started_located header dest r blocks :
  0 < h_image_size header -> ticking_ (machine_ r) = false -> buffers_ok r ->
  blocks_ok header dest 0 blocks -> bytes_ok (stream header dest 0 blocks) ->
  let r' := snd (tick [] (start header dest r)) in
  ticking_ (machine_ r') = false /\ located header dest (state r') r' (stream header dest 0 blocks) blocks.
Proof.
  intros Hpos Ht Hbf Hbs Hs. rewrite reader_tick by done. unfold after, Step, start. cbn [start_requested_ field_update].
  cbn [snd]. split; [done|]. unfold state. cbn [machine_ field_update]. rewrite cs_post_machine.
  split; [done|done|by destruct Hbf|done|done|].
  destruct blocks as [|b blocks]; [cbn in Hbs; lia|]. split; [cbn; lia|done].
Qed.

Lemma stream_bytes header dest offset blocks :
  blocks_ok header dest offset blocks -> bytes_ok (stream header dest offset blocks).
Proof.
  revert offset. induction blocks as [|b blocks IH]; intros offset; [by constructor|].
  intros [Hbo Hbs]. rewrite stream_cons. repeat apply Forall_app_2; try apply le_bytes_ok.
  - clear. induction (b_patches b) as [|p ps IH]; [by constructor|]. apply Forall_app_2; [apply le_bytes_ok|done].
  - destruct (bo_bytes _ _ _ _ Hbo). unfold transmitted, delivered, sel. by repeat case_match.
  - by apply IH.
Qed.

(** C8: the package reader reconstructs the image.  Let a package hold the
    blocks of an image, with relocations that turn the bytes linked for slot 0
    into those linked for slot 1.  However its bytes are cut into chunks, what
    the reader has delivered is a prefix of the image linked for its
    destination; and when every step offers at least one byte, the number of
    bytes and blocks is enough steps to consume the package, deliver the whole
    image and reach [done]. *)
Theorem package_delivers_image header dest r blocks sizes :
  dest = 0 \/ dest = 1 -> is_u32 (h_image_size header) -> 0 < h_image_size header ->
  ticking_ (machine_ r) = false -> buffers_ok r -> blocks_ok header dest 0 blocks ->
  let s := stream header dest 0 blocks in
  let '(r', s', image) := feed sizes (snd (tick [] (start header dest r))) s [] in
  image `prefix_of` concat (map (delivered dest) blocks) /\
  (Forall (fun n => 0 < n)%nat sizes -> (length s + length blocks <= length sizes)%nat ->
   state r' = ReaderState.done /\ s' = [] /\ image = concat (map (delivered dest) blocks)).
Proof.
  intros Hdest Hu Hpos Ht Hbf Hbs s.
  destruct (started_located header dest r blocks Hpos Ht Hbf Hbs (stream_bytes _ _ _ _ Hbs)) as [Ht1 HL1].
  pose proof (feed_located header dest Hu Hdest sizes _ _ _ [] Ht1 HL1) as H. fold s in H.
  destruct (feed sizes _ s []) as [[r' s'] image]. destruct H as (taken & rest & -> & HL' & -> & Hend). cbn [app].
  split; [rewrite map_app, concat_app; by eexists|].
  intros Hn Hl. specialize (Hend Hn Hl). split; [done|]. rewrite Hend in HL'.
  destruct HL' as [_ _ _ _ _ Hp]. destruct rest; [|done]. split; [exact Hp|]. by rewrite app_nil_r.
Qed.

(** A package of one relocated block and a chunking of it. *)
Definition ex_header : Header := mkHeader 1 1 12 (0x1000, 0x3000) (0, 0) 0 0 no_version.
Definition ex_block : Block :=
  mkBlock [(0, false); (2, true)]
    (le_bytes 4 0x1010 ++ le_bytes 4 7 ++ le_bytes 4 0x9000, le_bytes 4 0x3010 ++ le_bytes 4 7 ++ le_bytes 4 0x7000).

Lemma ex_block_ok : block_ok ex_header 1 0 ex_block.
Proof.
  split; [done|done|split; apply (bool_decide_unpack _); vm_compute; exact I|repeat split; vm_compute; first [reflexivity|discriminate]|by right|]. intros _. split; [done|]. split.
  - intros p [->|[->|[]%elem_of_nil]%elem_of_cons]%elem_of_cons; vm_compute; reflexivity.
  - intros i Hi. pose proof (Hi (0, false) ltac:(left)) as H0. pose proof (Hi (2, true) ltac:(right; left)) as H1.
    unfold word_at in H0, H1. cbn in H0, H1. destruct (decide (12 <= i)%nat) as [Hge|Hlt].
    + rewrite !lookup_ge_None_2; [done|cbn; lia|cbn; lia].
    + assert (Hc : i = 4%nat \/ i = 5%nat \/ i = 6%nat \/ i = 7%nat) by lia.
      destruct Hc as [->|[->|[->| ->]]]; reflexivity.
Qed.

Lemma new_buffers_ok : buffers_ok new_reader.
Proof. split; (split; [reflexivity|apply Forall_replicate; done]). Qed.

Lemma package_delivers_image_witness :
  let '(r', s', image) := feed (replicate 40 3%nat) (snd (tick [] (start ex_header 1 new_reader)))
                            (stream ex_header 1 0 [ex_block]) [] in
  state r' = ReaderState.done /\ s' = [] /\ image = snd (b_links ex_block).
Proof.
  assert (Hu : is_u32 (h_image_size ex_header)) by (split; vm_compute; [discriminate|reflexivity]).
  assert (Hpos : 0 < h_image_size ex_header) by reflexivity.
  assert (Ht : ticking_ (machine_ new_reader) = false) by reflexivity.
  assert (Hbs : blocks_ok ex_header 1 0 [ex_block]) by (split; [exact ex_block_ok|vm_compute; reflexivity]).
  pose proof (package_delivers_image ex_header 1 new_reader [ex_block] (replicate 40 3%nat)
    (or_intror eq_refl) Hu Hpos Ht new_buffers_ok Hbs) as H.
  cbv zeta in H. revert H. destruct (feed _ _ _ _) as [[r' s'] image].
  intros [_ H]. destruct H as (H1 & H2 & H3);
    [apply Forall_replicate; lia|apply Nat.leb_le; vm_compute; reflexivity|].
  split; [exact H1|]. split; [exact H2|]. rewrite H3. vm_compute. reflexivity.
Defined.

(** ** Arbitrary input *)

(** The reader stays inside its arrays and inside the image: where a copy or a
    block of the current state lies. *)
Record within (r : PackageReader) : Prop := {
  wi_buffers : buffers_ok r;
  wi_size : is_u32 (h_image_size (header_ r));
  wi_offset : 0 <= offset_ r;
  wi_phase : start_requested_ r = false ->
    match state r with
    | ReaderState.header => (filled_ r < length (block_header_ r))%nat /\ 0 <= offset_ r <= h_image_size (header_ r)
    | ReaderState.patches =>
        Z.of_nat (filled_ r) < patch_count_ r * 2 <= Z.of_nat (length (patches_ r)) /\
        0 < length_ r <= Z.of_nat (length (data_ r)) /\ 0 <= offset_ r /\ offset_ r + length_ r <= h_image_size (header_ r)
    | ReaderState.data =>
        Z.of_nat (filled_ r) < length_ r <= Z.of_nat (length (data_ r)) /\
        0 <= offset_ r /\ offset_ r + length_ r <= h_image_size (header_ r)
    | ReaderState.ready =>
        0 < length_ r <= Z.of_nat (length (data_ r)) /\ 0 <= offset_ r /\ offset_ r + length_ r <= h_image_size (header_ r)
    | _ => True
    end
}.

(** What an owner can do with a reader. *)
Inductive reader_reach : PackageReader -> Prop :=
  | reach_new : reader_reach new_reader
  | reach_start header dest r :
      reader_reach r -> is_u32 (h_image_size header) -> reader_reach (start header dest r)
  | reach_release r : reader_reach r -> reader_reach (release r)
  | reach_tick input r : reader_reach r -> bytes_ok input -> reader_reach (snd (tick input r)).

Lemma Copy_bounds input output size filled :
  0 <= size < 2 ^ 32 -> Z.of_nat filled <= size -> bytes_ok input -> bytes_ok output ->
  exists c buf, Copy input output size filled = (c, buf) /\ (c <= length input)%nat /\
    Z.of_nat (filled + c) <= size /\ length buf = length output /\ bytes_ok buf.
Proof.
  intros Hs Hf Hi Ho. unfold Copy. do 2 eexists. split; [done|].
  rewrite u64_small by (unfold is_u64; lia). split; [lia|]. split; [lia|].
  split; [apply length_blit|]. apply Forall_blit; [by apply Forall_take|done].
Qed.

Lemma apply_patches_bytes header dest len buf n : forall i previous data,
  bytes_ok data ->
  let data' := snd (apply_patches header dest len buf n i previous data) in
  length data' = length data /\ bytes_ok data'.
Proof.
  induction n as [|n IH]; intros i previous data Hb; [done|]. cbn [apply_patches]. cbn zeta.
  destruct (_ || _); [done|]. destruct (dest =? 1).
  - match goal with |- context [write32 data ?a ?v] =>
      destruct (IH (S i) (Z.land (Z.lor (buf !!! (i * 2)%nat) (Z.shiftl (buf !!! (i * 2 + 1)%nat) 8)) 255 * 4)
                  (write32 data a v) (write32_ok _ _ _ Hb)) as [Hl Hb'];
      rewrite length_write32 in Hl end. by split.
  - by apply IH.
Qed.

Lemma within_step input cs r :
  bytes_ok input -> within r -> cs = state r ->
  exists ns r1 c, Step input cs (r, 0%nat) = (ns, (r1, c)) /\ (c <= length input)%nat /\
    forall m, StateMachine.cs m = ns -> within (r1 <| machine_ := m |>).
Proof.
  intros Hi [[[Hl1 Hb1] [Hl2 Hb2] [Hl3 Hb3]] Hu H0 Hp] ->. unfold Step.
  destruct (start_requested_ r) eqn:Es.
  { do 3 eexists. split; [done|]. split; [lia|]. intros m Hm. split; [by split|done|done|].
    intros _. unfold state. cbn [machine_ field_update]. rewrite Hm. cbn. unfold is_u32 in Hu. lia. }
  specialize (Hp eq_refl). unfold is_u32 in Hu. destruct (state r) eqn:Est.
  all: try by (do 3 eexists; split; [done|]; split; [lia|]; intros m Hm; split; [by split|done|done|];
    intros _; unfold state; cbn [machine_ field_update]; by rewrite Hm).
  - destruct (Copy_bounds input (block_header_ r) 12 (filled_ r)) as (c & buf & E & Hc & Hf & Hlb & Hbb); [lia|lia|done|done|].
    rewrite E. cbn zeta. cbn [block_header_ filled_ length_ patch_count_ offset_ header_ field_update].
    destruct (Nat.eqb_spec (filled_ r + c) 12) as [E12|E12].
    + pose proof (read32_range buf 8 Hbb ltac:(lia)) as H8. unfold is_u32 in H8.
      destruct (negb _ || _ || _ || _) eqn:Ebad.
      * do 3 eexists. split; [done|]. split; [lia|]. intros m Hm. split; [split; [by rewrite Hl1 in Hlb|done..]|done|done|].
        intros _. unfold state. cbn [machine_ field_update]. by rewrite Hm.
      * rewrite !orb_false_iff in Ebad. destruct Ebad as [[[_ E1] E2] E3]. breflect.
        rewrite u32_small in E2 by (unfold is_u32; lia). unfold kBlockSize, kMaxPatches in *.
        do 3 eexists. split; [done|]. split; [lia|]. intros m Hm. split; [split; [by rewrite Hl1 in Hlb|done..]|done|done|].
        intros _. unfold state. cbn [machine_ field_update]. rewrite Hm.
        cbn [filled_ length_ patch_count_ patches_ data_ offset_ header_ field_update]. rewrite Hl2, Hl3.
        change (Z.of_nat 1024) with 1024 in *. change (Z.of_nat 512) with 512. change (Z.of_nat 256) with 256 in *.
        destruct (Z.eqb_spec (read32 buf 8) 0); cbn [negb]; lia.
    + do 3 eexists. split; [done|]. split; [lia|]. intros m Hm. split; [split; [by rewrite Hl1 in Hlb|done..]|done|done|].
      intros _. unfold state. cbn [machine_ field_update]. rewrite Hm. cbn [filled_ block_header_ offset_ header_ field_update]. lia.
  - destruct (Copy_bounds input (patches_ r) (patch_count_ r * 2) (filled_ r)) as (c & buf & E & Hc & Hf & Hlb & Hbb); [lia|lia|done|done|].
    rewrite E. cbn zeta. cbn [patches_ filled_ length_ patch_count_ offset_ header_ field_update].
    destruct (Z.eqb_spec (Z.of_nat (filled_ r + c)) (patch_count_ r * 2)); do 3 eexists; (split; [done|]);
      (split; [lia|]); intros m Hm; (split; [split; [done|by rewrite Hl2 in Hlb|done]|done|done|]);
      intros _; unfold state; cbn [machine_ field_update]; rewrite Hm;
      cbn [filled_ length_ patch_count_ patches_ data_ offset_ header_ field_update]; lia.
  - destruct (Copy_bounds input (data_ r) (length_ r) (filled_ r)) as (c & buf & E & Hc & Hf & Hlb & Hbb); [lia|lia|done|done|].
    rewrite E. cbn zeta. cbn [data_ filled_ length_ patch_count_ offset_ header_ field_update].
    destruct (Z.eqb_spec (Z.of_nat (filled_ r + c)) (length_ r)).
    + unfold Apply. cbn [header_ destination_ length_ patches_ patch_count_ data_ field_update].
      pose proof (apply_patches_bytes (header_ r) (destination_ r) (length_ r) (patches_ r) (Z.to_nat (patch_count_ r)) 0 0 buf Hbb) as Ha.
      cbn zeta in Ha. destruct (apply_patches _ _ _ _ _ _ _ _) as [[] data]; cbn [snd] in Ha; destruct Ha as [Hla Hba];
        do 3 eexists; (split; [done|]); (split; [lia|]); intros m Hm;
        (split; [split; [done..|cbn [data_ field_update]; split; [lia|done]]|done|done|]);
        intros _; unfold state; cbn [machine_ field_update]; rewrite Hm; [|done].
      cbn [length_ data_ offset_ header_ field_update]. lia.
    + do 3 eexists. split; [done|]. split; [lia|]. intros m Hm. split; [split; [done..|by rewrite Hl3 in Hlb]|done|done|].
      intros _. unfold state. cbn [machine_ field_update]. rewrite Hm.
      cbn [filled_ length_ data_ offset_ header_ field_update]. lia.
  - destruct (release_requested_ r); do 3 eexists; (split; [done|]); (split; [lia|]); intros m Hm;
      (split; [by split|done|first [exact H0|apply u32_range]|]); intros _; unfold state; cbn [machine_ field_update]; rewrite Hm; [|exact Hp].
    cbn [filled_ length_ data_ block_header_ offset_ header_ field_update]. rewrite u32_small by (unfold is_u32; lia).
    destruct (Z.eqb_spec (offset_ r + length_ r) (h_image_size (header_ r))); [done|]. lia.
Qed.

Lemma within_tick input r :
  bytes_ok input -> within r -> ticking_ (machine_ r) = false ->
  within (snd (tick input r)) /\ ticking_ (machine_ (snd (tick input r))) = false /\
  (fst (tick input r) <= length input)%nat.
Proof.
  intros Hi Hw Ht. destruct (within_step input (state r) r Hi Hw eq_refl) as (ns & r1 & c & E & Hc & Hw').
  rewrite reader_tick by done. unfold after. rewrite E. cbn [fst snd]. split; [|by split].
  apply Hw'. rewrite cs_post_machine. by destruct ns.
Qed.

(** C11: whatever bytes arrive, the reader stays within bounds: in every state
    reachable by [start], [release] and [tick] with arbitrary chunks, the field
    being filled lies inside its array, a block inside the data array and
    inside the image the header announces; and a tick never consumes more than
    it was offered. *)
Theorem reader_within_bounds r input :
  reader_reach r -> bytes_ok input -> within r /\ (fst (tick input r) <= length input)%nat.
Proof.
  intros Hr Hi.
  assert (Hinv : within r /\ ticking_ (machine_ r) = false).
  { induction Hr as [|header dest r Hr IH Hu|r Hr IH|inp r Hr IH Hb].
    - split; [|done]. split; [apply new_buffers_ok|done|done|done].
    - destruct (IH) as [[[] ? ? ?] ?]. split; [|done]. split; [by split|done|done|done].
    - destruct (IH) as [[[] ? ? ?] ?]. split; [|done]. by split.
    - destruct IH as [Hw Ht]. by destruct (within_tick inp r Hb Hw Ht) as (? & ? & _). }
  destruct Hinv as [Hw Ht]. split; [done|]. by apply within_tick.
Qed.

Lemma reader_within_bounds_witness :
  within (snd (tick (replicate 20 byte_ff) (snd (tick [] (start ex_header 1 new_reader))))).
Proof.
  apply (reader_within_bounds _ []); [|by constructor]. apply reach_tick; [apply reach_tick|].
  - apply reach_start; [exact reach_new|]. split; vm_compute; [discriminate|reflexivity].
  - by constructor.
  - apply Forall_replicate. done.
Defined.
