(* ===== verification/Writer.v ===== *)
(** * The image writer (src/lib/update/writer.h, writer.cpp)

    Writes one block at a time into a slot, erasing each sector when the first
    write reaches it.  The borrowed span [data_] is modelled by its bytes, which
    its owner leaves alone until the status is terminal. *)

From S2P Require Import Prelude Foundation StateMachine Flash.

Module WriterState.
Inductive State : Set := idle | prepare | erase_wait | program_wait | done | failed.
End WriterState.
#[global] Instance WriterState_eq_dec : EqDecision WriterState.State.
Proof. solve_decision. Defined.
#[export] Instance WriterState_enum : StateEnum WriterState.State := {|
  state_index (s : WriterState.State) := match s with
    | WriterState.idle => 0 | WriterState.prepare => 1 | WriterState.erase_wait => 2
    | WriterState.program_wait => 3 | WriterState.done => 4 | WriterState.failed => 5
    end%nat;
  state_count := 6%nat
|}.

Record Writer := mkWriter {
  machine_ : Machine WriterState.State;
  status_ : Status;
  data_ : list Z;
  word_ : list Z;
  base_ : Z; offset_ : Z; erased_until_ : Z;
  written_ : nat;
  operation_started_ : Time;
  requested_ : bool; cancelled_ : bool
}.
#[export] Instance Writer_eta : RecordEta Writer := fun r =>
  mkWriter (machine_ r) (status_ r) (data_ r) (word_ r) (base_ r) (offset_ r) (erased_until_ r) (written_ r)
    (operation_started_ r) (requested_ r) (cancelled_ r).

Definition new_writer : Writer :=
  mkWriter (initial_machine WriterState.idle) Status.ok [] (replicate 32 0) 0 0 0 0 0 false false.

#[export] Instance Writer_machine D : HasMachine (Writer * D) WriterState.State := {|
  machine w := machine_ (fst w);
  with_machine m w := ((fst w) <| machine_ := m |>, snd w)
|}.
#[export] Instance Writer_machine_laws D : HasMachineLaws (Writer * D) WriterState.State.
Proof. split; [done|done|by intros [[] ?]]. Qed.

Section writer.
Context {D : Type} (F : Flash D) (layout : Layout).

Definition begin (slot offset : Z) (data : list Z) (w : Writer) (d : D) : Status * Writer * D :=
  if status_ w =s? Status.busy then (Status.busy, w, d)
  else if negb (Layout_valid layout) || negb (flash_valid F) || (slot >=? 2) || (length data =? 0)%nat ||
          negb (offset mod write_size layout =? 0) || (offset >=? slot_size layout) ||
          (Z.of_nat (length data) >? slot_size layout - offset)
  then (Status.invalid_argument, w, d)
  else
    let '(polled, d) := flash_poll F d in
    if polled =s? Status.busy then (Status.busy, w, d)
    else
      let w := w <| base_ := sel (slots layout) slot |> <| offset_ := offset |> in
      let w := if offset =? 0 then w <| erased_until_ := 0 |> else w in
      (Status.ok,
       w <| written_ := 0%nat |> <| data_ := data |> <| requested_ := true |> <| cancelled_ := false |>
         <| status_ := Status.busy |>, d).

Definition cancel (w : Writer) : Writer := w <| cancelled_ := true |>.

(** The bytes of the next programming unit. *)
Definition unit_count (w : Writer) : nat :=
  Nat.min (Z.to_nat (write_size layout)) (length (data_ w) - written_ w).

Definition Step (cs : WriterState.State) (p : Writer * D) : WriterState.State * (Writer * D) :=
  let '(w, d) := p in
  match cs with
  | WriterState.idle | WriterState.done | WriterState.failed =>
      if requested_ w then (WriterState.prepare, (w <| requested_ := false |>, d)) else (cs, (w, d))
  | WriterState.prepare =>
      if cancelled_ w then (WriterState.done, (w <| status_ := Status.rejected |>, d))
      else if (written_ w =? length (data_ w))%nat then (WriterState.done, (w <| status_ := Status.ok |>, d))
      else
        let position := u32 (offset_ w + Z.of_nat (written_ w)) in
        let '(result, w, d, ns) :=
          if position >=? erased_until_ w then
            let sector := position - position mod sector_size layout in
            let '(result, d) := flash_erase F d (u32 (base_ w + sector)) in
            (result, w <| erased_until_ := u32 (sector + sector_size layout) |>, d, WriterState.erase_wait)
          else
            let word := blit 0 (sub (data_ w) (written_ w) (unit_count w)) (replicate 32 byte_ff) in
            let w := w <| word_ := word |> in
            let '(result, d) := flash_program F d (u32 (base_ w + position))
                                  (take (Z.to_nat (write_size layout)) (word_ w)) in
            (result, w, d, WriterState.program_wait) in
        let '(t, d) := flash_now F d in
        let w := w <| operation_started_ := t |> in
        if negb (result =s? Status.ok)
        then (WriterState.failed,
              (w <| status_ := if result =s? Status.busy then Status.io_error else result |>, d))
        else (ns, (w, d))
  | WriterState.erase_wait | WriterState.program_wait =>
      let '(result, d) := flash_poll F d in
      let '(result, d) :=
        if result =s? Status.busy then
          let '(t, d) := flash_now F d in
          (if u64 (t - operation_started_ w) >=? operation_timeout layout then Status.timeout else result, d)
        else (result, d) in
      if negb (result =s? Status.busy) then
        if negb (result =s? Status.ok) then (WriterState.failed, (w <| status_ := result |>, d))
        else if cancelled_ w then (WriterState.done, (w <| status_ := Status.rejected |>, d))
        else
          let w := if bool_decide (cs = WriterState.program_wait)
                   then w <| written_ := (written_ w + unit_count w)%nat |> else w in
          (WriterState.prepare, (w, d))
      else (cs, (w, d))
  end.

Definition tick (w : Writer) (d : D) : Writer * D := snd (StateMachine.tick (step_only Step) (w, d)).
End writer.
