(* ===== verification/WriterProof.v ===== *)
(** * What the image writer does to the flash

    Every operation of the writer stays inside its slot, whatever the device
    answers; and when a block is reported as written, the slot holds the blocks
    so far, one after the other, followed by erased cells. *)

From S2P Require Import Prelude Foundation Wire StateMachine Flash Codec Journal JournalScan Writer.

(** ** Geometry of a slot *)

Record slot_ok (l : Layout) (b : Z) : Prop := {
  so_base : 0 <= b;
  so_top : b + slot_size l <= 2 ^ 32;
  so_range : slot_size l < 2 ^ 32;
  so_size : 0 < slot_size l;
  so_sectors : slot_size l mod sector_size l = 0
}.

Lemma Layout_valid_slot l slot :
  layout_unsigned l -> Layout_valid l = true -> slot_ok l (sel (slots l) slot).
Proof.
  unfold Layout_valid. intros [[Hs0 Hs1] [Hm0 Hm1] [Hz Hsec] Ht] H.
  destruct (_ || _ || _ || _ || _ || _ || _ || _) eqn:E1; [done|].
  destruct (existsb _ _) eqn:E2; [done|]. cbn in H. breflect. unfold is_u32, is_u64 in *.
  repeat match type of H with (if ?c then false else _) = true => destruct c eqn:?; [done|] end.
  rewrite !orb_false_iff in *. destruct_and?. unfold sel. destruct (slot =? 0); split; lia.
Qed.

(** Adding a multiple of a divisor. *)
Lemma mod_sub_bound x n : 0 < n -> 0 <= x -> 0 <= x - x mod n <= x /\ (x - x mod n) mod n = 0.
Proof.
  intros Hn Hx. pose proof (Z.mod_pos_bound x n Hn). pose proof (Z.mod_le x n Hx Hn).
  split; [lia|]. rewrite Zminus_mod_idemp_r, Z.sub_diag. done.
Qed.

(** Between multiples of [n] there are at least [n]. *)
Lemma aligned_gap a c n : 0 < n -> a mod n = 0 -> c mod n = 0 -> a < c -> a + n <= c.
Proof.
  intros Hn Ha Hc Hlt. apply Z.mod_divide in Ha as [x ->]; [|lia]. apply Z.mod_divide in Hc as [y ->]; [|lia].
  assert (x < y) by nia. nia.
Qed.

Lemma aligned_trans a n k : 0 < k -> n mod k = 0 -> a mod n = 0 -> 0 < n -> a mod k = 0.
Proof.
  intros Hk Hn Ha H0. apply Z.mod_divide in Ha as [x ->]; [|lia]. apply Z.mod_divide in Hn as [y ->]; [|lia].
  apply Z.mod_divide; [lia|]. exists (x * y). lia.
Qed.

Lemma aligned_add a c n : 0 < n -> a mod n = 0 -> c mod n = 0 -> (a + c) mod n = 0.
Proof. intros Hn Ha Hc. by rewrite <- Z.add_mod_idemp_l, Ha, Z.add_0_l, Hc by lia. Qed.

(** ** The stages of a write *)

Section writer_proof.
Context {D : Type} (F : Flash D) (layout : Layout).
Context `{HC : !FlashContract F (sector_size layout) (write_size layout)}.
Context (Hlay : layout_ok layout) (b : Z) (Hslot : slot_ok layout b).
Implicit Types w : Writer.

Local Abbreviation ws := (write_size layout).
Local Abbreviation sec := (sector_size layout).

Definition pos w : Z := offset_ w + Z.of_nat (written_ w).

(** The request fits the slot. *)
Record geometry w : Prop := {
  ge_base : base_ w = b;
  ge_bytes : bytes_ok (data_ w);
  ge_offset : 0 <= offset_ w /\ offset_ w mod ws = 0;
  ge_fits : offset_ w + Z.of_nat (length (data_ w)) <= slot_size layout;
  ge_written : (written_ w <= length (data_ w))%nat;
  ge_unit : Z.of_nat (written_ w) mod ws = 0 \/ written_ w = length (data_ w)
}.

(** The bytes of the unit at the current position. *)
Definition unit_bytes w : list Z :=
  take (Z.to_nat ws) (blit 0 (sub (data_ w) (written_ w) (unit_count layout w)) (replicate 32 byte_ff)).

Definition working w : Prop := requested_ w = false /\ status_ w = Status.busy.
Definition more w : Prop := (written_ w < length (data_ w))%nat.

Definition stage (cs : WriterState.State) w (d : D) : Prop :=
  match cs with
  | WriterState.prepare => working w /\ flight d = None /\ geometry w
  | WriterState.erase_wait =>
      working w /\ geometry w /\ more w /\ flight d = Some (OpErase (b + (pos w - pos w mod sec)) sec)
  | WriterState.program_wait =>
      working w /\ geometry w /\ more w /\ flight d = Some (OpProgram (b + pos w) (unit_bytes w))
  | _ =>
      if requested_ w then status_ w = Status.busy /\ flight d = None /\ geometry w
      else status_ w <> Status.busy /\ (status_ w = Status.ok -> flight d = None)
  end.

Definition in_slot (x : Z) : Prop := in_block b (slot_size layout) x.
Definition op_in_slot (o : Op) : Prop :=
  0 <= op_size o /\ forall x, in_block (op_start o) (op_size o) x -> in_slot x.

Lemma unit_pos : 0 < ws <= 32 /\ 0 < sec /\ sec mod ws = 0.
Proof.
  destruct Hlay as [Hs Hr Hw]. split; [lia|]. split; [lia|].
  apply (aligned_trans _ 256); [lia|by destruct Hw as [-> | ->]|done|lia].
Qed.

Lemma length_unit w : length (unit_bytes w) = Z.to_nat ws.
Proof. pose proof unit_pos. unfold unit_bytes. rewrite length_take, length_blit, length_replicate. lia. Qed.

Lemma unit_ok w : bytes_ok (data_ w) -> bytes_ok (unit_bytes w).
Proof.
  intros H. unfold unit_bytes. apply Forall_take, Forall_blit; [by apply Forall_sub|].
  apply Forall_replicate. done.
Qed.

(** The unit at the position, and the sector around it, lie in the slot. *)
Lemma pos_facts w :
  geometry w -> more w ->
  0 <= pos w < slot_size layout /\ pos w mod ws = 0 /\ pos w + ws <= slot_size layout /\
  0 <= pos w - pos w mod sec /\ pos w - pos w mod sec + sec <= slot_size layout.
Proof.
  intros [_ _ [Ho Hoa] Hfit Hw Hu] Hm. pose proof unit_pos as (Hws & Hsec & Hsw). destruct Hslot.
  unfold more in Hm. destruct Hu as [Hu|Hu]; [|lia]. unfold pos.
  assert (Hpa : (offset_ w + Z.of_nat (written_ w)) mod ws = 0) by (apply aligned_add; [lia|done|done]).
  assert (Hsl : slot_size layout mod ws = 0) by (by apply (aligned_trans _ sec); first [lia|done]).
  destruct (mod_sub_bound (offset_ w + Z.of_nat (written_ w)) sec Hsec ltac:(lia)) as [H1 H2].
  split_and!; [lia|lia|done| |lia|].
  - apply aligned_gap; [lia|done|done|lia].
  - apply aligned_gap; [lia|done|done|lia].
Qed.

(** ** The contents of the slot *)

(** The slot holds [pre] and the written part of the block, and is erased from
    there to [erased_until_]; while an erase is pending it starts right there. *)
Record exact (waiting : bool) (pre : list Z) w (m : Mem) : Prop := {
  ex_offset : offset_ w = Z.of_nat (length pre);
  ex_held : mem_read m b (length pre + written_ w) = Some (pre ++ take (written_ w) (data_ w));
  ex_erased : erased_until_ w mod sec = 0 /\ pos w <= erased_until_ w <= slot_size layout;
  ex_blank : if waiting then erased_until_ w = pos w + sec /\ pos w mod sec = 0
             else forall x, in_block (b + pos w) (erased_until_ w - pos w) x -> m x = Some byte_ff
}.

Definition progress (pre : list Z) (cs : WriterState.State) w (d : D) : Prop :=
  match cs with
  | WriterState.erase_wait => exact true pre w (view d)
  | WriterState.prepare => exact false pre w (view d)
  | WriterState.program_wait => exact false pre w (view d) /\ pos w < erased_until_ w
  | _ =>
      if requested_ w then exact false pre w (view d)
      else status_ w = Status.ok ->
           exact false pre w (view d) /\ written_ w = length (data_ w) /\ flight d = None
  end.

Definition step_keeps (cs : WriterState.State) w (d : D) : Prop :=
  let '(ns, (w', d')) := Writer.Step F layout cs (w, d) in
  dev_ok d' /\ stage ns w' d' /\ (forall x, ~ in_slot x -> view d' x = view d x) /\
  (forall o, flight d' = Some o -> flight d = Some o \/ op_in_slot o) /\
  (forall pre, progress pre cs w d -> progress pre ns w' d').

Lemma step_rest cs w d :
  dev_ok d -> stage cs w d ->
  (cs = WriterState.idle \/ cs = WriterState.done \/ cs = WriterState.failed) -> step_keeps cs w d.
Proof.
  intros Hd Hs Hcs. unfold step_keeps.
  destruct Hcs as [->|[->| ->]]; cbn [Writer.Step stage progress] in *;
    (destruct (requested_ w) eqn:Er; [destruct Hs as (Hb & Hf & Hg)|];
     cbn [stage progress]; rewrite ?Er; split_and!; auto).
  all: first [apply Hs|by split|by destruct Hg; split|by intros pre []; split].
Qed.

Lemma erase_confined w : geometry w -> more w -> op_in_slot (OpErase (b + (pos w - pos w mod sec)) sec).
Proof.
  intros Hg Hm. pose proof (pos_facts w Hg Hm). pose proof unit_pos. split; [cbn; lia|]. intros x Hx.
  unfold in_slot, in_block in *. cbn in *. lia.
Qed.
Lemma program_confined w : geometry w -> more w -> op_in_slot (OpProgram (b + pos w) (unit_bytes w)).
Proof.
  intros Hg Hm. pose proof (pos_facts w Hg Hm). pose proof unit_pos. split; [cbn; lia|]. intros x Hx.
  unfold in_slot, in_block in *. cbn in *. rewrite length_unit in Hx. lia.
Qed.

(** The addresses the step computes do not wrap. *)
Lemma pos_u32 w : geometry w -> more w ->
  u32 (offset_ w + Z.of_nat (written_ w)) = pos w /\ u32 (b + pos w) = b + pos w /\
  u32 (b + (pos w - pos w mod sec)) = b + (pos w - pos w mod sec) /\
  u32 (pos w - pos w mod sec + sec) = pos w - pos w mod sec + sec.
Proof.
  intros Hg Hm. pose proof (pos_facts w Hg Hm) as (H1 & _ & H2 & H3 & H4). destruct Hslot. pose proof unit_pos.
  destruct Hlay. unfold pos in *. rewrite !u32_small by (unfold is_u32; lia). done.
Qed.

(** A record update outside the fields that the predicates mention. *)
Lemma geometry_ext w w' :
  base_ w' = base_ w -> data_ w' = data_ w -> offset_ w' = offset_ w -> written_ w' = written_ w ->
  geometry w -> geometry w'.
Proof. intros E1 E2 E3 E4 []. split; rewrite ?E1, ?E2, ?E3, ?E4; assumption. Qed.

Lemma exact_ext waiting pre w w' m :
  data_ w' = data_ w -> offset_ w' = offset_ w -> written_ w' = written_ w -> erased_until_ w' = erased_until_ w ->
  exact waiting pre w m -> exact waiting pre w' m.
Proof. intros E2 E3 E4 E5 []. split; unfold pos in *; rewrite ?E2, ?E3, ?E4, ?E5; assumption. Qed.

Lemma start_status st : st <> Status.ok -> (if st =s? Status.busy then Status.io_error else st) <> Status.ok /\
  (if st =s? Status.busy then Status.io_error else st) <> Status.busy.
Proof. intros H. destruct (st =s? Status.busy) eqn:E; [done|]. by apply st_eqb_neq in E. Qed.

Lemma writer_step_erase w d :
  dev_ok d -> stage WriterState.prepare w d -> more w -> cancelled_ w = false ->
  erased_until_ w <= pos w -> step_keeps WriterState.prepare w d.
Proof.
  intros Hd ([Hrq Hbusy] & Hf & Hg) Hm Hc Her. unfold step_keeps, Writer.Step.
  pose proof (pos_u32 w Hg Hm) as (-> & _ & Ha & He). pose proof (ge_base _ Hg) as Hbase.
  rewrite Hc, (proj2 (Nat.eqb_neq _ _)) by (unfold more in Hm; lia). cbn zeta.
  rewrite Hbase, Ha, He. replace (pos w >=? erased_until_ w) with true by lia.
  destruct (erase_spec d (b + (pos w - pos w mod sec)) Hd Hf) as (st & d1 & -> & Hd1 & Hv1 & Hf1).
  destruct (now_spec d1 Hd1) as (t & d2 & -> & Hd2 & Hv2 & Hf2).
  assert (Hv : view d2 = view d) by congruence. rewrite Hf1 in Hf2.
  destruct (st =s? Status.ok) eqn:Est; cbn [negb].
  - split; [done|]. split; [|split; [by rewrite Hv|split]].
    + unfold stage. split; [by split|]. split; [by apply (geometry_ext w)|]. split; [exact Hm|]. exact Hf2.
    + intros o Ho. right. rewrite Hf2 in Ho. injection Ho as <-. by apply erase_confined.
    + intros pre [Ho Hh [Hea Her2] Hbl]. unfold progress. rewrite Hv.
      assert (Hpe : pos w = erased_until_ w) by lia. rewrite <- Hpe in Hea.
      pose proof (pos_facts w Hg Hm) as (_ & _ & _ & _ & Hs4). rewrite Hea, Z.sub_0_r in *.
      pose proof unit_pos. split; [exact Ho|exact Hh| |].
      * cbn [erased_until_ field_update]. change (pos _) with (pos w). split; [|lia].
        apply aligned_add; [lia|done|]. apply Z.mod_same. lia.
      * cbn [erased_until_ field_update]. change (pos _) with (pos w). by split.
  - apply st_eqb_neq in Est. destruct (start_status st Est) as [Hno Hnb].
    split; [done|]. split; [|split; [by rewrite Hv|split]].
    + unfold stage. cbn [requested_ status_ field_update]. by rewrite Hrq; split.
    + intros o Ho. congruence.
    + intros pre _. unfold progress. cbn [requested_ status_ field_update]. rewrite Hrq. done.
Qed.

Lemma step_program w d :
  dev_ok d -> stage WriterState.prepare w d -> more w -> cancelled_ w = false ->
  pos w < erased_until_ w -> step_keeps WriterState.prepare w d.
Proof.
  intros Hd ([Hrq Hbusy] & Hf & Hg) Hm Hc Her. unfold step_keeps, Writer.Step.
  pose proof (pos_u32 w Hg Hm) as (-> & Ha & _ & _). pose proof (ge_base _ Hg) as Hbase.
  rewrite Hc, (proj2 (Nat.eqb_neq _ _)) by (unfold more in Hm; lia). cbn zeta.
  replace (pos w >=? erased_until_ w) with false by lia.
  cbn [base_ word_ field_update]. rewrite Hbase, Ha.
  change (take (Z.to_nat ws) (blit 0 _ (replicate 32 byte_ff))) with (unit_bytes w).
  destruct (program_spec d (b + pos w) (unit_bytes w) Hd Hf) as (st & d1 & -> & Hd1 & Hv1 & Hf1);
    [apply unit_ok, Hg|rewrite length_unit; pose proof unit_pos; lia|].
  destruct (now_spec d1 Hd1) as (t & d2 & -> & Hd2 & Hv2 & Hf2).
  assert (Hv : view d2 = view d) by congruence. rewrite Hf1 in Hf2.
  destruct (st =s? Status.ok) eqn:Est; cbn [negb].
  - split; [done|]. split; [|split; [by rewrite Hv|split]].
    + unfold stage. split; [by split|]. split; [by apply (geometry_ext w)|]. split; [exact Hm|]. exact Hf2.
    + intros o Ho. right. rewrite Hf2 in Ho. injection Ho as <-. by apply program_confined.
    + intros pre Hex. unfold progress in *. rewrite Hv. split; [by apply (exact_ext _ _ w)|exact Her].
  - apply st_eqb_neq in Est. destruct (start_status st Est) as [Hno Hnb].
    split; [done|]. split; [|split; [by rewrite Hv|split]].
    + unfold stage. cbn [requested_ status_ field_update]. by rewrite Hrq; split.
    + intros o Ho. congruence.
    + intros pre _. unfold progress. cbn [requested_ status_ field_update]. rewrite Hrq. done.
Qed.

Lemma step_prepare w d : dev_ok d -> stage WriterState.prepare w d -> step_keeps WriterState.prepare w d.
Proof.
  intros Hd Hs. pose proof Hs as ([Hrq Hbusy] & Hf & Hg).
  destruct (cancelled_ w) eqn:Hc.
  { unfold step_keeps, Writer.Step. rewrite Hc. unfold stage, progress. cbn [requested_ status_ field_update].
    rewrite Hrq. split_and!; auto; done. }
  destruct (decide (written_ w = length (data_ w))) as [Hw|Hw].
  { unfold step_keeps, Writer.Step. rewrite Hc, (proj2 (Nat.eqb_eq _ _) Hw). unfold stage, progress.
    cbn [requested_ status_ field_update]. rewrite Hrq. split; [exact Hd|]. split; [by split|]. split; [done|]. split; [by left|].
    intros pre Hex _. split; [by apply (exact_ext _ _ w)|by split]. }
  assert (Hm : more w) by (destruct Hg; unfold more; lia).
  destruct (decide (pos w < erased_until_ w)); [by apply step_program|apply writer_step_erase; [done..|lia]].
Qed.

(** A poll of the writer's operation. *)
Lemma poll_confined d o :
  dev_ok d -> flight d = Some o -> op_in_slot o ->
  exists st d', flash_poll F d = (st, d') /\ dev_ok d' /\ (forall x, ~ in_slot x -> view d' x = view d x) /\
    (st = Status.busy /\ view d' = view d /\ flight d' = Some o \/
     st <> Status.busy /\ flight d' = None /\ (st = Status.ok -> op_done o (view d) (view d'))).
Proof.
  intros Hd Hf Ho. destruct (poll_spec d Hd) as (st & d' & E & Hd' & Hp). rewrite Hf in Hp.
  exists st, d'. split; [done|]. split; [done|]. split.
  - intros x Hx. assert (Hnot : ~ in_block (op_start o) (op_size o) x) by (intros H; by apply Hx, (proj2 Ho)).
    destruct st; destruct Hp as [Hp _]; first [by apply (proj1 Hp)|by rewrite Hp].
  - destruct st; destruct Hp as [Hp Hp2]; first [by left|right; split; [done|split; [done|]]; done].
Qed.

(** The cells after a completed erase of the sector at the position. *)
Lemma exact_erased pre w m m' :
  geometry w -> more w -> exact true pre w m -> op_done (OpErase (b + (pos w - pos w mod sec)) sec) m m' ->
  exact false pre w m'.
Proof.
  intros Hg Hm [Ho Hh Her [Hbl Hal]] [Hout Hin]. rewrite Hal, Z.sub_0_r in *. cbn [op_start op_size] in Hout.
  split; [done| |done|].
  - rewrite <- Hh. apply mem_read_ext. intros x Hx. apply Hout. unfold in_block, pos in *. lia.
  - intros x Hx. apply Hin. rewrite Hbl in Hx. unfold in_block in *. lia.
Qed.

Lemma unit_split w : geometry w -> more w ->
  unit_bytes w = sub (data_ w) (written_ w) (unit_count layout w) ++ replicate (Z.to_nat ws - unit_count layout w) byte_ff.
Proof.
  intros Hg Hm. pose proof unit_pos. unfold more in Hm. unfold unit_bytes.
  assert (Hc : (unit_count layout w <= Z.to_nat ws /\ unit_count layout w <= length (data_ w) - written_ w)%nat)
    by (unfold unit_count; lia).
  assert (Hl : length (sub (data_ w) (written_ w) (unit_count layout w)) = unit_count layout w) by (apply length_sub; lia).
  apply list_eq. intros i. destruct (decide (i < Z.to_nat ws)%nat).
  2:{ rewrite lookup_take_ge by lia. symmetry. apply lookup_ge_None. rewrite length_app, length_replicate, Hl. lia. }
  rewrite lookup_take_lt by lia. destruct (decide (i < unit_count layout w)%nat).
  - rewrite lookup_blit_in by (rewrite ?Hl, ?length_replicate; lia). rewrite lookup_app_l by (rewrite Hl; lia).
    f_equal. lia.
  - rewrite lookup_blit_out by (rewrite Hl; lia). rewrite lookup_app_r by (rewrite Hl; lia).
    rewrite !lookup_replicate_2; [done|rewrite Hl; lia|lia].
Qed.

(** The cells after a completed unit. *)
Lemma exact_programmed pre w m m' :
  geometry w -> more w -> exact false pre w m -> pos w < erased_until_ w ->
  op_done (OpProgram (b + pos w) (unit_bytes w)) m m' ->
  exact false pre (w <| written_ := (written_ w + unit_count layout w)%nat |>) m'.
Proof.
  intros Hg Hm [Ho Hh [Hea Her] Hbl] Hlt [Hout Hin]. cbn [op_start op_size] in *.
  pose proof (pos_facts w Hg Hm) as (Hp1 & Hp2 & _). pose proof unit_pos as (Hws & Hsec & Hsw).
  pose proof (unit_split w Hg Hm) as Hus. unfold more in Hm.
  assert (Hc : (unit_count layout w <= Z.to_nat ws /\ unit_count layout w <= length (data_ w) - written_ w)%nat)
    by (unfold unit_count; lia).
  set (c := unit_count layout w) in *.
  assert (Hfit : pos w + ws <= erased_until_ w).
  { apply aligned_gap; [lia|done| |done]. by apply (aligned_trans _ sec); first [lia|done]. }
  rewrite length_unit in *. rewrite Z2Nat.id in * by lia.
  assert (Hread : mem_read m' (b + pos w) (Z.to_nat ws) = Some (unit_bytes w)).
  { apply Hin. intros x Hx. apply Hbl. unfold in_block in *. lia. }
  assert (Hsl : length (sub (data_ w) (written_ w) c) = c) by (apply length_sub; lia).
  split.
  - exact Ho.
  - cbn [written_ data_ field_update]. rewrite Nat.add_assoc.
    replace (pre ++ take (written_ w + c) (data_ w))
      with ((pre ++ take (written_ w) (data_ w)) ++ sub (data_ w) (written_ w) c)
      by (unfold sub; by rewrite <- app_assoc, take_take_drop).
    apply mem_read_app.
    + rewrite <- Hh. apply mem_read_ext. intros x Hx. apply Hout. unfold in_block, pos in *. lia.
    + apply (mem_read_sub _ _ _ _ 0 c) in Hread; [|lia].
      replace (b + Z.of_nat (length pre + written_ w)) with (b + pos w + Z.of_nat 0) by (unfold pos; lia).
      rewrite Hread, Hus. f_equal. unfold sub at 1. rewrite drop_0, take_app_length'; [done|lia].
  - cbn [erased_until_ field_update]. unfold pos in *. cbn [offset_ written_ field_update]. split; [done|]. lia.
  - intros x Hx. unfold pos in Hx. cbn [offset_ written_ erased_until_ field_update] in Hx. fold c in Hx.
    destruct (decide (x < b + pos w + ws)).
    + apply mem_read_Some in Hread as [_ Hread]. unfold in_block, pos in *.
      replace x with (b + (offset_ w + Z.of_nat (written_ w)) + Z.of_nat (Z.to_nat (x - b - (offset_ w + Z.of_nat (written_ w)))))
        by lia.
      rewrite <- Hread by lia. rewrite Hus, lookup_app_r by lia. apply lookup_replicate_2. lia.
    + rewrite Hout by (unfold in_block; lia). apply Hbl. unfold in_block, pos in *. lia.
Qed.

Lemma geometry_unit w : geometry w -> more w ->
  geometry (w <| written_ := (written_ w + unit_count layout w)%nat |>).
Proof.
  intros [H1 H2 H3 H4 H5 H6] Hm. unfold more in Hm. pose proof unit_pos as (Hws & _).
  destruct H6 as [H6|H6]; [|lia].
  split; try assumption; cbn [written_ data_ field_update]; [unfold unit_count; lia|].
  destruct (decide (Z.to_nat ws <= length (data_ w) - written_ w)%nat).
  - left. unfold unit_count. rewrite Nat.min_l, Nat2Z.inj_add, Z2Nat.id by lia.
    apply aligned_add; [lia|done|]. apply Z.mod_same. lia.
  - right. unfold unit_count. lia.
Qed.

(** The result of a poll as the step sees it, after the check of the clock. *)
Lemma waited cs w d o :
  dev_ok d -> (cs = WriterState.erase_wait \/ cs = WriterState.program_wait) -> working w -> stage cs w d ->
  flight d = Some o -> op_in_slot o ->
  (forall d', dev_ok d' -> flight d' = None -> op_done o (view d) (view d') -> forall w',
     w' = (if bool_decide (cs = WriterState.program_wait)
           then w <| written_ := (written_ w + unit_count layout w)%nat |> else w) ->
     stage WriterState.prepare w' d' /\
     (forall pre, progress pre cs w d -> progress pre WriterState.prepare w' d')) ->
  step_keeps cs w d.
Proof.
  intros Hd Hcs [Hrq Hbusy] Hs Hf Ho Hnext. unfold step_keeps.
  destruct (poll_confined d o Hd Hf Ho) as (st & d1 & Ep & Hd1 & Hv1 & Hcase).
  assert (Hstep : Writer.Step F layout cs (w, d) =
    let '(result, d) := flash_poll F d in
    let '(result, d) :=
      if result =s? Status.busy then
        let '(t, d) := flash_now F d in
        (if u64 (t - operation_started_ w) >=? operation_timeout layout then Status.timeout else result, d)
      else (result, d) in
    if negb (result =s? Status.busy) then
      if negb (result =s? Status.ok) then (WriterState.failed, (w <| status_ := result |>, d))
      else if cancelled_ w then (WriterState.done, (w <| status_ := Status.rejected |>, d))
      else (WriterState.prepare,
            (if bool_decide (cs = WriterState.program_wait)
             then w <| written_ := (written_ w + unit_count layout w)%nat |> else w, d))
    else (cs, (w, d))) by (by destruct Hcs as [->| ->]).
  rewrite Hstep, Ep. clear Hstep.
  destruct Hcase as [(-> & Hv & Hf1)|(Hnb & Hf1 & Hdone)].
  - cbn [st_eqb]. change (Status.busy =s? Status.busy) with true. cbn iota.
    destruct (now_spec d1 Hd1) as (t & d2 & -> & Hd2 & Hv2 & Hf2). rewrite Hf1 in Hf2.
    destruct (_ >=? _).
    + change (Status.timeout =s? Status.busy) with false. cbn [negb].
      change (Status.timeout =s? Status.ok) with false. cbn [negb].
      split; [done|]. unfold stage, progress. cbn [requested_ status_ field_update]. rewrite Hrq.
      split; [by split|]. split; [by rewrite Hv2|]. split; [|done]. intros o' Ho'. left. congruence.
    + change (Status.busy =s? Status.busy) with true. cbn [negb]. split; [done|].
      split; [|split; [by rewrite Hv2|split; [intros o' Ho'; left; congruence|]]].
      2:{ intros pre. destruct Hcs as [->| ->]; unfold progress; by rewrite Hv2, Hv. }
      destruct Hcs as [->| ->]; destruct Hs as (H1 & H2 & H3 & H4); unfold stage; rewrite Hf2, <- Hf, H4; by split_and!.
  - rewrite (proj2 (st_eqb_neq _ _) Hnb). cbn iota. rewrite (proj2 (st_eqb_neq _ _) Hnb). cbn [negb].
    destruct (st =s? Status.ok) eqn:Eok; cbn [negb].
    2:{ apply st_eqb_neq in Eok. split; [done|]. unfold stage, progress. cbn [requested_ status_ field_update]. rewrite Hrq.
        split; [by split|]. split; [done|]. split; [intros o' Ho'; congruence|done]. }
    apply st_eqb_eq in Eok. destruct (cancelled_ w).
    { split; [done|]. unfold stage, progress. cbn [requested_ status_ field_update]. rewrite Hrq.
      split; [by split|]. split; [done|]. split; [intros o' Ho'; congruence|done]. }
    destruct (Hnext d1 Hd1 Hf1 (Hdone Eok) _ eq_refl) as [Hst Hpr].
    split; [done|]. split; [exact Hst|]. split; [done|]. split; [intros o' Ho'; congruence|exact Hpr].
Qed.

Lemma step_wait cs w d :
  dev_ok d -> stage cs w d -> (cs = WriterState.erase_wait \/ cs = WriterState.program_wait) -> step_keeps cs w d.
Proof.
  intros Hd Hs Hcs. destruct Hcs as [->| ->]; pose proof Hs as (Hw & Hg & Hm & Hf).
  - apply (waited _ w d _ Hd (or_introl eq_refl) Hw Hs Hf (erase_confined w Hg Hm)).
    intros d' Hd' Hf' Hdone w' ->. rewrite bool_decide_eq_false_2 by done. split; [by split_and!|].
    intros pre Hex. by apply (exact_erased _ _ (view d)).
  - apply (waited _ w d _ Hd (or_intror eq_refl) Hw Hs Hf (program_confined w Hg Hm)).
    intros d' Hd' Hf' Hdone w' ->. rewrite bool_decide_eq_true_2 by done.
    split; [split; [exact Hw|split; [exact Hf'|by apply geometry_unit]]|].
    intros pre [Hex Hlt]. by apply (exact_programmed _ _ (view d)).
Qed.

Lemma writer_step_keeps cs w d : dev_ok d -> stage cs w d -> step_keeps cs w d.
Proof.
  intros Hd Hs. destruct cs;
    [apply step_rest|apply step_prepare|apply step_wait|apply step_wait|apply step_rest|apply step_rest]; auto.
Qed.

(** ** Ticks *)

Lemma writer_oblivious s m (x : Writer * D) :
  Writer.Step F layout s (with_machine m x) =
    (fst (Writer.Step F layout s x), with_machine m (snd (Writer.Step F layout s x))).
Proof.
  destruct x as [w d]. cbn [with_machine Writer_machine fst snd]. unfold Writer.Step.
  destruct s; cbn [requested_ cancelled_ written_ data_ offset_ erased_until_ base_ word_ operation_started_ status_ field_update].
  all: change (unit_count layout (w <| machine_ := m |>)) with (unit_count layout w).
  all: repeat (split_match; cbn [fst snd]); try done.
Qed.

Lemma writer_tick w d :
  ticking_ (machine_ w) = false ->
  Writer.tick F layout w d =
    let '(ns, (w1, d1)) := Writer.Step F layout (cs (machine_ w)) (w, d) in
    (w1 <| machine_ := post_machine ns (machine_ w) |>, d1).
Proof.
  intros Ht. unfold Writer.tick. rewrite (tick_oblivious _ (w, d) writer_oblivious Ht).
  cbn [machine Writer_machine fst]. destruct (Writer.Step _ _ _ _) as [ns [w1 d1]]. done.
Qed.

Record Inv w (d : D) : Prop := {
  inv_dev : dev_ok d;
  inv_machine : ticking_ (machine_ w) = false;
  inv_stage : stage (cs (machine_ w)) w d
}.

Lemma writer_stage_machine cs w d m : stage cs w d -> stage cs (w <| machine_ := m |>) d.
Proof.
  assert (Hg : geometry w -> geometry (w <| machine_ := m |>)) by (by apply geometry_ext).
  unfold stage. cbn [requested_ status_ field_update].
  destruct cs; try (destruct (requested_ w)); intuition auto.
Qed.

Lemma progress_machine pre cs w c m : progress pre cs w c -> progress pre cs (w <| machine_ := m |>) c.
Proof.
  assert (He : forall b0, exact b0 pre w (view c) -> exact b0 pre (w <| machine_ := m |>) (view c)) by (intros b0; by apply exact_ext).
  unfold progress. cbn [requested_ status_ written_ data_ field_update].
  destruct cs; try (destruct (requested_ w)); intuition auto.
Qed.

Lemma writer_Inv_tick w d :
  Inv w d ->
  let '(w', d') := Writer.tick F layout w d in
  Inv w' d' /\ (forall x, ~ in_slot x -> view d' x = view d x) /\
  (forall o, flight d' = Some o -> flight d = Some o \/ op_in_slot o) /\
  (forall pre, progress pre (cs (machine_ w)) w d -> progress pre (cs (machine_ w')) w' d').
Proof.
  intros [Hd Ht Hs]. rewrite writer_tick by done.
  pose proof (writer_step_keeps _ w d Hd Hs) as Hk. unfold step_keeps in Hk.
  destruct (Writer.Step _ _ _ _) as [ns [w1 d1]]. destruct Hk as (Hd1 & Hs1 & Hv & Hf & Hp).
  assert (Hcs : cs (post_machine ns (machine_ w)) = ns) by (rewrite cs_post_machine; by destruct ns).
  cbn [machine_ field_update]. rewrite Hcs. split; [|split; [done|split; [done|]]].
  - split; [done|done|]. cbn [machine_ field_update]. rewrite Hcs. by apply writer_stage_machine.
  - intros pre Hpr. by apply progress_machine, Hp.
Qed.

(** ** A block *)

(** Between two blocks: the slot holds [pre], and is erased from there to
    [erased_until_], unless nothing has been written yet. *)
Definition frontier (pre : list Z) w (m : Mem) : Prop :=
  mem_read m b (length pre) = Some pre /\
  (pre = [] \/
   erased_until_ w mod sec = 0 /\ Z.of_nat (length pre) <= erased_until_ w <= slot_size layout /\
   forall x, in_block (b + Z.of_nat (length pre)) (erased_until_ w - Z.of_nat (length pre)) x -> m x = Some byte_ff).

Definition resting w : Prop :=
  ticking_ (machine_ w) = false /\
  (cs (machine_ w) = WriterState.idle \/ cs (machine_ w) = WriterState.done \/ cs (machine_ w) = WriterState.failed).

Lemma writer_begin_spec slot offset data w d :
  sel (slots layout) slot = b -> dev_ok d -> flight d = None -> resting w -> bytes_ok data -> 0 <= offset ->
  exists st w' d', Writer.begin F layout slot offset data w d = (st, w', d') /\
    dev_ok d' /\ view d' = view d /\ flight d' = None /\
    (st <> Status.ok /\ w' = w \/
     st = Status.ok /\ Inv w' d' /\ status_ w' = Status.busy /\ data_ w' = data /\
     forall pre, offset = Z.of_nat (length pre) -> frontier pre w (view d) ->
       progress pre (cs (machine_ w')) w' d').
Proof.
  intros Hb Hd Hf [Ht Hcs] Hdata Hoff. unfold Writer.begin.
  destruct (status_ w =s? Status.busy). { do 3 eexists. split; [done|]. by split_and!; [..|left]. }
  destruct (_ || _) eqn:Ebad. { do 3 eexists. split; [done|]. by split_and!; [..|left]. }
  rewrite !orb_false_iff in Ebad. destruct_and? Ebad. breflect.
  destruct (poll_spec d Hd) as (pst & d1 & -> & Hd1 & Hp). rewrite Hf in Hp. destruct Hp as (Hnb & Hv1 & Hf1).
  rewrite (proj2 (st_eqb_neq _ _) Hnb). do 3 eexists. split; [done|]. split; [done|]. split; [done|]. split; [done|].
  right. split; [done|]. rewrite Hb.
  set (w1 := if offset =? 0 then _ else _).
  assert (Hw1 : machine_ w1 = machine_ w /\ base_ w1 = b /\ offset_ w1 = offset /\
    erased_until_ w1 = if offset =? 0 then 0 else erased_until_ w).
  { unfold w1. by destruct (offset =? 0). }
  destruct Hw1 as (Em & Eb & Eo & Ee). clearbody w1.
  assert (Hg : geometry (w1 <| written_ := 0%nat |> <| data_ := data |> <| requested_ := true |>
                            <| cancelled_ := false |> <| status_ := Status.busy |>)).
  { split; cbn [base_ data_ offset_ written_ field_update]; rewrite ?Eb, ?Eo; try done; try lia. by left. }
  split.
  { split; [done|by rewrite <- Em in Ht|]. cbn [machine_ field_update]. rewrite Em.
    destruct Hcs as [->|[->| ->]]; unfold stage; cbn [requested_ field_update]; by split_and!. }
  split; [done|]. split; [done|]. intros pre Hpre [Hread Hcase]. cbn [machine_ field_update]. rewrite Em.
  assert (Hex : exact false pre (w1 <| written_ := 0%nat |> <| data_ := data |> <| requested_ := true |>
                            <| cancelled_ := false |> <| status_ := Status.busy |>) (view d)).
  { destruct Hslot. pose proof unit_pos. split; unfold pos; cbn [offset_ written_ data_ erased_until_ field_update]; rewrite ?Eo, ?Ee.
    - done.
    - by rewrite Nat.add_0_r, take_0, app_nil_r.
    - rewrite Z.add_0_r. destruct (Z.eqb_spec offset 0) as [E0|E0].
      + split; [by apply Z.mod_0_l; lia|lia].
      + destruct Hcase as [->|(? & ? & ?)]; [by cbn in Hpre|]. split; [done|lia].
    - rewrite Z.add_0_r. destruct (Z.eqb_spec offset 0) as [E0|E0].
      + intros x Hx. unfold in_block in Hx. lia.
      + destruct Hcase as [->|(? & ? & ?)]; [by cbn in Hpre|]. by rewrite Hpre. }
  rewrite <- Hv1 in Hex. destruct Hcs as [->|[->| ->]]; exact Hex.
Qed.

Definition tick_pair (x : Writer * D) : Writer * D := Writer.tick F layout (fst x) (snd x).

Lemma writer_Inv_ticks n w d :
  Inv w d ->
  let '(w', d') := Nat.iter n tick_pair (w, d) in
  Inv w' d' /\ (forall x, ~ in_slot x -> view d' x = view d x) /\
  (forall pre, progress pre (cs (machine_ w)) w d -> progress pre (cs (machine_ w')) w' d').
Proof.
  intros HI. induction n as [|n IH]; [done|]. cbn.
  change (nat_rect _ _ _ n) with (Nat.iter n tick_pair (w, d)).
  destruct (Nat.iter n tick_pair (w, d)) as [w0 d0]. destruct IH as (HI0 & Hv0 & Hp0).
  pose proof (writer_Inv_tick w0 d0 HI0) as H. unfold tick_pair. cbn [fst snd].
  destruct (Writer.tick _ _ _ _) as [w' d']. destruct H as (HI' & Hv' & _ & Hp').
  split; [done|]. split; [|auto]. intros x Hx. by rewrite Hv', Hv0.
Qed.
End writer_proof.

(** The data of a finished write does not change any more. *)
Lemma data_tick {D} (F : Flash D) layout w d : data_ (fst (Writer.tick F layout w d)) = data_ w.
Proof.
  destruct (ticking_ (machine_ w)) eqn:Ht.
  - unfold Writer.tick, StateMachine.tick. cbn [machine Writer_machine fst]. by rewrite Ht.
  - rewrite writer_tick by done. destruct (Writer.Step _ _ _ _) as [ns [w1 d1]] eqn:Es. cbn [fst data_ field_update].
    revert Es. unfold Writer.Step. destruct (cs (machine_ w)); cbn zeta;
      repeat (split_match; cbn [fst snd]); intros E; injection E as <- <- <-; try done;
      by repeat match goal with E : (_, _, _, _) = (_, _, _, _) |- _ => injection E as <- <- <- <- end.
Qed.

Lemma data_ticks {D} (F : Flash D) layout n w d :
  data_ (fst (Nat.iter n (tick_pair F layout) (w, d))) = data_ w.
Proof. induction n as [|n IH]; [done|]. etransitivity; [apply data_tick|exact IH]. Qed.

(** The request's position is fixed as well. *)
Lemma exact_complete {D} (F : Flash D) layout `{!FlashContract F (sector_size layout) (write_size layout)} b pre w m :
  exact layout b false pre w m -> written_ w = length (data_ w) ->
  mem_read m b (length pre + length (data_ w)) = Some (pre ++ data_ w) /\ frontier layout b (pre ++ data_ w) w m.
Proof.
  intros [Ho Hh [Hea Her] Hbl] Hw. rewrite Hw, firstn_all in Hh. split; [exact Hh|].
  unfold frontier. rewrite length_app. split; [exact Hh|]. right. unfold pos in *. rewrite Hw in *.
  rewrite Nat2Z.inj_add. rewrite <- Ho. split; [done|]. split; [lia|exact Hbl].
Qed.

(** C9: the writer appends.  Let the slot hold [pre], followed by cells erased
    up to [erased_until_], and let [begin] accept a block at that offset.  After
    any number of ticks no cell outside the slot has changed, whatever the
    device answered; and when the status is [ok], the slot holds [pre] and the
    block, no operation is in flight, and the writer can take the next block
    under the same conditions. *)
Theorem writer_appends_block {D} (F : Flash D) layout
    `{!FlashContract F (sector_size layout) (write_size layout)} slot pre data w d n w1 d1 w' d' :
  let b := sel (slots layout) slot in
  layout_unsigned layout -> dev_ok d -> flight d = None -> resting w -> bytes_ok data ->
  frontier layout b pre w (view d) ->
  Writer.begin F layout slot (Z.of_nat (length pre)) data w d = (Status.ok, w1, d1) ->
  Nat.iter n (tick_pair F layout) (w1, d1) = (w', d') ->
  (forall x, ~ in_block b (slot_size layout) x -> view d' x = view d x) /\
  (status_ w' = Status.ok ->
   mem_read (view d') b (length pre + length data) = Some (pre ++ data) /\
   flight d' = None /\ resting w' /\ frontier layout b (pre ++ data) w' (view d')).
Proof.
  intros b Hu Hd Hf Hr Hb Hfr Hbeg Hn.
  assert (Hlv : Layout_valid layout = true).
  { unfold Writer.begin in Hbeg. destruct (status_ w =s? Status.busy); [done|].
    destruct (Layout_valid layout); [done|]. done. }
  pose proof (Layout_valid_ok _ Hu Hlv) as Hlay. pose proof (Layout_valid_slot _ slot Hu Hlv) as Hslot.
  destruct (writer_begin_spec F layout Hlay b Hslot slot (Z.of_nat (length pre)) data w d eq_refl Hd Hf Hr Hb ltac:(lia))
    as (st & w1' & d1' & E & Hd1 & Hv1 & Hf1 & Hcase).
  rewrite Hbeg in E. injection E as <- <- <-.
  destruct Hcase as [[? _]|(_ & HI & _ & Edata & Hprog)]; [done|].
  pose proof (writer_Inv_ticks F layout Hlay b Hslot n w1 d1 HI) as H. pose proof (data_ticks F layout n w1 d1) as Ed.
  rewrite Hn in H, Ed. cbn [fst] in Ed. destruct H as ([Hd' Ht' Hs'] & Hv' & Hp').
  split; [intros x Hx; rewrite <- Hv1; by apply Hv'|]. intros Hok.
  specialize (Hp' pre (Hprog pre eq_refl Hfr)).
  assert (Hrest : (cs (machine_ w') = WriterState.idle \/ cs (machine_ w') = WriterState.done \/
                   cs (machine_ w') = WriterState.failed) /\ requested_ w' = false).
  { destruct (cs (machine_ w')); cbn in Hs'; try (by destruct Hs' as ([_ Hbz] & _); congruence);
      destruct (requested_ w'); try (by destruct Hs' as (Hbz & _); congruence); auto. }
  destruct Hrest as [Hrest Hrq].
  assert (Hfin : exact layout b false pre w' (view d') /\ written_ w' = length (data_ w') /\ flight d' = None).
  { destruct Hrest as [Ecs|[Ecs|Ecs]]; rewrite Ecs in Hp'; cbn in Hp'; rewrite Hrq in Hp'; by apply Hp'. }
  destruct Hfin as (Hex & Hw & Hfl). destruct (exact_complete F layout b pre w' (view d') Hex Hw) as [Hm Hfr'].
  rewrite Ed, Edata in Hm, Hfr'. split; [exact Hm|]. split; [done|]. split; [by split|exact Hfr'].
Qed.
