(* ===== verification/Engine.v ===== *)
(** * The update engine (src/lib/update/engine.h, engine.cpp)

    Owns one installation: it invalidates the destination slot in the journal,
    feeds the package reader, hands the blocks to the writer, verifies the
    image in flash and commits it as pending.  An owner of a reservation is a
    number in place of its address; [None] is the null pointer. *)

From S2P Require Import Prelude Foundation Wire StateMachine Flash Codec Journal Control Package Writer.

Module EngineState.
Inductive State : Set :=
  | disabled | idle | invalidating | receiving | writing | verifying | committing | done | aborting | failed.
End EngineState.
#[global] Instance EngineState_eq_dec : EqDecision EngineState.State.
Proof. solve_decision. Defined.
#[export] Instance EngineState_enum : StateEnum EngineState.State := {|
  state_index (s : EngineState.State) := match s with
    | EngineState.disabled => 0 | EngineState.idle => 1 | EngineState.invalidating => 2
    | EngineState.receiving => 3 | EngineState.writing => 4 | EngineState.verifying => 5
    | EngineState.committing => 6 | EngineState.done => 7 | EngineState.aborting => 8 | EngineState.failed => 9
    end%nat;
  state_count := 10%nat
|}.

Record Engine := mkEngine {
  owner_ : option nat;
  running_slot_ : Z;
  journal_ : Journal.Journal;
  writer_ : Writer.Writer;
  reader_ : Package.PackageReader;
  header_ : Package.Header;
  snapshot_ : Snapshot;
  rx_ : list Z;
  verification_ : list Z;
  machine_ : Machine EngineState.State;
  status_ : Status; abort_reason_ : Status;
  received_ : Z; verify_offset_ : Z; verify_crc_ : Z;
  rx_size_ : nat; rx_at_ : nat;
  waiting_since_ : Time;
  enabled_ : bool; requested_ : bool; abort_requested_ : bool
}.
#[export] Instance Engine_eta : RecordEta Engine := fun r =>
  mkEngine (owner_ r) (running_slot_ r) (journal_ r) (writer_ r) (reader_ r) (header_ r) (snapshot_ r) (rx_ r)
    (verification_ r) (machine_ r) (status_ r) (abort_reason_ r) (received_ r) (verify_offset_ r) (verify_crc_ r)
    (rx_size_ r) (rx_at_ r) (waiting_since_ r) (enabled_ r) (requested_ r) (abort_requested_ r).

Definition new_engine (running_slot : Z) : Engine :=
  mkEngine None running_slot Journal.new_journal Writer.new_writer Package.new_reader Package.no_header no_snapshot
    (replicate Package.kBlockSize 0) (replicate 256 0) (initial_machine EngineState.disabled) Status.not_running
    Status.rejected 0 0 0 0 0 0 false false false.

#[export] Instance Engine_machine D : HasMachine (Engine * D) EngineState.State := {|
  machine w := machine_ (fst w);
  with_machine m w := ((fst w) <| machine_ := m |>, snd w)
|}.
#[export] Instance Engine_machine_laws D : HasMachineLaws (Engine * D) EngineState.State.
Proof. split; [done|done|by intros [[] ?]]. Qed.

Section engine.
Context {D : Type} (F : Flash D) (layout : Layout) (crc_ : Backend) (inactivity_ : Time).
Implicit Types e : Engine.

Definition state e : EngineState.State := cs (machine_ e).
Definition in_state e (s : EngineState.State) : bool := bool_decide (state e = s).
Definition destination e : Z := u32 (1 - running_slot_ e).
Definition reserved e : bool := bool_decide (owner_ e <> None).
Definition Authorized e : bool := enabled_ e || reserved e.

Definition total e : Z :=
  if Package.package_size (header_ e) >? Z.of_nat Package.kHeaderSize
  then Package.package_size (header_ e) - Z.of_nat Package.kHeaderSize else 0.

Definition enable (value : bool) e : Engine := e <| enabled_ := value |>.

Definition running_slot (slot : Z) e : Status * Engine :=
  if enabled_ e || negb (in_state e EngineState.disabled) then (Status.busy, e)
  else if slot >=? 2 then (Status.invalid_argument, e)
  else (Status.ok, e <| running_slot_ := slot |>).

Definition active e : bool :=
  requested_ e ||
  (negb (in_state e EngineState.disabled) && negb (in_state e EngineState.idle) &&
   negb (in_state e EngineState.done) && negb (in_state e EngineState.failed)).

Definition ready e : bool :=
  Authorized e && negb (abort_requested_ e) && in_state e EngineState.receiving &&
  (rx_size_ e =? 0)%nat && (received_ e <? total e) &&
  negb (bool_decide (Package.state (reader_ e) = Package.ReaderState.ready)).

Definition reserve (owner : option nat) e : Status * Engine :=
  match owner with
  | None => (Status.invalid_argument, e)
  | Some _ => if reserved e || active e then (Status.busy, e) else (Status.ok, e <| owner_ := owner |>)
  end.

Definition release (owner : option nat) e : Engine :=
  if bool_decide (owner_ e = owner) && negb (active e) then e <| owner_ := None |> else e.

Definition inspect (bytes : list Z) (header : Package.Header) e : Status * Package.Header :=
  Package.decode_header bytes layout (destination e) header.

Definition begin (bytes : list Z) (owner : option nat) e (d : D) : Status * Engine * D :=
  if negb (bool_decide (owner_ e = owner)) then (Status.busy, e, d)
  else if negb (Authorized e) then (Status.not_running, e, d)
  else if active e then (Status.busy, e, d)
  else if running_slot_ e >=? 2 then (Status.unsupported, e, d)
  else
    let '(result, header) := Package.decode_header bytes layout (destination e) (header_ e) in
    let e := e <| header_ := header |> in
    if negb (result =s? Status.ok) then (result, e, d)
    else
      let '(result, snapshot, journal, d) := Journal.load F layout (journal_ e) d (snapshot_ e) in
      let e := e <| snapshot_ := snapshot |> <| journal_ := journal |> in
      if negb (result =s? Status.ok) then (result, e, d)
      else if negb (bool_decide (image_state (sel (images snapshot) (running_slot_ e)) = ImageState.confirmed))
      then (Status.not_confirmed, e, d)
      else if counter snapshot =? UINT64_MAX then (Status.counter_exhausted, e, d)
      else
        let '(polled, d) := flash_poll F d in
        if polled =s? Status.busy then (Status.busy, e, d)
        else
          (Status.ok,
           e <| requested_ := true |> <| abort_requested_ := false |> <| received_ := 0 |> <| verify_offset_ := 0 |>
             <| verify_crc_ := 0 |> <| rx_size_ := 0%nat |> <| rx_at_ := 0%nat |> <| status_ := Status.busy |>, d).

Definition chunk (offset : Z) (data : list Z) (crc : Z) e : Status * Engine :=
  if negb (ready e) then (Status.busy, e)
  else if (length data =? 0)%nat || (Package.kBlockSize <? length data)%nat || negb (offset =? received_ e) ||
          (Z.of_nat (length data) >? total e - received_ e)
  then (Status.invalid_argument, e)
  else if negb (service_calculate crc_ data =? crc) then (Status.checksum_error, e)
  else
    (Status.ok,
     e <| rx_ := blit 0 data (rx_ e) |> <| rx_size_ := length data |> <| rx_at_ := 0%nat |>
       <| received_ := u32 (received_ e + Z.of_nat (length data)) |>).

Definition abort (reason : Status) e : Engine :=
  if active e then e <| abort_requested_ := true |> <| abort_reason_ := reason |> else e.

Definition Fail (status : Status) e : Engine := e <| abort_reason_ := status |> <| abort_requested_ := true |>.

(** ** The steps of the machine, one definition per group of states *)

Definition mark_incomplete e : Engine :=
  e <| snapshot_ := set_state (snapshot_ e) (destination e) ImageState.incomplete |>.

Definition step_idle (cs : EngineState.State) e (d : D) : EngineState.State * (Engine * D) :=
  if requested_ e then
    let e := mark_incomplete (e <| requested_ := false |>) in
    let '(result, journal, d) := Journal.begin F layout (journal_ e) d (snapshot_ e) false in
    let e := e <| journal_ := journal |> in
    if result =s? Status.ok then (EngineState.invalidating, (e, d))
    else (EngineState.failed, (e <| status_ := result |>, d))
  else if negb (Authorized e) then (EngineState.disabled, (e, d))
  else if bool_decide (cs = EngineState.disabled) then (EngineState.idle, (e <| status_ := Status.ok |>, d))
  else (cs, (e, d)).

Definition step_invalidating e (d : D) : EngineState.State * (Engine * D) :=
  let '(journal, d) := Journal.tick F layout (journal_ e) d in
  let e := e <| journal_ := journal |> in
  if negb (Authorized e) || abort_requested_ e then (EngineState.aborting, (e, d))
  else if negb (Journal.status_ (journal_ e) =s? Status.busy) then
    if negb (Journal.status_ (journal_ e) =s? Status.ok)
    then (EngineState.failed, (e <| status_ := Journal.status_ (journal_ e) |>, d))
    else
      let '(_, reader) := Package.tick [] (Package.start (header_ e) (destination e) (reader_ e)) in
      let '(t, d) := flash_now F d in
      (EngineState.receiving, (e <| reader_ := reader |> <| waiting_since_ := t |>, d))
  else (EngineState.invalidating, (e, d)).

Definition step_receiving e (d : D) : EngineState.State * (Engine * D) :=
  if negb (Authorized e) || abort_requested_ e then (EngineState.aborting, (e, d))
  else
    let '(consumed, reader) := Package.tick (sub (rx_ e) (rx_at_ e) (rx_size_ e - rx_at_ e)) (reader_ e) in
    let e := e <| reader_ := reader |> <| rx_at_ := (rx_at_ e + consumed)%nat |> in
    let '(e, d) :=
      if negb (rx_size_ e =? 0)%nat && (rx_at_ e =? rx_size_ e)%nat then
        let '(t, d) := flash_now F d in
        (e <| rx_size_ := 0%nat |> <| rx_at_ := 0%nat |> <| waiting_since_ := t |>, d)
      else (e, d) in
    match Package.state (reader_ e) with
    | Package.ReaderState.failed => (EngineState.aborting, (Fail (Package.status_ (reader_ e)) e, d))
    | Package.ReaderState.ready =>
        let '(result, writer, d) := Writer.begin F layout (destination e) (Package.offset_ (reader_ e))
                                      (Package.block (reader_ e)) (writer_ e) d in
        let e := e <| writer_ := writer |> in
        if result =s? Status.ok then (EngineState.writing, (e, d))
        else (EngineState.aborting, (Fail result e, d))
    | Package.ReaderState.done =>
        if negb (rx_size_ e =? 0)%nat || negb (received_ e =? total e)
        then (EngineState.aborting, (Fail Status.parse_error e, d))
        else (EngineState.verifying, (e, d))
    | _ =>
        if (rx_size_ e =? 0)%nat && (received_ e =? total e)
        then (EngineState.aborting, (Fail Status.parse_error e, d))
        else if (rx_size_ e =? 0)%nat then
          let '(t, d) := flash_now F d in
          if u64 (t - waiting_since_ e) >=? inactivity_
          then (EngineState.aborting, (Fail Status.timeout e, d))
          else (EngineState.receiving, (e, d))
        else (EngineState.receiving, (e, d))
    end.

Definition step_writing e (d : D) : EngineState.State * (Engine * D) :=
  if negb (Authorized e) || abort_requested_ e
  then (EngineState.aborting, (e <| writer_ := Writer.cancel (writer_ e) |>, d))
  else
    let '(writer, d) := Writer.tick F layout (writer_ e) d in
    let e := e <| writer_ := writer |> in
    if negb (Writer.status_ (writer_ e) =s? Status.busy) then
      if negb (Writer.status_ (writer_ e) =s? Status.ok)
      then (EngineState.aborting, (Fail (Writer.status_ (writer_ e)) e, d))
      else
        let e := e <| reader_ := Package.release (reader_ e) |> in
        let '(t, d) := flash_now F d in
        (EngineState.receiving, (e <| waiting_since_ := t |>, d))
    else (EngineState.writing, (e, d)).

(** The image that a verified package installs. *)
Definition candidate e (count : Z) : Image :=
  mkImage count (Package.h_image_size (header_ e)) (verify_crc_ e) ImageState.pending
    (Package.h_product (header_ e)) (Package.h_revision (header_ e)) (Package.h_version (header_ e)).

Definition step_verified e (d : D) : EngineState.State * (Engine * D) :=
  if negb (verify_crc_ e =? sel (Package.h_crc (header_ e)) (destination e))
  then (EngineState.aborting, (Fail Status.checksum_error e, d))
  else
    let '(result, snapshot, journal, d) := Journal.load F layout (journal_ e) d (snapshot_ e) in
    let e := e <| snapshot_ := snapshot |> <| journal_ := journal |> in
    let result := if (result =s? Status.ok) && (counter (snapshot_ e) =? UINT64_MAX)
                  then Status.counter_exhausted else result in
    let '(result, e, d) :=
      if result =s? Status.ok then
        let count := u64 (counter (snapshot_ e) + 1) in
        let s := (snapshot_ e) <| counter := count |>
                   <| images := set_sel (images (snapshot_ e)) (destination e) (candidate e count) |> in
        let e := e <| snapshot_ := s |> in
        let '(result, journal, d) := Journal.begin F layout (journal_ e) d (snapshot_ e) false in
        (result, e <| journal_ := journal |>, d)
      else (result, e, d) in
    if result =s? Status.ok then (EngineState.committing, (e, d))
    else (EngineState.aborting, (Fail result e, d)).

Definition step_verifying e (d : D) : EngineState.State * (Engine * D) :=
  if negb (Authorized e) || abort_requested_ e then (EngineState.aborting, (e, d))
  else
    let count := Z.min 256 (u32 (Package.h_image_size (header_ e) - verify_offset_ e)) in
    let n := Z.to_nat count in
    let '(result, bytes, d) :=
      flash_read F d (u32 (sel (slots layout) (destination e) + verify_offset_ e)) (take n (verification_ e)) in
    let e := e <| verification_ := blit 0 bytes (verification_ e) |> in
    if negb (result =s? Status.ok) then (EngineState.aborting, (Fail result e, d))
    else
      let e := e <| verify_crc_ := service_update crc_ (verify_crc_ e) (take n (verification_ e)) |>
                 <| verify_offset_ := u32 (verify_offset_ e + count) |> in
      if verify_offset_ e =? Package.h_image_size (header_ e) then step_verified e d
      else (EngineState.verifying, (e, d)).

Definition step_committing e (d : D) : EngineState.State * (Engine * D) :=
  let '(journal, d) := Journal.tick F layout (journal_ e) d in
  let e := e <| journal_ := journal |> in
  if negb (Authorized e) || abort_requested_ e then (EngineState.aborting, (e, d))
  else if negb (Journal.status_ (journal_ e) =s? Status.busy) then
    let e := e <| status_ := Journal.status_ (journal_ e) |> in
    if status_ e =s? Status.ok then (EngineState.done, (e, d))
    else (EngineState.aborting, (Fail (status_ e) e, d))
  else (EngineState.committing, (e, d)).

Definition step_aborting e (d : D) : EngineState.State * (Engine * D) :=
  if Writer.status_ (writer_ e) =s? Status.busy then
    let '(writer, d) := Writer.tick F layout (Writer.cancel (writer_ e)) d in
    (EngineState.aborting, (e <| writer_ := writer |>, d))
  else if Journal.status_ (journal_ e) =s? Status.busy then
    let '(journal, d) := Journal.tick F layout (journal_ e) d in
    (EngineState.aborting, (e <| journal_ := journal |>, d))
  else
    let '(polled, d) := flash_poll F d in
    if polled =s? Status.busy then (EngineState.aborting, (e, d))
    else
      let '(result, snapshot, journal, d) := Journal.load F layout (journal_ e) d (snapshot_ e) in
      let e := e <| snapshot_ := snapshot |> <| journal_ := journal |> in
      let finish result e d :=
        (EngineState.failed,
         (e <| status_ := if result =s? Status.ok then abort_reason_ e else result |> <| abort_requested_ := false |>
            <| rx_size_ := 0%nat |> <| rx_at_ := 0%nat |>, d)) in
      if (result =s? Status.ok) &&
         bool_decide (image_state (sel (images (snapshot_ e)) (destination e)) = ImageState.pending) then
        let e := mark_incomplete e in
        let '(result, journal, d) := Journal.begin F layout (journal_ e) d (snapshot_ e) false in
        let e := e <| journal_ := journal |> in
        if result =s? Status.ok then (EngineState.aborting, (e, d)) else finish result e d
      else finish result e d.

Definition Step (cs : EngineState.State) (p : Engine * D) : EngineState.State * (Engine * D) :=
  let '(e, d) := p in
  match cs with
  | EngineState.disabled | EngineState.idle | EngineState.done | EngineState.failed => step_idle cs e d
  | EngineState.invalidating => step_invalidating e d
  | EngineState.receiving => step_receiving e d
  | EngineState.writing => step_writing e d
  | EngineState.verifying => step_verifying e d
  | EngineState.committing => step_committing e d
  | EngineState.aborting => step_aborting e d
  end.

Definition tick e (d : D) : Engine * D := snd (StateMachine.tick (step_only Step) (e, d)).
End engine.
