(* ===== verification/EngineSafe.v ===== *)
(** * An update never endangers the running image

    "Nothing is retried, and the running image is untouched" (engine.h): the
    invariant below holds through every call and tick of the engine, for any
    answers of the device.  Whenever the power is cut, with an operation in
    flight torn, the running slot and its journal entry are as they were, and
    the entry of the other slot is the original one over untouched cells, or
    [incomplete], or [pending] with the checksum of what is in the slot. *)

From S2P Require Import Prelude Foundation Wire StateMachine Flash Codec Journal JournalScan JournalCrash JournalCommit Control Package PackageStream Writer WriterProof Engine.

(** ** Regions of the layout *)

Definition slot_region (l : Layout) (i x : Z) : Prop := in_block (sel (slots l) i) (slot_size l) x.

Lemma Layout_valid_apart l :
  Layout_valid l = true ->
  (forall x, slot_region l 0 x -> ~ slot_region l 1 x) /\
  (forall i x, slot_region l i x -> ~ in_metadata l x).
Proof.
  unfold Layout_valid. intros H.
  destruct (_ || _ || _ || _ || _ || _ || _ || _); [done|]. destruct (existsb _ _); [done|].
  cbn in H. repeat match type of H with (if ?c then false else _) = true => destruct c eqn:?; [done|] end.
  rewrite !orb_false_iff, !andb_false_iff in *. destruct_and?.
  unfold slot_region, in_metadata, is_sector, in_block, sel. cbn [Z.eqb]. split.
  - intros x. lia.
  - intros i x Hx (b & [->| ->] & Hb); destruct (i =? 0); lia.
Qed.

(** A device that serves the journal's sectors and both slots. *)
Record update_device {D} (F : Flash D) (layout : Layout)
    `{!FlashContract F (sector_size layout) (write_size layout)} : Prop := {
  ud_journal : journal_device F layout;
  ud_slots : forall i a n, 0 <= n -> sel (slots layout) i <= a -> a + n <= sel (slots layout) i + slot_size layout ->
    covers a n
}.

(** ** Cells *)

Lemma newest_ext l m m' s :
  (forall x, in_metadata l x -> m' x = m x) -> newest l m s -> newest l m' s.
Proof.
  intros H (a & r & Ha & Hs & Hmax).
  assert (E : forall a, is_slot l a -> slot_at m' a = slot_at m a).
  { intros a' Ha'. apply slot_at_ext. intros x Hx. apply H. by apply (slot_in_metadata l a'). }
  exists a, r. rewrite E by done. split; [done|]. split; [done|]. intros a' r' s' Ha'. rewrite E by done. by apply Hmax.
Qed.

Lemma journal_ok_ext l m m' :
  (forall x, in_metadata l x -> m' x = m x) -> journal_ok l m -> journal_ok l m'.
Proof.
  intros H [H1 H2].
  assert (E : forall a, is_slot l a -> slot_at m' a = slot_at m a).
  { intros a' Ha'. apply slot_at_ext. intros x Hx. apply H. by apply (slot_in_metadata l a'). }
  split; [intros a r s a' r' s' Ha Ha'|intros a r s Ha]; rewrite !E by done; [by apply H1|by apply H2].
Qed.

Lemma newest_ok l m s : mem_ok m -> newest l m s -> snapshot_ok s.
Proof.
  intros Hm (a & r & _ & Hs & _). apply slot_at_Some in Hs as [Hr Hd].
  apply (decode_snapshot_ok r); [by eapply mem_read_bytes|by eapply mem_read_length|done].
Qed.

Section device.
Context {D : Type} (F : Flash D) (layout : Layout).
Context `{HC : !FlashContract F (sector_size layout) (write_size layout)}.
Context (HU : update_device F layout).

(** The running slot, and the cells and the snapshot the update starts from. *)
Context (r : Z) (Hr : r = 0 \/ r = 1) (m0 : Mem) (s0 : Snapshot).
Local Abbreviation dst := (1 - r).

Definition image_of (i : Z) (s : Snapshot) : Image := sel (images s) i.

(** The image in the destination slot fits it and has the checksum of its entry. *)
Definition verified (m : Mem) (im : Image) : Prop :=
  0 <= image_size im <= slot_size layout /\
  exists bs, mem_read m (sel (slots layout) dst) (Z.to_nat (image_size im)) = Some bs /\
    crc32_calculate bs = image_crc im.

(** What the journal may say about cells [m] while an update is under way. *)
Definition good (s : Snapshot) (m : Mem) : Prop :=
  image_of r s = image_of r s0 /\
  (image_of dst s = image_of dst s0 /\ (forall x, slot_region layout dst x -> m x = m0 x) \/
   image_state (image_of dst s) = ImageState.incomplete \/
   image_state (image_of dst s) = ImageState.pending /\ verified m (image_of dst s)).

Definition running_same (m : Mem) : Prop := forall x, slot_region layout r x -> m x = m0 x.

Record sane (m : Mem) : Prop := {
  sn_journal : journal_ok layout m;
  sn_newest : exists s, newest layout m s /\ good s m;
  sn_running : running_same m
}.

(** Every power cut leaves sane cells. *)
Record safe_dev (d : D) : Prop := {
  sd_dev : dev_ok d;
  sd_size : forall o, flight d = Some o -> 0 <= op_size o;
  sd_crash : forall m, crash_image F d m -> sane m
}.

Lemma slots_apart x : slot_region layout dst x -> ~ slot_region layout r x.
Proof.
  destruct (Layout_valid_apart layout (jd_layout _ _ (ud_journal _ _ HU))) as [H _].
  destruct Hr as [-> | ->]; intros H1 H2; by apply (H x).
Qed.
Lemma slot_not_metadata i x : slot_region layout i x -> ~ in_metadata layout x.
Proof. apply (Layout_valid_apart layout (jd_layout _ _ (ud_journal _ _ HU))). Qed.

(** ** Crash images *)

Lemma view_crash d : dev_ok d -> (forall o, flight d = Some o -> 0 <= op_size o) -> crash_image F d (view d).
Proof.
  intros Hd Hs. split; [by apply view_ok|]. destruct (flight d) as [o|]; [|done]. specialize (Hs o eq_refl).
  split; [done|]. destruct o as [a n|]; [|done]. exists 0. cbn in Hs. split; [lia|]. split; [|done].
  unfold in_block. intros x Hx. lia.
Qed.

Lemma safe_view d : safe_dev d -> sane (view d).
Proof. intros [Hd Hs Hc]. by apply Hc, view_crash. Qed.

Lemma idle_safe d : dev_ok d -> flight d = None -> sane (view d) -> safe_dev d.
Proof.
  intros Hd Hf Hs. split; [done|intros o Ho; congruence|]. intros m [_ Hm]. rewrite Hf in Hm. by subst m.
Qed.

(** Outside the operation in flight, a crash image shows the cells as they are. *)
Lemma crash_outside d m x :
  crash_image F d m -> (forall o, flight d = Some o -> ~ in_block (op_start o) (op_size o) x) -> m x = view d x.
Proof.
  intros [_ Hm] Ho. destruct (flight d) as [o|]; [|by subst m]. apply (proj1 Hm), Ho. done.
Qed.

Lemma poll_dev d :
  safe_dev d ->
  exists st d', flash_poll F d = (st, d') /\ safe_dev d' /\ (st <> Status.busy -> flight d' = None) /\
    (flight d = None -> st <> Status.busy /\ view d' = view d).
Proof.
  intros [Hd Hs Hc]. destruct (poll_spec d Hd) as (st & d' & E & Hd' & Hp). exists st, d'. split; [done|].
  destruct (flight d) as [o|] eqn:Ef.
  2:{ destruct Hp as (Hnb & Hv & Hf). split; [|done]. split; [done|intros ? ?; congruence|].
      intros m [Hm Hm']. rewrite Hf in Hm'. apply Hc. split; [done|]. rewrite Ef. congruence. }
  split; [|split; [|done]].
  2:{ intros Hnb. by destruct st; destruct Hp as [_ Hp]. }
  destruct (decide (st = Status.busy)) as [->|Hnb].
  { destruct Hp as [Hv Hf]. split; [done|rewrite Hf; auto|]. intros m [Hm Hm']. apply Hc. split; [done|].
    rewrite Ef. rewrite Hf in Hm'. by rewrite <- Hv. }
  assert (Ht : op_torn o (view d) (view d') /\ flight d' = None).
  { destruct st; destruct Hp as [Hp Hf]; try done. split; [|done]. apply op_done_torn; [|done].
    specialize (Hs o eq_refl). by destruct o. }
  destruct Ht as [Ht Hf]. apply idle_safe; [done|done|]. apply Hc. split; [by apply view_ok|]. by rewrite Ef.
Qed.

Lemma load_dev j d snap :
  safe_dev d ->
  exists st s j' d', Journal.load F layout j d snap = (st, s, j', d') /\ safe_dev d' /\ kept j j' /\
    (st = Status.busy /\ s = snap \/ st = Status.ok /\ flight d' = None /\ newest layout (view d') s) /\
    (flight d = None -> st = Status.ok /\ view d' = view d).
Proof.
  intros Hs. destruct HU as [HJ _]. destruct (poll_dev d Hs) as (pst & d1 & Ep & Hs1 & Hf1 & Hidle).
  pose proof (load_kept F layout j d snap) as Hk.
  destruct (decide (pst = Status.busy)) as [->|Hnb].
  { assert (E : Journal.load F layout j d snap = (Status.busy, snap, j, d1)).
    { unfold Journal.load. rewrite (jd_callbacks _ _ HJ), (jd_layout _ _ HJ), Ep. done. }
    rewrite E. do 4 eexists. split; [done|]. split; [done|]. split; [done|]. split; [by left|].
    intros Hf. by destruct (Hidle Hf). }
  pose proof (safe_view d1 Hs1) as [Hj (s1 & Hn1 & _) _].
  destruct (load_polled F layout (device_layout F layout HJ) (jd_covers _ _ HJ) j d snap pst d1 (jd_callbacks _ _ HJ)
              (jd_layout _ _ HJ) Ep Hnb (sd_dev _ Hs1) (Hf1 Hnb) (proj1 Hj)) as (st & s & j' & d' & E & (Hd' & Hv' & Hf') & _ & Hcase).
  rewrite E in *. cbn [fst snd] in Hk. do 4 eexists. split; [done|].
  assert (Hok : st = Status.ok /\ newest layout (view d1) s).
  { destruct Hcase as [(-> & Hn & _)|(_ & _ & Hno)]; [done|].
    destruct Hn1 as (a & rr & Ha & Hat & _). rewrite (Hno a Ha) in Hat. discriminate. }
  rewrite (Hf1 Hnb) in Hf'. split.
  { apply idle_safe; [done|done|]. rewrite Hv'. by apply safe_view. }
  split; [done|]. split; [right; split; [apply Hok|split; [done|rewrite Hv'; apply Hok]]|].
  intros Hf. destruct (Hidle Hf) as [_ Hv]. split; [apply Hok|congruence].
Qed.

(** ** A journal request in progress *)

Definition wn : nat := Z.to_nat (write_size layout).

Record jrun (j : Journal.Journal) (d : D) (sa sb : Snapshot) : Prop := {
  jr_ok : snapshot_ok sb;
  jr_inv : JournalCrash.Inv F layout (Some sa) (encode sb (write_size layout)) sb wn j d;
  jr_commit : erase_only_ j = false;
  jr_local : flight_local F layout d;
  jr_old : good sa (view d);
  jr_new : good sb (view d);
  jr_running : running_same (view d)
}.

Definition jrest (j : Journal.Journal) : Prop := quiet j /\ Journal.status_ j <> Status.busy.

Lemma commit_facts sb : snapshot_ok sb -> committable wn (encode sb (write_size layout)) sb.
Proof. intros H. apply (next_committable layout wn (device_unit F layout (ud_journal _ _ HU)) _ H). Qed.

(** [good] reads the destination slot only. *)
Lemma good_ext s m m' : (forall x, slot_region layout dst x -> m' x = m x) -> good s m -> good s m'.
Proof.
  intros H [H1 H2]. split; [done|]. destruct H2 as [[H2 H3]|[H2|[H2 H3]]].
  - left. split; [done|]. intros x Hx. by rewrite H, H3.
  - right. by left.
  - right. right. split; [done|]. destruct H3 as (Hsz & bs & Hr' & Hc). split; [done|]. exists bs. split; [|done].
    rewrite <- Hr'. apply mem_read_ext. intros x Hx. apply H. unfold slot_region, in_block in *. lia.
Qed.

Lemma local_slots d m i x :
  flight_local F layout d -> crash_image F d m -> slot_region layout i x -> m x = view d x.
Proof.
  intros Hl Hm Hx. apply (crash_outside d m x Hm). intros o Ho Hin.
  apply (slot_not_metadata i x Hx). by apply (proj2 (Hl o Ho)).
Qed.

Lemma jrun_safe j d sa sb : jrun j d sa sb -> safe_dev d.
Proof.
  intros [Hok HI _ Hl Ha Hb Hrun]. pose proof HI as (Hd & _ & Hs).
  split; [done|intros o Ho; apply (proj1 (Hl o Ho))|]. intros m Hm.
  pose proof (stage_safe F layout (device_layout F layout (ud_journal _ _ HU)) _ _ _ _
    (device_unit F layout (ud_journal _ _ HU)) (commit_facts sb Hok) _ _ _ Hd Hs m Hm) as [Hj Hcase].
  assert (Hdst : forall x, slot_region layout dst x -> m x = view d x) by (intros x; by apply local_slots).
  split; [done| |].
  - destruct Hcase as [Hc|Hc]; [exists sa|exists sb]; (split; [exact Hc|]); by apply (good_ext _ (view d)).
  - intros x Hx. rewrite (local_slots d m r x) by done. by apply Hrun.
Qed.

Lemma jrun_tick j d sa sb :
  jrun j d sa sb ->
  let '(j', d') := Journal.tick F layout j d in
  jrun j' d' sa sb /\ forall i x, slot_region layout i x -> view d' x = view d x.
Proof.
  intros [Hok HI He Hl Ha Hb Hrun]. pose proof (ud_journal _ _ HU) as HJ.
  pose proof (device_layout F layout HJ) as Hlay. pose proof (device_unit F layout HJ) as Hw.
  pose proof (commit_facts sb Hok) as Hcom. pose proof (jd_covers _ _ HJ) as Hcov.
  pose proof (JournalCrash.Inv_tick F layout Hlay Hcov _ _ _ _ Hw Hcom j d HI) as HI'.
  pose proof (tick_elsewhere F layout Hcov _ _ _ _ Hw Hcom j d HI) as Hel.
  pose proof (tick_flight_local F layout Hlay Hcov _ _ _ _ Hw Hcom j d HI Hl) as Hl'.
  pose proof (erase_only_tick F layout j d (proj1 (proj2 HI))) as He'.
  destruct (Journal.tick F layout j d) as [j' d']. cbn [fst snd] in *.
  assert (Hslot : forall i x, slot_region layout i x -> view d' x = view d x).
  { intros i x Hx. apply Hel. by apply (slot_not_metadata i). }
  split; [|exact Hslot]. split; [done|done|congruence|done| | |].
  - apply (good_ext _ (view d)); [intros x; apply Hslot|done].
  - apply (good_ext _ (view d)); [intros x; apply Hslot|done].
  - intros x Hx. rewrite (Hslot r x Hx). by apply Hrun.
Qed.

Lemma jrun_final j d sa sb :
  jrun j d sa sb -> Journal.status_ j <> Status.busy ->
  jrest j /\ (Journal.status_ j = Status.ok -> flight d = None /\ newest layout (view d) sb).
Proof.
  intros [Hok HI He _ _ _ _] Hnb. pose proof (ud_journal _ _ HU) as HJ.
  destruct (Inv_final F layout (device_layout F layout HJ) _ _ _ _ (device_unit F layout HJ) (commit_facts sb Hok) j d HI Hnb)
    as (_ & Hfin & Hcs).
  split; [split; [split; [apply HI|exact Hcs]|exact Hnb]|]. intros Hst. destruct (Hfin Hst) as [Hf [_ Hset]].
  rewrite He in Hset. split; [done|apply Hset].
Qed.

(** A request made over the newest snapshot [s]. *)
Lemma begin_dev j d s sn initialize :
  safe_dev d -> flight d = None -> newest layout (view d) s -> good s (view d) -> jrest j ->
  snapshot_ok sn -> good sn (view d) ->
  exists st j' d', Journal.begin F layout j d sn initialize = (st, j', d') /\ view d' = view d /\ flight d' = None /\
    safe_dev d' /\
    (st <> Status.ok /\ jrest j' \/
     st = Status.ok /\ Journal.status_ j' = Status.busy /\ exists sb, images sb = images sn /\ counter sb = counter sn /\ jrun j' d' s sb).
Proof.
  intros Hs Hf Hn Hg [Hq Hnb] Hsn Hgn. pose proof (ud_journal _ _ HU) as HJ.
  pose proof (safe_view d Hs) as [Hj _ Hrun].
  assert (Hreq : request_ok sn) by (destruct Hsn; by split).
  destruct (begin_device F layout HJ j d sn initialize (sd_dev _ Hs) Hf Hj Hq Hreq) as (st & j' & d' & E & Hv & Hcase).
  exists st, j', d'. split; [done|]. split; [done|].
  destruct Hcase as [[Hst (Hd' & _ & Hf')]|(-> & old & Hbef & Hok & He & HI)].
  - rewrite Hf in Hf'. split; [done|]. split; [apply idle_safe; [done|done|rewrite Hv; by apply safe_view]|].
    left. split; [done|]. destruct (proj1 (begin_cases F layout _ _ _ _ _ _ _ E) Hst) as (Em & Es & _).
    destruct Hq as [Ht Hcs]. unfold jrest, quiet. by rewrite Em, Es.
  - assert (Hold : old = Some s).
    { destruct old as [s'|]; cbn in Hbef.
      - f_equal. exact (newest_unique _ _ _ _ (proj1 Hj) Hbef Hn).
      - destruct Hn as (a & rr & Ha & Hat & _). rewrite (Hbef a Ha) in Hat. discriminate. }
    subst old. destruct (proj2 (begin_cases F layout _ _ _ _ _ _ _ E) eq_refl) as (Em & Hbz & Hrq).
    assert (Hf' : flight d' = None).
    { destruct HI as (_ & _ & Hst). destruct Hq as [_ Hcs]. rewrite <- Em in Hcs.
      destruct Hcs as [Ec|[Ec|Ec]]; rewrite Ec in Hst; cbn in Hst; rewrite Hrq in Hst; apply Hst. }
    assert (Hrunj : jrun j' d' s (next_snapshot (Some s) sn)).
    { split; [done|done|done| | | |]; rewrite ?Hv; try done. intros o Ho. congruence. }
    split; [done|]. split; [by apply (jrun_safe j' d' _ _ Hrunj)|]. right. split; [done|]. split; [done|].
    exists (next_snapshot (Some s) sn). done.
Qed.

(** ** A slot that is being filled *)

(** The journal says that the destination is incomplete. *)
Record cleared (m : Mem) : Prop := {
  cl_journal : journal_ok layout m;
  cl_newest : exists s, newest layout m s /\ image_of r s = image_of r s0 /\
    image_state (image_of dst s) = ImageState.incomplete;
  cl_running : running_same m
}.

Lemma cleared_sane m : cleared m -> sane m.
Proof.
  intros [Hj (s & Hn & H1 & H2) Hrun]. split; [done| |done]. exists s. split; [done|]. split; [done|]. right. by left.
Qed.

Lemma cleared_ext m m' : (forall x, ~ slot_region layout dst x -> m' x = m x) -> cleared m -> cleared m'.
Proof.
  intros H [Hj (s & Hn & H1 & H2) Hrun].
  assert (Hmeta : forall x, in_metadata layout x -> m' x = m x).
  { intros x Hx. apply H. intros Hs. by apply (slot_not_metadata dst x). }
  split; [by apply (journal_ok_ext _ m)| |].
  - exists s. split; [by apply (newest_ext _ m)|done].
  - intros x Hx. rewrite H; [by apply Hrun|]. intros Hs. by apply (slots_apart x).
Qed.

Local Abbreviation bD := (sel (slots layout) dst).

Record wrun (w : Writer.Writer) (d : D) : Prop := {
  wr_inv : WriterProof.Inv F layout bD w d;
  wr_busy : Writer.status_ w = Status.busy;
  wr_cleared : cleared (view d);
  wr_local : forall o, flight d = Some o -> op_in_slot layout bD o
}.

Definition wrest (w : Writer.Writer) : Prop := resting w /\ Writer.status_ w <> Status.busy.

Lemma cleared_safe d :
  dev_ok d -> cleared (view d) -> (forall o, flight d = Some o -> op_in_slot layout bD o) -> safe_dev d.
Proof.
  intros Hd Hc Hl. split; [done|intros o Ho; apply (proj1 (Hl o Ho))|]. intros m Hm.
  apply cleared_sane, (cleared_ext (view d)); [|done]. intros x Hx. apply (crash_outside d m x Hm).
  intros o Ho Hin. by apply Hx, (proj2 (Hl o Ho)).
Qed.

Lemma wrun_safe w d : wrun w d -> safe_dev d.
Proof. intros [HI _ Hc Hl]. apply cleared_safe; [apply HI|done|done]. Qed.

Lemma wrun_cancel w d : wrun w d -> wrun (Writer.cancel w) d.
Proof.
  intros [[Hd Ht Hs] Hb Hc Hl]. split; [split; [done|done|]|done|done|done].
  unfold Writer.cancel. cbn [Writer.machine_ field_update]. revert Hs. unfold WriterProof.stage.
  cbn [Writer.requested_ Writer.status_ field_update].
  assert (Hg : geometry layout bD w -> geometry layout bD (w <| cancelled_ := true |>)) by (by apply geometry_ext).
  destruct (cs _); try (destruct (Writer.requested_ w)); intuition auto.
Qed.

Lemma wrun_tick w d :
  wrun w d ->
  let '(w', d') := Writer.tick F layout w d in
  (Writer.status_ w' = Status.busy /\ wrun w' d' \/ wrest w') /\ safe_dev d' /\ cleared (view d') /\
  (Writer.status_ w' = Status.ok -> flight d' = None).
Proof.
  intros [HI Hb Hc Hl]. pose proof (ud_journal _ _ HU) as HJ.
  pose proof (writer_Inv_tick F layout (device_layout F layout HJ) bD
    (Layout_valid_slot _ _ (jd_unsigned _ _ HJ) (jd_layout _ _ HJ)) w d HI) as H.
  destruct (Writer.tick F layout w d) as [w' d']. destruct H as (HI' & Hv & Hf & Hp).
  assert (Hc' : cleared (view d')) by (apply (cleared_ext (view d)); [exact Hv|done]).
  assert (Hl' : forall o, flight d' = Some o -> op_in_slot layout bD o).
  { intros o Ho. destruct (Hf o Ho) as [Ho'|Ho']; [by apply Hl|done]. }
  split; [|split; [apply cleared_safe; [apply HI'|done|done]|split; [done|]]].
  - destruct (decide (Writer.status_ w' = Status.busy)) as [Hb'|Hnb]; [left; by split|right].
    destruct HI' as [_ Ht Hs]. split; [split; [done|]|done].
    destruct (cs (Writer.machine_ w')); cbn in Hs; auto; by destruct Hs as ((_ & ?) & _).
  - intros Hok. destruct HI' as [_ _ Hs].
    destruct (cs (Writer.machine_ w')); cbn in Hs; try (destruct Hs as ((_ & ?) & _); congruence);
      (destruct (Writer.requested_ w'); [destruct Hs as (? & _); congruence|by apply Hs]).
Qed.
End device.
