(* ===== verification/EngineInv.v ===== *)
(** * The invariant of the update engine

    What each state of the engine means for the journal, the writer and the
    cells of the flash, and that every call and every tick preserves it. *)

From S2P Require Import Prelude Foundation Wire StateMachine Flash Codec Journal JournalScan JournalCrash JournalCommit Control Package PackageStream Writer WriterProof Engine EngineSafe.

(** ** Headers *)

Record header_ok (layout : Layout) (h : Header) : Prop := {
  ho_product : is_u32 (h_product h);
  ho_revision : is_u32 (h_revision h);
  ho_size : is_u32 (h_image_size h) /\ h_image_size h <= slot_size layout;
  ho_version : version_ok (h_version h)
}.

Lemma decode_header_ok bytes layout dest h :
  bytes_ok bytes ->
  let '(st, h') := decode_header bytes layout dest h in
  st <> Status.ok /\ h' = h \/ st = Status.ok /\ header_ok layout h' /\ 0 < h_image_size h'.
Proof.
  intros Hb. unfold decode_header.
  destruct (negb (length bytes =? kHeaderSize)%nat || _ || _) eqn:E1; [cbn; by left|].
  destruct (negb (read32 bytes 0 =? _) || _ || _ || _ || _); [cbn; by left|].
  destruct (negb (read32 bytes 124 =? _)); [cbn; by left|]. cbn zeta. destruct (_ || _ || _ || _ || _ || _ || _ || _ || _) eqn:E2; [cbn; by left|].
  right. split; [done|]. rewrite !orb_false_iff in *. destruct_and?. breflect.
  assert (Hl : length bytes = 128%nat) by (by apply Nat.eqb_eq).
  assert (Hr : forall i, (i + 4 <= 128)%nat -> is_u32 (read32 bytes i)) by (intros; apply read32_range; [done|lia]).
  unfold header_result in *. cbn [h_image_size h_product h_revision] in *.
  assert (Hpos : is_u32 (read32 bytes 20)) by (apply Hr; lia). split; [|unfold is_u32 in Hpos; cbn [h_image_size]; lia].
  split; cbn [h_image_size h_product h_revision h_version]; try (apply Hr; lia).
  - split; [apply Hr; lia|lia].
  - split; cbn [major minor build Codec.commit]; try (apply Hr; lia).
    + apply Forall_insert; [by apply Forall_sub|by split].
    + rewrite length_insert, length_sub by lia. done.
    + rewrite list_lookup_insert_eq; [done|]. rewrite length_sub by lia. lia.
Qed.

Lemma no_header_ok layout : 0 <= slot_size layout -> header_ok layout no_header.
Proof.
  intros H. split; [done|done|done|]. split; try done. apply Forall_replicate. done.
Qed.

Section engine_inv.
Context {D : Type} (F : Flash D) (layout : Layout) (crc_ : Backend) (inactivity_ : Time).
Context `{HC : !FlashContract F (sector_size layout) (write_size layout)}.
Context (HU : update_device F layout) (Hcrc : backend_faithful crc_).
Context (r : Z) (Hr : r = 0 \/ r = 1) (m0 : Mem) (s0 : Snapshot).
Implicit Types e : Engine.

Local Abbreviation dst := (1 - r).
Local Abbreviation bD := (sel (slots layout) dst).
Local Abbreviation good := (good layout r m0 s0).
Local Abbreviation sane := (sane layout r m0 s0).
Local Abbreviation safe_dev := (safe_dev F layout r m0 s0).
Local Abbreviation cleared := (cleared layout r m0 s0).
Local Abbreviation jrun := (jrun F layout r m0 s0).
Local Abbreviation wrun := (wrun F layout r m0 s0).
Local Abbreviation verified := (verified layout r).

(** A candidate is installed: verified in its slot, and pending. *)
Definition candidate_in (m : Mem) (s : Snapshot) : Prop :=
  image_state (image_of dst s) = ImageState.pending /\ verified m (image_of dst s) /\
  installation (image_of dst s) = counter s.
(** It is the image that the package announced. *)
Definition announced e (s : Snapshot) : Prop :=
  image_size (image_of dst s) = h_image_size (header_ e) /\ image_crc (image_of dst s) = sel (h_crc (header_ e)) dst.
Definition installed (m : Mem) : Prop := exists s, newest layout m s /\ candidate_in m s.

(** No operation in flight, and the destination marked incomplete. *)
Definition filling (d : D) : Prop := dev_ok d /\ flight d = None /\ cleared (view d).

(** The first [verify_offset_] bytes of the slot are what [verify_crc_] covers. *)
Definition verifies e (m : Mem) : Prop :=
  0 <= verify_offset_ e <= h_image_size (header_ e) /\
  exists bs, mem_read m bD (Z.to_nat (verify_offset_ e)) = Some bs /\ verify_crc_ e = crc32_calculate bs.

Definition fresh e : Prop := verify_offset_ e = 0 /\ verify_crc_ e = 0 /\ 0 < h_image_size (header_ e).

Definition at_rest (cs : EngineState.State) e (d : D) : Prop :=
  jrest (journal_ e) /\ wrest (writer_ e) /\ safe_dev d /\
  (requested_ e = true -> flight d = None /\ newest layout (view d) (snapshot_ e) /\ fresh e) /\
  (cs = EngineState.done -> flight d = None /\ installed (view d)).

Definition aborted e (d : D) : Prop :=
  jrest (journal_ e) /\ wrun (writer_ e) d \/
  wrest (writer_ e) /\ (exists sa sb, jrun (journal_ e) d sa sb) \/
  jrest (journal_ e) /\ wrest (writer_ e) /\ safe_dev d.

Definition phase (cs : EngineState.State) e (d : D) : Prop :=
  match cs with
  | EngineState.disabled | EngineState.idle | EngineState.done | EngineState.failed => at_rest cs e d
  | EngineState.invalidating =>
      requested_ e = false /\ fresh e /\ wrest (writer_ e) /\
      exists sa sb, jrun (journal_ e) d sa sb /\ image_state (image_of dst sb) = ImageState.incomplete
  | EngineState.receiving =>
      requested_ e = false /\ fresh e /\ jrest (journal_ e) /\ wrest (writer_ e) /\ filling d
  | EngineState.writing => requested_ e = false /\ fresh e /\ jrest (journal_ e) /\ wrun (writer_ e) d
  | EngineState.verifying =>
      requested_ e = false /\ verifies e (view d) /\ verify_offset_ e < h_image_size (header_ e) /\
      jrest (journal_ e) /\ wrest (writer_ e) /\ filling d
  | EngineState.committing =>
      requested_ e = false /\ wrest (writer_ e) /\
      exists sa sb, jrun (journal_ e) d sa sb /\ candidate_in (view d) sb /\ announced e sb
  | EngineState.aborting => requested_ e = false /\ aborted e d
  end.

Record core (cs : EngineState.State) e (d : D) : Prop := {
  co_running : running_slot_ e = r;
  co_header : header_ok layout (header_ e);
  co_reader : within (reader_ e) /\ ticking_ (Package.machine_ (reader_ e)) = false;
  co_rx : bytes_ok (rx_ e);
  co_verification : length (verification_ e) = 256%nat;
  co_phase : phase cs e d
}.

Definition keeps (x : EngineState.State * (Engine * D)) : Prop := core (fst x) (fst (snd x)) (snd (snd x)).

Lemma dst_eq e : running_slot_ e = r -> destination e = dst.
Proof. intros H. unfold destination. rewrite H. destruct Hr as [-> | ->]; done. Qed.

Lemma filling_safe d : filling d -> safe_dev d.
Proof. intros (Hd & Hf & Hc). apply (cleared_safe F layout HU r Hr); [done|done|]. intros o Ho. congruence. Qed.

Lemma now_same d : dev_ok d -> exists t d', flash_now F d = (t, d') /\ dev_ok d' /\ view d' = view d /\ flight d' = flight d.
Proof. apply now_spec. Qed.

Lemma filling_now d t d' : filling d -> flash_now F d = (t, d') -> filling d'.
Proof.
  intros (Hd & Hf & Hc) E. destruct (now_spec d Hd) as (t' & d0 & E' & Hd' & Hv & Hf'). rewrite E in E'.
  injection E' as <- <-. split; [done|]. split; [congruence|by rewrite Hv].
Qed.

(** ** Snapshots that mark the destination *)

Lemma newest_good d s : safe_dev d -> newest layout (view d) s -> good s (view d).
Proof.
  intros Hs Hn. destruct (safe_view F layout r m0 s0 d Hs) as [Hj (s' & Hn' & Hg) _].
  by rewrite (newest_unique _ _ _ _ (proj1 Hj) Hn Hn').
Qed.

Lemma marked_good s m : good s m -> good (set_state s dst ImageState.incomplete) m.
Proof.
  intros [H1 _]. split.
  - unfold image_of in *. rewrite sel_set_other; [done|destruct Hr; lia..].
  - right. left. unfold image_of. by rewrite sel_set_state.
Qed.

Lemma marked_incomplete s : image_state (image_of dst (set_state s dst ImageState.incomplete)) = ImageState.incomplete.
Proof. unfold image_of. by rewrite sel_set_state. Qed.

Lemma cleared_of d s :
  safe_dev d -> newest layout (view d) s -> image_state (image_of dst s) = ImageState.incomplete -> cleared (view d).
Proof.
  intros Hs Hn Hi. pose proof (newest_good d s Hs Hn) as [Hg _].
  destruct (safe_view F layout r m0 s0 d Hs) as [Hj _ Hrun]. split; [done| |done]. by exists s.
Qed.

Lemma image_of_images i s s' : images s = images s' -> image_of i s = image_of i s'.
Proof. unfold image_of. by intros ->. Qed.

(** Mark the destination [incomplete] over the newest snapshot [s]. *)
Lemma mark_dev j d s :
  safe_dev d -> flight d = None -> newest layout (view d) s -> jrest j ->
  exists st j' d', Journal.begin F layout j d (set_state s dst ImageState.incomplete) false = (st, j', d') /\
    (st <> Status.ok /\ jrest j' /\ safe_dev d' \/
     st = Status.ok /\ exists sb, jrun j' d' s sb /\ image_state (image_of dst sb) = ImageState.incomplete).
Proof.
  intros Hs Hf Hn Hj. pose proof (newest_good d s Hs Hn) as Hg.
  assert (Hok : snapshot_ok (set_state s dst ImageState.incomplete)).
  { apply set_state_ok. eapply newest_ok; [apply view_ok, Hs|exact Hn]. }
  destruct (begin_dev F layout HU r m0 s0 j d s _ false Hs Hf Hn Hg Hj Hok (marked_good _ _ Hg))
    as (st & j' & d' & E & _ & _ & Hs' & Hcase).
  exists st, j', d'. split; [done|].
  destruct Hcase as [[Hst Hj']|(-> & _ & sb & Hi & _ & Hrun)]; [by left|right]. split; [done|]. exists sb.
  split; [done|]. rewrite (image_of_images dst sb _ Hi). apply marked_incomplete.
Qed.

(** ** The steps *)

Ltac efields := cbn [owner_ running_slot_ journal_ writer_ reader_ header_ snapshot_ rx_ verification_ status_
  abort_reason_ received_ verify_offset_ verify_crc_ rx_size_ rx_at_ waiting_since_ enabled_ requested_
  abort_requested_ field_update] in *.

Lemma keep_idle cs e d :
  (cs = EngineState.disabled \/ cs = EngineState.idle \/ cs = EngineState.done \/ cs = EngineState.failed) ->
  core cs e d -> keeps (step_idle F layout cs e d).
Proof.
  intros Hcs [Hrun Hh Hrd Hrx Hv Hp]. unfold step_idle, keeps.
  assert (Hrest : at_rest cs e d) by (destruct Hcs as [->|[->|[->| ->]]]; exact Hp).
  pose proof Hrest as (Hj & Hw & Hs & Hreq & Hdone).
  destruct (requested_ e) eqn:Erq.
  - destruct (Hreq eq_refl) as (Hf & Hn & Hfresh).
    unfold mark_incomplete. efields. rewrite (dst_eq (e <| requested_ := false |>)) by done.
    destruct (mark_dev (journal_ e) d (snapshot_ e) Hs Hf Hn Hj) as (st & j' & d' & -> & Hcase).
    destruct Hcase as [(Hst & Hj' & Hs')|(-> & sb & Hrunj & Hinc)].
    + rewrite (proj2 (st_eqb_neq _ _) Hst). cbn [fst snd]. by split.
    + rewrite st_eqb_refl. cbn [fst snd]. split; [done..|]. split; [done|]. split; [done|]. split; [done|].
      by exists (snapshot_ e), sb.
  - assert (Hmove : forall ns e', running_slot_ e' = r -> header_ e' = header_ e -> reader_ e' = reader_ e ->
      rx_ e' = rx_ e -> verification_ e' = verification_ e -> journal_ e' = journal_ e -> writer_ e' = writer_ e ->
      requested_ e' = false -> (ns = EngineState.done -> cs = EngineState.done) ->
      (ns = EngineState.disabled \/ ns = EngineState.idle \/ ns = EngineState.done \/ ns = EngineState.failed) ->
      core ns e' d).
    { intros ns e' E1 E2 E3 E4 E5 E6 E7 E8 E9 Hns. split; rewrite ?E2, ?E3, ?E4, ?E5; try done.
      assert (at_rest ns e' d) by (unfold at_rest; rewrite E6, E7, E8; split_and!; auto; done).
      by destruct Hns as [->|[->|[->| ->]]]. }
    destruct (negb (Authorized e)); [|case_bool_decide]; cbn [fst snd]; apply Hmove; try done; auto.
Qed.

(** Any later state can turn to aborting. *)
Lemma core_aborting cs e e' d :
  core cs e d -> requested_ e' = false -> aborted e' d ->
  running_slot_ e' = running_slot_ e -> header_ e' = header_ e -> reader_ e' = reader_ e ->
  rx_ e' = rx_ e -> verification_ e' = verification_ e -> core EngineState.aborting e' d.
Proof.
  intros [Hrun Hh Hrd Hrx Hv _] Hq Ha E1 E2 E3 E4 E5. split; rewrite ?E1, ?E2, ?E3, ?E4, ?E5; done.
Qed.

Lemma journal_settled j d sa sb :
  jrun j d sa sb -> Journal.status_ j <> Status.busy ->
  jrest j /\ safe_dev d /\ (Journal.status_ j = Status.ok -> flight d = None /\ newest layout (view d) sb).
Proof.
  intros H Hnb. destruct (jrun_final F layout HU r m0 s0 j d sa sb H Hnb) as [Hj Hfin].
  split; [done|]. split; [|done]. by apply (jrun_safe F layout HU r m0 s0 j d sa sb).
Qed.

Lemma within_start h dest rd :
  is_u32 (h_image_size h) -> within rd -> ticking_ (Package.machine_ rd) = false ->
  let rd' := snd (Package.tick [] (Package.start h dest rd)) in
  within rd' /\ ticking_ (Package.machine_ rd') = false.
Proof.
  intros Hu Hw Ht. assert (Hw1 : within (Package.start h dest rd)) by (destruct Hw as [[] ? ? ?]; split; [by split|done|done|done]).
  destruct (within_tick [] (Package.start h dest rd)) as (H1 & H2 & _); [by constructor|done|done|done].
Qed.

Lemma keep_invalidating e d :
  core EngineState.invalidating e d -> keeps (step_invalidating F layout e d).
Proof.
  intros Hco. pose proof Hco as [Hrun Hh Hrd Hrx Hv (Hq & Hfresh & Hw & sa & sb & Hj & Hinc)].
  unfold step_invalidating, keeps.
  pose proof (jrun_tick F layout HU r m0 s0 _ _ _ _ Hj) as Ht.
  destruct (Journal.tick F layout (journal_ e) d) as [j' d']. destruct Ht as [Hj' _].
  efields. destruct (negb (Authorized _) || abort_requested_ e).
  { cbn [fst snd]. split; [done..|]. split; [done|]. right. left. split; [done|]. by exists sa, sb. }
  destruct (Journal.status_ j' =s? Status.busy) eqn:Eb; cbn [negb].
  { cbn [fst snd]. split; [done..|]. split; [done|]. split; [done|]. split; [done|]. by exists sa, sb. }
  apply st_eqb_neq in Eb. destruct (journal_settled _ _ _ _ Hj' Eb) as (Hjr & Hs' & Hok).
  destruct (Journal.status_ j' =s? Status.ok) eqn:Eo; cbn [negb].
  2:{ cbn [fst snd]. split; [done..|]. unfold phase, at_rest. efields. split_and!; try done. congruence. }
  apply st_eqb_eq in Eo. destruct (Hok Eo) as [Hf Hn].
  pose proof (within_start (header_ e) (destination (e <| journal_ := j' |>)) (reader_ e) (proj1 (ho_size _ _ Hh))
    (proj1 Hrd) (proj2 Hrd)) as Hwt. cbn zeta in Hwt.
  destruct (Package.tick [] _) as [c rd']. cbn [snd] in Hwt.
  assert (Hfill : filling d') by (split; [apply Hs'|]; split; [done|]; by apply (cleared_of d' sb)).
  destruct (flash_now F d') as [t d''] eqn:En. pose proof (filling_now _ _ _ Hfill En) as Hfill'.
  cbn [fst snd]. split; [done..|]. split; [done|]. by split_and!.
Qed.

Lemma keep_writing e d : core EngineState.writing e d -> keeps (step_writing F layout e d).
Proof.
  intros Hco. pose proof Hco as [Hrun Hh Hrd Hrx Hv (Hq & Hfresh & Hj & Hw)]. unfold step_writing, keeps.
  destruct (negb (Authorized _) || abort_requested_ e).
  { cbn [fst snd]. split; [done..|]. split; [done|]. left. split; [done|]. by apply wrun_cancel. }
  pose proof (wrun_tick F layout HU r Hr m0 s0 _ _ Hw) as Ht.
  destruct (Writer.tick F layout (writer_ e) d) as [w' d']. destruct Ht as (Hcase & Hs' & Hc' & Hok).
  efields. destruct (Writer.status_ w' =s? Status.busy) eqn:Eb; cbn [negb].
  { apply st_eqb_eq in Eb. destruct Hcase as [[_ Hw']|[_ Hnb]]; [|done].
    cbn [fst snd]. split; [done..|]. by split_and!. }
  apply st_eqb_neq in Eb. destruct Hcase as [[? _]|Hw']; [done|].
  destruct (Writer.status_ w' =s? Status.ok) eqn:Eo; cbn [negb].
  2:{ cbn [fst snd]. split; [done..|]. split; [done|]. right. right. by split_and!. }
  apply st_eqb_eq in Eo. assert (Hfill : filling d') by (split; [apply Hs'|]; split; [by apply Hok|done]).
  destruct (flash_now F d') as [t d''] eqn:En. pose proof (filling_now _ _ _ Hfill En) as Hfill'.
  cbn [fst snd]. split; [done|done| |done|done|by split_and!].
  destruct Hrd as [[[] ? ? ?] ?]. split; [|done]. split; [by split|done|done|done].
Qed.

Lemma resting_aborted e d : jrest (journal_ e) -> wrest (writer_ e) -> filling d -> aborted e d.
Proof. intros Hj Hw Hf. right. right. split; [done|]. split; [done|]. by apply filling_safe. Qed.

Lemma verifies_start e m : fresh e -> header_ok layout (header_ e) -> verifies e m.
Proof.
  intros (E1 & E2 & _) Hh. unfold verifies. rewrite E1, E2. destruct (ho_size _ _ Hh) as [[H0 _] _]. split; [lia|].
  exists []. split; [apply mem_read_nil|]. symmetry. apply crc32_update_nil.
Qed.

Lemma within_block rd : within rd -> bytes_ok (Package.block rd).
Proof. intros [[_ _ [_ Hb]] _ _ _]. by apply Forall_take. Qed.

(** The block that the reader has ready goes to the writer. *)
Lemma keep_block e d :
  core EngineState.receiving e d ->
  keeps (let '(result, writer, d) := Writer.begin F layout (destination e) (Package.offset_ (reader_ e))
                                       (Package.block (reader_ e)) (writer_ e) d in
         let e := e <| writer_ := writer |> in
         if result =s? Status.ok then (EngineState.writing, (e, d))
         else (EngineState.aborting, (Fail result e, d))).
Proof.
  intros [Hrun Hh [Hwi Hrt] Hrx Hv (Hq & Hfresh & Hj & Hw & Hd & Hf & Hc)]. rewrite (dst_eq e Hrun).
  pose proof (ud_journal _ _ HU) as HJ.
  destruct (writer_begin_spec F layout (device_layout F layout HJ) bD
    (Layout_valid_slot _ _ (jd_unsigned _ _ HJ) (jd_layout _ _ HJ)) dst (Package.offset_ (reader_ e)) (Package.block (reader_ e))
    (writer_ e) d eq_refl Hd Hf (proj1 Hw) (within_block _ Hwi) (wi_offset _ Hwi))
    as (st & w' & d' & -> & Hd' & Hv' & Hf' & Hcase).
  unfold keeps. destruct Hcase as [[Hst ->]|(-> & HI & Hb & _)].
  - rewrite (proj2 (st_eqb_neq _ _) Hst). cbn [fst snd]. split; [done..|]. split; [done|].
    apply resting_aborted; [done|done|]. split; [done|]. split; [done|by rewrite Hv'].
  - rewrite st_eqb_refl. cbn [fst snd]. split; [done..|]. split; [done|]. split; [done|]. split; [done|].
    split; [done|done|by rewrite Hv'|]. intros o Ho. congruence.
Qed.

(** What the engine does when the reader wants more input. *)
Lemma keep_waiting e d :
  core EngineState.receiving e d ->
  keeps (if (rx_size_ e =? 0)%nat && (received_ e =? total e)
         then (EngineState.aborting, (Fail Status.parse_error e, d))
         else if (rx_size_ e =? 0)%nat then
           let '(t, d) := flash_now F d in
           if u64 (t - waiting_since_ e) >=? inactivity_
           then (EngineState.aborting, (Fail Status.timeout e, d))
           else (EngineState.receiving, (e, d))
         else (EngineState.receiving, (e, d))).
Proof.
  intros Hco. pose proof Hco as [Hrun Hh Hrd Hrx Hv (Hq & Hfresh & Hj & Hw & Hfill)]. unfold keeps.
  assert (Hab : forall st d', filling d' -> core EngineState.aborting (Fail st e) d').
  { intros st d' Hf'. split; [done..|]. split; [done|]. by apply resting_aborted. }
  destruct (_ && _); [by apply Hab|]. destruct (rx_size_ e =? 0)%nat; [|done].
  destruct (flash_now F d) as [t d'] eqn:En. pose proof (filling_now _ _ _ Hfill En) as Hfill'.
  destruct (_ >=? _); [by apply Hab|]. cbn [fst snd]. split; [done..|]. by split_and!.
Qed.

Lemma keep_receiving e d : core EngineState.receiving e d -> keeps (step_receiving F layout inactivity_ e d).
Proof.
  intros Hco. pose proof Hco as [Hrun Hh Hrd Hrx Hv (Hq & Hfresh & Hj & Hw & Hfill)]. unfold step_receiving.
  destruct (negb (Authorized _) || abort_requested_ e).
  { unfold keeps. cbn [fst snd]. split; [done..|]. split; [done|]. by apply resting_aborted. }
  destruct (within_tick (sub (rx_ e) (rx_at_ e) (rx_size_ e - rx_at_ e)) (reader_ e)) as (Hwi & Hrt & _);
    [by apply Forall_sub|apply Hrd|apply Hrd|].
  destruct (Package.tick _ (reader_ e)) as [c rd]. cbn [snd] in Hwi, Hrt. cbn zeta. efields.
  set (e1 := e <| reader_ := rd |> <| rx_at_ := (rx_at_ e + c)%nat |>).
  assert (Hco1 : core EngineState.receiving e1 d) by (split; try done; by split_and!).
  assert (Hco2 : forall e2 d2,
    (if negb (rx_size_ e =? 0)%nat && (rx_at_ e + c =? rx_size_ e)%nat
     then let '(t, d) := flash_now F d in
          (e1 <| rx_size_ := 0%nat |> <| rx_at_ := 0%nat |> <| waiting_since_ := t |>, d)
     else (e1, d)) = (e2, d2) -> core EngineState.receiving e2 d2).
  { intros e2 d2. destruct (_ && _); [|by intros [= <- <-]].
    destruct (flash_now F d) as [t d'] eqn:En. intros [= <- <-]. pose proof (filling_now _ _ _ Hfill En).
    split; try done; by split_and!. }
  destruct (if negb (rx_size_ e =? 0)%nat && _ then _ else _) as [e2 d2]. specialize (Hco2 e2 d2 eq_refl).
  clear Hco1. clearbody e1.
  pose proof Hco2 as [Hrun2 Hh2 Hrd2 Hrx2 Hv2 (Hq2 & Hfresh2 & Hj2 & Hw2 & Hfill2)].
  assert (Hab : forall st, core EngineState.aborting (Fail st e2) d2).
  { intros st. split; [done..|]. split; [done|]. by apply resting_aborted. }
  destruct (Package.state (reader_ e2)); try (by apply keep_waiting).
  - by apply keep_block.
  - unfold keeps. destruct (_ || _); cbn [fst snd]; [apply Hab|].
    split; [done..|]. split; [done|]. split; [by apply verifies_start|].
    split; [destruct Hfresh2 as (-> & _ & ?); done|]. by split_and!.
  - unfold keeps. apply Hab.
Qed.

(** The snapshot that names the candidate. *)
Definition with_candidate e (s : Snapshot) : Snapshot :=
  let count := counter s + 1 in
  s <| counter := count |> <| images := set_sel (images s) dst (candidate e count) |>.

Lemma candidate_ok e s bs :
  header_ok layout (header_ e) -> snapshot_ok s -> counter s <> UINT64_MAX -> bytes_ok bs ->
  verify_crc_ e = crc32_calculate bs ->
  snapshot_ok (with_candidate e s) /\ u64 (counter s + 1) = counter s + 1.
Proof.
  intros [Hp Hrv [Hsz _] Hv] [H1 H2 H3 H4 H5 H6 H7] Hmax Hb Hcr. unfold is_u64, UINT64_MAX in *.
  assert (Hu : is_u64 (counter s + 1)) by (unfold is_u64; lia). rewrite u64_small by done. split; [|done].
  assert (Hc : image_ok (candidate e (counter s + 1))).
  { split; try done. cbn [image_crc candidate]. rewrite Hcr. by apply crc32_calculate_u32. }
  unfold with_candidate, set_sel. destruct (dst =? 0); split; cbn; try done; lia.
Qed.

Lemma sel_candidate e s :
  image_of dst (with_candidate e s) = candidate e (counter s + 1) /\ image_of r (with_candidate e s) = image_of r s.
Proof. unfold image_of, with_candidate, set_sel, sel. by destruct Hr as [-> | ->]. Qed.

(** The whole image has been read back; [bs] is what the slot holds. *)
Lemma keep_verified e d :
  core EngineState.aborting e d -> jrest (journal_ e) -> wrest (writer_ e) -> filling d ->
  verifies e (view d) -> verify_offset_ e = h_image_size (header_ e) ->
  keeps (step_verified F layout e d).
Proof.
  intros [Hrun Hh Hrd Hrx Hv [Hq _]] Hj Hw Hfill (Hvo & bs & Hread & Hcrc') Hall.
  unfold step_verified. pose proof (filling_safe d Hfill) as Hs. pose proof Hfill as (Hd & Hf & Hc).
  assert (Hab : forall st e2 d2, running_slot_ e2 = r -> header_ok layout (header_ e2) ->
    within (reader_ e2) /\ ticking_ (Package.machine_ (reader_ e2)) = false -> bytes_ok (rx_ e2) ->
    length (verification_ e2) = 256%nat -> requested_ e2 = false -> jrest (journal_ e2) -> wrest (writer_ e2) ->
    safe_dev d2 -> keeps (EngineState.aborting, (Fail st e2, d2))).
  { intros. unfold keeps. cbn [fst snd]. split; [done..|]. split; [done|]. right. right. by split_and!. }
  destruct (Z.eqb_spec (verify_crc_ e) (sel (h_crc (header_ e)) (destination e))) as [Hann|_]; cbn [negb]; [|by apply Hab].
  rewrite (dst_eq e Hrun) in Hann.
  destruct (load_dev F layout HU r m0 s0 (journal_ e) d (snapshot_ e) Hs)
    as (st & s & j1 & d1 & -> & Hs1 & (Em & Es & _) & Hcase & Hidle).
  destruct (Hidle Hf) as [-> Hv1]. destruct Hcase as [[? _]|(_ & Hf1 & Hn)]; [done|].
  assert (Hj1 : jrest j1) by (unfold jrest, quiet in *; by rewrite Em, Es).
  rewrite st_eqb_refl. efields. cbn [andb].
  destruct (Z.eqb_spec (counter s) UINT64_MAX) as [Emax|Emax]; [by apply Hab|]. rewrite st_eqb_refl.
  assert (Hbs : bytes_ok bs) by (eapply mem_read_bytes; [apply view_ok, Hd|exact Hread]).
  assert (Hsok : snapshot_ok s) by (eapply newest_ok; [apply view_ok, Hs1|exact Hn]).
  destruct (candidate_ok e s bs Hh Hsok Emax Hbs Hcrc') as [Hcok Hu]. rewrite Hu.
  rewrite (dst_eq (e <| snapshot_ := s |> <| journal_ := j1 |>)) by done.
  change (field_update images _ _) with (with_candidate e s).
  destruct (sel_candidate e s) as [Hcand Hother].
  pose proof (newest_good d1 s Hs1 Hn) as Hg.
  assert (Hver : candidate_in (view d1) (with_candidate e s)).
  { unfold candidate_in. rewrite Hcand. split; [done|]. split; [|done].
    destruct (ho_size _ _ Hh) as [[? _] ?]. split; [cbn; lia|]. exists bs. cbn [image_size image_crc candidate].
    rewrite <- Hall, Hv1. by split. }
  assert (Hgc : good (with_candidate e s) (view d1)).
  { split; [rewrite Hother; apply Hg|]. right. right. split; apply Hver. }
  destruct (begin_dev F layout HU r m0 s0 j1 d1 s _ false Hs1 Hf1 Hn Hg Hj1 Hcok Hgc)
    as (st & j2 & d2 & -> & Hv2 & _ & Hs2 & Hcase2).
  destruct Hcase2 as [[Hst Hj2]|(-> & _ & sb & Hi & Hcnt & Hrunj)].
  - rewrite (proj2 (st_eqb_neq _ _) Hst). by apply Hab.
  - rewrite st_eqb_refl. unfold keeps. cbn [fst snd]. split; [done..|]. split; [done|]. split; [done|].
    exists s, sb. split; [done|]. unfold candidate_in, announced. rewrite (image_of_images dst sb _ Hi), Hcnt, Hv2, Hcand.
    split; [by rewrite <- Hcand|by split].
Qed.

Lemma keep_verifying e d : core EngineState.verifying e d -> keeps (step_verifying F layout crc_ e d).
Proof.
  intros [Hrun Hh Hrd Hrx Hv (Hq & (Hvo & bs & Hread & Hcrc') & Hlt & Hj & Hw & Hfill)].
  unfold step_verifying. pose proof Hfill as (Hd & Hf & Hc).
  destruct (negb (Authorized _) || abort_requested_ e).
  { unfold keeps. cbn [fst snd]. split; [done..|]. split; [done|]. by apply resting_aborted. }
  cbn zeta. rewrite (dst_eq e Hrun). destruct (ho_size _ _ Hh) as [[Hsz0 Hsz1] Hsz2]. pose proof (ud_journal _ _ HU) as HJ.
  pose proof (Layout_valid_slot layout dst (jd_unsigned _ _ HJ) (jd_layout _ _ HJ)) as [Hb0 Hb1 Hb2 Hb3 _].
  rewrite (u32_small (_ - _)) by (unfold is_u32; lia).
  set (count := Z.min 256 _). assert (Hcount : 0 < count <= 256 /\ count <= h_image_size (header_ e) - verify_offset_ e) by lia.
  clearbody count. set (n := Z.to_nat count).
  assert (Hbuf : length (take n (verification_ e)) = n) by (rewrite length_take; unfold n; lia).
  rewrite (u32_small (bD + verify_offset_ e)) by (unfold is_u32; lia).
  destruct (read_spec d (bD + verify_offset_ e) (take n (verification_ e)) Hd Hf) as (st & out & d1 & -> & Hd1 & Hv1 & Hf1 & Hlen & Hout).
  { apply (ud_slots _ _ HU dst); rewrite ?Hbuf; unfold n; lia. }
  rewrite Hbuf in Hlen, Hout. assert (Hfill1 : filling d1) by (split; [done|]; split; [done|by rewrite Hv1]).
  destruct (mem_read (view d) (bD + verify_offset_ e) n) as [more|] eqn:Emore.
  2:{ destruct Hout as [Hno _]. rewrite (proj2 (st_eqb_neq _ _) Hno). cbn [negb]. unfold keeps. cbn [fst snd].
      split; try done. { cbn. by rewrite length_blit. } split; [done|]. by apply resting_aborted. }
  destruct Hout as [-> ->]. rewrite st_eqb_refl. cbn [negb]. efields.
  assert (Htake : take n (blit 0 more (verification_ e)) = more).
  { pose proof (sub_blit_same 0 more (verification_ e) n) as H. unfold sub in H. rewrite drop_0 in H. apply H; lia. }
  rewrite Htake, (service_update_correct _ _ _ Hcrc), Hcrc'.
  rewrite (u32_small (verify_offset_ e + count)) by (unfold is_u32; lia).
  match goal with |- keeps (if _ then step_verified F layout ?e2 _ else _) => set (e1 := e2) end.
  assert (Hco1 : core EngineState.aborting e1 d1).
  { split; try done. { cbn. by rewrite length_blit. } split; [done|]. by apply resting_aborted. }
  assert (Hver : verifies e1 (view d1)).
  { unfold verifies, e1. efields. split; [lia|]. exists (bs ++ more). split.
    - rewrite Hv1, Z2Nat.inj_add by lia. apply mem_read_app; [done|]. by rewrite Z2Nat.id by lia.
    - unfold crc32_calculate. by rewrite crc32_update_app. }
  destruct (Z.eqb_spec (verify_offset_ e + count) (h_image_size (header_ e))) as [Eall|Eall].
  - by apply keep_verified.
  - destruct Hco1 as [? ? ? ? ? _]. unfold keeps. cbn [fst snd]. split; [done..|]. split; [done|]. split; [done|].
    split; [unfold e1; efields; lia|]. by split_and!.
Qed.

(** A tick of the commit keeps the candidate in its slot. *)
Lemma committing_tick e d : core EngineState.committing e d ->
  let '(j', d') := Journal.tick F layout (journal_ e) d in
  exists sa sb, jrun j' d' sa sb /\ candidate_in (view d') sb /\ announced e sb.
Proof.
  intros [_ _ _ _ _ (_ & _ & sa & sb & Hj & Hcand & Hann)].
  pose proof (jrun_tick F layout HU r m0 s0 _ _ _ _ Hj) as Ht.
  destruct (Journal.tick F layout (journal_ e) d) as [j' d']. destruct Ht as [Hj' Hslots].
  exists sa, sb. split; [done|]. split; [|done].
  destruct Hcand as (H1 & (H2 & bs & H3 & H4) & H5). split; [done|]. split; [|done]. split; [done|]. exists bs.
  split; [|done]. rewrite <- H3. apply mem_read_ext. intros x Hx. apply (Hslots dst). unfold slot_region, in_block in *. lia.
Qed.

Lemma keep_committing e d : core EngineState.committing e d -> keeps (step_committing F layout e d).
Proof.
  intros Hco. pose proof (committing_tick e d Hco) as Ht.
  pose proof Hco as [Hrun Hh Hrd Hrx Hv (Hq & Hw & _)]. unfold step_committing, keeps.
  destruct (Journal.tick F layout (journal_ e) d) as [j' d']. destruct Ht as (sa & sb & Hj' & Hcand' & Hann).
  efields. destruct (negb (Authorized _) || abort_requested_ e).
  { cbn [fst snd]. split; [done..|]. split; [done|]. right. left. split; [done|]. by exists sa, sb. }
  destruct (Journal.status_ j' =s? Status.busy) eqn:Eb; cbn [negb].
  { cbn [fst snd]. split; [done..|]. split; [done|]. split; [done|]. by exists sa, sb. }
  apply st_eqb_neq in Eb. destruct (journal_settled _ _ _ _ Hj' Eb) as (Hjr & Hs' & Hok).
  destruct (Journal.status_ j' =s? Status.ok) eqn:Eo; cbn [fst snd].
  2:{ split; [done..|]. split; [done|]. right. right. by split_and!. }
  apply st_eqb_eq in Eo. destruct (Hok Eo) as [Hf Hn]. split; [done..|]. unfold phase, at_rest. efields.
  split; [done|]. split; [done|]. split; [done|]. split; [congruence|]. intros _. split; [done|]. by exists sb.
Qed.

(** When the commit ends the update, the newest snapshot names the announced image. *)
Lemma committing_done e d : core EngineState.committing e d ->
  let '(ns, (e', d')) := step_committing F layout e d in
  ns = EngineState.done -> exists s, newest layout (view d') s /\ announced e' s.
Proof.
  intros Hco. pose proof (committing_tick e d Hco) as Ht. unfold step_committing.
  destruct (Journal.tick F layout (journal_ e) d) as [j' d']. destruct Ht as (sa & sb & Hj' & _ & Hann).
  efields. destruct (negb (Authorized _) || abort_requested_ e); [done|].
  destruct (Journal.status_ j' =s? Status.busy) eqn:Eb; cbn [negb]; [done|].
  apply st_eqb_neq in Eb. destruct (journal_settled _ _ _ _ Hj' Eb) as (_ & _ & Hok).
  destruct (Journal.status_ j' =s? Status.ok) eqn:Eo; [|done]. apply st_eqb_eq in Eo.
  intros _. exists sb. split; [by apply Hok|done].
Qed.

Lemma keep_aborting e d : core EngineState.aborting e d -> keeps (step_aborting F layout e d).
Proof.
  intros Hco. pose proof Hco as [Hrun Hh Hrd Hrx Hv (Hq & Hab)]. unfold step_aborting.
  destruct (Writer.status_ (writer_ e) =s? Status.busy) eqn:Ewb.
  { apply st_eqb_eq in Ewb. destruct Hab as [[Hj Hw]|[[[_ ?] _]|(_ & [_ ?] & _)]]; [|done|done].
    pose proof (wrun_tick F layout HU r Hr m0 s0 _ _ (wrun_cancel F layout r Hr m0 s0 _ _ Hw)) as Ht.
    destruct (Writer.tick _ _ _ _) as [w' d']. destruct Ht as (Hcase & Hs' & _). unfold keeps. cbn [fst snd].
    split; [done..|]. split; [done|]. destruct Hcase as [[_ Hw']|Hw']; [by left|]. right. right. by split_and!. }
  apply st_eqb_neq in Ewb. destruct Hab as [[_ [_ ? _ _]]|Hab]; [done|].
  destruct (Journal.status_ (journal_ e) =s? Status.busy) eqn:Ejb.
  { apply st_eqb_eq in Ejb. destruct Hab as [(Hw & sa & sb & Hj)|([_ ?] & _)]; [|done].
    pose proof (jrun_tick F layout HU r m0 s0 _ _ _ _ Hj) as Ht.
    destruct (Journal.tick F layout (journal_ e) d) as [j' d']. destruct Ht as [Hj' _]. unfold keeps. cbn [fst snd].
    split; [done..|]. split; [done|]. right. left. split; [done|]. by exists sa, sb. }
  apply st_eqb_neq in Ejb.
  assert (Hrest : jrest (journal_ e) /\ wrest (writer_ e) /\ safe_dev d).
  { destruct Hab as [(Hw & sa & sb & Hj)|H]; [|exact H]. by destruct (journal_settled _ _ _ _ Hj Ejb) as (? & ? & _). }
  destruct Hrest as (Hj & Hw & Hs). clear Hab.
  destruct (poll_dev F layout r m0 s0 d Hs) as (pst & d1 & -> & Hs1 & Hf1 & _).
  destruct (pst =s? Status.busy) eqn:Epb.
  { unfold keeps. cbn [fst snd]. split; [done..|]. split; [done|]. right. right. by split_and!. }
  apply st_eqb_neq in Epb. specialize (Hf1 Epb).
  destruct (load_dev F layout HU r m0 s0 (journal_ e) d1 (snapshot_ e) Hs1)
    as (st & s & j1 & d2 & -> & Hs2 & (Em & Es & _) & Hcase & Hidle).
  destruct (Hidle Hf1) as [-> _]. destruct Hcase as [[? _]|(_ & Hf2 & Hn)]; [done|].
  assert (Hj1 : jrest j1) by (unfold jrest, quiet in *; by rewrite Em, Es).
  rewrite st_eqb_refl. efields. cbn [andb]. cbn zeta.
  assert (Hfin : forall st2 e2 d3, running_slot_ e2 = r -> header_ e2 = header_ e -> reader_ e2 = reader_ e ->
    rx_ e2 = rx_ e -> verification_ e2 = verification_ e -> requested_ e2 = false -> jrest (journal_ e2) ->
    writer_ e2 = writer_ e -> safe_dev d3 ->
    keeps (EngineState.failed,
         (e2 <| status_ := st2 |> <| abort_requested_ := false |> <| rx_size_ := 0%nat |> <| rx_at_ := 0%nat |>, d3))).
  { intros st2 e2 d3 E1 E2 E3 E4 E5 E6 Hj2 E7 Hs3. unfold keeps. cbn [fst snd].
    split; efields; rewrite ?E2, ?E3, ?E4, ?E5; [exact E1|exact Hh|exact Hrd|exact Hrx|exact Hv|].
    unfold phase, at_rest. efields. rewrite E6, E7.
    split; [exact Hj2|]. split; [exact Hw|]. split; [exact Hs3|]. split; discriminate. }
  case_bool_decide as Epend.
  2:{ by apply Hfin. }
  unfold mark_incomplete. efields. rewrite (dst_eq (e <| snapshot_ := s |> <| journal_ := j1 |>)) by done.
  destruct (mark_dev j1 d2 s Hs2 Hf2 Hn Hj1) as (st & j2 & d3 & -> & Hcase).
  destruct Hcase as [(Hst & Hj2 & Hs3)|(-> & sb & Hrunj & _)].
  - rewrite (proj2 (st_eqb_neq _ _) Hst). by apply Hfin.
  - rewrite st_eqb_refl. unfold keeps. cbn [fst snd]. split; [done..|]. split; [done|]. right. left.
    split; [done|]. by exists s, sb.
Qed.

Lemma keep_Step cs e d : core cs e d -> keeps (Engine.Step F layout crc_ inactivity_ cs (e, d)).
Proof.
  intros H. destruct cs; cbn [Engine.Step];
    first [by apply keep_idle; auto|by apply keep_invalidating|by apply keep_receiving|by apply keep_writing
          |by apply keep_verifying|by apply keep_committing|by apply keep_aborting].
Qed.

Lemma core_machine cs e d m : core cs e d -> core cs (e <| machine_ := m |>) d.
Proof. intros []. by split. Qed.
End engine_inv.

(** ** Ticks *)

Section frames.
Context {D : Type} (F : Flash D) (layout : Layout) (crc_ : Backend) (inactivity_ : Time).
Implicit Types e : Engine.

Ltac framed := repeat (split_match; cbn [fst snd]); try reflexivity.

Lemma frame_receiving e d :
  machine_ (fst (snd (step_receiving F layout inactivity_ e d))) = machine_ e.
Proof.
  unfold step_receiving. destruct (_ || _); [done|]. destruct (Package.tick _ _) as [c rd]. cbn zeta.
  destruct (if negb _ && _ then _ else _) as [e2 d2] eqn:E.
  assert (H : machine_ e2 = machine_ e) by (revert E; destruct (_ && _); [destruct (flash_now F d)|]; by intros [= <- <-]).
  rewrite <- H. destruct (Package.state _); framed.
Qed.

Lemma frame_verified e d : machine_ (fst (snd (step_verified F layout e d))) = machine_ e.
Proof.
  unfold step_verified. destruct (negb _); [done|]. destruct (Journal.load _ _ _ _ _) as [[[st s] j] d1]. cbn zeta.
  framed; by repeat match goal with E : (_, _, _) = (_, _, _) |- _ => injection E as <- <- <- end.
Qed.

Lemma Engine_frame cs (x : Engine * D) :
  machine (snd (Engine.Step F layout crc_ inactivity_ cs x)) = machine x.
Proof.
  destruct x as [e d]. cbn [machine Engine_machine fst].
  destruct cs; cbn [Engine.Step]; try apply frame_receiving;
    try (unfold step_idle, step_invalidating, step_writing, step_committing, step_aborting, mark_incomplete; framed).
  unfold step_verifying. destruct (_ || _); [done|]. cbn zeta. destruct (flash_read _ _ _ _) as [[st bs] d1].
  destruct (negb _); [done|]. destruct (_ =? _); [|done]. by rewrite frame_verified.
Qed.
(** Only the commit leads to [done]. *)
Lemma done_from_committing cs e d : cs <> EngineState.done -> cs <> EngineState.committing ->
  fst (Engine.Step F layout crc_ inactivity_ cs (e, d)) <> EngineState.done.
Proof.
  intros Hd Hc. destruct cs; try done; cbn [Engine.Step]; clear Hd Hc.
  - unfold step_idle. framed; done.
  - unfold step_idle. framed; done.
  - unfold step_invalidating. framed; done.
  - unfold step_receiving. destruct (_ || _); [done|]. destruct (Package.tick _ _) as [c rd]. cbn zeta.
    destruct (if negb _ && _ then _ else _) as [e2 d2]. destruct (Package.state _); framed; done.
  - unfold step_writing. framed; done.
  - unfold step_verifying. destruct (_ || _); [done|]. cbn zeta. destruct (flash_read _ _ _ _) as [[st bs] d1].
    destruct (negb _); [done|]. destruct (_ =? _); [|done]. unfold step_verified. destruct (negb _); [done|].
    destruct (Journal.load _ _ _ _ _) as [[[st2 s] j] d2]. cbn zeta. framed; done.
  - unfold step_aborting. framed; done.
  - unfold step_idle. framed; done.
Qed.
End frames.
