(* ===== verification/EngineRun.v ===== *)
(** * Runs of the update engine

    Any sequence of calls of the engine's interface, with ticks in between.
    The calls are those an installation is made of; [running_slot] belongs to
    initialization and is made once, before the first of them. *)

From S2P Require Import Prelude Foundation Wire StateMachine Flash Codec Journal JournalScan JournalCrash JournalCommit Control Package PackageStream Writer WriterProof Engine EngineSafe EngineInv.

Inductive Call :=
  | CallTick
  | CallEnable (value : bool)
  | CallReserve (owner : option nat)
  | CallRelease (owner : option nat)
  | CallBegin (bytes : list Z) (owner : option nat)
  | CallChunk (offset : Z) (data : list Z) (crc : Z)
  | CallAbort (reason : Status).

(** The bytes of a span are bytes. *)
Definition call_ok (c : Call) : Prop :=
  match c with CallBegin bytes _ => bytes_ok bytes | CallChunk _ data _ => bytes_ok data | _ => True end.

Section run.
Context {D : Type} (F : Flash D) (layout : Layout) (crc_ : Backend) (inactivity_ : Time).

Definition perform (x : Engine * D) (c : Call) : Engine * D :=
  let '(e, d) := x in
  match c with
  | CallTick => Engine.tick F layout crc_ inactivity_ e d
  | CallEnable value => (Engine.enable value e, d)
  | CallReserve owner => (snd (Engine.reserve owner e), d)
  | CallRelease owner => (Engine.release owner e, d)
  | CallBegin bytes owner => let '(_, e, d) := Engine.begin F layout bytes owner e d in (e, d)
  | CallChunk offset data crc => (snd (Engine.chunk crc_ offset data crc e), d)
  | CallAbort reason => (Engine.abort reason e, d)
  end.
Definition run (calls : list Call) (x : Engine * D) : Engine * D := foldl perform x calls.

Section keep.
Context `{HC : !FlashContract F (sector_size layout) (write_size layout)}.
Context (HU : update_device F layout) (Hcrc : backend_faithful crc_).
Context (r : Z) (Hr : r = 0 \/ r = 1) (m0 : Mem) (s0 : Snapshot).
Implicit Types e : Engine.

Local Abbreviation core := (core F layout r m0 s0).

Definition Inv e (d : D) : Prop := ticking_ (machine_ e) = false /\ core (Engine.state e) e d.

Lemma engine_Inv_tick e d : Inv e d -> let '(e', d') := Engine.tick F layout crc_ inactivity_ e d in Inv e' d'.
Proof.
  intros [Ht Hc]. unfold Engine.tick.
  rewrite (tick_step_only (Engine.Step F layout crc_ inactivity_) (Engine_frame F layout crc_ inactivity_) (e, d) Ht).
  cbn [machine Engine_machine fst snd with_machine].
  pose proof (keep_Step F layout crc_ inactivity_ HU Hcrc r Hr m0 s0 _ _ _
    (core_machine F layout r m0 s0 _ e d (pre_machine (machine_ e)) Hc)) as Hk.
  unfold keeps in Hk. unfold Engine.state in Hk. destruct (Engine.Step _ _ _ _ _ _) as [ns [e1 d1]]. cbn [fst snd] in *.
  split; [done|]. unfold Engine.state. cbn [machine_ field_update]. rewrite cs_post_machine.
  apply core_machine. by destruct ns.
Qed.

(** A tick that finishes an update installs what the package announced. *)
Lemma tick_into_done e d : Inv e d -> Engine.state e <> EngineState.done ->
  let '(e', d') := Engine.tick F layout crc_ inactivity_ e d in
  Engine.state e' = EngineState.done -> exists s, newest layout (view d') s /\ announced r e' s.
Proof.
  intros [Ht Hc] Hnd. unfold Engine.tick.
  rewrite (tick_step_only (Engine.Step F layout crc_ inactivity_) (Engine_frame F layout crc_ inactivity_) (e, d) Ht).
  cbn [machine Engine_machine fst snd with_machine]. fold (Engine.state e).
  set (e0 := e <| machine_ := pre_machine (machine_ e) |>).
  assert (Hc0 : core (Engine.state e) e0 d) by by apply core_machine.
  assert (Hdone : let '(ns, (e1, d1)) := Engine.Step F layout crc_ inactivity_ (Engine.state e) (e0, d) in
            ns = EngineState.done -> exists s, newest layout (view d1) s /\ announced r e1 s).
  { destruct (decide (Engine.state e = EngineState.committing)) as [Ecs|Ecs].
    - rewrite Ecs in Hc0 |- *. cbn [Engine.Step]. by apply (committing_done F layout HU r m0 s0).
    - pose proof (done_from_committing F layout crc_ inactivity_ _ e0 d Hnd Ecs) as H.
      by destruct (Engine.Step _ _ _ _ _ _) as [ns [e1 d1]]. }
  destruct (Engine.Step _ _ _ _ _ _) as [ns [e1 d1]]. cbn [fst snd]. unfold Engine.state at 1. cbn [machine_ field_update].
  rewrite cs_post_machine. intros Hns. apply Hdone. by destruct ns.
Qed.

(** A call that leaves the device alone, and of the engine only what the
    invariant does not mention. *)
Lemma core_same cs e e' d :
  running_slot_ e' = running_slot_ e -> header_ e' = header_ e -> reader_ e' = reader_ e ->
  bytes_ok (rx_ e') -> verification_ e' = verification_ e -> journal_ e' = journal_ e -> writer_ e' = writer_ e ->
  requested_ e' = requested_ e -> snapshot_ e' = snapshot_ e -> verify_offset_ e' = verify_offset_ e ->
  verify_crc_ e' = verify_crc_ e -> core cs e d -> core cs e' d.
Proof.
  intros E1 E2 E3 E4 E5 E6 E7 E8 E9 E10 E11 [? ? ? ? ? Hp].
  split; rewrite ?E1, ?E2, ?E3, ?E5; try done. revert Hp.
  unfold phase, at_rest, aborted, fresh, verifies, announced. by rewrite E6, E7, E8, E9, E10, E11, E2.
Qed.

Lemma active_rest e : active e = false ->
  requested_ e = false /\ (Engine.state e = EngineState.disabled \/ Engine.state e = EngineState.idle \/
    Engine.state e = EngineState.done \/ Engine.state e = EngineState.failed).
Proof.
  unfold active, in_state. intros H. apply orb_false_iff in H as [Hq H]. split; [done|].
  destruct (Engine.state e); auto; discriminate.
Qed.

(** A call at rest that may have loaded the journal. *)
Lemma core_rest cs e e' d d' :
  (cs = EngineState.disabled \/ cs = EngineState.idle \/ cs = EngineState.done \/ cs = EngineState.failed) ->
  core cs e d ->
  running_slot_ e' = running_slot_ e -> header_ok layout (header_ e') -> reader_ e' = reader_ e ->
  rx_ e' = rx_ e -> verification_ e' = verification_ e -> kept (journal_ e) (journal_ e') -> writer_ e' = writer_ e ->
  safe_dev F layout r m0 s0 d' -> (flight d = None -> view d' = view d /\ flight d' = None) ->
  (requested_ e' = true -> flight d' = None /\ newest layout (view d') (snapshot_ e') /\ fresh e') ->
  core cs e' d'.
Proof.
  intros Hcs [H1 H2 H3 H4 H5 Hp] E1 Hh E3 E4 E5 (Em & Es & _) E7 Hs Hsame Hreq.
  assert (Hrest : at_rest F layout r m0 s0 cs e d) by (destruct Hcs as [->|[->|[->| ->]]]; exact Hp).
  destruct Hrest as (Hj & Hw & _ & _ & Hdone).
  split; rewrite ?E1, ?E3, ?E4, ?E5; try done.
  assert (at_rest F layout r m0 s0 cs e' d').
  { unfold at_rest. rewrite E7. split; [unfold jrest, quiet in *; by rewrite Em, Es|]. split; [done|].
    split; [done|]. split; [done|]. intros Hd. destruct (Hdone Hd) as [Hf Hi]. destruct (Hsame Hf) as [Hv Hf'].
    split; [done|]. by rewrite Hv. }
  by destruct Hcs as [->|[->|[->| ->]]].
Qed.

Lemma kept_refl j : kept j j.
Proof. done. Qed.

Lemma keep_begin bytes owner e d :
  bytes_ok bytes -> Inv e d ->
  let '(st, e', d') := Engine.begin F layout bytes owner e d in Inv e' d'.
Proof.
  intros Hb [Ht Hc]. pose proof Hc as [Hrun Hh _ _ _ _]. unfold Engine.begin.
  destruct (negb (bool_decide _)); [by split|]. destruct (negb (Authorized e)); [by split|].
  destruct (active e) eqn:Ea; [by split|]. destruct (_ >=? 2); [by split|].
  destruct (active_rest e Ea) as [Hq Hcs].
  pose proof (decode_header_ok bytes layout (destination e) (header_ e) Hb) as Hdh.
  destruct (decode_header _ _ _ _) as [st h]. cbn zeta.
  assert (Hh' : header_ok layout h /\ (st = Status.ok -> 0 < h_image_size h)).
  { destruct Hdh as [[Hst ->]|(-> & Hok & Hp)]; by split. }
  destruct Hh' as [Hh' Hpos].
  assert (Hs : safe_dev F layout r m0 s0 d).
  { destruct Hc as [_ _ _ _ _ Hp]. destruct Hcs as [E|[E|[E|E]]]; rewrite E in Hp; apply Hp. }
  destruct (st =s? Status.ok) eqn:Est; cbn [negb].
  2:{ split; [done|]. apply (core_rest (Engine.state e) e _ d d);
        [exact Hcs|exact Hc|reflexivity|exact Hh'|reflexivity|reflexivity|reflexivity|apply kept_refl|reflexivity|exact Hs|by split|].
      cbn. congruence. }
  apply st_eqb_eq in Est.
  destruct (load_dev F layout HU r m0 s0 (journal_ e) d (snapshot_ e) Hs)
    as (st2 & s & j1 & d1 & E & Hs1 & Hk & Hcase & Hidle).
  cbn [journal_ snapshot_ field_update]. rewrite E.
  assert (Hsame : flight d = None -> view d1 = view d /\ flight d1 = None).
  { intros Hf. destruct (Hidle Hf) as [-> Hv]. destruct Hcase as [[? _]|(_ & ? & _)]; [done|by split]. }
  assert (Hmid : Inv (e <| header_ := h |> <| snapshot_ := s |> <| journal_ := j1 |>) d1).
  { split; [done|]. apply (core_rest (Engine.state e) e _ d d1);
      [exact Hcs|exact Hc|reflexivity|exact Hh'|reflexivity|reflexivity|reflexivity|exact Hk|reflexivity|exact Hs1|exact Hsame|].
    cbn. congruence. }
  destruct (st2 =s? Status.ok) eqn:Est2; cbn [negb]; [|exact Hmid].
  destruct (negb _); [exact Hmid|]. destruct (_ =? UINT64_MAX); [exact Hmid|].
  apply st_eqb_eq in Est2. destruct Hcase as [[? _]|(_ & Hf1 & Hn)]; [congruence|].
  destruct (poll_dev F layout r m0 s0 d1 Hs1) as (pst & d2 & -> & Hs2 & Hf2 & Hidle2).
  destruct (Hidle2 Hf1) as [Hnb Hv2]. rewrite (proj2 (st_eqb_neq _ _) Hnb). specialize (Hf2 Hnb).
  split; [done|]. apply (core_rest (Engine.state e) e _ d d2);
    [exact Hcs|exact Hc|reflexivity|exact Hh'|reflexivity|reflexivity|reflexivity|exact Hk|reflexivity|exact Hs2| |].
  - intros Hf. destruct (Hsame Hf) as [Hv1 _]. split; [congruence|done].
  - intros _. split; [done|]. split; [by rewrite Hv2|]. split; [done|]. split; [done|]. by apply Hpos.
Qed.

Lemma Inv_same e e' d :
  machine_ e' = machine_ e ->
  running_slot_ e' = running_slot_ e -> header_ e' = header_ e -> reader_ e' = reader_ e ->
  (bytes_ok (rx_ e) -> bytes_ok (rx_ e')) -> verification_ e' = verification_ e -> journal_ e' = journal_ e ->
  writer_ e' = writer_ e -> requested_ e' = requested_ e -> snapshot_ e' = snapshot_ e ->
  verify_offset_ e' = verify_offset_ e -> verify_crc_ e' = verify_crc_ e -> Inv e d -> Inv e' d.
Proof.
  intros Em E1 E2 E3 E4 E5 E6 E7 E8 E9 E10 E11 [Ht Hc]. unfold Inv, Engine.state. rewrite Em. split; [done|].
  eapply core_same; try eassumption. apply E4. apply Hc.
Qed.

Lemma Inv_perform c e d : call_ok c -> Inv e d -> let '(e', d') := perform (e, d) c in Inv e' d'.
Proof.
  intros Hok HI. destruct c as [|v|o|o|bytes o|off data crc|reason]; cbn [perform].
  - by apply engine_Inv_tick.
  - by apply (Inv_same e).
  - unfold Engine.reserve. destruct o as [o|]; [|exact HI]. destruct (_ || _); [exact HI|by apply (Inv_same e)].
  - unfold Engine.release. destruct (_ && _); [by apply (Inv_same e)|exact HI].
  - pose proof (keep_begin bytes o e d Hok HI) as H. by destruct (Engine.begin _ _ _ _ _ _) as [[st e'] d'].
  - unfold Engine.chunk. destruct (negb _); [exact HI|]. destruct (_ || _ || _ || _); [exact HI|].
    destruct (negb _); [exact HI|]. apply (Inv_same e); try done. intros Hb. apply Forall_blit; done.
  - unfold Engine.abort. destruct (active e); [by apply (Inv_same e)|exact HI].
Qed.

Lemma Inv_run calls e d : Forall call_ok calls -> Inv e d -> let '(e', d') := run calls (e, d) in Inv e' d'.
Proof.
  intros Hok. revert e d. induction Hok as [|c calls Hc Hcs IH]; intros e d HI; [done|].
  unfold run. cbn [foldl]. pose proof (Inv_perform c e d Hc HI) as H. destruct (perform (e, d) c) as [e1 d1].
  by apply (IH e1 d1).
Qed.

(** Whatever state the engine is in, the device is safe. *)
Lemma core_safe cs e d : core cs e d -> safe_dev F layout r m0 s0 d.
Proof.
  intros [_ _ _ _ _ Hp]. destruct cs; cbn in Hp; try apply Hp.
  - destruct Hp as (_ & _ & _ & sa & sb & Hj & _). by eapply jrun_safe.
  - destruct Hp as (_ & _ & _ & _ & Hf). by eapply filling_safe.
  - destruct Hp as (_ & _ & _ & Hw). by eapply wrun_safe.
  - destruct Hp as (_ & _ & _ & _ & _ & Hf). by eapply filling_safe.
  - destruct Hp as (_ & _ & sa & sb & Hj & _). by eapply jrun_safe.
  - destruct Hp as (_ & [[_ Hw]|[(_ & sa & sb & Hj)|(_ & _ & Hs)]]); [by eapply wrun_safe|by eapply jrun_safe|done].
Qed.
End keep.

(** ** The engine's promises *)

Context `{HC : !FlashContract F (sector_size layout) (write_size layout)}.
Context (HU : update_device F layout) (Hcrc : backend_faithful crc_).

Lemma new_engine_Inv r d0 s0 :
  r = 0 \/ r = 1 -> dev_ok d0 -> flight d0 = None -> journal_ok layout (view d0) -> newest layout (view d0) s0 ->
  Inv r (view d0) s0 (new_engine r) d0.
Proof.
  intros Hr Hd Hf Hj Hn. split; [done|]. split; [done| | | |done|].
  - apply no_header_ok. destruct HU as [HJ _]. destruct (jd_unsigned _ _ HJ) as [_ _ [[? _] _] _]. done.
  - split; [|done]. split; [apply new_buffers_ok|done|done|done].
  - apply Forall_replicate. done.
  - split; [by split; [split; [done|left]|]|]. split; [by split; [split; [done|left]|]|]. split; [|by split].
    apply idle_safe; [done|done|]. split; [done| |done]. exists s0. split; [done|]. split; [done|]. by left.
Qed.

Lemma run_safe calls r d0 s0 e d :
  r = 0 \/ r = 1 -> dev_ok d0 -> flight d0 = None -> journal_ok layout (view d0) -> newest layout (view d0) s0 ->
  Forall call_ok calls -> run calls (new_engine r, d0) = (e, d) ->
  Inv r (view d0) s0 e d /\ safe_dev F layout r (view d0) s0 d.
Proof.
  intros Hr Hd Hf Hj Hn Hok Erun.
  pose proof (Inv_run HU Hcrc r Hr (view d0) s0 calls _ _ Hok (new_engine_Inv r d0 s0 Hr Hd Hf Hj Hn)) as H.
  rewrite Erun in H. split; [done|]. destruct H as [_ Hc]. by eapply core_safe.
Qed.

(** C3: an update never endangers the running image.  Start an engine over a
    journal whose newest snapshot is [s0], make any calls in any order with
    ticks in between, and cut the power at any moment, with the operation in
    flight torn.  The cells of the running slot are as they were, and the
    journal is intact: its newest snapshot has the same entry for the running
    slot, and for the other slot the original entry over untouched cells, or
    [incomplete], or [pending] with the checksum of the cells in the slot. *)
Theorem update_survives_power_loss calls r d0 s0 e d m :
  r = 0 \/ r = 1 -> dev_ok d0 -> flight d0 = None -> journal_ok layout (view d0) -> newest layout (view d0) s0 ->
  Forall call_ok calls -> run calls (new_engine r, d0) = (e, d) -> crash_image F d m ->
  (forall x, in_block (sel (slots layout) r) (slot_size layout) x -> m x = view d0 x) /\
  journal_ok layout m /\
  exists s, newest layout m s /\ sel (images s) r = sel (images s0) r /\
    let other := sel (images s) (1 - r) in
    (other = sel (images s0) (1 - r) /\
       (forall x, in_block (sel (slots layout) (1 - r)) (slot_size layout) x -> m x = view d0 x) \/
     image_state other = ImageState.incomplete \/
     image_state other = ImageState.pending /\
       exists bs, mem_read m (sel (slots layout) (1 - r)) (Z.to_nat (image_size other)) = Some bs /\
         crc32_calculate bs = image_crc other).
Proof.
  intros Hr Hd Hf Hj Hn Hok Erun Hm.
  destruct (run_safe calls r d0 s0 e d Hr Hd Hf Hj Hn Hok Erun) as [_ [_ _ Hcr]].
  destruct (Hcr m Hm) as [Hjm (s & Hns & Hg1 & Hg2) Hrun]. split; [exact Hrun|]. split; [done|].
  exists s. split; [done|]. split; [done|]. cbn zeta. destruct Hg2 as [H|[H|[H1 [_ H2]]]]; auto.
Qed.

(** C6: [done] means installed: when the engine of such a run is in state
    [done], no operation is in flight and the newest snapshot names the other
    slot's image as [pending], installed with the snapshot's counter, and the
    slot holds exactly as many bytes as the entry says, with its checksum.  When
    a tick has just led to [done], size and checksum are those that the
    package's header announced for the slot. *)
Theorem update_done_is_installed calls r d0 s0 e d e' d' :
  r = 0 \/ r = 1 -> dev_ok d0 -> flight d0 = None -> journal_ok layout (view d0) -> newest layout (view d0) s0 ->
  Forall call_ok calls -> run calls (new_engine r, d0) = (e, d) ->
  Engine.tick F layout crc_ inactivity_ e d = (e', d') -> Engine.state e' = EngineState.done ->
  flight d' = None /\
  exists s bs, newest layout (view d') s /\ sel (images s) r = sel (images s0) r /\
    let image := sel (images s) (1 - r) in
    image_state image = ImageState.pending /\ installation image = counter s /\
    image_size image <= slot_size layout /\
    mem_read (view d') (sel (slots layout) (1 - r)) (Z.to_nat (image_size image)) = Some bs /\
    crc32_calculate bs = image_crc image /\
    (Engine.state e <> EngineState.done ->
       image_size image = h_image_size (header_ e') /\ image_crc image = sel (h_crc (header_ e')) (1 - r)).
Proof.
  intros Hr Hd Hf Hj Hn Hok Erun Etick Hst.
  destruct (run_safe calls r d0 s0 e d Hr Hd Hf Hj Hn Hok Erun) as [HI _].
  pose proof (engine_Inv_tick HU Hcrc r Hr (view d0) s0 e d HI) as HI'.
  pose proof (tick_into_done HU r (view d0) s0 e d HI) as Hann. rewrite Etick in HI', Hann.
  destruct HI' as [_ Hc]. assert (Hs : safe_dev F layout r (view d0) s0 d') by by eapply core_safe. rewrite Hst in Hc.
  destruct Hc as [_ _ _ _ _ (_ & _ & _ & _ & Hdone)]. destruct (Hdone eq_refl) as [Hfl (s & Hns & H1 & (Hsz & bs & H2 & H3) & H4)].
  split; [done|]. exists s, bs. split; [done|]. split.
  - by destruct (newest_good F layout r (view d0) s0 d' s Hs Hns).
  - cbn zeta. split_and!; [done|done|apply Hsz|done|done|]. intros Hnd.
    destruct (Hann Hnd Hst) as (s' & Hns' & Ha). pose proof (safe_view F layout r (view d0) s0 d' Hs) as [Hjo _ _].
    by rewrite (newest_unique _ _ _ _ (proj1 Hjo) Hns Hns').
Qed.
End run.
