(* ===== verification/EngineOwner.v ===== *)
(** * The update engine as its owner sees it (src/lib/update/engine.cpp)

    A source that has reserved the engine relies on two things: nobody else
    begins an installation, and an installation that has begun ends in [done]
    with status ok or in [failed] with another status. *)

From S2P Require Import Prelude Foundation Wire StateMachine Flash Codec Journal Control Package PackageStream Writer Engine EngineSafe EngineInv EngineRun.

(** ** A package reader fails with a status other than ok *)

Definition reader_good (r : PackageReader) : Prop :=
  ticking_ (Package.machine_ r) = false /\ (Package.state r = ReaderState.failed -> Package.status_ r <> Status.ok).
Lemma reader_good_step input r ns r1 c : reader_good r -> Package.Step input (Package.state r) (r, 0%nat) = (ns, (r1, c)) ->
  ns = ReaderState.failed -> Package.status_ r1 <> Status.ok.
Proof.
  intros [_ Hg]. unfold Package.Step. destruct (start_requested_ r); [by intros [= <- _ _]|].
  destruct (Package.state r) eqn:Es; try (by intros [= <- <- _]).
  - destruct (Copy _ _ _ _) as [n buf]. cbn zeta. destruct (_ =? 12)%nat; [|by intros [= <- _ _]]. destruct (_ || _); [by intros [= <- <- _]|].
    destruct (negb _); by intros [= <- _ _].
  - destruct (Copy _ _ _ _) as [n buf]. cbn zeta. destruct (_ =? _); by intros [= <- _ _].
  - destruct (Copy _ _ _ _) as [n buf]. cbn zeta. destruct (_ =? _); [|by intros [= <- _ _]]. destruct (Apply _) as [[] r2]; by intros [= <- <- _].
  - destruct (release_requested_ r); [|by intros [= <- _ _]]. cbn zeta. destruct (_ =? _); by intros [= <- _ _].
Qed.
Lemma reader_good_tick input r : reader_good r -> reader_good (snd (Package.tick input r)).
Proof.
  intros Hg. rewrite reader_tick by apply Hg. unfold after. destruct (Package.Step input (Package.state r) (r, 0%nat)) as [ns [r1 c]] eqn:E.
  cbn [fst snd]. split; [done|]. unfold Package.state. cbn [Package.machine_ field_update]. rewrite cs_post_machine. intros Hs. eapply (reader_good_step input r ns r1 c); [done|exact E|].
  by destruct ns.
Qed.
Lemma reader_good_start h dest r : reader_good r -> reader_good (Package.start h dest r).
Proof. done. Qed.
Lemma reader_good_release r : reader_good r -> reader_good (Package.release r).
Proof. done. Qed.

(** ** One step *)

Section owner.
Context {D : Type} (F : Flash D) (layout : Layout) (crc_ : Backend) (inactivity_ : Time).
Implicit Types e : Engine.
Abbreviation step := (Engine.Step F layout crc_ inactivity_).

(** What an engine keeps through its steps. *)
Definition stable e e' : Prop :=
  owner_ e' = owner_ e /\ running_slot_ e' = running_slot_ e /\ Engine.header_ e' = Engine.header_ e /\ Engine.received_ e' = Engine.received_ e.
Definition resting_state (s : EngineState.State) : bool :=
  match s with EngineState.disabled | EngineState.idle | EngineState.done | EngineState.failed => true | _ => false end.

(** Between steps; [s] is the state of the machine. *)
Definition sound (s : EngineState.State) e : Prop :=
  abort_reason_ e <> Status.ok /\ reader_good (Engine.reader_ e) /\ (resting_state s = false -> Engine.requested_ e = false).
(** An installation is under way, or has ended as it should. *)
Definition working (s : EngineState.State) e : Prop := Engine.requested_ e = true \/ resting_state s = false.
Definition ended (s : EngineState.State) e : Prop :=
  Engine.requested_ e = false /\ (s = EngineState.done /\ Engine.status_ e = Status.ok \/ s = EngineState.failed /\ Engine.status_ e <> Status.ok).

Definition progresses (s : EngineState.State) e (x : EngineState.State * (Engine * D)) : Prop :=
  stable e (fst (snd x)) /\ sound (fst x) (fst (snd x)) /\ (working s e -> working (fst x) (fst (snd x)) \/ ended (fst x) (fst (snd x))).

Lemma to_aborting s e e' d : stable e e' -> abort_reason_ e' <> Status.ok -> reader_good (Engine.reader_ e') -> Engine.requested_ e' = false ->
  progresses s e (EngineState.aborting, (e', d)).
Proof. intros Hs Ha Hr Hq. split; [done|]. split; [by split|]. intros _. left. by right. Qed.
Lemma to_working s e ns e' d : stable e e' -> sound ns e' -> resting_state ns = false -> progresses s e (ns, (e', d)).
Proof. intros Hs Ha Hr. split; [done|]. split; [done|]. intros _. left. by right. Qed.

Lemma to_failed s e e' d : stable e e' -> abort_reason_ e' <> Status.ok -> reader_good (Engine.reader_ e') -> Engine.requested_ e' = false ->
  Engine.status_ e' <> Status.ok -> progresses s e (EngineState.failed, (e', d)).
Proof. intros Hs Ha Hr Hq Hst. split; [done|]. split; [by split|]. intros _. right. split; [done|]. by right. Qed.

Lemma idle_progresses s e d : resting_state s = true -> sound s e -> Engine.requested_ e = true -> progresses s e (step s (e, d)).
Proof.
  intros Hr (Ha & Hg & _) Hq. assert (step s (e, d) = step_idle F layout s e d) as -> by (by destruct s).
  unfold step_idle. rewrite Hq. cbn zeta. destruct (Journal.begin _ _ _ _ _ _) as [[r j] d1]. destruct (r =s? Status.ok) eqn:Er.
  - by apply to_working.
  - split; [done|]. split; [done|]. intros _. right. split; [done|]. right. split; [done|]. cbn. intros ->. done.
Qed.
Lemma invalidating_progresses e d : sound EngineState.invalidating e -> progresses EngineState.invalidating e (step EngineState.invalidating (e, d)).
Proof.
  intros (Ha & Hg & Hq). specialize (Hq eq_refl). cbn [Engine.Step]. unfold step_invalidating. destruct (Journal.tick _ _ _ _) as [j d1]. cbn zeta.
  destruct (_ || _); [by apply to_aborting|]. cbn [journal_ field_update]. destruct (negb (_ =s? Status.busy)); [|by apply to_working].
  destruct (negb (_ =s? Status.ok)) eqn:Er.
  - split; [done|]. split; [done|]. intros _. right. split; [done|]. right. split; [done|]. cbn. intros E. cbn in Er. by rewrite E in Er.
  - pose proof (reader_good_tick [] _ (reader_good_start (Engine.header_ e) (Engine.destination e) _ Hg)) as Hg'.
    destruct (Package.tick _ _) as [n rd] eqn:E. destruct (flash_now _ _) as [t d2]. apply to_working; [done| |done]. split; [done|]. split; [|done].
    exact Hg'.
Qed.
Lemma receiving_progresses e d : sound EngineState.receiving e -> progresses EngineState.receiving e (step EngineState.receiving (e, d)).
Proof.
  intros (Ha & Hg & Hq). specialize (Hq eq_refl). cbn [Engine.Step]. unfold step_receiving. destruct (_ || _); [by apply to_aborting|].
  pose proof (reader_good_tick (sub (rx_ e) (rx_at_ e) (rx_size_ e - rx_at_ e)) _ Hg) as Hg'. destruct (Package.tick _ _) as [c rd]. cbn [snd] in Hg'. cbn zeta.
  destruct (if negb _ && _ then _ else _) as [e2 d2] eqn:E.
  assert (stable e e2 /\ abort_reason_ e2 = abort_reason_ e /\ Engine.reader_ e2 = rd /\ Engine.requested_ e2 = false) as (Hs & Ha2 & Hr2 & Hq2)
    by (revert E; destruct (_ && _); [destruct (flash_now F d)|]; by intros [= <- <-]).
  clear E. rewrite Hr2. rewrite <- Hr2 in Hg'. rewrite <- Ha2 in Ha. clear Ha2 Hq Hg.
  assert (forall ns d, resting_state ns = false -> progresses EngineState.receiving e (ns, (e2, d))) as Hstay by (intros; apply to_working; [done|by split|done]).
  assert (forall st d, st <> Status.ok -> progresses EngineState.receiving e (EngineState.aborting, (Fail st e2, d))) as Hfail by (intros; by apply to_aborting).
  destruct (Package.state rd) eqn:Es.
  1-4: (destruct (_ && _); [by apply Hfail|]; destruct (rx_size_ e2 =? 0)%nat; [|by apply Hstay];
     destruct (flash_now F d2) as [t d3]; destruct (_ >=? _); [by apply Hfail|by apply Hstay]).
  - destruct (Writer.begin _ _ _ _ _ _ _) as [[r w] d3]. cbn zeta. destruct (r =s? Status.ok) eqn:Er; [by apply to_working|].
    apply to_aborting; try done. cbn. intros ->. done.
  - destruct (_ || _); [by apply Hfail|by apply Hstay].
  - apply Hfail. rewrite <- Hr2. apply Hg'. by rewrite Hr2.
Qed.
Lemma writing_progresses e d : sound EngineState.writing e -> progresses EngineState.writing e (step EngineState.writing (e, d)).
Proof.
  intros (Ha & Hg & Hq). specialize (Hq eq_refl). cbn [Engine.Step]. unfold step_writing. destruct (_ || _); [by apply to_aborting|].
  destruct (Writer.tick _ _ _ _) as [w d1]. cbn zeta. cbn [writer_ field_update]. destruct (negb (_ =s? Status.busy)); [|by apply to_working].
  destruct (negb (_ =s? Status.ok)) eqn:Er; [|destruct (flash_now F d1) as [t d2]; by apply to_working].
  apply to_aborting; try done. cbn. intros E. cbn in Er. by rewrite E in Er.
Qed.
Lemma verified_progresses e d : sound EngineState.verifying e -> progresses EngineState.verifying e (step_verified F layout e d).
Proof.
  intros (Ha & Hg & Hq). specialize (Hq eq_refl). unfold step_verified. destruct (negb _); [by apply to_aborting|].
  destruct (Journal.load _ _ _ _ _) as [[[st s] j] d1]. cbn zeta.
  destruct (if _ =s? _ then _ else _) as [[r e2] d2] eqn:E.
  assert (stable e e2 /\ abort_reason_ e2 = abort_reason_ e /\ Engine.reader_ e2 = Engine.reader_ e /\ Engine.requested_ e2 = false) as (Hs & Ha2 & Hr2 & Hq2).
  { revert E. destruct (_ =s? _); [destruct (Journal.begin _ _ _ _ _ _) as [[r3 j3] d3]|]; by intros [= <- <- <-]. }
  destruct (r =s? Status.ok) eqn:Er.
  - apply to_working; [done| |done]. split; [by rewrite Ha2|]. split; [by rewrite Hr2|done].
  - apply to_aborting; try done; [|cbn; by rewrite Hr2]. cbn. intros ->. done.
Qed.
Lemma verifying_progresses e d : sound EngineState.verifying e -> progresses EngineState.verifying e (step EngineState.verifying (e, d)).
Proof.
  intros Hso. pose proof Hso as (Ha & Hg & Hq). specialize (Hq eq_refl). cbn [Engine.Step]. unfold step_verifying. destruct (_ || _); [by apply to_aborting|]. cbn zeta.
  destruct (flash_read _ _ _ _) as [[st bs] d1]. destruct (negb _) eqn:Er; [apply to_aborting; try done; cbn; intros ->; done|].
  match goal with |- context [if ?b then step_verified _ _ ?x _ else _] => set (e2 := x) end.
  assert (sound EngineState.verifying e2) as H2 by done. destruct (_ =? _); [|by apply to_working].
  pose proof (verified_progresses e2 d1 H2) as (P1 & P2 & P3). split; [exact P1|]. split; [exact P2|]. intros _. apply P3. by right.
Qed.
Lemma committing_progresses e d : sound EngineState.committing e -> progresses EngineState.committing e (step EngineState.committing (e, d)).
Proof.
  intros (Ha & Hg & Hq). specialize (Hq eq_refl). cbn [Engine.Step]. unfold step_committing. destruct (Journal.tick _ _ _ _) as [j d1]. cbn zeta.
  destruct (_ || _); [by apply to_aborting|]. destruct (negb (_ =s? _)); [|by apply to_working]. destruct (_ =s? Status.ok) eqn:Er.
  - split; [done|]. split; [done|]. intros _. right. split; [done|]. left. split; [done|]. cbn in *. by destruct (Journal.status_ j).
  - apply to_aborting; try done. cbn in *. intros E. by rewrite E in Er.
Qed.
Lemma aborting_progresses e d : sound EngineState.aborting e -> progresses EngineState.aborting e (step EngineState.aborting (e, d)).
Proof.
  intros (Ha & Hg & Hq). specialize (Hq eq_refl). cbn [Engine.Step]. unfold step_aborting.
  destruct (_ =s? Status.busy); [destruct (Writer.tick _ _ _ _); by apply to_working|].
  destruct (_ =s? Status.busy); [destruct (Journal.tick _ _ _ _); by apply to_working|].
  destruct (flash_poll _ _) as [p d1]. destruct (p =s? Status.busy); [by apply to_working|]. destruct (Journal.load _ _ _ _ _) as [[[st s] j] d2]. cbn zeta.
  destruct (_ && _).
  - destruct (Journal.begin _ _ _ _ _ _) as [[r j2] d3]. destruct (r =s? Status.ok) eqn:Er; [by apply to_working|].
    apply to_failed; [done|exact Ha|exact Hg|exact Hq|]. cbn [Engine.status_ field_update]. intros ->. discriminate Er.
  - destruct (st =s? Status.ok) eqn:Er; (apply to_failed; [done|exact Ha|exact Hg|exact Hq|]); cbn [Engine.status_ field_update];
      [exact Ha|intros ->; discriminate Er].
Qed.
Lemma Step_progresses s e d : sound s e -> working s e -> progresses s e (step s (e, d)).
Proof.
  intros Hs Hw. destruct (resting_state s) eqn:Er.
  - destruct Hw as [Hq|Hq]; [by apply idle_progresses|by rewrite Er in Hq].
  - destruct s; try done; [by apply invalidating_progresses|by apply receiving_progresses|by apply writing_progresses|by apply verifying_progresses|
      by apply committing_progresses|by apply aborting_progresses].
Qed.

(** ** Ticks and calls *)

Definition engine_sound e : Prop := ticking_ (Engine.machine_ e) = false /\ sound (Engine.state e) e.
Abbreviation busy_engine e := (working (Engine.state e) e).
Abbreviation over e := (ended (Engine.state e) e).

Lemma active_working e : Engine.active e = true <-> busy_engine e.
Proof.
  unfold Engine.active, working, in_state. rewrite orb_true_iff. apply or_iff_compat_l. destruct (Engine.state e); cbn; repeat case_bool_decide; done.
Qed.
Lemma not_active e : Engine.active e = false -> Engine.requested_ e = false /\ resting_state (Engine.state e) = true.
Proof.
  intros Ha. assert (~ busy_engine e) as Hn by (intros H%active_working; by rewrite Ha in H). unfold working in Hn.
  destruct (Engine.requested_ e), (resting_state (Engine.state e)); tauto.
Qed.
Lemma over_not_active e : over e -> Engine.active e = false.
Proof.
  intros [Hq H]. destruct (Engine.active e) eqn:Ea; [|done]. apply active_working in Ea as [Ha|Ha]; [by rewrite Ha in Hq|].
  by destruct H as [[E _]|[E _]]; rewrite E in Ha.
Qed.

(** The engine as a step finds it. *)
Definition entered e : Engine := e <| Engine.machine_ := pre_machine (Engine.machine_ e) |>.
Lemma engine_tick e d : engine_sound e -> exists m, let x := step (Engine.state e) (entered e, d) in
  Engine.tick F layout crc_ inactivity_ e d = ((fst (snd x)) <| Engine.machine_ := m |>, snd (snd x)) /\ cs m = fst x /\ ticking_ m = false.
Proof.
  intros [Ht _]. unfold Engine.tick. rewrite (tick_step_only (Engine.Step F layout crc_ inactivity_) (Engine_frame F layout crc_ inactivity_) (e, d) Ht).
  set (x := Engine.Step F layout crc_ inactivity_ (Engine.state e) (entered e, d)).
  exists (post_machine (fst x) (Engine.machine_ e)). cbv zeta. split; [|split; [rewrite cs_post_machine; by destruct (fst x)|done]].
  match goal with |- snd (let '(_, _) := ?y in _) = _ => change y with x end. by destruct x as [ns [e1 d1]].
Qed.
Lemma sound_machine s e m : sound s e -> sound s (e <| Engine.machine_ := m |>).
Proof. done. Qed.
Lemma tick_busy_engine e d : engine_sound e -> busy_engine e -> let e' := fst (Engine.tick F layout crc_ inactivity_ e d) in
  engine_sound e' /\ stable e e' /\ (busy_engine e' \/ over e').
Proof.
  intros Hs Hw. destruct (engine_tick e d Hs) as (m & Et & Hm & Hn). cbv zeta in *. rewrite Et. cbn [fst].
  pose proof (Step_progresses (Engine.state e) (entered e) d (proj2 Hs) Hw) as (P1 & P2 & P3).
  destruct (step _ _) as [ns [e1 d1]]. cbn [fst snd] in *. unfold engine_sound, Engine.state in *. cbn [Engine.machine_ field_update] in *. rewrite Hm.
  split; [split; [exact Hn|exact P2]|]. split; [exact P1|]. apply P3. exact Hw.
Qed.
Lemma tick_resting_engine e d : engine_sound e -> Engine.active e = false -> let e' := fst (Engine.tick F layout crc_ inactivity_ e d) in
  engine_sound e' /\ stable e e' /\ Engine.active e' = false /\ (Authorized e = true -> over e -> over e' /\ Engine.state e' = Engine.state e).
Proof.
  intros Hs Ha. destruct (engine_tick e d Hs) as (m & Et & Hm & Hn). cbv zeta in *. rewrite Et. cbn [fst].
  destruct (not_active e Ha) as [Hq Hr]. set (e0 := entered e) in *.
  assert (step (Engine.state e) (e0, d) = step_idle F layout (Engine.state e) e0 d) as Eq by (by destruct (Engine.state e)). rewrite Eq in *.
  destruct Hs as [_ (Hs1 & Hs2 & Hs3)]. unfold step_idle in *. change (Engine.requested_ e0) with (Engine.requested_ e) in *. rewrite Hq in *.
  assert (forall ns st, ns = cs m -> resting_state ns = true -> engine_sound (e0 <| Engine.status_ := st |> <| Engine.machine_ := m |>) /\
    Engine.active (e0 <| Engine.status_ := st |> <| Engine.machine_ := m |>) = false) as Hrest.
  { intros ns st -> Hrs. split; [split; [exact Hn|split; [exact Hs1|split; [exact Hs2|by intros _]]]|].
    apply not_true_is_false. intros E%active_working. destruct E as [E|E]; unfold Engine.state in E; cbn [Engine.requested_ Engine.machine_ field_update] in E;
      [change (Engine.requested_ e = true) in E; by rewrite Hq in E|change (resting_state (cs m) = false) in E; by rewrite Hrs in E]. }
  destruct (negb (Authorized e0)) eqn:Eau; cbn [fst snd] in *.
  { destruct (Hrest EngineState.disabled (Engine.status_ e) (eq_sym Hm) eq_refl) as [R1 R2]. split; [exact R1|]. split; [done|]. split; [exact R2|].
    intros Hau. change (Authorized e0) with (Authorized e) in Eau. by rewrite Hau in Eau. }
  destruct (bool_decide (Engine.state e = EngineState.disabled)) eqn:Ed; cbn [fst snd] in *.
  - destruct (Hrest EngineState.idle Status.ok (eq_sym Hm) eq_refl) as [R1 R2]. split; [exact R1|]. split; [done|]. split; [exact R2|].
    apply bool_decide_eq_true in Ed. intros _ [_ H]. rewrite Ed in H. by destruct H as [[[=] _]|[[=] _]].
  - destruct (Hrest (Engine.state e) (Engine.status_ e) (eq_sym Hm) Hr) as [R1 R2]. split; [exact R1|]. split; [done|]. split; [exact R2|].
    intros _ Ho. unfold Engine.state in Ho |- *. cbn [Engine.machine_ field_update]. rewrite Hm. split; [exact Ho|done].
Qed.

(** The rest of the program drives the engine and may use it too, under
    other names than [self]; an abort gives a reason. *)
Definition other_call (self : nat) (c : Call) : Prop :=
  match c with
  | CallReserve owner | CallRelease owner | CallBegin _ owner => owner <> Some self
  | CallAbort reason => reason <> Status.ok
  | _ => True
  end.
Definition others (c : Call) e (d : D) : Engine * D := perform F layout crc_ inactivity_ (e, d) c.

(** What the owner of the reservation finds after a call of another. *)
Record undisturbed e e' : Prop := {
  un_sound : engine_sound e';
  un_owner : owner_ e' = owner_ e;
  un_slot : running_slot_ e' = running_slot_ e;
  un_header : Engine.header_ e' = Engine.header_ e;
  un_received : total e <= Engine.received_ e -> total e' <= Engine.received_ e';
  un_rest : Engine.active e = false -> Engine.active e' = false;
  un_over : over e -> over e' /\ Engine.state e' = Engine.state e;
  un_busy : busy_engine e -> busy_engine e' \/ over e'
}.
Lemma undisturbed_refl e : engine_sound e -> undisturbed e e.
Proof. intros H. split; auto. Qed.
(** A call that touches none of what an owner relies on. *)
Lemma undisturbed_same e e' : engine_sound e -> Engine.machine_ e' = Engine.machine_ e -> owner_ e' = owner_ e -> running_slot_ e' = running_slot_ e ->
  Engine.header_ e' = Engine.header_ e -> (total e <= Engine.received_ e -> Engine.received_ e' = Engine.received_ e) ->
  Engine.requested_ e' = Engine.requested_ e -> Engine.status_ e' = Engine.status_ e -> Engine.reader_ e' = Engine.reader_ e ->
  abort_reason_ e' <> Status.ok -> undisturbed e e'.
Proof.
  intros [Ht (Ha & Hr & Hq)] Hm Ho Hs Hh Hre Hreq Hst Hrd Hab.
  assert (Engine.state e' = Engine.state e) as Es by (unfold Engine.state; by rewrite Hm).
  split; try done.
  - split; [by rewrite Hm|]. split; [done|]. split; [by rewrite Hrd|]. by rewrite Hreq, Es.
  - intros Hle. rewrite (Hre Hle). unfold total in *. by rewrite Hh.
  - unfold Engine.active, in_state. by rewrite Hreq, Es.
  - unfold ended. by rewrite Hreq, Es, Hst.
  - unfold working, ended. rewrite Hreq, Es. tauto.
Qed.

Lemma owned_undisturbed self c e d : engine_sound e -> owner_ e = Some self -> other_call self c -> undisturbed e (fst (others c e d)).
Proof.
  intros Hs Ho Hc. pose proof Hs as [_ (Ha & _)]. assert (reserved e = true) as Hres by (unfold reserved; rewrite Ho; by apply bool_decide_eq_true).
  unfold others, perform. destruct c as [|v|ow|ow|bytes ow|off data crc|reason].
  - destruct (Engine.active e) eqn:Eact.
    + destruct (tick_busy_engine e d Hs (proj1 (active_working e) Eact)) as (H1 & (S1 & S2 & S3 & S4) & H3).
      split; [exact H1|exact S1|exact S2|exact S3|unfold total; by rewrite S3, S4|by rewrite Eact|intros E%over_not_active; by rewrite E in Eact|intros _; exact H3].
    + destruct (tick_resting_engine e d Hs Eact) as (H1 & (S1 & S2 & S3 & S4) & H3 & H4).
      split; [exact H1|exact S1|exact S2|exact S3|unfold total; by rewrite S3, S4|done| |].
      * apply H4. unfold Authorized. by rewrite Hres, orb_true_r.
      * intros Hb. apply active_working in Hb. by rewrite Eact in Hb.
  - by apply undisturbed_same.
  - unfold Engine.reserve. rewrite Hres. destruct ow; by apply undisturbed_refl.
  - unfold Engine.release. rewrite Ho, bool_decide_eq_false_2 by congruence. by apply undisturbed_refl.
  - unfold Engine.begin. rewrite Ho, bool_decide_eq_false_2 by congruence. by apply undisturbed_refl.
  - unfold Engine.chunk. destruct (ready e) eqn:Er; cbn [negb]; [|by apply undisturbed_refl].
    match goal with |- context [if ?b then _ else _] => destruct b; [by apply undisturbed_refl|] end.
    match goal with |- context [if ?b then _ else _] => destruct b; [by apply undisturbed_refl|] end.
    apply undisturbed_same; try done. intros Hle. exfalso.
    unfold ready in Er. rewrite !andb_true_iff in Er. destruct Er as [[_ Er] _]. apply Z.ltb_lt in Er. lia.
  - unfold Engine.abort. destruct (active e); [by apply undisturbed_same|by apply undisturbed_refl].
Qed.

(** [begin] changes the header at most, unless it accepts the installation. *)
Lemma engine_begin_cases bytes owner e d : let '(status, e', d') := Engine.begin F layout bytes owner e d in
  Engine.machine_ e' = Engine.machine_ e /\ owner_ e' = owner_ e /\ running_slot_ e' = running_slot_ e /\ Engine.reader_ e' = Engine.reader_ e /\
  abort_reason_ e' = abort_reason_ e /\
  (status <> Status.ok /\ Engine.requested_ e' = Engine.requested_ e \/
   status = Status.ok /\ owner_ e = owner /\ Engine.active e = false /\ Engine.requested_ e' = true /\ Engine.received_ e' = 0 /\
   exists h, decode_header bytes layout (Engine.destination e) h = (Status.ok, Engine.header_ e')).
Proof.
  unfold Engine.begin. case_bool_decide as Eo; [|cbn; auto 10]. cbn [negb]. destruct (negb (Authorized e)); [cbn; auto 10|].
  destruct (Engine.active e) eqn:Ea; [cbn; auto 10|]. destruct (_ >=? 2); [cbn; auto 10|].
  destruct (decode_header _ _ _ _) as [r h] eqn:Ed. cbn zeta. destruct (negb (r =s? Status.ok)) eqn:Er.
  { split_and!; try done. left. split; [|done]. by intros ->. }
  assert (r = Status.ok) as -> by (by destruct r). destruct (Journal.load _ _ _ _ _) as [[[r2 s] j] d1]. cbn zeta.
  destruct (negb (r2 =s? Status.ok)) eqn:Er2; [split_and!; try done; left; split; [by intros ->|done]|].
  clear Er. do 2 (match goal with |- context [if ?b then _ else _] => destruct b; [cbn; auto 10|] end).
  destruct (flash_poll F d1) as [p d2]. match goal with |- context [if ?b then _ else _] => destruct b; [cbn; auto 10|] end.
  split_and!; try done. right. split_and!; try done. by exists (Engine.header_ e).
Qed.
Lemma begin_sound bytes owner e d : engine_sound e -> engine_sound (snd (fst (Engine.begin F layout bytes owner e d))).
Proof.
  intros [Ht (Ha & Hr & Hq)]. pose proof (engine_begin_cases bytes owner e d) as Hb. destruct (Engine.begin _ _ _ _ _ _) as [[st e'] d'].
  destruct Hb as (Hm & How & Hsl & Hrd & Hab & H). cbn [fst snd]. unfold engine_sound, sound, Engine.state. rewrite Hm, Hab, Hrd. split_and!; try done.
  destruct H as [[_ ->]|(_ & _ & Hact & _)]; [exact Hq|]. destruct (not_active e Hact) as [_ Hre]. unfold Engine.state in Hre. by rewrite Hre.
Qed.
Lemma unowned_sound self c e d : engine_sound e -> owner_ e <> Some self -> other_call self c ->
  engine_sound (fst (others c e d)) /\ owner_ (fst (others c e d)) <> Some self /\ running_slot_ (fst (others c e d)) = running_slot_ e.
Proof.
  intros Hs Ho Hc. pose proof Hs as [Ht (Ha & Hr & Hq)]. unfold others, perform. destruct c as [|v|ow|ow|bytes ow|off data crc|reason].
  - destruct (Engine.active e) eqn:Eact.
    + destruct (tick_busy_engine e d Hs (proj1 (active_working e) Eact)) as (H1 & (S1 & S2 & _) & _). split; [done|]. by rewrite S1, S2.
    + destruct (tick_resting_engine e d Hs Eact) as (H1 & (S1 & S2 & _) & _). split; [done|]. by rewrite S1, S2.
  - by split_and!.
  - unfold Engine.reserve. destruct ow; [|by split_and!]. destruct (_ || _); by split_and!.
  - unfold Engine.release. destruct (_ && _); by split_and!.
  - pose proof (engine_begin_cases bytes ow e d) as Hb. pose proof (begin_sound bytes ow e d Hs) as Hs'. destruct (Engine.begin _ _ _ _ _ _) as [[st e'] d'].
    destruct Hb as (_ & How & Hsl & _). cbn [fst snd] in *. by rewrite How, Hsl.
  - unfold Engine.chunk. repeat (match goal with |- context [if ?b then _ else _] => destruct b; [by split_and!|] end). by split_and!.
  - unfold Engine.abort. destruct (active e); by split_and!.
Qed.
End owner.
