(* ===== verification/Protocol.v ===== *)
(** * The update protocol (src/lib/update/protocol.h, protocol.cpp)

    One framed byte stream that drives the engine: a 16-byte request header, a
    payload, and an 88-byte reply.  The protocol holds a reference to the
    engine, so its operations act on the protocol, the engine, the flash device
    and the state behind the reboot callback. *)

From Stdlib Require Import Strings.String Strings.Ascii.
From S2P Require Import Prelude Foundation Wire StateMachine Flash Codec Journal Control Package Writer Engine.

Definition kProtocolMagic : Z := 0x54534f44.
Definition kPayloadSize : nat := (kBlockSize + 8)%nat.
Definition kReplySize : nat := 88.

Module Operation.
Inductive Operation : Set := begin | status | data | abort | reboot.
End Operation.
(** The [switch] over [static_cast<Operation>(opcode)]; [None]: no case. *)
Definition operation_of (opcode : Z) : option Operation.Operation :=
  match opcode with
  | 1 => Some Operation.begin | 2 => Some Operation.status | 3 => Some Operation.data
  | 4 => Some Operation.abort | 5 => Some Operation.reboot | _ => None
  end.

Definition state_name (s : EngineState.State) : string :=
  match s with
  | EngineState.disabled => "disabled" | EngineState.idle => "idle"
  | EngineState.invalidating => "invalidating" | EngineState.receiving => "receiving"
  | EngineState.writing => "writing" | EngineState.verifying => "verifying"
  | EngineState.committing => "committing" | EngineState.done => "done"
  | EngineState.aborting => "aborting" | EngineState.failed => "failed"
  end%string.

(** [enum_name] of a status, which the enumeration macro generates. *)
Definition enum_name (s : Status) : string :=
  match s with
  | Status.ok => "ok" | Status.not_running => "not_running" | Status.already_initialized => "already_initialized"
  | Status.already_run => "already_run" | Status.initialization_failed => "initialization_failed"
  | Status.invalid_argument => "invalid_argument" | Status.not_found => "not_found" | Status.full => "full"
  | Status.empty => "empty" | Status.busy => "busy" | Status.duplicate_name => "duplicate_name"
  | Status.truncated => "truncated" | Status.parse_error => "parse_error"
  | Status.ambiguous_match => "ambiguous_match" | Status.line_too_long => "line_too_long"
  | Status.too_many_arguments => "too_many_arguments" | Status.unsupported => "unsupported"
  | Status.health_failed => "health_failed" | Status.io_error => "io_error" | Status.timeout => "timeout"
  | Status.checksum_error => "checksum_error" | Status.incompatible => "incompatible"
  | Status.not_confirmed => "not_confirmed" | Status.rejected => "rejected"
  | Status.counter_exhausted => "counter_exhausted" | Status.invalid_context => "invalid_context"
  | Status.depth_limit => "depth_limit"
  end%string.

Module ProtocolState.
Inductive State : Set := header | payload | reply | failed.
End ProtocolState.
#[global] Instance ProtocolState_eq_dec : EqDecision ProtocolState.State.
Proof. solve_decision. Defined.
#[export] Instance ProtocolState_enum : StateEnum ProtocolState.State := {|
  state_index (s : ProtocolState.State) := match s with
    | ProtocolState.header => 0 | ProtocolState.payload => 1 | ProtocolState.reply => 2
    | ProtocolState.failed => 3
    end%nat;
  state_count := 4%nat
|}.

Record Protocol := mkProtocol {
  header_ : list Z;
  payload_ : list Z;
  reply_ : list Z;
  machine_ : Machine ProtocolState.State;
  opcode_ : Z; length_ : Z;
  filled_ : nat;
  sent_ : bool; reset_ : bool
}.
#[export] Instance Protocol_eta : RecordEta Protocol := fun r =>
  mkProtocol (header_ r) (payload_ r) (reply_ r) (machine_ r) (opcode_ r) (length_ r) (filled_ r) (sent_ r) (reset_ r).

Definition new_protocol : Protocol :=
  mkProtocol (replicate 16 0) (replicate kPayloadSize 0) (replicate kReplySize 0)
    (initial_machine ProtocolState.header) 0 0 0 false false.

(** What a request reaches: the engine, the flash device, the reboot context. *)
Record World (D R : Type) := mkWorld { w_engine : Engine; w_device : D; w_reboot : R }.
Arguments mkWorld {D R}. Arguments w_engine {D R}. Arguments w_device {D R}. Arguments w_reboot {D R}.

(** A tick also sees the [count] result. *)
#[export] Instance Protocol_machine D R : HasMachine (Protocol * World D R * nat) ProtocolState.State := {|
  machine w := machine_ (fst (fst w));
  with_machine m w := ((fst (fst w)) <| machine_ := m |>, snd (fst w), snd w)
|}.
#[export] Instance Protocol_machine_laws D R :
  HasMachineLaws (Protocol * World D R * nat) ProtocolState.State.
Proof. split; [done|done|by intros [[[] ?] ?]]. Qed.

Section protocol.
Context {D R : Type} (F : Flash D) (layout : Layout) (crc_ : Backend).
Context (request_reboot : option (R -> Status * R)).
Implicit Types (p : Protocol) (w : World D R).

Definition Dispatch p w : Status * World D R :=
  let e := w_engine w in
  let with_engine e := mkWorld e (w_device w) (w_reboot w) in
  if Engine.reserved e then (Status.busy, w)
  else
    let data := take (Z.to_nat (length_ p)) (payload_ p) in
    match operation_of (opcode_ p) with
    | Some Operation.begin =>
        let '(result, e, d) := Engine.begin F layout data None e (w_device w) in
        (result, mkWorld e d (w_reboot w))
    | Some Operation.data =>
        if length_ p <=? 8 then (Status.invalid_argument, w)
        else
          let '(result, e) := Engine.chunk crc_ (read32 data 0) (drop 8 data) (read32 data 4) e in
          (result, with_engine e)
    | Some Operation.status =>
        (if negb (length_ p =? 0) then Status.invalid_argument else Engine.status_ e, w)
    | Some Operation.abort =>
        if negb (length_ p =? 0) then (Status.invalid_argument, w)
        else (Status.ok, with_engine (Engine.abort Status.rejected e))
    | Some Operation.reboot =>
        if negb (length_ p =? 0) then (Status.invalid_argument, w)
        else if negb (bool_decide (Engine.state e = EngineState.done)) then (Status.not_running, w)
        else
          match request_reboot with
          | Some request =>
              let '(result, r) := request (w_reboot w) in (result, mkWorld e (w_device w) r)
          | None => (Status.unsupported, w)
          end
    | None => (Status.unsupported, w)
    end.

(** The reply to request [opcode] with the given status, in the engine's state. *)
Definition reply_bytes (opcode : Z) (status : Status) (e : Engine) : list Z :=
  let r := replicate kReplySize 0 in
  let r := write32 r 0 kProtocolMagic in
  let r := write32 r 4 1 in
  let r := write32 r 8 (Z.lor opcode 0x80000000) in
  let r := write32 r 12 (Z.of_nat kReplySize - 16) in
  let r := write32 r 16 (status_code status) in
  let r := write32 r 20 (Z.of_nat (state_index (Engine.state e))) in
  let r := write32 r 24 (Z.b2z (negb (Engine.reserved e) && Engine.ready e)) in
  let r := write32 r 28 (Engine.received_ e) in
  let r := write32 r 32 (Engine.total e) in
  let r := write32 r 36 (Z.of_nat kBlockSize) in
  let r := blit 40 (take 31 (chars (enum_name status))) r in
  blit 72 (take 15 (chars (state_name (Engine.state e)))) r.

Definition Reply (status : Status) p (e : Engine) : Protocol :=
  p <| reply_ := reply_bytes (opcode_ p) status e |>.

Definition reply p : list Z :=
  if bool_decide (cs (machine_ p) = ProtocolState.reply) then reply_ p else [].
Definition sent p : Protocol := p <| sent_ := true |>.
Definition reset p : Protocol := p <| reset_ := true |>.
Definition failed p : bool := bool_decide (cs (machine_ p) = ProtocolState.failed).

Definition Step (input : list Z) (cs : ProtocolState.State) (x : Protocol * World D R * nat)
  : ProtocolState.State * (Protocol * World D R * nat) :=
  let '(p, w, count) := x in
  if reset_ p then
    (ProtocolState.header, (p <| reset_ := false |> <| sent_ := false |> <| filled_ := 0%nat |>, w, count))
  else
    match cs with
    | ProtocolState.header =>
        let '(count, buffer) := Copy input (header_ p) 16 (filled_ p) in
        let p := p <| header_ := buffer |> <| filled_ := (filled_ p + count)%nat |> in
        if (filled_ p =? 16)%nat then
          let p := p <| opcode_ := read32 (header_ p) 8 |> <| length_ := read32 (header_ p) 12 |> in
          if negb (read32 (header_ p) 0 =? kProtocolMagic) || negb (read32 (header_ p) 4 =? 1) ||
             (length_ p >? Z.of_nat kPayloadSize)
          then (ProtocolState.failed,
                (p, mkWorld (Engine.abort Status.parse_error (w_engine w)) (w_device w) (w_reboot w), count))
          else (ProtocolState.payload, (p <| filled_ := 0%nat |>, w, count))
        else (cs, (p, w, count))
    | ProtocolState.payload =>
        let '(count, buffer) := Copy input (payload_ p) (length_ p) (filled_ p) in
        let p := p <| payload_ := buffer |> <| filled_ := (filled_ p + count)%nat |> in
        if Z.of_nat (filled_ p) =? length_ p then
          let '(result, w) := Dispatch p w in
          (ProtocolState.reply, (Reply result p (w_engine w), w, count))
        else (cs, (p, w, count))
    | ProtocolState.reply =>
        if sent_ p then (ProtocolState.header, (p <| sent_ := false |> <| filled_ := 0%nat |>, w, count))
        else (cs, (p, w, count))
    | ProtocolState.failed => (cs, (p, w, count))
    end.

Definition tick (input : list Z) p w : nat * Protocol * World D R :=
  let '(p, w, count) := snd (StateMachine.tick (step_only (Step input)) (p, w, 0%nat)) in (count, p, w).
End protocol.
