(* ===== verification/ProtocolFrames.v ===== *)
(** * What the update protocol hears and answers

    A request is a 16-byte header and a payload.  However the bytes of a
    request arrive, the engine sees one complete request, and the reply carries
    the status of exactly that request. *)

From S2P Require Import Prelude Foundation Wire StateMachine Flash Codec Journal Control Package PackageStream Writer Engine Protocol.

(** ** Requests *)

Definition request (opcode : Z) (payload : list Z) : list Z :=
  (le_bytes 4 kProtocolMagic ++ le_bytes 4 1 ++ le_bytes 4 opcode ++
   le_bytes 4 (Z.of_nat (length payload))) ++ payload.

(** A protocol that has just received the given request. *)
Definition holding (opcode : Z) (payload : list Z) : Protocol :=
  new_protocol <| opcode_ := opcode |> <| length_ := Z.of_nat (length payload) |> <| payload_ := payload |>.

Section frames.
Context {D R : Type} (F : Flash D) (layout : Layout) (crc_ : Backend).
Context (request_reboot : option (R -> Status * R)).
Implicit Types (p : Protocol) (w : World D R).

Local Abbreviation Step := (Protocol.Step F layout crc_ request_reboot).
Local Abbreviation tick := (Protocol.tick F layout crc_ request_reboot).
Local Abbreviation Dispatch := (Protocol.Dispatch F layout crc_ request_reboot).

Lemma Dispatch_ext p p' w :
  opcode_ p = opcode_ p' -> length_ p = length_ p' ->
  take (Z.to_nat (length_ p)) (payload_ p) = take (Z.to_nat (length_ p')) (payload_ p') ->
  Dispatch p w = Dispatch p' w.
Proof. intros E1 E2 E3. unfold Protocol.Dispatch. by rewrite E1, E3, E2. Qed.

Lemma protocol_oblivious input s m (x : Protocol * World D R * nat) :
  Step input s (with_machine m x) = (fst (Step input s x), with_machine m (snd (Step input s x))).
Proof.
  destruct x as [[p w] n]. cbn [with_machine Protocol_machine fst snd]. unfold Protocol.Step. cbn [reset_ field_update].
  destruct (reset_ p); [done|].
  destruct s; unfold Copy; cbn zeta; cbn [header_ payload_ filled_ opcode_ length_ sent_ field_update];
    [by repeat split_match| |by split_match|done].
  destruct (_ =? length_ p); [|done].
  match goal with |- context [Protocol.Dispatch _ _ _ _ ?a w] =>
    rewrite (Dispatch_ext a (a <| machine_ := machine_ p |>)) by done end.
  match goal with |- context [let '(_, _) := ?a in _] => destruct a eqn:Ed end.
  match goal with |- context [Protocol.Dispatch _ _ _ _ ?a w] =>
    match type of Ed with Protocol.Dispatch _ _ _ _ ?b w = _ =>
      rewrite (Dispatch_ext a b) by done end end.
  by rewrite Ed.
Qed.

Lemma protocol_tick input p w :
  ticking_ (machine_ p) = false ->
  tick input p w =
    let '(ns, (p1, w1, c)) := Step input (cs (machine_ p)) (p, w, 0%nat) in
    (c, p1 <| machine_ := post_machine ns (machine_ p) |>, w1).
Proof.
  intros Ht. unfold Protocol.tick. rewrite (tick_oblivious _ (p, w, 0%nat) (protocol_oblivious input) Ht).
  cbn [machine Protocol_machine fst]. destruct (Step _ _ _) as [ns [[p1 w1] c]]. done.
Qed.

(** The transport's side: in each step it offers the next [n] bytes. *)
Fixpoint converse (sizes : list nat) p w (s : list Z) : Protocol * World D R * list Z :=
  match sizes with
  | [] => (p, w, s)
  | n :: sizes => let '(c, p, w) := tick (take n s) p w in converse sizes p w (drop c s)
  end.

(** ** Where the protocol is in a request *)

Context (opcode : Z) (payload more : list Z) (w0 : World D R).
Context (Hop : is_u32 opcode) (Hlen : (length payload <= kPayloadSize)%nat).
Context (Hbytes : bytes_ok payload) (Hmore : bytes_ok more).

Definition request_header : list Z :=
  le_bytes 4 kProtocolMagic ++ le_bytes 4 1 ++ le_bytes 4 opcode ++ le_bytes 4 (Z.of_nat (length payload)).

Definition phase (s0 : ProtocolState.State) p w (s : list Z) : Prop :=
  match s0 with
  | ProtocolState.header =>
      w = w0 /\ (filled_ p < 16)%nat /\ take (filled_ p) (header_ p) ++ s = request_header ++ payload ++ more
  | ProtocolState.payload =>
      w = w0 /\ opcode_ p = opcode /\ length_ p = Z.of_nat (length payload) /\
      (filled_ p < length payload \/ filled_ p = 0 /\ payload = [])%nat /\
      take (filled_ p) (payload_ p) ++ s = payload ++ more
  | ProtocolState.reply =>
      s = more /\
      exists st, Dispatch (holding opcode payload) w0 = (st, w) /\ reply_ p = reply_bytes opcode st (w_engine w)
  | ProtocolState.failed => False
  end.

Record located (s0 : ProtocolState.State) p w (s : list Z) : Prop := {
  loc_arrays : (length (header_ p) = 16%nat /\ bytes_ok (header_ p)) /\
               (length (payload_ p) = kPayloadSize /\ bytes_ok (payload_ p));
  loc_flags : sent_ p = false /\ reset_ p = false;
  loc_input : bytes_ok s;
  loc_phase : phase s0 p w s
}.

(** Steps still needed, if every one of them offers a byte. *)
Definition togo (s0 : ProtocolState.State) (s : list Z) : nat :=
  (length s + if bool_decide (s0 = ProtocolState.reply) then 0 else 1)%nat.

Definition advances (n : nat) (s0 : ProtocolState.State) p w (s : list Z) : Prop :=
  exists ns p1 w1 c, Step (take n s) s0 (p, w, 0%nat) = (ns, (p1, w1, c)) /\ located ns p1 w1 (drop c s) /\
    (togo ns (drop c s) <= togo s0 s)%nat /\
    ((0 < n)%nat -> s0 <> ProtocolState.reply -> (togo ns (drop c s) < togo s0 s)%nat).

Lemma request_fields buf :
  buf = request_header ->
  read32 buf 0 = kProtocolMagic /\ read32 buf 4 = 1 /\ read32 buf 8 = opcode /\
  read32 buf 12 = Z.of_nat (length payload).
Proof.
  intros ->. unfold kPayloadSize, kBlockSize in Hlen.
  assert (Hok : bytes_ok request_header) by (repeat apply Forall_app_2; apply le_bytes_ok).
  assert (Hl : length request_header = 16%nat) by (unfold request_header; rewrite !length_app, !length_le_bytes; done).
  split_and!; apply read32_le; first [exact Hok|rewrite Hl; lia|done|unfold is_u32; lia|idtac]; done.
Qed.

Lemma request_step_header n p w s : located ProtocolState.header p w s -> advances n ProtocolState.header p w s.
Proof.
  intros [[[Hl1 Hb1] Hpl] [Hs Hr] Hi (-> & Hf & Heq)].
  assert (Hl16 : length request_header = Z.to_nat 16).
  { unfold request_header. rewrite !length_app, !length_le_bytes. done. }
  destruct (Copy_spec n s (header_ p) 16 (filled_ p) _ _ ltac:(lia) ltac:(lia) ltac:(lia) Hl16 Heq)
    as (c & buf & E & Hlb & Hfc & Hpos & Hcs & Hbb & Hpart & Hfull).
  unfold advances, Protocol.Step. rewrite Hr, E. cbn zeta. cbn [header_ filled_ opcode_ length_ field_update].
  assert (Hbuf1 : length buf = 16%nat /\ bytes_ok buf) by (split; [lia|auto]).
  destruct (Nat.eqb_spec (filled_ p + c) 16) as [E16|E16].
  - destruct (Hfull E16) as [Hbuf Hdrop]. change (Z.to_nat 16) with 16%nat in Hbuf.
    rewrite firstn_all2 in Hbuf by lia. destruct (request_fields buf Hbuf) as (-> & -> & -> & ->).
    rewrite !Z.eqb_refl, Z.gtb_ltb, (proj2 (Z.ltb_ge _ _)) by (apply Nat2Z.inj_le; exact Hlen). cbn [negb orb].
    do 4 eexists. split; [done|]. rewrite Hdrop. split; [split; [done|done|by apply Forall_app_2|]|].
    + unfold phase. cbn [opcode_ length_ filled_ payload_ field_update]. split_and!; [done..| |done].
      destruct payload; [by right|left; cbn; lia].
    + rewrite <- Hdrop. unfold togo. rewrite length_drop. rewrite !bool_decide_eq_false_2 by done.
      split; [lia|]. intros Hn _. specialize (Hpos Hn). lia.
  - do 4 eexists. split; [done|]. split; [split; [done|done|by apply Forall_drop|]|].
    + unfold phase. cbn [header_ filled_ field_update]. split_and!; [done|lia|done].
    + unfold togo. rewrite length_drop. rewrite !bool_decide_eq_false_2 by done.
      split; [lia|]. intros Hn _. specialize (Hpos Hn). lia.
Qed.

(** The complete payload is dispatched and answered. *)
Lemma payload_complete p buf c :
  opcode_ p = opcode -> length_ p = Z.of_nat (length payload) ->
  take (length payload) buf = payload ->
  let p1 := p <| payload_ := buf |> <| filled_ := c |> in
  Dispatch p1 w0 = Dispatch (holding opcode payload) w0.
Proof.
  intros Ho Hl Hb p1. apply Dispatch_ext; unfold p1, holding;
    cbn [opcode_ length_ payload_ filled_ field_update]; [done|done|].
  by rewrite Hl, Nat2Z.id, Hb, firstn_all.
Qed.

Lemma step_payload n p w s : located ProtocolState.payload p w s -> advances n ProtocolState.payload p w s.
Proof.
  intros [[Hh [Hl1 Hb1]] [Hs Hr] Hi (-> & Ho & Hln & Hf & Heq)].
  assert (Hcopy : exists c buf, Copy (take n s) (payload_ p) (length_ p) (filled_ p) = (c, buf) /\
    (length buf = kPayloadSize /\ bytes_ok buf) /\ (c <= length s)%nat /\ (filled_ p + c <= length payload)%nat /\
    ((0 < n)%nat -> payload <> [] -> (0 < c)%nat) /\ take (filled_ p + c) buf ++ drop c s = payload ++ more).
  { destruct Hf as [Hf|[Hf0 Hnil]].
    - destruct (Copy_spec n s (payload_ p) (length_ p) (filled_ p) payload more)
        as (c & buf & E & Hlb & Hfc & Hpos & Hcs & Hbb & Hpart & _); [|lia|lia|lia|exact Heq|].
      { unfold kPayloadSize, kBlockSize in Hlen. lia. }
      exists c, buf. split_and!; [done|lia|auto|lia|lia|auto|done].
    - exists 0%nat, (payload_ p). rewrite Hnil in *. unfold Copy. rewrite Hln, Hf0.
      change (Z.to_nat (u64 (Z.of_nat (length []) - Z.of_nat 0))) with 0%nat.
      rewrite Nat.min_0_r, take_0. rewrite Hf0 in Heq. split_and!; [done..|lia|cbn; lia|done|exact Heq]. }
  destruct Hcopy as (c & buf & E & Hbuf & Hcs & Hfc & Hpos & Hpart).
  unfold advances, Protocol.Step. rewrite Hr, E. cbn zeta. cbn [payload_ filled_ length_ field_update].
  destruct (Z.eqb_spec (Z.of_nat (filled_ p + c)) (length_ p)) as [Ef|Ef].
  - assert (Hfull : (filled_ p + c)%nat = length payload) by lia. rewrite Hfull in Hpart.
    apply app_inj_1 in Hpart as [Htake Hdrop];
      [|rewrite length_take; destruct Hbuf as [-> _]; apply Nat.min_l; exact Hlen].
    rewrite (payload_complete p buf (filled_ p + c) Ho Hln Htake).
    destruct (Dispatch (holding opcode payload) w0) as [st w1] eqn:Ed.
    do 4 eexists. split; [done|]. rewrite Hdrop. split; [split; [by split|done|done|]|].
    + unfold phase. split; [done|]. exists st. split; [exact Ed|]. unfold Reply. cbn [reply_ opcode_ field_update]. by rewrite Ho.
    + rewrite <- Hdrop. unfold togo. rewrite length_drop.
      rewrite bool_decide_eq_true_2, bool_decide_eq_false_2 by done. lia.
  - do 4 eexists. split; [done|]. split; [split; [by split|done|by apply Forall_drop|]|].
    + unfold phase. cbn [opcode_ length_ filled_ payload_ field_update]. split_and!; [done..|left; lia|done].
    + unfold togo. rewrite length_drop. rewrite !bool_decide_eq_false_2 by done. split; [lia|]. intros Hn _.
      assert (payload <> []) by (intros Hnil; rewrite Hnil in *; cbn in *; lia). specialize (Hpos Hn ltac:(done)). lia.
Qed.

Lemma step_reply n p w s : located ProtocolState.reply p w s -> advances n ProtocolState.reply p w s.
Proof.
  intros [Ha [Hs Hr] Hi Hp]. unfold advances, Protocol.Step. rewrite Hr, Hs.
  exists ProtocolState.reply, p, w, 0%nat. split; [done|]. rewrite drop_0. split; [by split|]. by split.
Qed.

Lemma converse_located sizes : forall p w s,
  ticking_ (machine_ p) = false -> located (cs (machine_ p)) p w s ->
  let '(p', w', s') := converse sizes p w s in
  located (cs (machine_ p')) p' w' s' /\
  (Forall (fun n => 0 < n)%nat sizes -> (togo (cs (machine_ p)) s <= length sizes + length more)%nat ->
   cs (machine_ p') = ProtocolState.reply).
Proof.
  induction sizes as [|n sizes IH]; intros p w s Ht HL.
  { cbn. split; [done|]. intros _ Hg. unfold togo in Hg. case_bool_decide as Er; [done|].
    destruct HL as [_ _ _ Hp]. destruct (cs (machine_ p)); try done; exfalso;
      [destruct Hp as (_ & Hf & Heq)|destruct Hp as (_ & _ & _ & Hf & Heq)];
      apply (f_equal length) in Heq; rewrite !length_app in Heq.
    - unfold request_header in Heq. rewrite !length_app, !length_le_bytes, length_take in Heq. lia.
    - assert (filled_ p <= length payload)%nat by (destruct Hf as [|[? ->]]; cbn; lia).
      cbn [length] in Hg. rewrite length_take in Heq. lia. }
  cbn [converse]. rewrite protocol_tick by done.
  assert (Hadv : advances n (cs (machine_ p)) p w s).
  { destruct (cs (machine_ p)) eqn:Ecs.
    - by apply request_step_header.
    - by apply step_payload.
    - by apply step_reply.
    - by destruct HL. }
  destruct Hadv as (ns & p1 & w1 & c & -> & HL1 & Hle & Hless).
  assert (Hcs : cs (post_machine ns (machine_ p)) = ns) by (rewrite cs_post_machine; by destruct ns).
  assert (HL1' : located (cs (machine_ (p1 <| machine_ := post_machine ns (machine_ p) |>)))
                   (p1 <| machine_ := post_machine ns (machine_ p) |>) w1 (drop c s)).
  { cbn [machine_ field_update]. rewrite Hcs. destruct HL1. by split. }
  specialize (IH (p1 <| machine_ := post_machine ns (machine_ p) |>) w1 (drop c s) eq_refl HL1').
  destruct (converse sizes _ w1 (drop c s)) as [[p' w'] s']. destruct IH as [HL' Hend]. split; [done|].
  intros [Hn Hns]%Forall_cons Hg. apply Hend; [done|]. cbn [machine_ field_update]. rewrite Hcs.
  destruct (decide (cs (machine_ p) = ProtocolState.reply)) as [Er|Er].
  - rewrite Er in HL, Hle. destruct HL as [_ _ _ [-> _]]. unfold togo at 2 in Hle.
    rewrite bool_decide_eq_true_2 in Hle by done. lia.
  - specialize (Hless Hn Er). cbn in Hg. lia.
Qed.
End frames.

(** ** Replies *)

Lemma length_reply opcode st e : length (reply_bytes opcode st e) = kReplySize.
Proof. unfold reply_bytes. cbn zeta. rewrite !length_blit, !length_write32. apply length_replicate. Qed.

Lemma enum_name_fits st : (length (chars (enum_name st)) <= 31)%nat.
Proof. apply Nat.leb_le. destruct st; vm_compute; reflexivity. Qed.
Lemma state_name_fits s : (length (chars (state_name s)) <= 15)%nat.
Proof. apply Nat.leb_le. destruct s; vm_compute; reflexivity. Qed.

Lemma label_field i (l r : list Z) :
  r !! (i + length l)%nat = Some 0 -> sub (blit i l r) i (S (length l)) = l ++ [0].
Proof.
  intros H0. pose proof (lookup_lt_Some _ _ _ H0) as Hl.
  replace (S (length l)) with (length l + 1)%nat by lia. rewrite sub_app, sub_blit_same by lia. f_equal.
  unfold sub. rewrite (drop_S _ 0); [done|]. rewrite lookup_blit_out by lia. exact H0.
Qed.

(** The status is in the reply as a number and as a terminated label, the
    engine's state likewise. *)
Lemma reply_fields opcode st e :
  let r := reply_bytes opcode st e in
  read32 r 0 = kProtocolMagic /\ read32 r 16 = status_code st /\
  read32 r 20 = Z.of_nat (state_index (Engine.state e)) /\
  sub r 40 (S (length (chars (enum_name st)))) = chars (enum_name st) ++ [0] /\
  sub r 72 (S (length (chars (state_name (Engine.state e))))) = chars (state_name (Engine.state e)) ++ [0].
Proof.
  assert (Hst : is_u32 (status_code st)) by (destruct st; done).
  assert (Hsi : is_u32 (Z.of_nat (state_index (Engine.state e)))) by (by destruct (Engine.state e)).
  pose proof (enum_name_fits st) as Hn1. pose proof (state_name_fits (Engine.state e)) as Hn2.
  unfold reply_bytes. cbn zeta. rewrite !write32_blit.
  rewrite !(firstn_all2 (chars _)) by lia.
  set (l1 := chars (enum_name st)) in *. set (l2 := chars (state_name _)) in *.
  change kReplySize with 88%nat. cbn [length] in *.
  assert (Hmagic : is_u32 kProtocolMagic) by done.
  assert (Hz : forall j, (j < 88)%nat -> replicate 88 0 !! j = Some 0) by (intros; by apply lookup_replicate_2).
  split_and!; [field_simpl; done|field_simpl; done|field_simpl; done| |].
  - rewrite sub_blit_other by lia. apply label_field.
    rewrite !lookup_blit_out by (rewrite ?length_le_bytes; lia). apply Hz. lia.
  - apply label_field. rewrite !lookup_blit_out by (rewrite ?length_le_bytes; lia). apply Hz. lia.
Qed.

Record at_rest (p : Protocol) : Prop := {
  ar_machine : ticking_ (machine_ p) = false /\ cs (machine_ p) = ProtocolState.header;
  ar_flags : sent_ p = false /\ reset_ p = false /\ filled_ p = 0%nat;
  ar_arrays : (length (header_ p) = 16%nat /\ bytes_ok (header_ p)) /\
              (length (payload_ p) = kPayloadSize /\ bytes_ok (payload_ p))
}.

(** C10: framing.  However the bytes of a well-formed request are cut into
    chunks, nothing reaches the engine before the request is complete; then it
    is dispatched once, what follows it in the stream is left alone, and the
    reply carries the status of that dispatch, as a number and as a terminated
    label, and the state the engine is in.  One step more than there are bytes
    is enough, if every step offers a byte. *)
Theorem protocol_answers_request {D R} (F : Flash D) layout crc_ (request_reboot : option (R -> Status * R))
    opcode payload more (w : World D R) p sizes :
  is_u32 opcode -> (length payload <= kPayloadSize)%nat -> bytes_ok payload -> bytes_ok more -> at_rest p ->
  let '(p', w', s') := converse F layout crc_ request_reboot sizes p w (request opcode payload ++ more) in
  let '(st, w1) := Dispatch F layout crc_ request_reboot (holding opcode payload) w in
  (w' = w /\ reply p' = [] \/ w' = w1) /\
  (Forall (fun n => 0 < n)%nat sizes -> (length (request opcode payload) < length sizes)%nat ->
   w' = w1 /\ s' = more /\ reply p' = reply_bytes opcode st (w_engine w1) /\ length (reply p') = kReplySize /\
   read32 (reply p') 16 = status_code st /\ read32 (reply p') 20 = Z.of_nat (state_index (Engine.state (w_engine w1))) /\
   sub (reply p') 40 (S (length (chars (enum_name st)))) = chars (enum_name st) ++ [0]).
Proof.
  intros Hop Hlen Hb Hm [[Ht Hcs] (Hs & Hr & Hf) Ha].
  assert (Hin : bytes_ok (request opcode payload ++ more)).
  { repeat apply Forall_app_2; try apply le_bytes_ok; done. }
  assert (HL : located F layout crc_ request_reboot opcode payload more w (cs (machine_ p)) p w (request opcode payload ++ more)).
  { rewrite Hcs. split; [done|done|done|]. split; [done|]. rewrite Hf. split; [lia|].
    unfold request. by rewrite <- app_assoc. }
  pose proof (converse_located F layout crc_ request_reboot opcode payload more w Hop Hlen Hb Hm sizes _ _ _ Ht HL) as H.
  destruct (converse _ _ _ _ _ _ _ _) as [[p' w'] s']. destruct H as [HL' Hend].
  destruct (Dispatch _ _ _ _ _ _) as [st w1] eqn:Ed. split.
  - destruct HL' as [_ _ _ Hp]. unfold reply. destruct (cs (machine_ p')); try done.
    + left. split; [apply Hp|done].
    + left. split; [apply Hp|done].
    + right. destruct Hp as (_ & st' & E & _). rewrite Ed in E. by injection E as <- <-.
  - intros Hn Hl. assert (Er : cs (machine_ p') = ProtocolState.reply).
    { apply Hend; [done|]. unfold togo. rewrite length_app, Hcs. rewrite bool_decide_eq_false_2 by done. lia. }
    rewrite Er in HL'. destruct HL' as [_ _ _ (Hs' & st' & E & Hrep)]. rewrite Ed in E. injection E as <- <-.
    unfold reply. rewrite bool_decide_eq_true_2 by done. rewrite Hrep.
    destruct (reply_fields opcode st (w_engine w1)) as (_ & H16 & H20 & H40 & _).
    split_and!; [done..|apply length_reply|done|done|done].
Qed.
