(* ===== verification/UpdateExample.v ===== *)
(** * An update of a file-backed device

    The device of ControlExample.v runs the image in slot 1; a package of one
    block installs a new image in slot 0.  The run instantiates the theorems of
    WriterProof.v, EngineRun.v and ProtocolFrames.v. *)

From S2P Require Import Prelude Foundation Wire StateMachine Flash Codec Journal JournalScan JournalCrash JournalCommit HostFlash Control ControlExample Package PackageStream Writer WriterProof Engine EngineSafe EngineInv EngineRun Protocol ProtocolFrames.

#[local] Existing Instance bex_contract.

Definition uex_image : list Z := map (fun n => Z.of_nat n) (seq 1 40).
Definition uex_crc : Z := crc32_calculate uex_image.

(** The header of the package. *)
Definition uex_header : list Z :=
  let b := replicate 128 0 in
  let b := write32 b 0 0x50534f44 in
  let b := write32 b 4 1 in
  let b := write32 b 8 128 in
  let b := write32 b 12 1 in
  let b := write32 b 16 1 in
  let b := write32 b 20 40 in
  let b := write32 b 24 1024 in
  let b := write32 b 28 1536 in
  let b := write32 b 32 uex_crc in
  let b := write32 b 36 uex_crc in
  let b := write32 b 44 1024 in
  let b := write32 b 104 (128 + 12 + 40) in
  write32 b 124 (crc32_calculate (take 124 b)).

Definition uex_body : list Z := le_bytes 4 0 ++ le_bytes 4 40 ++ le_bytes 4 0 ++ uex_image.

(** Enable, begin, wait until the slot is invalidated, send the one chunk. *)
Definition uex_calls (n : nat) : list Call :=
  [CallEnable true; CallTick; CallBegin uex_header None] ++ replicate 80 CallTick ++
  [CallChunk 0 uex_body (crc32_calculate uex_body)] ++ replicate n CallTick.

Definition uex_device : FileFlash := bex_device ImageState.pending.
Definition uex_run (n : nat) : Engine * FileFlash :=
  run bex_flash bex_layout no_backend 30000000 (uex_calls n) (new_engine 1, uex_device).

(** ** The setting *)

Lemma uex_update_device : update_device bex_flash bex_layout.
Proof.
  split; [exact bex_journal_device|]. intros i a n Hn. unfold sel. cbn [slots bex_layout fst snd].
  destruct (i =? 0); intros H1 H2; cbn in *; unfold in_geometry; cbn; lia.
Qed.

Lemma uex_start :
  dev_ok uex_device /\ flight uex_device = None /\ journal_ok bex_layout (view uex_device) /\
  newest bex_layout (view uex_device) (bex_snapshot 1 ImageState.pending).
Proof. destruct bex_pending as ((Hd & Hf & Hj & _) & _ & Hn). by split_and!. Qed.

Lemma uex_calls_ok n : Forall call_ok (uex_calls n).
Proof.
  repeat apply Forall_app_2; try (apply Forall_replicate; done);
    repeat constructor; apply (bool_decide_unpack _); vm_compute; exact I.
Qed.

Lemma uex_run_eq n : run bex_flash bex_layout no_backend 30000000 (uex_calls n) (new_engine 1, uex_device) =
  (fst (uex_run n), snd (uex_run n)).
Proof. unfold uex_run. apply surjective_pairing. Qed.

(** Thirteen ticks after the chunk, while a unit of the image is being
    programmed. *)
Lemma uex_crash n : crash_image bex_flash (snd (uex_run n)) (view (snd (uex_run n))).
Proof.
  destruct uex_start as (Hd & Hf & Hj & Hn).
  destruct (run_safe bex_flash bex_layout no_backend 30000000 uex_update_device no_backend_faithful (uex_calls n) 1
    uex_device _ _ _ (or_intror eq_refl) Hd Hf Hj Hn (uex_calls_ok n) (uex_run_eq n)) as [_ [Hd' Hs _]].
  by apply view_crash.
Qed.

Example uex_in_flight : flight (snd (uex_run 13)) <> None.
Proof. vm_compute. discriminate. Qed.

(** The tick that ends the update. *)
Definition uex_last : Engine * FileFlash :=
  Engine.tick bex_flash bex_layout no_backend 30000000 (fst (uex_run 70)) (snd (uex_run 70)).
Lemma uex_last_eq : Engine.tick bex_flash bex_layout no_backend 30000000 (fst (uex_run 70)) (snd (uex_run 70)) =
  (fst uex_last, snd uex_last).
Proof. unfold uex_last. apply surjective_pairing. Qed.
Example uex_committing : Engine.state (fst (uex_run 70)) <> EngineState.done.
Proof. vm_compute. discriminate. Qed.
Example uex_done : Engine.state (fst uex_last) = EngineState.done.
Proof. vm_compute. reflexivity. Qed.

Lemma update_survives_power_loss_witness :
  let m := view (snd (uex_run 13)) in
  (forall x, in_block (sel (slots bex_layout) 1) (slot_size bex_layout) x -> m x = view uex_device x) /\
  exists s, newest bex_layout m s /\ sel (images s) 1 = sel (images (bex_snapshot 1 ImageState.pending)) 1.
Proof.
  intros m. destruct uex_start as (Hd & Hf & Hj & Hn).
  destruct (update_survives_power_loss bex_flash bex_layout no_backend 30000000 uex_update_device no_backend_faithful
    (uex_calls 13) 1 uex_device (bex_snapshot 1 ImageState.pending) (fst (uex_run 13)) (snd (uex_run 13)) m
    (or_intror eq_refl) Hd Hf Hj Hn (uex_calls_ok 13) (uex_run_eq 13) (uex_crash 13)) as (H1 & _ & s & H2 & H3 & _).
  split; [exact H1|]. exists s. split; [exact H2|exact H3].
Defined.

Lemma update_done_is_installed_witness :
  flight (snd uex_last) = None /\
  exists s bs, newest bex_layout (view (snd uex_last)) s /\
    image_state (sel (images s) 0) = ImageState.pending /\ crc32_calculate bs = image_crc (sel (images s) 0) /\
    image_crc (sel (images s) 0) = sel (h_crc (Engine.header_ (fst uex_last))) 0.
Proof.
  destruct uex_start as (Hd & Hf & Hj & Hn).
  destruct (update_done_is_installed bex_flash bex_layout no_backend 30000000 uex_update_device no_backend_faithful
    (uex_calls 70) 1 uex_device (bex_snapshot 1 ImageState.pending) (fst (uex_run 70)) (snd (uex_run 70))
    (fst uex_last) (snd uex_last) (or_intror eq_refl) Hd Hf Hj Hn (uex_calls_ok 70) (uex_run_eq 70)
    uex_last_eq uex_done) as (H1 & s & bs & H2 & _ & H3 & _ & _ & _ & H4 & H5).
  split; [exact H1|]. exists s, bs. split; [exact H2|]. split; [exact H3|]. split; [exact H4|].
  exact (proj2 (H5 uex_committing)).
Defined.

(** ** The writer alone *)

Definition uex_begin : Status * Writer * FileFlash :=
  Writer.begin bex_flash bex_layout 0 (Z.of_nat (length (@nil Z))) uex_image new_writer uex_device.
Definition uex_write (n : nat) : Writer * FileFlash :=
  Nat.iter n (WriterProof.tick_pair bex_flash bex_layout) (snd (fst uex_begin), snd uex_begin).

Example uex_written : Writer.status_ (fst (uex_write 20)) = Status.ok.
Proof. vm_compute. reflexivity. Qed.

Lemma writer_appends_block_witness :
  mem_read (view (snd (uex_write 20))) 1024 40 = Some uex_image.
Proof.
  destruct uex_start as (Hd & Hf & _).
  assert (Hr : resting new_writer) by (split; [reflexivity|by left]).
  assert (Hb : bytes_ok uex_image) by (apply (bool_decide_unpack _); vm_compute; exact I).
  assert (Hfr : frontier bex_layout 1024 [] new_writer (view uex_device)) by (split; [apply mem_read_nil|by left]).
  assert (Hbeg : Writer.begin bex_flash bex_layout 0 (Z.of_nat (length (@nil Z))) uex_image new_writer uex_device =
    (Status.ok, snd (fst uex_begin), snd uex_begin)) by (vm_compute; reflexivity).
  assert (Hn : Nat.iter 20 (WriterProof.tick_pair bex_flash bex_layout) (snd (fst uex_begin), snd uex_begin) =
    (fst (uex_write 20), snd (uex_write 20))) by (unfold uex_write; apply surjective_pairing).
  destruct (writer_appends_block bex_flash bex_layout 0 [] uex_image new_writer uex_device 20 _ _ _ _
    bex_layout_unsigned Hd Hf Hr Hb Hfr Hbeg Hn) as [_ H].
  exact (proj1 (H uex_written)).
Defined.

(** ** A request *)

Definition uex_world : World FileFlash unit := mkWorld (new_engine 1) uex_device tt.
Abbreviation uex_converse :=
  (converse bex_flash bex_layout no_backend None (replicate 20 3%nat) new_protocol uex_world (request 2 [] ++ [1; 2])).

Lemma protocol_answers_request_witness :
  let '(p', w', s') := uex_converse in s' = [1; 2] /\ length (reply p') = kReplySize.
Proof.
  assert (Hop : is_u32 2) by done.
  assert (Hl : (length (@nil Z) <= kPayloadSize)%nat) by (apply Nat.leb_le; vm_compute; reflexivity).
  assert (Hb : bytes_ok []) by constructor. assert (Hm : bytes_ok [1; 2]) by (repeat constructor; done).
  assert (Hr : at_rest new_protocol).
  { split; [by split|by split_and!|].
    split; (split; [reflexivity|apply Forall_replicate; done]). }
  pose proof (protocol_answers_request bex_flash bex_layout no_backend (R := unit) None 2 [] [1; 2] uex_world new_protocol
    (replicate 20 3%nat) Hop Hl Hb Hm Hr) as H.
  revert H. destruct uex_converse as [[p' w'] s']. destruct (Dispatch _ _ _ _ _ _) as [st w1]. intros [_ H].
  destruct H as (_ & H2 & _ & H4 & _); [apply Forall_replicate; lia|apply Nat.ltb_lt; vm_compute; reflexivity|].
  split; [exact H2|exact H4].
Defined.
