(* ===== verification/FileUpdate.v ===== *)
(** * Updates from a file (src/lib/update/file.h, file.cpp)

    The worker that installs a package from a file: it reserves the engine and
    the file system, reads and validates the whole package, and installs it in a
    second pass when asked to.  The file system is reached through the hooks of
    [storage::ReadFile], here the record [FileSource] on an environment [S].
    The engine, its device and the environment are referenced objects and are
    fields of the model; [trace_] records the calls of the source and [image_]
    the blocks the reader has delivered, and no operation reads them. *)

From Stdlib Require Import String.
From S2P Require Import Prelude Foundation Wire Match StateMachine Flash Package Engine.

(** A read returns its status, the count it reports and the bytes it stored. *)
Record FileSource (S : Type) := mkFileSource {
  src_reserve : S -> Status * S; src_release : S -> S;
  src_open : Name -> S -> Status * S;
  src_read : nat -> S -> Status * Z * list Z * S;
  src_seek : Z -> S -> Status * S; src_close : S -> Status * S
}.
Arguments mkFileSource {S}. Arguments src_reserve {S}. Arguments src_release {S}. Arguments src_open {S}. Arguments src_read {S}.
Arguments src_seek {S}. Arguments src_close {S}.

(** The calls of the source, with what the worker learns of their results. *)
Inductive SourceCall := SReserve (ok : bool) | SOpen (ok : bool) | SRead | SSeek | SClose | SRelease.

Module FileState.
Inductive State : Set :=
  | idle | opening | header | validating | eof | prepared | rewind | checking | starting | installing | cleanup | done | failed.
End FileState.
#[global] Instance FileState_eq_dec : EqDecision FileState.State.
Proof. solve_decision. Defined.
#[export] Instance FileState_enum : StateEnum FileState.State := {|
  state_index (s : FileState.State) := match s with
    | FileState.idle => 0 | FileState.opening => 1 | FileState.header => 2 | FileState.validating => 3 | FileState.eof => 4
    | FileState.prepared => 5 | FileState.rewind => 6 | FileState.checking => 7 | FileState.starting => 8
    | FileState.installing => 9 | FileState.cleanup => 10 | FileState.done => 11 | FileState.failed => 12 end%nat;
  state_count := 13%nat
|}.
Definition kPathCapacity : Z := 255.

Section file.
Context {D S : Type} (F : Flash D) (layout : Layout) (crc_service : Backend) (source_ : FileSource S) (source_set : bool) (self : nat).
(** [source_set] tells that every hook of the source is present; [self] is the
    worker as an owner. *)

Record FileUpdate := mkFileUpdate {
  engine_ : Engine; device_ : D; files_ : S;
  fmachine_ : Machine FileState.State;
  reader_ : Package.PackageReader;
  header_ : Package.Header;
  path_ : Name;
  header_bytes_ : list Z; buffer_ : list Z;
  filled_ : nat; at_ : nat;
  received_ : Z; crc_ : Z; installed_ : Z;
  status_ : Status;
  busy_ : bool; opened_ : bool; requested_ : bool;
  install_requested_ : bool; cancel_requested_ : bool; installing_ : bool;
  trace_ : list SourceCall; image_ : list Z
}.
#[export] Instance FileUpdate_eta : RecordEta FileUpdate := fun u =>
  mkFileUpdate (engine_ u) (device_ u) (files_ u) (fmachine_ u) (reader_ u) (header_ u) (path_ u) (header_bytes_ u) (buffer_ u)
    (filled_ u) (at_ u) (received_ u) (crc_ u) (installed_ u) (status_ u) (busy_ u) (opened_ u) (requested_ u)
    (install_requested_ u) (cancel_requested_ u) (installing_ u) (trace_ u) (image_ u).
#[export] Instance FileUpdate_machine : HasMachine FileUpdate FileState.State := {|
  machine := fmachine_; with_machine m u := u <| fmachine_ := m |>
|}.
#[export] Instance FileUpdate_machine_laws : HasMachineLaws FileUpdate FileState.State.
Proof. split; [done|done|by intros []]. Qed.

Definition new_file_update (e : Engine) (d : D) (s : S) : FileUpdate :=
  mkFileUpdate e d s (initial_machine FileState.idle) Package.new_reader Package.no_header [] (replicate Package.kHeaderSize 0)
    (replicate Package.kBlockSize 0) 0 0 0 0 0 Status.not_running false false false false false false [] [].

Definition file_state (u : FileUpdate) : FileState.State := cs (fmachine_ u).
Definition file_destination (u : FileUpdate) : Z := Engine.destination (engine_ u).
Definition progress (u : FileUpdate) : Z := if installing_ u then installed_ u else received_ u.
Definition file_total (u : FileUpdate) : Z :=
  if Package.package_size (header_ u) >=? Z.of_nat Package.kHeaderSize
  then Package.package_size (header_ u) - Z.of_nat Package.kHeaderSize else 0.

Definition call (c : SourceCall) (u : FileUpdate) : FileUpdate := u <| trace_ := trace_ u ++ [c] |>.

Definition prepare (path : Name) (u : FileUpdate) : Status * FileUpdate :=
  if busy_ u then (Status.busy, u)
  else if negb source_set then (Status.unsupported, u)
  else if (length path =? 0)%nat || (Z.of_nat (length path) >? kPathCapacity) || existsb (fun c => c =? 0) path ||
          existsb (fun c => c =? 58) path then (Status.invalid_argument, u)
  else
    let '(result, e) := Engine.reserve (Some self) (engine_ u) in
    let u := u <| engine_ := e |> in
    if negb (result =s? Status.ok) then (result, u)
    else
      let '(result, s) := src_reserve source_ (files_ u) in
      let u := call (SReserve (result =s? Status.ok)) (u <| files_ := s |>) in
      if negb (result =s? Status.ok) then (result, u <| engine_ := Engine.release (Some self) (engine_ u) |>)
      else
        (Status.ok,
         u <| path_ := path |> <| header_ := Package.no_header |> <| filled_ := 0%nat |> <| at_ := 0%nat |> <| received_ := 0 |>
           <| crc_ := 0 |> <| installed_ := 0 |> <| cancel_requested_ := false |> <| install_requested_ := false |>
           <| installing_ := false |> <| status_ := Status.busy |> <| requested_ := true |> <| busy_ := true |> <| image_ := [] |>).

Definition install (u : FileUpdate) : Status * FileUpdate :=
  if negb (bool_decide (file_state u = FileState.prepared)) || negb (busy_ u) || cancel_requested_ u then (Status.not_running, u)
  else if install_requested_ u then (Status.busy, u)
  else (Status.ok, u <| install_requested_ := true |>).

Definition cancel (u : FileUpdate) : FileUpdate :=
  if busy_ u && negb (bool_decide (file_state u = FileState.cleanup)) &&
     negb (installing_ u && bool_decide (Engine.state (engine_ u) = EngineState.done))
  then u <| cancel_requested_ := true |> else u.

(** A raw call of the source's [read], and [Read]; the count and the bytes are
    returned. *)
Definition read_source (n : nat) (u : FileUpdate) : Z * list Z * FileUpdate :=
  let '(status, count, bytes, s) := src_read source_ n (files_ u) in
  (count, take n bytes, call SRead (u <| files_ := s |> <| status_ := status |>)).
Definition Read (n : nat) (u : FileUpdate) : bool * Z * list Z * FileUpdate :=
  let '(count, bytes, u) := read_source n u in
  let u := if (status_ u =s? Status.ok) && ((count =? 0) || (count >? Z.of_nat n)) then u <| status_ := Status.parse_error |> else u in
  (status_ u =s? Status.ok, count, bytes, u).
Definition close_source (u : FileUpdate) : Status * FileUpdate :=
  let '(status, s) := src_close source_ (files_ u) in (status, call SClose (u <| files_ := s |> <| opened_ := false |>)).

Definition phase (u : FileUpdate) : string :=
  match file_state u with
  | FileState.idle => "idle" | FileState.prepared => "prepared"
  | FileState.rewind | FileState.checking | FileState.starting | FileState.installing => "installing"
  | FileState.cleanup => "cleanup" | FileState.done => "done" | FileState.failed => "failed" | _ => "validating"
  end%string.

(** ** The steps of the machine, one definition per state *)

Definition step_waiting (cs : FileState.State) (u : FileUpdate) : FileState.State * FileUpdate :=
  if requested_ u then (FileState.opening, u <| requested_ := false |>) else (cs, u).

Definition step_opening (u : FileUpdate) : FileState.State * FileUpdate :=
  let '(status, s) := src_open source_ (path_ u) (files_ u) in
  let u := call (SOpen (status =s? Status.ok)) (u <| files_ := s |> <| status_ := status |> <| opened_ := status =s? Status.ok |>) in
  (if opened_ u then FileState.header else FileState.cleanup, u).

Definition step_header (u : FileUpdate) : FileState.State * FileUpdate :=
  let '(ok, count, bytes, u) := Read (Package.kHeaderSize - filled_ u) u in
  let u := u <| header_bytes_ := blit (filled_ u) bytes (header_bytes_ u) |> in
  if negb ok then (FileState.cleanup, u)
  else
    let u := u <| filled_ := (filled_ u + Z.to_nat count)%nat |> in
    if (filled_ u =? Package.kHeaderSize)%nat then
      let '(status, header) := Engine.inspect layout (header_bytes_ u) (header_ u) (engine_ u) in
      let u := u <| status_ := status |> <| header_ := header |> in
      if negb (status =s? Status.ok) then (FileState.cleanup, u)
      else
        let '(_, reader) := Package.tick [] (Package.start (header_ u) (file_destination u) (reader_ u)) in
        (FileState.validating, u <| reader_ := reader |> <| filled_ := 0%nat |> <| at_ := 0%nat |>)
    else (FileState.header, u).

Definition step_validating (u : FileUpdate) : FileState.State * FileUpdate :=
  match Package.state (reader_ u) with
  | Package.ReaderState.failed => (FileState.cleanup, u <| status_ := Package.status_ (reader_ u) |>)
  | Package.ReaderState.ready =>
      let u := u <| crc_ := crc32_update (crc_ u) (Package.block (reader_ u)) |> <| image_ := image_ u ++ Package.block (reader_ u) |> in
      let '(_, reader) := Package.tick [] (Package.release (reader_ u)) in
      (FileState.validating, u <| reader_ := reader |>)
  | Package.ReaderState.done =>
      if negb (at_ u =? filled_ u)%nat || negb (received_ u =? file_total u) then (FileState.cleanup, u <| status_ := Status.parse_error |>)
      else if negb (crc_ u =? sel (Package.h_crc (header_ u)) (file_destination u)) then (FileState.cleanup, u <| status_ := Status.checksum_error |>)
      else (FileState.eof, u)
  | _ =>
      if (at_ u <? filled_ u)%nat then
        let '(consumed, reader) := Package.tick (sub (buffer_ u) (at_ u) (filled_ u - at_ u)) (reader_ u) in
        (FileState.validating, u <| reader_ := reader |> <| at_ := (at_ u + consumed)%nat |>)
      else if received_ u <? file_total u then
        let '(ok, count, bytes, u) := Read (Nat.min Package.kBlockSize (Z.to_nat (file_total u - received_ u))) u in
        let u := u <| buffer_ := blit 0 bytes (buffer_ u) |> in
        if negb ok then (FileState.cleanup, u)
        else (FileState.validating, u <| received_ := u32 (received_ u + count) |> <| filled_ := Z.to_nat count |> <| at_ := 0%nat |>)
      else (FileState.cleanup, u <| status_ := Status.parse_error |>)
  end.

(** The read that must find the end of the file. *)
Definition read_end (u : FileUpdate) : list Z * FileUpdate :=
  let '(count, bytes, u) := read_source 1 u in
  (bytes, if (status_ u =s? Status.ok) && negb (count =? 0) then u <| status_ := Status.parse_error |> else u).
Definition step_eof (u : FileUpdate) : FileState.State * FileUpdate :=
  let '(bytes, u) := read_end u in
  (if status_ u =s? Status.ok then FileState.prepared else FileState.cleanup, u <| buffer_ := blit 0 bytes (buffer_ u) |>).

Definition step_prepared (u : FileUpdate) : FileState.State * FileUpdate :=
  if install_requested_ u then (FileState.rewind, u <| install_requested_ := false |> <| filled_ := 0%nat |>) else (FileState.prepared, u).
Definition step_rewind (u : FileUpdate) : FileState.State * FileUpdate :=
  let '(status, s) := src_seek source_ 0 (files_ u) in
  let u := call SSeek (u <| files_ := s |> <| status_ := status |>) in
  (if status =s? Status.ok then FileState.checking else FileState.cleanup, u).

Definition step_checking (u : FileUpdate) : FileState.State * FileUpdate :=
  let '(ok, count, bytes, u) := Read (Package.kHeaderSize - filled_ u) u in
  let u := u <| buffer_ := blit (filled_ u) bytes (buffer_ u) |> in
  if negb ok then (FileState.cleanup, u)
  else
    let u := u <| filled_ := (filled_ u + Z.to_nat count)%nat |> in
    if (filled_ u =? Package.kHeaderSize)%nat then
      if negb (bool_decide (header_bytes_ u = take Package.kHeaderSize (buffer_ u)))
      then (FileState.cleanup, u <| status_ := Status.checksum_error |>) else (FileState.starting, u)
    else (FileState.checking, u).

Definition step_starting (u : FileUpdate) : FileState.State * FileUpdate :=
  let '(status, e, d) := Engine.begin F layout (header_bytes_ u) (Some self) (engine_ u) (device_ u) in
  let u := u <| engine_ := e |> <| device_ := d |> <| status_ := status |> <| installing_ := status =s? Status.ok |> in
  (if installing_ u then FileState.installing else FileState.cleanup, u).

(** Before the last chunk the file must end and close. *)
Definition finish_file (u : FileUpdate) : bool * FileUpdate :=
  let '(_, u) := read_end u in
  if negb (status_ u =s? Status.ok) then (false, u)
  else
    let '(status, u) := close_source u in
    (status =s? Status.ok, u <| status_ := status |>).
Definition step_installing (u : FileUpdate) : FileState.State * FileUpdate :=
  let u := u <| installed_ := Engine.received_ (engine_ u) |> in
  if negb (Engine.active (engine_ u)) then (FileState.cleanup, u <| status_ := Engine.status_ (engine_ u) |>)
  else if Engine.ready (engine_ u) then
    let left := u32 (Engine.total (engine_ u) - Engine.received_ (engine_ u)) in
    let '(ok, count, bytes, u) := Read (Nat.min Package.kBlockSize (Z.to_nat left)) u in
    let u := u <| buffer_ := blit 0 bytes (buffer_ u) |> in
    if negb ok then (FileState.cleanup, u)
    else
      let '(ok, u) := if count =? left then finish_file u else (true, u) in
      if negb ok then (FileState.cleanup, u)
      else
        let bytes := take (Z.to_nat count) (buffer_ u) in
        let '(status, e) := Engine.chunk crc_service (Engine.received_ (engine_ u)) bytes (crc32_calculate bytes) (engine_ u) in
        let u := u <| engine_ := e |> <| status_ := status |> in
        (if status =s? Status.ok then FileState.installing else FileState.cleanup, u)
  else (FileState.installing, u).

Definition step_cleanup (u : FileUpdate) : FileState.State * FileUpdate :=
  if Engine.active (engine_ u) then (FileState.cleanup, u <| engine_ := Engine.abort (status_ u) (engine_ u) |>)
  else
    let u := if opened_ u then let '(result, u) := close_source u in if status_ u =s? Status.ok then u <| status_ := result |> else u else u in
    let u := call SRelease (u <| files_ := src_release source_ (files_ u) |> <| engine_ := Engine.release (Some self) (engine_ u) |>
                              <| cancel_requested_ := false |> <| busy_ := false |>) in
    (if status_ u =s? Status.ok then FileState.done else FileState.failed, u).

Definition Step (cs : FileState.State) (u : FileUpdate) : FileState.State * FileUpdate :=
  if cancel_requested_ u && negb (bool_decide (cs = FileState.cleanup)) then
    (FileState.cleanup, u <| cancel_requested_ := false |> <| requested_ := false |> <| install_requested_ := false |> <| status_ := Status.rejected |>)
  else
    match cs with
    | FileState.idle | FileState.done | FileState.failed => step_waiting cs u
    | FileState.opening => step_opening u | FileState.header => step_header u | FileState.validating => step_validating u
    | FileState.eof => step_eof u | FileState.prepared => step_prepared u | FileState.rewind => step_rewind u
    | FileState.checking => step_checking u | FileState.starting => step_starting u | FileState.installing => step_installing u
    | FileState.cleanup => step_cleanup u
    end.
Definition tick (u : FileUpdate) : FileUpdate := snd (StateMachine.tick (step_only Step) u).
End file.
