(* ===== verification/FileInstall.v ===== *)
(** * Installing from a file (src/lib/update/file.cpp)

    The worker of FileUpdate.v over every history of its own calls, of calls of
    the engine by others, and of changes of the file system: it uses the source
    only as its contract allows, it gives back what it has reserved, it begins
    an installation only after the whole package has been validated, and it
    reports success only when the engine has committed that package. *)

From Stdlib Require Import String.
From S2P Require Import Prelude Foundation Wire Match StateMachine Flash Package PackageStream Engine EngineRun EngineOwner FileUpdate.

(** ** The contract of the source: calls by the holder of the reservation, reads
    on an open file only, one release per reservation. *)

Inductive SrcState := SFree | SHeld | SOpened.
Definition src_next (o : option SrcState) (c : SourceCall) : option SrcState :=
  match o, c with
  | Some SFree, SReserve ok => Some (if ok then SHeld else SFree)
  | Some SHeld, SOpen ok => Some (if ok then SOpened else SHeld)
  | Some SOpened, (SRead | SSeek) => Some SOpened
  | Some SOpened, SClose => Some SHeld
  | Some SHeld, SRelease => Some SFree
  | _, _ => None
  end.
Definition src_run (t : list SourceCall) : option SrcState := foldl src_next (Some SFree) t.
Lemma src_run_snoc t c : src_run (t ++ [c]) = src_next (src_run t) c.
Proof. unfold src_run. by rewrite foldl_app. Qed.

Section install.
Abbreviation busy_engine e := (working (Engine.state e) e).
Abbreviation over e := (ended (Engine.state e) e).
Context {D S : Type} (F : Flash D) (layout : Layout) (crc_service : Backend) (inactivity_ : Time).
Context (source_ : FileSource S) (source_set : bool) (self : nat).
Context (e0 : Engine) (d0 : D).

(** What the worker needs to know of the engine: an invariant [I] that every call
    keeps, and a property [C] of the committed update that holds whenever the
    engine has finished an installation of its owner. *)
Context (I C : Engine -> D -> Prop).
Definition done_ok (e : Engine) (d : D) : Prop := Engine.state e = EngineState.done -> Engine.requested_ e = false -> C e d.
Record engine_contract : Prop := {
  ec_call c e d : call_ok c -> I e d ->
    I (fst (others F layout crc_service inactivity_ c e d)) (snd (others F layout crc_service inactivity_ c e d));
  ec_committed c e d : engine_sound e -> I e d -> owner_ e = Some self -> other_call self c -> call_ok c -> done_ok e d ->
    done_ok (fst (others F layout crc_service inactivity_ c e d)) (snd (others F layout crc_service inactivity_ c e d));
  ec_release e d : C e d -> C (Engine.release (Some self) e) d
}.

(** A read stores bytes and reports a count of them. *)
Definition source_reads : Prop := forall n s, let '(_, count, bytes, _) := src_read source_ n s in 0 <= count /\ bytes_ok bytes.

Abbreviation worker := (@FileUpdate D S).
Abbreviation utick := (FileUpdate.tick F layout crc_service source_ self).

(** Histories of a worker whose engine and device are [e0] and [d0] at first. *)
Inductive file_reach : worker -> Prop :=
  | f_new s : file_reach (new_file_update e0 d0 s)
  | f_prepare path u : file_reach u -> file_reach (snd (prepare source_ source_set self path u))
  | f_install u : file_reach u -> file_reach (snd (install u))
  | f_cancel u : file_reach u -> file_reach (cancel u)
  | f_tick u : file_reach u -> file_reach (utick u)
  | f_engine c u : file_reach u -> other_call self c -> call_ok c ->
      file_reach (u <| engine_ := fst (others F layout crc_service inactivity_ c (engine_ u) (device_ u)) |>
                    <| device_ := snd (others F layout crc_service inactivity_ c (engine_ u) (device_ u)) |>)
  | f_files s u : file_reach u -> file_reach (u <| files_ := s |>).

(** ** The invariant *)

Definition holding (u : worker) : SrcState := if busy_ u then if opened_ u then SOpened else SHeld else SFree.
Record base (u : worker) : Prop := {
  b_engine : engine_sound (engine_ u);
  b_reader : reader_good (reader_ u);
  b_header : bytes_ok (header_bytes_ u) /\ length (header_bytes_ u) = kHeaderSize;
  b_buffer : bytes_ok (buffer_ u) /\ length (buffer_ u) = kBlockSize;
  b_trace : src_run (trace_ u) = Some (holding u);
  b_owner : if busy_ u then owner_ (engine_ u) = Some self else owner_ (engine_ u) <> Some self;
  b_inv : I (engine_ u) (device_ u)
}.

(** The header has been decoded for this destination. *)
Definition decoded (u : worker) : Prop :=
  exists h, decode_header (header_bytes_ u) layout (file_destination u) h = (Status.ok, header_ u).
Definition summed (u : worker) : Prop := crc_ u = crc32_calculate (image_ u).
(** The package has been read to its end and its image has the checksum. *)
Definition validated (u : worker) : Prop :=
  decoded u /\ crc32_calculate (image_ u) = sel (h_crc (header_ u)) (file_destination u) /\ received_ u = file_total u.

Definition fphase (c : FileState.State) (u : worker) : Prop :=
  let held := busy_ u = true /\ requested_ u = false in
  let quiet := Engine.active (engine_ u) = false in
  match c with
  | FileState.idle | FileState.done | FileState.failed =>
      opened_ u = false /\ busy_ u = requested_ u /\ (busy_ u = true -> quiet /\ crc_ u = 0 /\ image_ u = []) /\
      (cancel_requested_ u = true -> busy_ u = true)
  | FileState.opening => held /\ opened_ u = false /\ quiet /\ crc_ u = 0 /\ image_ u = []
  | FileState.header => held /\ opened_ u = true /\ quiet /\ crc_ u = 0 /\ image_ u = []
  | FileState.validating => held /\ opened_ u = true /\ quiet /\ decoded u /\ summed u
  | FileState.eof | FileState.prepared | FileState.rewind | FileState.checking | FileState.starting =>
      held /\ opened_ u = true /\ quiet /\ validated u
  | FileState.installing =>
      held /\ validated u /\ Engine.header_ (engine_ u) = header_ u /\ (busy_engine (engine_ u) \/ over (engine_ u)) /\
      (opened_ u = true \/ Engine.total (engine_ u) <= Engine.received_ (engine_ u)) /\ done_ok (engine_ u) (device_ u)
  | FileState.cleanup =>
      held /\ (status_ u = Status.ok ->
        validated u /\ Engine.header_ (engine_ u) = header_ u /\ Engine.state (engine_ u) = EngineState.done /\ over (engine_ u) /\
        C (engine_ u) (device_ u))
  end.
Definition finv (c : FileState.State) (u : worker) : Prop := base u /\ fphase c u.

Lemma decode_result bytes l dest h h' : decode_header bytes l dest h = (Status.ok, h') ->
  h' = header_result bytes /\ forall h2, decode_header bytes l dest h2 = (Status.ok, h').
Proof.
  unfold decode_header. repeat (match goal with |- context [if ?b then _ else _] => destruct b; [done|] end).
  by intros [= <-].
Qed.
Lemma decoded_total u : base u -> decoded u -> 0 <= file_total u < 2 ^ 32 /\
  (Engine.header_ (engine_ u) = header_ u -> Engine.total (engine_ u) = file_total u).
Proof.
  intros Hb [h Hd]. destruct (decode_result _ _ _ _ _ Hd) as [Hh _]. destruct (b_header _ Hb) as [Hby Hl].
  unfold file_total, Engine.total. split.
  - rewrite Hh. cbn. assert (is_u32 (read32 (header_bytes_ u) 104)) as Hu by (apply read32_range; [done|rewrite Hl; unfold kHeaderSize; lia]).
    unfold is_u32 in Hu. case_match; lia.
  - intros ->. repeat case_match; lia.
Qed.

(** ** Calls of the source *)

Context (reads : source_reads) (contract : engine_contract).

Definition after_read (u : worker) (s : S) (st : Status) : worker := call SRead (u <| files_ := s |> <| status_ := st |>).
Lemma read_source_spec n u : exists count bytes s st, read_source source_ n u = (count, bytes, after_read u s st) /\ 0 <= count /\ bytes_ok bytes.
Proof.
  unfold read_source. pose proof (reads n (files_ u)) as Hr. destruct (src_read source_ n (files_ u)) as [[[st count] bytes] s].
  eexists count, _, s, st. split; [done|]. split; [apply Hr|]. apply Forall_take, Hr.
Qed.
Lemma file_Read_spec n u : exists ok count bytes s st, Read source_ n u = (ok, count, bytes, after_read u s st) /\ (ok = true <-> st = Status.ok) /\
  (ok = true -> 0 < count <= Z.of_nat n) /\ bytes_ok bytes.
Proof.
  unfold Read. destruct (read_source_spec n u) as (count & bytes & s & st & -> & Hc & Hb).
  change (status_ (after_read u s st)) with st. destruct (st =s? Status.ok) eqn:Es; cbn [andb].
  - assert (st = Status.ok) as -> by (by destruct st). destruct (_ || _) eqn:Eb.
    + eexists _, count, bytes, s, Status.parse_error. split; [done|]. by split_and!.
    + rewrite orb_false_iff in Eb. destruct Eb as [E1 E2]. eexists _, count, bytes, s, Status.ok. split; [done|]. split_and!; try done; lia.
  - eexists _, count, bytes, s, st. split; [done|]. cbn. rewrite Es. split_and!; try done. split; [done|]. by intros ->.
Qed.
(** Fields that no part of the invariant reads may change. *)
Lemma base_read u s st : base u -> busy_ u = true -> opened_ u = true -> base (after_read u s st).
Proof.
  intros [H1 H2 H3 H4 H5 H6 H7] Hb Ho. split; try done. change (src_run (trace_ u ++ [SRead]) = Some (holding u)).
  rewrite src_run_snoc, H5. unfold holding. by rewrite Hb, Ho.
Qed.
Lemma base_close u s : base u -> busy_ u = true -> opened_ u = true -> base (call SClose (u <| files_ := s |> <| opened_ := false |>)).
Proof.
  intros [H1 H2 H3 H4 H5 H6 H7] Hb Ho. split; try done. change (src_run (trace_ u ++ [SClose]) = Some (holding (u <| opened_ := false |>))).
  rewrite src_run_snoc, H5. unfold holding. cbn. by rewrite Hb, Ho.
Qed.
(** Only these fields matter to [base]. *)
Lemma base_ext u u' : engine_ u' = engine_ u -> device_ u' = device_ u -> reader_ u' = reader_ u -> trace_ u' = trace_ u -> busy_ u' = busy_ u -> opened_ u' = opened_ u ->
  bytes_ok (header_bytes_ u') /\ length (header_bytes_ u') = kHeaderSize -> bytes_ok (buffer_ u') /\ length (buffer_ u') = kBlockSize -> base u -> base u'.
Proof.
  intros He Hd Hr Ht Hb Ho Hh Hbu [H1 H2 H3 H4 H5 H6 H7]. split; rewrite ?He, ?Hd, ?Hr, ?Ht, ?Hb; try done. unfold holding. by rewrite Hb, Ho.
Qed.
Ltac keep_base Hb := match type of Hb with base ?u => apply (base_ext u) end; [reflexivity|reflexivity|reflexivity|reflexivity|reflexivity|reflexivity|apply Hb|apply Hb|exact Hb].

(** ** The steps keep the invariant *)

Definition steps_to (x : FileState.State * worker) : Prop := finv (fst x) (snd x).
Lemma to_cleanup u : base u -> busy_ u = true -> requested_ u = false -> status_ u <> Status.ok -> steps_to (FileState.cleanup, u).
Proof. intros Hb Hbu Hr Hs. split; [done|]. split; [done|]. by intros E%Hs. Qed.
Lemma status_not_ok st : (st =s? Status.ok) = false -> st <> Status.ok.
Proof. by intros H ->. Qed.
Lemma status_is_ok st : (st =s? Status.ok) = true -> st = Status.ok.
Proof. by destruct st. Qed.

Lemma waiting_steps c u : finv c u -> (c = FileState.idle \/ c = FileState.done \/ c = FileState.failed) -> steps_to (step_waiting c u).
Proof.
  intros [Hb Hp] Hc. unfold step_waiting. destruct (requested_ u) eqn:Er; [|by split].
  assert (opened_ u = false /\ busy_ u = requested_ u /\ (busy_ u = true -> Engine.active (engine_ u) = false /\ crc_ u = 0 /\ image_ u = [])) as (Ho & Hbu & Hq)
    by (destruct Hc as [ ->|[ ->| ->]]; by destruct Hp as (? & ? & ? & ?)).
  rewrite Er in Hbu. split; [keep_base Hb|]. cbn. by split_and!; try apply Hq.
Qed.
Lemma opening_steps u : finv FileState.opening u -> steps_to (step_opening source_ u).
Proof.
  intros [Hb ([Hbu Hr] & Ho & Hq & Hc & Hi)]. unfold step_opening. destruct (src_open source_ _ _) as [st s]. cbn zeta.
  assert (base (call (SOpen (st =s? Status.ok)) (u <| files_ := s |> <| status_ := st |> <| opened_ := st =s? Status.ok |>))) as Hb'.
  { destruct Hb as [H1 H2 H3 H4 H5 H6 H7]. split; try done. cbn. rewrite src_run_snoc, H5. unfold holding. cbn. rewrite Hbu, Ho. by destruct (st =s? _). }
  cbn [opened_ call field_update]. destruct (st =s? Status.ok) eqn:Es.
  - by split.
  - apply to_cleanup; try done. by apply status_not_ok.
Qed.
Lemma header_steps u : finv FileState.header u -> steps_to (step_header layout source_ u).
Proof.
  intros [Hb ([Hbu Hr] & Ho & Hq & Hc & Hi)]. unfold step_header.
  destruct (file_Read_spec (kHeaderSize - filled_ u) u) as (ok & count & bytes & s & st & -> & Hok & _ & Hby). cbn zeta.
  set (u1 := (after_read u s st) <| header_bytes_ := blit (filled_ u) bytes (header_bytes_ u) |>).
  assert (base u1) as H1.
  { pose proof (base_read u s st Hb Hbu Ho) as Hb'. apply (base_ext (after_read u s st)); [reflexivity..| | |exact Hb']; cbn; [|apply Hb].
    destruct (b_header _ Hb) as [? ?]. rewrite length_blit. split; [by apply Forall_blit|done]. }
  change ((after_read u s st) <| header_bytes_ := blit (filled_ (after_read u s st)) bytes (header_bytes_ (after_read u s st)) |>) with u1.
  destruct ok; cbn [negb]; [|apply to_cleanup; try done; change (st <> Status.ok); intros ->; by apply proj2 in Hok; specialize (Hok eq_refl)].
  assert (engine_ u1 = engine_ u /\ opened_ u1 = true /\ busy_ u1 = true /\ requested_ u1 = false /\ crc_ u1 = 0 /\ image_ u1 = []) as (E1 & E2 & E3 & E4 & E5 & E6) by done.
  clearbody u1. clear Hby Hok. cbn [filled_ field_update].
  match goal with |- context [if ?b then _ else _] => destruct b end; [|split; [keep_base H1|cbn; by rewrite E1]].
  unfold Engine.inspect. cbn [engine_ header_bytes_ header_ field_update]. destruct (decode_header _ _ _ _) as [st2 h] eqn:Ed.
  destruct (st2 =s? Status.ok) eqn:Es; cbn [negb]; [|apply to_cleanup; [keep_base H1|done|done|by apply status_not_ok]].
  apply status_is_ok in Es as ->. cbn [reader_ field_update].
  match goal with |- context [Package.tick [] ?r] => pose proof (reader_good_tick [] r (reader_good_start _ _ _ (b_reader _ H1))) as Hg; destruct (Package.tick [] r) as [n rd] end.
  cbn [snd] in Hg. split.
  - destruct H1 as [A1 A2 A3 A4 A5 A6 A7]. by split.
  - cbn. rewrite E1. split_and!; try done; [by exists (header_ u1)|]. unfold summed. cbn. by rewrite E5, E6.
Qed.

(** Reading into the buffer. *)
Lemma base_buffer u i bytes : bytes_ok bytes -> base u -> base (u <| buffer_ := blit i bytes (buffer_ u) |>).
Proof.
  intros Hby Hb. apply (base_ext u); [reflexivity..|apply Hb| |exact Hb]. cbn. destruct (b_buffer _ Hb) as [? ?]. rewrite length_blit.
  split; [by apply Forall_blit|done].
Qed.
Lemma base_set_reader u rd : base u -> reader_good rd -> base (u <| reader_ := rd |>).
Proof. intros [A1 A2 A3 A4 A5 A6 A7] Hg. by split. Qed.

Lemma validating_steps u : finv FileState.validating u -> steps_to (step_validating source_ u).
Proof.
  intros [Hb ([Hbu Hr] & Ho & Hq & Hd & Hs)]. unfold step_validating. pose proof (b_reader _ Hb) as Hg.
  assert (forall st, st <> Status.ok -> steps_to (FileState.cleanup, u <| status_ := st |>)) as Hfail
    by (intros; apply to_cleanup; [keep_base Hb|done..]).
  assert (steps_to (if (at_ u <? filled_ u)%nat then
        let '(consumed, reader) := Package.tick (sub (buffer_ u) (at_ u) (filled_ u - at_ u)) (reader_ u) in
        (FileState.validating, u <| reader_ := reader |> <| at_ := (at_ u + consumed)%nat |>)
      else if received_ u <? file_total u then
        let '(ok, count, bytes, u) := Read source_ (Nat.min Package.kBlockSize (Z.to_nat (file_total u - received_ u))) u in
        let u := u <| buffer_ := blit 0 bytes (buffer_ u) |> in
        if negb ok then (FileState.cleanup, u)
        else (FileState.validating, u <| received_ := u32 (received_ u + count) |> <| filled_ := Z.to_nat count |> <| at_ := 0%nat |>)
      else (FileState.cleanup, u <| status_ := Status.parse_error |>))) as Hmore.
  { destruct (_ <? _)%nat.
    - pose proof (reader_good_tick (sub (buffer_ u) (at_ u) (filled_ u - at_ u)) _ Hg) as Hg'. destruct (Package.tick _ _) as [n rd]. cbn [snd] in Hg'.
      split; [|done]. pose proof (base_set_reader u rd Hb Hg') as Hb'. keep_base Hb'.
    - destruct (_ <? _); [|by apply Hfail].
      match goal with |- context [Read source_ ?n u] => destruct (file_Read_spec n u) as (ok & count & bytes & s & st & -> & Hok & _ & Hby) end.
      cbn zeta. pose proof (base_buffer _ 0 bytes Hby (base_read u s st Hb Hbu Ho)) as Hb'. destruct ok; cbn [negb].
      + split; [keep_base Hb'|done].
      + apply to_cleanup; [exact Hb'|done|done|]. change (st <> Status.ok). intros ->. by apply proj2 in Hok; specialize (Hok eq_refl). }
  destruct (Package.state (reader_ u)) eqn:Es; try exact Hmore; clear Hmore.
  - cbn [reader_ field_update]. pose proof (reader_good_tick [] _ (reader_good_release _ Hg)) as Hg'.
    destruct (Package.tick [] _) as [n rd]. cbn [snd] in Hg'. split.
    + pose proof (base_set_reader u rd Hb Hg') as Hb'. keep_base Hb'.
    + cbn. split_and!; try done. unfold summed in *. cbn. rewrite Hs. unfold crc32_calculate. by rewrite crc32_update_app.
  - match goal with |- context [if ?b then _ else _] => destruct b eqn:E1; [by apply Hfail|] end.
    match goal with |- context [if ?b then _ else _] => destruct b eqn:E2; [by apply Hfail|] end. split; [done|]. cbn. split_and!; try done. split; [done|].
    rewrite orb_false_iff, !negb_false_iff in E1. apply negb_false_iff in E2. rewrite <- Hs. split; [by apply Z.eqb_eq|by apply Z.eqb_eq, E1].
  - apply Hfail. by apply Hg.
Qed.

(** The states in which the package is known to be valid. *)
Lemma validated_ext u u' : header_bytes_ u' = header_bytes_ u -> header_ u' = header_ u -> image_ u' = image_ u -> received_ u' = received_ u ->
  file_destination u' = file_destination u -> validated u -> validated u'.
Proof. intros H1 H2 H3 H4 H5. unfold validated, decoded, file_total. by rewrite H1, H2, H3, H4, H5. Qed.
Lemma read_end_spec u : base u -> busy_ u = true -> opened_ u = true ->
  exists bytes s st, read_end source_ u = (bytes, after_read u s st) /\ base (after_read u s st) /\ bytes_ok bytes.
Proof.
  intros Hb Hbu Ho. unfold read_end. destruct (read_source_spec 1 u) as (count & bytes & s & st & -> & _ & Hby).
  destruct (_ && _); [exists bytes, s, Status.parse_error|exists bytes, s, st]; (split; [done|]); (split; [by apply base_read|done]).
Qed.
Lemma eof_steps u : finv FileState.eof u -> steps_to (step_eof source_ u).
Proof.
  intros [Hb ([Hbu Hr] & Ho & Hq & Hv)]. unfold step_eof. destruct (read_end_spec u Hb Hbu Ho) as (bytes & s & st & -> & Hb' & Hby).
  pose proof (base_buffer _ 0 bytes Hby Hb') as Hb2. change (status_ (after_read u s st)) with st. destruct (st =s? Status.ok) eqn:Es.
  - by split.
  - apply to_cleanup; [exact Hb2|done|done|]. by apply status_not_ok.
Qed.
Lemma prepared_steps u : finv FileState.prepared u -> steps_to (step_prepared u).
Proof. intros [Hb Hp]. unfold step_prepared. destruct (install_requested_ u); [|by split]. split; [keep_base Hb|exact Hp]. Qed.
Lemma rewind_steps u : finv FileState.rewind u -> steps_to (step_rewind source_ u).
Proof.
  intros [Hb ([Hbu Hr] & Ho & Hq & Hv)]. unfold step_rewind. destruct (src_seek source_ 0 (files_ u)) as [st s]. cbn zeta.
  assert (base (call SSeek (u <| files_ := s |> <| status_ := st |>))) as Hb'.
  { destruct Hb as [H1 H2 H3 H4 H5 H6 H7]. split; try done. cbn. rewrite src_run_snoc, H5. unfold holding. cbn. by rewrite Hbu, Ho. }
  destruct (st =s? Status.ok) eqn:Es; [by split|]. apply to_cleanup; try done. by apply status_not_ok.
Qed.
Lemma checking_steps u : finv FileState.checking u -> steps_to (step_checking source_ u).
Proof.
  intros [Hb ([Hbu Hr] & Ho & Hq & Hv)]. unfold step_checking.
  destruct (file_Read_spec (kHeaderSize - filled_ u) u) as (ok & count & bytes & s & st & -> & Hok & _ & Hby). cbn zeta.
  pose proof (base_buffer _ (filled_ u) bytes Hby (base_read u s st Hb Hbu Ho)) as Hb'. destruct ok; cbn [negb].
  - match goal with |- context [if ?b then _ else _] => destruct b end; [|split; [keep_base Hb'|done]].
    match goal with |- context [if ?b then _ else _] => destruct b end; [apply to_cleanup; [keep_base Hb'|done..]|split; [keep_base Hb'|done]].
  - apply to_cleanup; [exact Hb'|done|done|]. change (st <> Status.ok). intros ->. by apply proj2 in Hok; specialize (Hok eq_refl).
Qed.

Lemma base_set_engine u e d : base u -> busy_ u = true -> engine_sound e -> owner_ e = Some self -> I e d -> base (u <| engine_ := e |> <| device_ := d |>).
Proof. intros [A1 A2 A3 A4 A5 A6 A7] Hb Hs Ho HI. split; try done. cbn. by rewrite Hb. Qed.
Lemma owned u : base u -> busy_ u = true -> owner_ (engine_ u) = Some self.
Proof. intros Hb Hbu. pose proof (b_owner _ Hb) as H. by rewrite Hbu in H. Qed.
Lemma validated_decode u bytes h h' : validated u -> bytes = header_bytes_ u ->
  decode_header bytes layout (file_destination u) h = (Status.ok, h') -> h' = header_ u.
Proof. intros [[h0 Hd] _] -> Hh. destruct (decode_result _ _ _ _ _ Hd) as [-> _]. by destruct (decode_result _ _ _ _ _ Hh) as [-> _]. Qed.

Lemma starting_steps u : finv FileState.starting u -> steps_to (step_starting F layout self u).
Proof.
  intros [Hb ([Hbu Hr] & Ho & Hq & Hv)]. unfold step_starting.
  pose proof (engine_begin_cases F layout (header_bytes_ u) (Some self) (engine_ u) (device_ u)) as Hc.
  pose proof (begin_sound F layout (header_bytes_ u) (Some self) (engine_ u) (device_ u) (b_engine _ Hb)) as Hs.
  pose proof (ec_call contract (CallBegin (header_bytes_ u) (Some self)) _ _ (proj1 (b_header _ Hb)) (b_inv _ Hb)) as HI. unfold others, perform in HI.
  destruct (Engine.begin _ _ _ _ _ _) as [[st e] d]. cbn [fst snd] in Hs, HI. destruct Hc as (Hm & How & Hsl & _ & _ & Hc). cbn zeta.
  assert (base (u <| engine_ := e |> <| device_ := d |>)) as Hb' by (apply base_set_engine; try done; rewrite How; by apply owned).
  cbn [installing_ field_update]. destruct (st =s? Status.ok) eqn:Es.
  - apply status_is_ok in Es as ->. destruct Hc as [[? _]|(_ & _ & _ & Hre & _ & h & Hd)]; [done|]. split; [keep_base Hb'|]. cbn.
    split; [done|]. split.
    { apply (validated_ext u); try done. unfold file_destination, Engine.destination. cbn. by rewrite Hsl. }
    split; [exact (validated_decode u _ h _ Hv eq_refl Hd)|]. split; [left; by left|]. split; [by left|]. intros _ E. by rewrite Hre in E.
  - apply to_cleanup; [keep_base Hb'|done|done|]. by apply status_not_ok.
Qed.

(** ** Installing *)

(** What the second pass relies on, apart from the file being open. *)
Definition streaming (u : worker) : Prop :=
  base u /\ busy_ u = true /\ requested_ u = false /\ validated u /\ Engine.header_ (engine_ u) = header_ u /\ Engine.active (engine_ u) = true.
Lemma streaming_ext u u' : engine_ u' = engine_ u -> requested_ u' = requested_ u -> busy_ u' = busy_ u -> header_bytes_ u' = header_bytes_ u ->
  header_ u' = header_ u -> image_ u' = image_ u -> received_ u' = received_ u -> base u' -> streaming u -> streaming u'.
Proof.
  intros He Hq Hb Hhb Hh Hi Hr Hb' (_ & H2 & H3 & H4 & H5 & H6). unfold streaming. rewrite He, Hq, Hb, Hh. split_and!; try done.
  apply (validated_ext u); try done. unfold file_destination. by rewrite He.
Qed.
Lemma streaming_fails u : streaming u -> status_ u <> Status.ok -> steps_to (FileState.cleanup, u).
Proof. intros (Hb & Hbu & Hr & _) Hs. by apply to_cleanup. Qed.

Lemma finish_file_spec u : streaming u -> opened_ u = true -> exists ok u', finish_file source_ u = (ok, u') /\ streaming u' /\
  engine_ u' = engine_ u /\ buffer_ u' = buffer_ u /\ (ok = false -> status_ u' <> Status.ok).
Proof.
  intros Hs Ho. pose proof Hs as (Hb & Hbu & _). unfold finish_file. destruct (read_end_spec u Hb Hbu Ho) as (bytes & s & st & -> & Hb' & _).
  change (status_ (after_read u s st)) with st. assert (streaming (after_read u s st)) as Hs' by (by apply (streaming_ext u)).
  destruct (st =s? Status.ok) eqn:Es; cbn [negb].
  - unfold close_source. destruct (src_close source_ _) as [st2 s2]. pose proof (base_close _ s2 Hb' Hbu Ho) as Hb2.
    eexists _, _. split; [done|]. split; [|split; [done|split; [done|]]].
    + apply (streaming_ext (after_read u s st)); try done. keep_base Hb2.
    + intros Hs2. cbn. by apply status_not_ok.
  - eexists _, _. split; [done|]. split; [done|]. split; [done|]. split; [done|]. intros _. by apply status_not_ok.
Qed.

Lemma active_done_ok e d : Engine.active e = true -> done_ok e d.
Proof. intros Ha Hd Hq. unfold Engine.active, in_state in Ha. by rewrite Hq, Hd in Ha. Qed.
Lemma chunk_steps u count left : streaming u -> opened_ u = true \/ count = left -> left = u32 (Engine.total (engine_ u) - Engine.received_ (engine_ u)) ->
  0 < count <= Z.of_nat kBlockSize ->
  let bytes := take (Z.to_nat count) (buffer_ u) in
  steps_to (let '(status, e) := Engine.chunk crc_service (Engine.received_ (engine_ u)) bytes (crc32_calculate bytes) (engine_ u) in
            let u := u <| engine_ := e |> <| status_ := status |> in
            (if status =s? Status.ok then FileState.installing else FileState.cleanup, u)).
Proof.
  intros (Hb & Hbu & Hr & Hv & Hh & Hact) Hop Hleft Hc bytes. set (off := Engine.received_ (engine_ u)). set (crc := crc32_calculate bytes).
  pose proof (owned_undisturbed F layout crc_service inactivity_ self (CallChunk off bytes crc) (engine_ u) (device_ u) (b_engine _ Hb) (owned u Hb Hbu) Logic.I) as Hun.
  assert (bytes_ok bytes) as Hby by (apply Forall_take, (b_buffer _ Hb)).
  pose proof (ec_call contract (CallChunk off bytes crc) _ _ Hby (b_inv _ Hb)) as HI.
  unfold others, perform in Hun, HI. cbn [fst snd] in Hun, HI.
  assert (length bytes = Z.to_nat count) as Hlen by (unfold bytes; rewrite length_take, (proj2 (b_buffer _ Hb)); lia).
  destruct (decoded_total u Hb (proj1 Hv)) as [Ht1 Ht2]. specialize (Ht2 Hh).
  assert (count = left -> fst (Engine.chunk crc_service off bytes crc (engine_ u)) = Status.ok ->
    Engine.received_ (snd (Engine.chunk crc_service off bytes crc (engine_ u))) = Engine.total (engine_ u)) as Hfin.
  { intros -> . unfold Engine.chunk. repeat (match goal with |- context [if ?b then _ else _] => destruct b; [done|] end). intros _. cbn.
    rewrite Hlen, Z2Nat.id by lia. rewrite Hleft. unfold u32. rewrite Zplus_mod_idemp_r, Zplus_minus, Ht2. apply Z.mod_small. lia. }
  assert (Engine.active (snd (Engine.chunk crc_service off bytes crc (engine_ u))) = true) as Hact'.
  { unfold Engine.chunk. repeat (match goal with |- context [if ?b then _ else _] => destruct b; [done|] end). exact Hact. }
  destruct (Engine.chunk crc_service off bytes crc (engine_ u)) as [st e]. cbn [fst snd] in *. cbn zeta. destruct Hun as [U1 U2 U3 U4 _ _ _ U8].
  pose proof (base_set_engine u e (device_ u) Hb Hbu U1 (eq_trans U2 (owned u Hb Hbu)) HI) as Hb'. destruct (st =s? Status.ok) eqn:Es.
  - apply status_is_ok in Es as ->. split; [keep_base Hb'|]. cbn. split; [done|]. split.
    { apply (validated_ext u); try done. unfold file_destination, Engine.destination. cbn. by rewrite U3. }
    split; [by rewrite U4|]. split; [apply U8, active_working, Hact|]. split; [|by apply active_done_ok]. destruct Hop as [Hop|Hop]; [by left|right].
    rewrite (Hfin Hop eq_refl). unfold Engine.total. by rewrite U4.
  - apply to_cleanup; [keep_base Hb'|done|done|]. by apply status_not_ok.
Qed.
Lemma installing_steps u : finv FileState.installing u -> steps_to (step_installing crc_service source_ u).
Proof.
  intros [Hb ([Hbu Hr] & Hv & Hh & Hw & Hop & Hdn)]. unfold step_installing. cbn zeta.
  set (u1 := u <| installed_ := Engine.received_ (engine_ u) |>). change (engine_ u1) with (engine_ u).
  assert (base u1) as Hb1 by keep_base Hb. destruct (Engine.active (engine_ u)) eqn:Eact; cbn [negb].
  2: { split; [keep_base Hb1|]. split; [done|]. cbn. intros Hst. destruct Hw as [Hw|Hw]; [apply active_working in Hw; by rewrite Hw in Eact|].
       assert (Engine.state (engine_ u) = EngineState.done) as Hed by (destruct Hw as [_ [[E _]|[_ E]]]; [exact E|by rewrite Hst in E]).
       split_and!; try done. apply Hdn; [done|apply Hw]. }
  assert (streaming u1) as Hs1 by (by split_and!). destruct (ready (engine_ u)) eqn:Erd; [|by split].
  assert (opened_ u1 = true) as Ho1.
  { destruct Hop as [Hop|Hop]; [done|]. unfold ready in Erd. rewrite !andb_true_iff in Erd. destruct Erd as [[_ Erd] _]. apply Z.ltb_lt in Erd. lia. }
  set (left := u32 (Engine.total (engine_ u) - Engine.received_ (engine_ u))).
  match goal with |- context [Read source_ ?n u1] => destruct (file_Read_spec n u1) as (ok & count & bytes & s & st & -> & Hok & Hcount & Hby) end.
  pose proof (base_buffer _ 0 bytes Hby (base_read u1 s st Hb1 Hbu Ho1)) as Hb2. set (u2 := (after_read u1 s st) <| buffer_ := _ |>) in *.
  assert (streaming u2) as Hs2 by (by apply (streaming_ext u1)).
  destruct ok; cbn [negb]; [|apply streaming_fails; [done|]; change (st <> Status.ok); intros ->; by apply proj2 in Hok; specialize (Hok eq_refl)].
  specialize (Hcount eq_refl). assert (0 < count <= Z.of_nat kBlockSize) as Hc by lia.
  destruct (count =? left) eqn:El.
  - apply Z.eqb_eq in El. destruct (finish_file_spec u2 Hs2 Ho1) as (ok & u3 & -> & Hs3 & He3 & Hbf3 & Hf3). destruct ok; cbn [negb]; [|by apply streaming_fails; auto].
    apply (chunk_steps u3 count left); try done; [by right|by rewrite He3].
  - cbn [negb]. apply (chunk_steps u2 count left); try done. by left.
Qed.

(** ** Cleaning up *)

Lemma closed_spec u : base u -> busy_ u = true -> requested_ u = false -> exists u',
  (if opened_ u then let '(result, u) := close_source source_ u in if status_ u =s? Status.ok then u <| status_ := result |> else u else u) = u' /\
  base u' /\ busy_ u' = true /\ requested_ u' = false /\ opened_ u' = false /\ engine_ u' = engine_ u /\ (status_ u' = Status.ok -> status_ u = Status.ok) /\
  header_ u' = header_ u /\ header_bytes_ u' = header_bytes_ u /\ image_ u' = image_ u /\ received_ u' = received_ u /\ device_ u' = device_ u.
Proof.
  intros Hb Hbu Hr. eexists. split; [done|]. destruct (opened_ u) eqn:Ho; [|by split_and!]. unfold close_source. destruct (src_close source_ _) as [st s].
  pose proof (base_close u s Hb Hbu Ho) as Hb'. change (status_ (call SClose (u <| files_ := s |> <| opened_ := false |>))) with (status_ u).
  destruct (status_ u =s? Status.ok) eqn:Es; (split_and!; try done); [keep_base Hb'|intros _; by apply status_is_ok].
Qed.
Lemma base_release u s : base u -> busy_ u = true -> opened_ u = false -> Engine.active (engine_ u) = false ->
  base (call SRelease (u <| files_ := s |> <| engine_ := Engine.release (Some self) (engine_ u) |> <| cancel_requested_ := false |> <| busy_ := false |>)).
Proof.
  intros Hb Hbu Ho Hact. pose proof (owned u Hb Hbu) as How. pose proof (ec_call contract (CallRelease (Some self)) _ _ Logic.I (b_inv _ Hb)) as HI. destruct Hb as [H1 H2 H3 H4 H5 H6 H7]. split; try done; cbn.
  - unfold Engine.release. rewrite Hact, How, bool_decide_eq_true_2 by done. exact H1.
  - rewrite src_run_snoc, H5. unfold holding. cbn. by rewrite Hbu, Ho.
  - unfold Engine.release. rewrite Hact, How, bool_decide_eq_true_2 by done. done.
Qed.
Lemma cleanup_steps u : finv FileState.cleanup u -> steps_to (step_cleanup source_ self u).
Proof.
  intros [Hb ([Hbu Hr] & Hst)]. unfold step_cleanup. destruct (Engine.active (engine_ u)) eqn:Eact.
  - assert (status_ u <> Status.ok) as Hns by (intros E; destruct (Hst E) as (_ & _ & _ & Hov & _); apply over_not_active in Hov; by rewrite Hov in Eact).
    pose proof (owned_undisturbed F layout crc_service inactivity_ self (CallAbort (status_ u)) (engine_ u) (device_ u) (b_engine _ Hb) (owned u Hb Hbu) Hns) as [U1 U2 _ _ _ _ _ _].
    pose proof (base_set_engine u _ (device_ u) Hb Hbu U1 (eq_trans U2 (owned u Hb Hbu)) (ec_call contract (CallAbort (status_ u)) _ _ Logic.I (b_inv _ Hb))) as Hb'. apply to_cleanup; [keep_base Hb'|done..].
  - destruct (closed_spec u Hb Hbu Hr) as (u1 & -> & Hb1 & Hbu1 & Hr1 & Ho1 & He1 & _). cbn zeta.
    assert (Engine.active (engine_ u1) = false) as Ha1 by (by rewrite He1).
    pose proof (base_release u1 (src_release source_ (files_ u1)) Hb1 Hbu1 Ho1 Ha1) as Hb2.
    match goal with |- steps_to (if ?b then _ else _, _) => destruct b end; (split; [exact Hb2|by split_and!]).
Qed.
(** Success: the engine has committed the package that was validated. *)
Lemma cleanup_done u : finv FileState.cleanup u -> fst (step_cleanup source_ self u) = FileState.done ->
  let u' := snd (step_cleanup source_ self u) in
  status_ u = Status.ok /\ Engine.active (engine_ u) = false /\ device_ u' = device_ u /\ engine_ u' = Engine.release (Some self) (engine_ u) /\ busy_ u' = false /\
  validated u' /\ Engine.header_ (engine_ u') = header_ u' /\ Engine.state (engine_ u') = EngineState.done /\ Engine.status_ (engine_ u') = Status.ok /\ C (engine_ u) (device_ u).
Proof.
  intros [Hb ([Hbu Hr] & Hst)]. unfold step_cleanup. destruct (Engine.active (engine_ u)) eqn:Eact; [done|].
  destruct (closed_spec u Hb Hbu Hr) as (u1 & -> & Hb1 & Hbu1 & Hr1 & Ho1 & He1 & Hs1 & E1 & E2 & E3 & E4 & E5). cbn zeta.
  set (u2 := call SRelease _). change (status_ u2) with (status_ u1). destruct (status_ u1 =s? Status.ok) eqn:Es; [|done]. intros _. cbn [snd].
  destruct (Hst (Hs1 (status_is_ok _ Es))) as (Hv & Hh & Hd & [_ Hov] & HC).
  assert (Engine.header_ (engine_ u2) = Engine.header_ (engine_ u) /\ Engine.machine_ (engine_ u2) = Engine.machine_ (engine_ u) /\
    Engine.status_ (engine_ u2) = Engine.status_ (engine_ u) /\ running_slot_ (engine_ u2) = running_slot_ (engine_ u)) as (F1 & F2 & F3 & F4).
  { cbn. rewrite He1. unfold Engine.release. by destruct (_ && _). }
  split; [exact (Hs1 (status_is_ok _ Es))|]. split; [done|]. split; [exact E5|]. split; [cbn; by rewrite He1|]. split; [done|].
  split. { apply (validated_ext u); try done. unfold file_destination, Engine.destination. by rewrite F4. }
  split; [rewrite F1, Hh; symmetry; exact E1|]. unfold Engine.state in *. rewrite F2, F3, Hd. split; [done|].
  destruct Hov as [[_ Hov]|[Hf _]]; [done|]. by rewrite Hf in Hd.
Qed.

(** ** Every history *)

Lemma cancel_busy c u : fphase c u -> cancel_requested_ u = true -> busy_ u = true.
Proof. destruct c; cbn; try (intros ([H _] & _) _; exact H); intros (_ & _ & _ & H); exact H. Qed.
Abbreviation file_step := (FileUpdate.Step F layout crc_service source_ self).
Lemma Step_steps c u : finv c u -> steps_to (file_step c u).
Proof.
  intros Hi. unfold FileUpdate.Step. destruct (_ && _) eqn:Ec.
  - destruct Hi as [Hb Hp]. apply andb_prop in Ec as [Hcr _]. apply to_cleanup; [keep_base Hb| |done|done]. exact (cancel_busy c u Hp Hcr).
  - destruct c; [by apply waiting_steps; auto|by apply opening_steps|by apply header_steps|by apply validating_steps|by apply eof_steps|by apply prepared_steps|
      by apply rewind_steps|by apply checking_steps|by apply starting_steps|by apply installing_steps|by apply cleanup_steps|
      by apply waiting_steps; auto|by apply waiting_steps; auto].
Qed.
Lemma Read_machine n (u : worker) : fmachine_ (snd (Read source_ n u)) = fmachine_ u.
Proof. unfold Read, read_source. destruct (src_read _ _ _) as [[[st c] b] s]. by destruct (_ && _). Qed.
Lemma read_end_machine (u : worker) : fmachine_ (snd (read_end source_ u)) = fmachine_ u.
Proof. unfold read_end, read_source. destruct (src_read _ _ _) as [[[st c] b] s]. by destruct (_ && _). Qed.
Lemma finish_file_machine (u : worker) : fmachine_ (snd (finish_file source_ u)) = fmachine_ u.
Proof.
  unfold finish_file. pose proof (read_end_machine u) as H. destruct (read_end source_ u) as [b v]. cbn in H. destruct (negb _); [done|].
  unfold close_source. by destruct (src_close _ _).
Qed.
Ltac read_step := match goal with |- context [Read source_ ?n ?v] => pose proof (Read_machine n v) as Hm; destruct (Read source_ n v) as [[[ok count] bytes] v1]; cbn in Hm |- * end.
Ltac branches := repeat (match goal with |- context [if ?b then _ else _] => destruct b | |- context [let '(_, _) := ?x in _] => destruct x end; cbn); try done.
Lemma file_Step_frame c u : fmachine_ (snd (file_step c u)) = fmachine_ u.
Proof.
  unfold FileUpdate.Step. destruct (_ && _); [done|]. destruct c.
  - unfold step_waiting. branches.
  - unfold step_opening. branches.
  - unfold step_header. read_step. branches.
  - unfold step_validating. destruct (Package.state _).
    1-4: (destruct (at_ u <? filled_ u)%nat; [branches|]; destruct (received_ u <? file_total u); [read_step; branches|done]).
    all: branches.
  - unfold step_eof. pose proof (read_end_machine u) as H. by destruct (read_end source_ u).
  - unfold step_prepared. branches.
  - unfold step_rewind. branches.
  - unfold step_checking. read_step. branches.
  - unfold step_starting. destruct (Engine.begin _ _ _ _ _ _) as [[st e] d]. done.
  - unfold step_installing. cbn zeta. do 2 (match goal with |- context [if ?b then _ else _] => destruct b; [try done|try done] end).
    read_step. destruct ok; cbn [negb]; [|done]. destruct (count =? _).
    + match goal with |- context [finish_file source_ ?v] => pose proof (finish_file_machine v) as Hf; destruct (finish_file source_ v) as [ok2 v2] end. cbn in Hf |- *.
      rewrite <- Hm, <- Hf. branches.
    + cbn. rewrite <- Hm. branches.
  - unfold step_cleanup. destruct (Engine.active _); [done|]. destruct (opened_ u); [|done]. unfold close_source. destruct (src_close _ _) as [st s]. cbn zeta.
    match goal with |- context [if ?b then (call _ _) <| status_ := _ |> else _] => by destruct b end.
  - unfold step_waiting. branches.
  - unfold step_waiting. branches.
Qed.

Definition file_inv (u : worker) : Prop := ticking_ (fmachine_ u) = false /\ finv (file_state u) u.
(** The worker as a step finds it. *)
Definition stepping (u : worker) : worker := with_machine (pre_machine (fmachine_ u)) u.
Lemma file_tick u : ticking_ (fmachine_ u) = false -> exists m,
  utick u = (snd (file_step (file_state u) (stepping u))) <| fmachine_ := m |> /\ cs m = fst (file_step (file_state u) (stepping u)) /\ ticking_ m = false.
Proof.
  intros Ht. assert (forall s (w : worker), machine (snd (file_step s w)) = machine w) as Hframe by exact file_Step_frame.
  unfold FileUpdate.tick. rewrite (tick_step_only file_step Hframe u Ht).
  set (x := file_step (file_state u) (stepping u)). exists (post_machine (fst x) (fmachine_ u)).
  split; [|split; [rewrite cs_post_machine; by destruct (fst x)|done]].
  match goal with |- snd (let '(_, _) := ?y in _) = _ => change y with x end. by destruct x as [ns u1].
Qed.
Lemma file_inv_machine c u m : finv c u -> finv c (u <| fmachine_ := m |>).
Proof. intros [Hb Hp]. split; [keep_base Hb|exact Hp]. Qed.
Lemma file_tick_inv u : file_inv u -> file_inv (utick u).
Proof.
  intros [Ht Hi]. destruct (file_tick u Ht) as (m & -> & Hm & Hn). split; [done|]. unfold file_state at 1. cbn [fmachine_ field_update]. rewrite Hm.
  apply file_inv_machine. apply (Step_steps (file_state u) (stepping u)). by apply file_inv_machine.
Qed.

Lemma released e : Engine.active e = false -> owner_ (Engine.release (Some self) (e <| owner_ := Some self |>)) <> Some self.
Proof.
  intros Ha. unfold Engine.release. cbn [owner_ field_update]. rewrite bool_decide_eq_true_2 by done.
  change (Engine.active _) with (Engine.active e). by rewrite Ha.
Qed.
Lemma prepare_inv path u : file_inv u -> file_inv (snd (prepare source_ source_set self path u)).
Proof.
  intros [Ht [Hb Hp]]. unfold prepare. destruct (busy_ u) eqn:Hbu; [by split|]. destruct (negb source_set); [by split|].
  match goal with |- context [if ?b then _ else _] => destruct b; [by split|] end.
  assert (opened_ u = false /\ requested_ u = false /\ (file_state u = FileState.idle \/ file_state u = FileState.done \/ file_state u = FileState.failed)) as (Ho & Hr & Hst).
  { destruct (file_state u); cbn in Hp; try (destruct Hp as ([Hx _] & _); by rewrite Hx in Hbu); destruct Hp as (? & Hx & _); rewrite Hbu in Hx; auto. }
  pose proof (ec_call contract (CallReserve (Some self)) _ _ Logic.I (b_inv _ Hb)) as HI. unfold others, perform in HI. unfold Engine.reserve in HI |- *.
  destruct (_ || _) eqn:Eres; [split; [done|]; split; [keep_base Hb|exact Hp]|]. cbn [negb]. cbn [fst snd] in HI.
  pose proof (ec_call contract (CallRelease (Some self)) _ _ Logic.I HI) as HI2.
  destruct Hb as [H1 H2 H3 H4 H5 H6 H7]. rewrite Hbu in H6.
  apply orb_false_iff in Eres as [Eres Eact]. destruct (src_reserve source_ _) as [st s]. cbn zeta. destruct (st =s? Status.ok) eqn:Es; cbn [negb].
  - split; [done|]. split.
    + split; [exact H1|exact H2|exact H3|exact H4| |reflexivity|exact HI].
      change (src_run (trace_ u ++ [SReserve true]) = Some (if opened_ u then SOpened else SHeld)).
      rewrite src_run_snoc, H5. unfold holding. by rewrite Hbu, Ho.
    + match goal with |- fphase _ ?v => change (fphase (file_state u) v) end. destruct Hst as [ ->|[ ->| ->]]; by split_and!.
  - split; [done|]. split.
    + split; [|exact H2|exact H3|exact H4| | |exact HI2].
      * cbn. unfold Engine.release. destruct (_ && _); exact H1.
      * change (src_run (trace_ u ++ [SReserve false]) = Some (holding u)). rewrite src_run_snoc, H5. unfold holding. by rewrite Hbu.
      * match goal with |- if _ then _ else owner_ (engine_ ?v) <> _ => change (if busy_ u then owner_ (engine_ v) = Some self else owner_ (engine_ v) <> Some self) end.
        rewrite Hbu. apply released. exact Eact.
    + match goal with |- fphase _ ?v => change (fphase (file_state u) v) end.
      destruct Hst as [E|[E|E]]; rewrite E in Hp |- *; destruct Hp as (P1 & P2 & P3 & P4);
        (split; [exact P1|]; split; [exact P2|]; split; [intros H; change (busy_ u = true) in H; by rewrite Hbu in H|exact P4]).
Qed.
Lemma install_inv u : file_inv u -> file_inv (snd (install u)).
Proof.
  intros [Ht [Hb Hp]]. unfold install. destruct (negb (bool_decide (file_state u = FileState.prepared))) eqn:Es; [by split|].
  apply negb_false_iff, bool_decide_eq_true in Es. destruct (_ || _); [by split|]. destruct (install_requested_ u); [by split|].
  split; [done|]. split; [keep_base Hb|]. change (file_state (snd (Status.ok, u <| install_requested_ := true |>))) with (file_state u). rewrite Es in *. exact Hp.
Qed.
Lemma cancel_inv u : file_inv u -> file_inv (cancel u).
Proof.
  intros [Ht [Hb Hp]]. unfold cancel. destruct (_ && _) eqn:Ec; [|by split]. rewrite !andb_true_iff in Ec. destruct Ec as [[Hbu _] _].
  split; [done|]. split; [keep_base Hb|]. change (file_state (u <| cancel_requested_ := true |>)) with (file_state u).
  destruct (file_state u); try exact Hp; destruct Hp as (P1 & P2 & P3 & _); by split_and!.
Qed.

(** Another's call of the engine. *)
Lemma decoded_slot (u : worker) e d : running_slot_ e = running_slot_ (engine_ u) -> file_destination (u <| engine_ := e |> <| device_ := d |>) = file_destination u.
Proof. intros H. unfold file_destination, Engine.destination. cbn. by rewrite H. Qed.
Lemma others_phase c (u : worker) e d : busy_ u = true -> undisturbed (engine_ u) e -> (done_ok (engine_ u) (device_ u) -> done_ok e d) -> fphase c u -> fphase c (u <| engine_ := e |> <| device_ := d |>).
Proof.
  intros Hbu [U1 U2 U3 U4 U5 U6 U7 U8] Hdo Hp. pose proof (decoded_slot u e d U3) as Hdest.
  assert (validated u -> validated (u <| engine_ := e |> <| device_ := d |>)) as Hval by (by apply validated_ext).
  destruct c; cbn in Hp |- *.
  - destruct Hp as (P1 & P2 & P3 & P4). split_and!; try done. intros H. destruct (P3 H) as (A & ? & ?). split_and!; try done. auto.
  - destruct Hp as (P1 & P2 & P3 & P4 & P5). split_and!; try done; try apply P1. auto.
  - destruct Hp as (P1 & P2 & P3 & P4 & P5). split_and!; try done; try apply P1. auto.
  - destruct Hp as (P1 & P2 & P3 & P4 & P5). split_and!; try done; try apply P1; [auto|]. unfold decoded in *. by rewrite Hdest.
  - destruct Hp as (P1 & P2 & P3 & P4). split_and!; try done; try apply P1; auto.
  - destruct Hp as (P1 & P2 & P3 & P4). split_and!; try done; try apply P1; auto.
  - destruct Hp as (P1 & P2 & P3 & P4). split_and!; try done; try apply P1; auto.
  - destruct Hp as (P1 & P2 & P3 & P4). split_and!; try done; try apply P1; auto.
  - destruct Hp as (P1 & P2 & P3 & P4). split_and!; try done; try apply P1; auto.
  - destruct Hp as (P1 & P2 & P3 & P4 & P5 & P6). split; [exact P1|]. split; [auto|]. split; [by rewrite U4|]. split; [|split; [|exact (Hdo P6)]].
    + destruct P4 as [P4|P4]; [exact (U8 P4)|right; exact (proj1 (U7 P4))].
    + destruct P5 as [P5|P5]; [by left|right; exact (U5 P5)].
  - destruct Hp as (P1 & P2). split; [exact P1|]. intros Hst. destruct (P2 Hst) as (V & Hh & Hd & Hov & HC). split; [auto|]. split; [by rewrite U4|].
    destruct (U7 Hov) as [Hov' Hs']. split; [exact (eq_trans Hs' Hd)|]. split; [exact Hov'|].
    apply Hdo; [by intros _ _|exact (eq_trans Hs' Hd)|apply Hov'].
  - destruct Hp as (P1 & P2 & P3 & P4). split_and!; try done. intros H. destruct (P3 H) as (A & ? & ?). split_and!; try done. auto.
  - destruct Hp as (P1 & P2 & P3 & P4). split_and!; try done. intros H. destruct (P3 H) as (A & ? & ?). split_and!; try done. auto.
Qed.
Lemma engine_call_inv c u : file_inv u -> other_call self c -> call_ok c ->
  file_inv (u <| engine_ := fst (others F layout crc_service inactivity_ c (engine_ u) (device_ u)) |>
              <| device_ := snd (others F layout crc_service inactivity_ c (engine_ u) (device_ u)) |>).
Proof.
  intros [Ht [Hb Hp]] Hc Hok. pose proof (ec_call contract c _ _ Hok (b_inv _ Hb)) as HI. set (x := others _ _ _ _ c _ _). assert (x = others F layout crc_service inactivity_ c (engine_ u) (device_ u)) as Ex by done. rewrite <- Ex in HI. clearbody x.
  split; [done|]. change (file_state _) with (file_state u) at 1. destruct (busy_ u) eqn:Hbu.
  - pose proof (owned_undisturbed F layout crc_service inactivity_ self c (engine_ u) (device_ u) (b_engine _ Hb) (owned u Hb Hbu) Hc) as Hun.
    pose proof (ec_committed contract c _ _ (b_engine _ Hb) (b_inv _ Hb) (owned u Hb Hbu) Hc Hok) as Hdo.
    rewrite <- Ex in Hun, Hdo. split; [|exact (others_phase _ _ _ _ Hbu Hun Hdo Hp)].
    apply base_set_engine; [done|done|apply Hun| |exact HI]. rewrite (un_owner _ _ Hun). by apply owned.
  - pose proof (b_owner _ Hb) as How. rewrite Hbu in How.
    destruct (unowned_sound F layout crc_service inactivity_ self c (engine_ u) (device_ u) (b_engine _ Hb) How Hc) as (U1 & U2 & _). rewrite <- Ex in U1, U2.
    split; [destruct Hb as [A1 A2 A3 A4 A5 A6 A7]; split; try done; cbn; by rewrite Hbu|].
    destruct (file_state u); try (by destruct Hp as ([H _] & _); rewrite H in Hbu); destruct Hp as (P1 & P2 & P3 & P4);
      (split; [exact P1|]; split; [exact P2|]; split; [|exact P4]); intros H; change (busy_ u = true) in H; by rewrite H in Hbu.
Qed.
Lemma file_new_inv e d s : engine_sound e -> owner_ e <> Some self -> I e d -> file_inv (new_file_update e d s).
Proof.
  intros He Ho HI. split; [done|]. split; [|by split_and!]. split; try done; cbn; (split; [apply Forall_replicate; unfold is_byte; lia|done]).
Qed.
Context (sound0 : engine_sound e0) (unowned0 : owner_ e0 <> Some self) (I0 : I e0 d0).
Lemma file_reach_inv u : file_reach u -> file_inv u.
Proof.
  induction 1 as [s|path u _ IH|u _ IH|u _ IH|u _ IH|c u _ IH Hc Hok|s u _ IH].
  - by apply file_new_inv.
  - by apply prepare_inv.
  - by apply install_inv.
  - by apply cancel_inv.
  - by apply file_tick_inv.
  - by apply engine_call_inv.
  - destruct IH as [Ht [Hb Hp]]. split; [done|]. split; [keep_base Hb|exact Hp].
Qed.

(** C20: Over every history of the worker, interleaved with ticks and calls of
    the engine by others and with changes of the file system: the source is
    called only as its contract allows (nothing without a reservation, reads
    only on the open file, one close and one release); the worker is busy exactly
    while it holds the reservation of the engine; and when it is not busy it
    holds neither a file nor the source. *)
Theorem file_source_contract u : file_reach u ->
  src_run (trace_ u) = Some (if busy_ u then if opened_ u then SOpened else SHeld else SFree) /\
  (busy_ u = true <-> owner_ (engine_ u) = Some self) /\
  (busy_ u = false -> opened_ u = false /\ file_state u <> FileState.cleanup /\ file_state u <> FileState.installing).
Proof.
  intros [_ [Hb Hp]]%file_reach_inv. split; [apply Hb|]. pose proof (b_owner _ Hb) as Ho. split; [by destruct (busy_ u)|].
  intros Hbu. destruct (file_state u); try (by destruct Hp as ([H _] & _); rewrite H in Hbu); by destruct Hp.
Qed.

(** ** The way to success *)

Lemma done_only_cleanup c u : c <> FileState.done -> fst (file_step c u) = FileState.done -> c = FileState.cleanup.
Proof.
  intros Hc. unfold FileUpdate.Step. destruct (_ && _); [done|]. destruct c; try done; cbn [fst].
  - unfold step_waiting. by destruct (requested_ u).
  - unfold step_opening. destruct (src_open _ _ _). cbn. by destruct (_ =s? _).
  - unfold step_header. destruct (Read _ _ _) as [[[[] n] b] v]; cbn [negb fst]; [|done]. cbn zeta.
    match goal with |- context [if ?b then _ else _] => destruct b end; [|done]. destruct (Engine.inspect _ _ _ _) as [st h]. cbn zeta.
    match goal with |- context [if ?b then _ else _] => destruct b end; [done|]. by destruct (Package.tick _ _).
  - unfold step_validating. destruct (Package.state _).
    1-4: (destruct (at_ u <? filled_ u)%nat; [by destruct (Package.tick _ _)|]; destruct (received_ u <? file_total u); [|done];
          by destruct (Read _ _ _) as [[[[] n] b] v]).
    + by destruct (Package.tick _ _).
    + match goal with |- context [if ?b then _ else _] => destruct b end; [done|]. by match goal with |- context [if ?b then _ else _] => destruct b end.
    + done.
  - unfold step_eof. destruct (read_end _ _) as [b v]. cbn. by destruct (_ =s? _).
  - unfold step_prepared. by destruct (install_requested_ u).
  - unfold step_rewind. destruct (src_seek _ _ _). cbn. by destruct (_ =s? _).
  - unfold step_checking. destruct (Read _ _ _) as [[[[] n] b] v]; cbn [negb fst]; [|done]. cbn zeta.
    match goal with |- context [if ?b then _ else _] => destruct b end; [|done]. by match goal with |- context [if ?b then _ else _] => destruct b end.
  - unfold step_starting. destruct (Engine.begin _ _ _ _ _ _) as [[st e] d]. cbn. by destruct (_ =s? _).
  - unfold step_installing. cbn zeta. match goal with |- context [if ?b then _ else _] => destruct b end; [done|].
    match goal with |- context [if ?b then _ else _] => destruct b end; [|done].
    destruct (Read _ _ _) as [[[[] n] b] v]; cbn [negb fst]; [|done]. cbn zeta. destruct (if _ =? _ then _ else _) as [[] v2]; cbn [negb fst]; [|done].
    destruct (Engine.chunk _ _ _ _ _). cbn. by destruct (_ =s? _).
  - unfold step_waiting. by destruct (requested_ u).
Qed.
Lemma tick_to_done u : file_inv u -> file_state u <> FileState.done -> file_state (utick u) = FileState.done ->
  let g := utick u in file_state u = FileState.cleanup /\ status_ u = Status.ok /\ Engine.active (engine_ u) = false /\
  device_ g = device_ u /\ engine_ g = Engine.release (Some self) (engine_ u) /\
  busy_ g = false /\ validated g /\ Engine.header_ (engine_ g) = header_ g /\ Engine.state (engine_ g) = EngineState.done /\ Engine.status_ (engine_ g) = Status.ok /\
  C (engine_ g) (device_ g) /\ I (engine_ g) (device_ g).
Proof.
  intros [Ht Hi] Hnd Hd g. destruct (file_tick u Ht) as (m & Hg & Hm & _).
  assert (cs m = FileState.done) as Hcs by (unfold file_state in Hd; by rewrite Hg in Hd).
  rewrite Hm in Hcs. pose proof (done_only_cleanup _ _ Hnd Hcs) as Hcl. split; [done|]. rewrite Hcl in *.
  assert (finv FileState.cleanup (stepping u)) as Hs by (by apply file_inv_machine).
  assert (file_step FileState.cleanup (stepping u) = step_cleanup source_ self (stepping u)) as Est.
  { unfold FileUpdate.Step. rewrite bool_decide_eq_true_2 by done. by rewrite andb_false_r. }
  rewrite Est in *. destruct (cleanup_done _ Hs Hcs) as (H1 & H2 & H3 & H4 & H5 & H6 & H7 & H8 & H9 & H10). subst g. rewrite Hg.
  assert (finv FileState.cleanup u) as [Hb _] by exact Hi. do 9 (split; [first [exact H1|exact H2|exact H3|exact H4|exact H5|exact H6|exact H7|exact H8|exact H9]|]). split.
  - change (C (engine_ (snd (step_cleanup source_ self (stepping u)))) (device_ (snd (step_cleanup source_ self (stepping u))))). rewrite H3, H4. by apply (ec_release contract).
  - change (I (engine_ (snd (step_cleanup source_ self (stepping u)))) (device_ (snd (step_cleanup source_ self (stepping u))))). rewrite H3, H4.
    exact (ec_call contract (CallRelease (Some self)) _ _ Logic.I (b_inv _ Hb)).
Qed.
End install.
