(* ===== verification/FileInstalled.v ===== *)
(** * A file installed (src/lib/update/file.cpp over engine.cpp and the journal)

    The engine meets the contract that FileInstall.v asks for, so an update from
    a file that is reported as done is in the flash. *)

From S2P Require Import Prelude Foundation Wire Match StateMachine Flash Codec Journal JournalScan JournalCrash JournalCommit HostFlash Control ControlExample Package PackageStream Writer WriterProof Engine EngineSafe EngineInv EngineRun EngineOwner FileUpdate FileInstall UpdateExample.

Section installed.
Context {D S : Type} (F : Flash D) (layout : Layout) (crc_service : Backend) (inactivity_ : Time).
Context (source_ : FileSource S) (source_set : bool) (self : nat).
Context `{HC : !FlashContract F (sector_size layout) (write_size layout)}.
Context (HU : update_device F layout) (Hcrc : backend_faithful crc_service).
Context (r : Z) (Hr : r = 0 \/ r = 1) (m0 : Mem) (s0 : Snapshot).

Abbreviation Inv := (EngineRun.Inv F layout r m0 s0).
Definition committed (e : Engine) (d : D) : Prop := exists s, newest layout (view d) s /\ announced r e s.

Lemma tick_done_state e d : engine_sound e -> Authorized e = true -> Engine.state e = EngineState.done ->
  Engine.state (fst (Engine.tick F layout crc_service inactivity_ e d)) = EngineState.done ->
  Engine.requested_ e = false /\ snd (Engine.tick F layout crc_service inactivity_ e d) = d /\
  Engine.header_ (fst (Engine.tick F layout crc_service inactivity_ e d)) = Engine.header_ e.
Proof.
  intros Hs Ha Hd. destruct (engine_tick F layout crc_service inactivity_ e d Hs) as (m & Et & Hm & _). cbv zeta in *. rewrite Et. cbn [fst snd].
  rewrite Hd in *. cbn [Engine.Step] in *. unfold step_idle in *. change (Engine.requested_ (entered e)) with (Engine.requested_ e) in *.
  change (Authorized (entered e)) with (Authorized e) in *. rewrite Ha in *. destruct (Engine.requested_ e).
  - cbn zeta in *. destruct (Journal.begin _ _ _ _ _ _) as [[st j] d1]. unfold Engine.state. cbn [Engine.machine_ field_update]. rewrite Hm.
    by destruct (st =s? Status.ok).
  - done.
Qed.
Lemma committed_ext e e' d : Engine.header_ e' = Engine.header_ e -> committed e d -> committed e' d.
Proof. intros Hh (s & Hn & Ha). exists s. split; [done|]. unfold announced in *. by rewrite Hh. Qed.
Lemma engine_meets_contract : engine_contract F layout crc_service inactivity_ self Inv committed.
Proof.
  split.
  - intros c e d Hok HI. pose proof (Inv_perform F layout crc_service inactivity_ HU Hcrc r Hr m0 s0 c e d Hok HI) as H.
    unfold others. by destruct (perform _ _ _ _ _ _).
  - intros c e d Hs HI Ho Hc Hok Hd. unfold others, perform.
    assert (forall e', Engine.machine_ e' = Engine.machine_ e -> Engine.requested_ e' = Engine.requested_ e -> Engine.header_ e' = Engine.header_ e ->
      done_ok committed e' d) as Hsame.
    { intros e' Hm Hq Hh Hst Hre. unfold Engine.state in Hst. rewrite Hm in Hst. rewrite Hq in Hre. apply (committed_ext e); [done|]. by apply Hd. }
    assert (reserved e = true) as Hres by (unfold reserved; rewrite Ho; by apply bool_decide_eq_true).
    destruct c as [|v|ow|ow|bytes ow|off data crc|reason].
    + intros Hst Hq. destruct (decide (Engine.state e = EngineState.done)) as [E|E].
      * destruct (tick_done_state e d Hs) as (Hre & Hdev & Hh); [unfold Authorized; by rewrite Hres, orb_true_r|done|done|].
        rewrite Hdev. apply (committed_ext e); [done|]. by apply Hd.
      * pose proof (tick_into_done F layout crc_service inactivity_ HU r m0 s0 e d HI E) as H. destruct (Engine.tick _ _ _ _ _ _) as [e' d']. by apply H.
    + by apply Hsame.
    + unfold Engine.reserve. rewrite Hres. destruct ow; by apply Hsame.
    + unfold Engine.release. rewrite Ho, bool_decide_eq_false_2 by (cbn in Hc; congruence). by apply Hsame.
    + unfold Engine.begin. rewrite Ho, bool_decide_eq_false_2 by (cbn in Hc; congruence). by apply Hsame.
    + unfold Engine.chunk. repeat (match goal with |- context [if ?b then _ else _] => destruct b; [by apply Hsame|] end). by apply Hsame.
    + unfold Engine.abort. destruct (active e); by apply Hsame.
  - intros e d. apply committed_ext. unfold Engine.release. by destruct (_ && _).
Qed.
End installed.

Section end_to_end.
Context {D S : Type} (F : Flash D) (layout : Layout) (crc_service : Backend) (inactivity_ : Time).
Context (source_ : FileSource S) (source_set : bool) (self : nat).
Context `{HC : !FlashContract F (sector_size layout) (write_size layout)}.
Context (HU : update_device F layout) (Hcrc : backend_faithful crc_service).

Lemma new_engine_sound r : engine_sound (new_engine r) /\ owner_ (new_engine r) <> Some self.
Proof. split; [|done]. split; [done|]. split; [done|]. split; [by split|done]. Qed.

(** C7: The whole chain from file to flash.  An engine starts over a device whose
    journal has the newest snapshot [s0]; a worker is used in any way, while others
    tick and use the engine and the files change.  When the worker becomes [done],
    then the package it read had a header for this destination, was exactly as long
    as announced and produced an image with the announced checksum; and the journal
    now names the other slot as pending, with the announced size and checksum, and
    the slot holds bytes with this checksum.  The entry of the running slot is the
    original one, and the worker has given everything back. *)
Theorem file_update_installs r d0 s0 (u : FileUpdate (D:=D) (S:=S)) :
  r = 0 \/ r = 1 -> dev_ok d0 -> flight d0 = None -> journal_ok layout (view d0) -> newest layout (view d0) s0 -> source_reads source_ ->
  file_reach F layout crc_service inactivity_ source_ source_set self (new_engine r) d0 u ->
  file_state u <> FileState.done -> let g := FileUpdate.tick F layout crc_service source_ self u in file_state g = FileState.done ->
  busy_ g = false /\ validated layout g /\ flight (device_ g) = None /\
  exists s bs, newest layout (view (device_ g)) s /\ sel (images s) r = sel (images s0) r /\
    let image := sel (images s) (1 - r) in
    image_state image = ImageState.pending /\ installation image = counter s /\
    image_size image = h_image_size (FileUpdate.header_ g) /\ image_crc image = sel (h_crc (FileUpdate.header_ g)) (1 - r) /\
    mem_read (view (device_ g)) (sel (slots layout) (1 - r)) (Z.to_nat (image_size image)) = Some bs /\ crc32_calculate bs = image_crc image.
Proof.
  intros Hr Hd Hf Hj Hn Hsr Hu Hnd g Hdone.
  pose proof (new_engine_Inv F layout HU r d0 s0 Hr Hd Hf Hj Hn) as HI0. destruct (new_engine_sound r) as [Hs0 Ho0].
  pose proof (engine_meets_contract F layout crc_service inactivity_ self HU Hcrc r Hr (view d0) s0) as Hec.
  pose proof (file_reach_inv F layout crc_service inactivity_ source_ source_set self (new_engine r) d0 _ _ Hsr Hec Hs0 Ho0 HI0 u Hu) as Hi.
  destruct (tick_to_done F layout crc_service inactivity_ source_ self _ _ Hec u Hi Hnd Hdone) as (_ & _ & _ & _ & _ & Hbu & Hv & Hh & Hst & _ & Hcom & HI).
  fold g in Hbu, Hv, Hh, Hst, Hcom, HI. destruct HI as [_ Hc]. pose proof (core_safe F layout HU r Hr (view d0) s0 _ _ _ Hc) as Hsafe.
  rewrite Hst in Hc. destruct Hc as [_ _ _ _ _ (_ & _ & _ & _ & Hins)]. destruct (Hins eq_refl) as [Hfl (s & Hns & H1 & (Hsz & bs & H2 & H3) & H4)].
  split; [done|]. split; [done|]. split; [done|]. exists s, bs. split; [done|]. split; [by destruct (newest_good F layout r (view d0) s0 _ s Hsafe Hns)|].
  destruct Hcom as (s' & Hns' & Ha1 & Ha2). pose proof (safe_view F layout r (view d0) s0 _ Hsafe) as [Hjo _ _].
  rewrite (newest_unique _ _ _ _ (proj1 Hjo) Hns' Hns) in Ha1, Ha2. rewrite <- Hh. by split_and!.
Qed.
End end_to_end.

(** ** A worker on the file-backed device *)

Definition fex_package : list Z := uex_header ++ uex_body.
(** The file is the package; the environment is the position in it. *)
Definition fex_source : FileSource nat := {|
  src_reserve s := (Status.ok, s); src_release s := s; src_open _ _ := (Status.ok, 0%nat);
  src_read n s := let bytes := take n (drop s fex_package) in (Status.ok, Z.of_nat (length bytes), bytes, (s + length bytes)%nat);
  src_seek offset _ := (Status.ok, Z.to_nat offset); src_close s := (Status.ok, s)
|}.
Lemma fex_reads : source_reads fex_source.
Proof.
  intros n s. cbn. split; [lia|]. apply Forall_take, Forall_drop. apply (bool_decide_unpack _). vm_compute. exact I.
Qed.
Abbreviation fex_others := (others bex_flash bex_layout no_backend 30000000 CallTick).
Abbreviation fex_tick := (FileUpdate.tick bex_flash bex_layout no_backend fex_source 7).
(** One tick of the engine, one of the worker. *)
Definition fex_round (u : FileUpdate (D:=FileFlash) (S:=nat)) : FileUpdate :=
  fex_tick (u <| engine_ := fst (fex_others (engine_ u) (device_ u)) |> <| device_ := snd (fex_others (engine_ u) (device_ u)) |>).
Definition fex_run (n k : nat) : FileUpdate :=
  Nat.iter k fex_round (snd (install (Nat.iter n fex_round (snd (prepare fex_source true 7 [97] (new_file_update (new_engine 1) uex_device 0%nat)))))).
Abbreviation fex_reach := (file_reach bex_flash bex_layout no_backend 30000000 fex_source true 7 (new_engine 1) uex_device).
Lemma fex_rounds_reach n u : fex_reach u -> fex_reach (Nat.iter n fex_round u).
Proof.
  intros Hu. induction n as [|n IH]; [done|]. cbn [Nat.iter nat_rect]. unfold fex_round at 1. apply f_tick. by apply (f_engine _ _ _ _ _ _ _ _ _ CallTick).
Qed.
Lemma fex_run_reach n k : fex_reach (fex_run n k).
Proof. apply fex_rounds_reach, f_install, fex_rounds_reach, f_prepare, f_new. Qed.

#[local] Existing Instance bex_contract.
Lemma file_update_installs_witness :
  let g := fex_tick (fex_run 12 126) in
  file_state g = FileState.done /\ busy_ g = false /\
  exists s bs, newest bex_layout (view (device_ g)) s /\ image_state (sel (images s) 0) = ImageState.pending /\
    crc32_calculate bs = uex_crc.
Proof.
  assert (file_state (fex_tick (fex_run 12 126)) = FileState.done) as Hdone by (vm_compute; reflexivity).
  destruct uex_start as (Hd & Hf & Hj & Hn).
  destruct (file_update_installs bex_flash bex_layout no_backend 30000000 fex_source true 7 uex_update_device no_backend_faithful 1 uex_device
    (bex_snapshot 1 ImageState.pending) (fex_run 12 126) (or_intror eq_refl) Hd Hf Hj Hn fex_reads (fex_run_reach 12 126)
    ltac:(vm_compute; discriminate) Hdone) as (H1 & _ & _ & s & bs & H2 & _ & H3 & _ & _ & H4 & _ & H5).
  split; [exact Hdone|]. split; [exact H1|]. exists s, bs. split; [exact H2|]. split; [exact H3|]. rewrite H5, H4. vm_compute. reflexivity.
Defined.

Lemma file_source_contract_witness :
  src_run (trace_ (fex_run 12 40)) = Some SOpened /\ owner_ (engine_ (fex_run 12 40)) = Some 7%nat.
Proof.
  destruct uex_start as (Hd & Hf & Hj & Hn).
  pose proof (new_engine_Inv bex_flash bex_layout uex_update_device 1 uex_device _ (or_intror eq_refl) Hd Hf Hj Hn) as HI.
  destruct (new_engine_sound 7 1) as [Hs Ho].
  destruct (file_source_contract bex_flash bex_layout no_backend 30000000 fex_source true 7 (new_engine 1) uex_device _ _ fex_reads
    (engine_meets_contract bex_flash bex_layout no_backend 30000000 7 uex_update_device no_backend_faithful 1 (or_intror eq_refl) (view uex_device) _)
    Hs Ho HI (fex_run 12 40) (fex_run_reach 12 40)) as (H1 & H2 & _).
  split; [rewrite H1; vm_compute; reflexivity|]. apply H2. vm_compute. reflexivity.
Defined.

(** ** A cancellation that comes too late

    [cancel] refuses once the engine has committed, but a cancellation that was
    accepted before the commit is still served after it: the worker then reports
    [rejected] although the update is committed. *)
Lemma cancelled_after_commit :
  let u := cancel (fex_run 12 125) in
  let u := u <| engine_ := fst (fex_others (engine_ u) (device_ u)) |> <| device_ := snd (fex_others (engine_ u) (device_ u)) |> in
  let g := fex_tick (fex_tick u) in
  Engine.state (engine_ (fex_run 12 125)) = EngineState.committing /\ Engine.state (engine_ u) = EngineState.done /\
  file_state g = FileState.failed /\ FileUpdate.status_ g = Status.rejected /\ Engine.state (engine_ g) = EngineState.done.
Proof. vm_compute. repeat split; reflexivity. Qed.
