(* ===== verification/Fault.v ===== *)
(** * Retained fault records (src/lib/util/fault.h, fault.cpp)

    The 256-byte record that carries the reason of a failure across a reset.
    It lives in memory that survives the reset, so a reset can interrupt [save]
    between any two byte stores.  [save] is therefore a list of accesses to the
    record, in program order, which the fences keep; performed completely they
    are the function, and [torn] is what a reset leaves of them. *)

From S2P Require Import Prelude Foundation Wire Codec.

Module Kind.
Inductive Kind : Set :=
  hard_fault | memory_fault | bus_fault | usage_fault | watchdog | initialization | boot.
End Kind.
#[global] Instance Kind_eq_dec : EqDecision Kind.Kind.
Proof. solve_decision. Defined.

Definition kind_code (k : Kind.Kind) : Z :=
  match k with
  | Kind.hard_fault => 0 | Kind.memory_fault => 1 | Kind.bus_fault => 2 | Kind.usage_fault => 3
  | Kind.watchdog => 4 | Kind.initialization => 5 | Kind.boot => 6
  end.
(** The cast from [uint32_t], after the range check of [read]. *)
Definition kind_of (c : Z) : Kind.Kind :=
  match c with
  | 0 => Kind.hard_fault | 1 => Kind.memory_fault | 2 => Kind.bus_fault | 3 => Kind.usage_fault
  | 4 => Kind.watchdog | 5 => Kind.initialization | _ => Kind.boot
  end.

Record Data := mkData {
  kind : Kind.Kind;
  f_version : Version;
  f_installation : Z;
  f_status : Z;
  frame : list Z;
  cfsr : Z; hfsr : Z; mmfar : Z; bfar : Z;
  exc_return : Z; f_stack : Z;
  frame_valid : bool;
  f_check : list Z; f_module : list Z; f_task : list Z;
  f_expected : Z; f_completed : Z
}.
#[export] Instance Data_eta : RecordEta Data := fun d =>
  mkData (kind d) (f_version d) (f_installation d) (f_status d) (frame d) (cfsr d) (hfsr d) (mmfar d) (bfar d)
    (exc_return d) (f_stack d) (frame_valid d) (f_check d) (f_module d) (f_task d) (f_expected d) (f_completed d).
Definition no_data : Data :=
  mkData Kind.hard_fault no_version 0 0 (replicate 8 0) 0 0 0 0 0 0 false
    (replicate 32 0) (replicate 32 0) (replicate 32 0) 0 0.

(** [std::array<std::byte, 256>]. *)
Abbreviation FaultRecord := (list Z).

Definition copy_name (out name : list Z) : list Z :=
  let count := if (length name <? 31)%nat then length name else 31%nat in
  <[count := 0]> (blit 0 (take count name) out).

Definition kFaultMagic : Z := 0x46534f44.

(** The local [next], up to and with its checksum. *)
Definition write_frame (bytes : list Z) (frame : list Z) : list Z :=
  foldl (fun b i => write32 b (84 + i * 4) (frame !!! i)) bytes (seq 0 8).

Definition fault_body (data : Data) : list Z :=
  let bytes := replicate 256 0 in
  let bytes := write32 bytes 0 kFaultMagic in
  let bytes := write32 bytes 4 1 in
  let bytes := write32 bytes 8 256 in
  let bytes := write32 bytes 12 (kind_code (kind data)) in
  let bytes := write32 bytes 16 (major (f_version data)) in
  let bytes := write32 bytes 20 (minor (f_version data)) in
  let bytes := write32 bytes 24 (build (f_version data)) in
  let bytes := blit 28 (commit (f_version data)) bytes in
  let bytes := <[69%nat := Z.b2z (dirty (f_version data))]> bytes in
  let bytes := <[70%nat := Z.b2z (frame_valid data)]> bytes in
  let bytes := write64 bytes 72 (f_installation data) in
  let bytes := write32 bytes 80 (f_status data) in
  let bytes := write_frame bytes (frame data) in
  let bytes := write32 bytes 116 (cfsr data) in
  let bytes := write32 bytes 120 (hfsr data) in
  let bytes := write32 bytes 124 (mmfar data) in
  let bytes := write32 bytes 128 (bfar data) in
  let bytes := write32 bytes 132 (exc_return data) in
  let bytes := write32 bytes 136 (f_stack data) in
  let bytes := blit 140 (f_check data) bytes in
  let bytes := blit 172 (f_module data) bytes in
  let bytes := blit 204 (f_task data) bytes in
  let bytes := write64 bytes 236 (f_expected data) in
  write64 bytes 244 (f_completed data).
Definition fault_next (data : Data) : list Z :=
  let bytes := fault_body data in
  write32 bytes 252 (crc32_calculate (take 252 bytes)).

(** The accesses to the retained memory: [write32] and [memcpy]. *)
Inductive Access := Store32 (at_ : nat) (value : Z) | Memcpy (at_ : nat) (bytes : list Z).
Definition perform (record : FaultRecord) (a : Access) : FaultRecord :=
  match a with Store32 at_ value => write32 record at_ value | Memcpy at_ bytes => blit at_ bytes record end.

Definition clear_accesses : list Access := [Store32 0 0].
Definition clear_fault (record : FaultRecord) : FaultRecord := foldl perform record clear_accesses.

Definition save (data : Data) : list Access :=
  let bytes := fault_next data in
  clear_accesses ++ [Memcpy 4 (drop 4 bytes); Store32 0 kFaultMagic].

Definition read_result (bytes : list Z) : Data :=
  mkData (kind_of (read32 bytes 12))
    (mkVersion (read32 bytes 16) (read32 bytes 20) (read32 bytes 24)
       (<[40%nat := 0]> (sub bytes 28 41)) (negb (bytes !!! 69%nat =? 0)))
    (read64 bytes 72) (read32 bytes 80)
    (map (fun i => read32 bytes (84 + i * 4)) (seq 0 8))
    (read32 bytes 116) (read32 bytes 120) (read32 bytes 124) (read32 bytes 128)
    (read32 bytes 132) (read32 bytes 136) (negb (bytes !!! 70%nat =? 0))
    (<[31%nat := 0]> (sub bytes 140 32)) (<[31%nat := 0]> (sub bytes 172 32)) (<[31%nat := 0]> (sub bytes 204 32))
    (read64 bytes 236) (read64 bytes 244).

Definition read (record : FaultRecord) (data : Data) : bool * Data :=
  let bytes := record in
  if negb (read32 bytes 0 =? kFaultMagic) || negb (read32 bytes 4 =? 1) ||
     negb (read32 bytes 8 =? Z.of_nat (length bytes)) ||
     (read32 bytes 12 >? kind_code Kind.boot) ||
     negb (read32 bytes 252 =? crc32_calculate (take 252 bytes))
  then (false, data)
  else (true, read_result bytes).

(** ** A reset in the middle

    An access is a set of byte stores, in any order; a reset leaves those of the
    first ones that were done. *)

Definition stores_at (i : nat) (bytes : list Z) : list (nat * Z) := imap (fun j b => ((i + j)%nat, b)) bytes.
Definition apply_stores (record : FaultRecord) (ks : list (nat * Z)) : FaultRecord :=
  foldl (fun r s => <[fst s := snd s]> r) record ks.
Definition byte_stores (a : Access) : list (nat * Z) :=
  match a with Store32 at_ value => stores_at at_ (le_bytes 4 value) | Memcpy at_ bytes => stores_at at_ bytes end.
Inductive torn : list Access -> FaultRecord -> FaultRecord -> Prop :=
  | torn_done r : torn [] r r
  | torn_here a rest ks n r : ks ≡ₚ byte_stores a -> torn (a :: rest) r (apply_stores r (take n ks))
  | torn_later a rest r r' : torn rest (perform r a) r' -> torn (a :: rest) r r'.

Lemma stores_at_cons i b k : stores_at i (b :: k) = (i, b) :: stores_at (S i) k.
Proof.
  unfold stores_at. rewrite imap_cons. f_equal; [by rewrite Nat.add_0_r|].
  apply imap_ext. intros j x _. cbn. f_equal. lia.
Qed.

Lemma apply_stores_app r a b : apply_stores r (a ++ b) = apply_stores (apply_stores r a) b.
Proof. apply foldl_app. Qed.

Lemma length_apply_stores r ks : length (apply_stores r ks) = length r.
Proof.
  revert r. induction ks as [|k ks IH]; intros r; cbn; [done|]. by rewrite IH, length_insert.
Qed.

Lemma apply_stores_at i k l : apply_stores l (stores_at i k) = blit i k l.
Proof.
  revert i l. induction k as [|b k IH]; intros i l; [done|].
  rewrite stores_at_cons. cbn. rewrite IH. unfold blit. cbn [list_inserts].
  symmetry. apply list_insert_inserts_lt. lia.
Qed.

Lemma apply_stores_other r ks i :
  Forall (fun k => fst k <> i) ks -> apply_stores r ks !! i = r !! i.
Proof.
  intros H. revert r. induction H as [|k ks Hk H IH]; intros r; [done|]. cbn.
  rewrite IH. by apply list_lookup_insert_ne.
Qed.

(** Stores to distinct places may be done in any order. *)
Lemma apply_stores_permuted r ks ks' :
  ks ≡ₚ ks' -> NoDup (ks.*1) -> apply_stores r ks = apply_stores r ks'.
Proof.
  intros H. revert r. induction H as [|k ks ks' _ IH|a b ks|ks1 ks2 ks3 H1 IH1 H2 IH2]; intros r Hnd; [done|..].
  - cbn. apply IH. by inversion Hnd.
  - cbn. f_equal. apply list_insert_insert_ne.
    inversion Hnd as [|? ? Hb _]; subst. intros E. apply Hb. rewrite E. by left.
  - rewrite IH1 by done. apply IH2. by rewrite <- H1.
Qed.

Lemma stores_at_fst i k : (stores_at i k).*1 = seq i (length k).
Proof.
  revert i. induction k as [|b k IH]; intros i; [done|]. rewrite stores_at_cons. cbn. by rewrite IH.
Qed.

Lemma byte_stores_perform r a : apply_stores r (byte_stores a) = perform r a.
Proof. destruct a; unfold byte_stores, perform; rewrite apply_stores_at; by rewrite ?write32_blit. Qed.

(** ** Reading back

    [data_ok] is what the member types guarantee; [terminated] is what [read]
    makes of the character arrays. *)

Record data_ok (d : Data) : Prop := {
  dok_major : is_u32 (major (f_version d)); dok_minor : is_u32 (minor (f_version d));
  dok_build : is_u32 (build (f_version d));
  dok_commit : bytes_ok (commit (f_version d)); dok_commit_length : length (commit (f_version d)) = 41%nat;
  dok_installation : is_u64 (f_installation d); dok_status : is_u32 (f_status d);
  dok_frame : Forall is_u32 (frame d); dok_frame_length : length (frame d) = 8%nat;
  dok_cfsr : is_u32 (cfsr d); dok_hfsr : is_u32 (hfsr d); dok_mmfar : is_u32 (mmfar d); dok_bfar : is_u32 (bfar d);
  dok_exc : is_u32 (exc_return d); dok_stack : is_u32 (f_stack d);
  dok_check : bytes_ok (f_check d); dok_check_length : length (f_check d) = 32%nat;
  dok_module : bytes_ok (f_module d); dok_module_length : length (f_module d) = 32%nat;
  dok_task : bytes_ok (f_task d); dok_task_length : length (f_task d) = 32%nat;
  dok_expected : is_u64 (f_expected d); dok_completed : is_u64 (f_completed d)
}.

Definition terminated (d : Data) : Data :=
  d <| f_version := mkVersion (major (f_version d)) (minor (f_version d)) (build (f_version d))
                      (<[40%nat := 0]> (commit (f_version d))) (dirty (f_version d)) |>
    <| f_check := <[31%nat := 0]> (f_check d) |> <| f_module := <[31%nat := 0]> (f_module d) |>
    <| f_task := <[31%nat := 0]> (f_task d) |>.

Lemma kind_of_code k : kind_of (kind_code k) = k.
Proof. by destruct k. Qed.
Lemma kind_code_u32 k : is_u32 (kind_code k).
Proof. unfold is_u32. destruct k; cbn; lia. Qed.

Lemma length_fault_body d : length (fault_body d) = 256%nat.
Proof.
  unfold fault_body, write_frame. cbn [seq foldl].
  rewrite !length_write64, ?length_blit, ?length_write32, ?length_write64, ?length_insert,
    ?length_blit, ?length_write32. by rewrite length_replicate.
Qed.

Lemma length_fault_next d : length (fault_next d) = 256%nat.
Proof. unfold fault_next. rewrite length_write32. apply length_fault_body. Qed.

Lemma frame_u32 d i : data_ok d -> (i < 8)%nat -> is_u32 (frame d !!! i).
Proof.
  intros [] Hi. apply (Forall_lookup_total_1 _ _ i dok_frame0). lia.
Qed.

#[local] Hint Resolve b2z_byte kind_code_u32 : wf.

Lemma fault_body_ok d : data_ok d -> bytes_ok (fault_body d).
Proof.
  intros []. unfold fault_body, write_frame. cbn [seq foldl].
  repeat first [ apply write32_ok | apply write64_ok | apply Forall_blit; [done|]
               | apply Forall_insert; [|apply b2z_byte] ].
  by apply Forall_replicate.
Qed.

Lemma fault_crc_u32 d : data_ok d -> is_u32 (crc32_calculate (take 252 (fault_body d))).
Proof. intros H. apply crc32_calculate_u32, Forall_take, fault_body_ok, H. Qed.

Lemma take_blit_above (b : list Z) n i k : (n <= i)%nat -> take n (blit i k b) = take n b.
Proof.
  intros H. change (sub (blit i k b) 0 n = sub b 0 n). apply sub_blit_other. lia.
Qed.

Lemma sub_one (b : list Z) i x : sub b i 1 = [x] -> b !!! i = x.
Proof.
  intros H. rewrite list_lookup_total_alt. rewrite <- (Nat.add_0_r i), <- (lookup_sub b i 1 0) by lia.
  by rewrite H.
Qed.

Lemma b2z_test b : negb (Z.b2z b =? 0) = b.
Proof. by destruct b. Qed.

Section fields.
Context (d : Data) (Hd : data_ok d).

#[local] Ltac open_record :=
  cbv zeta; unfold fault_next; generalize (crc32_calculate (take 252 (fault_body d))); intros crc;
  pose proof (fun i => frame_u32 d i Hd) as Hframe; destruct Hd;
  unfold fault_body, write_frame; cbn [seq foldl map];
  rewrite ?write32_blit, ?write64_blit, ?insert_blit.

Lemma next_read32 :
  let b := fault_next d in
  read32 b 0 = kFaultMagic /\ read32 b 4 = 1 /\ read32 b 8 = 256 /\ read32 b 12 = kind_code (kind d) /\
  read32 b 16 = major (f_version d) /\ read32 b 20 = minor (f_version d) /\ read32 b 24 = build (f_version d) /\
  read32 b 80 = f_status d /\ read32 b 116 = cfsr d /\ read32 b 120 = hfsr d /\ read32 b 124 = mmfar d /\
  read32 b 128 = bfar d /\ read32 b 132 = exc_return d /\ read32 b 136 = f_stack d.
Proof. open_record. split_and!; field_simpl; done. Qed.

Lemma next_read64 :
  let b := fault_next d in
  read64 b 72 = f_installation d /\ read64 b 236 = f_expected d /\ read64 b 244 = f_completed d.
Proof. open_record. split_and!; field_simpl; done. Qed.

Lemma next_strings :
  let b := fault_next d in
  sub b 28 41 = commit (f_version d) /\ sub b 140 32 = f_check d /\ sub b 172 32 = f_module d /\
  sub b 204 32 = f_task d /\ sub b 69 1 = [Z.b2z (dirty (f_version d))] /\ sub b 70 1 = [Z.b2z (frame_valid d)].
Proof. open_record. split_and!; field_simpl; rewrite sub_blit_same by field_side; done. Qed.

Lemma next_frame : map (fun i => read32 (fault_next d) (84 + i * 4)) (seq 0 8) = frame d.
Proof.
  assert (Hf : frame d = map (fun i => frame d !!! i) (seq 0 8)).
  { destruct Hd. destruct (frame d) as [|? [|? [|? [|? [|? [|? [|? [|? [|]]]]]]]]]; try discriminate. done. }
  transitivity (map (fun i => frame d !!! i) (seq 0 8)); [|done]. clear Hf. open_record.
  repeat (apply (f_equal2 cons)); [..|done]; field_simpl; (reflexivity || (apply read32_blit_same; [field_side|apply Hframe; lia])).
Qed.

Lemma read_result_next : read_result (fault_next d) = terminated d.
Proof.
  destruct next_read32 as (_ & _ & _ & H12 & H16 & H20 & H24 & H80 & H116 & H120 & H124 & H128 & H132 & H136).
  destruct next_read64 as (H72 & H236 & H244).
  destruct next_strings as (H28 & H140 & H172 & H204 & H69%sub_one & H70%sub_one).
  unfold read_result. rewrite next_frame, H12, H16, H20, H24, H80, H116, H120, H124, H128, H132, H136,
    H72, H236, H244, H28, H140, H172, H204, H69, H70, !b2z_test, kind_of_code.
  reflexivity.
Qed.

Lemma read_next out : read (fault_next d) out = (true, terminated d).
Proof.
  destruct next_read32 as (H0 & H4 & H8 & H12 & _).
  unfold read. rewrite H0, H4, H8, H12, length_fault_next, read_result_next.
  destruct (Z.gtb_spec (kind_code (kind d)) (kind_code Kind.boot)) as [Hk|_]; [destruct (kind d); cbn in Hk; lia|].
  unfold fault_next. rewrite write32_blit, take_blit_above by lia.
  rewrite read32_blit_same by (rewrite ?length_fault_body; try lia; by apply fault_crc_u32).
  by rewrite !Z.eqb_refl.
Qed.

Lemma save_next record : length record = 256%nat -> foldl perform record (save d) = fault_next d.
Proof.
  intros Hl. pose proof (length_fault_next d) as Hn.
  assert (Hm : sub (fault_next d) 0 4 = le_bytes 4 kFaultMagic) by (open_record; field_simpl; by rewrite sub_blit_same by field_side).
  cbn [foldl save clear_accesses perform app]. rewrite !write32_blit. rewrite <- Hm.
  apply list_eq. intros i. destruct (decide (i < 4)%nat).
  - rewrite lookup_blit_in by (rewrite ?length_blit, ?length_sub; lia).
    rewrite lookup_sub by lia. f_equal. lia.
  - rewrite lookup_blit_out by (rewrite length_sub; lia).
    destruct (decide (i < 256)%nat).
    + rewrite lookup_blit_in by (rewrite ?length_blit, ?length_drop; lia). rewrite lookup_drop. f_equal. lia.
    + rewrite !lookup_ge_None_2; [done|lia|rewrite !length_blit; lia].
Qed.
End fields.

(** ** A reset in the middle of [save] *)

Lemma apply_stores_ok r ks : bytes_ok r -> Forall (fun k => is_byte (snd k)) ks -> bytes_ok (apply_stores r ks).
Proof.
  intros Hr Hk. revert r Hr. induction Hk as [|k ks Hk _ IH]; intros r Hr; [done|]. cbn. apply IH.
  by apply Forall_insert.
Qed.

Lemma stores_at_ok i k : bytes_ok k -> Forall (fun k => is_byte (snd k)) (stores_at i k).
Proof.
  intros H. revert i. induction H as [|b k Hb _ IH]; intros i; [constructor|].
  rewrite stores_at_cons. by constructor.
Qed.

(** A zero in the first word, which every other byte of the code word differs
    from, makes the record invalid. *)
Lemma read_zero_magic r j out :
  bytes_ok r -> length r = 256%nat -> (j < 4)%nat -> r !! j = Some 0 -> fst (read r out) = false.
Proof.
  intros Hok Hl Hj H0. unfold read. destruct (Z.eqb_spec (read32 r 0) kFaultMagic) as [E|]; [|done].
  apply read32_le in E; [|done|lia|unfold is_u32, kFaultMagic; lia].
  assert (Hz : le_bytes 4 kFaultMagic !! j = Some 0) by (rewrite <- E, lookup_sub by done; exact H0).
  do 4 (destruct j as [|j]; [vm_compute in Hz; discriminate|]). lia.
Qed.

(** Places and values of permuted stores. *)
Lemma permuted_stores i k ks : ks ≡ₚ stores_at i k -> NoDup (ks.*1) /\ forall j, j ∈ ks.*1 <-> (i <= j < i + length k)%nat.
Proof.
  intros H. assert (ks.*1 ≡ₚ seq i (length k)) as Hp by (by rewrite H, stores_at_fst). split.
  - rewrite Hp. apply NoDup_seq.
  - intros j. rewrite Hp. apply elem_of_seq.
Qed.
Lemma permuted_ok ks i k n r : ks ≡ₚ stores_at i k -> bytes_ok k -> bytes_ok r -> bytes_ok (apply_stores r (take n ks)).
Proof. intros H Hk Hr. apply apply_stores_ok; [done|]. apply Forall_take. rewrite H. by apply stores_at_ok. Qed.
(** Stores of one value leave it wherever one of them went. *)
Lemma apply_stores_const v r ks j : Forall (fun k => snd k = v) ks -> (j < length r)%nat -> j ∈ ks.*1 \/ r !! j = Some v -> apply_stores r ks !! j = Some v.
Proof.
  intros Hv. revert r. induction Hv as [|[i x] ks Hx Hv IH]; intros r Hj Hin; cbn in *.
  - destruct Hin as [Hin|]; [|done]. by apply elem_of_nil in Hin.
  - subst x. apply IH; [by rewrite length_insert|]. destruct (decide (i = j)) as [->|Hne].
    + right. by apply list_lookup_insert_eq.
    + rewrite list_lookup_insert_ne by done. destruct Hin as [[E|Hin]%elem_of_cons|Hr]; [done|by left|by right].
Qed.

Lemma clear_fault_eq r : clear_fault r = write32 r 0 0.
Proof. done. Qed.

Lemma save_eq r d : foldl perform r (save d) = write32 (blit 4 (drop 4 (fault_next d)) (clear_fault r)) 0 kFaultMagic.
Proof. unfold save. cbn [clear_accesses app foldl perform]. by rewrite clear_fault_eq. Qed.

Lemma torn_cons a rest r r' : torn (a :: rest) r r' ->
  (exists ks n, ks ≡ₚ byte_stores a /\ r' = apply_stores r (take n ks)) \/ torn rest (perform r a) r'.
Proof. inversion 1; subst; [left; eauto|by right]. Qed.
Lemma torn_nil r r' : torn [] r r' -> r' = r.
Proof. by inversion 1. Qed.

Section interrupted.
Context (record : FaultRecord) (d : Data) (out : Data).
Context (Hlen : length record = 256%nat) (Hrec : bytes_ok record) (Hd : data_ok d).

Lemma fault_next_ok : bytes_ok (fault_next d).
Proof. apply write32_ok, fault_body_ok, Hd. Qed.
Lemma zero_bytes : bytes_ok (le_bytes 4 0).
Proof. apply le_bytes_ok. Qed.

(** The code word is being cleared: either nothing has happened, or a byte of it
    is zero. *)
Lemma torn_clear ks n : ks ≡ₚ stores_at 0 (le_bytes 4 0) -> let r := apply_stores record (take n ks) in r = record \/ fst (read r out) = false.
Proof.
  intros Hk r. destruct (permuted_stores 0 _ ks Hk) as [_ Hin]. destruct (take n ks) as [|[j v] ks'] eqn:Et; [by left|right].
  assert (j ∈ ks.*1) as Hj by (rewrite <- (take_drop n ks), Et; by left). apply Hin in Hj. cbn in Hj.
  apply (read_zero_magic r j); [subst r; rewrite <- Et; by apply (permuted_ok ks 0 (le_bytes 4 0)); [|apply zero_bytes|]|by unfold r; rewrite length_apply_stores|lia|].
  subst r. apply apply_stores_const; [|lia|left; by left]. rewrite <- Et. apply Forall_take. rewrite Hk. by repeat constructor.
Qed.
(** The body is being copied: the code word is zero. *)
Lemma torn_body ks n : ks ≡ₚ stores_at 4 (drop 4 (fault_next d)) -> fst (read (apply_stores (clear_fault record) (take n ks)) out) = false.
Proof.
  intros Hk. destruct (permuted_stores 4 _ ks Hk) as [_ Hin]. apply (read_zero_magic _ 0); [| |lia|].
  - apply (permuted_ok ks 4 (drop 4 (fault_next d))); [done|apply Forall_drop, fault_next_ok|]. by apply write32_ok.
  - by rewrite length_apply_stores, clear_fault_eq, length_write32.
  - rewrite apply_stores_other.
    + rewrite clear_fault_eq, write32_blit, lookup_blit_in by (cbn; lia). done.
    + apply Forall_forall. intros k Hi E. apply (list_elem_of_fmap_2 fst) in Hi. rewrite E in Hi.
      assert (0%nat ∈ ks.*1) as H0 by (rewrite <- (take_drop n ks), fmap_app; apply elem_of_app; by left). apply Hin in H0. lia.
Qed.
(** The code word is being written: a byte of it that is missing is zero. *)
Lemma torn_magic ks n : ks ≡ₚ stores_at 0 (le_bytes 4 kFaultMagic) ->
  let before := blit 4 (drop 4 (fault_next d)) (clear_fault record) in
  fst (read (apply_stores before (take n ks)) out) = false \/ apply_stores before (take n ks) = foldl perform record (save d).
Proof.
  intros Hk before. destruct (permuted_stores 0 _ ks Hk) as [Hnd Hin]. destruct (ks !! n) as [[j v]|] eqn:Hn.
  - left. assert (j ∈ ks.*1) as Hj by (apply list_elem_of_fmap; exists (j, v); split; [done|by eapply list_elem_of_lookup_2]). apply Hin in Hj. cbn in Hj.
    assert (bytes_ok before) as Hb by (apply Forall_blit; [apply Forall_drop, fault_next_ok|by apply write32_ok]).
    apply (read_zero_magic _ j); [by apply (permuted_ok ks 0 (le_bytes 4 kFaultMagic)); [|apply le_bytes_ok|]| |lia|].
    { unfold before. by rewrite length_apply_stores, length_blit, clear_fault_eq, length_write32. }
    rewrite apply_stores_other.
    + unfold before. rewrite lookup_blit_out by lia. rewrite clear_fault_eq, write32_blit, lookup_blit_in by (cbn; lia).
      destruct j as [|[|[|[|]]]]; (done || lia).
    + apply Forall_forall. intros k (i & Hi)%list_elem_of_lookup_1 E. apply lookup_take_Some in Hi as [Hi Hlt].
      assert (i = n) as ->; [|lia]. apply (NoDup_lookup _ _ _ j Hnd); rewrite list_lookup_fmap, ?Hi, ?Hn; cbn; by rewrite ?E.
  - right. rewrite take_ge by (by apply lookup_ge_None_1). by rewrite (apply_stores_permuted _ ks _ Hk Hnd), save_eq, write32_blit, apply_stores_at.
Qed.
Lemma torn_save r : torn (save d) record r -> r = record \/ fst (read r out) = false \/ r = foldl perform record (save d).
Proof.
  intros [(ks & n & Hk & ->)|[(ks & n & Hk & ->)|[(ks & n & Hk & ->)|H]%torn_cons]%torn_cons]%torn_cons.
  - destruct (torn_clear ks n Hk); auto.
  - right; left. exact (torn_body ks n Hk).
  - right. exact (torn_magic ks n Hk).
  - apply torn_nil in H. right; right. by rewrite H, save_eq.
Qed.
End interrupted.

(** C14: a fault record survives a reset or is recognised as broken.  A record
    saved completely reads back as the data saved (character arrays
    terminated); and if a reset stops [save] after any number of the byte
    stores of any of its accesses to the record, with the stores of one access
    in any order, then the memory is unchanged, or the record is rejected, or
    it is the complete new record: never a mixture of two failures. *)
Theorem fault_record_survives_reset record d r out :
  length record = 256%nat -> bytes_ok record -> data_ok d -> torn (save d) record r ->
  read (foldl perform record (save d)) out = (true, terminated d) /\
  (r = record \/ fst (read r out) = false \/ r = foldl perform record (save d)).
Proof.
  intros Hlen Hrec Hd Ht. split; [rewrite save_next by done; by apply read_next|]. by apply torn_save.
Qed.

(** ** Names

    [copy_name] keeps the first 31 characters and always terminates, so the
    termination done by [read] changes nothing. *)

Lemma copy_name_spec out name : length out = 32%nat ->
  let count := Nat.min (length name) 31 in
  take count (copy_name out name) = take 31 name /\ copy_name out name !! count = Some 0 /\
  length (copy_name out name) = 32%nat.
Proof.
  intros Hl count. unfold copy_name.
  replace (if (length name <? 31)%nat then length name else 31%nat) with count
    by (unfold count; destruct (Nat.ltb_spec (length name) 31); lia).
  assert (Hc : (count <= 31)%nat) by (unfold count; lia).
  assert (Ht : length (take count name) = count) by (rewrite length_take; unfold count; lia).
  split_and!.
  - rewrite take_insert_ge by lia. change (sub (blit 0 (take count name) out) 0 count = take 31 name).
    rewrite sub_blit_same by (rewrite ?Ht; lia). unfold count.
    destruct (Nat.le_ge_cases (length name) 31); [by rewrite Nat.min_l, !take_ge by lia|by rewrite Nat.min_r by lia].
  - apply list_lookup_insert_eq. rewrite length_blit. lia.
  - by rewrite length_insert, length_blit.
Qed.

Lemma copy_name_ok out name :
  length out = 32%nat -> bytes_ok out -> bytes_ok name -> bytes_ok (copy_name out name).
Proof.
  intros Hl Ho Hn. apply Forall_insert; [|by split]. apply Forall_blit; [by apply Forall_take|done].
Qed.

(** ** Witness *)

Definition sample_fault : Data :=
  no_data <| kind := Kind.watchdog |> <| f_status := 17 |>
    <| f_check := copy_name (replicate 32 0) [0x66; 0x65; 0x65; 0x64] |> <| f_completed := 3 |>.

Lemma sample_fault_ok : data_ok sample_fault.
Proof.
  split; first [ by split | reflexivity | apply (bool_decide_unpack _); vm_compute; exact I
               | repeat constructor; by split ].
Qed.

(** A reset after 96 bytes of the body. *)
Definition sample_torn : FaultRecord :=
  apply_stores (clear_fault (replicate 256 0xff)) (take 96 (byte_stores (Memcpy 4 (drop 4 (fault_next sample_fault))))).
Lemma sample_torn_ok : torn (save sample_fault) (replicate 256 0xff) sample_torn.
Proof. apply torn_later, torn_here. reflexivity. Qed.

Lemma fault_record_survives_reset_witness :
  let record := replicate 256 0xff in
  read (foldl perform record (save sample_fault)) no_data = (true, terminated sample_fault) /\
  (sample_torn = record \/ fst (read sample_torn no_data) = false \/ sample_torn = foldl perform record (save sample_fault)).
Proof.
  destruct (fault_record_survives_reset (replicate 256 0xff) sample_fault sample_torn no_data) as (H1 & H2).
  - reflexivity.
  - apply (bool_decide_unpack _). vm_compute. exact I.
  - exact sample_fault_ok.
  - exact sample_torn_ok.
  - exact (conj H1 H2).
Defined.
