(* ===== verification/Watchdog.v ===== *)
(** * Watchdog supervision (src/lib/watchdog/watchdog.hpp, confirmation.h, driver.h)

    [check_progress] compares the scheduler's progress counters with the
    cadence of every repeating task; [Controller] feeds the hardware watchdog
    while every check passes and latches the first failure; [Confirmation]
    approves a trial image after an uninterrupted healthy interval.

    Checks, driver and observer are function pointers: they are parameters, on
    an environment [E] that they may change.  The controller's world also keeps
    the list of calls made through them, in order. *)

From Stdlib Require Import Strings.String.
From S2P Require Import Prelude Foundation Wire StateMachine Match Scheduler.

(** ** Failures and checks *)

Record Failure := mkFailure {
  fail_status : Status;
  fail_check : option Name; fail_module : option Name; fail_task : option Name;
  fail_expected : Z; fail_completed : Z
}.
#[export] Instance Failure_eta : RecordEta Failure := fun f =>
  mkFailure (fail_status f) (fail_check f) (fail_module f) (fail_task f) (fail_expected f) (fail_completed f).

Definition no_failure : Failure := mkFailure Status.ok (Some []) (Some []) (Some []) 0 0.
(** [Failure{status, check}]: the other members keep their initializers. *)
Definition failure_of (status : Status) (check : Name) : Failure :=
  no_failure <| fail_status := status |> <| fail_check := Some check |>.

(** ** Task progress *)

Fixpoint progress_loop (cutoff : Z) (tasks : list TaskProgress) : Failure :=
  match tasks with
  | [] => no_failure
  | task :: tasks =>
      if negb (repeating task) || (period task =? 0) || (p_first_due task >=? cutoff)
      then progress_loop cutoff tasks
      else
        let expected := u64 (u64 (u64 (cutoff - 1) - p_first_due task) / period task + 1) in
        if p_completed task <? expected
        then mkFailure Status.health_failed (Some (chars "task_progress")) (p_module task) (p_task task)
               expected (p_completed task)
        else progress_loop cutoff tasks
  end.

Definition check_progress (progress : Progress) (allowance : Time) : Failure :=
  if negb (p_running progress) || (p_now progress <=? allowance) then no_failure
  else progress_loop (u64 (p_now progress - allowance)) (p_tasks progress).

(** ** The controller *)

Module WatchState.
Inductive State : Set := stopped | running | failed.
End WatchState.
#[global] Instance WatchState_eq_dec : EqDecision WatchState.State.
Proof. solve_decision. Defined.
#[export] Instance WatchState_enum : StateEnum WatchState.State := {|
  state_index (s : WatchState.State) := match s with
    | WatchState.stopped => 0 | WatchState.running => 1 | WatchState.failed => 2
    end%nat;
  state_count := 3%nat
|}.

Section controller.
Context {E : Type}.

Record Check := mkCheck { check_name : Name; test : option (E -> Failure * E) }.
Record Driver := mkDriver {
  driver_start : option (E -> Time -> Status * E);
  driver_feed : option (E -> Status * E)
}.

(** What happens if a null function pointer is called is not defined by the
    language; the theorems hold whatever it is. *)
Context (null_start : E -> Time -> Status * E) (null_feed : E -> Status * E).
Context (driver_ : Driver) (checks_ : list Check) (observer_ : option (E -> Failure -> E)).

Record Controller := mkController {
  failure_ : Failure;
  machine_ : Machine WatchState.State;
  timeout_ : Time;
  start_requested_ : bool
}.
#[local] Instance Controller_eta : RecordEta Controller := fun c =>
  mkController (failure_ c) (machine_ c) (timeout_ c) (start_requested_ c).
Definition new_controller : Controller := mkController no_failure (initial_machine WatchState.stopped) 0 false.

(** A call through a pointer: a check and its result, the driver, the observer. *)
Inductive Call :=
  | CCheck (name : Name) (result : Status)
  | CStart (timeout : Time) (result : Status)
  | CFeed (result : Status)
  | CObserved (failure : Failure).

Record World := mkWorld { controller : Controller; env : E; calls : list Call }.
#[local] Instance World_eta : RecordEta World := fun w => mkWorld (controller w) (env w) (calls w).

#[local] Instance World_machine : HasMachine World WatchState.State := {|
  machine w := machine_ (controller w);
  with_machine m w := w <| controller := (controller w) <| machine_ := m |> |>
|}.
#[local] Instance World_machine_laws : HasMachineLaws World WatchState.State.
Proof. split; [done|done|by intros [[]]]. Qed.

Definition called (c : Call) (e : E) (w : World) : World := w <| env := e |> <| calls := calls w ++ [c] |>.
Definition with_failure (f : Failure) (w : World) : World :=
  w <| controller := (controller w) <| failure_ := f |> |>.

(** The loop of [CheckHealth]. *)
Fixpoint CheckHealth (checks : list Check) (w : World) : Failure * World :=
  match checks with
  | [] => (no_failure, w)
  | check :: checks =>
      let '(result, w) := match test check with
                          | Some test => let '(r, e) := test (env w) in
                                         (r, called (CCheck (check_name check) (fail_status r)) e w)
                          | None => (no_failure <| fail_status := Status.invalid_argument |>, w)
                          end in
      if negb (fail_status result =s? Status.ok)
      then (result <| fail_check := Some (check_name check) |>, w)
      else CheckHealth checks w
  end.

Definition start_driver (w : World) : Status * World :=
  let timeout := timeout_ (controller w) in
  let '(st, e) := default null_start (driver_start driver_) (env w) timeout in
  (st, called (CStart timeout st) e w).
Definition feed_driver (w : World) : Status * World :=
  let '(st, e) := default null_feed (driver_feed driver_) (env w) in
  (st, called (CFeed st) e w).

Definition Step (cs : WatchState.State) (w : World) : WatchState.State * World :=
  match cs with
  | WatchState.stopped =>
      if start_requested_ (controller w) then
        let w := w <| controller := (controller w) <| start_requested_ := false |> |> in
        let '(f, w) := CheckHealth checks_ w in
        let w := with_failure f w in
        let w := if fail_status f =s? Status.ok
                 then let '(st, w) := start_driver w in with_failure (failure_of st (chars "start")) w
                 else w in
        (if fail_status (failure_ (controller w)) =s? Status.ok then WatchState.running else WatchState.failed, w)
      else (cs, w)
  | WatchState.running =>
      let '(f, w) := CheckHealth checks_ w in
      let w := with_failure f w in
      let w := if fail_status f =s? Status.ok
               then let '(st, w) := feed_driver w in with_failure (failure_of st (chars "feed")) w
               else w in
      (if negb (fail_status (failure_ (controller w)) =s? Status.ok) then WatchState.failed else cs, w)
  | WatchState.failed => (cs, w)
  end.

Definition OnEnter (state : WatchState.State) (w : World) : World :=
  match state, observer_ with
  | WatchState.failed, Some failed =>
      let f := failure_ (controller w) in called (CObserved f) (failed (env w) f) w
  | _, _ => w
  end.

Definition tick (w : World) : World := snd (StateMachine.tick (step_and_entry Step OnEnter) w).

Definition state (w : World) : WatchState.State := cs (machine_ (controller w)).

Definition start (timeout : Time) (w : World) : Status * World :=
  if negb (bool_decide (state w = WatchState.stopped))
  then (if bool_decide (state w = WatchState.failed) then fail_status (failure_ (controller w))
        else Status.already_initialized, w)
  else if (timeout =? 0) || (timeout =? kForever) || negb (bool_decide (is_Some (driver_start driver_))) ||
          negb (bool_decide (is_Some (driver_feed driver_)))
  then (Status.invalid_argument, w)
  else
    let w := w <| controller := (controller w) <| timeout_ := timeout |> <| start_requested_ := true |> |> in
    let w := tick w in
    (fail_status (failure_ (controller w)), w).

(** The overload for a [std::chrono] duration. *)
Definition start_duration (signed_rep : bool) (count num den : Z) (w : World) : Status * World :=
  let '(status, micros) := to_microseconds signed_rep count num den 0 in
  if status =s? Status.ok then start micros w else (status, w).

(** *** Runs: calls of [start] and [tick], and anything else changing [E] *)

Inductive WatchOp := OStart (timeout : Time) | OTick | OElse (f : E -> E).
Definition perform (op : WatchOp) (w : World) : World :=
  match op with
  | OStart timeout => snd (start timeout w)
  | OTick => tick w
  | OElse f => w <| env := f (env w) |>
  end.
Definition run (ops : list WatchOp) (w : World) : World := foldl (fun w op => perform op w) w ops.
Definition boot_world (e : E) : World := mkWorld new_controller e [].

(** *** The protocol with the hardware

    One round of passing checks; the two ways a round of checks fails; and the
    call histories the controller may produce in each of its states. *)

Definition passed (checks : list Check) : list Call := map (fun c => CCheck (check_name c) Status.ok) checks.
Definition observed (f : Failure) : list Call := match observer_ with Some _ => [CObserved f] | None => [] end.

Inductive failing : list Call -> Prop :=
  | failing_check pre c post st : checks_ = pre ++ c :: post -> st <> Status.ok ->
      failing (passed pre ++ [CCheck (check_name c) st])
  | failing_null pre c post : checks_ = pre ++ c :: post -> test c = None -> failing (passed pre)
  | failing_start timeout st : st <> Status.ok -> failing (passed checks_ ++ [CStart timeout st])
  | failing_feed st : st <> Status.ok -> failing (passed checks_ ++ [CFeed st]).

Inductive history : WatchState.State -> list Call -> Prop :=
  | history_new : history WatchState.stopped []
  | history_started timeout :
      history WatchState.running (passed checks_ ++ [CStart timeout Status.ok])
  | history_fed t : history WatchState.running t ->
      history WatchState.running (t ++ passed checks_ ++ [CFeed Status.ok])
  | history_failed s t seg f : s <> WatchState.failed -> history s t -> failing seg -> fail_status f <> Status.ok ->
      history WatchState.failed (t ++ seg ++ observed f).

(** The checks leave the controller alone and their calls are a passed or a
    failing round. *)
Lemma CheckHealth_calls checks w :
  let '(f, w') := CheckHealth checks w in
  controller w' = controller w /\
  ((fail_status f = Status.ok /\ calls w' = calls w ++ passed checks) \/
   (fail_status f <> Status.ok /\ exists pre c post, checks = pre ++ c :: post /\
      ((exists st, st <> Status.ok /\ calls w' = calls w ++ passed pre ++ [CCheck (check_name c) st]) \/
       (test c = None /\ calls w' = calls w ++ passed pre)))).
Proof.
  revert w. induction checks as [|c checks IH]; intros w; cbn [CheckHealth].
  { split; [done|]. left. by rewrite app_nil_r. }
  destruct (test c) as [t|] eqn:Ht.
  - destruct (t (env w)) as [r e]. destruct (fail_status r =s? Status.ok) eqn:Hr; cbn [negb].
    + apply st_eqb_eq in Hr. rewrite Hr. specialize (IH (called (CCheck (check_name c) Status.ok) e w)).
      destruct (CheckHealth checks _) as [f w']. destruct IH as [Hc IH]. split; [exact Hc|].
      destruct IH as [[Hf Hcalls]|(Hf & pre & c' & post & -> & IH)].
      * left. split; [done|]. rewrite Hcalls. cbn. by rewrite <- app_assoc.
      * right. split; [done|]. exists (c :: pre), c', post. split; [done|].
        destruct IH as [(st & Hst & ->)|[Hn ->]]; [left; exists st; split; [done|]|right; split; [done|]];
          cbn; by rewrite <- app_assoc.
    + apply st_eqb_neq in Hr. split; [done|]. right. split; [exact Hr|].
      exists [], c, checks. split; [done|]. left. exists (fail_status r). done.
  - cbn. split; [done|]. right. split; [done|]. exists [], c, checks. split; [done|]. right.
    split; [done|]. by rewrite app_nil_r.
Qed.

(** *** One tick *)

(** Everything but the statistics: [Step] from the current state, and the
    observer when the state is entered. *)
Lemma step_oblivious s m w :
  Step s (with_machine m w) = (fst (Step s w), with_machine m (snd (Step s w))).
Proof.
  assert (HC : forall checks w, CheckHealth checks (with_machine m w) =
            (fst (CheckHealth checks w), with_machine m (snd (CheckHealth checks w)))).
  { clear. induction checks as [|c checks IH]; intros w; [done|]. cbn [CheckHealth].
    destruct (test c) as [t|]; [|done]. change (env (with_machine m w)) with (env w).
    destruct (t (env w)) as [r e]. destruct (fail_status r =s? Status.ok); [|done]. cbn [negb].
    change (called ?c e (with_machine m w)) with (with_machine m (called c e w)). apply IH. }
  destruct s; unfold Step; [| |done].
  - change (start_requested_ (controller (with_machine m w))) with (start_requested_ (controller w)).
    destruct (start_requested_ (controller w)); [|done].
    change ((with_machine m w) <| controller := _ |>) with
      (with_machine m (w <| controller := (controller w) <| start_requested_ := false |> |>)).
    rewrite HC. destruct (CheckHealth checks_ _) as [f w']. cbn [fst snd].
    destruct (fail_status f =s? Status.ok) eqn:Ef; [|cbn; by rewrite Ef].
    unfold start_driver. cbn.
    destruct (default null_start _ _ _) as [st e]. cbn. by destruct (st =s? Status.ok).
  - rewrite HC. destruct (CheckHealth checks_ _) as [f w']. cbn [fst snd].
    destruct (fail_status f =s? Status.ok) eqn:Ef; [|cbn; by rewrite Ef].
    unfold feed_driver. cbn.
    destruct (default null_feed _ _) as [st e]. cbn. by destruct (st =s? Status.ok).
Qed.

Lemma OnEnter_oblivious s m w : OnEnter s (with_machine m w) = with_machine m (OnEnter s w).
Proof. unfold OnEnter. destruct s; [done|done|]. by destruct observer_. Qed.

#[local] Arguments post_machine : simpl never.

(** What a tick does in each state, for a controller that is not inside one. *)
Lemma tick_effect w :
  ticking_ (machine_ (controller w)) = false -> state w <> WatchState.failed \/ started_ (machine_ (controller w)) = true ->
  let '(ns, w1) := Step (state w) w in
  let w2 := if bool_decide (ns = state w) then w1 else OnEnter ns w1 in
  state (tick w) = ns /\ env (tick w) = env w2 /\ calls (tick w) = calls w2 /\
  failure_ (controller (tick w)) = failure_ (controller w1) /\
  start_requested_ (controller (tick w)) = start_requested_ (controller w1) /\
  ticking_ (machine_ (controller (tick w))) = false /\ started_ (machine_ (controller (tick w))) = true.
Proof.
  intros Ht Hs.
  pose proof (tick_entry_oblivious Step OnEnter w step_oblivious OnEnter_oblivious Ht) as H. cbv zeta in H.
  assert (He : (if started_ (machine w) then w else OnEnter (cs (machine w)) w) = w).
  { cbn. destruct (started_ _) eqn:Es; [done|]. destruct Hs as [Hs|Hs]; [|congruence].
    unfold state in Hs. unfold OnEnter. by destruct (cs _). }
  rewrite He in H. unfold tick. rewrite H. cbn [machine World_machine]. fold (state w).
  destruct (Step (state w) w) as [ns w1]. cbn [fst snd]. clear H He.
  assert (Hv : Valid ns = true) by by destruct ns. rewrite Hv. cbn [andb].
  assert (Hen : forall s w, failure_ (controller (OnEnter s w)) = failure_ (controller w) /\
     start_requested_ (controller (OnEnter s w)) = start_requested_ (controller w)).
  { intros s w0. unfold OnEnter. destruct s; [done|done|]. by destruct observer_. }
  assert (Hst : started_ (post_machine ns (machine_ (controller w))) = true).
  { unfold post_machine. destruct (_ && _); cbn; apply started_pre_machine. }
  destruct (bool_decide (ns = state w)); cbn [negb]; destruct (Hen ns w1) as [Hf Hr]; cbn;
    rewrite ?Hf, ?Hr, ?cs_post_machine, ?Hv, ?Hst; split_and!; try done;
    unfold state; cbn; by rewrite cs_post_machine, Hv.
Qed.

Lemma Step_cases w :
  let '(ns, w1) := Step (state w) w in
  (ns = state w /\ w1 = w /\ (state w = WatchState.failed \/ (state w = WatchState.stopped /\ start_requested_ (controller w) = false))) \/
  (start_requested_ (controller w1) = (if bool_decide (state w = WatchState.stopped) then false else start_requested_ (controller w)) /\
   ((ns = WatchState.running /\ fail_status (failure_ (controller w1)) = Status.ok /\
     ((state w = WatchState.stopped /\ exists t, calls w1 = calls w ++ passed checks_ ++ [CStart t Status.ok]) \/
      (state w = WatchState.running /\ calls w1 = calls w ++ passed checks_ ++ [CFeed Status.ok]))) \/
    (ns = WatchState.failed /\ state w <> WatchState.failed /\ fail_status (failure_ (controller w1)) <> Status.ok /\
     exists seg, failing seg /\ calls w1 = calls w ++ seg))).
Proof.
  destruct (state w) eqn:Hs; unfold Step; [| |cbn; by left; eauto].
  - destruct (start_requested_ (controller w)) eqn:Hr; [|cbn; by left; eauto].
    pose proof (CheckHealth_calls checks_ (w <| controller := (controller w) <| start_requested_ := false |> |>)) as H.
    destruct (CheckHealth checks_ _) as [f w']. destruct H as [Hc [[Hf Hcalls]|(Hf & pre & c & post & Hsplit & Hcalls)]].
    + rewrite Hf, st_eqb_refl. unfold start_driver. destruct (default null_start _ _ _) as [st e]. cbn. right. rewrite Hc.
      split; [done|]. cbn in Hcalls. destruct (st =s? Status.ok) eqn:Est.
      * apply st_eqb_eq in Est as ->. left. split_and!; [done|done|]. left. split; [done|]. eexists. rewrite Hcalls. by rewrite app_assoc.
      * apply st_eqb_neq in Est. right. split_and!; [done|done|done|]. eexists. split; [by apply failing_start|].
        rewrite Hcalls, app_assoc. done.
    + pose proof (proj2 (st_eqb_neq _ _) Hf) as Hf'. rewrite Hf'. cbn. rewrite Hf'. right. rewrite Hc.
      split; [done|]. right. split_and!; [done|done|done|]. cbn in Hcalls.
      destruct Hcalls as [(st & Hst & ->)|[Hn ->]]; eexists; (split; [|done]); [by eapply failing_check|by eapply failing_null].
  - pose proof (CheckHealth_calls checks_ w) as H.
    destruct (CheckHealth checks_ _) as [f w']. destruct H as [Hc [[Hf Hcalls]|(Hf & pre & c & post & Hsplit & Hcalls)]].
    + rewrite Hf, st_eqb_refl. unfold feed_driver. destruct (default null_feed _ _) as [st e]. cbn. right. rewrite Hc.
      split; [done|]. destruct (st =s? Status.ok) eqn:Est.
      * apply st_eqb_eq in Est as ->. left. split_and!; [done|done|]. right. split; [done|]. rewrite Hcalls. by rewrite app_assoc.
      * apply st_eqb_neq in Est. right. split_and!; [done|done|done|]. eexists. split; [by apply failing_feed|].
        rewrite Hcalls, app_assoc. done.
    + pose proof (proj2 (st_eqb_neq _ _) Hf) as Hf'. rewrite Hf'. cbn. rewrite Hf'. right. rewrite Hc.
      split; [done|]. right. split_and!; [done|done|done|].
      destruct Hcalls as [(st & Hst & ->)|[Hn ->]]; eexists; (split; [|done]); [by eapply failing_check|by eapply failing_null].
Qed.

(** *** Every run follows the protocol *)

Record watch_inv (w : World) : Prop := {
  wi_history : history (state w) (calls w);
  wi_ticking : ticking_ (machine_ (controller w)) = false;
  wi_started : state w = WatchState.failed -> started_ (machine_ (controller w)) = true;
  wi_requested : start_requested_ (controller w) = false;
  wi_failure : state w = WatchState.failed <-> fail_status (failure_ (controller w)) <> Status.ok
}.

Lemma boot_world_inv e : watch_inv (boot_world e).
Proof. split; try done. constructor. Qed.

Lemma observed_calls w : calls (OnEnter WatchState.failed w) = calls w ++ observed (failure_ (controller w)).
Proof. unfold OnEnter, observed. destruct observer_; [done|]. by rewrite app_nil_r. Qed.

(** One tick, with [start_requested_] set or not. *)
Lemma tick_inv w :
  watch_inv (w <| controller := (controller w) <| start_requested_ := false |> |>) ->
  (start_requested_ (controller w) = true -> state w = WatchState.stopped) -> watch_inv (tick w).
Proof.
  intros [Hh Ht Hst _ Hf] Hreq. change (history (state w) (calls w)) in Hh. cbn in Ht.
  change (state w = WatchState.failed -> started_ (machine_ (controller w)) = true) in Hst.
  change (state w = WatchState.failed <-> fail_status (failure_ (controller w)) <> Status.ok) in Hf.
  assert (Hpre : state w <> WatchState.failed \/ started_ (machine_ (controller w)) = true).
  { destruct (state w); [by left|by left|right; by apply Hst]. }
  pose proof (tick_effect w Ht Hpre) as He. pose proof (Step_cases w) as Hc.
  destruct (Step (state w) w) as [ns w1]. destruct He as (Es & _ & Ec & Ef & Er & Etk & Est).
  destruct Hc as [(-> & -> & Hs)|(Hr & [(-> & Hok & Hc)|(-> & Hnf & Hbad & seg & Hseg & Hc)])].
  - rewrite bool_decide_true in Ec by done. split; rewrite ?Es, ?Ec, ?Ef, ?Er; try done.
    destruct Hs as [Hs|[Hs Hr]]; [|done].
    destruct (start_requested_ (controller w)); [|done]. rewrite Hreq in Hs by done. discriminate.
  - assert (Hr' : start_requested_ (controller w1) = false).
    { rewrite Hr. case_bool_decide; [done|]. destruct (start_requested_ (controller w)); [|done]. by destruct Hreq. }
    destruct Hc as [(Hs & t & Hc)|(Hs & Hc)]; (assert (Ec' : calls (tick w) = calls w1) by (rewrite Ec; by destruct (bool_decide _))); clear Ec; split; rewrite ?Es, ?Ec', ?Ef, ?Er; try done.
    + rewrite Hs in Hh. assert (H0 : calls w = []) by by inversion Hh. rewrite Hc, H0. apply history_started.
    + rewrite Hc. rewrite Hs in Hh. by apply history_fed.
  - assert (Hr' : start_requested_ (controller w1) = false).
    { rewrite Hr. case_bool_decide; [done|]. destruct (start_requested_ (controller w)); [|done]. by destruct Hreq. }
    rewrite bool_decide_false in Ec by congruence. split; rewrite ?Es, ?Ec, ?Ef, ?Er; try done.
    rewrite observed_calls, Hc, <- app_assoc. by eapply history_failed.
Qed.

Lemma no_request w : watch_inv w -> w <| controller := (controller w) <| start_requested_ := false |> |> = w.
Proof. intros []. destruct w as [[] ? ?]. cbn in *. by subst. Qed.

Lemma perform_inv op w : watch_inv w -> watch_inv (perform op w).
Proof.
  intros Hw. destruct op as [timeout| |f]; cbn [perform].
  - unfold start. destruct (bool_decide (state w = WatchState.stopped)) eqn:Hs; cbn [negb]; [|done].
    destruct (_ || _ || _ || _); [done|]. cbn [snd]. apply bool_decide_eq_true in Hs. apply tick_inv; [|done].
    destruct Hw. by split.
  - apply tick_inv; [by rewrite no_request|]. intros Hr. destruct Hw. congruence.
  - destruct Hw. by split.
Qed.

Lemma run_inv ops w : watch_inv w -> watch_inv (run ops w).
Proof. revert w. induction ops as [|op ops IH]; intros w Hw; [done|]. by apply IH, perform_inv. Qed.

Lemma failed_latched op w : watch_inv w -> state w = WatchState.failed ->
  state (perform op w) = WatchState.failed /\ calls (perform op w) = calls w /\
  failure_ (controller (perform op w)) = failure_ (controller w).
Proof.
  intros Hw Hs. destruct op as [timeout| |f]; cbn [perform]; [|..|done].
  - unfold start. by rewrite Hs.
  - destruct Hw. pose proof (tick_effect w wi_ticking0 (or_intror (wi_started0 Hs))) as He.
    rewrite Hs in He. cbn in He. naive_solver.
Qed.

Lemma run_latched ops w : watch_inv w -> state w = WatchState.failed ->
  state (run ops w) = WatchState.failed /\ calls (run ops w) = calls w.
Proof.
  revert w. induction ops as [|op ops IH]; intros w Hw Hs; [done|].
  destruct (failed_latched op w Hw Hs) as (Hs' & Hc & _).
  destruct (IH (perform op w)) as [? Hc']; [by apply perform_inv|done|]. by rewrite <- Hc.
Qed.

(** *** What the protocol guarantees *)

Lemma app_cons_left {A} (x : A) pre post a b :
  x ∉ b -> pre ++ x :: post = a ++ b -> exists post', a = pre ++ x :: post' /\ post = post' ++ b.
Proof.
  intros Hx Heq. apply app_eq_app in Heq as [l [[-> Hl]|[-> Hl]]].
  - exfalso. apply Hx. rewrite Hl. apply elem_of_app. right. left.
  - destruct l as [|y l]; cbn in Hl; [exfalso; apply Hx; rewrite <- Hl; left|].
    injection Hl as <- ->. by exists l.
Qed.

Lemma passed_checks c checks : c ∈ passed checks -> exists name, c = CCheck name Status.ok.
Proof. unfold passed. intros (d & -> & _)%list_elem_of_fmap. by eexists. Qed.

Lemma failing_feed_last pre st post seg :
  failing seg -> seg = pre ++ CFeed st :: post -> pre = passed checks_ /\ post = [].
Proof.
  assert (Hno : forall checks b, b <> CFeed st -> pre ++ CFeed st :: post <> passed checks ++ [b]).
  { intros checks b Hb Heq. assert (Hin : CFeed st ∈ passed checks ++ [b]) by (rewrite <- Heq; set_solver).
    apply elem_of_app in Hin as [[? Hin]%passed_checks|Hin%list_elem_of_singleton]; congruence. }
  intros Hseg Heq. destruct Hseg as [? c ? s|? c ? ? ?|t s|s]; symmetry in Heq.
  - by apply Hno in Heq.
  - assert (Hin : CFeed st ∈ passed pre0) by (rewrite <- Heq; set_solver). by apply passed_checks in Hin as [? ?].
  - by apply Hno in Heq.
  - destruct post as [|z post _] using rev_ind; [by apply app_inj_tail in Heq as [-> _]|].
    rewrite app_comm_cons, app_assoc in Heq. apply app_inj_tail in Heq as [Heq _].
    assert (Hin : CFeed st ∈ passed checks_) by (rewrite <- Heq; set_solver). by apply passed_checks in Hin as [? ?].
Qed.

Lemma not_in_passed_start (c : Call) t : (forall name, c <> CCheck name Status.ok) -> c <> CStart t Status.ok ->
  c ∉ passed checks_ ++ [CStart t Status.ok].
Proof. intros H1 H2 [[n ->]%passed_checks|Hin%list_elem_of_singleton]%elem_of_app; [by eapply H1|done]. Qed.

Lemma not_in_observed st f : CFeed st ∉ observed f.
Proof. unfold observed. destruct observer_; [intros ?%list_elem_of_singleton; discriminate|apply not_elem_of_nil]. Qed.

(** Each feeding of the hardware directly follows a full round of passed checks. *)
Lemma history_feed s t pre st post :
  history s t -> t = pre ++ CFeed st :: post -> exists pre', pre = pre' ++ passed checks_.
Proof.
  intros H. revert pre st post. induction H as [|timeout|t H IH|s t seg f Hs H IH Hseg Hf]; intros pre st post Heq.
  - by destruct pre.
  - exfalso. eapply (not_in_passed_start (CFeed st)); [done|done|]. rewrite Heq. set_solver.
  - destruct post as [|z post _] using rev_ind.
    + rewrite app_assoc in Heq. apply app_inj_tail in Heq as [<- _]. by exists t.
    + rewrite app_comm_cons, !app_assoc in Heq. apply app_inj_tail in Heq as [Heq _]. symmetry in Heq.
      apply app_cons_left in Heq as (post' & -> & _); [by eapply IH|].
      intros Hin. by apply passed_checks in Hin as [? ?].
  - rewrite app_assoc in Heq. symmetry in Heq. apply app_cons_left in Heq as (post' & Heq & _); [|apply not_in_observed].
    apply app_eq_app in Heq as [l [[-> Hl]|[-> Hl]]].
    + destruct l as [|y l]; cbn in Hl; [|injection Hl as <- _; by eapply IH].
      symmetry in Hl. destruct (failing_feed_last [] _ _ _ Hseg Hl) as [<- _]. exists pre. by rewrite app_nil_r.
    + destruct (failing_feed_last _ _ _ _ Hseg Hl) as [-> _]. by exists t.
Qed.

(** The observer is called once, last, with the failure. *)
Lemma history_observed s t pre f post :
  history s t -> t = pre ++ CObserved f :: post -> s = WatchState.failed /\ post = [] /\ fail_status f <> Status.ok.
Proof.
  assert (Hseg0 : forall seg, failing seg -> CObserved f ∉ seg).
  { intros seg Hseg Hin. destruct Hseg; try apply elem_of_app in Hin as [Hin|Hin%list_elem_of_singleton];
      try (apply passed_checks in Hin as [? ?]); discriminate. }
  intros H. revert pre post. induction H as [|timeout|t H IH|s t seg f' Hs H IH Hseg Hf]; intros pre post Heq.
  - by destruct pre.
  - exfalso. eapply (not_in_passed_start (CObserved f)); [done|done|]. rewrite Heq. set_solver.
  - symmetry in Heq. apply app_cons_left in Heq as (post' & -> & _).
    + by destruct (IH pre post' eq_refl).
    + intros [[? ?]%passed_checks|Hin%list_elem_of_singleton]%elem_of_app; discriminate.
  - split; [done|]. rewrite app_assoc in Heq. symmetry in Heq. unfold observed in Heq.
    assert (Hno : forall p q, t ++ seg <> p ++ CObserved f :: q).
    { intros p q Hpq. symmetry in Hpq. apply app_cons_left in Hpq as (q' & -> & _); [|by apply Hseg0].
      by destruct (IH p q' eq_refl) as [-> _]. }
    destruct observer_; [|rewrite app_nil_r in Heq; by apply eq_sym, Hno in Heq].
    destruct post as [|z post _] using rev_ind.
    + apply app_inj_tail in Heq as [_ [= <-]]. done.
    + rewrite app_comm_cons, app_assoc in Heq. apply app_inj_tail in Heq as [Heq _]. by apply eq_sym, Hno in Heq.
Qed.

(** A controller that is still running after a tick has fed the hardware. *)
Lemma running_tick_feeds w : watch_inv w -> state w = WatchState.running -> state (tick w) = WatchState.running ->
  calls (tick w) = calls w ++ passed checks_ ++ [CFeed Status.ok].
Proof.
  intros [] Hs Hrun. assert (Hpre : state w <> WatchState.failed \/ started_ (machine_ (controller w)) = true) by (left; congruence).
  pose proof (tick_effect w wi_ticking0 Hpre) as He. pose proof (Step_cases w) as Hc.
  destruct (Step (state w) w) as [ns w1]. destruct He as (Es & _ & Ec & _). rewrite Hs in Hc.
  rewrite Hrun in Es. subst ns. rewrite Hs in Ec. cbn in Ec.
  destruct Hc as [(_ & _ & [?|[? _]])|(_ & [(_ & _ & [[? _]|[_ Hc]])|(? & _)])]; try discriminate.
  by rewrite Ec.
Qed.

(** *** Counting the feedings *)

Definition is_feed (c : Call) : bool := match c with CFeed Status.ok => true | _ => false end.
Definition feeds (l : list Call) : nat := length (List.filter is_feed l).

Lemma feeds_app a b : feeds (a ++ b) = (feeds a + feeds b)%nat.
Proof. unfold feeds. by rewrite List.filter_app, length_app. Qed.
Lemma feeds_passed checks : feeds (passed checks) = 0%nat.
Proof. by induction checks. Qed.
Lemma feeds_failing seg : failing seg -> feeds seg = 0%nat.
Proof. intros [|? ? ? _ _|? ? ?|[] ?]; rewrite ?feeds_app, ?feeds_passed; done. Qed.
Lemma feeds_observed f : feeds (observed f) = 0%nat.
Proof. unfold observed. by destruct observer_. Qed.

(** A tick of a started controller feeds the hardware once if it ends in
    [running], and not at all otherwise. *)
Lemma tick_feeds w : watch_inv w -> state w <> WatchState.stopped ->
  state (tick w) <> WatchState.stopped /\
  feeds (calls (tick w)) = (feeds (calls w) + if bool_decide (state (tick w) = WatchState.running) then 1 else 0)%nat.
Proof.
  intros [] Hs. assert (Hpre : state w <> WatchState.failed \/ started_ (machine_ (controller w)) = true).
  { destruct (state w); [by left|by left|right; by apply wi_started0]. }
  pose proof (tick_effect w wi_ticking0 Hpre) as He. pose proof (Step_cases w) as Hc.
  destruct (Step (state w) w) as [ns w1]. destruct He as (Es & _ & Ec & _). rewrite Es, Ec. clear Es Ec.
  destruct Hc as [(-> & -> & [Hf|[? _]])|(_ & [(-> & _ & [[? _]|[Hr Hc]])|(-> & Hnf & _ & seg & Hseg & Hc)])]; [|done|done|..].
  - split; [congruence|]. rewrite bool_decide_true, bool_decide_false by congruence. lia.
  - rewrite bool_decide_true, Hc, !feeds_app, feeds_passed by done. done.
  - rewrite bool_decide_false, observed_calls, Hc, !feeds_app, (feeds_failing seg), feeds_observed by congruence.
    split; [done|]. rewrite bool_decide_false by done. lia.
Qed.

(** A successful [start] leaves the controller running, with nothing fed yet. *)
Lemma start_ok timeout w : watch_inv w -> state w = WatchState.stopped -> fst (start timeout w) = Status.ok ->
  state (snd (start timeout w)) = WatchState.running /\ feeds (calls (snd (start timeout w))) = feeds (calls w).
Proof.
  intros [] Hs. unfold start. rewrite Hs. cbn [bool_decide negb]. rewrite bool_decide_true by done. cbn [negb].
  destruct (_ || _ || _ || _); [discriminate|]. cbn [fst snd].
  set (w1 := w <| controller := _ |>). intros Hok.
  assert (Hpre : state w1 <> WatchState.failed \/ started_ (machine_ (controller w1)) = true).
  { left. change (state w <> WatchState.failed). congruence. }
  pose proof (tick_effect w1 wi_ticking0 Hpre) as He. pose proof (Step_cases w1) as Hc.
  change (state w1) with (state w) in He, Hc. rewrite Hs in He, Hc.
  destruct (Step WatchState.stopped w1) as [ns w2]. destruct He as (Es & _ & Ec & Ef & _). rewrite Es, Ec. rewrite Ef in Hok.
  destruct Hc as [(_ & _ & [?|[_ Hr]])|(_ & [(-> & _ & [[_ [t Hc]]|[? _]])|(-> & _ & Hbad & _)])]; try done.
  split; [done|]. change (feeds (calls w2) = feeds (calls w)). rewrite Hc. by rewrite !feeds_app, feeds_passed, Nat.add_0_r.
Qed.

(** C12: the watchdog hardware is fed only by a healthy system, and a failure is
    final.  Over every sequence of [start], [tick] and other activity: each
    feeding directly follows a round in which every check passed; a running
    controller that stays running through a tick has fed the hardware; the
    observer sees at most one failure, as the very last call; and once failed,
    the controller neither runs a check nor touches the hardware again, whatever
    is called. *)
Theorem watchdog_feeds_only_healthy e ops :
  let w := run ops (boot_world e) in
  (forall pre st post, calls w = pre ++ CFeed st :: post -> exists pre', pre = pre' ++ passed checks_) /\
  (state w = WatchState.running -> state (tick w) = WatchState.running ->
     calls (tick w) = calls w ++ passed checks_ ++ [CFeed Status.ok]) /\
  (forall pre f post, calls w = pre ++ CObserved f :: post ->
     state w = WatchState.failed /\ post = [] /\ fail_status f <> Status.ok) /\
  (state w = WatchState.failed -> forall ops',
     state (run ops' w) = WatchState.failed /\ calls (run ops' w) = calls w).
Proof.
  intros w. assert (Hw : watch_inv w) by apply run_inv, boot_world_inv.
  pose proof (wi_history _ Hw) as Hh. split_and!.
  - intros pre st post Heq. by eapply history_feed.
  - by apply running_tick_feeds.
  - intros pre f post Heq. by eapply history_observed.
  - intros Hs ops'. by apply run_latched.
Qed.

End controller.

Arguments Check : clear implicits. Arguments Driver : clear implicits. Arguments World : clear implicits.
Arguments Call : clear implicits. Arguments WatchOp : clear implicits.
#[export] Existing Instance Controller_eta. #[export] Existing Instance World_eta.
#[export] Existing Instance World_machine. #[export] Existing Instance World_machine_laws.

(** ** Progress: what the check means

    Iteration [k] of a repeating task, counted from zero, was due at
    [first_due + k * period] and is unfinished while [completed <= k]. *)

Record progress_ok (t : TaskProgress) : Prop := {
  pok_due : is_u64 (p_first_due t); pok_period : is_u64 (period t); pok_completed : is_u64 (p_completed t)
}.

(** Iteration [k] of [t] is unfinished although it was due before [cutoff]. *)
Definition overdue (cutoff : Time) (t : TaskProgress) (k : Z) : Prop :=
  repeating t = true /\ 0 < period t /\ p_completed t <= k /\ p_first_due t + k * period t < cutoff.

Definition expected_iterations (cutoff : Time) (t : TaskProgress) : Z :=
  (cutoff - 1 - p_first_due t) / period t + 1.

Lemma expected_exact cutoff t :
  progress_ok t -> 0 < period t -> is_u64 cutoff -> p_first_due t < cutoff ->
  u64 (u64 (u64 (cutoff - 1) - p_first_due t) / period t + 1) = expected_iterations cutoff t.
Proof.
  intros [] Hp Hc Hlt. unfold is_u64 in *. unfold expected_iterations.
  rewrite (u64_small (cutoff - 1)) by (unfold is_u64; lia).
  rewrite (u64_small (cutoff - 1 - p_first_due t)) by (unfold is_u64; lia).
  apply u64_small. unfold is_u64.
  pose proof (Z.div_pos (cutoff - 1 - p_first_due t) (period t)).
  pose proof (Z.div_le_upper_bound (cutoff - 1 - p_first_due t) (period t) (2 ^ 64 - 2)). nia.
Qed.

(** [expected_iterations] counts the iterations due before the cutoff. *)
Lemma expected_counts cutoff t k :
  0 < period t -> p_first_due t < cutoff ->
  (k < expected_iterations cutoff t <-> p_first_due t + k * period t < cutoff).
Proof.
  intros Hp Hlt. unfold expected_iterations.
  pose proof (Z.div_mod (cutoff - 1 - p_first_due t) (period t)).
  pose proof (Z.mod_pos_bound (cutoff - 1 - p_first_due t) (period t)). split; intros; nia.
Qed.

(** The test the loop applies to one task. *)
Definition behind (cutoff : Time) (t : TaskProgress) : Prop :=
  repeating t = true /\ 0 < period t /\ p_first_due t < cutoff /\ p_completed t < expected_iterations cutoff t.

Lemma behind_overdue cutoff t : progress_ok t -> is_u64 cutoff ->
  (behind cutoff t <-> exists k, overdue cutoff t k).
Proof.
  intros [] Hc. unfold is_u64 in *. split.
  - intros (Hr & Hp & Hlt & He). exists (p_completed t). split_and!; [done|lia|lia|]. by apply expected_counts.
  - intros (k & Hr & Hp & Hk & Hlt). assert (p_first_due t < cutoff) by nia.
    split_and!; [done|lia|done|]. apply expected_counts; [lia|done|]. nia.
Qed.

Lemma progress_loop_cons cutoff t tasks :
  is_u64 cutoff -> progress_ok t ->
  (behind cutoff t /\ progress_loop cutoff (t :: tasks) =
     mkFailure Status.health_failed (Some (chars "task_progress")) (p_module t) (p_task t)
       (expected_iterations cutoff t) (p_completed t)) \/
  (~ behind cutoff t /\ progress_loop cutoff (t :: tasks) = progress_loop cutoff tasks).
Proof.
  intros Hc Ht. cbn [progress_loop]. unfold behind. pose proof (expected_exact cutoff t Ht) as Hexp. destruct Ht.
  unfold is_u64 in *.
  destruct (repeating t) eqn:Er; cbn [negb orb]; [|right; split; [naive_solver|done]].
  destruct (Z.eqb_spec (period t) 0) as [Ep|Ep]; cbn [orb]; [right; split; [lia|done]|].
  destruct (Z.geb_spec (p_first_due t) cutoff) as [Hge|Hlt]; [right; split; [lia|done]|].
  rewrite Hexp by (unfold is_u64; lia).
  destruct (Z.ltb_spec (p_completed t) (expected_iterations cutoff t)).
  - left. split; [|done]. split_and!; [done|lia|lia|done].
  - right. split; [lia|done].
Qed.

Lemma progress_loop_spec cutoff tasks :
  is_u64 cutoff -> Forall progress_ok tasks ->
  (fail_status (progress_loop cutoff tasks) = Status.ok /\ Forall (fun t => ~ behind cutoff t) tasks) \/
  exists pre t post, tasks = pre ++ t :: post /\ Forall (fun t => ~ behind cutoff t) pre /\ behind cutoff t /\
    progress_loop cutoff tasks =
      mkFailure Status.health_failed (Some (chars "task_progress")) (p_module t) (p_task t)
        (expected_iterations cutoff t) (p_completed t).
Proof.
  intros Hc Hall. induction Hall as [|t tasks Ht _ IH]; [by left|].
  destruct (progress_loop_cons cutoff t tasks Hc Ht) as [[Hb ->]|[Hb ->]].
  - right. exists [], t, tasks. split_and!; [done|constructor|done|done].
  - destruct IH as [[Hok Hf]|(pre & t' & post & -> & Hpre & Hb' & Heq)]; [left; split; [done|by constructor]|].
    right. exists (t :: pre), t', post. split_and!; [done|by constructor|done|done].
Qed.

(** The progress check reports a failure exactly when the scheduler runs and
    some repeating task has an unfinished iteration that was due more than
    [allowance] before now; the failure names such a task and carries the
    number of iterations that were due, with no overflow for any counter
    values. *)
Theorem check_progress_detects_overdue p allowance :
  is_u64 (p_now p) -> is_u64 allowance -> Forall progress_ok (p_tasks p) ->
  let f := check_progress p allowance in
  (fail_status f <> Status.ok <->
     p_running p = true /\ exists t k, t ∈ p_tasks p /\ overdue (p_now p - allowance) t k) /\
  (fail_status f <> Status.ok ->
     exists t, t ∈ p_tasks p /\ (exists k, overdue (p_now p - allowance) t k) /\
       fail_task f = p_task t /\ fail_module f = p_module t /\ fail_completed f = p_completed t /\
       forall k, k < fail_expected f <-> p_first_due t + k * period t < p_now p - allowance).
Proof.
  intros Hn Ha Hall f. unfold f, check_progress. unfold is_u64 in Hn, Ha.
  destruct (p_running p); cbn [negb orb]; [|split; [split; [done|naive_solver]|done]].
  destruct (Z.leb_spec (p_now p) allowance) as [Hle|Hlt].
  { split; [|done]. split; [done|]. intros (_ & t & k & Hin & _ & ? & ? & ?).
    rewrite Forall_forall in Hall. destruct (Hall t Hin). unfold is_u64 in *. nia. }
  assert (Hc : is_u64 (p_now p - allowance)) by (unfold is_u64; lia).
  rewrite u64_small by done.
  destruct (progress_loop_spec _ _ Hc Hall) as [[Hok Hf]|(pre & t & post & Hsplit & _ & Hb & ->)].
  - rewrite Hok. split; [|done]. split; [done|]. intros (_ & t & k & Hin & Ho).
    rewrite Forall_forall in Hf, Hall. exfalso. apply (Hf t Hin). apply behind_overdue; eauto.
  - assert (Hin : t ∈ p_tasks p) by (rewrite Hsplit; apply elem_of_app; right; left).
    pose proof (proj1 (Forall_forall _ _) Hall t Hin) as Ht.
    destruct (proj1 (behind_overdue _ t Ht Hc) Hb) as [k Hk]. destruct Hb as (_ & Hp & Hlt' & _).
    cbn [fail_status fail_task fail_module fail_completed fail_expected]. split.
    + split; [intros _; split; [done|by exists t, k]|done].
    + intros _. exists t. split_and!; try done; [by exists k|]. intros j. by apply expected_counts.
Qed.

(** ** Witnesses *)

Definition sample_progress : Progress :=
  mkProgress true 1000 [mkTaskProgress None None true 50 100 10 1; mkTaskProgress None (Some (chars "slow")) true 0 100 3 1].

Lemma check_progress_detects_overdue_witness :
  fail_status (check_progress sample_progress 100) <> Status.ok /\
  exists t, t ∈ p_tasks sample_progress /\ fail_task (check_progress sample_progress 100) = p_task t /\
    exists k, overdue (1000 - 100) t k.
Proof.
  destruct (check_progress_detects_overdue sample_progress 100) as [_ H].
  - by split.
  - by split.
  - repeat constructor; cbn; lia.
  - assert (Hf : fail_status (check_progress sample_progress 100) <> Status.ok) by (vm_compute; discriminate).
    split; [exact Hf|]. destruct (H Hf) as (t & Hin & Hk & Ht & _). exists t. split; [exact Hin|].
    split; [exact Ht|exact Hk].
Defined.

(** A system that is healthy while its clock, the environment, is below 3. *)
Definition sample_check : Check Z :=
  mkCheck (chars "clock") (Some (fun e => (no_failure <| fail_status := if e <? 3 then Status.ok else Status.health_failed |>, e))).
Definition sample_driver : Driver Z := mkDriver (Some (fun e _ => (Status.ok, e))) (Some (fun e => (Status.ok, e))).
Definition sample_ops : list (WatchOp Z) :=
  [OStart 5000000; OElse (Z.add 1); OTick; OElse (Z.add 1); OTick; OElse (Z.add 1); OTick].
Definition sample_run : World Z :=
  run (fun e _ => (Status.ok, e)) (fun e => (Status.ok, e)) sample_driver [sample_check] (Some (fun e _ => e))
    sample_ops (boot_world 0).

Lemma watchdog_feeds_only_healthy_witness :
  state sample_run = WatchState.failed /\
  (forall pre st post, calls sample_run = pre ++ CFeed st :: post -> exists pre', pre = pre' ++ passed [sample_check]).
Proof.
  pose proof (watchdog_feeds_only_healthy (fun e _ => (Status.ok, e)) (fun e => (Status.ok, e)) sample_driver
                [sample_check] (Some (fun e _ => e)) 0 sample_ops) as H.
  split; [vm_compute; reflexivity|]. exact (proj1 H).
Defined.
