(* ===== verification/Confirmation.v ===== *)
(** * Confirmation of a trial image (src/lib/watchdog/confirmation.h)

    A one-shot gate: the confirmation callback is called once, after an
    uninterrupted healthy interval, and the first unhealthy observation closes
    the gate for good.  The callback is a parameter on an environment [E]; the
    results of the calls are recorded. *)

From S2P Require Import Prelude Foundation StateMachine.

Module GateState.
Inductive State : Set := waiting | observing | confirmed | failed.
End GateState.
#[global] Instance GateState_eq_dec : EqDecision GateState.State.
Proof. solve_decision. Defined.
#[export] Instance GateState_enum : StateEnum GateState.State := {|
  state_index (s : GateState.State) := match s with
    | GateState.waiting => 0 | GateState.observing => 1 | GateState.confirmed => 2 | GateState.failed => 3
    end%nat;
  state_count := 4%nat
|}.

Section confirmation.
Context {E : Type}.

Record Confirmation := mkConfirmation {
  delay_ : Z;  (** [std::chrono::microseconds]: a signed count *)
  gate_machine_ : Machine GateState.State;
  since_ : Time;
  gate_status_ : Status;
  confirm_ : option (E -> Status * E)
}.
#[local] Instance Confirmation_eta : RecordEta Confirmation := fun c =>
  mkConfirmation (delay_ c) (gate_machine_ c) (since_ c) (gate_status_ c) (confirm_ c).
Definition new_confirmation (delay : Z) : Confirmation :=
  mkConfirmation delay (initial_machine GateState.waiting) 0 Status.ok None.

Definition callback (confirm : option (E -> Status * E)) (c : Confirmation) : Confirmation :=
  c <| confirm_ := confirm |>.

(** The object, the environment and the results of the callback so far. *)
Record Gate := mkGate { confirmation_ : Confirmation; gate_env : E; confirmations : list Status }.
#[local] Instance Gate_eta : RecordEta Gate := fun g => mkGate (confirmation_ g) (gate_env g) (confirmations g).
#[local] Instance Gate_machine : HasMachine Gate GateState.State := {|
  machine g := gate_machine_ (confirmation_ g);
  with_machine m g := g <| confirmation_ := (confirmation_ g) <| gate_machine_ := m |> |>
|}.
#[local] Instance Gate_machine_laws : HasMachineLaws Gate GateState.State.
Proof. split; [done|done|by intros [[]]]. Qed.

Definition gate_status (st : Status) (g : Gate) : Gate :=
  g <| confirmation_ := (confirmation_ g) <| gate_status_ := st |> |>.

(** Calling a null pointer: see the watchdog's driver. *)
Context (null_confirm : E -> Status * E).

Definition Step (now : Time) (healthy : bool) (cs : GateState.State) (g : Gate) : GateState.State * Gate :=
  let c := confirmation_ g in
  match cs with
  | GateState.waiting =>
      if negb healthy || (delay_ c <=? 0) then (GateState.failed, gate_status Status.health_failed g)
      else if bool_decide (is_Some (confirm_ c))
      then (GateState.observing, g <| confirmation_ := c <| since_ := now |> |>)
      else (cs, g)
  | GateState.observing =>
      if negb healthy || (now <? since_ c) then (GateState.failed, gate_status Status.health_failed g)
      else if u64 (now - since_ c) >=? u64 (delay_ c)
      then let '(st, e) := default null_confirm (confirm_ c) (gate_env g) in
           let g := gate_status st (g <| gate_env := e |> <| confirmations := confirmations g ++ [st] |>) in
           (if st =s? Status.ok then GateState.confirmed else GateState.failed, g)
      else (cs, g)
  | GateState.confirmed | GateState.failed => (cs, g)
  end.

Definition tick (now : Time) (healthy : bool) (g : Gate) : Status * Gate :=
  let g := snd (StateMachine.tick (step_only (Step now healthy)) g) in
  (gate_status_ (confirmation_ g), g).

Definition state (g : Gate) : GateState.State := cs (gate_machine_ (confirmation_ g)).

(** ** Runs *)

(** Between two ticks the environment may change. *)
Definition observe (g : Gate) (o : (Time * bool) * (E -> E)) : Gate :=
  snd (tick (fst (fst o)) (snd (fst o)) (g <| gate_env := snd o (gate_env g) |>)).
Definition observe_all (os : list ((Time * bool) * (E -> E))) (g : Gate) : Gate := foldl observe g os.

#[local] Arguments post_machine : simpl never.

Lemma tick_gate now healthy g : ticking_ (gate_machine_ (confirmation_ g)) = false ->
  let '(ns, g1) := Step now healthy (state g) g in
  let g' := snd (tick now healthy g) in
  state g' = ns /\ since_ (confirmation_ g') = since_ (confirmation_ g1) /\
  gate_status_ (confirmation_ g') = gate_status_ (confirmation_ g1) /\
  delay_ (confirmation_ g') = delay_ (confirmation_ g1) /\ confirm_ (confirmation_ g') = confirm_ (confirmation_ g1) /\
  confirmations g' = confirmations g1 /\ ticking_ (gate_machine_ (confirmation_ g')) = false.
Proof.
  intros Ht. unfold tick. cbn [snd]. rewrite tick_oblivious; [|clear|exact Ht].
  - change (cs (machine g)) with (state g). destruct (Step now healthy (state g) g) as [ns g1] eqn:Es. cbn.
    unfold state. cbn. rewrite cs_post_machine. by destruct ns.
  - intros s m g. unfold Step. destruct s; cbn; [| |done|done].
    + destruct (_ || _); [done|]. by destruct (bool_decide _).
    + destruct (_ || _); [done|]. destruct (_ >=? _); [|done].
      destruct (default null_confirm _ _) as [st e]. cbn. by destruct (st =s? Status.ok).
Qed.

(** ** Exactly when the callback is called

    The observations up to some point: [quiet] ones come after the first and do
    not reach the end of the interval; [due] is the one that does. *)

Section gate.
Context (delay : Z) (confirm : E -> Status * E).
Context (Hdelay : 0 < delay < 2 ^ 63).

Definition fresh_gate (e : E) : Gate := mkGate (callback (Some confirm) (new_confirmation delay)) e [].

Definition healthy_within (t0 : Time) (o : (Time * bool) * (E -> E)) : Prop :=
  snd (fst o) = true /\ t0 <= fst (fst o) < t0 + delay.
Definition healthy_after (t0 : Time) (o : (Time * bool) * (E -> E)) : Prop :=
  snd (fst o) = true /\ t0 + delay <= fst (fst o).

(** The observations that lead to a call. *)
Definition earned (os : list ((Time * bool) * (E -> E))) : Prop :=
  exists o quiet due rest, os = o :: quiet ++ due :: rest /\ snd (fst o) = true /\
    Forall (healthy_within (fst (fst o))) quiet /\ healthy_after (fst (fst o)) due.

(** The observations that close the gate: an unhealthy first one, or an
    unhealthy one or a clock that went back before the interval was over. *)
Definition spoiled (os : list ((Time * bool) * (E -> E))) : Prop :=
  (exists o rest, os = o :: rest /\ snd (fst o) = false) \/
  (exists o quiet bad rest, os = o :: quiet ++ bad :: rest /\ Forall (healthy_within (fst (fst o))) quiet /\
     ~ (snd (fst bad) = true /\ fst (fst o) <= fst (fst bad))).

(** The gate's state as a function of the observations. *)
Inductive gate_history : list ((Time * bool) * (E -> E)) -> Gate -> Prop :=
  | gh_fresh g : state g = GateState.waiting -> confirmations g = [] -> gate_status_ (confirmation_ g) = Status.ok ->
      gate_history [] g
  | gh_observing o quiet g : state g = GateState.observing -> confirmations g = [] ->
      gate_status_ (confirmation_ g) = Status.ok -> since_ (confirmation_ g) = fst (fst o) ->
      snd (fst o) = true -> Forall (healthy_within (fst (fst o))) quiet -> gate_history (o :: quiet) g
  | gh_called os st g : confirmations g = [st] -> gate_status_ (confirmation_ g) = st -> earned os ->
      state g = (if st =s? Status.ok then GateState.confirmed else GateState.failed) -> gate_history os g
  | gh_closed os g : state g = GateState.failed -> confirmations g = [] ->
      gate_status_ (confirmation_ g) = Status.health_failed -> spoiled os -> gate_history os g.

Definition gate_inv (os : list ((Time * bool) * (E -> E))) (g : Gate) : Prop :=
  gate_history os g /\ delay_ (confirmation_ g) = delay /\ confirm_ (confirmation_ g) = Some confirm /\
  ticking_ (gate_machine_ (confirmation_ g)) = false.

Lemma earned_app os o : earned os -> earned (os ++ [o]).
Proof.
  intros (o0 & quiet & due & rest & -> & H1 & H2 & H3). exists o0, quiet, due, (rest ++ [o]).
  split_and!; try done. cbn. by rewrite <- app_assoc.
Qed.

(** A bad observation after quiet ones: the call cannot be earned any more. *)
Lemma not_earned_bad o quiet bad rest :
  Forall (healthy_within (fst (fst o))) quiet ->
  ~ (snd (fst bad) = true /\ fst (fst o) <= fst (fst bad)) -> ~ earned (o :: quiet ++ bad :: rest).
Proof.
  intros Hq Hbad (o' & quiet' & due & rest' & [= <- Heq] & _ & Hq' & Hd & Hlate).
  revert quiet' Heq Hq'. induction Hq as [|q quiet [Hq1 Hq2] _ IH]; intros [|q' quiet'] Heq Hq'; cbn in Heq.
  - injection Heq as -> _. apply Hbad. split; [done|lia].
  - injection Heq as -> _. inversion Hq' as [|? ? [? ?]]; subst. apply Hbad. split; [done|lia].
  - injection Heq as -> _. lia.
  - injection Heq as -> Heq. inversion Hq'; subst. by eapply IH.
Qed.

Lemma spoiled_app os o : spoiled os -> spoiled (os ++ [o]).
Proof.
  intros [(o0 & rest & -> & H)|(o0 & quiet & bad & rest & -> & H1 & H2)].
  - left. by exists o0, (rest ++ [o]).
  - right. exists o0, quiet, bad, (rest ++ [o]). split_and!; try done. cbn. by rewrite <- app_assoc.
Qed.

Lemma spoiled_not_earned os : spoiled os -> ~ earned os.
Proof.
  intros [(o0 & rest & -> & H)|(o0 & quiet & bad & rest & -> & H1 & H2)].
  - intros (o' & ? & ? & ? & [= <- _] & Ho & _). congruence.
  - by apply not_earned_bad.
Qed.

Lemma open_not_earned o quiet : Forall (healthy_within (fst (fst o))) quiet -> ~ earned (o :: quiet).
Proof.
  intros Hq (o' & quiet' & due & rest & [= <- ->] & _ & _ & _ & Hlate).
  apply Forall_app in Hq as [_ Hq]. inversion Hq as [|? ? [_ ?]]; subst. lia.
Qed.

Lemma observe_inv os o g :
  is_u64 (fst (fst o)) -> Forall (fun o => is_u64 (fst (fst o))) os -> gate_inv os g -> gate_inv (os ++ [o]) (observe g o).
Proof.
  intros Hu Hall (Hh & Hd & Hc & Ht). unfold observe.
  set (g0 := g <| gate_env := snd o (gate_env g) |>).
  pose proof (tick_gate (fst (fst o)) (snd (fst o)) g0 Ht) as H.
  change (state g0) with (state g) in H.
  assert (Hg1 : confirmation_ g0 = confirmation_ g) by done. assert (Hg2 : confirmations g0 = confirmations g) by done.
  clearbody g0. destruct o as [[now healthy] f]. cbn [fst snd] in *.
  unfold is_u64 in Hu. generalize dependent (snd (tick now healthy g0)). intros g' H.
  destruct Hh as [g Hs Hn Hst|o quiet g Hs Hn Hst Hsince Hok Hq|os st g Hn Hst He Hs|os g Hs Hn Hst Hsp];
    rewrite Hs in H; unfold Step in H; rewrite ?Hg1 in H.
  - rewrite Hd in H.
    rewrite Hc, bool_decide_true in H by done.
    destruct healthy; cbn [negb orb] in H; [destruct (Z.leb_spec delay 0); [lia|]|];
      destruct H as (E1 & E2 & E3 & E4 & E5 & E6 & E7); cbn in E2, E3, E4, E5, E6; (split; [|by split_and!; congruence]).
    + apply gh_observing; [done|congruence|congruence|done|done|constructor].
    + apply gh_closed; [done|congruence|done|]. left. by exists (now, false, f), [].
  - inversion Hall as [|? ? Hu0 _]; subst. unfold is_u64 in Hu0. rewrite Hsince, Hd in H.
    destruct (negb healthy || (now <? fst (fst o))) eqn:Hbad.
    { destruct H as (E1 & E2 & E3 & E4 & E5 & E6 & E7); cbn in E2, E3, E4, E5, E6; (split; [|by split_and!; congruence]).
      apply gh_closed; [done|congruence|done|]. right. exists o, quiet, (now, healthy, f), []. split_and!; [done|done|].
      cbn. intros [-> ?]. cbn [negb orb] in Hbad. apply Z.ltb_lt in Hbad. lia. }
    apply orb_false_iff in Hbad as [Hhe Hlt]. apply negb_false_iff in Hhe as ->. apply Z.ltb_ge in Hlt.
    rewrite (u64_small (now - _)), (u64_small delay) in H by (unfold is_u64; lia).
    destruct (Z.geb_spec (now - fst (fst o)) delay) as [Hge|Hlt'].
    + rewrite Hc in H. change (default null_confirm (Some confirm)) with confirm in H.
      destruct (confirm (gate_env g0)) as [st e]. cbv beta zeta iota in H.
      destruct H as (E1 & E2 & E3 & E4 & E5 & E6 & E7); cbn in E2, E3, E4, E5, E6; (split; [|by split_and!; congruence]).
      eapply gh_called; [by rewrite E6, Hg2, Hn|done| |done]. exists o, quiet, (now, true, f), [].
      split_and!; [done|done|done|]. split; [done|]. cbn. lia.
    + destruct H as (E1 & E2 & E3 & E4 & E5 & E6 & E7); cbn in E2, E3, E4, E5, E6; (split; [|by split_and!; congruence]).
      apply gh_observing; [done|congruence|congruence|congruence|done|]. apply Forall_app. split; [done|].
      apply Forall_singleton. split; [done|]. cbn. lia.
  - assert (H' : let '(ns, g1) := (state g, g0) in
      state g' = ns /\ gate_status_ (confirmation_ g') = gate_status_ (confirmation_ g1) /\
      delay_ (confirmation_ g') = delay_ (confirmation_ g1) /\ confirm_ (confirmation_ g') = confirm_ (confirmation_ g1) /\
      confirmations g' = confirmations g1 /\ ticking_ (gate_machine_ (confirmation_ g')) = false).
    { rewrite Hs. destruct (st =s? Status.ok); naive_solver. }
    destruct H' as (E1 & E3 & E4 & E5 & E6 & E7). cbn in E3, E4, E5, E6. split; [|by split_and!; congruence].
    eapply gh_called; [by rewrite E6, Hg2|congruence|by apply earned_app|congruence].
  - destruct H as (E1 & E2 & E3 & E4 & E5 & E6 & E7); cbn in E2, E3, E4, E5, E6; (split; [|by split_and!; congruence]).
    apply gh_closed; [done|congruence|congruence|by apply spoiled_app].
Qed.

Lemma gate_inv_env os e g : gate_inv os g -> gate_inv os (g <| gate_env := e |>).
Proof.
  intros [Hh Hg]. split; [|exact Hg].
  destruct Hh; [apply gh_fresh|apply gh_observing|eapply gh_called|apply gh_closed]; done.
Qed.

Lemma observe_all_inv os e :
  Forall (fun o => is_u64 (fst (fst o))) os -> gate_inv os (observe_all os (fresh_gate e)).
Proof.
  induction os as [|o os IH] using rev_ind; intros Hu.
  - split; [|done]. by apply gh_fresh.
  - apply Forall_app in Hu as [Hu Ho]. inversion Ho as [|? ? Ho1 _]; subst. unfold observe_all. rewrite foldl_app.
    cbn [foldl]. apply observe_inv; [exact Ho1|exact Hu|exact (IH Hu)].
Qed.

Lemma gate_inv_calls os g : gate_inv os g ->
  (earned os -> exists st, confirmations g = [st]) /\ (~ earned os -> confirmations g = []).
Proof.
  intros [Hh _].
  destruct Hh as [g Hs Hn Hst|o quiet g Hs Hn Hst Hsince Hok Hq|os st g Hn Hst He Hs|os g Hs Hn Hst Hsp]; split; try done.
  - by intros (? & ? & ? & ? & ? & _).
  - intros He. by apply open_not_earned in He.
  - intros _. by exists st.
  - intros He. by apply spoiled_not_earned in He.
Qed.

(** The confirmation callback is called exactly when it is earned, and once:
    after a first healthy observation, healthy ones at times that do not go back,
    and a healthy one at least [delay] later.  Then the gate is confirmed if the
    callback succeeds, and closed for good otherwise; without such observations
    the callback is not called and the gate is not confirmed. *)
Theorem confirmation_called_when_earned e os :
  Forall (fun o => is_u64 (fst (fst o))) os ->
  let g := observe_all os (fresh_gate e) in
  (earned os -> exists st, confirmations g = [st] /\
     state g = if st =s? Status.ok then GateState.confirmed else GateState.failed) /\
  (~ earned os -> confirmations g = [] /\ state g <> GateState.confirmed).
Proof.
  intros Hu g. destruct (observe_all_inv os e Hu) as [Hh _]. fold g in Hh.
  destruct Hh as [g Hs Hn Hst|o quiet g Hs Hn Hst Hsince Hok Hq|os st g Hn Hst He Hs|os g Hs Hn Hst Hsp].
  - split; [|intros _; by rewrite Hs]. by intros (? & ? & ? & ? & ? & _).
  - split; [|intros _; by rewrite Hs]. intros He. by apply open_not_earned in He.
  - split; [|done]. intros _. by exists st.
  - split; [|intros _; by rewrite Hs]. intros He. by apply spoiled_not_earned in He.
Qed.
End gate.
End confirmation.

Arguments Confirmation : clear implicits. Arguments Gate : clear implicits.
#[export] Existing Instance Confirmation_eta. #[export] Existing Instance Gate_eta.
#[export] Existing Instance Gate_machine. #[export] Existing Instance Gate_machine_laws.

(** ** Witness *)

Definition sample_observations : list ((Time * bool) * (Z -> Z)) :=
  [((100, true), id); ((2000, true), Z.add 1); ((5000100, true), Z.add 1); ((5000200, false), id)].
Definition sample_confirm (e : Z) : Status * Z := (if e =? 2 then Status.ok else Status.io_error, e + 1).

Lemma confirmation_called_when_earned_witness :
  exists st, confirmations (observe_all sample_confirm sample_observations (fresh_gate 5000000 sample_confirm 0)) = [st] /\
    state (observe_all sample_confirm sample_observations (fresh_gate 5000000 sample_confirm 0)) =
      if st =s? Status.ok then GateState.confirmed else GateState.failed.
Proof.
  assert (Hd : 0 < 5000000 < 2 ^ 63) by lia.
  apply (confirmation_called_when_earned sample_confirm 5000000 sample_confirm Hd 0 sample_observations).
  - do 4 (apply Forall_cons; split; [unfold is_u64; cbn; lia|]). apply Forall_nil; exact I.
  - exists ((100, true), id), [((2000, true), Z.add 1)], ((5000100, true), Z.add 1), [((5000200, false), id)].
    split; [reflexivity|]. split; [reflexivity|]. split.
    + apply Forall_cons. split; [|apply Forall_nil; exact I]. split; [reflexivity|cbn; lia].
    + split; [reflexivity|cbn; lia].
Defined.
