(* ===== verification/Health.v ===== *)
(** * The health module (src/lib/watchdog/health.hpp)

    Supervision as the scheduler runs it: a heartbeat task, and a check task
    that ticks the watchdog controller and then the confirmation gate.  The
    board ([Hardware], [Platform]), the scheduler behind [attach_progress], the
    logger and the confirmation callback are parameters on the rest of the
    system [P]. *)

From Stdlib Require Import Strings.String.
From S2P Require Import Prelude Foundation Wire StateMachine Codec Match Scheduler Fault Watchdog Confirmation.

Definition kWatchdogTimeout : Time := 5000000.
Definition kHeartbeatMaxAge : Time := 1000000.
Definition kProgressAllowance : Time := 100000.
Definition kConfirmationDelay : Time := 5000000.

(** A log record: the format that is used and its arguments. *)
Inductive Message :=
  | PreviousResetWatchdog
  | WatchdogLatched (check module task : option Name)
  | ImageConfirmed | HealthyForFiveSeconds
  | StatusLine (watchdog confirmation : Name)
  | RetainedFailure (check module task : Name) (status : Z)
  | RetainedRegisters (cfsr hfsr sp : Z)
  | RetainedFrame (pc lr xpsr : Z) | FrameUnavailable | NoRetainedFailure
  | CrcAgrees (value : Z) | RetainedCleared.

(** The board and the services, on the state [P] of the rest of the system. *)
Record Board (P : Type) := mkBoard {
  board_now : P -> Time * P;
  prepare_health : P -> bool * P;
  watch_start : option (P -> Time -> Status * P);
  watch_feed : option (P -> Status * P);
  record_failure : Data -> P -> P;
  retained_fault : P -> FaultRecord;
  set_retained_fault : FaultRecord -> P -> P;
  scheduler_progress : P -> Progress * P;
  log : Message -> P -> P;
  crc32_backend : Backend
}.
Arguments mkBoard {P}. Arguments board_now {P}. Arguments prepare_health {P}. Arguments watch_start {P}.
Arguments watch_feed {P}. Arguments record_failure {P}. Arguments retained_fault {P}.
Arguments set_retained_fault {P}. Arguments scheduler_progress {P}. Arguments log {P}. Arguments crc32_backend {P}.

Section health.
Context {P : Type} (board : Board P) (version_ : Version).
(** See the watchdog's driver. *)
Context (null_start : P -> Time -> Status * P) (null_feed null_confirm : P -> Status * P).

(** The members that the checks read, with the rest of the system. *)
Record HealthEnv := mkEnv {
  plat : P; last_heartbeat_ : Time; dispatching_ : bool; progress_ : bool
}.
#[local] Instance HealthEnv_eta : RecordEta HealthEnv := fun e =>
  mkEnv (plat e) (last_heartbeat_ e) (dispatching_ e) (progress_ e).

Record Health := mkHealth {
  henv : HealthEnv;
  hcontroller : Controller;
  hcalls : list Call;
  hconfirmation : Confirmation HealthEnv;
  hconfirmations : list Status;
  observations : list (Time * bool);  (** what the gate has been told, in order *)
  watchdog_reset_ : bool; reported_ : bool; confirms_image_ : bool
}.
#[local] Instance Health_eta : RecordEta Health := fun h =>
  mkHealth (henv h) (hcontroller h) (hcalls h) (hconfirmation h) (hconfirmations h) (observations h)
    (watchdog_reset_ h) (reported_ h) (confirms_image_ h).

Definition on_plat {A} (f : P -> A * P) (e : HealthEnv) : A * HealthEnv :=
  let '(a, p) := f (plat e) in (a, e <| plat := p |>).
Definition emit (m : Message) (h : Health) : Health :=
  h <| henv := (henv h) <| plat := log board m (plat (henv h)) |> |>.

Definition new_health (p : P) : Health :=
  mkHealth (mkEnv p 0 false false) new_controller [] (new_confirmation kConfirmationDelay) [] [] false false false.

(** ** Checks *)

Definition HeartbeatHealth (e : HealthEnv) : Failure * HealthEnv :=
  if negb (dispatching_ e) then (no_failure, e)
  else
    let '(t, e) := on_plat (board_now board) e in
    (if u64 (t - last_heartbeat_ e) >? kHeartbeatMaxAge
     then no_failure <| fail_status := Status.health_failed |> else no_failure, e).

Definition ProgressHealth (e : HealthEnv) : Failure * HealthEnv :=
  if negb (dispatching_ e) then (no_failure, e)
  else if progress_ e
  then let '(p, e) := on_plat (scheduler_progress board) e in (check_progress p kProgressAllowance, e)
  else (no_failure <| fail_status := Status.not_running |>, e).

Definition health_checks : list (Check HealthEnv) :=
  [mkCheck (chars "heartbeat") (Some HeartbeatHealth); mkCheck (chars "task_progress") (Some ProgressHealth)].

(** [Record]: a null [module] is replaced; the other names are never null. *)
Definition fault_data (failure : Failure) (kind_ : Kind.Kind) : Data :=
  no_data <| kind := kind_ |> <| f_version := version_ |> <| f_status := status_code (fail_status failure) |>
    <| f_check := copy_name (replicate 32 0) (default [] (fail_check failure)) |>
    <| f_module := copy_name (replicate 32 0) (default (chars "core") (fail_module failure)) |>
    <| f_task := copy_name (replicate 32 0) (default [] (fail_task failure)) |>
    <| f_expected := fail_expected failure |> <| f_completed := fail_completed failure |>.
Definition Record_ (kind_ : Kind.Kind) (e : HealthEnv) (failure : Failure) : HealthEnv :=
  e <| plat := record_failure board (fault_data failure kind_) (plat e) |>.

Definition health_driver : Driver HealthEnv :=
  mkDriver ((fun f e t => on_plat (fun p => f p t) e) <$> watch_start board)
           ((fun f e => on_plat f e) <$> watch_feed board).

(** The controller and the gate, as members of the module. *)
Definition lift_start (e : HealthEnv) (t : Time) : Status * HealthEnv := on_plat (fun p => null_start p t) e.
Definition watch_world (h : Health) : World HealthEnv := mkWorld (hcontroller h) (henv h) (hcalls h).
Definition with_watch (w : World HealthEnv) (h : Health) : Health :=
  h <| henv := env w |> <| hcontroller := controller w |> <| hcalls := calls w |>.
Definition watch_op (op : WatchOp HealthEnv) (h : Health) : Health :=
  with_watch (perform lift_start (on_plat null_feed) health_driver health_checks (Some (Record_ Kind.watchdog)) op
                (watch_world h)) h.
Definition watch_state (h : Health) : WatchState.State := Watchdog.state (watch_world h).

Definition health_gate (h : Health) : Gate HealthEnv := mkGate (hconfirmation h) (henv h) (hconfirmations h).
Definition gate_state (h : Health) : GateState.State := Confirmation.state (health_gate h).
Definition gate_tick (now : Time) (healthy : bool) (h : Health) : Status * Health :=
  let '(st, g) := Confirmation.tick (on_plat null_confirm) now healthy (health_gate h) in
  (st, h <| henv := gate_env g |> <| hconfirmation := confirmation_ g |> <| hconfirmations := confirmations g |>
         <| observations := observations h ++ [(now, healthy)] |>).

(** ** Operations; a function that does not return ends in [Halts] *)

Inductive Outcome := Returns (h : Health) | Halts (h : Health).
Definition health_of (o : Outcome) : Health := match o with Returns h => h | Halts h => h end.

Definition attach_progress (h : Health) : Health := h <| henv := (henv h) <| progress_ := true |> |>.

Definition confirmation (confirm : option (P -> Status * P)) (h : Health) : Health :=
  h <| confirms_image_ := bool_decide (is_Some confirm) |>
    <| hconfirmation := callback ((fun f e => on_plat f e) <$> confirm) (hconfirmation h) |>.

Definition early_start (h : Health) : Status * Health :=
  let '(reset, e) := on_plat (prepare_health board) (henv h) in
  let h := h <| henv := e |> <| watchdog_reset_ := reset |> in
  let '(st, w) := start lift_start (on_plat null_feed) health_driver health_checks (Some (Record_ Kind.watchdog))
                    kWatchdogTimeout (watch_world h) in
  (st, with_watch w h).

Definition initialization_failed (status : Status) (module : Name) (h : Health) : Outcome :=
  Halts (h <| henv := Record_ Kind.initialization (henv h)
                        (mkFailure status (Some (chars "initialization")) (Some module) (Some []) 0 0) |>).

Definition early (h : Health) : Outcome :=
  let '(st, h) := early_start (attach_progress h) in
  if negb (st =s? Status.ok) then initialization_failed st (chars "core") h else Returns h.

Definition Fault (h : Health) : Status * Health :=
  let '(valid, data) := read (retained_fault board (plat (henv h))) no_data in
  if valid then
    let h := emit (RetainedFailure (f_check data) (f_module data) (f_task data) (f_status data)) h in
    let h := emit (RetainedRegisters (cfsr data) (hfsr data) (f_stack data)) h in
    (Status.ok, if frame_valid data
                then emit (RetainedFrame (frame data !!! 6%nat) (frame data !!! 5%nat) (frame data !!! 7%nat)) h
                else emit FrameUnavailable h)
  else (Status.ok, emit NoRetainedFailure h).

Definition init (stage : InitStage) (h : Health) : Status * Health :=
  match stage with
  | stage1 =>
      let '(t, e) := on_plat (board_now board) (henv h) in
      let h := h <| henv := e <| last_heartbeat_ := t |> |> in
      if negb (bool_decide (watch_state h = WatchState.running)) then (Status.initialization_failed, h)
      else (Status.ok, h)
  | stage2 =>
      let h := if watchdog_reset_ h then emit PreviousResetWatchdog h else h in
      (Status.ok, snd (Fault h))
  end.

Definition Heartbeat (h : Health) : Health :=
  let '(t, e) := on_plat (board_now board) (henv h) in h <| henv := e <| last_heartbeat_ := t |> |>.

Definition begin_dispatch (h : Health) : Health :=
  if negb (dispatching_ (henv h))
  then let h := Heartbeat h in h <| henv := (henv h) <| dispatching_ := true |> |> else h.

Definition Check_ (h : Health) : Outcome :=
  let h := begin_dispatch h in
  let h := watch_op OTick h in
  let previous := gate_state h in
  let '(t, e) := on_plat (board_now board) (henv h) in
  let h := h <| henv := e |> in
  let '(confirmed, h) := gate_tick t (bool_decide (watch_state h = WatchState.running)) h in
  if negb (bool_decide (watch_state h = WatchState.running)) then
    Returns (if reported_ h then h
             else let f := failure_ (hcontroller h) in
                  emit (WatchdogLatched (fail_check f) (fail_module f) (fail_task f)) (h <| reported_ := true |>))
  else if negb (confirmed =s? Status.ok) then initialization_failed confirmed (chars "boot") h
  else if negb (bool_decide (previous = GateState.confirmed)) && bool_decide (gate_state h = GateState.confirmed)
  then Returns (emit (if confirms_image_ h then ImageConfirmed else HealthyForFiveSeconds) h)
  else Returns h.

(** ** Console commands *)

Definition Status_ (h : Health) : Status * Health :=
  (Status.ok, emit (StatusLine (if bool_decide (watch_state h = WatchState.running) then chars "running" else chars "latched")
                      (if negb (confirms_image_ h) then chars "not configured"
                       else if bool_decide (gate_state h = GateState.confirmed) then chars "confirmed" else chars "waiting")) h).

Definition Crc (text : list Z) (h : Health) : Status * Health :=
  let service := crc32_backend board in
  let value := service_calculate service text in
  let split := (length text / 2)%nat in
  let incremental := service_update service (service_calculate service (take split text)) (drop split text) in
  if negb (value =? crc32_calculate text) || negb (value =? incremental) then (Status.checksum_error, h)
  else (Status.ok, emit (CrcAgrees value) h).

Definition Clear (h : Health) : Status * Health :=
  let h := h <| henv := (henv h) <| plat := set_retained_fault board (clear_fault (retained_fault board (plat (henv h))))
                                              (plat (henv h)) |> |> in
  (Status.ok, emit RetainedCleared h).

(** ** Runs of the two tasks

    Heartbeat and check are dispatched in any order, module initialization may
    come in between, and anything else may happen to the rest of the system.
    After [Halts] nothing runs. *)

Inductive HealthOp := HInit (stage : InitStage) | HHeartbeat | HCheck
  | HStatus | HFault | HClear | HCrc (text : list Z) | HElse (f : P -> P).
Definition perform_health (op : HealthOp) (h : Health) : Outcome :=
  match op with
  | HInit stage => Returns (snd (init stage h))
  | HHeartbeat => Returns (Heartbeat h)
  | HCheck => Check_ h
  | HStatus => Returns (snd (Status_ h))
  | HFault => Returns (snd (Fault h))
  | HClear => Returns (snd (Clear h))
  | HCrc text => Returns (snd (Crc text h))
  | HElse f => Returns (h <| henv := (henv h) <| plat := f (plat (henv h)) |> |>)
  end.
Definition run_health (ops : list HealthOp) (o : Outcome) : Outcome :=
  foldl (fun o op => match o with Returns h => perform_health op h | Halts h => Halts h end) o ops.

(** The observations that earn a confirmation. *)
Definition supervised (obs : list (Time * bool)) : Prop :=
  exists first quiet due rest, obs = first :: quiet ++ due :: rest /\ snd first = true /\
    Forall (fun o => snd o = true /\ fst first <= fst o < fst first + kConfirmationDelay) quiet /\
    snd due = true /\ fst first + kConfirmationDelay <= fst due.

Definition healthy_count (obs : list (Time * bool)) : nat := length (List.filter snd obs).

Context (confirm : P -> Status * P).
Definition lift_confirm (e : HealthEnv) : Status * HealthEnv := on_plat confirm e.

Lemma earned_supervised (os : list ((Time * bool) * (HealthEnv -> HealthEnv))) : earned kConfirmationDelay os <-> supervised (os.*1 : list (Time * bool)).
Proof.
  split.
  - intros (o & quiet & due & rest & -> & Ho & Hq & Hd). exists (fst o), (quiet.*1), (fst due), (rest.*1).
    split_and!; try apply Hd; [by cbn; rewrite fmap_app|done|]. apply Forall_fmap. exact Hq.
  - intros (o & quiet & due & rest & Heq & Ho & Hq & Hd).
    destruct os as [|o' os]; [discriminate|]. injection Heq as <- Heq.
    apply fmap_app_inv in Heq as (q' & l & Hq' & Hl & ->).
    destruct l as [|d' r']; [discriminate|]. injection Hl as -> ->. subst quiet.
    exists o', q', d', r'. split_and!; [done|done| |done]. by apply Forall_fmap in Hq.
Qed.

Record health_inv (h : Health) : Prop := {
  hi_watch : watch_inv health_checks (Some (Record_ Kind.watchdog)) (watch_world h);
  hi_started : watch_state h <> WatchState.stopped;
  hi_gate : exists os, os.*1 = observations h /\ Forall (fun o => is_u64 (fst (fst o))) os /\
              gate_inv kConfirmationDelay lift_confirm os (health_gate h);
  hi_feeds : feeds (hcalls h) = healthy_count (observations h)
}.

(** The members other than [henv] decide the invariant. *)
Lemma health_inv_env e h : health_inv h -> health_inv (h <| henv := e |>).
Proof.
  intros [Hw Hs (os & Ho & Hu & Hg) Hf]. split; [|exact Hs| |exact Hf].
  - destruct Hw. by split.
  - exists os. split_and!; [done|done|]. apply (gate_inv_env kConfirmationDelay lift_confirm os e (health_gate h)), Hg.
Qed.

Lemma health_inv_log m h : health_inv h -> health_inv (emit m h).
Proof. apply health_inv_env. Qed.
Lemma health_inv_reported h : health_inv h -> health_inv (h <| reported_ := true |>).
Proof. intros []. by split. Qed.

Lemma Heartbeat_inv h : health_inv h -> health_inv (Heartbeat h).
Proof. intros H. unfold Heartbeat. destruct (on_plat _ _) as [t e]. by apply health_inv_env. Qed.
Lemma begin_dispatch_inv h : health_inv h -> health_inv (begin_dispatch h).
Proof.
  intros H. unfold begin_dispatch. destruct (negb _); [|done]. by apply health_inv_env, Heartbeat_inv.
Qed.
Lemma Fault_inv h : health_inv h -> health_inv (snd (Fault h)).
Proof.
  intros H. unfold Fault. destruct (read _ _) as [[] data]; cbn [snd]; [destruct (frame_valid data)|];
    by repeat apply health_inv_log.
Qed.
Lemma init_inv stage h : health_inv h -> health_inv (snd (init stage h)).
Proof.
  intros H. destruct stage; cbn [init].
  - destruct (on_plat _ _) as [t e]. destruct (negb _); by apply health_inv_env.
  - apply Fault_inv. destruct (watchdog_reset_ h); [by apply health_inv_log|done].
Qed.

(** ** The check task *)

Context (Hnow : forall p, is_u64 (fst (board_now board p))).

Lemma healthy_count_app obs t b : healthy_count (obs ++ [(t, b)]) = (healthy_count obs + if b then 1 else 0)%nat.
Proof. unfold healthy_count. rewrite List.filter_app, length_app. by destruct b. Qed.

Lemma watch_world_with w h : watch_world (with_watch w h) = w.
Proof. by destruct w. Qed.

(** One tick of the controller, then one of the gate. *)
Lemma ticks_inv t e h : is_u64 t -> health_inv h ->
  let h1 := (watch_op OTick h) <| henv := e |> in
  health_inv (snd (gate_tick t (bool_decide (watch_state h1 = WatchState.running)) h1)).
Proof.
  intros Ht [Hw Hs (os & Ho & Hu & Hg) Hf] h1.
  set (w := perform lift_start (on_plat null_feed) health_driver health_checks (Some (Record_ Kind.watchdog)) OTick (watch_world h)).
  assert (Hw1 : watch_inv health_checks (Some (Record_ Kind.watchdog)) w) by by apply perform_inv.
  assert (Hst : watch_state h1 = Watchdog.state w) by done.
  destruct (tick_feeds lift_start (on_plat null_feed) health_driver health_checks (Some (Record_ Kind.watchdog)) _ Hw Hs) as [Hs' Hfeeds].
  fold (watch_state h) in Hs'. change (Watchdog.tick _ _ _ _ _ (watch_world h)) with w in Hs', Hfeeds.
  rewrite Hst. set (b := bool_decide (Watchdog.state w = WatchState.running)) in *.
  pose proof (observe_inv (on_plat null_confirm) kConfirmationDelay lift_confirm ltac:(unfold kConfirmationDelay; lia)
                os ((t, b), fun _ => e) (health_gate h) Ht Hu Hg) as Hg'.
  unfold observe in Hg'. cbn [fst snd] in Hg'. unfold gate_tick.
  change (health_gate h1) with ((health_gate h) <| gate_env := e |>).
  change ((health_gate h) <| gate_env := (fun _ => e) (gate_env (health_gate h)) |>) with ((health_gate h) <| gate_env := e |>) in Hg'.
  destruct (Confirmation.tick _ t b _) as [st g]. cbn [snd] in *. split.
  - destruct Hw1. by split.
  - exact Hs'.
  - exists (os ++ [((t, b), fun _ => e)]). split_and!.
    + rewrite fmap_app, Ho. done.
    + apply Forall_app. split; [done|]. by apply Forall_singleton.
    + destruct g. exact Hg'.
  - change (feeds (calls w) = healthy_count (observations h ++ [(t, b)])).
    rewrite healthy_count_app, <- Hf. exact Hfeeds.
Qed.

Lemma Check_inv h : health_inv h -> health_inv (health_of (Check_ h)).
Proof.
  intros Hh. unfold Check_. apply begin_dispatch_inv in Hh. revert Hh. generalize (begin_dispatch h). clear h. intros h Hh.
  cbv zeta. unfold on_plat at 1. pose proof (Hnow (plat (henv (watch_op OTick h)))) as Ht.
  destruct (board_now board _) as [t p]. cbn [fst] in Ht.
  pose proof (ticks_inv t ((henv (watch_op OTick h)) <| plat := p |>) h Ht Hh) as H. cbv zeta in H. revert H.
  destruct (gate_tick _ _ _) as [confirmed h4]. cbn [snd]. intros H.
  destruct (negb (bool_decide _)); cbn [health_of].
  - destruct (reported_ h4); [done|]. by apply health_inv_log, health_inv_reported.
  - destruct (negb _); [by apply health_inv_env|]. destruct (_ && _); [by apply health_inv_log|done].
Qed.

Lemma run_health_inv ops o : health_inv (health_of o) -> health_inv (health_of (run_health ops o)).
Proof.
  revert o. induction ops as [|op ops IH]; intros o Ho; [done|]. apply IH. destruct o as [h|h]; [|done].
  cbn in Ho. destruct op; cbn [perform_health health_of].
  - by apply init_inv.
  - by apply Heartbeat_inv.
  - by apply Check_inv.
  - by apply health_inv_log.
  - by apply Fault_inv.
  - by apply health_inv_log, health_inv_env.
  - unfold Crc. destruct (_ || _); [done|]. by apply health_inv_log.
  - by apply health_inv_env.
Qed.

Lemma early_inv p h : early (confirmation (Some confirm) (new_health p)) = Returns h ->
  health_inv h /\ observations h = [].
Proof.
  unfold early, early_start. destruct (on_plat (prepare_health board) _) as [reset e].
  set (h0 := (attach_progress _) <| henv := e |> <| watchdog_reset_ := reset |>).
  assert (Hw : watch_inv health_checks (Some (Record_ Kind.watchdog)) (watch_world h0)) by apply boot_world_inv.
  pose proof (perform_inv lift_start (on_plat null_feed) health_driver health_checks (Some (Record_ Kind.watchdog))
                (OStart kWatchdogTimeout) _ Hw) as Hw'.
  pose proof (start_ok lift_start (on_plat null_feed) health_driver health_checks (Some (Record_ Kind.watchdog))
                kWatchdogTimeout _ Hw eq_refl) as Hok.
  cbn [perform] in Hw'. destruct (start _ _ _ _ _ _ _) as [st w]. cbn [fst snd] in *.
  destruct (st =s? Status.ok) eqn:Est; cbn [negb]; [|discriminate]. apply st_eqb_eq in Est. intros [= <-].
  destruct (Hok Est) as [Hrun Hfeeds]. split; [|done]. split.
  - by rewrite watch_world_with.
  - unfold watch_state. rewrite watch_world_with. congruence.
  - exists []. split_and!; [done|constructor|]. split; [|done]. by apply gh_fresh.
  - exact Hfeeds.
Qed.

(** C13: an image is confirmed only by a supervised interval, and by every one.
    After a successful early start with a confirmation callback, over any
    dispatch of heartbeat and check tasks, commands and other activity: the
    number of times the check task saw a healthy system is the number of times
    the watchdog hardware was fed; and the callback has been called, once,
    exactly if the check task saw a healthy system first and then without
    interruption until five seconds later. *)
Theorem confirmation_needs_supervision p h0 ops :
  early (confirmation (Some confirm) (new_health p)) = Returns h0 ->
  let h := health_of (run_health ops (Returns h0)) in
  feeds (hcalls h) = healthy_count (observations h) /\
  (supervised (observations h) -> exists st, hconfirmations h = [st]) /\
  (~ supervised (observations h) -> hconfirmations h = []).
Proof.
  intros He h. destruct (early_inv p h0 He) as [H0 _].
  destruct (run_health_inv ops (Returns h0) H0) as [_ _ (os & Ho & _ & Hg) Hf]. fold h in Ho, Hg, Hf.
  split; [exact Hf|]. rewrite <- Ho, <- earned_supervised.
  exact (gate_inv_calls kConfirmationDelay lift_confirm ltac:(unfold kConfirmationDelay; lia) os _ Hg).
Qed.
End health.

(** ** Witness: a board whose clock advances 0.4 seconds at every reading *)

Definition sample_board : Board Z :=
  mkBoard (fun p => (u64 p, p + 400000)) (fun p => (false, p)) (Some (fun p _ => (Status.ok, p))) (Some (fun p => (Status.ok, p)))
    (fun _ p => p) (fun _ => replicate 256 0) (fun _ p => p) (fun p => (mkProgress true 0 [], p)) (fun _ p => p) no_backend.
Definition sample_health_op : list (HealthOp (P := Z)) := [HHeartbeat; HCheck; HElse (fun p => p + 6000000); HHeartbeat; HCheck].
Abbreviation sample_boot :=
  (early sample_board no_version (fun p _ => (Status.ok, p)) (fun p => (Status.ok, p))
     (confirmation (Some (fun p => (Status.ok, p + 1))) (new_health 0))).
Definition sample_booted : Health (P := Z) := health_of sample_boot.
Abbreviation sample_end :=
  (health_of (run_health sample_board no_version (fun p _ => (Status.ok, p)) (fun p => (Status.ok, p))
                (fun p => (Status.ok, p)) sample_health_op (Returns sample_booted))).

Lemma confirmation_needs_supervision_witness :
  feeds (hcalls sample_end) = healthy_count (observations sample_end) /\
  observations sample_end = [(1200000, true); (8400000, true)] /\ hconfirmations sample_end = [Status.ok].
Proof.
  assert (He : sample_boot = Returns sample_booted) by (vm_compute; reflexivity).
  split; [|vm_compute; split; reflexivity].
  apply (confirmation_needs_supervision sample_board no_version (fun p _ => (Status.ok, p)) (fun p => (Status.ok, p))
    (fun p => (Status.ok, p)) (fun p => (Status.ok, p + 1)) (fun p => u64_range p) 0 sample_booted sample_health_op He).
Defined.
