(* ===== verification/Console.v ===== *)
(** * Console input and line display (src/lib/console/input.hpp)

    [Input] collects received characters into lines: it edits the current line,
    accepts CR, LF and CRLF as terminators, and queues complete lines.  A
    [Guard] is a critical section, so each operation is one function.
    [LineDisplay] keeps the unfinished line visible below log output. *)

From S2P Require Import Prelude Foundation Queue.

Definition kLineBytes : nat := 257.

Record Line := mkLine { line_bytes : list Z; line_size : nat }.
#[export] Instance Line_eta : RecordEta Line := fun l => mkLine (line_bytes l) (line_size l).
Definition new_line : Line := mkLine (replicate kLineBytes 0) 0.
#[export] Instance Line_inhabited : Inhabited Line := populate new_line.
Definition view (l : Line) : list Z := take (line_size l) (line_bytes l).

Definition chr_lf : Z := 10.
Definition chr_cr : Z := 13.
Definition chr_bs : Z := 8.
Definition chr_del : Z := 0x7f.

(** ** Input *)

Section input.
Context (LineCapacity : nat).

Record Input := mkInput {
  lines_ : Queue (T := Line);
  line_ : Line;
  previous_cr_ : bool; discard_ : bool;
  dropped_ : Z
}.
#[local] Instance Input_eta : RecordEta Input := fun i =>
  mkInput (lines_ i) (line_ i) (previous_cr_ i) (discard_ i) (dropped_ i).
Definition new_input : Input := mkInput (new_queue LineCapacity) new_line false false 0.

Definition Receive (byte : Z) (i : Input) : Input :=
  if (byte =? chr_lf) && previous_cr_ i then i <| previous_cr_ := false |>
  else
    let i := i <| previous_cr_ := (byte =? chr_cr) |> in
    if (byte =? chr_cr) || (byte =? chr_lf) then
      let i := if discard_ i then i
               else let '(st, q) := push LineCapacity (line_ i) (lines_ i) in
                    let i := i <| lines_ := q |> in
                    if negb (st =s? Status.ok) then i <| dropped_ := u32 (dropped_ i + 1) |> else i in
      i <| line_ := (line_ i) <| line_size := 0%nat |> |> <| discard_ := false |>
    else if (byte =? chr_bs) || (byte =? chr_del) then
      if negb (discard_ i) && negb (line_size (line_ i) =? 0)%nat &&
         (line_size (line_ i) <? length (line_bytes (line_ i)))%nat
      then i <| line_ := (line_ i) <| line_size := (line_size (line_ i) - 1)%nat |> |> else i
    else if negb (discard_ i) && (line_size (line_ i) <? length (line_bytes (line_ i)))%nat
    then i <| line_ := mkLine (<[line_size (line_ i) := byte]> (line_bytes (line_ i))) (S (line_size (line_ i))) |>
    else i.

Definition receive (byte : Z) (i : Input) : Input := Receive byte i.

Record Consumed := mkConsumed { consumed_bytes : nat; complete : bool }.

(** The loop of [consume] from index [n] on. *)
Fixpoint consume_loop (n : nat) (bytes : list Z) (line : Line) (i : Input) : Consumed * Line * Input :=
  match bytes with
  | [] => (mkConsumed n false, line, i)
  | b :: bytes =>
      let i := Receive b i in
      let '(st, line, q) := pop LineCapacity line (lines_ i) in
      let i := i <| lines_ := q |> in
      if st =s? Status.ok then (mkConsumed (S n) true, line, i) else consume_loop (S n) bytes line i
  end.

Definition consume (bytes : list Z) (line : Line) (i : Input) : Consumed * Line * Input :=
  let '(st, line, q) := pop LineCapacity line (lines_ i) in
  let i := i <| lines_ := q |> in
  if st =s? Status.ok then (mkConsumed 0 true, line, i) else consume_loop 0 bytes line i.

Definition input_error (i : Input) : Input :=
  let i := if discard_ i then i else i <| dropped_ := u32 (dropped_ i + 1) |> in i <| discard_ := true |>.

Definition input_reset (i : Input) : Input :=
  i <| lines_ := clear (lines_ i) |> <| line_ := new_line |> <| previous_cr_ := false |> <| discard_ := false |>.

Definition input_pop (line : Line) (i : Input) : bool * Line * Input :=
  let '(st, line, q) := pop LineCapacity line (lines_ i) in (st =s? Status.ok, line, i <| lines_ := q |>).

Definition preview (i : Input) : Line := if discard_ i then new_line else line_ i.

Definition take_dropped (i : Input) : Z * Input := (dropped_ i, i <| dropped_ := 0 |>).
End input.

(** ** Line display *)

Section display.
(** [write_], on the state [T] behind its context. *)
Context {T : Type} (write_ : list Z -> T -> T).

Record Display := mkDisplay { shown_ : Line; term : T }.
#[local] Instance Display_eta : RecordEta Display := fun d => mkDisplay (shown_ d) (term d).

(** "\r\x1b[2K" *)
Definition erase_row : list Z := [13; 27; 91; 50; 75].

Definition put (text : list Z) (d : Display) : Display := d <| term := write_ text (term d) |>.

Definition visible_char (c : Z) : Z := if (c <? 32) || (c >? 126) then 63 else c.

(** [visible] is filled element by element; the result is its view. *)
Definition WriteVisible (text : list Z) (d : Display) : Display :=
  match text with
  | [] => d
  | _ => put (view (mkLine (blit 0 (map visible_char text) (line_bytes new_line)) (length text))) d
  end.

Definition before_log (d : Display) : Display :=
  if negb (line_size (shown_ d) =? 0)%nat then put erase_row d else d.
Definition after_log (d : Display) : Display := WriteVisible (view (shown_ d)) d.

Definition show (line : Line) (d : Display) : Display :=
  if bool_decide (view (shown_ d) = view line) then d
  else if bool_decide (view (shown_ d) `prefix_of` view line)
  then (WriteVisible (drop (line_size (shown_ d)) (view line)) d) <| shown_ := line |>
  else after_log ((before_log d) <| shown_ := line |>).

Definition display_clear (d : Display) : Display := show new_line d.
Definition display_reset (d : Display) : Display := d <| shown_ := new_line |>.
End display.

(** ** What a receiver is promised

    [edit_key] is the effect of one key on the text of a line; [scan] turns a
    stream of bytes into lines.  The last component is whether a carriage
    return has just been seen. *)

Definition edit_key (l : list Z) (b : Z) : list Z :=
  if (b =? chr_bs) || (b =? chr_del)
  then if (0 <? length l)%nat && (length l <? kLineBytes)%nat then take (length l - 1) l else l
  else if (length l <? kLineBytes)%nat then l ++ [b] else l.
Definition edit (keys : list Z) : list Z := foldl edit_key [] keys.

Definition scan_byte (s : list Z * bool) (b : Z) : option (list Z) * (list Z * bool) :=
  let '(cur, cr) := s in
  if (b =? chr_lf) && cr then (None, (cur, false))
  else if (b =? chr_cr) || (b =? chr_lf) then (Some cur, ([], b =? chr_cr))
  else (None, (edit_key cur b, false)).
Fixpoint scan (bytes : list Z) (s : list Z * bool) : list (list Z) * (list Z * bool) :=
  match bytes with
  | [] => ([], s)
  | b :: bytes => let '(o, s) := scan_byte s b in
                  let '(ls, s) := scan bytes s in (match o with Some l => l :: ls | None => ls end, s)
  end.

Lemma scan_app a b s :
  scan (a ++ b) s = (fst (scan a s) ++ fst (scan b (snd (scan a s))), snd (scan b (snd (scan a s)))).
Proof.
  revert s. induction a as [|x a IH]; intros s; cbn; [by destruct (scan b s)|].
  destruct (scan_byte s x) as [o s1]. rewrite IH. destruct (scan a s1) as [la sa]. cbn.
  destruct (scan b sa) as [lb sb]. by destruct o.
Qed.

(** A line object and its text. *)
Record line_is (l : Line) (text : list Z) : Prop := {
  li_length : length (line_bytes l) = kLineBytes;
  li_size : (line_size l <= kLineBytes)%nat;
  li_text : view l = text
}.

Lemma line_is_length l text : line_is l text -> length text = line_size l.
Proof. intros [? ? <-]. unfold view. rewrite length_take. lia. Qed.

Lemma new_line_is : line_is new_line [].
Proof. split; [reflexivity|cbn; lia|reflexivity]. Qed.

Lemma line_is_append l text b : line_is l text -> (line_size l < kLineBytes)%nat ->
  line_is (mkLine (<[line_size l := b]> (line_bytes l)) (S (line_size l))) (text ++ [b]).
Proof.
  intros [Hl Hs <-] Hlt. split; cbn [line_bytes line_size]; [by rewrite length_insert|lia|].
  unfold view. cbn [line_bytes line_size].
  rewrite (take_S_r _ _ b) by (apply list_lookup_insert_eq; lia). by rewrite take_insert_ge by lia.
Qed.

Lemma line_is_shorten l text n : line_is l text -> (n <= line_size l)%nat ->
  line_is (l <| line_size := n |>) (take n text).
Proof.
  intros [Hl Hs <-] Hn. split; [done|cbn; lia|]. unfold view. cbn. by rewrite take_take, Nat.min_l by done.
Qed.

Section delivery.
Context (LineCapacity : nat) (HC : (0 < LineCapacity)%nat).
#[local] Existing Instance Input_eta.
#[local] Arguments contents : simpl never.

(** The input with no line queued and nothing being discarded, at a point of
    the stream. *)
Record sim (dropped : Z) (i : Input) (s : list Z * bool) : Prop := {
  sim_queue : queue_ok LineCapacity (lines_ i);
  sim_line : line_is (line_ i) (fst s);
  sim_cr : previous_cr_ i = snd s;
  sim_discard : discard_ i = false;
  sim_dropped : dropped_ i = dropped
}.

(** One byte: the line object follows [scan_byte], and a finished line is
    pushed. *)
Lemma Receive_sim d i s b : sim d i s -> contents LineCapacity (lines_ i) = [] ->
  let i' := Receive LineCapacity b i in
  sim d i' (snd (scan_byte s b)) /\
  match fst (scan_byte s b) with
  | Some text => exists l, contents LineCapacity (lines_ i') = [l] /\ line_is l text
  | None => contents LineCapacity (lines_ i') = []
  end.
Proof.
  intros [Hq Hl Hcr Hd Hdr] Hempty. destruct s as [cur cr]. cbn [fst snd] in *. cbv zeta. unfold Receive, scan_byte.
  rewrite Hcr. destruct ((b =? chr_lf) && cr); [by split|].
  cbn [discard_ line_ lines_ dropped_ previous_cr_ field_update Input_eta]. rewrite Hd.
  destruct ((b =? chr_cr) || (b =? chr_lf)) eqn:Et.
  - assert (Hc : (count_ (lines_ i) < LineCapacity)%nat).
    { pose proof (length_contents LineCapacity (lines_ i)) as H. rewrite Hempty in H. cbn in H. lia. }
    pose proof (push_contents LineCapacity HC (lines_ i) (line_ i) Hq Hc) as [Hq' Hc'].
    assert (Hst : fst (push LineCapacity (line_ i) (lines_ i)) = Status.ok).
    { unfold push, full. by rewrite (proj2 (Nat.eqb_neq _ _)) by lia. }
    destruct (push LineCapacity (line_ i) (lines_ i)) as [st q]. cbn [fst snd] in *. subst st. rewrite st_eqb_refl. cbn.
    split; [split; try done; cbn; apply (line_is_shorten _ cur 0); [done|lia]|].
    exists (line_ i). by rewrite Hc', Hempty.
  - apply orb_false_iff in Et as [Ecr _]. pose proof (line_is_length _ _ Hl) as Hlen. unfold edit_key. rewrite Ecr. rewrite Hlen, (li_length _ _ Hl).
    destruct ((b =? chr_bs) || (b =? chr_del)); cbn [negb andb fst snd].
    + replace (negb (line_size (line_ i) =? 0)%nat) with (0 <? line_size (line_ i))%nat
        by (destruct (line_size (line_ i)); done).
      destruct ((0 <? line_size (line_ i))%nat && (line_size (line_ i) <? kLineBytes)%nat).
      * split; [split; try done; cbn; apply line_is_shorten; [done|lia]|done].
      * by split.
    + destruct (Nat.ltb_spec (line_size (line_ i)) kLineBytes); [|by split].
      split; [split; try done; by apply line_is_append|done].
Qed.

(** [pop] on an empty and on a one-element queue. *)
Lemma pop_empty (q : Queue (T := Line)) l : contents LineCapacity q = [] -> pop LineCapacity l q = (Status.empty, l, q).
Proof.
  intros H. pose proof (length_contents LineCapacity q) as Hl. rewrite H in Hl. cbn in Hl.
  unfold pop, empty. by rewrite <- Hl.
Qed.
Lemma pop_one (q : Queue (T := Line)) l x : queue_ok LineCapacity q -> contents LineCapacity q = [x] ->
  exists q', pop LineCapacity l q = (Status.ok, x, q') /\ queue_ok LineCapacity q' /\ contents LineCapacity q' = [].
Proof.
  intros Hq H. pose proof (queue_step_refines LineCapacity HC (Pop l) q Hq) as Hs. cbn [queue_step fifo_step] in Hs.
  rewrite H in Hs. destruct (pop LineCapacity l q) as [[st v] q']. destruct Hs as [Hq' Heq].
  injection Heq as <- <- Hc. exists q'. split_and!; done.
Qed.

Lemma sim_lines d i s q : sim d i s -> queue_ok LineCapacity q -> sim d (i <| lines_ := q |>) s.
Proof. intros [] Hq. by split. Qed.

(** [consume] takes a prefix of the bytes: all of them, or up to the end of the
    first line, which it returns. *)
Lemma consume_loop_sim n bytes line d i s : sim d i s -> contents LineCapacity (lines_ i) = [] ->
  exists k c line' i' s', consume_loop LineCapacity n bytes line i = (mkConsumed (n + k) c, line', i') /\
    (k <= length bytes)%nat /\ (if c then (0 < k)%nat else k = length bytes) /\
    sim d i' s' /\ contents LineCapacity (lines_ i') = [] /\
    scan (take k bytes) s = (if c then [view line'] else [], s').
Proof.
  revert n i s. induction bytes as [|b bytes IH]; intros n i s Hsim Hc.
  { exists 0%nat, false, line, i, s. rewrite Nat.add_0_r. cbn. done. }
  cbn [consume_loop]. pose proof (Receive_sim d i s b Hsim Hc) as [Hs1 Hq1].
  set (i1 := Receive LineCapacity b i) in *. destruct (scan_byte s b) as [o s1] eqn:Es. cbn [fst snd] in *.
  destruct o as [text|].
  - destruct Hq1 as (l & Hl & Htext). destruct (pop_one (lines_ i1) line l (sim_queue _ _ _ Hs1) Hl) as (q & Hp & Hq & Hq0).
    rewrite Hp, st_eqb_refl. exists 1%nat, true, l, (i1 <| lines_ := q |>), s1.
    split_and!; [by rewrite Nat.add_1_r|cbn; lia|lia|by apply sim_lines|done|].
    cbn [take scan]. rewrite Es. by rewrite (li_text _ _ Htext).
  - rewrite pop_empty by done. change (Status.empty =s? Status.ok) with false. cbv iota.
    assert (Hid : i1 <| lines_ := lines_ i1 |> = i1) by by destruct i1. rewrite Hid.
    destruct (IH (S n) i1 s1 Hs1 Hq1) as (k & c & line' & i' & s' & Heq & Hk & Hc' & Hs' & Hq' & Hscan).
    exists (S k), c, line', i', s'. split_and!; [|cbn; lia|destruct c; cbn; lia|done|done|].
    + rewrite <- Nat.add_succ_comm. exact Heq.
    + cbn [take scan]. rewrite Es, Hscan. done.
Qed.

(** ** Draining a stream that arrives in chunks

    The caller's loop: call [consume] until it reports no complete line.
    [length chunk + 1] rounds are enough, since every line uses up a byte. *)

Fixpoint drain (fuel : nat) (bytes : list Z) (i : Input) : list (list Z) * Input :=
  match fuel with
  | O => ([], i)
  | S fuel =>
      let '(c, line, i) := consume LineCapacity bytes new_line i in
      if complete c then let '(ls, i) := drain fuel (drop (consumed_bytes c) bytes) i in (view line :: ls, i)
      else ([], i)
  end.
Fixpoint drain_chunks (chunks : list (list Z)) (i : Input) : list (list Z) * Input :=
  match chunks with
  | [] => ([], i)
  | chunk :: chunks => let '(ls, i) := drain (S (length chunk)) chunk i in
                       let '(ls', i) := drain_chunks chunks i in (ls ++ ls', i)
  end.

Lemma drain_scan fuel bytes d i s : sim d i s -> contents LineCapacity (lines_ i) = [] -> (length bytes < fuel)%nat ->
  exists i', drain fuel bytes i = (fst (scan bytes s), i') /\ sim d i' (snd (scan bytes s)) /\
    contents LineCapacity (lines_ i') = [].
Proof.
  revert bytes i s. induction fuel as [|fuel IH]; intros bytes i s Hs Hc Hf; [lia|]. cbn [drain].
  unfold consume. rewrite pop_empty by done. change (Status.empty =s? Status.ok) with false. cbv iota.
  assert (Hid : i <| lines_ := lines_ i |> = i) by by destruct i. rewrite Hid.
  destruct (consume_loop_sim 0 bytes new_line d i s Hs Hc) as (k & c & line' & i' & s' & Heq & Hk & Hpos & Hs' & Hq' & Hscan).
  rewrite Heq. cbn [complete consumed_bytes Nat.add]. destruct c.
  - destruct (IH (drop k bytes) i' s' Hs' Hq') as (i2 & -> & Hs2 & Hq2); [rewrite length_drop; lia|].
    rewrite <- (take_drop k bytes), scan_app, Hscan, take_drop. exists i2. done.
  - subst k. rewrite firstn_all in Hscan. rewrite Hscan. by exists i'.
Qed.

Lemma drain_chunks_scan chunks d i s : sim d i s -> contents LineCapacity (lines_ i) = [] ->
  exists i', drain_chunks chunks i = (fst (scan (concat chunks) s), i') /\ sim d i' (snd (scan (concat chunks) s)).
Proof.
  revert i s. induction chunks as [|chunk chunks IH]; intros i s Hs Hc; cbn [drain_chunks concat]; [by exists i|].
  destruct (drain_scan (S (length chunk)) chunk d i s Hs Hc) as (i1 & -> & Hs1 & Hc1); [lia|].
  destruct (IH i1 _ Hs1 Hc1) as (i2 & -> & Hs2). exists i2. rewrite scan_app. done.
Qed.

(** ** Lines as they are typed *)

Inductive Terminator : Set := term_cr | term_lf | term_crlf.
#[global] Instance Terminator_eq_dec : EqDecision Terminator.
Proof. solve_decision. Defined.
Definition term_bytes (t : Terminator) : list Z :=
  match t with term_cr => [chr_cr] | term_lf => [chr_lf] | term_crlf => [chr_cr; chr_lf] end.
Definition typed_bytes (l : list Z * Terminator) : list Z := fst l ++ term_bytes (snd l).
Definition is_key (b : Z) : Prop := b <> chr_cr /\ b <> chr_lf.

(** A bare CR is not followed by an empty line that ends in LF: those two bytes
    are one terminator. *)
Fixpoint separated (cr : bool) (ls : list (list Z * Terminator)) : Prop :=
  match ls with
  | [] => True
  | (keys, t) :: ls => (cr = true -> keys = [] -> t <> term_lf) /\ separated (bool_decide (t = term_cr)) ls
  end.

Lemma scan_keys keys cur cr : Forall is_key keys ->
  scan keys (cur, cr) = ([], (foldl edit_key cur keys, match keys with [] => cr | _ => false end)).
Proof.
  intros Hk. revert cur cr. induction Hk as [|b keys [Hcr Hlf] _ IH]; intros cur cr; [done|].
  cbn [scan scan_byte foldl]. rewrite (proj2 (Z.eqb_neq b chr_lf)), (proj2 (Z.eqb_neq b chr_cr)) by done. cbn.
  rewrite IH. by destruct keys.
Qed.

Lemma scan_typed keys t cr : Forall is_key keys -> (cr = true -> keys = [] -> t <> term_lf) ->
  scan (typed_bytes (keys, t)) ([], cr) = ([edit keys], ([], bool_decide (t = term_cr))).
Proof.
  intros Hk Hsep. unfold typed_bytes. cbn [fst snd]. rewrite scan_app, (scan_keys _ _ _ Hk). cbn [fst snd app].
  fold (edit keys).
  destruct t; cbn; [done| |done].
  destruct keys as [|b keys]; [|done]. destruct cr; [by destruct Hsep|done].
Qed.

Lemma scan_lines ls cr : Forall (fun l => Forall is_key (fst l)) ls -> separated cr ls ->
  fst (scan (concat (map typed_bytes ls)) ([], cr)) = map (fun l => edit (fst l)) ls.
Proof.
  intros Hk. revert cr. induction Hk as [|[keys t] ls Hl _ IH]; intros cr Hsep; [done|].
  destruct Hsep as [Ht Hsep]. cbn [map concat]. rewrite scan_app, (scan_typed keys t cr Hl Ht). cbn.
  f_equal. by apply IH.
Qed.

(** C34: every line that is typed is delivered once, in order and as edited,
    however the byte stream is cut into chunks and whichever of CR, LF and CRLF
    ends each line, with nothing dropped. *)
Theorem typed_lines_delivered ls chunks :
  Forall (fun l => Forall is_key (fst l)) ls -> separated false ls ->
  concat chunks = concat (map typed_bytes ls) ->
  let r := drain_chunks chunks (new_input LineCapacity) in
  fst r = map (fun l => edit (fst l)) ls /\ dropped_ (snd r) = 0.
Proof.
  intros Hk Hsep Heq r.
  assert (Hsim : sim 0 (new_input LineCapacity) ([], false)).
  { split; try done; [|apply new_line_is]. split; cbn; [by rewrite length_replicate|lia|lia]. }
  destruct (drain_chunks_scan chunks 0 _ _ Hsim eq_refl) as (i' & Hr & Hs'). unfold r. rewrite Hr, Heq. cbn [fst snd].
  split; [by apply scan_lines|]. by destruct Hs'.
Qed.
End delivery.

(** Editing without a correction keeps the first 257 characters, the last of
    which marks an overlong line. *)
Lemma edit_plain keys : Forall (fun b => b <> chr_bs /\ b <> chr_del) keys -> edit keys = take kLineBytes keys.
Proof.
  intros Hk. unfold edit.
  enough (H : forall cur, (length cur <= kLineBytes)%nat -> foldl edit_key cur keys = take kLineBytes (cur ++ keys)) by (apply (H []); cbn; lia).
  induction Hk as [|b keys [Hb Hd] _ IH]; intros cur Hc; cbn [foldl].
  { rewrite app_nil_r. by rewrite take_ge. }
  unfold edit_key at 2. rewrite (proj2 (Z.eqb_neq b chr_bs)), (proj2 (Z.eqb_neq b chr_del)) by done. cbn [orb].
  destruct (Nat.ltb_spec (length cur) kLineBytes).
  - rewrite IH by (rewrite length_app; cbn; lia). by rewrite <- app_assoc.
  - rewrite IH by done. rewrite !take_app_le by lia. done.
Qed.

(** ** The terminal row

    What an ANSI terminal does with the two kinds of text the display writes:
    the erase sequence empties the current row, printable text extends it.  A
    log record starts on an empty row and leaves one behind. *)

Definition printable (c : Z) : Prop := 32 <= c <= 126.

Section row.
Context {T : Type} (write_ : list Z -> T -> T) (row : T -> list Z).
Context (row_erase : forall t, row (write_ erase_row t) = []).
Context (row_print : forall text t, Forall printable text -> row (write_ text t) = row t ++ text).
#[local] Existing Instance Display_eta.

Inductive DisplayOp := DShow (line : Line) | DClear | DLog (record : T -> T).
Definition display_op_ok (op : DisplayOp) : Prop :=
  match op with
  | DShow line => line_is line (view line)
  | DClear => True
  | DLog record => forall t, row t = [] -> row (record t) = []
  end.
Definition display_op (op : DisplayOp) (d : Display) : Display :=
  match op with
  | DShow line => show write_ line d
  | DClear => display_clear write_ d
  | DLog record => let d := before_log write_ d in after_log write_ (d <| term := record (term d) |>)
  end.

(** The row shows the line. *)
Definition in_step (d : Display) : Prop :=
  row (term d) = map visible_char (view (shown_ d)) /\ line_is (shown_ d) (view (shown_ d)).

Lemma visible_printable text : Forall printable (map visible_char text).
Proof.
  apply Forall_fmap, Forall_true. intros c. unfold visible_char, printable. cbn.
  destruct (Z.ltb_spec c 32), (Z.gtb_spec c 126); cbn; lia.
Qed.

Lemma WriteVisible_row text (d : Display) : (length text <= kLineBytes)%nat ->
  row (term (WriteVisible write_ text d)) = row (term d) ++ map visible_char text /\
  shown_ (WriteVisible write_ text d) = shown_ d.
Proof.
  intros Hl. destruct text as [|c text]; [by rewrite app_nil_r|]. split; [|done].
  cbn [WriteVisible put term field_update Display_eta]. unfold view. cbn [line_bytes line_size].
  change (take ?n ?b) with (sub b 0 n).
  rewrite sub_blit_same; [apply row_print, visible_printable|by rewrite length_map|].
  cbn [new_line line_bytes]. rewrite length_replicate. lia.
Qed.

Lemma view_short l : line_is l (view l) -> (length (view l) <= kLineBytes)%nat.
Proof. intros H. rewrite (line_is_length _ _ H). apply H. Qed.

Lemma before_log_row d : in_step d -> row (term (before_log write_ d)) = [] /\ shown_ (before_log write_ d) = shown_ d.
Proof.
  intros [Hrow Hl]. unfold before_log. destruct (Nat.eqb_spec (line_size (shown_ d)) 0) as [E|E]; cbn [negb].
  - rewrite Hrow. unfold view. by rewrite E.
  - split; [apply row_erase|done].
Qed.

(** After [after_log] on an empty row the display is in step. *)
Lemma after_log_in_step d : row (term d) = [] -> line_is (shown_ d) (view (shown_ d)) -> in_step (after_log write_ d).
Proof.
  intros Hrow Hl. destruct (WriteVisible_row (view (shown_ d)) d (view_short _ Hl)) as [Hr Hs].
  unfold in_step, after_log. by rewrite Hs, Hr, Hrow.
Qed.

Lemma show_in_step line d : line_is line (view line) -> in_step d ->
  in_step (show write_ line d) /\ view (shown_ (show write_ line d)) = view line.
Proof.
  intros Hline [Hrow Hl]. unfold show. case_bool_decide as E; [done|]. case_bool_decide as Hp.
  - destruct Hp as [suffix Hsuf]. rewrite Hsuf, <- (line_is_length _ _ Hl), drop_app_length.
    destruct (WriteVisible_row suffix d) as [Hr _].
    { pose proof (view_short _ Hline) as H. rewrite Hsuf, length_app in H. lia. }
    split; [|done]. split; [|done]. cbn [term shown_ field_update Display_eta].
    rewrite Hr, Hrow. etransitivity; [|exact (f_equal (map visible_char) (eq_sym Hsuf))]. by rewrite map_app.
  - destruct (before_log_row d (conj Hrow Hl)) as [Hb _]. split; [by apply after_log_in_step|].
    unfold after_log. by rewrite (proj2 (WriteVisible_row _ _ (view_short _ Hline))).
Qed.

Lemma display_op_in_step op d : display_op_ok op -> in_step d -> in_step (display_op op d).
Proof.
  destruct op as [line| |record]; cbn [display_op_ok display_op]; intros Hop Hd.
  - by apply show_in_step.
  - apply show_in_step; [exact new_line_is|done].
  - destruct (before_log_row d Hd) as [Hb Hs]. apply after_log_in_step; [by apply Hop|].
    cbn [shown_ field_update Display_eta]. rewrite Hs. by destruct Hd.
Qed.

(** The terminal row always shows the unfinished line: over any sequence of
    updates of the line, clearings and log records in between, the row is the
    line last shown, with unprintable characters as question marks. *)
Theorem display_shows_line ops t0 :
  row t0 = [] -> Forall display_op_ok ops ->
  let d := foldl (fun d op => display_op op d) (mkDisplay new_line t0) ops in
  row (term d) = map visible_char (view (shown_ d)) /\
  forall line, line_is line (view line) ->
    row (term (show write_ line d)) = map visible_char (view line).
Proof.
  intros Ht0 Hops d. assert (Hd : in_step d).
  { unfold d. assert (H0 : in_step (mkDisplay new_line t0)) by (split; [exact Ht0|exact new_line_is]).
    clear d Ht0. revert H0. generalize (mkDisplay new_line t0). induction Hops as [|op ops Hop _ IH]; intros d Hd; [done|].
    by apply IH, display_op_in_step. }
  split; [apply Hd|]. intros line Hl. destruct (show_in_step line d Hl Hd) as [[Hr _] Hv]. by rewrite Hr, Hv.
Qed.
End row.

(** ** Witnesses *)

(** "help", one correction, then "led" ended by LF, cut inside CRLF. *)
Lemma typed_lines_delivered_witness :
  let ls := [([104; 101; 108; 120; 8; 112], term_crlf); ([108; 101; 100], term_lf)] in
  let chunks := [[104; 101; 108; 120; 8; 112; 13]; [10; 108]; [101; 100; 10]] in
  fst (drain_chunks 4 chunks (new_input 4)) = [[104; 101; 108; 112]; [108; 101; 100]].
Proof.
  intros ls chunks.
  destruct (typed_lines_delivered 4 ltac:(lia) ls chunks) as [H _].
  - apply (bool_decide_unpack _). vm_compute. exact I.
  - split; [discriminate|]. split; [discriminate|exact I].
  - reflexivity.
  - exact H.
Defined.

(** A terminal that is its current row. *)
Definition row_write (text row : list Z) : list Z := if bool_decide (text = erase_row) then [] else row ++ text.
Definition sample_line (text : list Z) : Line := mkLine (blit 0 text (replicate kLineBytes 0)) (length text).

Lemma display_shows_line_witness :
  let ops := [DShow (sample_line [104]); DShow (sample_line [104; 105]); DLog (fun _ => []); DShow (sample_line [104; 7])] in
  let d := foldl (fun d op => display_op row_write op d) (mkDisplay new_line []) ops in
  term d = map visible_char (view (shown_ d)).
Proof.
  intros ops d. apply (display_shows_line row_write id) with (t0 := []) (ops := ops).
  - reflexivity.
  - intros text t Ht. unfold row_write, id. case_bool_decide as E; [|reflexivity]. exfalso.
    rewrite E in Ht. inversion Ht as [|? ? H _]. unfold printable in H. lia.
  - reflexivity.
  - unfold ops. repeat (apply Forall_cons; split; [first [ intros t _; reflexivity | cbn [display_op_ok]; split; [reflexivity|apply Nat.leb_le; reflexivity|reflexivity] ]|]).
    apply Forall_nil. exact I.
Defined.
