(* ===== verification/Output.v ===== *)
(** * Buffered console output (src/lib/console/output.hpp)

    Complete frames are copied into one half of a double buffer while the
    driver sends the other half asynchronously.  The driver is a parameter on a
    state [D]; the started transfers and the fate of the frames are recorded. *)

From S2P Require Import Prelude Foundation.

Record TxCounters := mkTxCounters { dropped_frames : Z; errors : Z; sent_bytes : Z; transfers : Z }.
#[export] Instance TxCounters_eta : RecordEta TxCounters := fun c =>
  mkTxCounters (dropped_frames c) (errors c) (sent_bytes c) (transfers c).

Section output.
Context {D : Type} (Capacity FrameCapacity : nat).
(** [Driver::start(bytes, size)]. *)
Context (driver_start : list Z -> D -> bool * D).

(** What happened at the interface, in order: a frame was queued, a transfer
    with these bytes was started, or everything queued was given up. *)
Inductive Event := Queued (frame : list Z) | Started (bytes : list Z) | GivenUp.

Record BufferedOutput := mkOutput {
  storage_ : list Z;
  frame_ : list Z;
  frame_size_ : nat;
  overflow_ : bool;
  filling_ : nat; pending_ : nat; active_ : nat;
  counters_ : TxCounters;
  driver : D;
  events : list Event
}.
#[local] Instance BufferedOutput_eta : RecordEta BufferedOutput := fun o =>
  mkOutput (storage_ o) (frame_ o) (frame_size_ o) (overflow_ o) (filling_ o) (pending_ o) (active_ o)
    (counters_ o) (driver o) (events o).
Implicit Types o : BufferedOutput.

Definition new_output (storage : list Z) (d : D) : BufferedOutput :=
  mkOutput storage (replicate FrameCapacity 0) 0 false 0 0 0 (mkTxCounters 0 0 0 0) d [].

Definition note (e : Event) o : BufferedOutput := o <| events := events o ++ [e] |>.

Definition write (text : list Z) o : BufferedOutput :=
  if overflow_ o then o
  else if (FrameCapacity - frame_size_ o <? length text)%nat then o <| overflow_ := true |>
  else o <| frame_ := blit (frame_size_ o) text (frame_ o) |> <| frame_size_ := (frame_size_ o + length text)%nat |>.

Definition error o : BufferedOutput :=
  note GivenUp (o <| counters_ := (counters_ o) <| errors := u32 (errors (counters_ o) + 1) |> |>
                  <| pending_ := 0%nat |> <| active_ := 0%nat |>).

(** The bytes at [storage_.data() + filling_ * Capacity]. *)
Definition half (h : nat) o : list Z := sub (storage_ o) (h * Capacity) Capacity.

Definition Start o : bool * BufferedOutput :=
  if negb (active_ o =? 0)%nat || (pending_ o =? 0)%nat then (true, o)
  else
    let bytes := take (pending_ o) (half (filling_ o) o) in
    let '(started, d) := driver_start bytes (driver o) in
    let o := o <| driver := d |> in
    if started
    then (true, note (Started bytes) (o <| active_ := pending_ o |> <| pending_ := 0%nat |>
                                        <| filling_ := Nat.lxor (filling_ o) 1 |>))
    else (false, error o).

Definition flush o : Status * BufferedOutput :=
  let size := frame_size_ o in
  let overflow := overflow_ o in
  let o := o <| frame_size_ := 0%nat |> <| overflow_ := false |> in
  if overflow || (Capacity - pending_ o <? size)%nat
  then (Status.full, o <| counters_ := (counters_ o) <| dropped_frames := u32 (dropped_frames (counters_ o) + 1) |> |>)
  else
    let o := o <| storage_ := blit (filling_ o * Capacity + pending_ o) (take size (frame_ o)) (storage_ o) |>
               <| pending_ := (pending_ o + size)%nat |> in
    let '(ok, o) := Start (note (Queued (take size (frame_ o))) o) in
    (if ok then Status.ok else Status.initialization_failed, o).

Definition complete o : BufferedOutput :=
  if (active_ o =? 0)%nat then o
  else
    let o := o <| counters_ := (counters_ o) <| sent_bytes := u64 (sent_bytes (counters_ o) + Z.of_nat (active_ o)) |>
                                            <| transfers := u32 (transfers (counters_ o) + 1) |> |>
               <| active_ := 0%nat |> in
    snd (Start o).

Definition discard o : BufferedOutput :=
  note GivenUp (o <| frame_size_ := 0%nat |> <| pending_ := 0%nat |> <| active_ := 0%nat |> <| overflow_ := false |>).

Definition counters o : TxCounters := counters_ o.
Definition queued o : nat := (pending_ o + active_ o)%nat.

(** ** The contract

    A transfer consists of the frames queued since the one before, whole and in
    order; giving up forgets what is queued. *)

Inductive OutputOp := OWrite (text : list Z) | OFlush | OComplete | OError | ODiscard.
Definition output_op (op : OutputOp) o : BufferedOutput :=
  match op with
  | OWrite text => write text o
  | OFlush => snd (flush o)
  | OComplete => complete o
  | OError => error o
  | ODiscard => discard o
  end.

(** [well_sent waiting events]: after [events], the frames [waiting] are queued
    and every transfer before had whole frames. *)
Inductive well_sent : list (list Z) -> list Event -> Prop :=
  | ws_new : well_sent [] []
  | ws_queued fs es f : well_sent fs es -> well_sent (fs ++ [f]) (es ++ [Queued f])
  | ws_started fs es : well_sent fs es -> well_sent [] (es ++ [Started (concat fs)])
  | ws_given_up fs es : well_sent fs es -> well_sent [] (es ++ [GivenUp]).

(** The bytes last handed to the driver. *)
Fixpoint latest (es : list Event) : option (list Z) :=
  match es with
  | [] => None
  | Started bytes :: es => match latest es with Some b => Some b | None => Some bytes end
  | _ :: es => latest es
  end.

Record output_inv (o : BufferedOutput) : Prop := {
  oi_storage : length (storage_ o) = (2 * Capacity)%nat;
  oi_frame : length (frame_ o) = FrameCapacity;
  oi_frame_size : (frame_size_ o <= FrameCapacity)%nat;
  oi_filling : (filling_ o < 2)%nat;
  oi_pending : (pending_ o <= Capacity)%nat;
  oi_active : (active_ o <= Capacity)%nat;
  oi_sent : exists fs, well_sent fs (events o) /\ take (pending_ o) (half (filling_ o) o) = concat fs;
  oi_owned : (0 < active_ o)%nat ->
    latest (events o) = Some (take (active_ o) (half (Nat.lxor (filling_ o) 1) o))
}.

#[local] Arguments Nat.lxor : simpl never.

Lemma latest_app es e :
  latest (es ++ [e]) = match e with Started b => Some b | _ => latest es end.
Proof.
  induction es as [|x es IH]; cbn; [by destruct e|]. destruct x; rewrite IH; [done| |done].
  by destruct e.
Qed.

Lemma other_half f : (f < 2)%nat -> (Nat.lxor f 1 < 2)%nat /\ Nat.lxor f 1 <> f /\ Nat.lxor (Nat.lxor f 1) 1 = f.
Proof. intros H. destruct f as [|[|f]]; [vm_compute; lia..|lia]. Qed.

(** Writing inside one half leaves the other alone. *)
Lemma half_disjoint h h' at_ k (st : list Z) :
  (at_ + length k <= Capacity)%nat -> h <> h' ->
  sub (blit (h * Capacity + at_) k st) (h' * Capacity) Capacity = sub st (h' * Capacity) Capacity.
Proof. intros Hk Hne. apply sub_blit_other. destruct (Nat.lt_ge_cases h h'); nia. Qed.

(** Appending to what a half holds. *)
Lemma half_append h at_ k (st : list Z) :
  (at_ + length k <= Capacity)%nat -> (h * Capacity + Capacity <= length st)%nat ->
  take (at_ + length k) (sub (blit (h * Capacity + at_) k st) (h * Capacity) Capacity) =
    take at_ (sub st (h * Capacity) Capacity) ++ k.
Proof.
  intros Hk Hst. change (take ?n ?l) with (sub l 0 n). rewrite !sub_sub by lia.
  rewrite !Nat.add_0_r, sub_app, sub_blit_other by lia. f_equal. apply sub_blit_same; lia.
Qed.

Lemma half_bound h : (h < 2)%nat -> (h * Capacity + Capacity <= 2 * Capacity)%nat.
Proof. nia. Qed.

Lemma error_inv o : output_inv o -> output_inv (error o).
Proof.
  intros []. split; cbn; try done; [lia|lia| |lia]. destruct oi_sent0 as (fs & Hws & _).
  exists []. split; [by eapply ws_given_up|done].
Qed.

Lemma Start_inv o : output_inv o -> output_inv (snd (Start o)).
Proof.
  intros Ho. unfold Start. destruct (_ || _); [done|].
  destruct (driver_start _ _) as [started d]. destruct started; cbn [snd].
  - destruct Ho. destruct (other_half _ oi_filling0) as (H1 & _ & H2). destruct oi_sent0 as (fs & Hws & Hfs).
    split; cbn; try done; [lia|..].
    + exists []. split; [|done]. rewrite Hfs. by apply ws_started.
    + intros _. rewrite latest_app. unfold half. cbn. by rewrite H2.
  - apply error_inv. destruct Ho. by split.
Qed.

Lemma write_inv text o : output_inv o -> output_inv (write text o).
Proof.
  intros Ho. unfold write. destruct (overflow_ o); [done|].
  destruct (Nat.ltb_spec (FrameCapacity - frame_size_ o) (length text)); destruct Ho; split; cbn; try done.
  - by rewrite length_blit.
  - lia.
Qed.

Lemma flush_inv o : output_inv o -> output_inv (snd (flush o)).
Proof.
  intros Ho. unfold flush. destruct (overflow_ o || _) eqn:Hfull; cbn [snd].
  { destruct Ho. split; cbn; try done. lia. }
  apply orb_false_iff in Hfull as [_ Hroom]. apply Nat.ltb_ge in Hroom. cbn in Hroom.
  match goal with |- context [Start ?x] => assert (Hx : output_inv x) end.
  2: { pose proof (Start_inv _ Hx) as H. destruct (Start _) as [ok o']. exact H. }
  destruct Ho. set (k := take (frame_size_ o) (frame_ o)).
  assert (Hk : length k = frame_size_ o) by (unfold k; rewrite length_take; lia).
  destruct (other_half _ oi_filling0) as (Hoth & Hne & _). pose proof (half_bound _ oi_filling0).
  split; cbn; fold k; try done.
  - by rewrite length_blit.
  - lia.
  - lia.
  - destruct oi_sent0 as (fs & Hws & Hfs). exists (fs ++ [k]). split; [by apply ws_queued|].
    rewrite concat_app, <- Hfs. cbn. rewrite app_nil_r. unfold half. cbn. rewrite <- Hk.
    apply half_append; lia.
  - intros Ha. rewrite latest_app, oi_owned0 by done. unfold half. cbn. fold k.
    by rewrite half_disjoint by (lia || congruence).
Qed.

Lemma complete_inv o : output_inv o -> output_inv (complete o).
Proof.
  intros Ho. unfold complete. destruct (_ =? _)%nat; [done|]. apply Start_inv.
  destruct Ho. split; cbn; try done; lia.
Qed.

Lemma discard_inv o : output_inv o -> output_inv (discard o).
Proof.
  intros []. split; cbn; try done; [lia|lia|lia| |lia]. destruct oi_sent0 as (fs & Hws & _).
  exists []. split; [by eapply ws_given_up|done].
Qed.

Lemma output_run_inv ops o : output_inv o -> output_inv (foldl (fun o op => output_op op o) o ops).
Proof.
  revert o. induction ops as [|op ops IH]; intros o Ho; [done|]. apply IH. destruct op; cbn [output_op].
  - by apply write_inv.
  - by apply flush_inv.
  - by apply complete_inv.
  - by apply error_inv.
  - by apply discard_inv.
Qed.

(** C33: the driver only ever gets whole frames, once and in order, and its
    buffer is left alone while it owns it: over any sequence of writes, flushes,
    completions, errors and teardowns, each transfer consists of the frames
    queued since the last transfer or the last error; the queued bytes are the
    frames waiting; neither half overflows; and while a transfer is active its
    half of the buffer still holds the bytes it was started with. *)
Theorem output_sends_whole_frames storage d ops :
  length storage = (2 * Capacity)%nat ->
  let o := foldl (fun o op => output_op op o) (new_output storage d) ops in
  (exists waiting, well_sent waiting (events o) /\ take (pending_ o) (half (filling_ o) o) = concat waiting) /\
  (pending_ o <= Capacity)%nat /\ (active_ o <= Capacity)%nat /\
  ((0 < active_ o)%nat -> latest (events o) = Some (take (active_ o) (half (Nat.lxor (filling_ o) 1) o))).
Proof.
  intros Hst o. assert (Ho : output_inv o).
  { apply output_run_inv. split; cbn; try done; try lia; [by rewrite length_replicate|].
    exists []. split; [constructor|done]. }
  destruct Ho. split_and!; done.
Qed.
End output.

Definition sample_output : BufferedOutput (D := nat) :=
  foldl (fun o op => output_op 8 8 (fun _ d => (true, S d)) op o) (new_output 8 (replicate 16 0) 0%nat)
    [OWrite [1; 2]; OWrite [3]; OFlush; OWrite [4]; OFlush; OWrite [5; 6; 7; 8; 9; 10; 11; 12]; OFlush; OComplete].

Lemma output_sends_whole_frames_witness :
  events sample_output = [Queued [1; 2; 3]; Started [1; 2; 3]; Queued [4]; Started [4]] /\
  latest (events sample_output) = Some (take (active_ sample_output) (half 8 (Nat.lxor (filling_ sample_output) 1) sample_output)).
Proof.
  split; [vm_compute; reflexivity|].
  apply (output_sends_whole_frames 8 8 (fun _ d => (true, S d)) (replicate 16 0) 0%nat
    [OWrite [1; 2]; OWrite [3]; OFlush; OWrite [4]; OFlush; OWrite [5; 6; 7; 8; 9; 10; 11; 12]; OFlush; OComplete]).
  - reflexivity.
  - apply Nat.ltb_lt. vm_compute. reflexivity.
Defined.
