(* ===== verification/HalBase.v ===== *)
(** * Statuses, durations and spans of the HAL (src/lib/hal/status.h,
      transaction.hpp, detail/actions.hpp)

    A span is its address and size: the controller examines received bytes, so
    buffers live in a memory that the hardware changes. *)

From S2P Require Import Prelude Foundation StateMachine.

Module HalStatus.
Inductive HalStatus : Set :=
  | ok | busy | invalid_argument | unsupported_buffer | not_initialized | initialization_failed | timeout
  | timer_error | nack | arbitration_lost | hardware_error | response_mismatch | faulted | aborted.
End HalStatus.
Abbreviation HalStatus := HalStatus.HalStatus.
#[global] Instance HalStatus_eq_dec : EqDecision HalStatus.
Proof. solve_decision. Defined.
Definition hs_eqb (a b : HalStatus) : bool := bool_decide (a = b).
Notation "a =h? b" := (hs_eqb a b) (at level 70, no associativity).

Lemma hs_eqb_eq a b : (a =h? b) = true <-> a = b.
Proof. unfold hs_eqb. by rewrite bool_decide_eq_true. Qed.
Lemma hs_eqb_neq a b : (a =h? b) = false <-> a <> b.
Proof. unfold hs_eqb. by rewrite bool_decide_eq_false. Qed.
Lemma hs_eqb_refl a : (a =h? a) = true.
Proof. by apply hs_eqb_eq. Qed.

(** ** Durations and spans *)

Record Duration := mkDuration { dur_us : Z; dur_valid : bool }.
(** The constructor from [count] periods of [num/den] seconds. *)
Definition duration_of (signed_rep : bool) (count num den : Z) : Duration :=
  let '(st, us) := to_microseconds signed_rep count num den 0 in
  mkDuration us ((st =s? Status.ok) && negb (us =? 0)).

Record Span := mkSpan { sp_data : Z; sp_size : Z }.
Definition no_span : Span := mkSpan 0 0.
Definition span_empty (s : Span) : bool := sp_size s =? 0.
Definition Mem := Z -> Z.

(** [detail::Overlap]. *)
Definition Overlap (tx rx : Span) : bool :=
  let a := sp_data tx in
  let b := sp_data rx in
  if a <=? b then b - a <? sp_size tx else a - b <? sp_size rx.

(** ** Checked arithmetic; [None] is [false] *)

Definition kMaximumTime : Z := kForever - 1.
Definition Add (value amount : Z) : option Z :=
  if (value >? kMaximumTime) || (amount >? kMaximumTime - value) then None else Some (u64 (value + amount)).
Definition Multiply (value amount : Z) : option Z :=
  if negb (amount =? 0) && (value >? kMaximumTime / amount) then None else Some (u64 (value * amount)).
