(* ===== verification/Spi.v ===== *)
(** * SPI actions (src/lib/hal/spi/action.hpp, detail/actions.hpp) *)

From S2P Require Import Prelude Foundation HalBase.

Inductive Operation : Set :=
  write | read | exchange | pause | idle_clocks | check_response | poll_response | read_until.
#[global] Instance Operation_eq_dec : EqDecision Operation.
Proof. solve_decision. Defined.

Record Action := mkAction {
  operation : Operation; tx : Span; rx : Span; amount : Z; fill : Z; valid : bool
}.
#[global] Instance Action_inhabited : Inhabited Action := populate (mkAction write no_span no_span 0 0xff true).

Definition is_op (o : Operation) (a : Action) : bool := bool_decide (operation a = o).

Definition write_action (bytes : Span) : Action := mkAction write bytes no_span 0 0xff true.
Definition read_action (bytes : Span) (fill : Z) : Action := mkAction read no_span bytes 0 fill true.
Definition exchange_action (tx rx : Span) : Action := mkAction exchange tx rx 0 0xff true.
Definition pause_action (delay : Duration) : Action :=
  mkAction pause no_span no_span (dur_us delay) 0xff (dur_valid delay).
Definition idle_clocks_action (cycles : Z) : Action := mkAction idle_clocks no_span no_span cycles 0xff true.
Definition check_response_action (bytes : Span) (expected mask idle : Z) : Action :=
  mkAction check_response bytes no_span (Z.lor expected (Z.shiftl mask 8)) idle true.
Definition poll_response_action (window : Span) (expected mask fill : Z) : Action :=
  mkAction poll_response no_span window (Z.lor expected (Z.shiftl mask 8)) fill true.
Definition read_until_action (response : Span) (idle maximum_bytes : Z) : Action :=
  mkAction read_until no_span response maximum_bytes idle true.

Definition Reads (a : Action) : bool :=
  is_op read_until a || is_op poll_response a || is_op read a || is_op exchange a.
Definition Writes (a : Action) : bool := is_op write a || is_op exchange a.
Definition Polls (a : Action) : bool := is_op poll_response a || is_op read_until a.
Definition PollMatched (m : Mem) (a : Action) : bool :=
  if is_op read_until a then negb (m (sp_data (rx a)) =? fill a)
  else Z.land (m (sp_data (rx a) + sp_size (rx a) - 1)) (u8 (Z.shiftr (amount a) 8)) =? u8 (amount a).
Definition PollLimit (a : Action) : Z := if is_op read_until a then amount a else 0.
Definition TransferAction (a : Action) : Action := if Polls a then read_action (rx a) (fill a) else a.
Definition Checks (a : Action) : bool := is_op check_response a.

(** The loop of [Matches] over [n] bytes from address [p]. *)
Fixpoint matches_loop (m : Mem) (a : Action) (n : nat) (p : Z) : bool :=
  match n with
  | O => false
  | S n => if negb (m p =? fill a) then Z.land (m p) (u8 (Z.shiftr (amount a) 8)) =? u8 (amount a)
           else matches_loop m a n (p + 1)
  end.
Definition Matches (m : Mem) (a : Action) : bool := matches_loop m a (Z.to_nat (sp_size (tx a))) (sp_data (tx a)).
Definition Pause (a : Action) : Z := if is_op pause a then amount a else 0.

(** [!(uint8(amount) & ~(amount >> 8))] *)
Definition mask_covers (amount : Z) : bool :=
  Z.land (u8 amount) (Z.lxor (Z.shiftr amount 8) UINT64_MAX) =? 0.

(** The totals after the action, or [None] for [invalid_argument]. *)
Definition add_bytes (n : Z) (totals : Z * Z) : option (Z * Z) :=
  n ← Multiply n 8; bits ← Add (fst totals) n; Some (bits, snd totals).
Definition Measure (a : Action) (count : nat) (totals : Z * Z) : option (Z * Z) :=
  if negb (valid a) then None
  else
    match operation a with
    | write => if span_empty (tx a) || negb (span_empty (rx a)) then None else add_bytes (sp_size (tx a)) totals
    | read => if span_empty (rx a) || negb (span_empty (tx a)) then None else add_bytes (sp_size (rx a)) totals
    | exchange =>
        if span_empty (tx a) || negb (sp_size (tx a) =? sp_size (rx a)) || Overlap (tx a) (rx a) then None
        else add_bytes (sp_size (tx a)) totals
    | read_until =>
        if negb (sp_size (rx a) =? 1) || negb (span_empty (tx a)) || (amount a >? UINT32_MAX) then None
        else add_bytes 1 totals
    | poll_response =>
        if span_empty (rx a) || (sp_size (rx a) >? 32) || negb (span_empty (tx a)) || (amount a >? 0xffff) ||
           (Z.shiftr (amount a) 8 =? 0) || negb (mask_covers (amount a)) then None
        else add_bytes (sp_size (rx a)) totals
    | check_response =>
        if negb (span_empty (tx a)) && (sp_size (tx a) <=? 32) && span_empty (rx a) && (amount a <=? 0xffff) &&
           negb (Z.shiftr (amount a) 8 =? 0) && mask_covers (amount a) then Some totals else None
    | pause =>
        if negb (amount a =? 0) && span_empty (tx a) && span_empty (rx a)
        then pauses ← Add (snd totals) (amount a); Some (fst totals, pauses) else None
    | idle_clocks =>
        if (count =? 1)%nat && negb (amount a =? 0) && (amount a mod 8 =? 0) && span_empty (tx a) &&
           span_empty (rx a) && (fill a =? 0xff)
        then bits ← Add (fst totals) (amount a); Some (bits, snd totals) else None
    end.
