(* ===== verification/I2c.v ===== *)
(** * I2C actions (src/lib/hal/i2c/action.hpp, detail/actions.hpp) *)

From S2P Require Import Prelude Foundation HalBase.

Inductive Operation : Set := write | read | probe.
#[global] Instance Operation_eq_dec : EqDecision Operation.
Proof. solve_decision. Defined.
Record Action := mkAction { operation : Operation; tx : Span; rx : Span }.
#[global] Instance Action_inhabited : Inhabited Action := populate (mkAction probe no_span no_span).

Definition Address_valid (value : Z) : bool := (value >=? 0x08) && (value <=? 0x77).
Definition write_action (bytes : Span) : Action := mkAction write bytes no_span.
Definition read_action (bytes : Span) : Action := mkAction read no_span bytes.
Definition probe_action : Action := mkAction probe no_span no_span.

Definition Reads (a : Action) : bool := bool_decide (operation a = read).
Definition Writes (a : Action) : bool := bool_decide (operation a = write).

Definition Measure (a : Action) (count : nat) (totals : Z * Z) : option (Z * Z) :=
  if bool_decide (operation a = probe) then
    if (count =? 1)%nat && span_empty (tx a) && span_empty (rx a)
    then bits ← Add (fst totals) 11; Some (bits, snd totals) else None
  else if (negb (Reads a) && negb (Writes a)) || (Reads a && (span_empty (rx a) || negb (span_empty (tx a)))) ||
          (Writes a && (span_empty (tx a) || negb (span_empty (rx a)))) then None
  else
    n ← Add (if Reads a then sp_size (rx a) else sp_size (tx a)) 1;
    n ← Multiply n 9;
    n ← Add n 2;
    bits ← Add (fst totals) n;
    Some (bits, snd totals).
