(* ===== verification/HalAction.v ===== *)
(** * Bus transactions (src/lib/hal/detail/actions.hpp, detail/counters.hpp)

    What a controller asks of an action, whatever its bus, the deadline it
    computes for a transaction, and its counters. *)

From S2P Require Import Prelude Foundation StateMachine HalBase Spi I2c.

(** ** What the controller asks of a kind of action: the overload set of [detail] *)

Class BusAction (A : Type) := {
  act_inhabited :: Inhabited A;
  act_reads : A -> bool; act_writes : A -> bool;
  act_polls : A -> bool; act_poll_matched : Mem -> A -> bool; act_poll_limit : A -> Z;
  act_transfer : A -> A;
  act_checks : A -> bool; act_matches : Mem -> A -> bool;
  act_pause : A -> Z;
  act_measure : A -> nat -> Z * Z -> option (Z * Z)
}.
#[export] Instance spi_action : BusAction Spi.Action := {|
  act_reads := Spi.Reads; act_writes := Spi.Writes; act_polls := Spi.Polls; act_poll_matched := Spi.PollMatched;
  act_poll_limit := Spi.PollLimit; act_transfer := Spi.TransferAction; act_checks := Spi.Checks;
  act_matches := Spi.Matches; act_pause := Spi.Pause; act_measure := Spi.Measure
|}.
#[export] Instance i2c_action : BusAction I2c.Action := {|
  act_reads := I2c.Reads; act_writes := I2c.Writes; act_polls _ := false; act_poll_matched _ _ := false;
  act_poll_limit _ := 0; act_transfer a := a; act_checks _ := false; act_matches _ _ := false; act_pause _ := 0;
  act_measure := I2c.Measure
|}.

(** ** The deadline of a transaction *)

Definition kTimeoutMinimumUs : Z := 10000.
Definition kTimeoutMarginUs : Z := 1000.
Definition kTimeoutFactor : Z := 4.
Definition kResetTimeoutUs : Z := 100000.

Section timeout.
Context {A : Type} `{BusAction A}.

Fixpoint measure_all (requested : option Duration) (count : nat) (actions : list A) (totals : Z * Z) : option (Z * Z) :=
  match actions with
  | [] => Some totals
  | action :: actions =>
      if act_polls action && negb (bool_decide (is_Some requested)) then None
      else totals ← act_measure action count totals; measure_all requested count actions totals
  end.

(** The time on the wire in microseconds, with factor and margin. *)
Definition wire_time (bits rate : Z) : option Z :=
  wire ← Multiply (bits / rate) 1000000;
  wire ← Add wire (u64 (u64 (u64 ((bits mod rate) * 1000000) + rate - 1) / rate));
  wire ← Multiply wire kTimeoutFactor;
  Add wire kTimeoutMarginUs.

(** The delay, or [None] for [invalid_argument]. *)
Definition Timeout (actions : list A) (rate : Z) (requested : option Duration) : option Z :=
  if (length actions =? 0)%nat || (rate =? 0) || match requested with Some d => negb (dur_valid d) | None => false end
  then None
  else
    totals ← measure_all requested (length actions) actions (0, 0);
    match requested with
    | Some d => Some (dur_us d)
    | None =>
        wire ← wire_time (fst totals) rate;
        Add (Z.max kTimeoutMinimumUs wire) (snd totals)
    end.
End timeout.

(** ** Counters (detail/counters.hpp): saturating *)

Module Counter.
Inductive CounterIndex : Set :=
  read_attempts | write_attempts | read_errors | write_errors | accepted | completed | failed | timed_out
  | rejected | cleanup_failures | resets | reset_failures.
End Counter.
Definition counter_index (c : Counter.CounterIndex) : nat :=
  match c with
  | Counter.read_attempts => 0 | Counter.write_attempts => 1 | Counter.read_errors => 2 | Counter.write_errors => 3
  | Counter.accepted => 4 | Counter.completed => 5 | Counter.failed => 6 | Counter.timed_out => 7
  | Counter.rejected => 8 | Counter.cleanup_failures => 9 | Counter.resets => 10 | Counter.reset_failures => 11
  end.
Definition Counters := list Z.
Definition new_counters : Counters := replicate 12 0.
Definition increment (c : Counter.CounterIndex) (cells : Counters) : Counters := alter Increment (counter_index c) cells.
(** [snapshot]: the values, and the cells afterwards. *)
Definition snapshot (clear : bool) (cells : Counters) : list Z * Counters :=
  (cells, if clear then new_counters else cells).

(** ** What the deadline is

    The number of bits an action clocks and the microseconds it waits, as plain
    numbers, and whether its descriptor is acceptable in a transaction of
    [count] actions. *)

Class MeasuredAction (A : Type) `{BusAction A} := {
  act_ok : A -> Prop;  (** the ranges of the member types *)
  act_well : A -> nat -> bool;
  act_bits : A -> Z;
  act_bits_nonneg a : act_ok a -> 0 <= act_bits a;
  act_pause_nonneg a : act_ok a -> 0 <= act_pause a;
  act_measure_spec a count bits pauses :
    act_ok a -> 0 <= bits <= kMaximumTime -> 0 <= pauses <= kMaximumTime ->
    act_measure a count (bits, pauses) =
      if act_well a count && (bits + act_bits a <=? kMaximumTime) && (pauses + act_pause a <=? kMaximumTime)
      then Some (bits + act_bits a, pauses + act_pause a) else None
}.

Lemma Add_spec x y : 0 <= x <= kMaximumTime -> 0 <= y ->
  Add x y = if x + y <=? kMaximumTime then Some (x + y) else None.
Proof.
  unfold Add, kMaximumTime, kForever, UINT64_MAX. intros Hx Hy.
  destruct (Z.gtb_spec x (2 ^ 64 - 1 - 1)); [lia|]. cbn [orb].
  destruct (Z.gtb_spec y (2 ^ 64 - 1 - 1 - x)), (Z.leb_spec (x + y) (2 ^ 64 - 1 - 1)); try lia; [done|].
  rewrite u64_small; [done|]. unfold is_u64. lia.
Qed.

Lemma Multiply_spec x y : 0 <= x -> 0 < y ->
  Multiply x y = if x * y <=? kMaximumTime then Some (x * y) else None.
Proof.
  intros Hx Hy. unfold Multiply. rewrite (proj2 (Z.eqb_neq y 0)) by lia. cbn [negb andb].
  pose proof (Z.div_mod kMaximumTime y). pose proof (Z.mod_pos_bound kMaximumTime y).
  destruct (Z.gtb_spec x (kMaximumTime / y)), (Z.leb_spec (x * y) kMaximumTime); try nia; [done|].
  rewrite u64_small; [done|]. unfold is_u64, kMaximumTime, kForever, UINT64_MAX in *. nia.
Qed.

Definition span_ok (s : Span) : Prop := 0 <= sp_size s.

(** [if] on a comparison that holds or fails. *)
Ltac decide_le := repeat match goal with |- context [?x <=? ?y] => destruct (Z.leb_spec x y); try lia end.

Lemma add_bytes_spec n bits pauses : 0 <= n -> 0 <= bits <= kMaximumTime -> 0 <= pauses <= kMaximumTime ->
  Spi.add_bytes n (bits, pauses) =
    if (bits + 8 * n <=? kMaximumTime) && (pauses + 0 <=? kMaximumTime) then Some (bits + 8 * n, pauses + 0) else None.
Proof.
  intros Hn Hb Hp. unfold Spi.add_bytes. rewrite Multiply_spec by lia. cbn [fst snd].
  decide_le; cbn [mbind option_bind andb]; rewrite ?Add_spec by lia; decide_le; cbn; f_equal; f_equal; lia.
Qed.

Lemma gtb_leb x y : (x >? y) = negb (x <=? y).
Proof. by rewrite Z.gtb_ltb, Z.ltb_antisym. Qed.

(** Cases on every test the two sides share. *)
Ltac test_cases :=
  repeat match goal with
  | |- context [if ?b then _ else _] =>
      match b with
      | context [span_empty ?s] => destruct (span_empty s) eqn:?
      | context [Overlap ?s ?t] => destruct (Overlap s t) eqn:?
      | context [Spi.mask_covers ?s] => destruct (Spi.mask_covers s) eqn:?
      | context [sp_size ?s =? ?t] => destruct (sp_size s =? t) eqn:?
      | context [sp_size ?s <=? 32] => destruct (sp_size s <=? 32) eqn:?
      | context [Spi.amount ?a <=? ?t] => destruct (Spi.amount a <=? t) eqn:?
      | context [?t =? 0] => destruct (t =? 0) eqn:?
      | context [(?n =? 1)%nat] => destruct (n =? 1)%nat eqn:?
      | context [Spi.fill ?a =? ?t] => destruct (Spi.fill a =? t) eqn:?
      end; cbn [negb andb orb]; try reflexivity
  end.

Lemma add_pause_spec n bits pauses : 0 <= n -> 0 <= bits <= kMaximumTime -> 0 <= pauses <= kMaximumTime ->
  (p ← Add pauses n; Some (bits, p)) =
    if (bits + 0 <=? kMaximumTime) && (pauses + n <=? kMaximumTime) then Some (bits + 0, pauses + n) else None.
Proof.
  intros. rewrite Add_spec by lia. decide_le; cbn; f_equal; f_equal; lia.
Qed.
Lemma add_bits_spec n bits pauses : 0 <= n -> 0 <= bits <= kMaximumTime -> 0 <= pauses <= kMaximumTime ->
  (b ← Add bits n; Some (b, pauses)) =
    if (bits + n <=? kMaximumTime) && (pauses + 0 <=? kMaximumTime) then Some (bits + n, pauses + 0) else None.
Proof.
  intros. rewrite Add_spec by lia. decide_le; cbn; f_equal; f_equal; lia.
Qed.

Section spi_measure.
Import Spi.
Record spi_ok (a : Spi.Action) : Prop := {
  spi_tx : span_ok (Spi.tx a); spi_rx : span_ok (Spi.rx a); spi_amount : 0 <= Spi.amount a
}.
Definition spi_well (a : Spi.Action) (count : nat) : bool :=
  Spi.valid a &&
  match Spi.operation a with
  | write => negb (span_empty (Spi.tx a)) && span_empty (Spi.rx a)
  | read => negb (span_empty (Spi.rx a)) && span_empty (Spi.tx a)
  | exchange => negb (span_empty (Spi.tx a)) && (sp_size (Spi.tx a) =? sp_size (Spi.rx a)) && negb (Overlap (Spi.tx a) (Spi.rx a))
  | read_until => (sp_size (Spi.rx a) =? 1) && span_empty (Spi.tx a) && (Spi.amount a <=? UINT32_MAX)
  | poll_response =>
      negb (span_empty (Spi.rx a)) && (sp_size (Spi.rx a) <=? 32) && span_empty (Spi.tx a) && (Spi.amount a <=? 0xffff) &&
      negb (Z.shiftr (Spi.amount a) 8 =? 0) && mask_covers (Spi.amount a)
  | check_response =>
      negb (span_empty (Spi.tx a)) && (sp_size (Spi.tx a) <=? 32) && span_empty (Spi.rx a) && (Spi.amount a <=? 0xffff) &&
      negb (Z.shiftr (Spi.amount a) 8 =? 0) && mask_covers (Spi.amount a)
  | pause => negb (Spi.amount a =? 0) && span_empty (Spi.tx a) && span_empty (Spi.rx a)
  | idle_clocks =>
      (count =? 1)%nat && negb (Spi.amount a =? 0) && (Spi.amount a mod 8 =? 0) && span_empty (Spi.tx a) &&
      span_empty (Spi.rx a) && (Spi.fill a =? 0xff)
  end.
Definition spi_bits (a : Spi.Action) : Z :=
  match Spi.operation a with
  | write | exchange => 8 * sp_size (Spi.tx a)
  | read | poll_response => 8 * sp_size (Spi.rx a)
  | read_until => 8
  | idle_clocks => Spi.amount a
  | check_response | pause => 0
  end.

Lemma spi_measure_spec a count bits pauses :
  spi_ok a -> 0 <= bits <= kMaximumTime -> 0 <= pauses <= kMaximumTime ->
  Spi.Measure a count (bits, pauses) =
    if spi_well a count && (bits + spi_bits a <=? kMaximumTime) && (pauses + Spi.Pause a <=? kMaximumTime)
    then Some (bits + spi_bits a, pauses + Spi.Pause a) else None.
Proof.
  intros [Htx Hrx Ham] Hb Hp. unfold span_ok in *. unfold Measure, spi_well, spi_bits, Spi.Pause, is_op.
  destruct (Spi.valid a); cbn [negb andb]; [|done].
  destruct (Spi.operation a); rewrite ?gtb_leb;
    repeat (rewrite bool_decide_true by done); repeat (rewrite bool_decide_false by done);
    test_cases; cbn [fst snd]; try (by apply (add_bytes_spec)); try (by apply add_pause_spec); try (by apply add_bits_spec).
  all: decide_le; cbn; f_equal; f_equal; lia.
Qed.
End spi_measure.

Section i2c_measure.
Record i2c_ok (a : I2c.Action) : Prop := { i2c_tx : span_ok (I2c.tx a); i2c_rx : span_ok (I2c.rx a) }.
Definition i2c_well (a : I2c.Action) (count : nat) : bool :=
  match I2c.operation a with
  | I2c.probe => (count =? 1)%nat && span_empty (I2c.tx a) && span_empty (I2c.rx a)
  | I2c.read => negb (span_empty (I2c.rx a)) && span_empty (I2c.tx a)
  | I2c.write => negb (span_empty (I2c.tx a)) && span_empty (I2c.rx a)
  end.
(** Start, address and every byte with its acknowledge bit, stop. *)
Definition i2c_bits (a : I2c.Action) : Z :=
  match I2c.operation a with
  | I2c.probe => 11
  | I2c.read => 9 * (sp_size (I2c.rx a) + 1) + 2
  | I2c.write => 9 * (sp_size (I2c.tx a) + 1) + 2
  end.

Lemma add_transfer_spec size bits pauses : 0 <= size -> 0 <= bits <= kMaximumTime -> 0 <= pauses <= kMaximumTime ->
  (n ← (if size <=? kMaximumTime then Add size 1 else None); n ← Multiply n 9; n ← Add n 2; b ← Add bits n;
   Some (b, pauses)) =
    if (bits + (9 * (size + 1) + 2) <=? kMaximumTime) && (pauses + 0 <=? kMaximumTime)
    then Some (bits + (9 * (size + 1) + 2), pauses + 0) else None.
Proof.
  intros. decide_le; cbn [andb mbind option_bind]; rewrite ?Add_spec by lia;
  decide_le; cbn [andb mbind option_bind]; rewrite ?Multiply_spec by lia;
  decide_le; cbn [andb mbind option_bind]; rewrite ?Add_spec by lia;
  decide_le; cbn [andb mbind option_bind]; rewrite ?Add_spec by lia;
  decide_le; cbn [andb mbind option_bind]; try done; f_equal; f_equal; lia.
Qed.

Lemma Add_guarded x y : Add x y = if x <=? kMaximumTime then Add x y else None.
Proof. unfold Add. rewrite gtb_leb. by destruct (x <=? kMaximumTime). Qed.

Lemma i2c_measure_spec a count bits pauses :
  i2c_ok a -> 0 <= bits <= kMaximumTime -> 0 <= pauses <= kMaximumTime ->
  I2c.Measure a count (bits, pauses) =
    if i2c_well a count && (bits + i2c_bits a <=? kMaximumTime) && (pauses + 0 <=? kMaximumTime)
    then Some (bits + i2c_bits a, pauses + 0) else None.
Proof.
  intros [Htx Hrx] Hb Hp. unfold span_ok in *. unfold I2c.Measure, I2c.Reads, I2c.Writes, i2c_well, i2c_bits.
  destruct (I2c.operation a);
    repeat (rewrite bool_decide_true by done); repeat (rewrite bool_decide_false by done);
    test_cases; cbn [fst snd]; try (by apply add_bits_spec);
    rewrite Add_guarded; by apply add_transfer_spec.
Qed.
End i2c_measure.

Lemma spi_bits_nonneg a : spi_ok a -> 0 <= spi_bits a.
Proof. intros [? ? ?]. unfold span_ok in *. unfold spi_bits. destruct (Spi.operation a); lia. Qed.
Lemma spi_pause_nonneg a : spi_ok a -> 0 <= Spi.Pause a.
Proof. intros [? ? ?]. unfold Spi.Pause. destruct (Spi.is_op _ _); lia. Qed.
Lemma i2c_bits_nonneg a : i2c_ok a -> 0 <= i2c_bits a.
Proof. intros [? ?]. unfold span_ok in *. unfold i2c_bits. destruct (I2c.operation a); lia. Qed.

#[export] Instance spi_measured : MeasuredAction Spi.Action := {|
  act_ok := spi_ok; act_well := spi_well; act_bits := spi_bits; act_bits_nonneg := spi_bits_nonneg;
  act_pause_nonneg := spi_pause_nonneg; act_measure_spec := spi_measure_spec
|}.
#[export] Instance i2c_measured : MeasuredAction I2c.Action := {|
  act_ok := i2c_ok; act_well := i2c_well; act_bits := i2c_bits; act_bits_nonneg := i2c_bits_nonneg;
  act_pause_nonneg a _ := Z.le_refl 0; act_measure_spec := i2c_measure_spec
|}.

Section deadline.
Context {A : Type} `{MeasuredAction A}.

Definition total_bits (actions : list A) : Z := foldr (fun a n => act_bits a + n) 0 actions.
Definition total_pause (actions : list A) : Z := foldr (fun a n => act_pause a + n) 0 actions.
(** Every descriptor is acceptable, and without a deadline of its own the
    transaction polls nothing. *)
Definition acceptable (requested : bool) (actions : list A) : bool :=
  forallb (fun a => act_well a (length actions) && (requested || negb (act_polls a))) actions.

Lemma total_bits_nonneg actions : Forall act_ok actions -> 0 <= total_bits actions.
Proof. unfold total_bits. induction 1 as [|a l Ha Hl IH]; cbn; [lia|]. pose proof (act_bits_nonneg a Ha). lia. Qed.
Lemma total_pause_nonneg actions : Forall act_ok actions -> 0 <= total_pause actions.
Proof. unfold total_pause. induction 1 as [|a l Ha Hl IH]; cbn; [lia|]. pose proof (act_pause_nonneg a Ha). lia. Qed.

Lemma measure_all_spec requested count actions bits pauses :
  Forall act_ok actions -> 0 <= bits <= kMaximumTime -> 0 <= pauses <= kMaximumTime ->
  measure_all requested count actions (bits, pauses) =
    if forallb (fun a => act_well a count && (bool_decide (is_Some requested) || negb (act_polls a))) actions &&
       (bits + total_bits actions <=? kMaximumTime) && (pauses + total_pause actions <=? kMaximumTime)
    then Some (bits + total_bits actions, pauses + total_pause actions) else None.
Proof.
  intros Hok. revert bits pauses. induction Hok as [|a l Ha Hl IH]; intros bits pauses Hb Hp; cbn [measure_all].
  - cbn. decide_le. cbn. by rewrite !Z.add_0_r.
  - cbn [forallb total_bits total_pause foldr]. fold (total_bits l) (total_pause l).
    pose proof (total_bits_nonneg l Hl). pose proof (total_pause_nonneg l Hl).
    pose proof (act_bits_nonneg a Ha). pose proof (act_pause_nonneg a Ha).
    destruct (bool_decide (is_Some requested)), (act_polls a); cbn [negb andb orb];
      rewrite ?andb_false_r, ?andb_true_r; try done;
      rewrite act_measure_spec by done; destruct (act_well a count); cbn [andb mbind option_bind]; try done;
      decide_le; cbn [andb mbind option_bind]; try (rewrite ?andb_false_r; done);
      rewrite IH by lia; rewrite !Z.add_assoc; decide_le; done.
Qed.

(** Rounding up the remainder only is rounding up the whole. *)
Definition ceil_div (a b : Z) : Z := (a + b - 1) / b.
Lemma split_ceil bits rate k : 0 <= bits -> 0 < rate ->
  bits / rate * k + ceil_div ((bits mod rate) * k) rate = ceil_div (bits * k) rate.
Proof.
  intros. unfold ceil_div. rewrite (Z.div_mod bits rate) at 3 by lia.
  replace ((rate * (bits / rate) + bits mod rate) * k + rate - 1)
    with (bits mod rate * k + rate - 1 + (bits / rate * k) * rate) by lia.
  rewrite Z.div_add by lia. lia.
Qed.
Lemma ceil_div_nonneg a b : 0 <= a -> 0 < b -> 0 <= ceil_div a b.
Proof. intros. unfold ceil_div. apply Z.div_pos; lia. Qed.

Definition wire_us (bits rate : Z) : Z := kTimeoutFactor * ceil_div (bits * 1000000) rate + kTimeoutMarginUs.

Lemma wire_time_spec bits rate : 0 <= bits -> 0 < rate <= UINT32_MAX ->
  wire_time bits rate = if wire_us bits rate <=? kMaximumTime then Some (wire_us bits rate) else None.
Proof.
  intros Hb Hr. unfold wire_time, wire_us. rewrite <- (split_ceil bits rate 1000000) by lia.
  pose proof (Z.mod_pos_bound bits rate ltac:(lia)) as Hm.
  unfold UINT32_MAX in Hr.
  rewrite (u64_small (bits mod rate * 1000000)) by (unfold is_u64; nia).
  rewrite (u64_small (bits mod rate * 1000000 + rate - 1)) by (unfold is_u64; nia).
  change ((bits mod rate * 1000000 + rate - 1) / rate) with (ceil_div (bits mod rate * 1000000) rate).
  pose proof (ceil_div_nonneg (bits mod rate * 1000000) rate ltac:(nia) ltac:(lia)) as Hc.
  assert (ceil_div (bits mod rate * 1000000) rate <= 1000000) as Hc'.
  { unfold ceil_div. apply Z.lt_succ_r, Z.div_lt_upper_bound; lia. }
  pose proof (Z.div_pos bits rate Hb ltac:(lia)) as Hd.
  rewrite (u64_small (ceil_div _ _)) by (unfold is_u64; lia).
  unfold kTimeoutFactor, kTimeoutMarginUs.
  generalize dependent (ceil_div (bits mod rate * 1000000) rate). generalize dependent (bits / rate). intros q Hq c Hc Hc'.
  rewrite Multiply_spec by lia. decide_le; cbn [mbind option_bind]; try done;
  rewrite ?Add_spec by lia; decide_le; cbn [mbind option_bind]; try done;
  rewrite ?Multiply_spec by lia; decide_le; cbn [mbind option_bind]; try done;
  rewrite ?Add_spec by lia; decide_le; try done; f_equal; lia.
Qed.

(** What [Timeout] computes when nothing overflows: the caller's own deadline,
    or ten milliseconds, or four times the time on the wire rounded up and a
    millisecond, whichever is later, and the pauses. *)
Definition ideal_timeout (actions : list A) (rate : Z) (requested : option Duration) : Z :=
  match requested with
  | Some d => dur_us d
  | None => Z.max kTimeoutMinimumUs (wire_us (total_bits actions) rate) + total_pause actions
  end.
Definition representable (actions : list A) (rate : Z) (requested : option Duration) : bool :=
  (total_bits actions <=? kMaximumTime) && (total_pause actions <=? kMaximumTime) &&
  match requested with Some _ => true | None => ideal_timeout actions rate None <=? kMaximumTime end.
Definition usable (requested : option Duration) : bool :=
  match requested with Some d => dur_valid d | None => true end.

(** The deadline [Timeout] grants a transaction is the ideal one, computed
    in 64 bits without a wrap for every list of actions and every clock rate;
    it refuses exactly the transactions that are empty, name no rate or an
    invalid duration, hold a malformed descriptor, poll without a deadline of
    their own, or whose bit count, pauses or deadline are not representable. *)
Theorem timeout_exact actions rate requested :
  Forall act_ok actions -> 0 <= rate <= UINT32_MAX ->
  Timeout actions rate requested =
    if negb (length actions =? 0)%nat && negb (rate =? 0) && usable requested &&
       acceptable (bool_decide (is_Some requested)) actions && representable actions rate requested
    then Some (ideal_timeout actions rate requested) else None.
Proof.
  intros Hok Hr. unfold Timeout, acceptable, representable.
  pose proof (total_bits_nonneg _ Hok). pose proof (total_pause_nonneg _ Hok).
  destruct (length actions =? 0)%nat; cbn [negb andb orb]; [done|].
  destruct (Z.eqb_spec rate 0); cbn [negb andb orb]; [done|].
  rewrite measure_all_spec by (done || (unfold kMaximumTime, kForever, UINT64_MAX; lia)). rewrite !Z.add_0_l.
  destruct requested as [d|]; cbn [usable ideal_timeout].
  - destruct (dur_valid d); cbn [negb andb]; [|done]. rewrite andb_true_r, <- andb_assoc. by destruct (_ && _).
  - cbn [andb]. rewrite <- !andb_assoc. destruct (forallb _ _); cbn [andb]; [|done].
    set (b := total_bits actions) in *. set (p := total_pause actions) in *.
    destruct (b <=? kMaximumTime), (Z.leb_spec p kMaximumTime); cbn [andb mbind option_bind fst snd]; try done.
    rewrite wire_time_spec by lia.
    destruct (Z.leb_spec (wire_us b rate) kMaximumTime); cbn [mbind option_bind].
    + rewrite Add_spec; [done| |lia]. unfold kMaximumTime, kTimeoutMinimumUs, kForever, UINT64_MAX in *. lia.
    + destruct (Z.leb_spec (Z.max kTimeoutMinimumUs (wire_us b rate) + p) kMaximumTime); [lia|done].
Qed.
End deadline.

(** Reading 512 bytes at 400 kHz takes 10.24 ms on the wire; with a write of one
    byte and a pause of a second the deadline is a second and 42 ms. *)
Lemma timeout_exact_witness :
  let actions := [Spi.write_action (mkSpan 16 1); Spi.pause_action (mkDuration 1000000 true);
                  Spi.read_action (mkSpan 32 512) 0xff] in
  Forall act_ok actions /\ Timeout actions 400000 None = Some 1042040.
Proof.
  intros actions. assert (Forall act_ok actions) as Hok.
  { repeat constructor; cbn; unfold span_ok; cbn; lia. }
  split; [exact Hok|].
  rewrite (timeout_exact actions 400000 None Hok ltac:(unfold UINT32_MAX; lia)).
  vm_compute. reflexivity.
Defined.
