(* ===== verification/HalController.v ===== *)
(** * The bus controller (src/lib/hal/controller.hpp)

    One controller owns a physical bus: it accepts one transaction or one reset
    at a time, drives it from interrupts, and delivers its callback from
    interrupt context.  The backend, the clock and the critical section are the
    controller's template parameters; here they are a record of functions on a
    hardware state [H], of which only the laws a theorem names are known.

    A callback is its identity.  It runs after the controller is unlocked, so
    what it does is a later operation; its call is recorded in [events],
    together with the accepted requests and the calls that start and stop
    access to the caller's buffers.  [alarm_], [pause_alarm_] and [pended_]
    record the timers that are armed and whether an interrupt is due. *)

From S2P Require Import Prelude Foundation StateMachine HalBase Spi I2c HalAction.

Module BusState.
Inductive BusState : Set := idle | transfer | pause | finish | reset | faulted.
End BusState.
#[global] Instance BusState_eq_dec : EqDecision BusState.BusState.
Proof. solve_decision. Defined.
#[export] Instance BusState_enum : StateEnum BusState.BusState := {|
  state_index (s : BusState.BusState) := match s with
    | BusState.idle => 0 | BusState.transfer => 1 | BusState.pause => 2 | BusState.finish => 3
    | BusState.reset => 4 | BusState.faulted => 5
    end%nat;
  state_count := 6%nat
|}.

Inductive Alarm : Set := DeadlineAlarm | PauseAlarm.

(** The reset a backend offers: at once, or in polled steps. *)
Inductive ResetOps (H : Type) :=
  | ImmediateReset (reset : H -> HalStatus * H)
  | PolledReset (start_reset : H -> H) (poll_reset : Z -> H -> option HalStatus * H) (abort_reset : H -> H).
Arguments ImmediateReset {H}. Arguments PolledReset {H}.

(** The template parameters [Backend], [Timing] and [Critical]. *)
Record Hardware (A H : Type) := mkHardware {
  hw_validate : H -> HalStatus;
  hw_init : H -> HalStatus * H;
  hw_needs_reset : option (H -> bool);
  hw_disable : H -> H;
  hw_rate : H -> nat -> Z;
  hw_validate_action : A -> H -> HalStatus;
  hw_begin : nat -> list A -> H -> HalStatus * H;
  hw_begin_probe : Z -> H -> HalStatus * H;
  hw_start : A -> bool -> bool -> H -> HalStatus * H;
  hw_poll : H -> option HalStatus * H;
  hw_finish : H -> HalStatus * H;
  hw_reset : ResetOps H;
  hw_pend : H -> H;
  hw_mem : H -> Mem;
  clk_now : H -> Z * H;
  clk_arm : Z -> Alarm -> H -> HalStatus * H;
  clk_cancel : Alarm -> H -> H;
  crit_try_enter : H -> bool * H;
  crit_leave : H -> H
}.
Arguments mkHardware {A H}. Arguments hw_validate {A H}. Arguments hw_init {A H}. Arguments hw_needs_reset {A H}.
Arguments hw_disable {A H}. Arguments hw_rate {A H}. Arguments hw_validate_action {A H}. Arguments hw_begin {A H}.
Arguments hw_begin_probe {A H}. Arguments hw_start {A H}. Arguments hw_poll {A H}. Arguments hw_finish {A H}.
Arguments hw_reset {A H}. Arguments hw_pend {A H}. Arguments hw_mem {A H}. Arguments clk_now {A H}.
Arguments clk_arm {A H}. Arguments clk_cancel {A H}. Arguments crit_try_enter {A H}. Arguments crit_leave {A H}.

Definition Callback := option nat.

Record Result (A : Type) := mkResult { r_status : HalStatus; completed_actions : nat; r_actions : list A }.
Arguments mkResult {A}. Arguments r_status {A}. Arguments completed_actions {A}. Arguments r_actions {A}.

Inductive Event (A : Type) :=
  | Accepted (cb : nat) (actions : list A)
  | Begun
  | Started (index : nat) (action : A)
  | Finished
  | Delivered (cb : nat) (r : Result A)
  | ResetAccepted (cb : nat)
  | ResetDelivered (cb : nat) (st : HalStatus).
Arguments Accepted {A}. Arguments Begun {A}. Arguments Started {A}. Arguments Finished {A}. Arguments Delivered {A}.
Arguments ResetAccepted {A}. Arguments ResetDelivered {A}.

Definition kResetPollUs : Z := 10.

Section controller.
Context {A H : Type} `{BusAction A} (hardware : Hardware A H) (N : nat).

Record Bus := mkBus {
  hw : H;
  device_counters_ : list Counters; counters_ : Counters;
  locked_ : bool; initialized_ : bool; faulted_ : bool;
  active_ : bool; resetting_ : bool; action_started_ : bool; again_ : bool;
  setup_failed_ : bool; reset_started_ : bool;
  device_ : nat; completed_ : nat;
  deadline_ : Z; pause_due_ : Z;
  backend_action_ : A;
  poll_retry_ : bool; poll_count_ : Z;
  actions_ : list A;
  callback_ : Callback; notification_ : Callback;
  notification_result_ : Result A;
  reset_callback_ : Callback; reset_notification_ : Callback;
  reset_result_ : HalStatus;
  status_ : HalStatus;
  events : list (Event A);
  alarm_ : option Z; pause_alarm_ : option Z; pended_ : bool
}.
#[export] Instance Bus_eta : RecordEta Bus := fun b =>
  mkBus (hw b) (device_counters_ b) (counters_ b) (locked_ b) (initialized_ b) (faulted_ b) (active_ b) (resetting_ b)
    (action_started_ b) (again_ b) (setup_failed_ b) (reset_started_ b) (device_ b) (completed_ b) (deadline_ b)
    (pause_due_ b) (backend_action_ b) (poll_retry_ b) (poll_count_ b) (actions_ b) (callback_ b) (notification_ b)
    (notification_result_ b) (reset_callback_ b) (reset_notification_ b) (reset_result_ b) (status_ b) (events b)
    (alarm_ b) (pause_alarm_ b) (pended_ b).

Definition new_bus (h : H) : Bus :=
  mkBus h (replicate N new_counters) new_counters false false false false false false false false false 0 0 0 0
    inhabitant false 0 [] None None (mkResult HalStatus.ok 0 []) None None HalStatus.ok HalStatus.ok [] None None false.

(** The controller and its machine. *)
Record Controller := mkController { bus_ : Bus; machine_ : Machine BusState.BusState }.
#[export] Instance Controller_eta : RecordEta Controller := fun c => mkController (bus_ c) (machine_ c).
#[export] Instance Controller_machine : HasMachine Controller BusState.BusState := {|
  machine := machine_; with_machine m c := c <| machine_ := m |>
|}.
#[export] Instance Controller_machine_laws : HasMachineLaws Controller BusState.BusState.
Proof. split; [done|done|by intros []]. Qed.
Definition new_controller (h : H) : Controller := mkController (new_bus h) (initial_machine BusState.idle).
Definition on_bus (f : Bus -> Bus) (c : Controller) : Controller := c <| bus_ := f (bus_ c) |>.

(** ** Calls of the parameters *)

Definition log (e : Event A) (b : Bus) : Bus := b <| events := events b ++ [e] |>.
Definition pend (b : Bus) : Bus := b <| hw := hw_pend hardware (hw b) |> <| pended_ := true |>.
Definition now (b : Bus) : Z * Bus := let '(t, h) := clk_now hardware (hw b) in (t, b <| hw := h |>).
Definition set_alarm (a : Alarm) (t : option Z) (b : Bus) : Bus :=
  match a with DeadlineAlarm => b <| alarm_ := t |> | PauseAlarm => b <| pause_alarm_ := t |> end.
Definition arm (t : Z) (a : Alarm) (b : Bus) : HalStatus * Bus :=
  let '(st, h) := clk_arm hardware t a (hw b) in
  (st, if st =h? HalStatus.ok then set_alarm a (Some t) (b <| hw := h |>) else b <| hw := h |>).
Definition cancel (a : Alarm) (b : Bus) : Bus := set_alarm a None (b <| hw := clk_cancel hardware a (hw b) |>).
Definition call (f : H -> HalStatus * H) (b : Bus) : HalStatus * Bus :=
  let '(st, h) := f (hw b) in (st, b <| hw := h |>).

Definition TryLock (b : Bus) : bool * Bus :=
  let '(entered, h) := crit_try_enter hardware (hw b) in
  let b := b <| hw := h |> in
  if negb entered then (false, b)
  else if locked_ b then (false, b <| hw := crit_leave hardware (hw b) |>)
  else (true, b <| locked_ := true |>).
Definition Unlock (b : Bus) : Bus :=
  let b := b <| locked_ := false |> in b <| hw := crit_leave hardware (hw b) |>.

(** ** Counters *)

Definition count_device (c : Counter.CounterIndex) (index : nat) (b : Bus) : Bus :=
  let b := b <| counters_ := increment c (counters_ b) |> in
  if (index <? N)%nat then b <| device_counters_ := alter (increment c) index (device_counters_ b) |> else b.
Definition Record_ (c : Counter.CounterIndex) (b : Bus) : Bus := count_device c (device_ b) b.
Definition RecordAttempts (action : A) (b : Bus) : Bus :=
  let b := if act_reads action then Record_ Counter.read_attempts b else b in
  if act_writes action then Record_ Counter.write_attempts b else b.
Definition RecordActionError (b : Bus) : Bus :=
  if negb (action_started_ b) || (length (actions_ b) <=? completed_ b)%nat then b
  else
    let b := if act_reads (actions_ b !!! completed_ b) then Record_ Counter.read_errors b else b in
    if act_writes (actions_ b !!! completed_ b) then Record_ Counter.write_errors b else b.
Definition Reject (index : nat) (status : HalStatus) (b : Bus) : HalStatus * Bus :=
  (status, count_device Counter.rejected index b).

(** ** The machine *)

(** The transaction ends with [st]. *)
Definition stop (st : HalStatus) (b : Bus) : BusState.BusState * Bus :=
  (BusState.finish, b <| status_ := st |> <| again_ := true |>).
(** ... and the action in progress counts as an error. *)
Definition stop_action (st : HalStatus) (b : Bus) : BusState.BusState * Bus :=
  let b := b <| status_ := st |> in
  let b := RecordActionError b in
  (BusState.finish, b <| again_ := true |>).

Definition StepIdle (cs : BusState.BusState) (b : Bus) : BusState.BusState * Bus :=
  if resetting_ b then (BusState.reset, b <| again_ := true |>)
  else if active_ b then (BusState.transfer, b <| again_ := true |>)
  else (cs, b).

(** The next action, when none is in progress. *)
Definition StepNext (b : Bus) : BusState.BusState * Bus :=
  if (completed_ b =? length (actions_ b))%nat then (BusState.finish, b <| again_ := true |>)
  else
    let action := actions_ b !!! completed_ b in
    if act_checks action then
      if act_matches (hw_mem hardware (hw b)) action
      then (BusState.transfer, b <| completed_ := S (completed_ b) |> <| again_ := true |>)
      else stop HalStatus.response_mismatch b
    else if negb (act_pause action =? 0) then
      let '(t, b) := now b in
      match Add t (act_pause action) with
      | None => stop HalStatus.timer_error (b <| pause_due_ := t |>)
      | Some due =>
          let '(st, b) := arm due PauseAlarm (b <| pause_due_ := due |>) in
          if negb (st =h? HalStatus.ok) then stop HalStatus.timer_error b else (BusState.pause, b)
      end
    else
      let b := RecordAttempts action b in
      let b := b <| action_started_ := true |> <| backend_action_ := act_transfer action |> in
      let b := log (Started (completed_ b) (backend_action_ b)) b in
      let '(st, b) := call (hw_start hardware (backend_action_ b)
                              ((completed_ b =? 0)%nat && negb (poll_retry_ b))
                              ((completed_ b + 1 =? length (actions_ b))%nat && negb (act_polls action))) b in
      if negb (st =h? HalStatus.ok) then stop_action st b else (BusState.transfer, b).

(** The action in progress has completed. *)
Definition StepCompleted (b : Bus) : BusState.BusState * Bus :=
  let action := actions_ b !!! completed_ b in
  let b := b <| poll_retry_ := act_polls action && negb (act_poll_matched (hw_mem hardware (hw b)) action) |> in
  let limited := poll_retry_ b && negb (act_poll_limit action =? 0) in
  let b := if limited then b <| poll_count_ := u64 (poll_count_ b + 1) |> else b in
  if limited && (poll_count_ b >=? act_poll_limit action) then stop_action HalStatus.response_mismatch b
  else
    let b := if negb (poll_retry_ b) then b <| poll_count_ := 0 |> <| completed_ := S (completed_ b) |> else b in
    StepNext (b <| action_started_ := false |>).

Definition StepTransfer (b : Bus) : BusState.BusState * Bus :=
  if setup_failed_ b then (BusState.finish, b <| setup_failed_ := false |> <| again_ := true |>)
  else
    let '(t, b) := now b in
    if t >=? deadline_ b then stop_action HalStatus.timeout b
    else if action_started_ b then
      let '(completion, h) := hw_poll hardware (hw b) in
      let b := b <| hw := h |> in
      match completion with
      | None => (BusState.transfer, b)
      | Some st => if negb (st =h? HalStatus.ok) then stop_action st b else StepCompleted b
      end
    else StepNext b.

Definition StepPause (b : Bus) : BusState.BusState * Bus :=
  let '(t, b) := now b in
  if t >=? deadline_ b then stop HalStatus.timeout b
  else
    let '(t, b) := now b in
    if t >=? pause_due_ b then (BusState.transfer, b <| completed_ := S (completed_ b) |> <| again_ := true |>)
    else (BusState.pause, b).

Definition StepFinish (b : Bus) : BusState.BusState * Bus :=
  let '(cleanup, b) := call (hw_finish hardware) b in
  let b := log Finished b in
  let b := cancel PauseAlarm (cancel DeadlineAlarm b) in
  let b :=
    if negb (cleanup =h? HalStatus.ok) then
      let b := b <| counters_ := increment Counter.cleanup_failures (counters_ b) |> in
      if status_ b =h? HalStatus.ok then b <| status_ := HalStatus.hardware_error |> else b
    else b in
  let b := b <| faulted_ := negb (cleanup =h? HalStatus.ok) |> in
  let b := Record_ Counter.completed b in
  let b := if negb (status_ b =h? HalStatus.ok) then Record_ Counter.failed b else b in
  let b := if status_ b =h? HalStatus.timeout then Record_ Counter.timed_out b else b in
  let b := b <| notification_ := callback_ b |>
             <| notification_result_ := mkResult (status_ b) (completed_ b) (actions_ b) |>
             <| actions_ := [] |> <| callback_ := None |> <| active_ := false |> in
  (if cleanup =h? HalStatus.ok then BusState.idle else BusState.faulted, b).

(** The result of a reset attempt, [None] while a polled one goes on. *)
Definition reset_attempt (b : Bus) : option HalStatus * Bus :=
  match hw_reset hardware with
  | PolledReset start_reset poll_reset abort_reset =>
      let b := if negb (reset_started_ b)
               then b <| hw := start_reset (hw b) |> <| reset_started_ := true |> else b in
      let '(t, b) := now b in
      if t >=? deadline_ b then (Some HalStatus.timeout, b <| hw := abort_reset (hw b) |>)
      else
        let '(t, b) := now b in
        let '(result, h) := poll_reset t (hw b) in
        let b := b <| hw := h |> in
        match result with
        | Some st => (Some st, b)
        | None =>
            let '(t, b) := now b in
            match Add t kResetPollUs with
            | None => (Some HalStatus.timer_error, b <| hw := abort_reset (hw b) |>)
            | Some next =>
                let '(st, b) := arm next PauseAlarm b in
                if negb (st =h? HalStatus.ok)
                then (Some HalStatus.timer_error, b <| hw := abort_reset (hw b) |>) else (None, b)
            end
        end
  | ImmediateReset reset =>
      let '(st, b) := call reset b in
      let '(t, b) := now b in
      (Some (if t >=? deadline_ b then HalStatus.timeout else st), b)
  end.

Definition StepReset (b : Bus) : BusState.BusState * Bus :=
  let '(result, b) := reset_attempt b in
  match result with
  | None => (BusState.reset, b)
  | Some st =>
      let b := cancel PauseAlarm (cancel DeadlineAlarm b) in
      let b := b <| faulted_ := negb (st =h? HalStatus.ok) |> in
      let b := if negb (st =h? HalStatus.ok)
               then b <| counters_ := increment Counter.reset_failures (counters_ b) |> else b in
      let b := b <| reset_notification_ := reset_callback_ b |> <| reset_result_ := st |>
                 <| reset_callback_ := None |> <| resetting_ := false |> <| active_ := false |> in
      (if st =h? HalStatus.ok then BusState.idle else BusState.faulted, b)
  end.

Definition BusStep (cs : BusState.BusState) (b : Bus) : BusState.BusState * Bus :=
  match cs with
  | BusState.idle | BusState.faulted => StepIdle cs b
  | BusState.transfer => StepTransfer b
  | BusState.pause => StepPause b
  | BusState.finish => StepFinish b
  | BusState.reset => StepReset b
  end.
Definition Step (cs : BusState.BusState) (c : Controller) : BusState.BusState * Controller :=
  let '(ns, b) := BusStep cs (bus_ c) in (ns, c <| bus_ := b |>).

(** ** Operations *)

Definition init (b : Bus) : HalStatus * Bus :=
  if initialized_ b then (HalStatus.busy, b)
  else
    let validation := hw_validate hardware (hw b) in
    if negb (validation =h? HalStatus.ok) then (validation, b)
    else
      let '(status, b) := call (hw_init hardware) b in
      if negb (status =h? HalStatus.ok) then (status, b <| hw := hw_disable hardware (hw b) |>)
      else
        let b := match hw_needs_reset hardware with
                 | Some needs_reset => b <| faulted_ := needs_reset (hw b) |> | None => b end in
        (HalStatus.ok, b <| initialized_ := true |>).

Definition deinit (b : Bus) : Bus := b <| hw := hw_disable hardware (hw b) |> <| initialized_ := false |>.

(** The first action the backend refuses. *)
Fixpoint validate_actions (actions : list A) (h : H) : HalStatus :=
  match actions with
  | [] => HalStatus.ok
  | action :: actions =>
      let st := if act_checks action then HalStatus.ok else hw_validate_action hardware (act_transfer action) h in
      if negb (st =h? HalStatus.ok) then st else validate_actions actions h
  end.

(** The checks of [Start] under the lock: the deadline, armed, or the reason
    for the refusal. *)
Definition admit_transfer (index : nat) (actions : list A) (callback : Callback) (timeout : option Duration) (b : Bus)
    : (HalStatus + Z) * Bus :=
  let delay := match callback with
               | Some _ => Timeout actions (hw_rate hardware (hw b) (if (index <? N)%nat then index else 0%nat)) timeout
               | None => None end in
  let status := match delay with Some _ => validate_actions actions (hw b) | None => HalStatus.invalid_argument end in
  let '(t, b) := now b in
  if negb (status =h? HalStatus.ok) then (inl status, b)
  else
    match Add t (default 0 delay) with
    | None => (inl HalStatus.invalid_argument, b)
    | Some deadline =>
        let '(st, b) := arm deadline DeadlineAlarm b in
        if negb (st =h? HalStatus.ok) then (inl HalStatus.timer_error, b) else (inr deadline, b)
    end.

Definition Start (index : nat) (actions : list A) (callback : Callback) (timeout : option Duration)
    (probe_address : option Z) (b : Bus) : HalStatus * Bus :=
  if negb (initialized_ b) then Reject index HalStatus.not_initialized b
  else
    let '(locked, b) := TryLock b in
    if negb locked then Reject index HalStatus.busy b
    else if active_ b then Reject index HalStatus.busy (Unlock b)
    else if faulted_ b then Reject index HalStatus.faulted (Unlock b)
    else
      let '(admitted, b) := admit_transfer index actions callback timeout b in
      match admitted with
      | inl status => Reject index status (Unlock b)
      | inr deadline =>
          let b := b <| deadline_ := deadline |> <| actions_ := actions |> <| poll_retry_ := false |>
                     <| poll_count_ := 0 |> <| callback_ := callback |> <| device_ := index |>
                     <| completed_ := 0%nat |> <| action_started_ := false |> <| resetting_ := false |>
                     <| status_ := HalStatus.ok |> <| setup_failed_ := false |> <| active_ := true |> in
          let b := Record_ Counter.accepted b in
          let b := log Begun (log (Accepted (default 0%nat callback) actions) b) in
          let '(st, b) := call (match probe_address with
                                | Some address => hw_begin_probe hardware address
                                | None => hw_begin hardware index actions end) b in
          let b := b <| status_ := st |> in
          let b := if negb (st =h? HalStatus.ok) then b <| setup_failed_ := true |> else b in
          (HalStatus.ok, pend (Unlock b))
      end.

(** [probe], with the static one-action descriptor. *)
Definition probe (kProbeActions : list A) (address : Z) (callback : Callback) (timeout : option Duration) (b : Bus)
    : HalStatus * Bus :=
  if negb (I2c.Address_valid address) then Reject N HalStatus.invalid_argument b
  else Start N kProbeActions callback timeout (Some address) b.

Definition reset (callback : Callback) (timeout : option Duration) (b : Bus) : HalStatus * Bus :=
  match callback with
  | None => (HalStatus.invalid_argument, b)
  | Some cb =>
      if match timeout with Some d => negb (dur_valid d) | None => false end then (HalStatus.invalid_argument, b)
      else if negb (initialized_ b) then (HalStatus.not_initialized, b)
      else
        let '(locked, b) := TryLock b in
        if negb locked then (HalStatus.busy, b)
        else if active_ b then (HalStatus.busy, Unlock b)
        else
          let '(t, b) := now b in
          match Add t (match timeout with Some d => dur_us d | None => kResetTimeoutUs end) with
          | None => (HalStatus.invalid_argument, Unlock b)
          | Some deadline =>
              let '(st, b) := arm deadline DeadlineAlarm b in
              if negb (st =h? HalStatus.ok) then (HalStatus.timer_error, Unlock b)
              else
                let b := b <| deadline_ := deadline |> <| reset_callback_ := Some cb |> <| reset_started_ := false |>
                           <| resetting_ := true |> <| active_ := true |>
                           <| counters_ := increment Counter.resets (counters_ b) |> in
                (HalStatus.ok, pend (Unlock (log (ResetAccepted cb) b)))
          end
  end.

(** The loop of [interrupt]. *)
Fixpoint run_machine (n : nat) (c : Controller) : Controller :=
  match n with
  | O => c
  | S n =>
      if active_ (bus_ c) then
        let c := on_bus (fun b => b <| again_ := false |>) c in
        let c := snd (tick (step_only Step) c) in
        if negb (again_ (bus_ c)) then c else run_machine n c
      else c
  end.

(** The notifications, taken under the lock and called after it. *)
Definition notify (b : Bus) : Bus :=
  let more := again_ b && active_ b in
  let callback := notification_ b in
  let result := notification_result_ b in
  let reset_callback := reset_notification_ b in
  let reset_result := reset_result_ b in
  let b := Unlock (b <| notification_ := None |> <| reset_notification_ := None |>) in
  let b := if more then pend b else b in
  let b := match callback with Some cb => log (Delivered cb result) b | None => b end in
  match reset_callback with Some cb => log (ResetDelivered cb reset_result) b | None => b end.

Definition interrupt (c : Controller) : Controller :=
  let '(locked, b) := TryLock ((bus_ c) <| pended_ := false |>) in
  if negb locked then c <| bus_ := pend b |>
  else on_bus notify (run_machine 8 (c <| bus_ := b |>)).

(** A timer that fires is no longer armed. *)
Definition AlarmFired (c : Controller) : Controller := interrupt (on_bus (set_alarm DeadlineAlarm None) c).
Definition PauseFired (c : Controller) : Controller := interrupt (on_bus (set_alarm PauseAlarm None) c).

Definition device_statistics (clear : bool) (index : nat) (b : Bus) : list Z * Bus :=
  let '(values, cells) := snapshot clear (device_counters_ b !!! index) in
  (values, b <| device_counters_ := <[index := cells]> (device_counters_ b) |>).
Definition statistics (clear : bool) (b : Bus) : list Z * Bus :=
  let '(values, cells) := snapshot clear (counters_ b) in (values, b <| counters_ := cells |>).

(** [Device]: a borrowed handle; [None] is the default-constructed one. *)
Definition device_start (handle : option nat) (actions : list A) (callback : Callback) (timeout : option Duration) (b : Bus)
    : HalStatus * Bus :=
  match handle with
  | Some index => Start index actions callback timeout None b
  | None => (HalStatus.not_initialized, b)
  end.

(** ** [Completion]: the result of one transaction, polled by a task *)

Inductive CompletionPhase : Set := empty | pending | published.
Record Completion := mkCompletion { phase_ : CompletionPhase; completion_result_ : Result A }.
Definition Complete (r : Result A) : Completion := mkCompletion published r.
Definition completion_ready (c : Completion) : bool := match phase_ c with published => true | _ => false end.
Definition completion_result (c : Completion) : option (Result A) :=
  if negb (completion_ready c) then None else Some (completion_result_ c).
(** [submit] is the device's [start] with this completion as its callback; the
    interrupt that publishes the result may come before it returns. *)
Definition completion_start {W : Type} (get : W -> Completion) (put : Completion -> W -> W)
    (submit : W -> HalStatus * W) (actions : list A) (w : W) : HalStatus * W :=
  match phase_ (get w) with
  | pending => (HalStatus.busy, w)
  | _ =>
      let w := put (mkCompletion pending (completion_result_ (get w))) w in
      let '(status, w) := submit w in
      (status, if negb (status =h? HalStatus.ok) then put (Complete (mkResult status 0 actions)) w else w)
  end.
End controller.
