(* ===== verification/HalSafe.v ===== *)
(** * The contract of the bus controller

    [contract] says what a client may see of a controller: one request at a
    time; hardware access only between a request's acceptance and its
    callback; the callback once, with the descriptors that were submitted.
    Every history of operations keeps it, and no accepted request is ever
    forgotten. *)

From S2P Require Import Prelude Foundation StateMachine HalBase Spi I2c HalAction HalController.

Section contract.
Context {A : Type} `{BusAction A}.

(** What is outstanding; [n] is the last action that was started. *)
Inductive Phase :=
  | Free
  | Waiting (cb : nat) (actions : list A)
  | Running (cb : nat) (actions : list A) (n : nat)
  | Stopped (cb : nat) (actions : list A) (n : nat)
  | Recovering (cb : nat).

Definition honest (actions : list A) (n : nat) (r : Result A) : Prop :=
  r_actions r = actions /\ (n <= completed_actions r <= length actions)%nat /\
  (r_status r = HalStatus.ok -> completed_actions r = length actions).

Inductive contract : Phase -> Event A -> Phase -> Prop :=
  | contract_accept cb actions : contract Free (Accepted cb actions) (Waiting cb actions)
  | contract_begin cb actions : contract (Waiting cb actions) Begun (Running cb actions 0)
  | contract_start cb actions n i action :
      (n <= i)%nat -> actions !! i = Some action -> act_checks action = false -> act_pause action = 0 ->
      contract (Running cb actions n) (Started i (act_transfer action)) (Running cb actions i)
  | contract_finish cb actions n : contract (Running cb actions n) Finished (Stopped cb actions n)
  | contract_deliver cb actions n r :
      honest actions n r -> contract (Stopped cb actions n) (Delivered cb r) Free
  | contract_reset cb : contract Free (ResetAccepted cb) (Recovering cb)
  | contract_reset_deliver cb st : contract (Recovering cb) (ResetDelivered cb st) Free.

(** A history that keeps the contract, and what it leaves outstanding. *)
Inductive ledger : list (Event A) -> Phase -> Prop :=
  | ledger_nil : ledger [] Free
  | ledger_snoc l p e q : ledger l p -> contract p e q -> ledger (l ++ [e]) q.
End contract.
Arguments Phase : clear implicits.

Section invariant.
Context {A H : Type} `{BusAction A} (hardware : Hardware A H) (N : nat).
Abbreviation Bus := (Bus (A:=A) (H:=H)).
Abbreviation Controller := (Controller (A:=A) (H:=H)).

(** What the fields say is outstanding. *)
Definition active_phase (b : Bus) (p : Phase A) : Prop :=
  notification_ b = None /\ reset_notification_ b = None /\
  if resetting_ b then callback_ b = None /\ exists cb, reset_callback_ b = Some cb /\ p = Recovering cb
  else reset_callback_ b = None /\
       exists cb n, callback_ b = Some cb /\ p = Running cb (actions_ b) n /\ (n <= completed_ b)%nat.
Definition quiet_phase (b : Bus) (p : Phase A) : Prop :=
  resetting_ b = false /\ callback_ b = None /\ reset_callback_ b = None /\
  match notification_ b, reset_notification_ b with
  | None, None => p = Free
  | Some cb, None =>
      let r := notification_result_ b in exists n, p = Stopped cb (r_actions r) n /\ honest (r_actions r) n r
  | None, Some cb => p = Recovering cb
  | Some _, Some _ => False
  end.
Definition bus_phase (b : Bus) (p : Phase A) : Prop :=
  if active_ b then active_phase b p else quiet_phase b p.

(** Where the machine can be. *)
Definition setup_status (b : Bus) : Prop :=
  if setup_failed_ b then status_ b <> HalStatus.ok else status_ b = HalStatus.ok.
Definition transfer_place (s : BusState.BusState) (b : Bus) : Prop :=
  match s with
  | BusState.idle | BusState.faulted => completed_ b = 0%nat /\ action_started_ b = false /\ setup_status b
  | BusState.transfer =>
      (completed_ b <= length (actions_ b))%nat /\
      (action_started_ b = true -> (completed_ b < length (actions_ b))%nat) /\ setup_status b
  | BusState.pause =>
      (completed_ b < length (actions_ b))%nat /\ action_started_ b = false /\ setup_failed_ b = false /\
      status_ b = HalStatus.ok
  | BusState.finish =>
      (completed_ b <= length (actions_ b))%nat /\
      (status_ b = HalStatus.ok -> completed_ b = length (actions_ b))
  | BusState.reset => False
  end.
Definition place (s : BusState.BusState) (b : Bus) : Prop :=
  if active_ b then
    if resetting_ b then s = BusState.idle \/ s = BusState.faulted \/ s = BusState.reset else transfer_place s b
  else s = BusState.idle \/ s = BusState.faulted.

Definition bus_inv (s : BusState.BusState) (b : Bus) : Prop :=
  (exists p, ledger (events b) p /\ bus_phase b p) /\ place s b.

(** A step keeps the deadline and its alarm while the request is outstanding. *)
Definition keeps (b b' : Bus) : Prop :=
  active_ b' = true -> alarm_ b' = alarm_ b /\ deadline_ b' = deadline_ b /\ resetting_ b' = resetting_ b.
Definition good_step (b : Bus) (r : BusState.BusState * Bus) : Prop :=
  bus_inv (fst r) (snd r) /\ keeps b (snd r) /\ locked_ (snd r) = locked_ b /\ initialized_ (snd r) = initialized_ b.

(** Counting changes counters only. *)
Definition recount (cs : Counters) (ds : list Counters) (b : Bus) : Bus :=
  b <| counters_ := cs |> <| device_counters_ := ds |>.
Lemma count_device_recount c i b : exists cs ds, count_device N c i b = recount cs ds b.
Proof.
  unfold count_device, recount. destruct (i <? N)%nat.
  - by exists (increment c (counters_ b)), (alter (increment c) i (device_counters_ b)).
  - exists (increment c (counters_ b)), (device_counters_ b). by destruct b.
Qed.
Lemma Record_recount c b : exists cs ds, Record_ N c b = recount cs ds b.
Proof. apply count_device_recount. Qed.
Lemma if_recount (t : bool) (b b' : Bus) : (exists cs ds, b' = recount cs ds b) ->
  exists cs ds, (if t then b' else b) = recount cs ds b.
Proof. intros (cs & ds & ->). destruct t; [by eexists _, _|]. exists (counters_ b), (device_counters_ b). by destruct b. Qed.
Lemma recount_twice f g b b' b'' : b' = recount f g b -> (exists cs ds, b'' = recount cs ds b') ->
  exists cs ds, b'' = recount cs ds b.
Proof. intros -> (cs & ds & ->). by exists cs, ds. Qed.
Lemma RecordAttempts_recount a b : exists cs ds, RecordAttempts N a b = recount cs ds b.
Proof.
  unfold RecordAttempts.
  destruct (if_recount (act_reads a) b (Record_ N Counter.read_attempts b) (count_device_recount _ _ _)) as (f & g & E).
  rewrite E. eapply recount_twice; [reflexivity|]. apply if_recount, count_device_recount.
Qed.
Lemma RecordActionError_recount b : exists cs ds, RecordActionError N b = recount cs ds b.
Proof.
  unfold RecordActionError. destruct (_ || _).
  { exists (counters_ b), (device_counters_ b). by destruct b. }
  destruct (if_recount (act_reads (actions_ b !!! completed_ b)) b (Record_ N Counter.read_errors b)
              (count_device_recount _ _ _)) as (f & g & E).
  rewrite E. eapply recount_twice; [reflexivity|]. apply if_recount, count_device_recount.
Qed.

(** ** Steps keep the invariant *)

(** An outstanding transfer that still runs: [bus_inv] but for the place. *)
Definition running (b : Bus) : Prop :=
  active_ b = true /\ resetting_ b = false /\ notification_ b = None /\ reset_notification_ b = None /\
  reset_callback_ b = None /\
  exists cb n, callback_ b = Some cb /\ ledger (events b) (Running cb (actions_ b) n) /\ (n <= completed_ b)%nat.

Lemma running_inv s b : running b -> transfer_place s b -> bus_inv s b.
Proof.
  intros (Ha & Hr & Hn & Hrn & Hrc & cb & n & Hc & Hl & Hle) Hp. unfold bus_inv, bus_phase, active_phase, place.
  rewrite Ha, Hr. split; [|exact Hp]. eexists. split; [exact Hl|]. eauto 10.
Qed.
Lemma inv_running s b : active_ b = true -> resetting_ b = false -> bus_inv s b -> running b /\ transfer_place s b.
Proof.
  unfold bus_inv, bus_phase, active_phase, place, running. intros Ha Hr. rewrite Ha, Hr.
  intros [(p & Hl & Hn & Hrn & Hrc & cb & n & Hc & -> & Hle) Hp]. eauto 12.
Qed.

(** Reads of an updated record. *)
Ltac cbn_bus := cbn [fst snd hw device_counters_ counters_ locked_ initialized_ faulted_ active_ resetting_
  action_started_ again_ setup_failed_ reset_started_ device_ completed_ deadline_ pause_due_ backend_action_
  poll_retry_ poll_count_ actions_ callback_ notification_ notification_result_ reset_callback_ reset_notification_
  reset_result_ status_ events alarm_ pause_alarm_ pended_ field_update Bus_eta recount set_alarm log] in *.
Lemma stop_good st b0 b : running b -> st <> HalStatus.ok -> (completed_ b <= length (actions_ b))%nat ->
  keeps b0 b -> locked_ b = locked_ b0 -> initialized_ b = initialized_ b0 -> good_step b0 (stop st b).
Proof.
  intros Hrun Hst Hle Hk Hl Hi. unfold stop. split; [|done].
  apply running_inv; [exact Hrun|]. cbn. by split.
Qed.
Lemma stop_action_good st b0 b : running b -> st <> HalStatus.ok -> (completed_ b <= length (actions_ b))%nat ->
  keeps b0 b -> locked_ b = locked_ b0 -> initialized_ b = initialized_ b0 -> good_step b0 (stop_action N st b).
Proof.
  intros Hrun Hst Hle Hk Hl Hi. unfold stop_action.
  destruct (RecordActionError_recount (b <| status_ := st |>)) as (cs & ds & ->). split; [|done].
  apply running_inv; [exact Hrun|]. cbn. by split.
Qed.

Lemma arm_cases t a b : exists st h,
  arm hardware t a b = (st, if st =h? HalStatus.ok then set_alarm a (Some t) (b <| hw := h |>) else b <| hw := h |>).
Proof. unfold arm. destruct (clk_arm hardware t a (hw b)) as [st h]. by exists st, h. Qed.
Lemma now_cases b : exists t h, clk_now hardware (hw b) = (t, h) /\ now hardware b = (t, b <| hw := h |>).
Proof. unfold now. destruct (clk_now hardware (hw b)) as [t h]. by exists t, h. Qed.

Lemma StepNext_good b0 b : running b -> action_started_ b = false -> setup_failed_ b = false ->
  status_ b = HalStatus.ok -> (completed_ b <= length (actions_ b))%nat ->
  keeps b0 b -> locked_ b = locked_ b0 -> initialized_ b = initialized_ b0 -> good_step b0 (StepNext hardware N b).
Proof.
  intros Hrun Hs Hf Hst Hle Hk Hl Hi. unfold StepNext. destruct (Nat.eqb_spec (completed_ b) (length (actions_ b))) as [E|E].
  { split; [|done]. by apply running_inv. }
  set (action := actions_ b !!! completed_ b).
  assert (actions_ b !! completed_ b = Some action) as Hact.
  { unfold action. apply list_lookup_lookup_total_lt. lia. }
  destruct (act_checks action) eqn:Ec.
  { destruct (act_matches _ _); [|by apply stop_good].
    split; [|done]. apply running_inv.
    - destruct Hrun as (? & ? & ? & ? & ? & cb & n & ? & ? & ?). repeat (split; [done|]). exists cb, n. cbn. auto.
    - cbn. unfold setup_status. cbn. rewrite Hs, Hf. repeat split; [lia|done|done]. }
  destruct (Z.eqb_spec (act_pause action) 0) as [Ep|Ep]; cbn [negb].
  2:{ destruct (now_cases b) as (t & h & _ & ->). destruct (Add t _) as [due|]; [|by apply stop_good].
      destruct (arm_cases due PauseAlarm (b <| hw := h |> <| pause_due_ := due |>)) as (st & h' & ->).
      destruct (st =h? HalStatus.ok); cbn [negb]; [|by apply stop_good].
      split; [|done]. apply running_inv; [exact Hrun|]. cbn. repeat split; [lia|done|done|done]. }
  destruct (RecordAttempts_recount action b) as (cs & ds & ->). unfold call. cbn_bus.
  destruct (hw_start _ _ _ _ _) as [st h].
  match goal with |- context [stop_action N st ?x] => set (b' := x) end.
  assert (running b') as Hrun'.
  { destruct Hrun as (? & ? & ? & ? & ? & cb & n & ? & ? & ?). repeat (split; [done|]). exists cb, (completed_ b).
    split; [done|]. split; [|done]. eapply ledger_snoc; [eassumption|]. by constructor. }
  destruct (st =h? HalStatus.ok) eqn:Est; cbn [negb].
  - split; [|done]. apply running_inv; [exact Hrun'|]. cbn. unfold setup_status. cbn. rewrite Hf. repeat split; [lia|lia|done].
  - apply stop_action_good; try done. by apply hs_eqb_neq.
Qed.

Lemma StepCompleted_good b0 b : running b -> setup_failed_ b = false -> status_ b = HalStatus.ok ->
  (completed_ b < length (actions_ b))%nat ->
  keeps b0 b -> locked_ b = locked_ b0 -> initialized_ b = initialized_ b0 ->
  good_step b0 (StepCompleted hardware N b).
Proof.
  intros Hrun Hf Hst Hlt Hk Hl Hi. unfold StepCompleted. cbn_bus. destruct (act_polls _ && negb _); cbn [andb negb].
  - destruct (negb (_ =? 0)); cbn_bus; cbn [andb].
    + destruct (_ >=? _); [apply stop_action_good|apply StepNext_good]; try done; cbn [negb]; cbn_bus; lia.
    + apply StepNext_good; try done; cbn [negb]; cbn_bus; lia.
  - cbn_bus. apply StepNext_good; try done.
    destruct Hrun as (? & ? & ? & ? & ? & cb & n & ? & ? & ?). repeat (split; [done|]). exists cb, n. cbn. auto.
Qed.

Lemma StepTransfer_good b : running b -> transfer_place BusState.transfer b ->
  good_step b (StepTransfer hardware N b).
Proof.
  intros Hrun (Hle & Hlt & Hst). unfold StepTransfer. unfold setup_status in Hst. destruct (setup_failed_ b) eqn:Ef.
  { split; [|done]. apply running_inv; [exact Hrun|]. cbn. split; [done|]. intros ?. done. }
  destruct (now_cases b) as (t & h & _ & ->). cbn_bus. destruct (_ >=? _); [by apply stop_action_good|].
  destruct (action_started_ b) eqn:Es; [|by apply StepNext_good].
  specialize (Hlt eq_refl). destruct (hw_poll hardware h) as [[st|] h'].
  - destruct (st =h? HalStatus.ok) eqn:Eok; cbn [negb]; [by apply StepCompleted_good|].
    apply stop_action_good; try done. by apply hs_eqb_neq.
  - split; [|done]. apply running_inv; [exact Hrun|]. cbn. unfold setup_status. cbn. rewrite Ef. auto.
Qed.

Lemma StepPause_good b : running b -> transfer_place BusState.pause b -> good_step b (StepPause hardware b).
Proof.
  intros Hrun (Hlt & Hs & Hf & Hst). unfold StepPause. destruct (now_cases b) as (t & h & _ & ->). cbn_bus.
  destruct (_ >=? _); [apply stop_good; try done; cbn; lia|].
  destruct (now_cases (b <| hw := h |>)) as (t' & h' & _ & ->). cbn_bus. destruct (_ >=? _).
  - split; [|done]. apply running_inv.
    + destruct Hrun as (? & ? & ? & ? & ? & cb & n & ? & ? & ?). repeat (split; [done|]). exists cb, n. cbn. auto.
    + cbn. unfold setup_status. cbn. rewrite Hs, Hf. repeat split; [lia|done|done].
  - split; [|done]. by apply running_inv.
Qed.

(** What [finish] leaves behind: the request is over and its callback is due. *)
Lemma StepFinish_spec b : exists ns b', StepFinish hardware N b = (ns, b') /\
  (ns = BusState.idle \/ ns = BusState.faulted) /\ active_ b' = false /\ resetting_ b' = resetting_ b /\
  callback_ b' = None /\ reset_callback_ b' = reset_callback_ b /\ notification_ b' = callback_ b /\
  reset_notification_ b' = reset_notification_ b /\ events b' = events b ++ [Finished] /\
  locked_ b' = locked_ b /\ initialized_ b' = initialized_ b /\ again_ b' = again_ b /\
  exists st, notification_result_ b' = mkResult st (completed_ b) (actions_ b) /\
    (st = HalStatus.ok -> status_ b = HalStatus.ok) /\ (status_ b <> HalStatus.ok -> st = status_ b).
Proof.
  unfold StepFinish, call. destruct (hw_finish hardware (hw b)) as [cleanup h]. unfold cancel. cbn_bus.
  match goal with |- context [Record_ N Counter.completed (?x <| faulted_ := _ |>)] => set (b1 := x) end.
  assert (exists st cs, b1 = b <| hw := hw b1 |> <| events := events b ++ [Finished] |> <| alarm_ := None |>
            <| pause_alarm_ := None |> <| status_ := st |> <| counters_ := cs |> /\
            (st = HalStatus.ok -> status_ b = HalStatus.ok) /\ (status_ b <> HalStatus.ok -> st = status_ b))
    as (st & cs & E & Hok & Hkeep).
  { subst b1. destruct (cleanup =h? HalStatus.ok); cbn_bus; cbn [negb].
    - exists (status_ b), (counters_ b). split; [by destruct b|done].
    - destruct (status_ b =h? HalStatus.ok) eqn:E.
      + exists HalStatus.hardware_error, (increment Counter.cleanup_failures (counters_ b)).
        apply hs_eqb_eq in E. split; [by destruct b|]. split; [done|]. intros Hn. by destruct (Hn E).
      + exists (status_ b), (increment Counter.cleanup_failures (counters_ b)). split; [by destruct b|done]. }
  clearbody b1. destruct (Record_recount Counter.completed (b1 <| faulted_ := negb (cleanup =h? HalStatus.ok) |>))
    as (c1 & d1 & E1). rewrite E1. clear E1.
  match goal with |- context [if negb (status_ ?x =h? HalStatus.ok) then Record_ N Counter.failed ?x else ?x] =>
    destruct (if_recount (negb (status_ x =h? HalStatus.ok)) x (Record_ N Counter.failed x) (count_device_recount _ _ _))
      as (c2 & d2 & ->) end.
  match goal with |- context [if status_ ?x =h? HalStatus.timeout then Record_ N Counter.timed_out ?x else ?x] =>
    destruct (if_recount (status_ x =h? HalStatus.timeout) x (Record_ N Counter.timed_out x) (count_device_recount _ _ _))
      as (c3 & d3 & ->) end.
  rewrite E. eexists _, _. split; [reflexivity|]. cbn_bus.
  split; [destruct (cleanup =h? _); auto|]. do 10 (split; [reflexivity|]). eauto.
Qed.

Lemma StepFinish_good b : running b -> transfer_place BusState.finish b -> good_step b (StepFinish hardware N b).
Proof.
  intros (Ha & Hr & Hn & Hrn & Hrc & cb & n & Hc & Hl & Hle) [Hlen Hok].
  destruct (StepFinish_spec b) as (ns & b' & -> & Hns & Ha' & Hr' & Hc' & Hrc' & Hn' & Hrn' & He & Hlk & Hi & _ & st & Hres & Hst & _).
  unfold good_step, bus_inv, bus_phase, quiet_phase, place, keeps. cbn [fst snd].
  rewrite Ha', Hr', Hc', Hrc', Hn', Hrn', Hrc, Hrn, Hc, Hres. split; [|done]. split; [|done].
  exists (Stopped cb (actions_ b) n). rewrite He. split; [eapply ledger_snoc; [exact Hl|constructor]|].
  split; [done|]. split; [done|]. split; [done|]. exists n. split; [done|].
  split; [done|]. split; [done|]. intros E. cbn in *. auto.
Qed.

(** ** Resets *)

Definition recovering (b : Bus) : Prop :=
  active_ b = true /\ resetting_ b = true /\ notification_ b = None /\ reset_notification_ b = None /\
  callback_ b = None /\ exists cb, reset_callback_ b = Some cb /\ ledger (events b) (Recovering cb).

Lemma recovering_inv s b : recovering b -> s = BusState.idle \/ s = BusState.faulted \/ s = BusState.reset -> bus_inv s b.
Proof.
  intros (Ha & Hr & Hn & Hrn & Hc & cb & Hrc & Hl) Hp. unfold bus_inv, bus_phase, active_phase, place.
  rewrite Ha, Hr. split; [|exact Hp]. eexists. split; [exact Hl|]. eauto 10.
Qed.
Lemma inv_recovering s b : active_ b = true -> resetting_ b = true -> bus_inv s b ->
  recovering b /\ (s = BusState.idle \/ s = BusState.faulted \/ s = BusState.reset).
Proof.
  unfold bus_inv, bus_phase, active_phase, place, recovering. intros Ha Hr. rewrite Ha, Hr.
  intros [(p & Hl & Hn & Hrn & Hc & cb & Hrc & ->) Hp]. eauto 12.
Qed.

(** A reset attempt changes the hardware, its own progress and its poll timer. *)
Definition reset_frame (b b' : Bus) : Prop :=
  exists h rs pa, b' = b <| hw := h |> <| reset_started_ := rs |> <| pause_alarm_ := pa |>.
Lemma reset_frame_refl b : reset_frame b b.
Proof. exists (hw b), (reset_started_ b), (pause_alarm_ b). by destruct b. Qed.
Lemma reset_frame_trans b1 b2 b3 : reset_frame b1 b2 -> reset_frame b2 b3 -> reset_frame b1 b3.
Proof. intros (h & rs & pa & ->) (h' & rs' & pa' & ->). by exists h', rs', pa'. Qed.
Lemma reset_frame_hw b h : reset_frame b (b <| hw := h |>).
Proof. exists h, (reset_started_ b), (pause_alarm_ b). by destruct b. Qed.
Lemma reset_frame_now b : reset_frame b (snd (now hardware b)).
Proof. unfold now. destruct (clk_now _ _). apply reset_frame_hw. Qed.
Lemma reset_frame_arm t b : reset_frame b (snd (arm hardware t PauseAlarm b)).
Proof.
  unfold arm. destruct (clk_arm _ _ _ _) as [st h]. cbn [snd]. destruct (st =h? _); [|apply reset_frame_hw].
  exists h, (reset_started_ b), (Some t). by destruct b.
Qed.
Lemma reset_frame_start start b : reset_frame b
  (if negb (reset_started_ b) then b <| hw := start (hw b) |> <| reset_started_ := true |> else b).
Proof.
  destruct (negb _); [|apply reset_frame_refl]. exists (start (hw b)), true, (pause_alarm_ b). by destruct b.
Qed.

Lemma reset_attempt_frame b : reset_frame b (snd (reset_attempt hardware b)).
Proof.
  unfold reset_attempt. destruct (hw_reset hardware) as [rst|start poll abort].
  - unfold call. destruct (rst (hw b)) as [st h]. eapply reset_frame_trans; [apply (reset_frame_hw b h)|].
    eapply reset_frame_trans; [apply reset_frame_now|]. destruct (now hardware _). apply reset_frame_refl.
  - eapply reset_frame_trans; [apply (reset_frame_start start)|].
    match goal with |- context [now hardware ?x] => generalize x end. clear b. intros b.
    eapply reset_frame_trans; [apply reset_frame_now|]. destruct (now hardware b) as [t b1]. cbn [snd].
    destruct (t >=? _); [apply reset_frame_hw|].
    eapply reset_frame_trans; [apply reset_frame_now|]. destruct (now hardware b1) as [t2 b2]. cbn [snd].
    destruct (poll t2 (hw b2)) as [[st|] h]; [apply reset_frame_hw|].
    eapply reset_frame_trans; [apply (reset_frame_hw b2 h)|]. eapply reset_frame_trans; [apply reset_frame_now|].
    destruct (now hardware _) as [t3 b3]. cbn [snd]. destruct (Add t3 kResetPollUs) as [next|]; [|apply reset_frame_hw].
    eapply reset_frame_trans; [apply (reset_frame_arm next)|]. destruct (arm hardware next PauseAlarm b3) as [st b4]. cbn [snd].
    destruct (negb _); [apply reset_frame_hw|apply reset_frame_refl].
Qed.

(** What a completed reset leaves behind. *)
Lemma StepReset_spec b st : fst (reset_attempt hardware b) = Some st ->
  exists ns b', StepReset hardware b = (ns, b') /\ (ns = BusState.idle \/ ns = BusState.faulted) /\
  active_ b' = false /\ resetting_ b' = false /\ again_ b' = again_ b /\ callback_ b' = callback_ b /\
  notification_ b' = notification_ b /\ reset_callback_ b' = None /\ reset_notification_ b' = reset_callback_ b /\
  reset_result_ b' = st /\ events b' = events b /\ locked_ b' = locked_ b /\ initialized_ b' = initialized_ b.
Proof.
  intros E. unfold StepReset. pose proof (reset_attempt_frame b) as (h & rs & pa & Hb').
  destruct (reset_attempt hardware b) as [r b']. cbn [fst snd] in E, Hb'. subst. unfold cancel.
  match goal with |- context [(_, ?b3 <| reset_notification_ := _ |> <| reset_result_ := _ |>
    <| reset_callback_ := _ |> <| resetting_ := _ |> <| active_ := _ |>)] => set (b4 := b3) end.
  assert (exists h cs f, b4 = b <| hw := h |> <| reset_started_ := rs |> <| alarm_ := None |> <| pause_alarm_ := None |>
            <| counters_ := cs |> <| faulted_ := f |>) as (h' & cs & f & E4).
  { exists (hw b4), (counters_ b4), (faulted_ b4). subst b4. clear. destruct b. by destruct (st =h? HalStatus.ok). }
  rewrite E4. clear E4 b4. eexists _, _. split; [reflexivity|]. cbn_bus.
  split; [destruct (st =h? _); auto|]. do 10 (split; [reflexivity|]). reflexivity.
Qed.

Lemma StepReset_good b : recovering b -> good_step b (StepReset hardware b).
Proof.
  intros Hrec. destruct (fst (reset_attempt hardware b)) as [st|] eqn:E.
  - destruct Hrec as (Ha & Hr & Hn & Hrn & Hc & cb & Hrc & Hl).
    destruct (StepReset_spec b st E) as (ns & b' & -> & Hns & Ha' & Hr' & _ & Hc' & Hn' & Hrc' & Hrn' & _ & He & Hlk & Hi).
    unfold good_step, bus_inv, bus_phase, quiet_phase, place, keeps. cbn [fst snd].
    rewrite Ha', Hr', Hc', Hrc', Hn', Hrn', Hn, Hrc, Hc, He. split; [|done]. split; [|done]. exists (Recovering cb). auto.
  - unfold StepReset. pose proof (reset_attempt_frame b) as (h & rs & pa & Hb').
    destruct (reset_attempt hardware b) as [r b']. cbn [fst snd] in E, Hb'. subst.
    split; [apply recovering_inv; [exact Hrec|auto]|done].
Qed.

Lemma StepIdle_good s b : s = BusState.idle \/ s = BusState.faulted -> active_ b = true -> bus_inv s b ->
  good_step b (StepIdle s b).
Proof.
  intros Hs Ha Hinv. unfold StepIdle. rewrite Ha. destruct (resetting_ b) eqn:Er.
  - destruct (inv_recovering s b Ha Er Hinv) as [Hrec _]. split; [apply recovering_inv; auto|done].
  - destruct (inv_running s b Ha Er Hinv) as [Hrun Hp]. split; [|done]. apply running_inv; [exact Hrun|].
    assert (completed_ b = 0%nat /\ action_started_ b = false /\ setup_status b) as (Hc & Hst & Hf) by (by destruct Hs; subst).
    cbn. rewrite Hst. repeat split; [lia|done|done].
Qed.

Lemma BusStep_good s b : active_ b = true -> bus_inv s b -> good_step b (BusStep hardware N s b).
Proof.
  intros Ha Hinv. destruct (resetting_ b) eqn:Er.
  - destruct (inv_recovering s b Ha Er Hinv) as [Hrec [->|[->| ->]]]; cbn [BusStep];
      [apply StepIdle_good..|by apply StepReset_good]; auto.
  - destruct (inv_running s b Ha Er Hinv) as [Hrun Hp]. destruct s; cbn [BusStep];
      [apply StepIdle_good; auto|by apply StepTransfer_good|by apply StepPause_good|by apply StepFinish_good|done|
       apply StepIdle_good; auto].
Qed.

(** ** Interrupts *)

#[local] Arguments post_machine : simpl never.

Lemma tick_bus c : ticking_ (machine_ c) = false ->
  let r := BusStep hardware N (cs (machine_ c)) (bus_ c) in
  let c' := snd (tick (step_only (Step hardware N)) c) in
  bus_ c' = snd r /\ cs (machine_ c') = fst r /\ ticking_ (machine_ c') = false.
Proof.
  intros Ht. cbn zeta. rewrite tick_oblivious; [|clear|exact Ht].
  - unfold Step. cbn. destruct (BusStep _ _ _ _) as [ns b']. cbn. rewrite cs_post_machine. by destruct ns.
  - intros s m c. unfold Step. cbn. by destruct (BusStep _ _ _ _).
Qed.

(** Inside an interrupt: notifications may be waiting. *)
Record mid (c : Controller) : Prop := {
  mid_bus : bus_inv (cs (machine_ c)) (bus_ c);
  mid_ticking : ticking_ (machine_ c) = false
}.

Lemma again_inv s (b : Bus) x : bus_inv s b -> bus_inv s (b <| again_ := x |>).
Proof. done. Qed.

Lemma keeps_refl (b : Bus) : keeps b b.
Proof. done. Qed.

Lemma run_machine_mid n c : mid c ->
  let c' := run_machine hardware N n c in
  mid c' /\ (active_ (bus_ c') = true -> active_ (bus_ c) = true) /\ keeps (bus_ c) (bus_ c') /\
  initialized_ (bus_ c') = initialized_ (bus_ c).
Proof.
  revert c. induction n as [|n IH]; intros c Hmid; cbn [run_machine]; [split_and!; [exact Hmid|auto|apply keeps_refl|reflexivity]|].
  destruct (active_ (bus_ c)) eqn:Ea; [|split_and!; [exact Hmid|congruence|apply keeps_refl|reflexivity]].
  set (c1 := on_bus _ c). destruct Hmid as [Hinv Ht].
  pose proof (BusStep_good (cs (machine_ c)) (bus_ c1) Ea Hinv) as (Hi & Hk & _ & Hin).
  pose proof (tick_bus c1 Ht) as (Hb & Hc & Ht'). change (machine_ c1) with (machine_ c) in Hc, Hb.
  set (c2 := snd (tick _ c1)) in *. rewrite <- Hb in Hi, Hk, Hin. rewrite <- Hc in Hi.
  assert (mid c2) as Hmid2 by (by split).
  destruct (negb (again_ (bus_ c2))).
  - split; [done|]. split; [done|]. split; [exact Hk|exact Hin].
  - destruct (IH c2 Hmid2) as (Hm & Ha & Hk' & Hin'). split; [exact Hm|]. split; [done|]. split; [|by rewrite Hin', Hin].
    intros Ha'. destruct (Hk' Ha') as (? & ? & ?). destruct (Hk (Ha Ha')) as (? & ? & ?). cbn in *. split_and!; congruence.
Qed.

(** ** The clock

    Time as the clock tells it never runs backwards, whatever is called. *)
Context (time : H -> Z).
Record clock_laws : Prop := {
  now_reads h : time h <= fst (clk_now hardware h) <= time (snd (clk_now hardware h));
  arm_time t a h : time h <= time (snd (clk_arm hardware t a h));
  enter_time h : time h <= time (snd (crit_try_enter hardware h));
  leave_time h : time h <= time (crit_leave hardware h);
  pend_time h : time h <= time (hw_pend hardware h);
  init_time h : time h <= time (snd (hw_init hardware h));
  disable_time h : time h <= time (hw_disable hardware h);
  reset_time h : match hw_reset hardware with
                 | ImmediateReset reset => time h <= time (snd (reset h))
                 | PolledReset start_reset _ _ => time h <= time (start_reset h)
                 end
}.
Definition late (b : Bus) : Prop := deadline_ b <= time (hw b).

(** Between operations: the lock is free, no notification waits, and an
    outstanding request has its alarm, or is late with an interrupt due. *)
Record ctl_inv (c : Controller) : Prop := {
  ci_mid : mid c;
  ci_locked : locked_ (bus_ c) = false;
  ci_quiet : notification_ (bus_ c) = None /\ reset_notification_ (bus_ c) = None;
  ci_alarm : active_ (bus_ c) = true -> initialized_ (bus_ c) = true /\
    (alarm_ (bus_ c) = Some (deadline_ (bus_ c)) \/ (pended_ (bus_ c) = true /\ late (bus_ c)))
}.

(** The callbacks an interrupt calls. *)
Definition delivery (b : Bus) : list (Event A) :=
  match notification_ b with Some cb => [Delivered cb (notification_result_ b)] | None => [] end.
Definition reset_delivery (b : Bus) : list (Event A) :=
  match reset_notification_ b with Some cb => [ResetDelivered cb (reset_result_ b)] | None => [] end.
Lemma notify_form b : exists h pd, notify hardware b =
  b <| hw := h |> <| events := events b ++ delivery b ++ reset_delivery b |> <| pended_ := pd |>
    <| notification_ := None |> <| reset_notification_ := None |> <| locked_ := false |>.
Proof.
  exists (hw (notify hardware b)), (pended_ (notify hardware b)).
  assert (events b ++ delivery b ++ reset_delivery b = events (notify hardware b)) as ->.
  { unfold delivery, reset_delivery, notify, Unlock, pend.
    destruct (_ && _), (notification_ b), (reset_notification_ b); cbn; by rewrite ?app_nil_r, <- ?app_assoc. }
  unfold notify, Unlock, pend. destruct b. cbn_bus. by destruct (_ && _), notification_, reset_notification_.
Qed.

Lemma notify_inv c : mid c -> 
  (active_ (bus_ c) = true -> initialized_ (bus_ c) = true /\ alarm_ (bus_ c) = Some (deadline_ (bus_ c))) ->
  ctl_inv (on_bus (notify hardware) c).
Proof.
  intros [[[p [Hl Hph]] Hpl] Ht] Hal. set (b := bus_ c) in *.
  destruct (notify_form b) as (h & pd & E). set (e := events b ++ _ ++ _) in E.
  assert (ledger e (if active_ b then p else Free)) as Hled.
  { subst e. unfold delivery, reset_delivery. unfold bus_phase in Hph. destruct (active_ b).
    - destruct Hph as (-> & -> & _). by rewrite !app_nil_r.
    - destruct Hph as (_ & _ & _ & Hph). destruct (notification_ b), (reset_notification_ b); [done| | |].
      + destruct Hph as (n0 & -> & Hh). rewrite app_nil_r. eapply ledger_snoc; [exact Hl|by constructor].
      + subst p. cbn. eapply ledger_snoc; [exact Hl|by constructor].
      + subst p. by rewrite !app_nil_r. }
  change (on_bus (notify hardware) c) with (mkController (notify hardware b) (machine_ c)). rewrite E.
  split; [|done|done|intros Ha; destruct (Hal Ha) as [Hi Hd]; split; [exact Hi|left; exact Hd]].
  split; [|exact Ht]. split; [|exact Hpl]. exists (if active_ b then p else Free). split; [exact Hled|].
  unfold bus_phase, active_phase, quiet_phase in *. cbn [bus_]. cbn_bus.
  destruct (active_ b); destruct_and?; [by split_and!|by split_and!].
Qed.

(** ** A late request is delivered by the next interrupt *)

Section late.
Context (laws : clock_laws).

Lemma now_late b : late b -> exists t h, now hardware b = (t, b <| hw := h |>) /\ (t >=? deadline_ b) = true /\ deadline_ b <= time h.
Proof.
  intros Hlate. destruct (now_cases b) as (t & h & E & ->). exists t, h.
  pose proof (now_reads laws (hw b)) as Hr. rewrite E in Hr. cbn in Hr. unfold late in Hlate.
  rewrite Z.geb_leb, Z.leb_le. split; [done|lia].
Qed.

Lemma reset_attempt_late b : late b -> exists b', reset_attempt hardware b = (Some HalStatus.timeout, b').
Proof.
  intros Hlate. pose proof (reset_time laws) as Hrt. unfold reset_attempt. destruct (hw_reset hardware) as [rst|start poll abort].
  - unfold call. destruct (rst (hw b)) as [st h] eqn:E. specialize (Hrt (hw b)). rewrite E in Hrt. cbn in Hrt.
    destruct (now_late (b <| hw := h |>)) as (t & h' & -> & Ht & _); [unfold late in *; cbn; lia|].
    cbn in *. rewrite Ht. eauto.
  - set (b1 := if negb _ then _ else _). assert (late b1) as Hl1.
    { subst b1. unfold late in *. destruct (negb _); cbn; [specialize (Hrt (hw b)); lia|done]. }
    destruct (now_late b1 Hl1) as (t & h' & -> & Ht & _). cbn. rewrite Ht. eauto.
Qed.

(** What is due after the machine has run for a late request. *)
Definition settled (b b' : Bus) : Prop :=
  active_ b' = false /\ again_ b' = false /\
  if resetting_ b then reset_notification_ b' = reset_callback_ b /\ notification_ b' = notification_ b /\
                       reset_result_ b' = HalStatus.timeout
  else notification_ b' = callback_ b /\ reset_notification_ b' = reset_notification_ b /\
       r_actions (notification_result_ b') = actions_ b.

Lemma run_step n c : active_ (bus_ c) = true -> ticking_ (machine_ c) = false ->
  exists c', ticking_ (machine_ c') = false /\
    (cs (machine_ c'), bus_ c') = BusStep hardware N (cs (machine_ c)) ((bus_ c) <| again_ := false |>) /\
    run_machine hardware N (S n) c = if negb (again_ (bus_ c')) then c' else run_machine hardware N n c'.
Proof.
  intros Ha Ht. cbn [run_machine]. rewrite Ha. pose proof (tick_bus (on_bus (fun b => b <| again_ := false |>) c) Ht) as (Hb & Hc & Ht').
  eexists. split; [exact Ht'|]. split; [|reflexivity]. rewrite Hb, Hc. symmetry. apply surjective_pairing.
Qed.

Lemma run_finish n c : active_ (bus_ c) = true -> ticking_ (machine_ c) = false -> resetting_ (bus_ c) = false ->
  cs (machine_ c) = BusState.finish -> settled (bus_ c) (bus_ (run_machine hardware N (S n) c)).
Proof.
  intros Ha Ht Hr Hs. destruct (run_step n c Ha Ht) as (c' & _ & E & ->). rewrite Hs in E. cbn [BusStep] in E.
  destruct (StepFinish_spec ((bus_ c) <| again_ := false |>)) as
    (ns & b' & E' & _ & Ha' & Hr' & Hc' & Hrc' & Hn' & Hrn' & _ & _ & _ & Hag & st & Hres & _).
  rewrite E' in E. injection E as _ Eb. rewrite Eb, Hag. cbn [negb again_]. unfold settled. cbn_bus. cbn [negb]. rewrite Eb, Hr, Hres, Ha', Hag, Hn', Hrn'.
  by cbn.
Qed.

(** One step of a late transfer ends it. *)
Definition ending (b b' : Bus) : Prop :=
  active_ b' = true /\ again_ b' = true /\ resetting_ b' = resetting_ b /\ callback_ b' = callback_ b /\
  reset_notification_ b' = reset_notification_ b /\ actions_ b' = actions_ b.
Lemma stop_action_ending b0 b st : active_ b = true -> resetting_ b = resetting_ b0 -> callback_ b = callback_ b0 ->
  reset_notification_ b = reset_notification_ b0 -> actions_ b = actions_ b0 ->
  fst (stop_action N st b) = BusState.finish /\ ending b0 (snd (stop_action N st b)).
Proof.
  intros. unfold stop_action. destruct (RecordActionError_recount (b <| status_ := st |>)) as (cs & ds & ->). done.
Qed.
Lemma StepTransfer_late b : late b -> active_ b = true ->
  fst (StepTransfer hardware N b) = BusState.finish /\ ending b (snd (StepTransfer hardware N b)).
Proof.
  intros Hl Ha. unfold StepTransfer. destruct (setup_failed_ b); [done|].
  destruct (now_late b Hl) as (t & h & -> & Ht & _). cbn_bus. rewrite Ht. by apply stop_action_ending.
Qed.
Lemma StepPause_late b : late b -> active_ b = true ->
  fst (StepPause hardware b) = BusState.finish /\ ending b (snd (StepPause hardware b)).
Proof.
  intros Hl Ha. unfold StepPause. destruct (now_late b Hl) as (t & h & -> & Ht & _). cbn_bus. by rewrite Ht.
Qed.

Lemma settled_ending b b1 b' : ending b b1 -> resetting_ b = false -> settled b1 b' -> settled b b'.
Proof.
  unfold settled. intros (_ & _ & Hr & Hc & Hn & Ha) Hr0. rewrite Hr, Hr0, Hc, Hn, Ha. done.
Qed.

Lemma run_transfer_late n c : active_ (bus_ c) = true -> ticking_ (machine_ c) = false -> resetting_ (bus_ c) = false ->
  late (bus_ c) -> cs (machine_ c) = BusState.transfer \/ cs (machine_ c) = BusState.pause ->
  settled (bus_ c) (bus_ (run_machine hardware N (S (S n)) c)).
Proof.
  intros Ha Ht Hr Hl Hs. set (b := (bus_ c) <| again_ := false |>).
  destruct (run_step (S n) c Ha Ht) as (c' & Ht' & E & ->).
  assert (cs (machine_ c') = BusState.finish /\ ending b (bus_ c')) as [Hs' He].
  { rewrite (f_equal fst E : cs _ = _), (f_equal snd E : bus_ c' = _). fold b.
    destruct Hs as [-> | ->]; cbn [BusStep]; [by apply StepTransfer_late|by apply StepPause_late]. }
  pose proof He as (Ha' & Hag & Hr' & _). rewrite Hag. cbn [negb].
  apply (settled_ending b _ _ He Hr). apply run_finish; try done. by rewrite Hr'.
Qed.

Lemma settled_again b b' x : settled (b <| again_ := x |>) b' -> settled b b'.
Proof. done. Qed.

Lemma StepReset_late b : late b -> resetting_ b = true -> again_ b = false -> settled b (snd (StepReset hardware b)).
Proof.
  intros Hl Hr Hag. destruct (reset_attempt_late b Hl) as (b1 & Eb).
  destruct (StepReset_spec b HalStatus.timeout) as (ns & b' & -> & _ & Ha' & _ & Hag' & _ & Hn' & _ & Hrn' & Hres & _);
    [by rewrite Eb|].
  unfold settled. cbn [snd]. rewrite Hr, Hag', Ha', Hn', Hrn', Hres. done.
Qed.

Lemma run_reset_late n c : active_ (bus_ c) = true -> ticking_ (machine_ c) = false -> resetting_ (bus_ c) = true ->
  late (bus_ c) -> cs (machine_ c) = BusState.reset ->
  settled (bus_ c) (bus_ (run_machine hardware N (S n) c)).
Proof.
  intros Ha Ht Hr Hl Hs. destruct (run_step n c Ha Ht) as (c' & Ht' & E & ->). rewrite Hs in E. cbn [BusStep] in E.
  set (b := (bus_ c) <| again_ := false |>) in *.
  pose proof (StepReset_late b Hl Hr eq_refl) as He.
  rewrite <- (f_equal snd E : bus_ c' = _) in He.
  pose proof He as (_ & Hag & _). rewrite Hag. cbn [negb]. by apply (settled_again _ _ false).
Qed.

Lemma run_late n c : mid c -> active_ (bus_ c) = true -> late (bus_ c) ->
  settled (bus_ c) (bus_ (run_machine hardware N (S (S (S n))) c)).
Proof.
  intros [Hinv Ht] Ha Hl. destruct (resetting_ (bus_ c)) eqn:Er.
  - destruct (inv_recovering _ _ Ha Er Hinv) as [_ Hs].
    assert ((cs (machine_ c) = BusState.idle \/ cs (machine_ c) = BusState.faulted) \/ cs (machine_ c) = BusState.reset)
      as [Hs'|Hs'] by tauto; [clear Hs; rename Hs' into Hs|by apply run_reset_late].
    destruct (run_step (S (S n)) c Ha Ht) as (c' & Ht' & E & ->).
    assert (cs (machine_ c') = BusState.reset /\ bus_ c' = (bus_ c) <| again_ := true |>) as [Hs' Hb].
    { destruct Hs as [Hs|Hs]; rewrite Hs in E; cbn [BusStep] in E; unfold StepIdle in E; cbn_bus; rewrite Er in E;
        injection E as -> ->; done. }
    rewrite Hb. cbn [negb]. cbn_bus. cbn [negb].
    assert (settled (bus_ c') (bus_ (run_machine hardware N (S (S n)) c'))) as Hset
      by (apply run_reset_late; rewrite ?Hb; done).
    rewrite Hb in Hset. exact Hset.
  - destruct (inv_running _ _ Ha Er Hinv) as [_ Hp].
    destruct (cs (machine_ c)) eqn:Hs; [|apply run_transfer_late; auto|apply run_transfer_late; auto|
      apply run_finish; auto|done|].
    all: destruct (run_step (S (S n)) c Ha Ht) as (c' & Ht' & E & ->);
      rewrite Hs in E; cbn [BusStep] in E; unfold StepIdle in E; cbn_bus; rewrite Er, Ha in E;
      injection E as Hs' Hb; rewrite Hb; cbn_bus; cbn [negb];
      assert (settled (bus_ c') (bus_ (run_machine hardware N (S (S n)) c'))) as Hset
        by (apply run_transfer_late; rewrite ?Hb; auto);
      rewrite Hb in Hset; exact Hset.
Qed.
End late.
End invariant.
