(* ===== verification/HalRun.v ===== *)
(** * Histories of the bus controller

    Any sequence of the operations tasks, interrupts and timers can perform
    keeps the invariant of the previous file; the contract and the delivery of
    late requests follow for every reachable controller. *)

From S2P Require Import Prelude Foundation StateMachine HalBase Spi I2c HalAction HalController HalSafe.

Section run.
Context {A H : Type} `{BusAction A} (hardware : Hardware A H) (N : nat) (kProbeActions : list A).
Context (time : H -> Z).
Abbreviation Bus := (Bus (A:=A) (H:=H)).
Abbreviation Controller := (Controller (A:=A) (H:=H)).

Inductive Op :=
  | OInit | ODeinit
  | OStart (index : nat) (actions : list A) (callback : Callback) (timeout : option Duration)
  | OProbe (address : Z) (callback : Callback) (timeout : option Duration)
  | OReset (callback : Callback) (timeout : option Duration)
  | OInterrupt | OAlarmFired | OPauseFired
  | OStatistics (clear : bool) (device : option nat)
  | OHardware (h : H).  (** the hardware and the clock go on *)

Definition perform (op : Op) (c : Controller) : Controller :=
  match op with
  | OInit => on_bus (fun b => snd (init hardware b)) c
  | ODeinit => on_bus (deinit hardware) c
  | OStart index actions callback timeout =>
      on_bus (fun b => snd (Start hardware N index actions callback timeout None b)) c
  | OProbe address callback timeout =>
      on_bus (fun b => snd (probe hardware N kProbeActions address callback timeout b)) c
  | OReset callback timeout => on_bus (fun b => snd (reset hardware callback timeout b)) c
  | OInterrupt => interrupt hardware N c
  | OAlarmFired => AlarmFired hardware N c
  | OPauseFired => PauseFired hardware N c
  | OStatistics clear None => on_bus (fun b => snd (HalController.statistics clear b)) c
  | OStatistics clear (Some i) => on_bus (fun b => snd (device_statistics clear i b)) c
  | OHardware h => on_bus (fun b => b <| hw := h |>) c
  end.

(** [deinit] comes before transfers; the deadline timer fires when it is due;
    time does not run backwards. *)
Definition allowed (op : Op) (c : Controller) : Prop :=
  match op with
  | ODeinit => active_ (bus_ c) = false
  | OAlarmFired => exists t, alarm_ (bus_ c) = Some t /\ t <= time (hw (bus_ c))
  | OHardware h => time (hw (bus_ c)) <= time h
  | _ => True
  end.

Inductive reachable : Controller -> Prop :=
  | reachable_new h : reachable (new_controller N h)
  | reachable_op c op : reachable c -> allowed op c -> reachable (perform op c).

(** ** What a refused or auxiliary operation may change *)

Context (laws : clock_laws hardware time).

Definition frame (b b' : Bus) : Prop := exists h l cs ds f i,
  b' = b <| hw := h |> <| locked_ := l |> <| counters_ := cs |> <| device_counters_ := ds |> <| faulted_ := f |>
         <| initialized_ := i |> /\ time (hw b) <= time h.

Lemma frame_intro b h l cs ds f i b' :
  b' = b <| hw := h |> <| locked_ := l |> <| counters_ := cs |> <| device_counters_ := ds |> <| faulted_ := f |>
         <| initialized_ := i |> -> time (hw b) <= time h -> frame b b'.
Proof. intros. by exists h, l, cs, ds, f, i. Qed.
Lemma frame_refl b : frame b b.
Proof. eapply (frame_intro b (hw b) (locked_ b) (counters_ b) (device_counters_ b) (faulted_ b) (initialized_ b)); [by destruct b|lia]. Qed.
Lemma frame_trans b1 b2 b3 : frame b1 b2 -> frame b2 b3 -> frame b1 b3.
Proof.
  intros (h & l & cs & ds & f & i & -> & Ht) (h' & l' & cs' & ds' & f' & i' & -> & Ht'). cbn in Ht'.
  exists h', l', cs', ds', f', i'. split; [reflexivity|lia].
Qed.
Lemma frame_hw b h : time (hw b) <= time h -> frame b (b <| hw := h |>).
Proof.
  intros. apply (frame_intro b h (locked_ b) (counters_ b) (device_counters_ b) (faulted_ b) (initialized_ b)); [by destruct b|done].
Qed.
Lemma frame_count c i b : frame b (count_device N c i b).
Proof.
  destruct (count_device_recount N c i b) as (cs & ds & ->).
  apply (frame_intro b (hw b) (locked_ b) cs ds (faulted_ b) (initialized_ b)); [by destruct b|lia].
Qed.
Lemma frame_now b : frame b (snd (now hardware b)).
Proof.
  destruct (now_cases hardware b) as (t & h & E & ->). apply frame_hw.
  pose proof (now_reads _ _ laws (hw b)) as Hr. rewrite E in Hr. cbn in Hr. lia.
Qed.
Lemma arm_timed t a b : exists st h, arm hardware t a b =
    (st, if st =h? HalStatus.ok then set_alarm a (Some t) (b <| hw := h |>) else b <| hw := h |>) /\ time (hw b) <= time h.
Proof.
  unfold arm. pose proof (arm_time _ _ laws t a (hw b)) as Ht. destruct (clk_arm hardware t a (hw b)) as [st h]. by exists st, h.
Qed.
Lemma frame_Unlock b : frame b (Unlock hardware b).
Proof.
  apply (frame_intro b (crit_leave hardware (hw b)) false (counters_ b) (device_counters_ b) (faulted_ b) (initialized_ b));
    [by destruct b|apply (leave_time _ _ laws)].
Qed.
Lemma TryLock_frame b : frame b (snd (TryLock hardware b)).
Proof.
  unfold TryLock. pose proof (enter_time _ _ laws (hw b)) as He. destruct (crit_try_enter hardware (hw b)) as [[] h]; cbn in *.
  - destruct (locked_ b).
    + eapply frame_trans; [by apply frame_hw|]. apply frame_hw, (leave_time _ _ laws).
    + apply (frame_intro b h true (counters_ b) (device_counters_ b) (faulted_ b) (initialized_ b)); [by destruct b|done].
  - by apply frame_hw.
Qed.

(** The fields the invariant reads. *)
Lemma frame_same b b' : frame b b' ->
  active_ b' = active_ b /\ deadline_ b' = deadline_ b /\ alarm_ b' = alarm_ b /\ events b' = events b /\
  pended_ b' = pended_ b /\ time (hw b) <= time (hw b').
Proof. intros (h & l & cs & ds & f & i & -> & Ht). done. Qed.

Lemma frame_inv c b' : ctl_inv time c -> frame (bus_ c) b' -> locked_ b' = false ->
  (active_ b' = true -> initialized_ b' = true) -> ctl_inv time (c <| bus_ := b' |>).
Proof.
  intros [[Hinv Ht] Hl Hq Ha] (h & l & cs & ds & f & i & -> & Htime) Hl' Hi. split; [by split|exact Hl'|exact Hq|].
  intros Hact. split; [exact (Hi Hact)|]. destruct (proj2 (Ha Hact)) as [Hd|[Hp Hlate]]; [by left|right].
  split; [exact Hp|]. unfold late in *. cbn in *. lia.
Qed.

(** ** Operations keep the invariant *)

Lemma init_frame b : frame b (snd (init hardware b)) /\ locked_ (snd (init hardware b)) = locked_ b /\
  (initialized_ b = true -> initialized_ (snd (init hardware b)) = true).
Proof.
  unfold init. destruct (initialized_ b) eqn:Ei; [by split; [apply frame_refl|]|].
  destruct (negb _); [by split; [apply frame_refl|]|]. unfold call.
  pose proof (init_time _ _ laws (hw b)) as Ht. destruct (hw_init hardware (hw b)) as [st h]. cbn in Ht.
  destruct (negb _); cbn [snd].
  - split; [|done]. eapply frame_trans; [by apply (frame_hw b h)|]. apply frame_hw, (disable_time _ _ laws).
  - split; [|by destruct (hw_needs_reset hardware)].
    apply (frame_intro b h (locked_ b) (counters_ b) (device_counters_ b)
      (match hw_needs_reset hardware with Some f => f h | None => faulted_ b end) true); [|done].
    destruct b. by destruct (hw_needs_reset hardware).
Qed.

(** [TryLock] on a free lock: entered, or unchanged but for the hardware. *)
Lemma TryLock_cases b : locked_ b = false -> exists r h, TryLock hardware b = (r, b <| hw := h |> <| locked_ := r |>) /\
  time (hw b) <= time h.
Proof.
  intros Hl. pose proof (enter_time _ _ laws (hw b)) as He. unfold TryLock.
  destruct (crit_try_enter hardware (hw b)) as [[] h]; cbn in *.
  - rewrite Hl. by exists true, h.
  - exists false, h. split; [|done]. destruct b. cbn in *. by subst.
Qed.

(** A refusal after the lock was released. *)
Lemma refused_inv c b1 b2 : ctl_inv time c -> frame (bus_ c) b1 -> initialized_ b1 = initialized_ (bus_ c) ->
  frame b1 b2 -> locked_ b2 = false -> initialized_ b2 = initialized_ b1 -> ctl_inv time (c <| bus_ := b2 |>).
Proof.
  intros Hinv H1 I1 H2 Hl I2. apply frame_inv; [done|by eapply frame_trans|done|].
  destruct (frame_same _ _ (frame_trans _ _ _ H1 H2)) as (-> & _). rewrite I2, I1. intros Ha.
  by destruct (ci_alarm _ _ Hinv Ha).
Qed.

Lemma Reject_frame i st b : fst (Reject N i st b) = st /\ frame b (snd (Reject N i st b)) /\
  locked_ (snd (Reject N i st b)) = locked_ b /\ initialized_ (snd (Reject N i st b)) = initialized_ b /\
  faulted_ (snd (Reject N i st b)) = faulted_ b.
Proof.
  unfold Reject. cbn [fst snd]. split; [done|]. split; [apply frame_count|].
  destruct (count_device_recount N Counter.rejected i b) as (cs & ds & ->). done.
Qed.

(** Admission: refused with nothing but time spent, or the alarm is armed. *)
Lemma admit_cases index actions callback timeout b : exists h, time (hw b) <= time h /\
  ((exists st, st <> HalStatus.ok /\ admit_transfer hardware N index actions callback timeout b = (inl st, b <| hw := h |>)) \/
   (exists d cb, callback = Some cb /\
      admit_transfer hardware N index actions callback timeout b = (inr d, b <| hw := h |> <| alarm_ := Some d |>))).
Proof.
  unfold admit_transfer. set (delay := match callback with Some _ => _ | None => _ end).
  set (status := match delay with Some _ => _ | None => _ end).
  destruct (now_cases hardware b) as (t & h & E & ->).
  assert (time (hw b) <= time h) as Ht.
  { pose proof (now_reads _ _ laws (hw b)) as Hr. rewrite E in Hr. cbn in Hr. lia. }
  destruct (status =h? HalStatus.ok) eqn:Es; cbn [negb].
  2:{ exists h. split; [done|]. left. exists status. split; [by apply hs_eqb_neq|done]. }
  destruct (Add t (default 0 delay)) as [d|]; [|exists h; split; [done|]; left; by exists HalStatus.invalid_argument].
  unfold arm. cbn [hw field_update Bus_eta]. pose proof (arm_time _ _ laws d DeadlineAlarm h) as Ha.
  destruct (clk_arm hardware d DeadlineAlarm h) as [st h']. cbn in Ha. exists h'. split; [lia|].
  destruct (st =h? HalStatus.ok); cbn [negb]; [|left; by exists HalStatus.timer_error].
  right. destruct callback as [cb|]; [by exists d, cb|]. apply hs_eqb_eq in Es. subst status delay. done.
Qed.

(** What acceptance leaves: the outstanding request, its alarm, an interrupt. *)
Record accepted (cb : nat) (actions : list A) (b b' : Bus) : Prop := {
  acc_active : active_ b' = true; acc_resetting : resetting_ b' = false; acc_callback : callback_ b' = Some cb;
  acc_notes : notification_ b' = notification_ b /\ reset_notification_ b' = reset_notification_ b;
  acc_reset : reset_callback_ b' = reset_callback_ b; acc_actions : actions_ b' = actions;
  acc_events : events b' = (events b ++ [Accepted cb actions]) ++ [Begun];
  acc_fresh : completed_ b' = 0%nat /\ action_started_ b' = false /\ setup_status b';
  acc_locked : locked_ b' = false; acc_init : initialized_ b' = initialized_ b;
  acc_alarm : alarm_ b' = Some (deadline_ b'); acc_pended : pended_ b' = true
}.

Lemma Start_cases index actions callback timeout address b : locked_ b = false ->
  let r := Start hardware N index actions callback timeout address b in
  (fst r <> HalStatus.ok /\ frame b (snd r) /\ locked_ (snd r) = false /\
   initialized_ (snd r) = initialized_ b /\ faulted_ (snd r) = faulted_ b) \/
  (fst r = HalStatus.ok /\ active_ b = false /\ initialized_ b = true /\ faulted_ b = false /\
   exists cb, callback = Some cb /\ accepted cb actions b (snd r)).
Proof.
  intros Hl. unfold Start. destruct (initialized_ b) eqn:Ei; cbn [negb].
  2:{ left. destruct (Reject_frame index HalStatus.not_initialized b) as (-> & ? & -> & -> & ->). done. }
  destruct (TryLock_cases b Hl) as ([] & h & -> & Ht); cbn [negb].
  2:{ left. match goal with |- context [Reject N index ?st ?x] => destruct (Reject_frame index st x) as (-> & Hf & -> & -> & ->) end.
      split; [done|]. split; [|done]. eapply frame_trans; [|exact Hf].
      apply (frame_intro b h false (counters_ b) (device_counters_ b) (faulted_ b) (initialized_ b)); [by destruct b|done]. }
  set (b1 := b <| hw := h |> <| locked_ := true |>).
  assert (frame b b1) as H1.
  { apply (frame_intro b h true (counters_ b) (device_counters_ b) (faulted_ b) (initialized_ b)); [by destruct b|done]. }
  assert (forall st b2, st <> HalStatus.ok -> frame b1 b2 -> initialized_ b2 = true -> faulted_ b2 = faulted_ b ->
    let r := Reject N index st (Unlock hardware b2) in
    fst r <> HalStatus.ok /\ frame b (snd r) /\ locked_ (snd r) = false /\ initialized_ (snd r) = true /\
    faulted_ (snd r) = faulted_ b) as Hrej.
  { intros st b2 Hst H2 Hi2 Hf2. cbn zeta. destruct (Reject_frame index st (Unlock hardware b2)) as (-> & Hf & -> & -> & ->).
    split; [done|]. split; [|done]. eapply frame_trans; [exact H1|]. eapply frame_trans; [exact H2|].
    eapply frame_trans; [apply frame_Unlock|exact Hf]. }
  destruct (active_ b1) eqn:Ea; [left; apply Hrej; [done|apply frame_refl|done|done]|].
  destruct (faulted_ b1) eqn:Efa; [left; apply Hrej; [done|apply frame_refl|done|done]|].
  destruct (admit_cases index actions callback timeout b1) as (h' & Ht' & [(st & Hst & ->)|(d & cb & -> & ->)]).
  { left. apply Hrej; [done|by apply frame_hw|done|done]. }
  right. cbn [default]. match goal with |- context [Record_ N Counter.accepted ?x] => set (b2 := x) end.
  destruct (Record_recount N Counter.accepted b2) as (cs & ds & ->).
  unfold call. destruct (match address with Some _ => _ | None => _ end _) as [st h2].
  do 4 (split; [done|]). exists cb. split; [done|]. clear Hrej. subst b2 b1.
  destruct (st =h? HalStatus.ok) eqn:Es; cbn [negb snd].
  all: split; try reflexivity; cbn; split_and!; try reflexivity; unfold setup_status; cbn.
  - by apply hs_eqb_eq.
  - by apply hs_eqb_neq.
Qed.

(** A quiet controller owes nothing. *)
Lemma quiet_free c : ctl_inv time c -> active_ (bus_ c) = false ->
  ledger (events (bus_ c)) Free /\ callback_ (bus_ c) = None /\ reset_callback_ (bus_ c) = None /\
  (cs (machine_ c) = BusState.idle \/ cs (machine_ c) = BusState.faulted).
Proof.
  intros [[[(p & Hl & Hph) Hpl] _] _ [Hn Hrn] _] Ha. unfold bus_phase, quiet_phase, place in *.
  rewrite Ha, ?Hn, ?Hrn in *. destruct Hph as (_ & ? & ? & ->). done.
Qed.

Lemma accepted_inv c cb actions b' : ctl_inv time c -> active_ (bus_ c) = false -> initialized_ (bus_ c) = true ->
  accepted cb actions (bus_ c) b' -> ctl_inv time (c <| bus_ := b' |>).
Proof.
  intros Hinv Ha Hi []. destruct (quiet_free c Hinv Ha) as (Hl & Hc & Hrc & Hs).
  pose proof (ci_quiet _ _ Hinv) as [Hn Hrn]. split; cbn.
  - split; [change (bus_inv (cs (machine_ c)) b')|exact (mid_ticking _ (ci_mid _ _ Hinv))]. apply running_inv.
    + unfold running. rewrite acc_active0, acc_resetting0, acc_callback0, acc_actions0, acc_events0, acc_reset0.
      destruct acc_notes0 as [-> ->]. do 5 (split; [done|]). exists cb, 0%nat. split; [done|]. split; [|lia].
      eapply ledger_snoc; [|constructor]. eapply ledger_snoc; [exact Hl|constructor].
    + cbn in *. destruct Hs as [-> | ->]; exact acc_fresh0.
  - exact acc_locked0.
  - destruct acc_notes0 as [-> ->]. done.
  - intros _. rewrite acc_init0. split; [done|]. by left.
Qed.

Lemma bus_start_inv c index actions callback timeout address : ctl_inv time c ->
  ctl_inv time (on_bus (fun b => snd (Start hardware N index actions callback timeout address b)) c).
Proof.
  intros Hinv. unfold on_bus.
  destruct (Start_cases index actions callback timeout address (bus_ c) (ci_locked _ _ Hinv))
    as [(_ & Hf & Hl & Hi & _)|(_ & Ha & Hi & _ & cb & -> & Hacc)].
  - by eapply refused_inv; [exact Hinv|apply frame_refl| |exact Hf| |].
  - by eapply accepted_inv.
Qed.

Lemma reset_inv c callback timeout : ctl_inv time c ->
  ctl_inv time (on_bus (fun b => snd (reset hardware callback timeout b)) c).
Proof.
  intros Hinv. unfold on_bus. set (b := bus_ c).
  assert (forall b1, frame b b1 -> initialized_ b1 = initialized_ b -> locked_ b1 = false -> ctl_inv time (c <| bus_ := b1 |>)) as Hrej.
  { intros b1 Hf Hi Hl. by eapply refused_inv; [exact Hinv|apply frame_refl| |exact Hf| |]. }
  pose proof (ci_locked _ _ Hinv) as Hl. fold b in Hl. unfold reset.
  destruct callback as [cb|]; [|apply Hrej; [apply frame_refl|done|done]].
  destruct (match timeout with Some _ => _ | None => _ end); [apply Hrej; [apply frame_refl|done|done]|].
  destruct (initialized_ b) eqn:Ei; cbn [negb]; [|apply Hrej; [apply frame_refl|done|done]].
  destruct (TryLock_cases b Hl) as (lk & h & -> & Ht).
  set (b1 := b <| hw := h |> <| locked_ := lk |>).
  assert (frame b b1) as H1.
  { apply (frame_intro b h lk (counters_ b) (device_counters_ b) (faulted_ b) (initialized_ b)); [by destruct b|done]. }
  assert (initialized_ b1 = true) as Hi1 by exact Ei.
  destruct lk; cbn [negb]; [|by apply Hrej].
  assert (forall b2, frame b1 b2 -> initialized_ b2 = true -> ctl_inv time (c <| bus_ := Unlock hardware b2 |>)) as Hrej1.
  { intros b2 Hf Hi. apply Hrej; [|exact Hi|done]. eapply frame_trans; [exact H1|]. eapply frame_trans; [exact Hf|apply frame_Unlock]. }
  destruct (active_ b1) eqn:Ea; [apply Hrej1; [apply frame_refl|exact Hi1]|].
  pose proof (frame_now b1) as Hfn. destruct (now_cases hardware b1) as (t & h' & _ & E). rewrite E in Hfn |- *.
  cbn [snd] in Hfn. destruct (Add t _) as [d|]; [|by apply Hrej1].
  destruct (arm_timed d DeadlineAlarm (b1 <| hw := h' |>)) as (st & h2 & -> & Ht2).
  destruct (st =h? HalStatus.ok) eqn:Es; cbn [negb].
  2:{ apply Hrej1; [|exact Ei]. eapply frame_trans; [exact Hfn|by apply frame_hw]. }
  destruct (quiet_free c Hinv Ea) as (Hled & Hc & Hrc & Hs). pose proof (ci_quiet _ _ Hinv) as [Hn Hrn].
  split; [|done|done|by intros _; split; [|left]].
  split; [|exact (mid_ticking _ (ci_mid _ _ Hinv))]. cbn [bus_]. apply recovering_inv; [|tauto].
  do 5 (split; [done|]). exists cb. split; [done|]. eapply ledger_snoc; [exact Hled|constructor].
Qed.

(** What an interrupt needs: the alarm, or the deadline behind it. *)
Record ready (c : Controller) : Prop := {
  rd_mid : mid c;
  rd_locked : locked_ (bus_ c) = false;
  rd_quiet : notification_ (bus_ c) = None /\ reset_notification_ (bus_ c) = None;
  rd_alarm : active_ (bus_ c) = true ->
    initialized_ (bus_ c) = true /\ (alarm_ (bus_ c) = Some (deadline_ (bus_ c)) \/ late time (bus_ c))
}.
Lemma inv_ready c : ctl_inv time c -> ready c.
Proof.
  intros [Hm Hl Hq Ha]. split; [done|done|done|]. intros Hact. destruct (Ha Hact) as [Hi [Hd|[_ Hlate]]]; auto.
Qed.

Lemma interrupt_inv c : ready c -> ctl_inv time (interrupt hardware N c).
Proof.
  intros [[Hb Ht] Hl Hq Ha]. unfold interrupt. set (b := (bus_ c) <| pended_ := false |>).
  destruct (TryLock_cases b Hl) as ([] & h & -> & Hth); cbn [negb].
  - set (c1 := c <| bus_ := b <| hw := h |> <| locked_ := true |> |>).
    assert (mid c1) as Hm1 by (by split).
    destruct (run_machine_mid hardware N 8 c1 Hm1) as (Hm2 & Hact & Hk & Hi). apply notify_inv; [exact Hm2|].
    intros Ha2. specialize (Hact Ha2). destruct (Ha Hact) as [Hini [Hd|Hlate]].
    + destruct (Hk Ha2) as (-> & -> & _). rewrite Hi. split; [exact Hini|exact Hd].
    + assert (late time (bus_ c1)) as Hl1 by (unfold late in *; cbn in *; lia).
      destruct (run_late hardware N time laws 5 c1 Hm1 Hact Hl1) as (Hoff & _). congruence.
  - split; [by split|done|exact Hq|]. intros Hact. destruct (Ha Hact) as [Hini [Hd|Hlate]]; (split; [exact Hini|]).
    + by left.
    + right. split; [done|]. pose proof (pend_time _ _ laws h). unfold late in *. cbn in *. lia.
Qed.

Lemma statistics_frame clear d b : frame b (match d with
    | None => snd (HalController.statistics clear b) | Some i => snd (device_statistics clear i b) end).
Proof.
  destruct d as [i|].
  - apply (frame_intro b (hw b) (locked_ b) (counters_ b) (device_counters_ (snd (device_statistics clear i b)))
      (faulted_ b) (initialized_ b)); [by destruct b|lia].
  - apply (frame_intro b (hw b) (locked_ b) (counters_ (snd (HalController.statistics clear b)))
      (device_counters_ b) (faulted_ b) (initialized_ b)); [by destruct b|lia].
Qed.

Lemma frame_inv_same c b' : ctl_inv time c -> frame (bus_ c) b' -> locked_ b' = locked_ (bus_ c) ->
  (initialized_ (bus_ c) = true -> initialized_ b' = true) -> ctl_inv time (c <| bus_ := b' |>).
Proof.
  intros Hinv Hf Hl Hi. apply frame_inv; [done|done|rewrite Hl; apply Hinv|].
  destruct (frame_same _ _ Hf) as (-> & _). intros Ha. apply Hi. by destruct (ci_alarm _ _ Hinv Ha).
Qed.

Lemma bus_perform_inv op c : ctl_inv time c -> allowed op c -> ctl_inv time (perform op c).
Proof.
  intros Hinv Hal. destruct op as [| |index actions callback timeout|address callback timeout|callback timeout| | | |clear d|h];
    cbn [perform allowed] in *; [| |by apply bus_start_inv| |by apply reset_inv| | | | |].
  - destruct (init_frame (bus_ c)) as (Hf & Hl & Hi). by apply frame_inv_same.
  - apply frame_inv; [done| |apply Hinv|].
    + apply (frame_intro (bus_ c) (hw_disable hardware (hw (bus_ c))) (locked_ (bus_ c)) (counters_ (bus_ c))
        (device_counters_ (bus_ c)) (faulted_ (bus_ c)) false); [by destruct (bus_ c)|apply (disable_time _ _ laws)].
    + cbn. congruence.
  - unfold probe. destruct (negb _); [|by apply bus_start_inv].
    destruct (Reject_frame N HalStatus.invalid_argument (bus_ c)) as (_ & Hf & Hl & Hi & _).
    unfold on_bus. apply frame_inv_same; [done|exact Hf|exact Hl|by rewrite Hi].
  - by apply interrupt_inv, inv_ready.
  - apply interrupt_inv. destruct Hal as (t & Ht & Hle). destruct Hinv as [[Hb Htk] Hl Hq Ha].
    split; [by split|exact Hl|exact Hq|]. intros Hact. destruct (Ha Hact) as [Hi [Hd|[_ Hlate]]]; (split; [exact Hi|right]).
    + unfold late. cbn. cbn in Hact. rewrite Hd in Ht. injection Ht as ->. exact Hle.
    + exact Hlate.
  - apply interrupt_inv. destruct (inv_ready c Hinv) as [[Hb Htk] Hl Hq Ha].
    by split; [split|..].
  - pose proof (statistics_frame clear d (bus_ c)) as Hf. destruct d; by apply frame_inv_same.
  - by apply frame_inv_same; [|apply frame_hw| |].
Qed.

Lemma new_inv h : ctl_inv time (new_controller N h).
Proof.
  split; [|done|done|done]. split; [|done]. split; [|by left]. exists Free. split; [constructor|done].
Qed.
Lemma reachable_inv c : reachable c -> ctl_inv time c.
Proof. induction 1; [apply new_inv|by apply bus_perform_inv]. Qed.

(** ** The claims *)

(** C15: Whatever tasks, interrupts and timers do, in any order, a client sees one
    request at a time: the hardware is given an action only between the
    acceptance and the callback of the request it belongs to, in the submitted
    order and after [begin]; access ends before the callback; the callback is
    called exactly once, with the descriptors that were submitted, a count of
    completed actions within them, and [ok] only when all of them completed. *)
Theorem bus_contract_kept c : reachable c ->
  exists p, ledger (events (bus_ c)) p /\ (p = Free <-> active_ (bus_ c) = false).
Proof.
  intros Hr. pose proof (reachable_inv c Hr) as [[[(p & Hl & Hph) _] _] _ [Hn Hrn] _]. exists p. split; [exact Hl|].
  unfold bus_phase, active_phase, quiet_phase in Hph. rewrite Hn, Hrn in Hph. destruct (active_ (bus_ c)).
  - split; [|done]. intros ->. destruct Hph as (_ & _ & Hph). destruct (resetting_ (bus_ c)).
    + by destruct Hph as (_ & ? & _ & ?).
    + by destruct Hph as (_ & ? & ? & _ & ? & _).
  - by destruct Hph as (_ & _ & _ & ->).
Qed.

(** The interrupt [c'] after [c] calls the outstanding callback. *)
Definition delivered (c c' : Controller) : Prop :=
  active_ (bus_ c') = false /\
  if resetting_ (bus_ c)
  then exists cb, reset_callback_ (bus_ c) = Some cb /\ last (events (bus_ c')) = Some (ResetDelivered cb HalStatus.timeout)
  else exists cb r, callback_ (bus_ c) = Some cb /\ last (events (bus_ c')) = Some (Delivered cb r) /\
       r_actions r = actions_ (bus_ c).

Lemma interrupt_late_delivers c : ready c -> active_ (bus_ c) = true -> late time (bus_ c) ->
  fst (crit_try_enter hardware (hw (bus_ c))) = true -> delivered c (interrupt hardware N c).
Proof.
  intros [[Hb Ht] Hl [Hn Hrn] Ha] Hact Hlate Hcrit. unfold interrupt. set (b := (bus_ c) <| pended_ := false |>).
  pose proof (enter_time _ _ laws (hw (bus_ c))) as Hent.
  assert (exists h, TryLock hardware b = (true, b <| hw := h |> <| locked_ := true |>) /\ time (hw b) <= time h) as (h & -> & Hh).
  { unfold TryLock. change (hw b) with (hw (bus_ c)). destruct (crit_try_enter hardware (hw (bus_ c))) as [e h]. cbn in *. subst e.
    exists h. cbn. by rewrite Hl. }
  cbn [negb]. set (c1 := c <| bus_ := b <| hw := h |> <| locked_ := true |> |>).
  assert (mid c1) as Hm1 by (by split).
  assert (late time (bus_ c1)) as Hl1 by (unfold late in *; cbn in *; lia).
  pose proof (run_late hardware N time laws 5 c1 Hm1 Hact Hl1) as (Hoff & _ & Hset). set (b2 := bus_ (run_machine hardware N 8 c1)) in *.
  change (bus_ (on_bus _ _)) with (notify hardware b2). unfold delivered. cbn [bus_ on_bus field_update Controller_eta].
  fold b2. destruct (notify_form hardware b2) as (h2 & pd & ->). cbn. split; [exact Hoff|].
  change (resetting_ (bus_ c1)) with (resetting_ (bus_ c)) in Hset. unfold delivery, reset_delivery.
  destruct (resetting_ (bus_ c)) eqn:Er.
  - destruct (inv_recovering _ _ Hact Er Hb) as [(_ & _ & _ & _ & _ & cb & Hcb & _) _].
    destruct Hset as (-> & -> & ->). cbn. rewrite Hn, Hcb. exists cb. split; [done|]. cbn. by rewrite last_snoc.
  - destruct (inv_running _ _ Hact Er Hb) as [(_ & _ & _ & _ & _ & cb & n & Hcb & _) _].
    destruct Hset as (-> & -> & Hacts). cbn. rewrite Hrn, Hcb. eexists cb, _. split; [done|]. rewrite app_nil_r, last_snoc. done.
Qed.

(** C16: No accepted request is forgotten: while it is outstanding its deadline
    alarm is armed or an interrupt is due, and the first interrupt after the
    deadline that gets the lock calls its callback. *)
Theorem outstanding_request_completes c : reachable c -> active_ (bus_ c) = true ->
  (alarm_ (bus_ c) = Some (deadline_ (bus_ c)) \/ pended_ (bus_ c) = true) /\
  (deadline_ (bus_ c) <= time (hw (bus_ c)) -> fst (crit_try_enter hardware (hw (bus_ c))) = true ->
   delivered c (interrupt hardware N c)).
Proof.
  intros Hr Ha. pose proof (reachable_inv c Hr) as Hinv. split.
  - destruct (ci_alarm _ _ Hinv Ha) as [_ [?|[? _]]]; auto.
  - intros Hlate Hcrit. apply interrupt_late_delivers; [by apply inv_ready|done|done|done].
Qed.

(** C17: A submission is accepted only on an initialized, idle controller that is
    not faulted, and with a callback; the request is then outstanding with its
    alarm armed and an interrupt due.  A refused one changes nothing but
    counters and what the clock and the critical section did: no event, no
    field of the request that may be outstanding. *)
Theorem start_accepts_or_refuses c index actions callback timeout address : reachable c ->
  let r := Start hardware N index actions callback timeout address (bus_ c) in
  if fst r =h? HalStatus.ok
  then active_ (bus_ c) = false /\ initialized_ (bus_ c) = true /\ faulted_ (bus_ c) = false /\
       exists cb, callback = Some cb /\ accepted cb actions (bus_ c) (snd r)
  else exists h cs ds, snd r = (bus_ c) <| hw := h |> <| counters_ := cs |> <| device_counters_ := ds |>.
Proof.
  intros Hr r. pose proof (ci_locked _ _ (reachable_inv c Hr)) as Hl.
  destruct (Start_cases index actions callback timeout address (bus_ c) Hl) as [(Hst & Hf & Hl' & Hi & Hfa)|(Hst & Hacc)];
    fold r in Hst |- *.
  - fold r in Hf, Hl', Hi, Hfa. rewrite (proj2 (hs_eqb_neq _ _) Hst).
    destruct Hf as (h & l & cs & ds & f & i & E & _). exists h, cs, ds. rewrite E in Hl', Hi, Hfa |- *. cbn in Hl', Hi, Hfa.
    subst. destruct (bus_ c). cbn in *. by subst.
  - rewrite Hst. cbn. exact Hacc.
Qed.
End run.
