(* ===== verification/HalExample.v ===== *)
(** * A simulated SPI bus

    Hardware whose transfers complete at the next poll, or never when it is
    stuck, with a clock that moves on when it is read.  The theorems on the
    controller apply to its histories. *)

From S2P Require Import Prelude Foundation StateMachine HalBase Spi I2c HalAction HalController HalSafe HalRun.

(** The time and whether transfers hang. *)
Record Sim := mkSim { sim_time : Z; sim_stuck : bool }.
Definition later (n : Z) (h : Sim) : Sim := mkSim (sim_time h + n) (sim_stuck h).

Definition sim_hardware : Hardware Spi.Action Sim := {|
  hw_validate h := HalStatus.ok;
  hw_init h := (HalStatus.ok, h);
  hw_needs_reset := None;
  hw_disable h := h;
  hw_rate h i := 1000000;
  hw_validate_action a h := HalStatus.ok;
  hw_begin i actions h := (HalStatus.ok, h);
  hw_begin_probe a h := (HalStatus.ok, h);
  hw_start a first last h := (HalStatus.ok, later 1 h);
  hw_poll h := (if sim_stuck h then None else Some HalStatus.ok, later 1 h);
  hw_finish h := (HalStatus.ok, h);
  hw_reset := ImmediateReset (fun h => (HalStatus.ok, later 50 h));
  hw_pend h := h;
  hw_mem h := fun _ => 0;
  clk_now h := (sim_time h, later 1 h);
  clk_arm t a h := (if sim_time h <? t then HalStatus.ok else HalStatus.timer_error, h);
  clk_cancel a h := h;
  crit_try_enter h := (true, h);
  crit_leave h := h
|}.

Lemma sim_laws : clock_laws sim_hardware sim_time.
Proof. split; intros; cbn; lia. Qed.

Abbreviation sim_perform := (perform sim_hardware 2 []).
Definition sim_run (ops : list Op) (c : Controller) : Controller := foldl (fun c op => sim_perform op c) c ops.
Definition sim_actions : list Spi.Action :=
  [Spi.write_action (mkSpan 16 4); Spi.pause_action (mkDuration 100 true); Spi.read_action (mkSpan 32 8) 0xff].
Abbreviation sim_start := (new_controller (A:=Spi.Action) 2 (mkSim 0 false)).

(** A transaction of three actions: accepted, driven by interrupts, delivered. *)
Definition sim_history : list (Op (A:=Spi.Action) (H:=Sim)) :=
  [OInit; OStart 1 sim_actions (Some 7%nat) None; OInterrupt; OInterrupt; OHardware (mkSim 200 false); OPauseFired; OInterrupt].
Example sim_history_events : events (bus_ (sim_run sim_history sim_start)) =
  [Accepted 7 sim_actions; Begun; Started 0 (Spi.write_action (mkSpan 16 4));
   Started 2 (Spi.read_action (mkSpan 32 8) 0xff); Finished; Delivered 7 (mkResult HalStatus.ok 3 sim_actions)].
Proof. vm_compute. reflexivity. Qed.

Lemma sim_reachable ops c : reachable sim_hardware 2 [] sim_time c ->
  (fix ok ops c := match ops with [] => True | op :: ops => allowed sim_time op c /\ ok ops (sim_perform op c) end) ops c ->
  reachable sim_hardware 2 [] sim_time (sim_run ops c).
Proof.
  revert c. induction ops as [|op ops IH]; intros c Hr Hok; [exact Hr|]. destruct Hok as [Hop Hok].
  apply IH; [by apply reachable_op|exact Hok].
Qed.

Lemma bus_contract_kept_witness :
  exists p, ledger (events (bus_ (sim_run sim_history sim_start))) p /\
            (p = Free <-> active_ (bus_ (sim_run sim_history sim_start)) = false).
Proof.
  apply (bus_contract_kept sim_hardware 2 [] sim_time sim_laws). apply sim_reachable; [constructor|].
  vm_compute. repeat split; discriminate.
Defined.

(** A transfer that hangs: its alarm fires and the callback reports it. *)
Definition stuck_history : list (Op (A:=Spi.Action) (H:=Sim)) :=
  [OInit; OHardware (mkSim 0 true); OStart 0 [Spi.write_action (mkSpan 16 4)] (Some 9%nat) None; OInterrupt;
   OHardware (mkSim 20000 true)].
Lemma stuck_reachable : reachable sim_hardware 2 [] sim_time (sim_run stuck_history sim_start).
Proof. apply sim_reachable; [constructor|]. vm_compute. repeat split; discriminate. Qed.

Lemma outstanding_request_completes_witness :
  let c := sim_run stuck_history sim_start in
  active_ (bus_ c) = true /\ delivered c (interrupt sim_hardware 2 c).
Proof.
  intros c. split; [vm_compute; reflexivity|].
  refine (proj2 (outstanding_request_completes sim_hardware 2 [] sim_time sim_laws c stuck_reachable _) _ _).
  - vm_compute. reflexivity.
  - vm_compute. discriminate.
  - reflexivity.
Defined.

Lemma start_accepts_or_refuses_witness :
  let c := sim_run stuck_history sim_start in
  fst (Start sim_hardware 2 1 sim_actions (Some 3%nat) None None (bus_ c)) = HalStatus.busy /\
  exists h cs ds, snd (Start sim_hardware 2 1 sim_actions (Some 3%nat) None None (bus_ c)) =
    (bus_ c) <| hw := h |> <| counters_ := cs |> <| device_counters_ := ds |>.
Proof.
  intros c. pose proof (start_accepts_or_refuses sim_hardware 2 [] sim_time sim_laws c 1%nat sim_actions (Some 3%nat) None
    None stuck_reachable) as Hw.
  assert (fst (Start sim_hardware 2 1 sim_actions (Some 3%nat) None None (bus_ c)) = HalStatus.busy) as E
    by (vm_compute; reflexivity).
  split; [exact E|]. cbn zeta in Hw. rewrite E in Hw. exact Hw.
Defined.
