(* ===== verification/Registry.v ===== *)
(** * The bus registry (src/lib/hal/registry.hpp)

    The registry initializes the application's controllers: every table is
    validated first, and a controller that fails to start takes the ones before
    it down again.  A binding is the interface a controller offers here, on the
    state [E] that all of them share. *)

From S2P Require Import Prelude Foundation StateMachine HalBase Spi I2c HalAction HalController.

(** [PinIdentity]: port and pin; port 0 is no pin. *)
Definition PinIdentity : Type := Z * Z.
Definition is_pin (p : PinIdentity) : bool := negb (fst p =? 0).

(** [detail::UniqueAliases]: every pair [j < i]. *)
Fixpoint UniqueAliases {T : Type} `{EqDecision T} (seen aliases : list T) : bool :=
  match aliases with
  | [] => true
  | a :: aliases => negb (bool_decide (a ∈ seen)) && UniqueAliases (seen ++ [a]) aliases
  end.

(** [Registry::device] and [BusRegistry::controller]: the index of an alias. *)
Fixpoint alias_index {T : Type} `{EqDecision T} (alias : T) (aliases : list T) : nat :=
  match aliases with
  | [] => 0
  | a :: aliases => if bool_decide (a = alias) then 0 else S (alias_index alias aliases)
  end.

Section registry.
Context {E : Type}.

Record Binding := mkBinding {
  identity : nat;
  chip_selects : list PinIdentity;
  bind_validate : E -> HalStatus;
  invalid_device : E -> option nat;
  bind_init : E -> HalStatus * E;
  bind_deinit : E -> E
}.

Record Failure := mkFailure { entry : nat; f_status : HalStatus; device : option nat }.

Record BusRegistry := mkBusRegistry { bindings_ : list Binding; failure_ : option Failure; registry_initialized_ : bool }.
#[export] Instance BusRegistry_eta : RecordEta BusRegistry := fun r =>
  mkBusRegistry (bindings_ r) (failure_ r) (registry_initialized_ r).
Definition new_registry (bindings : list Binding) : BusRegistry := mkBusRegistry bindings None false.

(** The loop over the chip selects: the pins so far and the status. *)
Fixpoint check_pins (selects : list PinIdentity) (pins : list PinIdentity) (status : HalStatus)
    : list PinIdentity * HalStatus :=
  match selects with
  | [] => (pins, status)
  | pin :: selects =>
      if negb (is_pin pin) then check_pins selects pins status
      else check_pins selects (pins ++ [pin]) (if bool_decide (pin ∈ pins) then HalStatus.invalid_argument else status)
  end.

Definition note_failure (index : nat) (status : HalStatus) (b : Binding) (e : E) (failure : option Failure) : option Failure :=
  match failure with
  | Some _ => failure
  | None => if negb (status =h? HalStatus.ok) then Some (mkFailure index status (invalid_device b e)) else None
  end.

(** The first pass: nothing of [E] changes. *)
Fixpoint validate_all (bindings : list Binding) (identities : list nat) (pins : list PinIdentity) (failure : option Failure)
    (e : E) : option Failure :=
  match bindings with
  | [] => failure
  | b :: bindings =>
      let status := bind_validate b e in
      let status := if bool_decide (identity b ∈ identities) then HalStatus.invalid_argument else status in
      let '(pins, status) := check_pins (chip_selects b) pins status in
      let failure := note_failure (length identities) status b e failure in
      validate_all bindings (identities ++ [identity b]) pins failure e
  end.

(** The second pass: controllers in order, until one fails. *)
Fixpoint init_all (bindings : list Binding) (index : nat) (failure : option Failure) (e : E) : option Failure * E :=
  match bindings with
  | [] => (failure, e)
  | b :: bindings =>
      match failure with
      | Some _ => init_all bindings (S index) failure e
      | None =>
          let '(status, e) := bind_init b e in
          init_all bindings (S index) (note_failure index status b e None) e
      end
  end.

(** The third: the controllers before the one that failed. *)
Fixpoint rollback (bindings : list Binding) (index entry : nat) (e : E) : E :=
  match bindings with
  | [] => e
  | b :: bindings => rollback bindings (S index) entry (if (index <? entry)%nat then bind_deinit b e else e)
  end.

Definition registry_init (r : BusRegistry) (e : E) : HalStatus * (BusRegistry * E) :=
  if registry_initialized_ r then (HalStatus.busy, (r, e))
  else
    match validate_all (bindings_ r) [] [] None e with
    | Some f => (f_status f, (r <| failure_ := Some f |>, e))
    | None =>
        match init_all (bindings_ r) 0 None e with
        | (Some f, e) => (f_status f, (r <| failure_ := Some f |>, rollback (bindings_ r) 0 (entry f) e))
        | (None, e) => (HalStatus.ok, (r <| failure_ := None |> <| registry_initialized_ := true |>, e))
        end
    end.

(** ** What the passes compute *)

(** A table without conflicts. *)
Definition all_pins (bindings : list Binding) : list PinIdentity := filter is_pin (b ← bindings; chip_selects b).
Definition table_ok (bindings : list Binding) (e : E) : Prop :=
  Forall (fun b => bind_validate b e = HalStatus.ok) bindings /\ NoDup (identity <$> bindings) /\ NoDup (all_pins bindings).

(** Controllers started in order, each with success. *)
Inductive started : list Binding -> E -> E -> Prop :=
  | started_nil e : started [] e e
  | started_cons b bs e e1 e2 : bind_init b e = (HalStatus.ok, e1) -> started bs e1 e2 -> started (b :: bs) e e2.
Definition shut_down (bs : list Binding) (e : E) : E := foldl (fun e b => bind_deinit b e) e bs.

Lemma UniqueAliases_NoDup {T} `{EqDecision T} (seen aliases : list T) : NoDup seen ->
  UniqueAliases seen aliases = true <-> NoDup (seen ++ aliases).
Proof.
  revert seen. induction aliases as [|a l IH]; intros seen Hs; cbn [UniqueAliases].
  - by rewrite app_nil_r.
  - rewrite andb_true_iff, negb_true_iff, bool_decide_eq_false. replace (seen ++ a :: l) with ((seen ++ [a]) ++ l) by by rewrite <- app_assoc.
    split.
    + intros [Hn Hu]. apply IH; [|exact Hu]. apply NoDup_app. split; [done|]. split; [|apply NoDup_singleton].
      intros x Hx ->%list_elem_of_singleton. done.
    + intros Hu. pose proof Hu as (Hsa & _)%NoDup_app. split.
      * apply NoDup_app in Hsa as (_ & Hd & _). intros Ha. by apply (Hd a Ha), list_elem_of_singleton.
      * by apply IH.
Qed.

(** A status that is not [ok] stays so. *)
Lemma check_pins_failed selects pins status : status <> HalStatus.ok -> snd (check_pins selects pins status) <> HalStatus.ok.
Proof.
  revert pins status. induction selects as [|p l IH]; intros pins status Hs; cbn [check_pins]; [done|].
  destruct (negb _); [by apply IH|]. apply IH. by case_bool_decide.
Qed.
Lemma check_pins_fst selects pins status : fst (check_pins selects pins status) = pins ++ filter is_pin selects.
Proof.
  revert pins status. induction selects as [|p l IH]; intros pins status; cbn [check_pins]; [by rewrite app_nil_r|].
  rewrite filter_cons. destruct (is_pin p); cbn [negb]; rewrite IH.
  - rewrite <- app_assoc. by destruct (decide _).
  - by destruct (decide _).
Qed.
Lemma check_pins_ok selects pins : NoDup pins ->
  snd (check_pins selects pins HalStatus.ok) = HalStatus.ok <-> NoDup (pins ++ filter is_pin selects).
Proof.
  revert pins. induction selects as [|p l IH]; intros pins Hn; cbn [check_pins]; [by rewrite app_nil_r|].
  rewrite filter_cons. destruct (is_pin p) eqn:Ep; cbn [negb]; destruct (decide _) as [Hd|Hd]; try done.
  2:{ by apply IH. }
  replace (pins ++ p :: filter is_pin l) with ((pins ++ [p]) ++ filter is_pin l) by by rewrite <- app_assoc.
  case_bool_decide as Hin.
  - split; [intros Hok; by destruct (check_pins_failed l (pins ++ [p]) HalStatus.invalid_argument)|].
    intros (Hp & _)%NoDup_app. apply NoDup_app in Hp as (_ & Hp & _). destruct (Hp p Hin). by apply list_elem_of_singleton.
  - apply IH. apply NoDup_app. split; [done|]. split; [|apply NoDup_singleton].
    intros x Hx ->%list_elem_of_singleton. done.
Qed.

Lemma note_failure_some i st b e f : note_failure i st b e (Some f) = Some f.
Proof. done. Qed.
Lemma validate_all_some bs ids pins f e : validate_all bs ids pins (Some f) e = Some f.
Proof.
  revert ids pins. induction bs as [|b bs IH]; intros ids pins; cbn [validate_all]; [done|].
  destruct (check_pins _ _ _) as [pins' st]. cbn [note_failure]. apply IH.
Qed.

(** What is left of a table after the identities and pins already seen. *)
Definition rest_ok (bs : list Binding) (ids : list nat) (pins : list PinIdentity) (e : E) : Prop :=
  Forall (fun b => bind_validate b e = HalStatus.ok) bs /\ NoDup (ids ++ (identity <$> bs)) /\ NoDup (pins ++ all_pins bs).

Lemma all_pins_cons b bs : all_pins (b :: bs) = filter is_pin (chip_selects b) ++ all_pins bs.
Proof. unfold all_pins. cbn. apply filter_app. Qed.

(** The first pass finds a failure exactly when the table has a conflict. *)
Lemma validate_all_spec bs ids pins e : NoDup ids -> NoDup pins ->
  match validate_all bs ids pins None e with
  | None => rest_ok bs ids pins e
  | Some f => ~ rest_ok bs ids pins e /\ f_status f <> HalStatus.ok /\ (length ids <= entry f < length ids + length bs)%nat
  end.
Proof.
  revert ids pins. induction bs as [|b bs IH]; intros ids pins Hids Hpins; cbn [validate_all].
  { unfold rest_ok. cbn. rewrite !app_nil_r. split_and!; [constructor|done|done]. }
  set (st := if bool_decide _ then _ else _).
  pose proof (check_pins_fst (chip_selects b) pins st) as Hfst.
  destruct (check_pins (chip_selects b) pins st) as [pins' st'] eqn:Ec. cbn [fst] in Hfst. subst pins'.
  replace (ids ++ (identity <$> b :: bs)) with ((ids ++ [identity b]) ++ (identity <$> bs)) in * by by rewrite <- app_assoc.
  unfold note_failure. destruct (st' =h? HalStatus.ok) eqn:Est; cbn [negb].
  - apply hs_eqb_eq in Est. subst st'.
    assert (st = HalStatus.ok) as Hst.
    { destruct (decide (st = HalStatus.ok)) as [?|Hn]; [done|]. pose proof (check_pins_failed (chip_selects b) pins st Hn) as Hf.
      rewrite Ec in Hf. done. }
    assert (NoDup (pins ++ filter is_pin (chip_selects b))) as Hp.
    { apply check_pins_ok; [done|]. rewrite Hst in Ec. by rewrite Ec. }
    unfold st in Hst. case_bool_decide as Hin; [done|].
    assert (NoDup (ids ++ [identity b])) as Hi.
    { apply NoDup_app. split; [done|]. split; [|apply NoDup_singleton]. intros x Hx ->%list_elem_of_singleton. done. }
    specialize (IH _ _ Hi Hp).
    assert (rest_ok (b :: bs) ids pins e <-> rest_ok bs (ids ++ [identity b]) (pins ++ filter is_pin (chip_selects b)) e) as Hiff.
    { unfold rest_ok. rewrite Forall_cons, all_pins_cons, fmap_cons, <- !app_assoc. cbn. tauto. }
    destruct (validate_all _ _ _ _ _) as [f|]; [|by apply Hiff].
    destruct IH as (Hbad & Hf & Hr). rewrite Hiff. split; [done|]. split; [done|]. rewrite length_app in Hr. cbn in *. lia.
  - apply hs_eqb_neq in Est. rewrite validate_all_some. split; [|split; [done|cbn; lia]].
    intros (Hv & Hid & Hp). apply Forall_cons in Hv as [Hv _].
    rewrite fmap_cons in Hid. apply NoDup_app in Hid as (_ & Hid & _).
    assert (st = HalStatus.ok) as Hst.
    { unfold st. rewrite bool_decide_false; [done|]. intros Hin. apply (Hid _ Hin). set_solver. }
    apply Est. rewrite all_pins_cons, app_assoc in Hp. apply NoDup_app in Hp as (Hp & _).
    apply check_pins_ok in Hp; [|done]. rewrite Hst in Ec. by rewrite Ec in Hp.
Qed.

Lemma init_all_some bs i f e : init_all bs i (Some f) e = (Some f, e).
Proof. revert i. induction bs as [|b bs IH]; intros i; cbn [init_all]; [done|apply IH]. Qed.

(** The second pass: all started, or a first one failed. *)
Lemma init_all_spec bs i e :
  match init_all bs i None e with
  | (None, e') => started bs e e'
  | (Some f, e') => exists before b after e1, bs = before ++ b :: after /\ entry f = (i + length before)%nat /\
      started before e e1 /\ bind_init b e1 = (f_status f, e') /\ f_status f <> HalStatus.ok
  end.
Proof.
  revert i e. induction bs as [|b bs IH]; intros i e; cbn [init_all]; [constructor|].
  destruct (bind_init b e) as [st e1] eqn:Eb. unfold note_failure. destruct (st =h? HalStatus.ok) eqn:Est; cbn [negb].
  - apply hs_eqb_eq in Est. subst st. specialize (IH (S i) e1). destruct (init_all bs (S i) None e1) as [[f|] e'].
    + destruct IH as (before & b' & after & e2 & -> & He & Hs & Hi & Hf). exists (b :: before), b', after, e2.
      split_and!; [done|cbn; lia|by econstructor|done|done].
    + by econstructor.
  - rewrite init_all_some. apply hs_eqb_neq in Est. exists [], b, bs, e. cbn. split_and!; [done|lia|constructor|done|done].
Qed.

Lemma rollback_prefix before after i e :
  rollback (before ++ after) i (i + length before) e = shut_down before e.
Proof.
  revert i e. induction before as [|b l IH]; intros i e; cbn [app length rollback shut_down foldl].
  - assert (forall bs j, (i <= j)%nat -> rollback bs j (i + 0) e = e) as Hno.
    { clear. induction bs as [|b bs IH]; intros j Hj; cbn [rollback]; [done|].
      destruct (Nat.ltb_spec j (i + 0)); [lia|]. apply IH. lia. }
    by apply Hno.
  - destruct (Nat.ltb_spec i (i + S (length l))); [|lia]. replace (i + S (length l))%nat with (S i + length l)%nat by lia. apply IH.
Qed.

Lemma rest_ok_table bs e : rest_ok bs [] [] e <-> table_ok bs e.
Proof. done. Qed.

(** Initialization is all or nothing.  It succeeds only on a table whose
    controllers all validate, are distinct and share no chip select, and then
    every controller was started, in order.  Otherwise the registry stays
    uninitialized and names a failing entry; a bad table means that no
    controller was touched, and a controller that does not start means that
    exactly the ones before it were started and then shut down again. *)
Theorem registry_all_or_nothing r e : registry_initialized_ r = false ->
  let '(st, (r', e')) := registry_init r e in
  if st =h? HalStatus.ok
  then table_ok (bindings_ r) e /\ started (bindings_ r) e e' /\ registry_initialized_ r' = true
  else registry_initialized_ r' = false /\
    exists f, failure_ r' = Some f /\ f_status f = st /\ (entry f < length (bindings_ r))%nat /\
    ((~ table_ok (bindings_ r) e /\ e' = e) \/
     (table_ok (bindings_ r) e /\ exists before b after e1 e2, bindings_ r = before ++ b :: after /\
        entry f = length before /\ started before e e1 /\ bind_init b e1 = (st, e2) /\ e' = shut_down before e2)).
Proof.
  intros Hi. unfold registry_init. rewrite Hi.
  pose proof (validate_all_spec (bindings_ r) [] [] e (NoDup_nil_2) (NoDup_nil_2)) as Hv.
  destruct (validate_all _ _ _ _ _) as [f|].
  - destruct Hv as (Hbad & Hf & _ & Hlt). rewrite (proj2 (hs_eqb_neq _ _) Hf). split; [exact Hi|].
    exists f. split_and!; [done|done|exact Hlt|]. by left.
  - pose proof (init_all_spec (bindings_ r) 0 e) as Hs. destruct (init_all _ _ _ _) as [[f|] e'].
    + destruct Hs as (before & b & after & e1 & Hbs & Hent & Hst & Hb & Hf). rewrite (proj2 (hs_eqb_neq _ _) Hf).
      split; [exact Hi|]. exists f. split; [done|]. split; [done|]. split; [rewrite Hbs, length_app; cbn; lia|].
      right. split; [exact Hv|]. exists before, b, after, e1, e'. split_and!; [done|done|done|done|].
      rewrite Hent, Hbs. apply (rollback_prefix before (b :: after) 0).
    + rewrite hs_eqb_refl. by split_and!.
Qed.
End registry.
Arguments Binding : clear implicits.
Arguments BusRegistry : clear implicits.

(** ** Bindings of bus controllers

    The binding of the controller at index [i] of a list of them. *)
Section controllers.
Context {A H : Type} `{BusAction A}.
Abbreviation Buses := (list (Bus (A:=A) (H:=H))).

Definition controller_binding (hardware : Hardware A H) (id i : nat) (selects : list PinIdentity)
    (invalid : Buses -> option nat) : Binding Buses := {|
  identity := id;
  chip_selects := selects;
  bind_validate e := from_option (fun b => hw_validate hardware (hw b)) HalStatus.not_initialized (e !! i);
  invalid_device := invalid;
  bind_init e :=
    match e !! i with
    | Some b => let '(st, b) := init hardware b in (st, <[i := b]> e)
    | None => (HalStatus.not_initialized, e)
    end;
  bind_deinit e := alter (deinit hardware) i e
|}.

Definition all_off (e : Buses) : Prop := Forall (fun b => initialized_ b = false) e.
(** The first [n] controllers may be on. *)
Definition off_from (n : nat) (e : Buses) : Prop := forall i b, (n <= i)%nat -> e !! i = Some b -> initialized_ b = false.

(** The binding of index [i] is in place [i] of the table. *)
Definition controller_table (bs : list (Binding Buses)) : Prop :=
  forall i b, bs !! i = Some b -> exists hardware id selects invalid, b = controller_binding hardware id i selects invalid.

Lemma init_off (hardware : Hardware A H) b : initialized_ b = false -> fst (init hardware b) <> HalStatus.ok ->
  initialized_ (snd (init hardware b)) = false.
Proof.
  unfold init. intros Hi. rewrite Hi. destruct (negb _); [done|]. unfold call. destruct (hw_init hardware (hw b)) as [st h].
  destruct (st =h? HalStatus.ok); cbn; [done|]. done.
Qed.
Lemma bind_init_other hardware id i selects invalid e st e' j :
  bind_init (controller_binding hardware id i selects invalid) e = (st, e') -> i <> j -> e' !! j = e !! j.
Proof.
  cbn. destruct (e !! i) as [b|] eqn:E; [|by intros [= <- <-]].
  destruct (init hardware b) as [st1 b1]. intros [= <- <-] Hij. by rewrite list_lookup_insert_ne.
Qed.
Lemma bind_init_failed hardware id i selects invalid e st e' : off_from i e ->
  bind_init (controller_binding hardware id i selects invalid) e = (st, e') -> st <> HalStatus.ok -> off_from i e'.
Proof.
  cbn. intros Hoff. destruct (e !! i) as [b|] eqn:E; [|by intros [= <- <-]].
  destruct (init hardware b) as [st1 b1] eqn:Ei. intros [= <- <-] Hst j b2 Hj Hb2.
  destruct (decide (i = j)) as [->|Hij].
  - rewrite list_lookup_insert_eq in Hb2 by (by eapply lookup_lt_Some). injection Hb2 as <-.
    pose proof (init_off hardware b (Hoff j b Hj E)) as Ho. rewrite Ei in Ho. by apply Ho.
  - rewrite list_lookup_insert_ne in Hb2 by done. by apply (Hoff j).
Qed.

Lemma started_off bs before after e e1 : controller_table bs -> bs = before ++ after -> started before e e1 -> off_from 0 e ->
  off_from (length before) e1.
Proof.
  intros Ht -> Hs Hoff. rewrite <- (Nat.add_0_l (length before)).
  assert (forall i b, before !! i = Some b -> exists hardware id selects invalid,
    b = controller_binding hardware id (0 + i) selects invalid) as Hbs.
  { intros i b Hb. apply Ht. by apply lookup_app_l_Some. }
  clear Ht. revert Hbs Hoff. generalize 0%nat as n. induction Hs as [e|b bs e e1 e2 Hb Hs IH]; intros n Hbs Hoff.
  - by rewrite Nat.add_0_r.
  - cbn [length]. replace (n + S (length bs))%nat with (S n + length bs)%nat by lia. apply IH.
    + intros i b' Hb'. replace (S n + i)%nat with (n + S i)%nat by lia. by apply Hbs.
    + destruct (Hbs 0%nat b eq_refl) as (hw0 & id & sel & inv & ->). rewrite Nat.add_0_r in Hb. intros j b' Hj Hb'.
      rewrite (bind_init_other _ _ _ _ _ _ _ _ j Hb) in Hb' by lia. apply (Hoff j); [lia|done].
Qed.

Lemma shut_down_off before e n : 
  (forall i b, before !! i = Some b -> exists hardware id selects invalid, b = controller_binding hardware id (n + i) selects invalid) ->
  (forall i b, e !! i = Some b -> (n <= i < n + length before)%nat \/ initialized_ b = false) ->
  all_off (shut_down before e).
Proof.
  revert e n. induction before as [|b l IH]; intros e n Hbs Hoff; cbn [shut_down foldl].
  - apply Forall_lookup. intros i b Hb. destruct (Hoff i b Hb) as [Hi|]; [cbn in Hi; lia|done].
  - apply (IH _ (S n)).
    + intros i b' Hb'. replace (S n + i)%nat with (n + S i)%nat by lia. by apply Hbs.
    + destruct (Hbs 0%nat b eq_refl) as (hw0 & id & sel & inv & ->). rewrite Nat.add_0_r. cbn [bind_deinit controller_binding].
      intros i b' Hb'. destruct (decide (n = i)) as [->|Hni].
      * rewrite list_lookup_alter_eq in Hb'. destruct (e !! i); [|done]. injection Hb' as <-. by right.
      * rewrite list_lookup_alter_ne in Hb' by done. destruct (Hoff i b' Hb') as [Hi|]; [cbn in Hi; left; lia|by right].
Qed.

Lemma off_from_all (e : Buses) : off_from 0 e <-> all_off e.
Proof.
  unfold off_from, all_off. rewrite Forall_lookup. split; [|by eauto].
  intros Hoff i b Hb. apply (Hoff i); [lia|done].
Qed.

(** When the initialization of a table of bus controllers fails, every
    controller is off afterwards, the one that failed included. *)
Theorem failed_registry_leaves_all_off r e : controller_table (bindings_ r) -> registry_initialized_ r = false -> all_off e ->
  let '(st, (r', e')) := registry_init r e in st <> HalStatus.ok -> all_off e' /\ registry_initialized_ r' = false.
Proof.
  intros Ht Hi Hoff. unfold registry_init. rewrite Hi. destruct (validate_all _ _ _ _ _) as [f|]; [done|].
  pose proof (init_all_spec (bindings_ r) 0 e) as Hs. destruct (init_all _ _ _ _) as [[f|] e']; [|done].
  destruct Hs as (before & b & after & e1 & Hbs & Hent & Hst & Hb & Hf). intros _. split; [|exact Hi].
  rewrite Hent, Hbs, (rollback_prefix before (b :: after) 0).
  pose proof (started_off _ _ _ _ _ Ht Hbs Hst (proj2 (off_from_all e) Hoff)) as Hoff1.
  destruct (Ht (length before) b) as (hw0 & id & sel & inv & ->).
  { rewrite Hbs, lookup_app_r by lia. by rewrite Nat.sub_diag. }
  pose proof (bind_init_failed _ _ _ _ _ _ _ _ Hoff1 Hb Hf) as Hoff2. apply (shut_down_off before e' 0).
  - intros i b' Hb'. cbn. apply Ht. rewrite Hbs. by apply lookup_app_l_Some.
  - intros i b' Hb'. destruct (decide (i < length before)%nat) as [?|Hge]; [left; lia|right].
    apply (Hoff2 i); [lia|done].
Qed.
End controllers.

(** ** Three controllers of which the last does not start *)

Definition logging_binding (id : nat) (pin : PinIdentity) (st : HalStatus) : Binding (list (bool * nat)) := {|
  identity := id; chip_selects := [pin; (0, 0)]; bind_validate _ := HalStatus.ok; invalid_device _ := None;
  bind_init e := (st, e ++ [(true, id)]); bind_deinit e := e ++ [(false, id)]
|}.
Definition failing_registry : BusRegistry (list (bool * nat)) :=
  new_registry [logging_binding 1 (1, 5) HalStatus.ok; logging_binding 2 (1, 6) HalStatus.ok;
                logging_binding 3 (2, 5) HalStatus.hardware_error; logging_binding 4 (2, 6) HalStatus.ok].

Lemma registry_all_or_nothing_witness :
  let '(st, (r', e')) := registry_init failing_registry [] in
  st = HalStatus.hardware_error /\ registry_initialized_ r' = false /\
  e' = [(true, 1); (true, 2); (true, 3); (false, 1); (false, 2)]%nat.
Proof.
  pose proof (registry_all_or_nothing failing_registry [] eq_refl) as Hw.
  destruct (registry_init failing_registry []) as [st [r' e']] eqn:E. vm_compute in E. injection E as <- <- <-.
  split; [reflexivity|]. split; [exact (proj1 Hw)|reflexivity].
Defined.
