(* ===== verification/BusClear.v ===== *)
(** * Clearing a stuck I2C bus (src/lib/hal/i2c/bus_clear.h)

    Up to nine clocks free a target that holds the data line, then a STOP.  The
    pins are functions on an environment [E] supplied by the board; the calls
    that move them are recorded with the time of the poll that made them. *)

From S2P Require Import Prelude Foundation StateMachine HalBase.

Module ClearState.
Inductive ClearState : Set := idle | initial | low | rising | high | stop_low | stop_rising | stop_high | check.
End ClearState.
#[global] Instance ClearState_eq_dec : EqDecision ClearState.ClearState.
Proof. solve_decision. Defined.
#[export] Instance ClearState_enum : StateEnum ClearState.ClearState := {|
  state_index (s : ClearState.ClearState) := match s with
    | ClearState.idle => 0 | ClearState.initial => 1 | ClearState.low => 2 | ClearState.rising => 3
    | ClearState.high => 4 | ClearState.stop_low => 5 | ClearState.stop_rising => 6 | ClearState.stop_high => 7
    | ClearState.check => 8 end%nat;
  state_count := 9%nat
|}.

Inductive PinCall : Set := PinEnter | PinLeave | SetScl (release : bool) | SetSda (release : bool).

Section bus_clear.
Context {E : Type}.

(** [None] is a null function pointer. *)
Record BusClearPins := mkBusClearPins {
  pin_enter : option (E -> E); pin_leave : option (E -> E);
  pin_scl : option (bool -> E -> E); pin_sda : option (bool -> E -> E);
  pin_scl_high : option (E -> bool); pin_sda_high : option (E -> bool)
}.
Definition pins_valid (p : BusClearPins) : bool :=
  bool_decide (is_Some (pin_enter p)) && bool_decide (is_Some (pin_leave p)) && bool_decide (is_Some (pin_scl p)) &&
  bool_decide (is_Some (pin_sda p)) && bool_decide (is_Some (pin_scl_high p)) && bool_decide (is_Some (pin_sda_high p)).

Record BusClear := mkBusClear {
  pins_ : BusClearPins;
  clear_machine_ : Machine ClearState.ClearState;
  result_ : option HalStatus;
  edge_ : Z; pulses_ : Z;
  requested_ : bool; abort_ : bool;
  board : E;
  calls : list (PinCall * Z)
}.
#[export] Instance BusClear_eta : RecordEta BusClear := fun b =>
  mkBusClear (pins_ b) (clear_machine_ b) (result_ b) (edge_ b) (pulses_ b) (requested_ b) (abort_ b) (board b) (calls b).
#[export] Instance BusClear_machine : HasMachine BusClear ClearState.ClearState := {|
  machine := clear_machine_; with_machine m b := b <| clear_machine_ := m |>
|}.
#[export] Instance BusClear_machine_laws : HasMachineLaws BusClear ClearState.ClearState.
Proof. split; [done|done|by intros []]. Qed.

Definition new_bus_clear (p : BusClearPins) (e : E) : BusClear :=
  mkBusClear p (initial_machine ClearState.idle) None 0 0 false false e [].
Definition available (b : BusClear) : bool := pins_valid (pins_ b).

(** A call of a pin function; a null pointer is called only without [valid]. *)
Definition pin_call (f : option (E -> E)) (call : PinCall) (now : Z) (b : BusClear) : BusClear :=
  b <| board := default (fun e => e) f (board b) |> <| calls := calls b ++ [(call, now)] |>.
Definition SclHigh (b : BusClear) : bool := default (fun _ => false) (pin_scl_high (pins_ b)) (board b).
Definition SdaHigh (b : BusClear) : bool := default (fun _ => false) (pin_sda_high (pins_ b)) (board b).
Definition Sda (release : bool) (now : Z) (b : BusClear) : BusClear :=
  pin_call ((fun f => f release) <$> pin_sda (pins_ b)) (SetSda release) now b.
Definition Scl (release : bool) (now : Z) (b : BusClear) : BusClear :=
  (pin_call ((fun f => f release) <$> pin_scl (pins_ b)) (SetScl release) now b) <| edge_ := now |>.
Definition Finish (status : HalStatus) (now : Z) (b : BusClear) : BusClear :=
  (pin_call (pin_leave (pins_ b)) PinLeave now b) <| result_ := Some status |>.

Definition kEdgeUs : Z := 5.

Definition StepIdle (now : Z) (b : BusClear) : ClearState.ClearState * BusClear :=
  if abort_ b then (ClearState.idle, b <| requested_ := false |> <| result_ := Some HalStatus.timeout |>)
  else if requested_ b then
    let b := b <| requested_ := false |> <| pulses_ := 0 |> in
    if negb (available b) then (ClearState.idle, b <| result_ := Some HalStatus.faulted |>)
    else (ClearState.initial, (pin_call (pin_enter (pins_ b)) PinEnter now b) <| edge_ := now |>)
  else (ClearState.idle, b).

(** The inner switch: an edge is due. *)
Definition StepEdge (cs : ClearState.ClearState) (now : Z) (b : BusClear) : ClearState.ClearState * BusClear :=
  match cs with
  | ClearState.initial =>
      if SclHigh b then
        if SdaHigh b then (ClearState.idle, Finish HalStatus.ok now b) else (ClearState.low, Scl false now b)
      else (cs, b)
  | ClearState.low => (ClearState.rising, Scl true now b)
  | ClearState.rising => if SclHigh b then (ClearState.high, b <| edge_ := now |>) else (cs, b)
  | ClearState.high =>
      if negb (SclHigh b) then (ClearState.rising, b <| edge_ := now |>)
      else
        let released := SdaHigh b in
        let b := b <| pulses_ := u8 (pulses_ b + 1) |> in
        let b := Scl false now b in
        if released || (pulses_ b =? 9) then (ClearState.stop_low, Sda false now b) else (ClearState.low, b)
  | ClearState.stop_low => (ClearState.stop_rising, Scl true now b)
  | ClearState.stop_rising => if SclHigh b then (ClearState.stop_high, b <| edge_ := now |>) else (cs, b)
  | ClearState.stop_high =>
      if negb (SclHigh b) then (ClearState.stop_rising, b <| edge_ := now |>)
      else (ClearState.check, (Sda true now b) <| edge_ := now |>)
  | ClearState.check =>
      (ClearState.idle, Finish (if SclHigh b && SdaHigh b then HalStatus.ok else HalStatus.faulted) now b)
  | ClearState.idle => (cs, b)
  end.

Definition Step (now : Z) (cs : ClearState.ClearState) (b : BusClear) : ClearState.ClearState * BusClear :=
  match cs with
  | ClearState.idle => StepIdle now b
  | _ =>
      if abort_ b then (ClearState.idle, Finish HalStatus.timeout now b)
      else if u64 (now - edge_ b) <? kEdgeUs then (cs, b)
      else StepEdge cs now b
  end.

Definition start (b : BusClear) : BusClear := b <| requested_ := true |> <| result_ := None |>.
Definition poll (now : Z) (b : BusClear) : option HalStatus * BusClear :=
  let b := snd (tick (step_only (Step now)) b) in (result_ b, b).
Definition abort (b : BusClear) : BusClear :=
  let b := b <| abort_ := true |> in
  let b := snd (tick (step_only (Step 0)) b) in
  b <| abort_ := false |>.

Definition clear_state (b : BusClear) : ClearState.ClearState := cs (clear_machine_ b).
End bus_clear.

(** ** The waveform

    The lines as the calls leave them: [None] while the peripheral owns them. *)
Record Wave := mkWave { w_scl : bool; w_sda : bool; w_falls : Z; w_at : Z }.

(** A clock edge comes at least [kEdgeUs] after the previous change; the data
    line falls only under a low clock, so no START is sent, and rises only under
    a released clock, which is the STOP. *)
Inductive wave_step : option Wave -> PinCall * Z -> option Wave -> Prop :=
  | wave_enter t : wave_step None (PinEnter, t) (Some (mkWave true true 0 t))
  | wave_fall sda n t0 t : t0 + kEdgeUs <= t -> n < 10 ->
      wave_step (Some (mkWave true sda n t0)) (SetScl false, t) (Some (mkWave false sda (n + 1) t))
  | wave_rise sda n t0 t : t0 + kEdgeUs <= t ->
      wave_step (Some (mkWave false sda n t0)) (SetScl true, t) (Some (mkWave true sda n t))
  | wave_data n t0 t : t0 <= t ->
      wave_step (Some (mkWave false true n t0)) (SetSda false, t) (Some (mkWave false false n t))
  | wave_stop n t0 t : t0 + kEdgeUs <= t ->
      wave_step (Some (mkWave true false n t0)) (SetSda true, t) (Some (mkWave true true n t))
  | wave_leave w t : wave_step (Some w) (PinLeave, t) None.

Inductive wave : list (PinCall * Z) -> option Wave -> Prop :=
  | wave_nil : wave [] None
  | wave_snoc l w e w' : wave l w -> wave_step w e w' -> wave (l ++ [e]) w'.

Section waveform.
Context {E : Type}.
Implicit Types b : BusClear (E:=E).

(** Histories; [T] is the time of the last poll. *)
Inductive Op := OStart | OPoll (now : Z) | OAbort | OBoard (e : E).
Definition perform (op : Op) b : BusClear :=
  match op with
  | OStart => start b | OPoll now => snd (poll now b) | OAbort => abort b | OBoard e => b <| board := e |>
  end.
Inductive reachable : Z -> BusClear (E:=E) -> Prop :=
  | reachable_new p e : reachable 0 (new_bus_clear p e)
  | reachable_poll T now b : reachable T b -> T <= now <= UINT64_MAX -> reachable now (perform (OPoll now) b)
  | reachable_other T op b : reachable T b -> (forall now, op <> OPoll now) -> reachable T (perform op b).

(** What the lines are in each state. *)
Definition lines (s : ClearState.ClearState) (pulses : Z) (w : Wave) : Prop :=
  match s with
  | ClearState.idle => False
  | ClearState.initial => w_scl w = true /\ w_sda w = true /\ w_falls w = 0 /\ pulses = 0
  | ClearState.low => w_scl w = false /\ w_sda w = true /\ w_falls w = pulses + 1 /\ 0 <= pulses < 9
  | ClearState.rising | ClearState.high => w_scl w = true /\ w_sda w = true /\ w_falls w = pulses + 1 /\ 0 <= pulses < 9
  | ClearState.stop_low => w_scl w = false /\ w_sda w = false
  | ClearState.stop_rising | ClearState.stop_high => w_scl w = true /\ w_sda w = false
  | ClearState.check => w_scl w = true /\ w_sda w = true
  end.
Definition on_bus (s : ClearState.ClearState) (T : Z) b (w : Wave) : Prop :=
  lines s (pulses_ b) w /\ 0 <= w_at w <= edge_ b /\ edge_ b <= T /\ available b = true.
Definition clear_inv (s : ClearState.ClearState) (T : Z) b : Prop :=
  exists w, wave (calls b) w /\
    match w with None => s = ClearState.idle | Some w => s <> ClearState.idle /\ on_bus s T b w end.

Lemma clear_inv_off T b : wave (calls b) None -> clear_inv ClearState.idle T b.
Proof. intros. by exists None. Qed.
Lemma clear_inv_on s T b w : wave (calls b) (Some w) -> s <> ClearState.idle -> on_bus s T b w -> clear_inv s T b.
Proof. intros. by exists (Some w). Qed.

(** The lines after the calls of a step. *)
Ltac on_lines Hw :=
  eapply clear_inv_on;
    [cbn; first [exact Hw | eapply wave_snoc; [exact Hw|constructor; lia]
                | eapply wave_snoc; [eapply wave_snoc; [exact Hw|constructor; lia]|constructor; lia]]
    |done|unfold on_bus; cbn; repeat split; first [done|lia]].

Lemma StepEdge_inv s T now b : 0 <= T <= now -> now <= UINT64_MAX -> clear_inv s T b -> s <> ClearState.idle ->
  edge_ b + kEdgeUs <= now -> clear_inv (fst (StepEdge s now b)) now (snd (StepEdge s now b)).
Proof.
  intros HT Hnow (w & Hw & Hinv) Hs He. destruct w as [[scl sda n t0]|]; [|done].
  destruct Hinv as (_ & Hl & [Ht0 Hat] & HeT & Hav). cbn in Ht0, Hat. unfold lines in Hl. cbn in Hl.
  destruct s; [done|..]; cbn [StepEdge]; destruct Hl as (-> & -> & Hl) || destruct Hl as [-> ->].
  - destruct (SclHigh b); cbn [fst snd]; [|on_lines Hw]. destruct (SdaHigh b); cbn [fst snd]; [|on_lines Hw].
    apply clear_inv_off. eapply wave_snoc; [exact Hw|constructor].
  - on_lines Hw.
  - destruct (SclHigh b); on_lines Hw.
  - destruct (SclHigh b); cbn [negb]; [|on_lines Hw].
    assert (u8 (pulses_ b + 1) = pulses_ b + 1) as Hu by (unfold u8; apply Z.mod_small; lia).
    cbn [pulses_ Scl pin_call field_update BusClear_eta]. rewrite Hu.
    destruct (SdaHigh b); cbn [orb]; [on_lines Hw|]. destruct (Z.eqb_spec (pulses_ b + 1) 9); on_lines Hw.
  - on_lines Hw.
  - destruct (SclHigh b); on_lines Hw.
  - destruct (SclHigh b); cbn [negb]; on_lines Hw.
  - apply clear_inv_off. eapply wave_snoc; [exact Hw|constructor].
Qed.

Lemma Step_inv s T now b : 0 <= T <= now -> now <= UINT64_MAX -> clear_inv s T b ->
  clear_inv (fst (Step now s b)) now (snd (Step now s b)).
Proof.
  intros HT Hnow Hinv. destruct (decide (s = ClearState.idle)) as [->|Hs].
  - destruct Hinv as (w & Hw & Hw'). destruct w; [by destruct Hw'|]. cbn [Step]. unfold StepIdle.
    destruct (abort_ b); [by apply clear_inv_off|]. destruct (requested_ b); [|by apply clear_inv_off].
    cbn [available pins_ field_update BusClear_eta]. destruct (available b) eqn:Ea; unfold available in *; cbn in *;
      rewrite Ea; cbn [negb]; [|by apply clear_inv_off].
    eapply clear_inv_on; [cbn; eapply wave_snoc; [exact Hw|constructor]|done|].
    unfold on_bus, available. cbn. repeat split; first [done|lia].
  - destruct Hinv as (w & Hw & Hw'). destruct w as [w|]; [|done]. destruct Hw' as (_ & Hon).
    assert (Step now s b = if abort_ b then (ClearState.idle, Finish HalStatus.timeout now b)
      else if u64 (now - edge_ b) <? kEdgeUs then (s, b) else StepEdge s now b) as -> by (by destruct s).
    destruct (abort_ b); [apply clear_inv_off; cbn; eapply wave_snoc; [exact Hw|constructor]|].
    destruct Hon as (Hl & Hat & He & Hav). rewrite u64_small by (unfold is_u64, UINT64_MAX in *; lia).
    destruct (Z.ltb_spec (now - edge_ b) kEdgeUs).
    + eapply clear_inv_on; [exact Hw|done|]. split; [exact Hl|]. cbn [snd]. split_and!; (lia || exact Hav).
    + apply (StepEdge_inv s T); [lia|done| |done|lia]. eapply clear_inv_on; [exact Hw|done|].
      exact (conj Hl (conj Hat (conj He Hav))).
Qed.

#[local] Arguments post_machine : simpl never.
#[local] Arguments u64 : simpl never.
#[local] Arguments u8 : simpl never.

Lemma Step_oblivious now s m b :
  Step now s (with_machine m b) = (fst (Step now s b), with_machine m (snd (Step now s b))).
Proof.
  destruct s; cbn; unfold StepIdle, StepEdge, SclHigh, SdaHigh, available; cbn; repeat case_match; done.
Qed.
Lemma tick_clear now b : ticking_ (clear_machine_ b) = false ->
  exists m, snd (tick (step_only (Step now)) b) = (snd (Step now (clear_state b) b)) <| clear_machine_ := m |> /\
    cs m = fst (Step now (clear_state b) b) /\ ticking_ m = false.
Proof.
  intros Ht. rewrite tick_oblivious; [|intros; apply Step_oblivious|exact Ht].
  eexists. split; [reflexivity|]. rewrite cs_post_machine. split; [|done]. by destruct (fst (Step _ _ _)).
Qed.

Record clear_ok (T : Z) b : Prop := {
  co_inv : clear_inv (clear_state b) T b;
  co_ticking : ticking_ (clear_machine_ b) = false;
  co_abort : abort_ b = false
}.

Lemma Step_abort now s b : abort_ (snd (Step now s b)) = abort_ b.
Proof. destruct s; cbn; unfold StepIdle, StepEdge; cbn; repeat case_match; done. Qed.

Lemma poll_ok T now b : clear_ok T b -> 0 <= T <= now -> now <= UINT64_MAX -> clear_ok now (snd (poll now b)).
Proof.
  intros [Hinv Ht Ha] HT Hnow. unfold poll. cbn [snd]. destruct (tick_clear now b Ht) as (m & -> & Hcs & Htk).
  split; [|exact Htk|cbn; by rewrite Step_abort].
  unfold clear_state at 1. cbn. rewrite Hcs. exact (Step_inv _ T now b HT Hnow Hinv).
Qed.

(** An abort gives the lines back at once. *)
Lemma abort_ok T b : clear_ok T b -> clear_ok T (abort b) /\ clear_state (abort b) = ClearState.idle /\
  result_ (abort b) = Some HalStatus.timeout.
Proof.
  intros [(w & Hw & Hinv) Ht Ha]. unfold abort. cbn zeta.
  match goal with |- context [tick _ ?x] => set (b1 := x) end.
  destruct (tick_clear 0 b1 Ht) as (m & -> & Hcs & Htk). change (clear_state b1) with (clear_state b) in *.
  assert (Step 0 (clear_state b) b1 =
    (ClearState.idle, match w with
       | None => b1 <| requested_ := false |> <| result_ := Some HalStatus.timeout |>
       | Some _ => Finish HalStatus.timeout 0 b1 end)) as Es.
  { destruct w as [w|]; [|by rewrite Hinv]. destruct Hinv as [Hn _]. by destruct (clear_state b). }
  rewrite Es in *. cbn [fst snd] in *. split; [|split; [exact Hcs|by destruct w]].
  split; [|exact Htk|by destruct w]. unfold clear_state. cbn. rewrite Hcs. apply clear_inv_off.
  destruct w; cbn; [eapply wave_snoc; [exact Hw|constructor]|exact Hw].
Qed.

Lemma reachable_time T b : reachable T b -> 0 <= T <= UINT64_MAX.
Proof. induction 1; unfold UINT64_MAX in *; lia. Qed.

Lemma clear_reachable_ok T b : reachable T b -> clear_ok T b.
Proof.
  induction 1 as [p e|T now b Hr IH Hnow|T op b Hr IH Hop].
  - split; [|done|done]. apply clear_inv_off. constructor.
  - pose proof (reachable_time _ _ Hr). apply (poll_ok T); [done|lia|lia].
  - destruct op as [|now| |e]; [|by destruct (Hop now)|by apply abort_ok|]; destruct IH as [(w & Hw & Hinv) Ht Ha];
      (split; [exists w; by destruct w|exact Ht|exact Ha]).
Qed.

(** ** Progress

    The polls left when the clock line is never held. *)
Definition rank (s : ClearState.ClearState) (pulses : Z) : Z :=
  match s with
  | ClearState.idle => 0
  | ClearState.initial => 32
  | ClearState.low => 3 * (9 - pulses) + 4
  | ClearState.rising => 3 * (9 - pulses) + 3
  | ClearState.high => 3 * (9 - pulses) + 2
  | ClearState.stop_low => 4 | ClearState.stop_rising => 3 | ClearState.stop_high => 2 | ClearState.check => 1
  end.
Definition scl_free (p : BusClearPins (E:=E)) : Prop := forall e, default (fun _ => false) (pin_scl_high p) e = true.

Lemma StepEdge_rank s now b w : scl_free (pins_ b) -> lines s (pulses_ b) w ->
  let r := StepEdge s now b in
  rank (fst r) (pulses_ (snd r)) < rank s (pulses_ b) /\ pins_ (snd r) = pins_ b /\ requested_ (snd r) = requested_ b /\
  (fst r = ClearState.idle -> is_Some (result_ (snd r))).
Proof.
  intros Hscl Hl. assert (SclHigh b = true) as Hs by apply Hscl. destruct s; cbn [StepEdge lines] in *; rewrite ?Hs; cbn [negb].
  - done.
  - destruct Hl as (_ & _ & _ & Hp). destruct (SdaHigh b); cbn; rewrite ?Hp; (split; [lia|]); by split_and!.
  - cbn. split; [lia|]. by split_and!.
  - cbn. split; [lia|]. by split_and!.
  - destruct Hl as (_ & _ & _ & Hp).
    assert (u8 (pulses_ b + 1) = pulses_ b + 1) as Hu by (unfold u8; apply Z.mod_small; lia).
    cbn [pulses_ Scl pin_call field_update BusClear_eta]. rewrite Hu.
    destruct (_ || _); cbn; rewrite ?Hu; (split; [lia|]); by split_and!.
  - cbn. split; [lia|]. by split_and!.
  - cbn. split; [lia|]. by split_and!.
  - cbn. split; [lia|]. by split_and!.
  - cbn. split; [lia|]. by split_and!.
Qed.

Definition polls (ts : list Z) b : BusClear := foldl (fun b now => snd (poll now b)) b ts.
(** Polls at least [kEdgeUs] after [T] and after each other. *)
Fixpoint spaced (T : Z) (ts : list Z) : Prop :=
  match ts with [] => True | now :: ts => T + kEdgeUs <= now <= UINT64_MAX /\ spaced now ts end.
Definition finished b : Prop := clear_state b = ClearState.idle /\ requested_ b = false /\ is_Some (result_ b).

Lemma poll_finished T now b : clear_ok T b -> finished b -> finished (snd (poll now b)).
Proof.
  intros [_ Ht Ha] (Hs & Hr & Hres). unfold poll. cbn [snd]. destruct (tick_clear now b Ht) as (m & -> & Hcs & _).
  rewrite Hs in *. cbn [Step] in *. unfold StepIdle in *. rewrite Ha, Hr in *. by split.
Qed.
Lemma poll_rank T now b : clear_ok T b -> clear_state b <> ClearState.idle -> requested_ b = false ->
  scl_free (pins_ b) -> T + kEdgeUs <= now <= UINT64_MAX ->
  let b' := snd (poll now b) in
  pins_ b' = pins_ b /\ requested_ b' = false /\ rank (clear_state b') (pulses_ b') < rank (clear_state b) (pulses_ b) /\
  (clear_state b' = ClearState.idle -> is_Some (result_ b')).
Proof.
  intros [(w & Hw & Hinv) Ht Ha] Hs Hr Hscl HT. unfold poll. cbn [snd]. destruct (tick_clear now b Ht) as (m & -> & Hcs & _).
  destruct w as [w|]; [|done]. destruct Hinv as (_ & Hl & Hat & He & _).
  assert (Step now (clear_state b) b = StepEdge (clear_state b) now b) as Es.
  { assert ((u64 (now - edge_ b) <? kEdgeUs) = false) as Hu.
    { rewrite u64_small by (unfold is_u64, UINT64_MAX, kEdgeUs in *; lia). apply Z.ltb_ge. lia. }
    destruct (clear_state b); [done|..]; cbn [Step]; by rewrite Ha, Hu. }
  rewrite Es in *. destruct (StepEdge_rank (clear_state b) now b w Hscl Hl) as (Hrk & Hp & Hq & Hd).
  change (clear_state (_ <| clear_machine_ := m |>)) with (cs m). rewrite Hcs. cbn. rewrite Hq. by split_and!.
Qed.

Lemma polls_finish ts T b : clear_ok T b -> 0 <= T -> scl_free (pins_ b) -> spaced T ts ->
  finished b \/ (clear_state b <> ClearState.idle /\ requested_ b = false /\ rank (clear_state b) (pulses_ b) <= Z.of_nat (length ts)) ->
  finished (polls ts b).
Proof.
  revert T b. induction ts as [|now ts IH]; intros T b Hok HT Hscl Hsp Hst.
  - destruct Hst as [?|(Hs & _ & Hrk)]; [done|]. destruct (co_inv _ _ Hok) as ([w|] & _ & Hinv); [|done].
    destruct Hinv as (_ & Hl & _). destruct (clear_state b); cbn in *; (done || lia).
  - destruct Hsp as [Hnow Hsp]. cbn [polls foldl]. fold (polls ts (snd (poll now b))).
    assert (clear_ok now (snd (poll now b))) as Hok' by (apply (poll_ok T); unfold kEdgeUs in *; [done|lia|lia]).
    destruct Hst as [Hf|(Hs & Hr & Hrk)].
    + apply (IH now); [done|unfold kEdgeUs in *; lia| |done|left; by apply (poll_finished T)].
      unfold poll. cbn [snd]. destruct (tick_clear now b (co_ticking _ _ Hok)) as (m & -> & _).
      destruct Hf as (Hs & Hr & _). rewrite Hs. cbn [Step]. unfold StepIdle. by rewrite (co_abort _ _ Hok), Hr.
    + destruct (poll_rank T now b Hok Hs Hr Hscl Hnow) as (Hp & Hr' & Hrk' & Hd).
      apply (IH now); [done|unfold kEdgeUs in *; lia|by rewrite Hp|done|].
      destruct (decide (clear_state (snd (poll now b)) = ClearState.idle)) as [Hi|Hi]; [left; exact (conj Hi (conj Hr' (Hd Hi)))|right].
      split_and!; [done|done|]. cbn [length] in Hrk. lia.
Qed.

(** C18: Whatever the lines read and whenever it is polled, a bus clear drives a
    legal waveform: changes at least 5 us apart, at most ten falling clock
    edges, no START, the data line let go only as a STOP; the peripheral has
    its pins back exactly when the machine is idle, and an abort in any state
    gives them back at once and reports [timeout]. *)
Theorem bus_clear_waveform T b : reachable T b ->
  (exists w, wave (calls b) w /\ (w = None <-> clear_state b = ClearState.idle)) /\
  wave (calls (abort b)) None /\ clear_state (abort b) = ClearState.idle /\ result_ (abort b) = Some HalStatus.timeout.
Proof.
  intros Hr. pose proof (clear_reachable_ok T b Hr) as Hok. destruct (abort_ok T b Hok) as (Hab & Hid & Hres).
  split; [|split; [|done]].
  - destruct (co_inv _ _ Hok) as (w & Hw & Hinv). exists w. split; [exact Hw|]. destruct w; [|done].
    destruct Hinv as [Hn _]. split; [done|]. intros. by destruct Hn.
  - destruct (co_inv _ _ Hab) as (w & Hw & Hinv). rewrite Hid in Hinv. destruct w; [by destruct Hinv|exact Hw].
Qed.

(** While no device holds the clock line, a bus clear that was started ends:
    thirty-three polls at least 5 us apart reach a result and give the pins
    back. *)
Theorem bus_clear_finishes T b ts : reachable T b -> clear_state b = ClearState.idle -> scl_free (pins_ b) ->
  spaced T ts -> (33 <= length ts)%nat -> finished (polls ts (start b)).
Proof.
  intros Hr Hid Hscl Hsp Hlen. pose proof (clear_reachable_ok T b Hr) as Hok. pose proof (reachable_time T b Hr) as HT.
  assert (clear_ok T (start b)) as Hok1 by (apply (clear_reachable_ok T), (reachable_other T OStart b Hr); done).
  destruct ts as [|now ts]; [cbn in Hlen; lia|]. destruct Hsp as [Hnow Hsp]. cbn [polls foldl].
  fold (polls ts (snd (poll now (start b)))). unfold kEdgeUs in Hnow.
  assert (clear_ok now (snd (poll now (start b)))) as Hok2 by (apply (poll_ok T); [done|lia|lia]).
  apply (polls_finish ts now); [done|lia| |done|].
  all: unfold poll; cbn [snd]; destruct (tick_clear now (start b) (co_ticking _ _ Hok1)) as (m & -> & Hcs & _);
    change (clear_state (start b)) with (clear_state b) in *; rewrite Hid in *; cbn [Step] in *; unfold StepIdle in *;
    rewrite (co_abort _ _ Hok1) in *; cbn [requested_ start field_update BusClear_eta] in *;
    destruct (negb _) eqn:Ea; try exact Hscl.
  - left. split; [exact Hcs|]. split; [done|]. by eexists.
  - right. change (clear_state (_ <| clear_machine_ := m |>)) with (cs m). rewrite Hcs. cbn. split_and!; [done|done|].
    cbn in Hlen. lia.
Qed.
End waveform.
Arguments BusClearPins : clear implicits.
Arguments BusClear : clear implicits.

(** ** A target that lets go of the data line after four clocks *)

Definition held_pins : BusClearPins Z := {|
  pin_enter := Some (fun e => e); pin_leave := Some (fun e => e);
  pin_scl := Some (fun release e => if release : bool then e + 1 else e); pin_sda := Some (fun release e => e);
  pin_scl_high := Some (fun _ => true); pin_sda_high := Some (fun e => 4 <=? e)
|}.
Definition every_10us : list Z := (fun n => 10 * Z.of_nat n) <$> seq 1 33.

Example held_cleared : result_ (polls every_10us (start (new_bus_clear held_pins 0))) = Some HalStatus.ok /\
  length (calls (polls every_10us (start (new_bus_clear held_pins 0)))) = 14%nat.
Proof. vm_compute. split; reflexivity. Qed.

Lemma bus_clear_finishes_witness : finished (polls every_10us (start (new_bus_clear held_pins 0))).
Proof.
  apply (bus_clear_finishes 0); [constructor|reflexivity|done| |vm_compute; lia].
  vm_compute. repeat split; discriminate.
Defined.

(** Three polls into it, with the clock low. *)
Abbreviation held_midway :=
  (perform (OPoll 30) (perform (OPoll 20) (perform (OPoll 10) (perform OStart (new_bus_clear held_pins 0))))).
Lemma held_reachable : reachable 30 held_midway.
Proof.
  apply (reachable_poll 20); [|vm_compute; split; discriminate].
  apply (reachable_poll 10); [|vm_compute; split; discriminate].
  apply (reachable_poll 0); [|vm_compute; split; discriminate].
  apply (reachable_other 0 OStart); [constructor|discriminate].
Qed.
Lemma bus_clear_waveform_witness : clear_state held_midway = ClearState.rising /\ wave (calls (abort held_midway)) None.
Proof.
  split; [vm_compute; reflexivity|]. exact (proj1 (proj2 (bus_clear_waveform 30 held_midway held_reachable))).
Defined.
