(* ===== verification/SdProtocol.v ===== *)
(** * The SD card wire protocol (src/lib/storage/sd/protocol.h, sd/read.h) *)

From S2P Require Import Prelude Foundation HalBase Spi.

Module Sd.
Definition little (b : list Z) : Z :=
  foldl Z.lor 0 (imap (fun i byte => Z.shiftl byte (8 * Z.of_nat i)) (take 4 b)).

(** ** CRC-16 of a data block *)

Definition crc16_bit (crc : Z) : Z :=
  u16 (Z.lxor (Z.shiftl crc 1) (if negb (Z.land crc 0x8000 =? 0) then 0x1021 else 0)).
Definition crc16_byte (crc byte : Z) : Z := Nat.iter 8 crc16_bit (Z.lxor crc (u16 (Z.shiftl byte 8))).
Definition crc16 (bytes : list Z) : Z := foldl crc16_byte 0 bytes.

(** ** The response to a read *)

(** The two loops over idle bytes: at most [n] of them. *)
Fixpoint skip_idle (n : nat) (wire : list Z) (pos : nat) : nat :=
  match n with
  | O => pos
  | S n => if bool_decide (wire !! pos = Some 0xff) then skip_idle n wire (S pos) else pos
  end.

Definition data (wire : list Z) (len wait_bytes : nat) : option (list Z) :=
  let size := length wire in
  let pos := skip_idle 8 wire 0 in
  if (size <=? pos)%nat || (pos =? 8)%nat || negb (wire !!! pos =? 0) then None
  else
    let pos := S pos in
    let end_ := (pos + wait_bytes)%nat in
    let pos := skip_idle wait_bytes wire pos in
    if (size <=? pos)%nat || (end_ <=? pos)%nat || negb (wire !!! pos =? 0xfe) || (size - S pos <? len)%nat ||
       (size - S pos - len <? 2)%nat then None
    else
      let pos := S pos in
      let payload := take len (drop pos wire) in
      let expected := u16 (Z.lor (Z.shiftl (wire !!! (pos + len)%nat) 8) (wire !!! (pos + len + 1)%nat)) in
      if crc16 payload =? expected then Some payload else None.

(** ** Card-specific data *)

Record Card := mkCard { sectors : Z; maximum_hz : Z }.
Definition units : list Z := [100000; 1000000; 10000000; 100000000].
Definition factors : list Z := [0; 10; 12; 13; 15; 20; 25; 30; 35; 40; 45; 50; 55; 60; 70; 80].
Definition card (csd : list Z) : option Card :=
  if negb (length csd =? 16)%nat || negb (Z.shiftr (csd !!! 0%nat) 6 =? 1) || negb (Z.land (csd !!! 5%nat) 15 =? 9) then None
  else
    let speed := csd !!! 3%nat in
    let factor := factors !!! Z.to_nat (Z.land (Z.shiftr speed 3) 15) in
    if negb (Z.land speed 0x80 =? 0) || (Z.land speed 7 >=? 4) || (factor =? 0) then None
    else
      let size := Z.lor (Z.lor (Z.shiftl (Z.land (csd !!! 7%nat) 0x3f) 16) (Z.shiftl (csd !!! 8%nat) 8)) (csd !!! 9%nat) in
      Some (mkCard ((size + 1) * 1024) (u32 ((units !!! Z.to_nat (Z.land speed 7)) / 10 * factor))).

(** ** Commands *)

Definition crc7_bit (s : Z * Z) : Z * Z :=
  let '(crc, value) := s in
  let crc := u8 (Z.shiftl crc 1) in
  let crc := if negb (Z.land (Z.lxor value crc) 0x80 =? 0) then Z.lxor crc 0x09 else crc in
  (crc, u8 (Z.shiftl value 1)).
Definition crc7_byte (crc byte : Z) : Z := fst (Nat.iter 8 crc7_bit (crc, byte)).
Definition command (index argument : Z) : list Z :=
  let bytes := [u8 (Z.lor 0x40 index); u8 (Z.shiftr argument 24); u8 (Z.shiftr argument 16); u8 (Z.shiftr argument 8);
                u8 argument] in
  bytes ++ [u8 (Z.lor (Z.shiftl (foldl crc7_byte 0 bytes) 1) 1)].

(** ** [read_actions] *)

Definition sub_span (s : Span) (offset size : Z) : Span := mkSpan (sp_data s + offset) size.
Definition read_actions (command wire : Span) : list Spi.Action :=
  let wire := if sp_size wire <? 5 then no_span else wire in
  let response := if span_empty wire then wire else sub_span wire 0 1 in
  let token := if span_empty wire then wire else sub_span wire 1 1 in
  [Spi.write_action command; Spi.read_until_action response 0xff 8; Spi.check_response_action response 0 0xff 0xff;
   Spi.read_until_action token 0xff 0; Spi.check_response_action token 0xfe 0xff 0xff;
   Spi.read_action (if span_empty wire then wire else sub_span wire 2 (sp_size wire - 2)) 0xff].
End Sd.

Example crc16_check_value : Sd.crc16 [49; 50; 51; 52; 53; 54; 55; 56; 57] = 0x31c3.
Proof. vm_compute. reflexivity. Qed.
(** CMD0 and CMD8 as every SD host sends them. *)
Example command_frames : Sd.command 0 0 = [0x40; 0; 0; 0; 0; 0x95] /\ Sd.command 8 0x1aa = [0x48; 0; 0; 1; 0xaa; 0x87].
Proof. vm_compute. split; reflexivity. Qed.

Import Sd.

(** ** Frames

    What a card sends: idle bytes, the response, idle bytes, the token, the
    block and its CRC. *)
Definition frame (k j : nat) (payload : list Z) (c : Z) : list Z :=
  replicate k 0xff ++ 0 :: replicate j 0xff ++ 0xfe :: payload ++ [Z.shiftr c 8; Z.land c 0xff].

Lemma skip_idle_spec n wire pos : exists k, skip_idle n wire pos = (pos + k)%nat /\ (k <= n)%nat /\
  (forall i, (i < k)%nat -> wire !! (pos + i)%nat = Some 0xff) /\
  ((k < n)%nat -> wire !! (pos + k)%nat <> Some 0xff).
Proof.
  revert pos. induction n as [|n IH]; intros pos; cbn [skip_idle].
  - exists 0%nat. split_and!; lia || intros; lia.
  - case_bool_decide as E.
    + destruct (IH (S pos)) as (k & -> & Hk & Hi & He). exists (S k). split; [lia|]. split; [lia|]. split.
      * intros [|i] Hlt; [by rewrite Nat.add_0_r|]. replace (pos + S i)%nat with (S pos + i)%nat by lia. apply Hi. lia.
      * intros Hlt. replace (pos + S k)%nat with (S pos + k)%nat by lia. apply He. lia.
    + exists 0%nat. rewrite Nat.add_0_r. split; [done|]. split; [lia|]. split; [lia|]. done.
Qed.

(** The loop on idle bytes followed by something else. *)
Lemma skip_idle_run n pre k x rest : (k < n)%nat -> x <> 0xff ->
  skip_idle n (pre ++ replicate k 0xff ++ x :: rest) (length pre) = (length pre + k)%nat.
Proof.
  revert n pre. induction k as [|k IH]; intros [|n] pre Hk Hx; try lia; cbn [skip_idle].
  - change (replicate 0 0xff) with (@nil Z). rewrite app_nil_l. rewrite list_lookup_middle by done. rewrite bool_decide_false by congruence. lia.
  - rewrite replicate_S, <- app_comm_cons. rewrite list_lookup_middle by done. rewrite bool_decide_true by done.
    replace (pre ++ 0xff :: replicate k 0xff ++ x :: rest) with ((pre ++ [0xff]) ++ replicate k 0xff ++ x :: rest)
      by by rewrite <- app_assoc.
    replace (S (length pre)) with (length (pre ++ [0xff])) by (rewrite length_app; cbn; lia).
    rewrite IH by (done || lia). rewrite length_app. cbn. lia.
Qed.

(** ** CRC-16 distinguishes blocks that differ in one byte *)

Definition is_u16 (x : Z) : Prop := 0 <= x < 2 ^ 16.

Lemma crc16_bit_u16 c : is_u16 (crc16_bit c).
Proof. unfold crc16_bit, u16, is_u16. apply Z.mod_pos_bound. lia. Qed.
Lemma top_bit c : is_u16 c -> negb (Z.land c 0x8000 =? 0) = Z.testbit c 15.
Proof.
  intros Hc. change 0x8000 with (Z.shiftl 1 15). destruct (Z.testbit c 15) eqn:E.
  - apply negb_true_iff, Z.eqb_neq. intros H0. apply (f_equal (fun x => Z.testbit x 15)) in H0.
    rewrite Z.land_spec, E, Z.shiftl_spec, Z.bits_0 in H0 by lia. done.
  - apply negb_false_iff, Z.eqb_eq. apply Z.bits_inj'. intros n Hn. rewrite Z.land_spec, Z.shiftl_spec, Z.bits_0 by lia.
    destruct (decide (n = 15)) as [->|Hne]; [by rewrite E|].
    destruct (Z.testbit 1 (n - 15)) eqn:E1; [|by rewrite andb_false_r].
    destruct (Z.ltb_spec (n - 15) 0); [by rewrite Z.testbit_neg_r in E1|].
    change 1 with (2 ^ 0) in E1. rewrite Z.pow2_bits_eqb in E1 by lia. apply Z.eqb_eq in E1. lia.
Qed.

(** The bits of a step: the top bit moves to the bottom, the others up. *)
Lemma crc16_bit_bits c n : is_u16 c -> 0 <= n < 16 ->
  Z.testbit (crc16_bit c) n = xorb (if n =? 0 then false else Z.testbit c (n - 1)) (Z.testbit c 15 && Z.testbit 0x1021 n).
Proof.
  intros Hc Hn. unfold crc16_bit, u16. rewrite top_bit by done. rewrite Z.mod_pow2_bits_low by lia.
  rewrite Z.lxor_spec, Z.shiftl_spec by lia. f_equal.
  - destruct (Z.eqb_spec n 0) as [->|]; [by rewrite Z.testbit_neg_r by lia|done].
  - destruct (Z.testbit c 15); [done|]. by rewrite Z.bits_0.
Qed.

Lemma crc16_bit_inj a b : is_u16 a -> is_u16 b -> crc16_bit a = crc16_bit b -> a = b.
Proof.
  intros Ha Hb E.
  assert (Z.testbit a 15 = Z.testbit b 15) as Ht.
  { pose proof (f_equal (fun x => Z.testbit x 0) E) as E0. cbn beta in E0.
    rewrite !crc16_bit_bits in E0 by (done || lia). change (Z.testbit 0x1021 0) with true in E0.
    by rewrite !Z.eqb_refl, !andb_true_r, !xorb_false_l in E0. }
  apply Z.bits_inj'. intros n Hn. destruct (Z.ltb_spec n 16).
  - destruct (decide (n = 15)) as [->|Hne]; [done|].
    pose proof (f_equal (fun x => Z.testbit x (n + 1)) E) as En. cbn beta in En.
    rewrite !crc16_bit_bits, Ht in En by (done || lia). rewrite (proj2 (Z.eqb_neq (n + 1) 0)) in En by lia.
    replace (n + 1 - 1) with n in En by lia. by destruct (Z.testbit a n), (Z.testbit b n), (Z.testbit b 15 && _).
  - unfold is_u16 in *. rewrite !(Z.bits_above_log2); try done; try lia.
    all: destruct (decide (a = 0)), (decide (b = 0)); subst; cbn; try lia; apply (Z.lt_le_trans _ 16); try lia;
      apply Z.log2_lt_pow2; lia.
Qed.

Lemma iter_crc16_u16 n c : is_u16 c -> is_u16 (Nat.iter n crc16_bit c).
Proof. destruct n; cbn; [done|]. intros. apply crc16_bit_u16. Qed.
Lemma iter_crc16_S n c : is_u16 (Nat.iter (S n) crc16_bit c).
Proof. apply crc16_bit_u16. Qed.
Lemma iter_crc16_inj n a b : is_u16 a -> is_u16 b -> Nat.iter n crc16_bit a = Nat.iter n crc16_bit b -> a = b.
Proof.
  intros Ha Hb. induction n as [|n IH]; cbn; [done|]. intros E. apply IH, crc16_bit_inj; auto using iter_crc16_u16.
Qed.
Lemma lxor_u16 a b : is_u16 a -> is_u16 b -> is_u16 (Z.lxor a b).
Proof.
  unfold is_u16. intros Ha Hb. split; [apply Z.lxor_nonneg; lia|].
  destruct (Z.eq_dec (Z.lxor a b) 0) as [->|Hne]; [lia|].
  apply Z.log2_lt_cancel. apply (Z.le_lt_trans _ _ _ (Z.log2_lxor a b ltac:(lia) ltac:(lia))).
  change (Z.log2 (2 ^ 16)) with 16.
  destruct (decide (a = 0)), (decide (b = 0)); subst; cbn; try lia; apply Z.max_lub_lt; try lia; apply Z.log2_lt_pow2; lia.
Qed.
Lemma high_byte x : is_byte x -> u16 (Z.shiftl x 8) = x * 256.
Proof. intros Hx. unfold u16, is_byte in *. rewrite Z.shiftl_mul_pow2 by lia. apply Z.mod_small. lia. Qed.
Lemma crc16_byte_iter c x : crc16_byte c x = Nat.iter 8 crc16_bit (Z.lxor c (u16 (Z.shiftl x 8))).
Proof. reflexivity. Qed.
#[local] Opaque crc16_byte.

Lemma crc16_byte_inj a b x y : is_u16 a -> is_u16 b -> is_byte x -> is_byte y -> crc16_byte a x = crc16_byte b y ->
  Z.lxor a (x * 256) = Z.lxor b (y * 256).
Proof.
  intros Ha Hb Hx Hy E. rewrite !crc16_byte_iter, !high_byte in E by done.
  refine (iter_crc16_inj 8 _ _ _ _ E); apply lxor_u16; unfold is_u16, is_byte in *; lia.
Qed.
Lemma crc16_byte_u16 c x : is_u16 (crc16_byte c x).
Proof. rewrite crc16_byte_iter. generalize (Z.lxor c (u16 (Z.shiftl x 8))). intros y. apply (iter_crc16_S 7). Qed.
Lemma crc16_u16 l : is_u16 (crc16 l).
Proof.
  unfold crc16. destruct l as [|x l] using rev_ind; [unfold is_u16; cbn; lia|]. rewrite foldl_snoc. apply crc16_byte_u16.
Qed.
Lemma foldl_crc16_inj l a b : is_u16 a -> is_u16 b -> bytes_ok l -> foldl crc16_byte a l = foldl crc16_byte b l -> a = b.
Proof.
  revert a b. induction l as [|x l IH]; intros a b Ha Hb Hl E; cbn [foldl] in E; [done|]. apply Forall_cons in Hl as [Hx Hl].
  apply IH in E; [|apply crc16_byte_u16..|done]. apply crc16_byte_inj in E; [|done..].
  apply (f_equal (fun z => Z.lxor z (x * 256))) in E. by rewrite !Z.lxor_assoc, !Z.lxor_nilpotent, !Z.lxor_0_r in E.
Qed.
Lemma crc16_detects_byte_error pre x y post : bytes_ok pre -> is_byte x -> is_byte y -> bytes_ok post -> x <> y ->
  crc16 (pre ++ x :: post) <> crc16 (pre ++ y :: post).
Proof.
  intros Hpre Hx Hy Hpost Hne E. unfold crc16 in E. rewrite !foldl_app in E. cbn [foldl] in E.
  apply foldl_crc16_inj in E; [|apply crc16_byte_u16..|done].
  apply crc16_byte_inj in E; [|apply crc16_u16|apply crc16_u16|done..].
  apply (f_equal (Z.lxor (foldl crc16_byte 0 pre))) in E. rewrite <- !Z.lxor_assoc, Z.lxor_nilpotent, !Z.lxor_0_l in E. lia.
Qed.

(** ** [data] accepts exactly the frames *)

Lemma join_bytes hi lo : is_byte hi -> is_byte lo -> u16 (Z.lor (Z.shiftl hi 8) lo) = hi * 256 + lo.
Proof.
  intros Hh Hl. unfold is_byte, u16 in *. rewrite (Z.shiftl_mul_pow2) by lia.
  assert (Z.lor (hi * 2 ^ 8) lo = hi * 256 + lo) as ->.
  { rewrite <- Z.lxor_lor, <- Z.add_nocarry_lxor; [lia|..];
      (apply Z.bits_inj'; intros n Hn; rewrite Z.land_spec, Z.bits_0;
       destruct (Z.ltb_spec n 8); [by rewrite Z.mul_pow2_bits_low by lia|];
       rewrite (Z.bits_above_log2 lo), andb_false_r; [done|lia|];
       destruct (decide (lo = 0)) as [->|]; [cbn; lia|]; apply (Z.lt_le_trans _ 8); [apply Z.log2_lt_pow2; lia|lia]). }
  apply Z.mod_small. lia.
Qed.
Lemma split_word c : is_u16 c -> is_byte (Z.shiftr c 8) /\ is_byte (Z.land c 0xff) /\
  Z.shiftr c 8 * 256 + Z.land c 0xff = c.
Proof.
  intros Hc. unfold is_u16, is_byte in *. change 0xff with (Z.ones 8). rewrite Z.shiftr_div_pow2, Z.land_ones by lia.
  pose proof (Z.div_mod c (2 ^ 8) ltac:(lia)). pose proof (Z.mod_pos_bound c (2 ^ 8) ltac:(lia)).
  split_and!; lia.
Qed.

(** The same for the two bytes the host sends. *)
Lemma crc_bytes c : is_u16 c -> is_byte (u8 (Z.shiftr c 8)) /\ is_byte (u8 c) /\ u8 (Z.shiftr c 8) * 256 + u8 c = c.
Proof.
  intros Hc. destruct (split_word c Hc) as (Bh & Bl & Bc). unfold u8. change 0xff with (Z.ones 8) in *.
  rewrite Z.land_ones in * by lia. unfold is_byte in *. rewrite (Z.mod_small (Z.shiftr c 8)) by lia. done.
Qed.

Definition lead (k j : nat) : list Z := replicate k 0xff ++ 0 :: replicate j 0xff ++ [0xfe].
Lemma length_lead k j : length (lead k j) = (k + j + 2)%nat.
Proof. unfold lead. rewrite length_app. cbn [length]. rewrite length_app, !length_replicate. cbn. lia. Qed.
Lemma frame_lead k j p c rest : frame k j p c ++ rest = lead k j ++ p ++ Z.shiftr c 8 :: Z.land c 0xff :: rest.
Proof. unfold frame, lead. by rewrite <- !app_assoc, <- !app_comm_cons, <- !app_assoc, <- !app_comm_cons, <- !app_assoc. Qed.

(** The checks after the two waits, on a wire that starts with [lead]. *)
Lemma data_lead k j len wait wire : (k < 8)%nat -> (j < wait)%nat -> (exists l, wire = lead k j ++ l) ->
  data wire len wait =
    let pos := (k + j + 2)%nat in
    if (length wire - pos <? len)%nat || (length wire - pos - len <? 2)%nat then None
    else if crc16 (take len (drop pos wire)) =? u16 (Z.lor (Z.shiftl (wire !!! (pos + len)%nat) 8) (wire !!! (pos + len + 1)%nat))
         then Some (take len (drop pos wire)) else None.
Proof.
  intros Hk Hj (l & E). pose proof (length_lead k j) as Hlen.
  assert (skip_idle 8 wire 0 = k) as Hs1.
  { rewrite E. unfold lead. rewrite <- app_assoc, <- app_comm_cons. by apply (skip_idle_run 8 [] k 0). }
  assert (skip_idle wait wire (S k) = (S k + j)%nat) as Hs2.
  { rewrite E. unfold lead. rewrite <- app_assoc, <- app_comm_cons, <- app_assoc.
    replace (replicate k 0xff ++ 0 :: replicate j 0xff ++ [0xfe] ++ l)
      with ((replicate k 0xff ++ [0]) ++ replicate j 0xff ++ 0xfe :: l) by by rewrite <- app_assoc.
    replace (S k) with (length (replicate k 0xff ++ [0])) by (rewrite length_app, length_replicate; cbn; lia).
    by apply skip_idle_run. }
  assert (wire !!! k = 0) as Hr.
  { apply list_lookup_total_correct. rewrite E. unfold lead. rewrite <- app_assoc, <- app_comm_cons.
    apply list_lookup_middle. by rewrite length_replicate. }
  assert (wire !!! (S k + j)%nat = 0xfe) as Ht.
  { apply list_lookup_total_correct. rewrite E, lookup_app_l by (rewrite Hlen; lia). unfold lead.
    replace (replicate k 0xff ++ 0 :: replicate j 0xff ++ [0xfe]) with ((replicate k 0xff ++ 0 :: replicate j 0xff) ++ [0xfe])
      by by rewrite <- app_assoc.
    apply list_lookup_middle. rewrite length_app. cbn [length]. rewrite !length_replicate. lia. }
  assert (k + j + 2 <= length wire)%nat as Hw by (rewrite E, length_app; lia).
  unfold data. rewrite Hs1. cbn zeta. rewrite Hs2, Hr, Ht. rewrite Z.eqb_refl. cbn [negb].
  destruct (Nat.leb_spec (length wire) k); [lia|]. destruct (Nat.eqb_spec k 8); [lia|]. cbn [orb].
  destruct (Nat.leb_spec (length wire) (S k + j)); [lia|]. destruct (Nat.leb_spec (S k + wait) (S k + j)); [lia|].
  rewrite Z.eqb_refl. cbn [orb negb]. by replace (S (S k + j)) with (k + j + 2)%nat by lia.
Qed.

Lemma data_frame k j p rest wait : (k < 8)%nat -> (j < wait)%nat ->
  data (frame k j p (crc16 p) ++ rest) (length p) wait = Some p.
Proof.
  intros Hk Hj. rewrite frame_lead, (data_lead k j) by eauto. cbn zeta.
  pose proof (length_lead k j) as Hlen. destruct (split_word (crc16 p) (crc16_u16 p)) as (Hh & Hl & Hc).
  rewrite <- Hlen, drop_app_length. rewrite take_app_length.
  assert ((lead k j ++ p ++ Z.shiftr (crc16 p) 8 :: Z.land (crc16 p) 0xff :: rest) !!! (length (lead k j) + length p)%nat
          = Z.shiftr (crc16 p) 8) as ->.
  { apply list_lookup_total_correct. rewrite app_assoc. apply list_lookup_middle. by rewrite length_app. }
  assert ((lead k j ++ p ++ Z.shiftr (crc16 p) 8 :: Z.land (crc16 p) 0xff :: rest) !!! (length (lead k j) + length p + 1)%nat
          = Z.land (crc16 p) 0xff) as ->.
  { apply list_lookup_total_correct.
    replace (lead k j ++ p ++ Z.shiftr (crc16 p) 8 :: Z.land (crc16 p) 0xff :: rest)
      with ((lead k j ++ p ++ [Z.shiftr (crc16 p) 8]) ++ Z.land (crc16 p) 0xff :: rest) by by rewrite <- !app_assoc.
    apply list_lookup_middle. rewrite !length_app. cbn. lia. }
  rewrite join_bytes, Hc, Z.eqb_refl by done. rewrite !length_app. cbn [length].
  destruct (Nat.ltb_spec (length (lead k j) + (length p + S (S (length rest))) - length (lead k j)) (length p)); [lia|].
  destruct (Nat.ltb_spec (length (lead k j) + (length p + S (S (length rest))) - length (lead k j) - length p) 2); [lia|done].
Qed.

Lemma idle_prefix wire pos k : (forall i, (i < k)%nat -> wire !! (pos + i)%nat = Some 0xff) ->
  drop pos wire = replicate k 0xff ++ drop (pos + k) wire.
Proof.
  revert pos. induction k as [|k IH]; intros pos Hi; [by rewrite Nat.add_0_r|].
  rewrite replicate_S, <- app_comm_cons. rewrite (drop_S wire 0xff pos).
  - f_equal. replace (pos + S k)%nat with (S pos + k)%nat by lia. apply IH.
    intros i Hlt. replace (S pos + i)%nat with (pos + S i)%nat by lia. apply Hi. lia.
  - rewrite <- (Nat.add_0_r pos). apply Hi. lia.
Qed.
Lemma drop_lookup_total (l : list Z) i : (i < length l)%nat -> drop i l = l !!! i :: drop (S i) l.
Proof. intros Hi. apply drop_S. by apply list_lookup_lookup_total_lt. Qed.

(** What the first bytes of [wire] have to be for [p] to be a block that a card
    sent and that arrived intact: fewer than eight idle bytes, the response 0,
    fewer than [wait] idle bytes, the token, the block and its CRC-16, high byte
    first. *)
Definition block_answer (wire : list Z) (len wait : nat) (p : list Z) : Prop :=
  exists k j hi lo rest, (k < 8)%nat /\ (j < wait)%nat /\ length p = len /\
    wire = replicate k 0xff ++ [0] ++ replicate j 0xff ++ [0xfe] ++ p ++ [hi; lo] ++ rest /\
    u16 (Z.lor (Z.shiftl hi 8) lo) = crc16 p.

Lemma data_answer wire len wait p : data wire len wait = Some p -> block_answer wire len wait p.
Proof.
  intros E. assert (exists k j l, (k < 8)%nat /\ (j < wait)%nat /\ wire = lead k j ++ l) as (k & j & l & Hk & Hj & Hl).
  { unfold data in E. destruct (skip_idle_spec 8 wire 0) as (k & Hs & Hk & Hi & _). rewrite Hs in E. cbn [Nat.add] in E.
    destruct (_ || _) eqn:E1 in E; [done|]. rewrite !orb_false_iff, negb_false_iff in E1. destruct E1 as [[E1 E2] E3].
    apply Nat.leb_gt in E1. apply Nat.eqb_neq in E2. apply Z.eqb_eq in E3. cbn zeta in E.
    destruct (skip_idle_spec wait wire (S k)) as (j & Hs' & Hj & Hi' & _). rewrite Hs' in E.
    destruct (_ || _) eqn:E4 in E; [done|]. rewrite !orb_false_iff, negb_false_iff in E4.
    destruct E4 as [[[[F1 F2] F3] _] _]. apply Nat.leb_gt in F1, F2. apply Z.eqb_eq in F3.
    exists k, j, (drop (S (S k + j)) wire). split; [lia|]. split; [lia|]. unfold lead.
    rewrite <- app_assoc, <- app_comm_cons, <- app_assoc. cbn [app].
    rewrite <- F3, <- drop_lookup_total by lia. rewrite <- (idle_prefix wire (S k) j Hi').
    replace (0 :: drop (S k) wire) with (drop k wire) by (rewrite drop_lookup_total by lia; by rewrite E3).
    exact (idle_prefix wire 0 k Hi). }
  rewrite (data_lead k j) in E by eauto. cbn zeta in E. rewrite <- (length_lead k j) in E.
  destruct (_ || _) eqn:E1 in E; [done|]. rewrite orb_false_iff in E1. destruct E1 as [E1 E2].
  apply Nat.ltb_ge in E1, E2. rewrite Hl in E. rewrite drop_app_length in E. rewrite Hl, length_app in E1, E2.
  destruct (crc16 (take len l) =? _) eqn:Ec in E; [|done]. injection E as <-. apply Z.eqb_eq in Ec.
  assert (length l = length (take len l ++ drop len l)) as Hll by by rewrite take_drop.
  destruct (drop len l) as [|hi [|lo rest]] eqn:Ed; [rewrite length_app, length_take in Hll; cbn in Hll; lia..|].
  assert (l = take len l ++ hi :: lo :: rest) as El by by rewrite <- Ed, take_drop.
  assert (length (take len l) = len) as Htl by (rewrite length_take; lia).
  assert ((lead k j ++ l) !!! (length (lead k j) + len)%nat = hi) as Ehi.
  { apply list_lookup_total_correct. rewrite El, app_assoc. apply list_lookup_middle. by rewrite length_app, Htl. }
  assert ((lead k j ++ l) !!! (length (lead k j) + len + 1)%nat = lo) as Elo.
  { apply list_lookup_total_correct. rewrite El.
    replace (lead k j ++ take len l ++ hi :: lo :: rest) with ((lead k j ++ take len l ++ [hi]) ++ lo :: rest) by by rewrite <- !app_assoc.
    apply list_lookup_middle. rewrite !length_app, Htl. cbn. lia. }
  rewrite Ehi, Elo in Ec. exists k, j, hi, lo, rest. split_and!; [done|done|done| |done].
  rewrite Hl. rewrite El at 1. unfold lead. by rewrite <- !app_assoc, <- app_comm_cons, <- !app_assoc.
Qed.

Lemma data_sound wire len wait p : bytes_ok wire -> data wire len wait = Some p ->
  exists k j rest, (k < 8)%nat /\ (j < wait)%nat /\ length p = len /\ wire = frame k j p (crc16 p) ++ rest.
Proof.
  intros Hok E. destruct (data_answer _ _ _ _ E) as (k & j & hi & lo & rest & Hk & Hj & Hlen & Hw & Hc).
  exists k, j, rest. split_and!; [done|done|done|]. rewrite frame_lead.
  assert (is_byte hi /\ is_byte lo) as [Hhi Hlo].
  { rewrite Hw in Hok. rewrite !Forall_app, !Forall_cons in Hok. tauto. }
  rewrite join_bytes in Hc by done. destruct (split_word (crc16 p) (crc16_u16 p)) as (Bh & Bl & Bc).
  unfold is_byte in *. assert (hi = Z.shiftr (crc16 p) 8) as E1 by lia. assert (lo = Z.land (crc16 p) 0xff) as E2 by lia.
  rewrite <- E1, <- E2, Hw. unfold lead.
  cbn [app]. rewrite <- !app_assoc. cbn [app]. rewrite <- !app_assoc. done.
Qed.

Lemma data_length wire len wait p : data wire len wait = Some p -> length p = len.
Proof.
  unfold data. generalize (skip_idle 8 wire 0). intros pos. destruct (_ || _); [done|]. cbn zeta.
  destruct (_ || _) eqn:E1; [done|]. rewrite !orb_false_iff in E1. destruct E1 as [[_ E1] _]. apply Nat.ltb_ge in E1.
  destruct (_ =? _); [|done]. intros [= <-]. rewrite length_take, length_drop. lia.
Qed.

(** The reader of card responses accepts exactly the well-formed ones: after
    at most seven idle bytes a zero response, after fewer idle bytes than
    allowed the data token, the block and its CRC-16, whatever follows; it
    returns the block.  A block with one byte changed never passes. *)
Theorem sd_data_exact wire len wait p : bytes_ok wire ->
  (data wire len wait = Some p <->
    exists k j rest, (k < 8)%nat /\ (j < wait)%nat /\ length p = len /\ wire = frame k j p (crc16 p) ++ rest) /\
  (forall pre x y post, p = pre ++ x :: post -> bytes_ok p -> is_byte y -> x <> y ->
     crc16 (pre ++ y :: post) <> crc16 p).
Proof.
  intros Hok. split; [split|].
  - by apply data_sound.
  - intros (k & j & rest & Hk & Hj & <- & ->). by apply data_frame.
  - intros pre x y post -> Hp Hy Hne. apply Forall_app in Hp as [Hpre [Hx Hpost]%Forall_cons].
    by apply crc16_detects_byte_error.
Qed.

Lemma sd_data_exact_witness : data ([0xff; 0xff; 0; 0xff; 0xfe] ++ [1; 2; 3] ++ [0x61; 0x31]) 3 2 = Some [1; 2; 3].
Proof.
  apply (sd_data_exact ([0xff; 0xff; 0; 0xff; 0xfe] ++ [1; 2; 3] ++ [0x61; 0x31]) 3 2 [1; 2; 3]).
  - apply (bool_decide_unpack _). vm_compute. exact I.
  - exists 2%nat, 1%nat, []. split_and!; [lia|lia|reflexivity|vm_compute; reflexivity].
Defined.

(** ** Commands and capacities *)

Lemma lor_shiftl_add a n b : 0 < n -> 0 <= b < 2 ^ n -> Z.lor (Z.shiftl a n) b = a * 2 ^ n + b.
Proof.
  intros Hn Hb. rewrite Z.shiftl_mul_pow2 by lia. rewrite <- Z.lxor_lor, <- Z.add_nocarry_lxor; [done|..];
    (apply Z.bits_inj'; intros m Hm; rewrite Z.land_spec, Z.bits_0;
     destruct (Z.ltb_spec m n); [by rewrite Z.mul_pow2_bits_low by lia|];
     rewrite (Z.bits_above_log2 b), andb_false_r; [done|lia|];
     destruct (decide (b = 0)) as [->|]; [cbn; lia|]; apply (Z.lt_le_trans _ n); [apply Z.log2_lt_pow2; lia|lia]).
Qed.

(** The six bytes of a command: index, argument with the high byte first, CRC-7
    and the stop bit. *)
Definition command_frame (index argument : Z) (bytes : list Z) : Prop :=
  exists b1 b2 b3 b4, Forall is_byte [b1; b2; b3; b4] /\ argument = ((b1 * 256 + b2) * 256 + b3) * 256 + b4 /\
    bytes = [64 + index; b1; b2; b3; b4; 2 * (foldl crc7_byte 0 [64 + index; b1; b2; b3; b4] mod 128) + 1].

Lemma command_is_frame index argument : 0 <= index < 64 -> is_u32 argument ->
  command_frame index argument (command index argument).
Proof.
  intros Hi Ha. unfold command. unfold is_u32, u8 in *. rewrite !Z.shiftr_div_pow2 by lia.
  assert (Z.lor 64 index mod 2 ^ 8 = 64 + index) as ->.
  { change 64 with (Z.shiftl 1 6) at 1. rewrite lor_shiftl_add by lia. rewrite Z.mod_small; lia. }
  exists ((argument / 2 ^ 24) mod 2 ^ 8), ((argument / 2 ^ 16) mod 2 ^ 8), ((argument / 2 ^ 8) mod 2 ^ 8), (argument mod 2 ^ 8).
  split; [|split].
  - repeat constructor; apply Z.mod_pos_bound; lia.
  - pose proof (Z.div_mod argument (2 ^ 8) ltac:(lia)). pose proof (Z.div_mod (argument / 2 ^ 8) (2 ^ 8) ltac:(lia)).
    pose proof (Z.div_mod (argument / 2 ^ 8 / 2 ^ 8) (2 ^ 8) ltac:(lia)). rewrite !Z.div_div in * by lia.
    change (2 ^ 8 * 2 ^ 8) with (2 ^ 16) in *. change (2 ^ 16 * 2 ^ 8) with (2 ^ 24) in *.
    rewrite (Z.mod_small (argument / 2 ^ 24)) by (split; [apply Z.div_pos; lia|apply Z.div_lt_upper_bound; lia]). lia.
  - cbn [app]. do 4 f_equal. f_equal. match goal with |- context [foldl crc7_byte 0 ?l] => generalize (foldl crc7_byte 0 l) end.
    intros c. f_equal. rewrite lor_shiftl_add by lia. change (2 ^ 1) with 2. change (2 ^ 8) with 256.
    Z.to_euclidean_division_equations. lia.
Qed.

Lemma lor_bound n a b : 0 <= n -> 0 <= a < 2 ^ n -> 0 <= b < 2 ^ n -> 0 <= Z.lor a b < 2 ^ n.
Proof.
  intros Hn Ha Hb. pose proof (proj2 (Z.lor_nonneg a b) ltac:(lia)) as H0. split; [done|].
  assert (Z.lor a b = Z.lor a b mod 2 ^ n) as ->; [|apply Z.mod_pos_bound; lia].
  rewrite <- Z.land_ones by done. rewrite Z.land_lor_distr_l, !Z.land_ones by done. by rewrite !Z.mod_small.
Qed.
Lemma factor_bound n : (n < 16)%nat -> 0 <= factors !!! n <= 80.
Proof. intros Hn. do 16 (destruct n as [|n]; [cbn; lia|]). lia. Qed.
Lemma unit_bound n : (n < 4)%nat -> 10000 <= (units !!! n) / 10 <= 10000000.
Proof. intros Hn. do 4 (destruct n as [|n]; [vm_compute; split; discriminate|]). lia. Qed.
Lemma land_ones_bound a n : 0 <= n -> 0 <= Z.land a (Z.ones n) < 2 ^ n.
Proof. intros Hn. rewrite Z.land_ones by done. apply Z.mod_pos_bound. lia. Qed.

(** The capacity of a card is a number of sectors within 32 bits, and its clock
    rate is not zero and within 32 bits. *)
Lemma card_bounds csd c : bytes_ok csd -> card csd = Some c ->
  1024 <= sectors c <= 2 ^ 32 /\ 0 < maximum_hz c <= 800000000.
Proof.
  intros Hok. unfold card. destruct (_ || _) eqn:E1; [done|]. rewrite !orb_false_iff, !negb_false_iff in E1.
  destruct E1 as [[Hlen _] _]. apply Nat.eqb_eq in Hlen.
  assert (forall i, (i < 16)%nat -> is_byte (csd !!! i)) as Hb.
  { intros i Hi. apply (Forall_lookup_1 _ _ i _ Hok). apply list_lookup_lookup_total_lt. lia. }
  destruct (_ || _) eqn:E2; [done|]. rewrite !orb_false_iff in E2. destruct E2 as [[_ Hu] Hf].
  apply Z.eqb_neq in Hf. intros [= <-]. cbn [sectors maximum_hz].
  pose proof (land_ones_bound (csd !!! 3%nat) 3 ltac:(lia)) as Hs7. change (Z.ones 3) with 7 in Hs7.
  pose proof (land_ones_bound (Z.shiftr (csd !!! 3%nat) 3) 4 ltac:(lia)) as Hs15. change (Z.ones 4) with 15 in Hs15.
  rewrite Z.geb_leb in Hu. apply Z.leb_gt in Hu.
  pose proof (factor_bound (Z.to_nat (Z.land (Z.shiftr (csd !!! 3%nat) 3) 15)) ltac:(lia)) as Hfb.
  pose proof (unit_bound (Z.to_nat (Z.land (csd !!! 3%nat) 7)) ltac:(lia)) as Hub.
  pose proof (land_ones_bound (csd !!! 7%nat) 6 ltac:(lia)) as Hs3f. change (Z.ones 6) with 0x3f in Hs3f.
  pose proof (Hb 8%nat ltac:(lia)) as H8. pose proof (Hb 9%nat ltac:(lia)) as H9. unfold is_byte in *.
  rewrite !Z.shiftl_mul_pow2 by lia. split.
  - assert (0 <= Z.lor (Z.lor (Z.land (csd !!! 7%nat) 63 * 2 ^ 16) (csd !!! 8%nat * 2 ^ 8)) (csd !!! 9%nat) < 2 ^ 22).
    { apply lor_bound; [lia|apply lor_bound; lia|lia]. }
    lia.
  - unfold u32. rewrite Z.mod_small; nia.
Qed.

(** The capacity in the CSD: 1024 sectors for every unit of C_SIZE, a 22-bit
    field. *)
Lemma card_sectors csd c : bytes_ok csd -> card csd = Some c ->
  length csd = 16%nat /\ sectors c = (((csd !!! 7%nat mod 64) * 256 + csd !!! 8%nat) * 256 + csd !!! 9%nat + 1) * 1024.
Proof.
  intros Hok. unfold card. destruct (_ || _) eqn:E1; [done|]. rewrite !orb_false_iff, !negb_false_iff in E1.
  destruct E1 as [[Hlen _] _]. apply Nat.eqb_eq in Hlen. destruct (_ || _); [done|]. intros [= <-]. split; [done|]. cbn [sectors].
  assert (forall i, (i < 16)%nat -> is_byte (csd !!! i)) as Hb.
  { intros i Hi. apply (Forall_lookup_1 _ _ i _ Hok). apply list_lookup_lookup_total_lt. lia. }
  pose proof (Hb 8%nat ltac:(lia)) as H8. pose proof (Hb 9%nat ltac:(lia)) as H9. unfold is_byte in *.
  rewrite <- Z.lor_assoc. change 0x3f with (Z.ones 6). rewrite Z.land_ones by lia.
  rewrite (lor_shiftl_add _ 8), (lor_shiftl_add _ 16) by lia. change (2 ^ 6) with 64. lia.
Qed.
