(* ===== verification/SdInitializer.v ===== *)
(** * Initialization of an SD card (src/lib/storage/sd/initializer.h)

    The SPI device is a parameter: [submit] is [Device::start] with the
    initializer's completion as callback, on an environment [E].  Between ticks
    the hardware fills the receive buffer and publishes the result.  [sent]
    records the frames of the current initialization. *)

From S2P Require Import Prelude Foundation StateMachine HalBase Spi I2c HalAction HalController SdProtocol.

Module InitState.
Inductive InitState : Set := idle | clocks | command | gap | done | failed.
End InitState.
#[global] Instance InitState_eq_dec : EqDecision InitState.InitState.
Proof. solve_decision. Defined.
#[export] Instance InitState_enum : StateEnum InitState.InitState := {|
  state_index (s : InitState.InitState) := match s with
    | InitState.idle => 0 | InitState.clocks => 1 | InitState.command => 2 | InitState.gap => 3 | InitState.done => 4
    | InitState.failed => 5 end%nat;
  state_count := 6%nat
|}.

Record InitResult := mkInitResult { ir_status : HalStatus; ir_ocr : Z; ir_command : Z }.
Definition kTransferTimeout : Duration := mkDuration 250000 true.
Definition kStartupLimit : Z := 1000.

Section initializer.
Context {E : Type} (submit : list Spi.Action -> option Duration -> E -> HalStatus * E) (tx_at rx_at : Z).

Record Initializer := mkInitializer {
  completion_ : Completion (A:=Spi.Action);
  init_machine_ : Machine InitState.InitState;
  tx_ : list Z; rx_ : list Z;
  actions_ : list Spi.Action;
  init_result_ : option InitResult;
  status_ : HalStatus;
  command_ : Z; attempts_ : Z; ocr_ : Z;
  requested_ : bool; active_ : bool;
  sd_env : E;
  sent : list (list Z)
}.
#[export] Instance Initializer_eta : RecordEta Initializer := fun p =>
  mkInitializer (completion_ p) (init_machine_ p) (tx_ p) (rx_ p) (actions_ p) (init_result_ p) (status_ p) (command_ p)
    (attempts_ p) (ocr_ p) (requested_ p) (active_ p) (sd_env p) (sent p).
#[export] Instance Initializer_machine : HasMachine Initializer InitState.InitState := {|
  machine := init_machine_; with_machine m p := p <| init_machine_ := m |>
|}.
#[export] Instance Initializer_machine_laws : HasMachineLaws Initializer InitState.InitState.
Proof. split; [done|done|by intros []]. Qed.

Definition new_initializer (e : E) : Initializer :=
  mkInitializer (mkCompletion empty (mkResult HalStatus.ok 0 [])) (initial_machine InitState.idle) (replicate 6 0)
    (replicate 16 0) (replicate 2 inhabitant) None HalStatus.ok 0 0 0 false false e [].

Definition request (p : Initializer) : HalStatus * Initializer :=
  if active_ p then (HalStatus.busy, p)
  else (HalStatus.ok, p <| init_result_ := None |> <| requested_ := true |> <| active_ := true |>).
Definition init_result (p : Initializer) : option InitResult := init_result_ p.
Definition init_busy (p : Initializer) : bool := active_ p.

(** The inner switch, on the response at [r]. *)
Definition respond (r : nat) (p : Initializer) : InitState.InitState * Initializer :=
  let response := rx_ p !!! r in
  let failed := (InitState.failed, p) in
  if command_ p =? 0 then
    if response =? 1 then (InitState.gap, p <| command_ := 8 |>) else failed
  else if command_ p =? 8 then
    if (response =? 1) && (r + 4 <? length (rx_ p))%nat && (rx_ p !!! (r + 3)%nat =? 1) && (rx_ p !!! (r + 4)%nat =? 0xaa)
    then (InitState.gap, p <| command_ := 55 |>) else failed
  else if command_ p =? 55 then
    if response <=? 1 then (InitState.gap, p <| command_ := 41 |>) else failed
  else if command_ p =? 41 then
    if response =? 0 then (InitState.gap, p <| command_ := 58 |>)
    else if response =? 1 then
      let p := p <| attempts_ := u32 (attempts_ p + 1) |> in
      if attempts_ p <? kStartupLimit then (InitState.gap, p <| command_ := 55 |>) else (InitState.failed, p)
    else failed
  else if command_ p =? 58 then
    if (response =? 0) && (r + 4 <? length (rx_ p))%nat then
      let ocr := Z.lor (Z.lor (Z.lor (Z.shiftl (rx_ p !!! (r + 1)%nat) 24) (Z.shiftl (rx_ p !!! (r + 2)%nat) 16))
                          (Z.shiftl (rx_ p !!! (r + 3)%nat) 8)) (rx_ p !!! (r + 4)%nat) in
      let p := p <| ocr_ := ocr |> in
      if negb (Z.land ocr 0xc0000000 =? 0xc0000000) then (InitState.failed, p) else (InitState.done, p)
    else failed
  else failed.

Definition Step (cs : InitState.InitState) (p : Initializer) : InitState.InitState * Initializer :=
  match cs with
  | InitState.idle | InitState.done | InitState.failed =>
      if requested_ p then
        (InitState.clocks, p <| requested_ := false |> <| command_ := 0 |> <| attempts_ := 0 |> <| ocr_ := 0 |>
                             <| status_ := HalStatus.response_mismatch |> <| sent := [] |>)
      else (cs, p)
  | InitState.clocks | InitState.gap =>
      match completion_result (completion_ p) with
      | None => (cs, p)
      | Some result =>
          if r_status result =h? HalStatus.ok then (InitState.command, p)
          else (InitState.failed, p <| status_ := r_status result |>)
      end
  | InitState.command =>
      match completion_result (completion_ p) with
      | None => (cs, p)
      | Some result =>
          if negb (r_status result =h? HalStatus.ok) then (InitState.failed, p <| status_ := r_status result |>)
          else
            let r := Sd.skip_idle 8 (rx_ p) 0 in
            if (r =? 8)%nat then (InitState.failed, p) else respond r p
      end
  end.

Definition argument (command : Z) : Z := if command =? 8 then 0x1aa else if command =? 41 then 0x40000000 else 0.

Definition submit_actions (actions : list Spi.Action) (p : Initializer) : HalStatus * Initializer :=
  let '(st, e) := submit actions (Some kTransferTimeout) (sd_env p) in (st, p <| sd_env := e |>).
(** [completion_.start] with the first [n] actions. *)
Definition start_transfer (n : nat) (p : Initializer) : Initializer :=
  let actions := take n (actions_ p) in
  snd (completion_start completion_ (fun c p => p <| completion_ := c |>) (submit_actions actions) actions p).

Definition OnEnter (s : InitState.InitState) (p : Initializer) : Initializer :=
  match s with
  | InitState.clocks | InitState.gap =>
      let p := p <| actions_ := <[0%nat := Spi.idle_clocks_action (if bool_decide (s = InitState.clocks) then 80 else 8)]> (actions_ p) |> in
      start_transfer 1 p
  | InitState.command =>
      let p := p <| tx_ := Sd.command (command_ p) (argument (command_ p)) |> <| rx_ := replicate 16 0xff |> in
      let p := p <| actions_ := [Spi.write_action (mkSpan tx_at 6); Spi.read_action (mkSpan rx_at 16) 0xff] |> in
      let p := p <| sent := sent p ++ [tx_ p] |> in
      start_transfer 2 p
  | InitState.done | InitState.failed =>
      p <| init_result_ := Some (mkInitResult (if bool_decide (s = InitState.done) then HalStatus.ok else status_ p) (ocr_ p) (command_ p)) |>
        <| active_ := false |>
  | InitState.idle => p
  end.

Definition tick (p : Initializer) : Initializer := snd (StateMachine.tick (step_and_entry Step OnEnter) p).
Definition init_state (p : Initializer) : InitState.InitState := cs (init_machine_ p).

(** The hardware, while it owns the buffer: it receives [bytes] and the
    interrupt publishes [r]. *)
Definition publish (bytes : list Z) (r : Result Spi.Action) (p : Initializer) : Initializer :=
  match phase_ (completion_ p) with
  | pending => p <| rx_ := bytes |> <| completion_ := Complete r |>
  | _ => p
  end.

(** ** The sequence of commands

    [path c a]: what has been sent when [c] is next, after [a] idle answers. *)
Definition tries (a : Z) : list Z := [0; 8] ++ concat (replicate (Z.to_nat a) [55; 41]).
Definition path (c a : Z) : list Z :=
  if c =? 0 then [] else if c =? 8 then [0] else if c =? 55 then tries a else if c =? 41 then tries a ++ [55]
  else tries a ++ [55; 41].
Definition known (c a : Z) : Prop :=
  ((c = 0 \/ c = 8) /\ a = 0) \/ ((c = 55 \/ c = 41 \/ c = 58) /\ 0 <= a < kStartupLimit).
Definition frames (commands : list Z) : list (list Z) := (fun c => Sd.command c (argument c)) <$> commands.

#[local] Arguments tries : simpl never.
Lemma tries_next a : 0 <= a -> tries (a + 1) = tries a ++ [55; 41].
Proof.
  intros Ha. unfold tries. replace (Z.to_nat (a + 1)) with (S (Z.to_nat a)) by lia.
  rewrite replicate_S_end, concat_app, app_assoc. done.
Qed.

(** What a good answer leads to. *)
Definition advances (p p' : Initializer) : Prop :=
  path (command_ p') (attempts_ p') = path (command_ p) (attempts_ p) ++ [command_ p] /\
  known (command_ p') (attempts_ p').
Definition same_progress (p p' : Initializer) : Prop :=
  sent p' = sent p /\ completion_ p' = completion_ p /\ init_result_ p' = init_result_ p /\ status_ p' = status_ p /\
  requested_ p' = requested_ p /\ active_ p' = active_ p /\ init_machine_ p' = init_machine_ p.

Lemma respond_cases r p : known (command_ p) (attempts_ p) ->
  let '(ns, p') := respond r p in
  same_progress p p' /\
  ((ns = InitState.gap /\ advances p p') \/ ns = InitState.failed \/
   (ns = InitState.done /\ command_ p = 58 /\ command_ p' = 58 /\ attempts_ p' = attempts_ p /\
    Z.land (ocr_ p') 0xc0000000 = 0xc0000000)).
Proof.
  intros Hk. unfold respond, advances, known.
  assert (command_ p = 0 /\ attempts_ p = 0 \/ command_ p = 8 /\ attempts_ p = 0 \/
          (command_ p = 55 \/ command_ p = 41 \/ command_ p = 58) /\ 0 <= attempts_ p < kStartupLimit) as Hc
    by (unfold known in Hk; tauto).
  destruct Hc as [[Hc Hat]|[[Hc Hat]|[[Hc|[Hc|Hc]] Ha]]]; rewrite !Hc; cbn [Z.eqb Pos.eqb].
  - destruct (_ =? 1); (split; [done|]); [left|by right; left]. cbn. split; [done|]. split; [done|]. rewrite Hat. lia.
  - destruct (_ && _); (split; [done|]); [left|by right; left]. cbn. unfold kStartupLimit. split; [done|]. rewrite Hat. split; [done|lia].
  - destruct (_ <=? 1); (split; [done|]); [left|by right; left]. cbn. split; [done|]. split; [done|lia].
  - destruct (_ =? 0); [split; [done|left]; cbn; split; [done|]; split; [by rewrite <- app_assoc|lia]|].
    destruct (_ =? 1); [|by split; [|right; left]]. cbn [attempts_ field_update Initializer_eta].
    unfold u32, kStartupLimit in *. rewrite Z.mod_small by lia. destruct (Z.ltb_spec (attempts_ p + 1) 1000).
    + split; [done|left]. cbn. split; [done|]. split; [by rewrite tries_next, <- app_assoc by lia|lia].
    + by split; [|right; left].
  - destruct (_ && _); [|by split; [|right; left]]. cbn zeta. destruct (_ =? _) eqn:Eo; cbn [negb]; [|by split; [|right; left]].
    split; [done|]. right. right. apply Z.eqb_eq in Eo. split_and!; done || exact Hc.
Qed.

(** A submission changes the completion and the environment. *)
Lemma start_transfer_frame n p : exists c e, start_transfer n p = p <| completion_ := c |> <| sd_env := e |> /\
  (phase_ (completion_ p) <> pending -> phase_ c = pending \/ phase_ c = published).
Proof.
  unfold start_transfer, completion_start, submit_actions.
  destruct (phase_ (completion_ p)) eqn:Ep; [|by exists (completion_ p), (sd_env p); split; [destruct p|]|].
  all: cbn [sd_env field_update Initializer_eta]; destruct (submit _ _ _) as [st e];
    destruct (st =h? HalStatus.ok); cbn [negb snd]; eexists _, e; (split; [by destruct p|]); cbn; auto.
Qed.

Lemma init_Step_oblivious s m p : Step s (with_machine m p) = (fst (Step s p), with_machine m (snd (Step s p))).
Proof.
  destruct s; cbn; try (by destruct (requested_ p)).
  all: destruct (completion_result _) as [r|]; [|done]; destruct (r_status r =h? HalStatus.ok); cbn [negb]; try done.
  destruct (_ =? 8)%nat; [done|]. unfold respond. cbn. repeat case_match; done.
Qed.
Lemma start_transfer_oblivious n m p : start_transfer n (with_machine m p) = with_machine m (start_transfer n p).
Proof.
  unfold start_transfer, completion_start, submit_actions. cbn. destruct (phase_ (completion_ p)); [|done|];
    destruct (submit _ _ _) as [st e]; by destruct (st =h? HalStatus.ok).
Qed.
Lemma init_OnEnter_oblivious s m p : OnEnter s (with_machine m p) = with_machine m (OnEnter s p).
Proof. destruct s; cbn [OnEnter]; try done; rewrite <- start_transfer_oblivious; reflexivity. Qed.

#[local] Arguments post_machine : simpl never.

(** The machine is not ticking, and has not left its first state unstarted. *)
Definition machine_idle (p : Initializer) : Prop :=
  ticking_ (init_machine_ p) = false /\ (started_ (init_machine_ p) = false -> init_state p = InitState.idle).

Lemma started_after ns (m : Machine InitState.InitState) : started_ (post_machine ns m) = true.
Proof. unfold post_machine. destruct (_ && _); cbn; apply started_pre_machine. Qed.

Lemma tick_spec p : machine_idle p ->
  let r := Step (init_state p) p in
  exists m, tick p = (if bool_decide (fst r = init_state p) then snd r else OnEnter (fst r) (snd r)) <| init_machine_ := m |> /\
    cs m = fst r /\ ticking_ m = false /\ started_ m = true.
Proof.
  intros [Ht Hs] r. unfold tick. rewrite tick_entry_oblivious; [|apply init_Step_oblivious|apply init_OnEnter_oblivious|exact Ht].
  assert ((if started_ (machine p) then p else OnEnter (cs (machine p)) p) = p) as ->.
  { destruct (started_ (machine p)) eqn:E0; [done|]. change (cs (machine p)) with (init_state p). by rewrite (Hs E0). }
  change (cs (machine p)) with (init_state p). fold r. cbn zeta.
  exists (post_machine (fst r) (machine p)). rewrite cs_post_machine.
  assert (Valid (fst r) = true) as -> by (by destruct (fst r)). cbn [andb].
  split; [|split; [done|split; [done|apply started_after]]]. destruct (bool_decide _); done.
Qed.

(** ** The invariant *)

Definition running (s : InitState.InitState) : bool :=
  match s with InitState.clocks | InitState.command | InitState.gap => true | _ => false end.
(** The commands a successful initialization has sent. *)
Definition complete_run (a : Z) : list Z := tries a ++ [55; 41; 58].
Record init_ok (s : InitState.InitState) (p : Initializer) : Prop := {
  io_sent : match s with
    | InitState.clocks | InitState.gap =>
        known (command_ p) (attempts_ p) /\ sent p = frames (path (command_ p) (attempts_ p))
    | InitState.command =>
        known (command_ p) (attempts_ p) /\ sent p = frames (path (command_ p) (attempts_ p) ++ [command_ p])
    | _ => True
    end;
  io_status : running s = true -> status_ p <> HalStatus.ok;
  io_running : running s = true \/ requested_ p = true -> init_result_ p = None /\ active_ p = true;
  io_result r : init_result_ p = Some r -> active_ p = false /\
    (ir_status r = HalStatus.ok -> exists a, 0 <= a < kStartupLimit /\ sent p = frames (complete_run a) /\
      Z.land (ir_ocr r) 0xc0000000 = 0xc0000000);
  io_requested : running s = true -> requested_ p = false
}.

Lemma io_transfer s p c e : init_ok s p -> init_ok s (p <| completion_ := c |> <| sd_env := e |>).
Proof. intros []. by split. Qed.

(** Entering a state. *)
Lemma running_ok s p :
  match s with
  | InitState.clocks | InitState.gap =>
      known (command_ p) (attempts_ p) /\ sent p = frames (path (command_ p) (attempts_ p))
  | InitState.command =>
      known (command_ p) (attempts_ p) /\ sent p = frames (path (command_ p) (attempts_ p) ++ [command_ p])
  | _ => True
  end -> status_ p <> HalStatus.ok -> init_result_ p = None -> active_ p = true -> requested_ p = false -> init_ok s p.
Proof.
  intros Hs Hst Hres Ha Hr. split; [exact Hs|done|done| |done]. intros r Hr'. rewrite Hres in Hr'. discriminate.
Qed.
Lemma enter_wait s p : s = InitState.clocks \/ s = InitState.gap ->
  known (command_ p) (attempts_ p) -> sent p = frames (path (command_ p) (attempts_ p)) -> status_ p <> HalStatus.ok ->
  init_result_ p = None -> active_ p = true -> requested_ p = false -> init_ok s (OnEnter s p).
Proof.
  intros Hs Hk Hsent Hst Hres Ha Hr. destruct Hs as [-> | ->]; cbn [OnEnter].
  all: match goal with |- context [start_transfer 1 ?q] => destruct (start_transfer_frame 1 q) as (c & e & -> & _) end;
    apply io_transfer; by apply running_ok.
Qed.
Lemma enter_command p :
  known (command_ p) (attempts_ p) -> sent p = frames (path (command_ p) (attempts_ p)) -> status_ p <> HalStatus.ok ->
  init_result_ p = None -> active_ p = true -> requested_ p = false -> init_ok InitState.command (OnEnter InitState.command p).
Proof.
  intros Hk Hsent Hst Hres Ha Hr. cbn [OnEnter].
  match goal with |- context [start_transfer 2 ?q] => destruct (start_transfer_frame 2 q) as (c & e & -> & _) end.
  apply io_transfer, running_ok; try done.
  split; [exact Hk|].
  change (sent p ++ frames [command_ p] = frames (path (command_ p) (attempts_ p) ++ [command_ p])).
  unfold frames in *. by rewrite fmap_app, <- Hsent.
Qed.
Lemma enter_failed p : status_ p <> HalStatus.ok -> requested_ p = false -> init_ok InitState.failed (OnEnter InitState.failed p).
Proof.
  intros Hst Hr. split; [done|done| | |done].
  - intros [?|Hq]; [done|]. cbn in Hq. congruence.
  - intros r [= <-]. split; [done|]. intros Hok. done.
Qed.
Lemma enter_done p a : 0 <= a < kStartupLimit -> sent p = frames (complete_run a) ->
  Z.land (ocr_ p) 0xc0000000 = 0xc0000000 -> requested_ p = false -> init_ok InitState.done (OnEnter InitState.done p).
Proof.
  intros Ha Hs Ho Hr. split; [done|done| | |done].
  - intros [?|Hq]; [done|]. cbn in Hq. congruence.
  - intros r [= <-]. split; [done|]. intros _. by exists a.
Qed.

(** One step with the entry it causes. *)
Definition advance (s : InitState.InitState) (p : Initializer) : InitState.InitState * Initializer :=
  let r := Step s p in (fst r, if bool_decide (fst r = s) then snd r else OnEnter (fst r) (snd r)).

Lemma advance_wait s p : s = InitState.clocks \/ s = InitState.gap -> init_ok s p -> init_ok (fst (advance s p)) (snd (advance s p)).
Proof.
  intros Hs Hok. unfold advance.
  assert (Step s p = match completion_result (completion_ p) with
    | None => (s, p) | Some result => if r_status result =h? HalStatus.ok then (InitState.command, p)
        else (InitState.failed, p <| status_ := r_status result |>) end) as -> by (by destruct Hs as [-> | ->]).
  assert (running s = true /\ s <> InitState.command /\ s <> InitState.failed) as (Hrun & Hn1 & Hn2) by (by destruct Hs as [-> | ->]).
  destruct (io_running _ _ Hok (or_introl Hrun)) as [Hres Ha].
  pose proof (io_status _ _ Hok Hrun) as Hst. pose proof (io_requested _ _ Hok Hrun) as Hr.
  assert (known (command_ p) (attempts_ p) /\ sent p = frames (path (command_ p) (attempts_ p))) as [Hk Hsent].
  { pose proof (io_sent _ _ Hok) as Hs'. by destruct Hs as [-> | ->]. }
  destruct (completion_result _) as [r|]; cbn [fst snd]; [|by rewrite bool_decide_true].
  destruct (r_status r =h? HalStatus.ok) eqn:Er; cbn [fst snd]; rewrite bool_decide_false by congruence.
  - by apply enter_command.
  - apply hs_eqb_neq in Er. apply enter_failed; [exact Er|exact Hr].
Qed.

Lemma advance_command p : init_ok InitState.command p ->
  init_ok (fst (advance InitState.command p)) (snd (advance InitState.command p)).
Proof.
  intros Hok. unfold advance. cbn [Step].
  destruct (io_running _ _ Hok (or_introl eq_refl)) as [Hres Ha].
  pose proof (io_status _ _ Hok eq_refl) as Hst. pose proof (io_requested _ _ Hok eq_refl) as Hr.
  pose proof (io_sent _ _ Hok) as [Hk Hsent].
  destruct (completion_result _) as [r|]; cbn [fst snd]; [|by rewrite bool_decide_true].
  destruct (r_status r =h? HalStatus.ok) eqn:Er; cbn [negb fst snd].
  2:{ rewrite bool_decide_false by done. apply hs_eqb_neq in Er. apply enter_failed; [exact Er|exact Hr]. }
  destruct (_ =? 8)%nat; cbn [fst snd]; [rewrite bool_decide_false by done; by apply enter_failed|].
  pose proof (respond_cases (Sd.skip_idle 8 (rx_ p) 0) p Hk) as Hc. destruct (respond _ p) as [ns p']. cbn [fst snd].
  destruct Hc as ((Es & _ & Eres & Est & Ereq & Eact & _) & [[-> [Hp Hk']]|[->|(-> & Hc & Hc' & Ha' & Ho)]]);
    rewrite bool_decide_false by done.
  - apply enter_wait; [by right|done| |congruence|congruence|congruence|congruence]. by rewrite Es, Hsent, Hp.
  - apply enter_failed; congruence.
  - apply (enter_done p' (attempts_ p)); [unfold known in Hk; rewrite Hc in Hk; unfold kStartupLimit in *; lia| |done|congruence].
    rewrite Es, Hsent, Hc. unfold path, complete_run. cbn [Z.eqb Pos.eqb]. by rewrite <- app_assoc.
Qed.

Lemma advance_rest s p : running s = false -> init_ok s p -> init_ok (fst (advance s p)) (snd (advance s p)).
Proof.
  intros Hs Hok. unfold advance.
  assert (Step s p = if requested_ p then
        (InitState.clocks, p <| requested_ := false |> <| command_ := 0 |> <| attempts_ := 0 |> <| ocr_ := 0 |>
                             <| status_ := HalStatus.response_mismatch |> <| sent := [] |>) else (s, p)) as -> by (by destruct s).
  destruct (requested_ p) eqn:Er; cbn [fst snd]; [|by rewrite bool_decide_true].
  rewrite bool_decide_false by (by destruct s). destruct (io_running _ _ Hok (or_intror Er)) as [Hres Ha].
  apply enter_wait; try done; [by left|by left; split; [left|]].
Qed.

Lemma advance_ok s p : init_ok s p -> init_ok (fst (advance s p)) (snd (advance s p)).
Proof.
  intros Hok. destruct s; [by apply advance_rest|apply advance_wait; auto|by apply advance_command|apply advance_wait; auto|
    by apply advance_rest|by apply advance_rest].
Qed.

Record init_wf (p : Initializer) : Prop := { iw_ok : init_ok (init_state p) p; iw_machine : machine_idle p }.

Lemma tick_advance p : machine_idle p -> exists m, tick p = (snd (advance (init_state p) p)) <| init_machine_ := m |> /\
  cs m = fst (advance (init_state p) p) /\ machine_idle (tick p).
Proof.
  intros Hm. destruct (tick_spec p Hm) as (m & Et & Hcs & Ht & Hst). exists m. split; [exact Et|]. split; [exact Hcs|].
  rewrite Et. split; cbn; [exact Ht|congruence].
Qed.
Lemma tick_wf p : init_wf p -> init_wf (tick p).
Proof.
  intros [Hok Hm]. destruct (tick_advance p Hm) as (m & Et & Hcs & Hm'). split; [|exact Hm'].
  rewrite Et. unfold init_state. cbn. rewrite Hcs. pose proof (advance_ok _ _ Hok) as []. by split.
Qed.

(** ** Histories *)

Inductive reachable : Initializer -> Prop :=
  | reachable_new e : reachable (new_initializer e)
  | reachable_request p : reachable p -> reachable (snd (request p))
  | reachable_tick p : reachable p -> reachable (tick p)
  | reachable_publish p bytes r : reachable p -> reachable (publish bytes r p)
  | reachable_env p e : reachable p -> reachable (p <| sd_env := e |>).

Lemma request_wf p : init_wf p -> init_wf (snd (request p)).
Proof.
  intros [Hok Hm]. unfold request. destruct (active_ p) eqn:Ea; [by split|]. split; [|exact Hm].
  destruct Hok as [Hs Hst Hrun Hres Hreq]. change (init_state _) with (init_state p).
  assert (running (init_state p) = false) as Hnr.
  { destruct (running (init_state p)) eqn:E0; [|done]. destruct (Hrun (or_introl eq_refl)). congruence. }
  split; cbn; [exact Hs|rewrite Hnr; done|done|done|rewrite Hnr; done].
Qed.
Lemma publish_wf p bytes r : init_wf p -> init_wf (publish bytes r p).
Proof. intros [[] Hm]. unfold publish. destruct (phase_ _); (split; [by split|exact Hm]). Qed.

Lemma reachable_wf p : reachable p -> init_wf p.
Proof.
  induction 1 as [e|p _ IH|p _ IH|p bytes r _ IH|p e _ IH]; [| |by apply tick_wf|by apply publish_wf|].
  - split; [|by split]. split; [done|done| |done|done]. intros [?|?]; done.
  - by apply request_wf.
  - destruct IH as [[] Hm]. split; [by split|exact Hm].
Qed.

(** A card is reported as initialized only after the whole exchange: CMD0,
    CMD8, pairs of CMD55 and ACMD41, fewer than a thousand of them answered
    idle, and CMD58, each frame with its argument and checksum and none besides,
    and with an OCR that says powered up and high capacity.  A failure is never
    reported as [ok]. *)
Theorem sd_initialized_by_sequence p r : reachable p -> init_result p = Some r ->
  active_ p = false /\
  (ir_status r = HalStatus.ok -> exists a, 0 <= a < 1000 /\
    sent p = frames ([0; 8] ++ concat (replicate (Z.to_nat a) [55; 41]) ++ [55; 41; 58]) /\
    Z.land (ir_ocr r) 0xc0000000 = 0xc0000000).
Proof.
  intros Hr Hres. destruct (io_result _ _ (iw_ok _ (reachable_wf p Hr)) r Hres) as [Ha Hok]. split; [exact Ha|].
  intros Hst. destruct (Hok Hst) as (a & Hb & Hs & Ho). exists a. split; [exact Hb|]. split; [|exact Ho].
  rewrite Hs. unfold complete_run, tries. by rewrite <- app_assoc.
Qed.

(** ** Termination

    The commands that can still be sent, and the transactions they take. *)
Definition left_ (c a : Z) : Z :=
  if c =? 0 then 2003 else if c =? 8 then 2002 else if c =? 55 then 2 * (kStartupLimit - a) + 1
  else if c =? 41 then 2 * (kStartupLimit - a) else 1.
Definition rank (s : InitState.InitState) (p : Initializer) : Z :=
  match s with
  | InitState.clocks | InitState.gap => 2 * left_ (command_ p) (attempts_ p)
  | InitState.command => 2 * left_ (command_ p) (attempts_ p) - 1
  | _ => if requested_ p then 4007 else 0
  end.
(** A transaction is under way or over while the machine runs. *)
Definition engaged (s : InitState.InitState) (p : Initializer) : Prop :=
  if running s then phase_ (completion_ p) <> empty else phase_ (completion_ p) <> pending.
Definition ended (p : Initializer) : Prop := running (init_state p) = false /\ requested_ p = false /\ is_Some (init_result_ p) /\ active_ p = false.

Lemma known_left c a : known c a -> 1 <= left_ c a <= 2003.
Proof.
  unfold known, left_, kStartupLimit. intros [[[-> | ->] ->]|[[->|[->| ->]] Ha]]; cbn [Z.eqb Pos.eqb]; lia.
Qed.
Lemma respond_rank r p : known (command_ p) (attempts_ p) -> fst (respond r p) = InitState.gap ->
  left_ (command_ (snd (respond r p))) (attempts_ (snd (respond r p))) < left_ (command_ p) (attempts_ p).
Proof.
  unfold known, respond. intros [[[Hc|Hc] Ha]|[[Hc|[Hc|Hc]] Ha]]; rewrite !Hc; cbn [Z.eqb Pos.eqb].
  - destruct (_ =? 1); [|done]. intros _. cbn. done.
  - destruct (_ && _); [|done]. intros _. cbn [fst snd command_ attempts_ field_update Initializer_eta left_].
    rewrite Ha. done.
  - destruct (_ <=? 1); [|done]. intros _. cbn [fst snd command_ attempts_ field_update Initializer_eta].
    unfold left_. cbn [Z.eqb Pos.eqb]. lia.
  - destruct (_ =? 0); [intros _; cbn [fst snd command_ attempts_ field_update Initializer_eta]; unfold left_; cbn [Z.eqb Pos.eqb]; lia|].
    destruct (_ =? 1); [|done]. cbn [attempts_ field_update Initializer_eta].
    destruct (_ <? kStartupLimit) eqn:El; [|done]. intros _. cbn [fst snd command_ attempts_ field_update Initializer_eta].
    unfold left_, u32, kStartupLimit in *. cbn [Z.eqb Pos.eqb]. rewrite Z.mod_small by lia. lia.
  - destruct (_ && _); [|done]. cbn zeta. by destruct (negb _).
Qed.

Lemma OnEnter_running s p : running s = true -> phase_ (completion_ p) <> pending ->
  command_ (OnEnter s p) = command_ p /\ attempts_ (OnEnter s p) = attempts_ p /\ requested_ (OnEnter s p) = requested_ p /\
  engaged s (OnEnter s p).
Proof.
  intros Hs Hph. unfold engaged. rewrite Hs. destruct s; try done; cbn [OnEnter];
    match goal with |- context [start_transfer ?n ?q] => destruct (start_transfer_frame n q) as (c & e & -> & Hc) end;
    (split; [done|]); (split; [done|]); (split; [done|]); destruct (Hc Hph) as [Hd|Hd]; cbn [completion_ field_update Initializer_eta]; congruence.
Qed.

(** The machine goes on towards the end, or is there. *)
Definition progress (s : InitState.InitState) (p : Initializer) (ns : InitState.InitState) (p' : Initializer) : Prop :=
  engaged ns p' /\
  ((running ns = true /\ rank ns p' < rank s p) \/
   (running ns = false /\ requested_ p' = false /\ is_Some (init_result_ p') /\ active_ p' = false)).

Lemma enter_running_progress s p ns p' : running ns = true -> phase_ (completion_ p') <> pending ->
  rank ns p' < rank s p -> progress s p ns (OnEnter ns p').
Proof.
  intros Hr Hph Hrk. destruct (OnEnter_running ns p' Hr Hph) as (Hc & Ha & Hq & He). split; [exact He|left].
  split; [exact Hr|]. destruct ns; try done; unfold rank in *; by rewrite Hc, Ha.
Qed.
Lemma enter_end_progress s p ns p' : ns = InitState.done \/ ns = InitState.failed -> phase_ (completion_ p') <> pending ->
  requested_ p' = false -> progress s p ns (OnEnter ns p').
Proof.
  intros Hs Hph Hr. split; [by destruct Hs; subst|right]. destruct Hs; subst; cbn; (split; [done|]); (split; [exact Hr|]); by eauto.
Qed.

Lemma advance_progress s p : init_ok s p -> engaged s p ->
  (if running s then completion_ready (completion_ p) = true else requested_ p = true) ->
  progress s p (fst (advance s p)) (snd (advance s p)).
Proof.
  intros Hok He Hready. unfold advance. destruct (running s) eqn:Hrun.
  - assert (phase_ (completion_ p) <> pending) as Hph.
    { unfold completion_ready in Hready. by destruct (phase_ (completion_ p)). }
    assert (completion_result (completion_ p) = Some (completion_result_ (completion_ p))) as Hcr.
    { unfold completion_result. by rewrite Hready. }
    pose proof (io_requested _ _ Hok Hrun) as Hr. pose proof (io_sent _ _ Hok) as Hs.
    destruct s; try done; cbn [Step]; rewrite Hcr.
    1, 3: destruct Hs as [Hk _]; pose proof (known_left _ _ Hk);
      destruct (_ =h? _); cbn [fst snd]; rewrite bool_decide_false by done;
      [apply enter_running_progress; [done|done|unfold rank; lia]|apply enter_end_progress; auto].
    destruct Hs as [Hk _]. destruct (_ =h? _); cbn [negb fst snd]; [|rewrite bool_decide_false by done; apply enter_end_progress; auto].
    destruct (_ =? 8)%nat; cbn [fst snd]; [rewrite bool_decide_false by done; apply enter_end_progress; auto|].
    pose proof (respond_cases (Sd.skip_idle 8 (rx_ p) 0) p Hk) as Hc. pose proof (respond_rank (Sd.skip_idle 8 (rx_ p) 0) p Hk) as Hrk.
    destruct (respond _ p) as [ns p']. cbn [fst snd] in *.
    destruct Hc as ((_ & Ec & _ & _ & Ereq & _) & Hc). destruct Hc as [[-> _]|[->|(-> & _)]]; rewrite bool_decide_false by done.
    + apply enter_running_progress; [done|by rewrite Ec|]. specialize (Hrk eq_refl). unfold rank. lia.
    + apply enter_end_progress; [auto|by rewrite Ec|congruence].
    + apply enter_end_progress; [auto|by rewrite Ec|congruence].
  - assert (Step s p = (InitState.clocks, p <| requested_ := false |> <| command_ := 0 |> <| attempts_ := 0 |> <| ocr_ := 0 |>
                             <| status_ := HalStatus.response_mismatch |> <| sent := [] |>)) as ->.
    { destruct s; try done; cbn [Step]; by rewrite Hready. }
    cbn [fst snd]. rewrite bool_decide_false by (by destruct s). apply enter_running_progress; [done| |].
    + unfold engaged in He. by rewrite Hrun in He.
    + assert (rank s p = 4007) as -> by (destruct s; try done; cbn [rank]; by rewrite Hready). done.
Qed.

(** A round: the bus completes the transaction, and the task ticks. *)
Definition round (p : Initializer) (answer : list Z * Result Spi.Action) : Initializer :=
  tick (publish (fst answer) (snd answer) p).
Record ready_wf (p : Initializer) : Prop := { rw_wf : init_wf p; rw_engaged : engaged (init_state p) p }.

Lemma publish_state p bytes r : init_state (publish bytes r p) = init_state p /\ requested_ (publish bytes r p) = requested_ p /\
  command_ (publish bytes r p) = command_ p /\ attempts_ (publish bytes r p) = attempts_ p /\
  init_result_ (publish bytes r p) = init_result_ p /\ active_ (publish bytes r p) = active_ p.
Proof. unfold publish. by destruct (phase_ _). Qed.
Lemma publish_engaged s p bytes r : engaged s p -> engaged s (publish bytes r p) /\
  (running s = true -> completion_ready (completion_ (publish bytes r p)) = true).
Proof.
  unfold engaged, publish, completion_ready. intros He. destruct (running s), (phase_ (completion_ p)) eqn:Ep; cbn; rewrite ?Ep; done.
Qed.

Lemma ended_round p answer : ready_wf p -> ended p -> ready_wf (round p answer) /\ ended (round p answer).
Proof.
  intros [Hwf He] (Hr & Hq & Hres & Ha). unfold round. set (q := publish _ _ p).
  destruct (publish_state p (fst answer) (snd answer)) as (Es & Eq & _ & _ & Eres & Ea). fold q in Es, Eq, Eres, Ea.
  pose proof (publish_wf p (fst answer) (snd answer) Hwf) as Hwq. fold q in Hwq.
  destruct (publish_engaged (init_state p) p (fst answer) (snd answer) He) as [Heq _]. fold q in Heq.
  destruct (tick_advance q (iw_machine _ Hwq)) as (m & Et & Hcs & _).
  assert (advance (init_state q) q = (init_state q, q)) as Eadv.
  { unfold advance. rewrite Es. assert (Step (init_state p) q = (init_state p, q)) as ->.
    { destruct (init_state p); try done; cbn [Step]; by rewrite Eq, Hq. }
    cbn [fst snd]. by rewrite bool_decide_true. }
  rewrite Eadv in Et, Hcs. cbn [fst snd] in Et, Hcs. split.
  - split; [by apply tick_wf|]. rewrite Et. unfold init_state. cbn. rewrite Hcs, Es. exact Heq.
  - rewrite Et. unfold ended, init_state. cbn. rewrite Hcs, Es, Eq, Eres, Ea. done.
Qed.

Lemma live_round p answer : ready_wf p -> running (init_state p) = true \/ requested_ p = true ->
  ready_wf (round p answer) /\
  (ended (round p answer) \/
   (running (init_state (round p answer)) = true /\ rank (init_state (round p answer)) (round p answer) < rank (init_state p) p)).
Proof.
  intros [Hwf He] Hlive. unfold round. set (q := publish _ _ p).
  destruct (publish_state p (fst answer) (snd answer)) as (Es & Eq & Ec & Eat & _). fold q in Es, Eq, Ec, Eat.
  pose proof (publish_wf p (fst answer) (snd answer) Hwf) as Hwq. fold q in Hwq.
  destruct (publish_engaged (init_state p) p (fst answer) (snd answer) He) as [Heq Hready]. fold q in Heq, Hready.
  destruct (tick_advance q (iw_machine _ Hwq)) as (m & Et & Hcs & _).
  assert (rank (init_state q) q = rank (init_state p) p) as Erk.
  { rewrite Es. unfold rank. by rewrite Ec, Eat, Eq. }
  assert (progress (init_state q) q (fst (advance (init_state q) q)) (snd (advance (init_state q) q))) as [Hen Hp].
  { apply advance_progress; [apply Hwq|by rewrite Es|]. rewrite Es. destruct (running (init_state p)); [by apply Hready|].
    rewrite Eq. by destruct Hlive. }
  split.
  - split; [by apply tick_wf|]. rewrite Et. unfold init_state at 1. cbn. rewrite Hcs. exact Hen.
  - rewrite Et, <- Erk. unfold init_state at 2. unfold ended, init_state at 1. cbn [init_machine_ field_update Initializer_eta]. rewrite Hcs.
    destruct Hp as [[Hr Hlt]|(Hr & Hq & Hres & Ha)]; [right|left; done].
    split; [exact Hr|]. unfold init_state at 1. cbn [init_machine_ field_update Initializer_eta]. rewrite Hcs. exact Hlt.
Qed.

Lemma rounds_end answers p : ready_wf p ->
  ended p \/ ((running (init_state p) = true \/ requested_ p = true) /\ rank (init_state p) p <= Z.of_nat (length answers)) ->
  ended (foldl round p answers).
Proof.
  revert p. induction answers as [|answer answers IH]; intros p Hwf Hp; cbn [foldl].
  - destruct Hp as [?|[Hl Hrk]]; [done|]. exfalso. cbn in Hrk. destruct Hwf as [[Hok _] _]. pose proof (io_sent _ _ Hok) as Hs.
    destruct (init_state p); cbn [rank running] in *;
      try (destruct Hl as [?|Hq]; [done|rewrite Hq in Hrk; lia]);
      destruct Hs as [Hk _]; pose proof (known_left _ _ Hk); lia.
  - destruct Hp as [He|[Hl Hrk]].
    + destruct (ended_round p answer Hwf He) as [Hwf' He']. apply IH; auto.
    + destruct (live_round p answer Hwf Hl) as [Hwf' [He|[Hr Hlt]]]; (apply IH; [done|]); [by left|right].
      split; [by left|]. cbn [length] in Hrk. lia.
Qed.

Lemma advance_engaged s p : init_ok s p -> engaged s p -> engaged (fst (advance s p)) (snd (advance s p)).
Proof.
  intros Hok He.
  destruct (if running s then completion_ready (completion_ p) else requested_ p) eqn:Er.
  - apply advance_progress; [done|done|by destruct (running s)].
  - assert (advance s p = (s, p)) as ->; [|exact He]. unfold advance.
    assert (Step s p = (s, p)) as ->; [|cbn [fst snd]; by rewrite bool_decide_true].
    unfold completion_result in *.
    destruct s; cbn [running] in Er; cbn [Step]; unfold completion_result; by rewrite Er.
Qed.
Lemma reachable_ready p : reachable p -> ready_wf p.
Proof.
  induction 1 as [e|p Hr IH|p Hr IH|p bytes r Hr IH|p e Hr IH].
  - split; [apply reachable_wf; constructor|done].
  - split; [by apply request_wf, reachable_wf|]. destruct IH as [_ He]. unfold request. by destruct (active_ p).
  - split; [by apply tick_wf, reachable_wf|]. destruct IH as [Hwf He].
    destruct (tick_advance p (iw_machine _ Hwf)) as (m & Et & Hcs & _). rewrite Et. unfold init_state at 1. cbn. rewrite Hcs.
    exact (advance_engaged _ _ (iw_ok _ Hwf) He).
  - split; [by apply publish_wf, reachable_wf|]. destruct IH as [_ He].
    destruct (publish_state p bytes r) as (-> & _). by apply publish_engaged.
  - destruct IH as [[[] Hm] He]. split; [split; [by split|exact Hm]|exact He].
Qed.

(** A requested initialization ends: after at most 4007 transactions, each
    completed by the bus with any answer or error at all, there is a result and
    the initializer is free again. *)
Theorem sd_initialization_ends p answers : reachable p -> active_ p = false -> (4007 <= length answers)%nat ->
  let q := foldl round (snd (request p)) answers in is_Some (init_result q) /\ init_busy q = false.
Proof.
  intros Hr Ha Hlen. pose proof (reachable_ready _ (reachable_request p Hr)) as Hwf.
  destruct (rounds_end answers (snd (request p)) Hwf) as (_ & _ & Hres & Hact); [right|done].
  unfold request in *. rewrite Ha in *. cbn [snd] in *. split; [by right|].
  pose proof (io_running _ _ (iw_ok _ (reachable_wf p Hr))) as Hrun. change (init_state _) with (init_state p).
  destruct (init_state p) eqn:Es; cbn [rank requested_ field_update Initializer_eta]; try lia;
    (destruct (Hrun (or_introl eq_refl)); congruence).
Qed.
End initializer.
Arguments Initializer : clear implicits.

(** ** A card that starts at once *)

Definition ready_bus (actions : list Spi.Action) (timeout : option Duration) (e : unit) : HalStatus * unit := (HalStatus.ok, e).
Definition answer (bytes : list Z) : list Z * Result Spi.Action := (take 16 (bytes ++ replicate 16 0xff), mkResult HalStatus.ok 1 []).
Definition good_answers : list (list Z * Result Spi.Action) :=
  [answer []; answer []; answer [0xff; 1]; answer []; answer [1; 0; 0; 1; 0xaa]; answer []; answer [1]; answer []; answer [1];
   answer []; answer [1]; answer []; answer [0]; answer []; answer [0xff; 0; 0xc0; 0xff; 0x80; 0]].
Abbreviation good_card :=
  (foldl (round ready_bus 0 6) (snd (request (new_initializer tt))) good_answers).

Lemma rounds_reachable {E} (sub : list Spi.Action -> option Duration -> E -> HalStatus * E) t r answers p :
  reachable sub t r p -> reachable sub t r (foldl (round sub t r) p answers).
Proof.
  revert p. induction answers as [|a l IH]; intros p Hp; [exact Hp|]. cbn [foldl]. apply IH. unfold round. by do 2 constructor.
Qed.
Lemma sd_initialized_by_sequence_witness : exists a, 0 <= a < 1000 /\
  sent good_card = frames ([0; 8] ++ concat (replicate (Z.to_nat a) [55; 41]) ++ [55; 41; 58]) /\
  init_result good_card = Some (mkInitResult HalStatus.ok 0xc0ff8000 58).
Proof.
  assert (init_result good_card = Some (mkInitResult HalStatus.ok 0xc0ff8000 58)) as Hres by (vm_compute; reflexivity).
  destruct (sd_initialized_by_sequence ready_bus 0 6 good_card _ (rounds_reachable _ _ _ _ _ (reachable_request _ _ _ _ (reachable_new _ _ _ tt))) Hres)
    as [_ Hok].
  destruct (Hok eq_refl) as (a & Ha & Hs & _). exists a. split; [exact Ha|]. split; [exact Hs|exact Hres].
Defined.

(** A card that never leaves the idle state is given up. *)
Definition idle_answers : list (list Z * Result Spi.Action) :=
  [answer []; answer [];answer [1]; answer []; answer [1; 0; 0; 1; 0xaa]] ++ replicate 4002 (answer [1]).
Lemma sd_initialization_ends_witness :
  let q := foldl (round ready_bus 0 6) (snd (request (new_initializer tt))) idle_answers in
  is_Some (init_result q) /\ init_busy q = false.
Proof.
  apply (sd_initialization_ends ready_bus 0 6 (new_initializer tt) idle_answers (reachable_new _ _ _ tt) eq_refl).
  unfold idle_answers. rewrite length_app, length_replicate. cbn. lia.
Defined.
