(* ===== verification/SdTransport.v ===== *)
(** * Sector transfers to an SD card (src/lib/storage/sd/transport.h)

    Reads and writes are synchronous: while a transaction is pending the
    injected pump runs, and interrupts publish the completion.  The environment
    [E] holds the memory the buffers live in and the completion; [submit] is
    [Device::start].  The loop that waits is bounded by [limit] runs of the
    pump, and [None] is a wait that has not ended by then. *)

From S2P Require Import Prelude Foundation StateMachine HalBase Spi I2c HalAction HalController SdProtocol.

(** ** Memory *)

Definition in_span (s : Span) (a : Z) : bool := (sp_data s <=? a) && (a <? sp_data s + sp_size s).
Definition load (m : Mem) (s : Span) : list Z := (fun i => m (sp_data s + Z.of_nat i)) <$> seq 0 (Z.to_nat (sp_size s)).
Definition store (at_ : Z) (bytes : list Z) (m : Mem) : Mem :=
  fun a => if in_span (mkSpan at_ (Z.of_nat (length bytes))) a then bytes !!! Z.to_nat (a - at_) else m a.
Definition fill (s : Span) (v : Z) (m : Mem) : Mem := fun a => if in_span s a then v else m a.

Definition kSectorBytes : Z := 512.
Definition kCaptureBytes : Z := kSectorBytes + 4.
Definition kMaximumHz : Z := 1000000.
Definition kReadTimeout : Duration := mkDuration 250000 true.
Definition kWriteTimeout : Duration := mkDuration 1000000 true.

(** The environment as the transport uses it. *)
Record Host (E : Type) := mkHost {
  h_mem : E -> Mem; h_set : Mem -> E -> E;
  h_completion : E -> Completion (A:=Spi.Action); h_put : Completion (A:=Spi.Action) -> E -> E;
  h_submit : list Spi.Action -> option Duration -> E -> HalStatus * E;
  h_pump : option (E -> bool * E)
}.
Arguments mkHost {E}. Arguments h_mem {E}. Arguments h_set {E}. Arguments h_completion {E}. Arguments h_put {E}.
Arguments h_submit {E}. Arguments h_pump {E}.

(** Where the arrays of a call and of the diagnostics are. *)
Record Buffers := mkBuffers {
  tx_at : Z; header_at : Z; trailer_at : Z; status_command_at : Z;
  response_at : Z; accepted_at : Z; ready_at : Z; card_status_at : Z
}.

(** A completed transaction: its actions, the memory when it was submitted and
    when it completed, and its status. *)
Record Transferred := mkTransferred { t_actions : list Spi.Action; t_before : Mem; t_after : Mem; t_status : HalStatus }.

Section transport.
Context {E : Type} (host : Host E) (buffers : Buffers) (limit : nat).

Record Transport := mkTransport {
  diag_status : HalStatus; diag_command : Z; diag_completed : nat;
  capture_ : Span; rate_ : Z; sectors_ : Z;
  busy_ : bool; failed_ : bool; operation_started_ : bool;
  host_env : E;
  transfers : list Transferred
}.
#[export] Instance Transport_eta : RecordEta Transport := fun t =>
  mkTransport (diag_status t) (diag_command t) (diag_completed t) (capture_ t) (rate_ t) (sectors_ t) (busy_ t) (failed_ t)
    (operation_started_ t) (host_env t) (transfers t).
Definition new_transport (capture : Span) (rate sectors : Z) (e : E) : Transport :=
  mkTransport HalStatus.ok 24 0 capture rate sectors false false false e [].

Definition memory (t : Transport) : Mem := h_mem host (host_env t).
Definition on_memory (f : Mem -> Mem) (t : Transport) : Transport :=
  t <| host_env := h_set host (f (memory t)) (host_env t) |>.

Definition Fail (status : HalStatus) (t : Transport) : bool * Transport :=
  (false, t <| failed_ := true |> <| diag_status := status |>).

(** [while (!completion_.ready())], [n] runs of the pump at most. *)
Fixpoint wait (n : nat) (keep_going : bool) (e : E) : option (bool * E) :=
  if completion_ready (h_completion host e) then Some (keep_going, e)
  else
    match n with
    | O => None
    | S n => let '(go, e) := default (fun e => (false, e)) (h_pump host) e in wait n (if negb go then false else keep_going) e
    end.

Definition Transfer (actions : list Spi.Action) (timeout : Duration) (t : Transport) : option (bool * Transport) :=
  let before := memory t in
  let '(start, e) := completion_start (h_completion host) (h_put host) (h_submit host actions (Some timeout)) actions (host_env t) in
  let t := t <| host_env := e |> in
  if negb (start =h? HalStatus.ok) then
    let t := t <| diag_status := start |> in
    Some (false, if operation_started_ t || (start =h? HalStatus.faulted) || (start =h? HalStatus.not_initialized)
                 then t <| failed_ := true |> else t)
  else
    let t := t <| operation_started_ := true |> in
    match wait limit true (host_env t) with
    | None => None
    | Some (keep_going, e) =>
    let t := t <| host_env := e |> in
    let result := default (mkResult HalStatus.ok 0 []) (completion_result (h_completion host e)) in
    let t := t <| diag_status := r_status result |> <| diag_completed := completed_actions result |>
               <| transfers := transfers t ++ [mkTransferred actions before (memory t) (r_status result)] |> in
    Some (if negb (r_status result =h? HalStatus.ok) then Fail (r_status result) t
          else if keep_going then (true, t) else Fail HalStatus.aborted t)
    end.

(** [if (!r) return false;] *)
Definition and_then (r : option (bool * Transport)) (k : Transport -> option (bool * Transport)) : option (bool * Transport) :=
  match r with
  | Some (true, t) => k t
  | _ => r
  end.

Definition gap_actions : list Spi.Action := [Spi.idle_clocks_action 8].
Definition Gap (t : Transport) : option (bool * Transport) := Transfer gap_actions kReadTimeout t.

(** The conditions [read] and [write] share. *)
Definition refused (sector size : Z) (t : Transport) : bool :=
  failed_ t || busy_ t || negb (bool_decide (is_Some (h_pump host))) || (rate_ t =? 0) || (rate_ t >? kMaximumHz) ||
  (size =? 0) || negb (size mod kSectorBytes =? 0) || (sector + size / kSectorBytes >? sectors_ t) ||
  (sector + size / kSectorBytes >? 2 ^ 32).

(** ** Reading *)

Definition read_sector (sector at_ : Z) (t : Transport) : option (bool * Transport) :=
  let wire := mkSpan (sp_data (capture_ t)) kCaptureBytes in
  let t := on_memory (store (tx_at buffers) (Sd.command 17 sector)) t in
  let t := on_memory (fill wire 0xff) t in
  and_then (Transfer (Sd.read_actions (mkSpan (tx_at buffers) 6) wire) kReadTimeout t) (fun t =>
    match Sd.data (load (memory t) wire) (Z.to_nat kSectorBytes) 1 with
    | None => Some (Fail HalStatus.response_mismatch t)
    | Some payload => Gap (on_memory (store at_ payload) t)
    end).
Fixpoint read_sectors (n : nat) (sector at_ : Z) (t : Transport) : option (bool * Transport) :=
  match n with
  | O => Some (true, t)
  | S n => and_then (read_sector sector at_ t) (read_sectors n (u32 (sector + 1)) (at_ + kSectorBytes))
  end.

(** [Release]: the destructor that clears [busy_] on every return. *)
Definition release (r : bool * Transport) : bool * Transport := (fst r, (snd r) <| busy_ := false |>).

(** The first run of the pump, before anything is sent. *)
Definition pumped (t : Transport) : bool * Transport :=
  let '(go, e) := default (fun e => (false, e)) (h_pump host) (host_env t) in (go, t <| host_env := e |>).

Definition read (sector : Z) (destination : Span) (t : Transport) : option (bool * Transport) :=
  if refused sector (sp_size destination) t then Some (false, t)
  else if sp_size (capture_ t) <? kCaptureBytes then Some (false, t)
  else
    let t := t <| busy_ := true |> <| operation_started_ := false |> in
    let '(go, t) := pumped t in
    if negb go then Some (release (false, t <| diag_status := HalStatus.aborted |>))
    else r ← read_sectors (Z.to_nat (sp_size destination / kSectorBytes)) sector (sp_data destination) t; Some (release r).

(** ** Writing *)

Definition write_actions (source : Span) : list Spi.Action :=
  let response := mkSpan (response_at buffers) 8 in
  let accepted := mkSpan (accepted_at buffers) 8 in
  [Spi.write_action (mkSpan (tx_at buffers) 6); Spi.read_action response 0xff;
   Spi.check_response_action response 0 0xff 0xff; Spi.write_action (mkSpan (header_at buffers) 2);
   Spi.write_action source; Spi.write_action (mkSpan (trailer_at buffers) 2); Spi.read_action accepted 0xff;
   Spi.check_response_action accepted 5 0x1f 0xff; Spi.poll_response_action (mkSpan (ready_at buffers) 8) 0xff 0xff 0xff].
Definition status_actions : list Spi.Action :=
  [Spi.write_action (mkSpan (status_command_at buffers) 6); Spi.read_action (mkSpan (card_status_at buffers) 10) 0xff].

(** [find_if] and the tests on the card status. *)
Definition status_clean (status : list Z) : bool :=
  match list_find (fun value => value <> 0xff) status with
  | None => false
  | Some (first, value) => negb (S first =? length status)%nat && (value =? 0) && (status !!! S first =? 0)
  end.

Definition write_sector (sector at_ : Z) (t : Transport) : option (bool * Transport) :=
  let bytes := mkSpan at_ kSectorBytes in
  let crc := Sd.crc16 (load (memory t) bytes) in
  let t := on_memory (store (tx_at buffers) (Sd.command 24 sector)) t in
  let t := on_memory (store (header_at buffers) [0xff; 0xfe]) t in
  let t := on_memory (store (trailer_at buffers) [u8 (Z.shiftr crc 8); u8 crc]) t in
  let t := t <| diag_command := 24 |> in
  let t := on_memory (fill (mkSpan (response_at buffers) 8) 0xff) t in
  let t := on_memory (fill (mkSpan (accepted_at buffers) 8) 0xff) t in
  and_then (Transfer (write_actions bytes) kWriteTimeout t) (fun t =>
  and_then (Gap t) (fun t =>
  let t := on_memory (store (status_command_at buffers) (Sd.command 13 0)) t in
  let t := t <| diag_command := 13 |> in
  let status := mkSpan (card_status_at buffers) 10 in
  let t := on_memory (fill status 0xff) t in
  and_then (Transfer status_actions kReadTimeout t) (fun t =>
  and_then (Gap t) (fun t =>
  Some (if status_clean (load (memory t) status) then (true, t) else Fail HalStatus.response_mismatch t))))).
Fixpoint write_sectors (n : nat) (sector at_ : Z) (t : Transport) : option (bool * Transport) :=
  match n with
  | O => Some (true, t)
  | S n => and_then (write_sector sector at_ t) (write_sectors n (u32 (sector + 1)) (at_ + kSectorBytes))
  end.
Definition write (sector : Z) (source : Span) (t : Transport) : option (bool * Transport) :=
  if refused sector (sp_size source) t then Some (false, t)
  else
    let t := t <| busy_ := true |> <| operation_started_ := false |> in
    let '(go, t) := pumped t in
    if negb go then Some (release (false, t <| diag_status := HalStatus.aborted |>))
    else
      let t := t <| diag_status := HalStatus.ok |> <| diag_command := 24 |> <| diag_completed := 0%nat |> in
      let t := on_memory (fill (mkSpan (response_at buffers) 8) 0) (on_memory (fill (mkSpan (accepted_at buffers) 8) 0) t) in
      let t := on_memory (fill (mkSpan (ready_at buffers) 8) 0) (on_memory (fill (mkSpan (card_status_at buffers) 10) 0) t) in
      r ← write_sectors (Z.to_nat (sp_size source / kSectorBytes)) sector (sp_data source) t; Some (release r).
End transport.
Arguments Transport : clear implicits.

(** ** Memory, read back *)

Definition disjoint (s1 s2 : Span) : Prop := forall a, in_span s1 a = true -> in_span s2 a = false.

Lemma in_span_spec s a : in_span s a = true <-> sp_data s <= a < sp_data s + sp_size s.
Proof. unfold in_span. rewrite andb_true_iff, Z.leb_le, Z.ltb_lt. done. Qed.
Lemma load_ext m m' s : (forall a, in_span s a = true -> m a = m' a) -> load m s = load m' s.
Proof.
  intros Hm. unfold load. apply list_fmap_ext. intros i x Hx. apply lookup_seq in Hx as [-> Hi]. apply Hm.
  apply in_span_spec. lia.
Qed.
Lemma length_load m s : length (load m s) = Z.to_nat (sp_size s).
Proof. unfold load. by rewrite length_fmap, length_seq. Qed.
Lemma load_store at_ bytes m : load (store at_ bytes m) (mkSpan at_ (Z.of_nat (length bytes))) = bytes.
Proof.
  unfold load. cbn [sp_data sp_size]. rewrite Nat2Z.id. apply list_eq. intros i. rewrite list_lookup_fmap.
  destruct (decide (i < length bytes)%nat) as [Hi|Hi].
  - rewrite lookup_seq_lt by done. cbn. unfold store.
    rewrite (proj2 (in_span_spec _ _)) by (cbn; lia). replace (Z.to_nat (at_ + Z.of_nat i - at_)) with i by lia.
    symmetry. by apply list_lookup_lookup_total_lt.
  - rewrite lookup_seq_ge by lia. cbn. symmetry. apply lookup_ge_None_2. lia.
Qed.
Lemma load_store_other at_ bytes m s : disjoint s (mkSpan at_ (Z.of_nat (length bytes))) -> load (store at_ bytes m) s = load m s.
Proof. intros Hd. apply load_ext. intros a Ha. unfold store. by rewrite (Hd a Ha). Qed.
Lemma load_fill_other f v m s : disjoint s f -> load (fill f v m) s = load m s.
Proof. intros Hd. apply load_ext. intros a Ha. unfold fill. by rewrite (Hd a Ha). Qed.

(** ** What the environment promises

    [borrowed] are the addresses that belong to a call, [owned] the spans the
    hardware may write: those of the transaction it was last given. *)
Section correct.
Context {E : Type} (host : Host E) (buffers : Buffers) (limit : nat).
Context (borrowed : Z -> Prop) (owned : E -> list Span).

Definition outside (spans : list Span) (a : Z) : Prop := forall s, s ∈ spans -> in_span s a = false.
Definition rx_spans (actions : list Spi.Action) : list Span := Spi.rx <$> actions.

Record host_laws : Prop := {
  hl_set m e : h_mem host (h_set host m e) = m /\ h_completion host (h_set host m e) = h_completion host e /\
    owned (h_set host m e) = owned e;
  hl_put c e : h_mem host (h_put host c e) = h_mem host e /\ h_completion host (h_put host c e) = c /\
    owned (h_put host c e) = owned e;
  hl_submit actions timeout e : let e' := snd (h_submit host actions timeout e) in
    (forall a, borrowed a -> outside (rx_spans actions) a -> h_mem host e' a = h_mem host e a) /\
    (fst (h_submit host actions timeout e) = HalStatus.ok -> owned e' ⊆ rx_spans actions);
  hl_pump f e : h_pump host = Some f -> let e' := snd (f e) in
    (forall a, borrowed a -> outside (owned e) a -> h_mem host e' a = h_mem host e a) /\ owned e' ⊆ owned e;
  hl_completes actions timeout e e' : h_submit host actions timeout e = (HalStatus.ok, e') ->
    is_Some (wait host limit true e')
}.
Context (laws : host_laws).

Lemma wait_frame n keep e keep' e' spans : wait host n keep e = Some (keep', e') -> owned e ⊆ spans ->
  (forall a, borrowed a -> outside spans a -> h_mem host e' a = h_mem host e a) /\ owned e' ⊆ spans /\
  completion_ready (h_completion host e') = true.
Proof.
  revert keep e. induction n as [|n IH]; intros keep e Hw Ho; cbn [wait] in Hw;
    destruct (completion_ready (h_completion host e)) eqn:Er; try done; [by simplify_eq|by simplify_eq|].
  destruct (h_pump host) as [f|] eqn:Ef.
  - pose proof (hl_pump laws f e Ef) as [Hm Hs]. change (default (fun e0 => (false, e0)) (Some f) e) with (f e) in Hw.
    destruct (f e) as [go e1]. cbn [snd] in *. destruct (IH _ _ Hw) as (Hm' & Hs' & Hr'); [by etrans|].
    split; [|done]. intros a Ha Hout. rewrite Hm' by done. apply Hm; [done|]. intros s Hin. by apply Hout, Ho.
  - change (default (fun e0 : E => (false, e0)) None e) with (false, e) in Hw. by apply (IH _ _ Hw).
Qed.

(** What a part of a call leaves alone: the memory of the call outside [spans],
    the capture buffer's place and the transactions so far. *)
Definition keeps (spans : list Span) (t t' : Transport E) : Prop :=
  capture_ t' = capture_ t /\
  (forall a, borrowed a -> outside spans a -> memory host t' a = memory host t a) /\
  (forall x, x ∈ transfers t -> x ∈ transfers t').

Lemma keeps_same spans t : keeps spans t t.
Proof. done. Qed.
Lemma outside_app s1 s2 a : outside (s1 ++ s2) a <-> outside s1 a /\ outside s2 a.
Proof.
  unfold outside. split.
  - intros Ho. split; intros s Hs; apply Ho, elem_of_app; auto.
  - intros [H1 H2] s [Hs|Hs]%elem_of_app; auto.
Qed.
Lemma keeps_trans s1 s2 t1 t2 t3 : keeps s1 t1 t2 -> keeps s2 t2 t3 -> keeps (s1 ++ s2) t1 t3.
Proof.
  intros (C1 & M1 & T1) (C2 & M2 & T2). split; [congruence|]. split; [|auto].
  intros a Ha [H1 H2]%outside_app. rewrite M2, M1; done.
Qed.
Lemma keeps_weaken s1 s2 t t' : s1 ⊆ s2 -> keeps s1 t t' -> keeps s2 t t'.
Proof. intros Hs (C & M & T). split; [done|]. split; [|done]. intros a Ha Ho. apply M; [done|]. intros s Hin. by apply Ho, Hs. Qed.
Lemma memory_on_memory f t : memory host (on_memory host f t) = f (memory host t).
Proof. unfold memory, on_memory. cbn. apply (hl_set laws). Qed.
Lemma keeps_store at_ bytes t : keeps [mkSpan at_ (Z.of_nat (length bytes))] t (on_memory host (store at_ bytes) t).
Proof.
  split; [done|]. split; [|done]. intros a _ Ho. rewrite memory_on_memory. unfold store.
  rewrite (Ho (mkSpan at_ (Z.of_nat (length bytes)))); [done|set_solver].
Qed.
Lemma keeps_fill s v t : keeps [s] t (on_memory host (fill s v) t).
Proof.
  split; [done|]. split; [|done]. intros a _ Ho. rewrite memory_on_memory. unfold fill. rewrite (Ho s); [done|set_solver].
Qed.
(** Bytes outside what was written are read back unchanged. *)
Lemma keeps_load spans t t' s : keeps spans t t' -> (forall a, in_span s a = true -> borrowed a) ->
  (forall x, x ∈ spans -> disjoint s x) -> load (memory host t') s = load (memory host t) s.
Proof. intros (_ & M & _) Hb Hd. apply load_ext. intros a Ha. apply M; [by apply Hb|]. intros x Hx. by apply (Hd x Hx). Qed.

(** A call that failed after the card was given work locks the transport. *)
Definition latches (ok : bool) (t : Transport E) : Prop := ok = false -> operation_started_ t = true -> failed_ t = true.

(** A transaction always comes back; it changes receive buffers only, and is on
    record when it succeeded. *)
Lemma Transfer_spec actions delay t : exists ok t', Transfer host limit actions delay t = Some (ok, t') /\
  keeps (rx_spans actions) t t' /\ latches ok t' /\
  (ok = true -> transfers t' = transfers t ++ [mkTransferred actions (memory host t) (memory host t') HalStatus.ok]).
Proof.
  unfold Transfer.
  assert (exists start e, completion_start (h_completion host) (h_put host) (h_submit host actions (Some delay)) actions (host_env t)
            = (start, e) /\ (forall a, borrowed a -> outside (rx_spans actions) a -> h_mem host e a = memory host t a) /\
            (start = HalStatus.ok -> owned e ⊆ rx_spans actions /\ is_Some (wait host limit true e))) as (start & e & -> & Hm & Hok).
  { unfold completion_start, memory. destruct (phase_ (h_completion host (host_env t))); [|by exists HalStatus.busy, (host_env t)|].
    all: match goal with |- context [h_submit _ _ _ ?x] => set (e1 := x) end;
      pose proof (hl_submit laws actions (Some delay) e1) as [Hm Ho];
      pose proof (hl_completes laws actions (Some delay) e1) as Hc;
      destruct (h_submit host actions (Some delay) e1) as [st e2]; cbn [fst snd] in *;
      pose proof (hl_put laws (mkCompletion pending (completion_result_ (h_completion host (host_env t)))) (host_env t)) as (Hp & _);
      fold e1 in Hp; eexists st, _; (split; [reflexivity|]); destruct (st =h? HalStatus.ok) eqn:Es; cbn [negb];
      [apply hs_eqb_eq in Es; subst st; (split; [intros a Ha Hout; by rewrite Hm, Hp|]); intros _; split; [by apply Ho|by apply Hc]
      |apply hs_eqb_neq in Es; split; [intros a Ha Hout; rewrite (proj1 (hl_put laws _ _)); by rewrite Hm, Hp|done]]. }
  destruct (start =h? HalStatus.ok) eqn:Es; cbn [negb].
  2:{ eexists _, _. split; [reflexivity|]. split; [|split; [|done]].
      - destruct (_ || _); (split; [done|]); (split; [|done]); exact Hm.
      - cbn [operation_started_ field_update Transport_eta]. destruct (operation_started_ t) eqn:Eo; cbn [orb]; [done|].
        intros _. destruct (_ || _); cbn; congruence. }
  apply hs_eqb_eq in Es. destruct (Hok Es) as [Ho [[keep e2] Hw]]. cbn [host_env field_update Transport_eta]. rewrite Hw.
  destruct (wait_frame _ _ _ _ _ _ Hw Ho) as (Hm2 & _ & Hr).
  set (result := default _ _). clearbody result.
  match goal with |- context [Fail (r_status result) ?x] => set (t' := x) end.
  assert (keeps (rx_spans actions) t t') as Hk.
  { split; [done|]. split; [|subst t'; cbn; set_solver]. intros a Ha Hout.
    change (memory host t' a) with (h_mem host e2 a). by rewrite Hm2, Hm. }
  destruct (r_status result =h? HalStatus.ok) eqn:Er; cbn [negb].
  - destruct keep; eexists _, _; (split; [reflexivity|]); (split; [exact Hk|]); (split; [done|]); [|done]. intros _.
    apply hs_eqb_eq in Er. subst t'. cbn. by rewrite Er.
  - eexists _, _. split; [reflexivity|]. split; [exact Hk|done].
Qed.

(** ** Reading

    Where the buffers of a call lie: apart from each other. *)
Definition within (s : Span) : Prop := forall a, in_span s a = true -> borrowed a.
Definition tx : Span := mkSpan (tx_at buffers) 6.
Definition chunk (at_ : Z) : Span := mkSpan at_ kSectorBytes.

Lemma disjoint_sym s1 s2 : disjoint s1 s2 -> disjoint s2 s1.
Proof. intros Hd a Ha. destruct (in_span s1 a) eqn:E1; [|done]. by rewrite (Hd a E1) in Ha. Qed.
Lemma disjoint_sub s s1 s2 : disjoint s2 s -> (forall a, in_span s1 a = true -> in_span s2 a = true) -> disjoint s1 s.
Proof. intros Hd Hs a Ha. apply Hd. by apply Hs. Qed.

Lemma read_rx c wire a : sp_size wire = kCaptureBytes -> outside [wire] a -> outside (rx_spans (Sd.read_actions c wire)) a.
Proof.
  intros Hw Ho. destruct wire as [d n]. cbn in Hw. unfold kCaptureBytes, kSectorBytes in Hw. cbn in Hw. subst n.
  set (wire := mkSpan d 516) in *. assert (in_span wire a = false) as Hout by (apply Ho; set_solver).
  assert (forall o n, 0 <= o -> o + n <= 516 -> in_span (Sd.sub_span wire o n) a = false) as Hsub.
  { intros o n Ho1 Hn. destruct (in_span (Sd.sub_span wire o n) a) eqn:E1; [|done]. apply in_span_spec in E1. cbn in E1.
    assert (in_span wire a = true) as Hi; [|congruence]. apply in_span_spec. subst wire. cbn in *. lia. }
  assert (in_span no_span a = false) as Hno.
  { destruct (in_span no_span a) eqn:E1; [|done]. apply in_span_spec in E1. cbn in E1. lia. }
  intros s Hs. unfold rx_spans in Hs. cbn in Hs. rewrite !elem_of_cons in Hs.
  destruct Hs as [->|[->|[->|[->|[->|[->|Hs]]]]]]; try done; [apply Hsub; cbn; lia|apply Hsub; cbn; lia|apply Hsub; [lia|vm_compute; discriminate]|by apply elem_of_nil in Hs].
Qed.
Lemma gap_rx a : outside (rx_spans gap_actions) a.
Proof.
  intros s Hs. unfold rx_spans in Hs. cbn in Hs. apply list_elem_of_singleton in Hs as ->.
  destruct (in_span no_span a) eqn:E1; [|done]. apply in_span_spec in E1. cbn in E1. lia.
Qed.
Lemma keeps_wider s1 s2 t t' : (forall a, outside s2 a -> outside s1 a) -> keeps s1 t t' -> keeps s2 t t'.
Proof. intros Hs (C & M & T). split; [done|]. split; [|done]. intros a Ha Ho. apply M; auto. Qed.

(** The transaction that reads a block, action by action: the command; up to
    eight bytes until the response, which has to be 0; bytes until the token,
    which has to be 0xfe; the block and its CRC. *)
Definition read_transaction (c wire : Span) : list Spi.Action :=
  let at_ := sp_data wire in
  [Spi.mkAction Spi.write c no_span 0 0xff true;
   Spi.mkAction Spi.read_until no_span (mkSpan at_ 1) 8 0xff true;
   Spi.mkAction Spi.check_response (mkSpan at_ 1) no_span 0xff00 0xff true;
   Spi.mkAction Spi.read_until no_span (mkSpan (at_ + 1) 1) 0 0xff true;
   Spi.mkAction Spi.check_response (mkSpan (at_ + 1) 1) no_span 0xfffe 0xff true;
   Spi.mkAction Spi.read no_span (mkSpan (at_ + 2) 514) 0 0xff true].
Lemma read_transaction_eq c at_ : Sd.read_actions c (mkSpan at_ kCaptureBytes) = read_transaction c (mkSpan at_ kCaptureBytes).
Proof. unfold Sd.read_actions, Sd.sub_span, read_transaction. cbn. by rewrite Z.add_0_r. Qed.

(** Sector [sector] was read into [at_]: that transaction succeeded with the
    CMD17 frame of the sector in the command buffer, the bytes that came back
    are a response, a token and a block [p] followed by the CRC-16 of [p], and
    [p] lies at [at_]. *)
Definition verified (wire : Span) (sector at_ : Z) (t : Transport E) : Prop :=
  exists before after p, mkTransferred (read_transaction tx wire) before after HalStatus.ok ∈ transfers t /\
    SdProtocol.command_frame 17 sector (load before tx) /\ SdProtocol.block_answer (load after wire) 512 1 p /\
    load (memory host t) (chunk at_) = p.

Lemma Gap_spec t : exists ok t', Gap host limit t = Some (ok, t') /\ keeps [] t t' /\ latches ok t' /\
  (ok = true -> transfers t' = transfers t ++ [mkTransferred gap_actions (memory host t) (memory host t') HalStatus.ok]).
Proof.
  destruct (Transfer_spec gap_actions kReadTimeout t) as (ok & t' & E1 & Hk & Hl). exists ok, t'. split; [exact E1|].
  split; [|exact Hl]. eapply keeps_wider; [|exact Hk]. intros a _. apply gap_rx.
Qed.

Lemma read_sector_spec sector at_ t : let wire := mkSpan (sp_data (capture_ t)) kCaptureBytes in
  within tx -> within (chunk at_) -> disjoint tx wire -> is_u32 sector ->
  exists ok t', read_sector host buffers limit sector at_ t = Some (ok, t') /\
    keeps [tx; wire; chunk at_] t t' /\ latches ok t' /\ (ok = true -> verified wire sector at_ t').
Proof.
  intros wire Htx Hch Hdis Hsec. unfold read_sector. fold wire. set (t1 := on_memory host (store _ _) t).
  change (mkSpan (sp_data (capture_ t1)) kCaptureBytes) with wire. set (t2 := on_memory host (fill wire 255) t1).
  pose proof (keeps_store (tx_at buffers) (Sd.command 17 sector) t) as K1. fold t1 in K1.
  change (mkSpan (tx_at buffers) (Z.of_nat (length (Sd.command 17 sector)))) with tx in K1.
  pose proof (keeps_fill wire 255 t1) as K2. fold t2 in K2.
  destruct (Transfer_spec (Sd.read_actions tx wire) kReadTimeout t2) as (ok & t3 & E3 & K3 & Hl3 & Hrec).
  change (mkSpan (tx_at buffers) 6) with tx. rewrite E3.
  assert (keeps [wire] t2 t3) as K3' by (eapply keeps_wider; [|exact K3]; intros a; by apply read_rx).
  pose proof (keeps_trans _ _ _ _ _ (keeps_trans _ _ _ _ _ K1 K2) K3') as K13. cbn [app] in K13.
  assert (load (memory host t2) tx = Sd.command 17 sector) as Htx2.
  { rewrite (keeps_load [wire] t1 t2 tx K2 Htx) by (intros x ->%list_elem_of_singleton; exact Hdis).
    subst t1. rewrite memory_on_memory. apply (load_store (tx_at buffers) (Sd.command 17 sector)). }
  destruct ok; cbn [and_then].
  2:{ exists false, t3. split; [done|]. split; [|split; [exact Hl3|done]]. eapply keeps_weaken; [|exact K13]. set_solver. }
  change (Z.to_nat kSectorBytes) with 512%nat. destruct (Sd.data (load (memory host t3) wire) 512 1) as [p|] eqn:Ed.
  2:{ eexists _, _. split; [reflexivity|]. split; [|done]. eapply keeps_weaken; [|exact K13]. set_solver. }
  pose proof (SdProtocol.data_length _ _ _ _ Ed) as Hlen.
  pose proof (keeps_store at_ p t3) as K4. rewrite Hlen in K4. change (mkSpan at_ (Z.of_nat 512)) with (chunk at_) in K4.
  set (t4 := on_memory host (store at_ p) t3) in *. destruct (Gap_spec t4) as (ok5 & t5 & E5 & K5 & Hl5 & _). exists ok5, t5.
  split; [exact E5|]. pose proof (keeps_trans _ _ _ _ _ (keeps_trans _ _ _ _ _ K13 K4) K5) as K15. cbn [app] in K15.
  split; [eapply keeps_weaken; [|exact K15]; set_solver|]. split; [exact Hl5|]. intros _.
  exists (memory host t2), (memory host t3), p.
  split; [apply K5, K4; rewrite Hrec by done; subst wire; rewrite <-read_transaction_eq; set_solver|].
  split; [rewrite Htx2; apply SdProtocol.command_is_frame; [lia|exact Hsec]|].
  split; [by apply SdProtocol.data_answer|].
  rewrite (keeps_load [] t4 t5 (chunk at_) K5 Hch) by (intros x Hx; by apply elem_of_nil in Hx).
  subst t4. rewrite memory_on_memory. pose proof (load_store at_ p (memory host t3)) as Hls. by rewrite Hlen in Hls.
Qed.

Lemma verified_keeps spans wire sector at_ t t' : keeps spans t t' -> within (chunk at_) ->
  (forall x, x ∈ spans -> disjoint (chunk at_) x) -> verified wire sector at_ t -> verified wire sector at_ t'.
Proof.
  intros K Hw Hd (before & after & p & Hin & Htx & Hdata & Hp). exists before, after, p.
  split; [by apply K|]. split; [done|]. split; [done|]. by rewrite (keeps_load spans t t').
Qed.

(** The parts of a run of sectors. *)
Definition run_of (at_ : Z) (n : nat) : Span := mkSpan at_ (kSectorBytes * Z.of_nat n).
Lemma chunk_of_sectors at_ n i a : (i < n)%nat -> in_span (chunk (at_ + kSectorBytes * Z.of_nat i)) a = true ->
  in_span (run_of at_ n) a = true.
Proof. rewrite !in_span_spec. unfold chunk, run_of, kSectorBytes. cbn [sp_data sp_size]. lia. Qed.
Lemma rest_of_sectors at_ n a : in_span (run_of (at_ + kSectorBytes) n) a = true -> in_span (run_of at_ (S n)) a = true.
Proof. rewrite !in_span_spec. unfold run_of, kSectorBytes. cbn [sp_data sp_size]. lia. Qed.
Lemma head_of_sectors at_ n a : in_span (chunk at_) a = true -> in_span (run_of at_ (S n)) a = true.
Proof. rewrite !in_span_spec. unfold chunk, run_of, kSectorBytes. cbn [sp_data sp_size]. lia. Qed.
Lemma head_rest_disjoint at_ n : disjoint (chunk at_) (run_of (at_ + kSectorBytes) n).
Proof.
  intros a Ha. apply not_true_is_false. rewrite in_span_spec. rewrite in_span_spec in Ha.
  unfold chunk, run_of, kSectorBytes in *. cbn [sp_data sp_size] in *. lia.
Qed.

Lemma read_sectors_spec n : forall sector at_ t, let wire := mkSpan (sp_data (capture_ t)) kCaptureBytes in
  within tx -> within (run_of at_ n) -> disjoint tx wire -> disjoint tx (run_of at_ n) -> disjoint wire (run_of at_ n) ->
  0 <= sector -> sector + Z.of_nat n <= 2 ^ 32 ->
  exists ok t', read_sectors host buffers limit n sector at_ t = Some (ok, t') /\
    keeps [tx; wire; run_of at_ n] t t' /\ latches ok t' /\
    (ok = true -> forall i, (i < n)%nat -> verified wire (sector + Z.of_nat i) (at_ + kSectorBytes * Z.of_nat i) t').
Proof.
  induction n as [|n IH]; intros sector at_ t wire Htx Hin Htw Htd Hwd H0 Hmax.
  { exists true, t. split; [done|]. split; [apply keeps_same|]. split; [done|]. intros _ i Hi. lia. }
  assert (within (chunk at_)) as Hch by (intros a Ha; by apply Hin, head_of_sectors).
  destruct (read_sector_spec sector at_ t Htx Hch Htw ltac:(unfold is_u32; lia)) as (ok1 & t1 & E1 & K1 & L1 & V1). cbn [read_sectors]. rewrite E1.
  assert (keeps [tx; wire; run_of at_ (S n)] t t1) as K1'.
  { eapply keeps_wider; [|exact K1]. intros a Ho s Hs. rewrite !elem_of_cons in Hs.
    destruct Hs as [->|[->|[->|[]%elem_of_nil]]]; [apply Ho; set_solver|apply Ho; set_solver|].
    apply not_true_is_false. intros Ha%(head_of_sectors _ n). by rewrite (Ho (run_of at_ (S n))) in Ha by set_solver. }
  destruct ok1; cbn [and_then]; [|by exists false, t1].
  assert (capture_ t1 = capture_ t) as Hcap by apply K1.
  destruct (decide (n = 0%nat)) as [->|Hn].
  { exists true, t1. split; [done|]. split; [done|]. split; [done|]. intros _ i Hi. assert (i = 0%nat) as -> by lia.
    rewrite !Z.add_0_r. by apply V1. }
  assert (u32 (sector + 1) = sector + 1) as Hu by (unfold u32; apply Z.mod_small; lia).
  rewrite Hu.
  destruct (IH (sector + 1) (at_ + kSectorBytes) t1) as (ok2 & t2 & E2 & K2 & L2 & V2); try done; try lia.
  { intros a Ha. by apply Hin, rest_of_sectors. }
  { by rewrite Hcap. }
  { apply disjoint_sym. eapply disjoint_sub; [apply disjoint_sym, Htd|]. intros a. apply rest_of_sectors. }
  { rewrite Hcap. apply disjoint_sym. eapply disjoint_sub; [apply disjoint_sym, Hwd|]. intros a. apply rest_of_sectors. }
  rewrite Hcap in K2, V2. fold wire in K2, V2.
  exists ok2, t2. split; [exact E2|]. split; [|split; [exact L2|]].
  - eapply keeps_wider; [|exact (keeps_trans _ _ _ _ _ K1' K2)]. intros a Ho. apply outside_app. split; [done|].
    intros s Hs. rewrite !elem_of_cons in Hs. destruct Hs as [->|[->|[->|[]%elem_of_nil]]]; [apply Ho; set_solver|apply Ho; set_solver|].
    apply not_true_is_false. intros Ha%rest_of_sectors. by rewrite (Ho (run_of at_ (S n))) in Ha by set_solver.
  - intros Hok [|i] Hi.
    + rewrite !Z.add_0_r. eapply verified_keeps; [exact K2|exact Hch| |by apply V1].
      intros x Hx. rewrite !elem_of_cons in Hx. destruct Hx as [->|[->|[->|[]%elem_of_nil]]].
      * apply (disjoint_sub _ _ (run_of at_ (S n))); [by apply disjoint_sym|]. intros a. apply head_of_sectors.
      * apply (disjoint_sub _ _ (run_of at_ (S n))); [by apply disjoint_sym|]. intros a. apply head_of_sectors.
      * apply head_rest_disjoint.
    + replace (sector + Z.of_nat (S i)) with (sector + 1 + Z.of_nat i) by lia.
      replace (at_ + kSectorBytes * Z.of_nat (S i)) with (at_ + kSectorBytes + kSectorBytes * Z.of_nat i) by lia.
      apply V2; [done|lia].
Qed.

(** ** Writing *)

Definition header : Span := mkSpan (header_at buffers) 2.
Definition trailer : Span := mkSpan (trailer_at buffers) 2.
Definition status_command : Span := mkSpan (status_command_at buffers) 6.
Definition response : Span := mkSpan (response_at buffers) 8.
Definition accepted : Span := mkSpan (accepted_at buffers) 8.
Definition ready : Span := mkSpan (ready_at buffers) 8.
Definition card_status : Span := mkSpan (card_status_at buffers) 10.
Definition write_buffers : list Span := [tx; header; trailer; status_command; response; accepted; ready; card_status].

(** The arrays of a write lie apart from each other. *)
Definition separate (spans : list Span) : Prop :=
  forall i j s1 s2, i <> j -> spans !! i = Some s1 -> spans !! j = Some s2 -> disjoint s1 s2.

(** The transactions of a write, action by action.  The first one sends the
    command and wants the response 0, sends the start token, the block and its
    CRC, wants the data response "accepted" (5 in the low five bits), and waits
    until the card is no longer busy; the second asks for the card's status. *)
Definition write_transaction (source : Span) : list Spi.Action :=
  [Spi.mkAction Spi.write tx no_span 0 0xff true;
   Spi.mkAction Spi.read no_span response 0 0xff true;
   Spi.mkAction Spi.check_response response no_span 0xff00 0xff true;
   Spi.mkAction Spi.write header no_span 0 0xff true;
   Spi.mkAction Spi.write source no_span 0 0xff true;
   Spi.mkAction Spi.write trailer no_span 0 0xff true;
   Spi.mkAction Spi.read no_span accepted 0 0xff true;
   Spi.mkAction Spi.check_response accepted no_span 0x1f05 0xff true;
   Spi.mkAction Spi.poll_response no_span ready 0xffff 0xff true].
Definition status_transaction : list Spi.Action :=
  [Spi.mkAction Spi.write status_command no_span 0 0xff true;
   Spi.mkAction Spi.read no_span card_status 0 0xff true].
Definition gap_transaction : list Spi.Action := [Spi.mkAction Spi.idle_clocks no_span no_span 8 0xff true].

(** The transactions that write [bytes] to a sector: CMD24, the start token,
    the bytes and their CRC; a gap; CMD13, whose answer after idle bytes is two
    zero bytes; a gap. *)
Definition written (sector at_ : Z) (bytes : list Z) (ts : list Transferred) : Prop :=
  exists sent accepted_ g1 g2 asked answered g3 g4,
    ts = [mkTransferred (write_transaction (chunk at_)) sent accepted_ HalStatus.ok;
          mkTransferred gap_transaction g1 g2 HalStatus.ok;
          mkTransferred status_transaction asked answered HalStatus.ok;
          mkTransferred gap_transaction g3 g4 HalStatus.ok] /\
    SdProtocol.command_frame 24 sector (load sent tx) /\ load sent header = [0xff; 0xfe] /\ load sent (chunk at_) = bytes /\
    (exists hi lo, load sent trailer = [hi; lo] /\ is_byte hi /\ is_byte lo /\ hi * 256 + lo = Sd.crc16 bytes) /\
    SdProtocol.command_frame 13 0 (load asked status_command) /\
    (exists idle rest, load answered card_status = replicate idle 0xff ++ [0; 0] ++ rest).

Lemma status_clean_answer l : status_clean l = true -> exists idle rest, l = replicate idle 0xff ++ [0; 0] ++ rest.
Proof.
  unfold status_clean. destruct (list_find _ l) as [[f v]|] eqn:Ef; [|done]. apply list_find_Some in Ef as (Hf & _ & Hb).
  rewrite !andb_true_iff, negb_true_iff, Nat.eqb_neq, !Z.eqb_eq. intros [[Hlen ->] Hn]. pose proof (lookup_lt_Some _ _ _ Hf) as Hlt.
  exists f, (drop (S (S f)) l). cbn [app].
  rewrite <-Hn at 2. rewrite <-SdProtocol.drop_lookup_total by lia. rewrite <-(drop_S l 0 f) by done.
  apply (SdProtocol.idle_prefix l 0 f). intros i Hi. destruct (lookup_lt_is_Some_2 l i ltac:(lia)) as [x Hx]. rewrite Nat.add_0_l, Hx. f_equal.
  apply dec_stable. by apply (Hb i x Hx).
Qed.

Lemma no_span_out a : in_span no_span a = false.
Proof. apply not_true_is_false. rewrite in_span_spec. cbn. lia. Qed.
Lemma write_rx source a : outside [response; accepted; ready] a -> outside (rx_spans (write_actions buffers source)) a.
Proof.
  intros Ho s Hs. unfold rx_spans, write_actions in Hs. cbn in Hs. rewrite !elem_of_cons in Hs.
  repeat (destruct Hs as [->|Hs]; [first [apply no_span_out|apply Ho; rewrite !elem_of_cons; unfold response, accepted, ready; tauto]|]).
  by apply elem_of_nil in Hs.
Qed.
Lemma status_rx a : outside [card_status] a -> outside (rx_spans (status_actions buffers)) a.
Proof.
  intros Ho s Hs. unfold rx_spans, status_actions in Hs. cbn in Hs. rewrite !elem_of_cons in Hs.
  repeat (destruct Hs as [->|Hs]; [first [apply no_span_out|apply Ho; rewrite !elem_of_cons; unfold card_status; tauto]|]).
  by apply elem_of_nil in Hs.
Qed.

Lemma keeps_load_list spans t t' s : keeps spans t t' -> within s -> Forall (disjoint s) spans ->
  load (memory host t') s = load (memory host t) s.
Proof. intros K Hw Hd. rewrite Forall_forall in Hd. by apply (keeps_load spans). Qed.

Ltac sublist := let x := fresh in let Hx := fresh in intros x Hx; repeat rewrite elem_of_cons in Hx; rewrite !elem_of_cons; tauto.
Ltac apart_at H i :=
  first [exact (H i 0%nat _ _ ltac:(done) eq_refl eq_refl) | exact (H i 1%nat _ _ ltac:(done) eq_refl eq_refl)
        |exact (H i 2%nat _ _ ltac:(done) eq_refl eq_refl) | exact (H i 3%nat _ _ ltac:(done) eq_refl eq_refl)
        |exact (H i 4%nat _ _ ltac:(done) eq_refl eq_refl) | exact (H i 5%nat _ _ ltac:(done) eq_refl eq_refl)
        |exact (H i 6%nat _ _ ltac:(done) eq_refl eq_refl) | exact (H i 7%nat _ _ ltac:(done) eq_refl eq_refl)].
Ltac apart H :=
  first [apart_at H 0%nat | apart_at H 1%nat | apart_at H 2%nat | apart_at H 3%nat
        |apart_at H 4%nat | apart_at H 5%nat | apart_at H 6%nat | apart_at H 7%nat].
Ltac apart_all H := repeat (apply Forall_cons; split; [apart H|]); apply Forall_nil; exact I.

Definition prepare (sector at_ : Z) (t : Transport E) : Transport E :=
  let crc := Sd.crc16 (load (memory host t) (chunk at_)) in
  let t := on_memory host (store (tx_at buffers) (Sd.command 24 sector)) t in
  let t := on_memory host (store (header_at buffers) [0xff; 0xfe]) t in
  let t := on_memory host (store (trailer_at buffers) [u8 (Z.shiftr crc 8); u8 crc]) t in
  let t := t <| diag_command := 24 |> in
  on_memory host (fill accepted 0xff) (on_memory host (fill response 0xff) t).

Section write.
Context (sep : separate write_buffers) (Hwithin : Forall within write_buffers).

Lemma prepare_spec sector at_ t : within (chunk at_) -> Forall (disjoint (chunk at_)) write_buffers ->
  let bytes := load (memory host t) (chunk at_) in let t' := prepare sector at_ t in
  keeps [tx; header; trailer; response; accepted] t t' /\ transfers t' = transfers t /\
  load (memory host t') tx = Sd.command 24 sector /\ load (memory host t') header = [0xff; 0xfe] /\
  load (memory host t') trailer = [u8 (Z.shiftr (Sd.crc16 bytes) 8); u8 (Sd.crc16 bytes)].
Proof.
  intros Hch Hsrc bytes t'. unfold prepare in t'. fold bytes in t'.
  set (t1 := on_memory host (store (tx_at buffers) _) t) in t'.
  set (t2 := on_memory host (store (header_at buffers) _) t1) in t'.
  set (t3 := on_memory host (store (trailer_at buffers) _) t2) in t'.
  pose proof (keeps_store (tx_at buffers) (Sd.command 24 sector) t) as K1. fold t1 in K1.
  change (mkSpan (tx_at buffers) _) with tx in K1.
  pose proof (keeps_store (header_at buffers) [0xff; 0xfe] t1) as K2. fold t2 in K2.
  change (mkSpan (header_at buffers) _) with header in K2.
  pose proof (keeps_store (trailer_at buffers) [u8 (Z.shiftr (Sd.crc16 bytes) 8); u8 (Sd.crc16 bytes)] t2) as K3. fold t3 in K3.
  change (mkSpan (trailer_at buffers) _) with trailer in K3.
  set (t4 := t3 <| diag_command := 24 |>) in t'.
  assert (keeps [] t3 t4) as K4 by done.
  set (t5 := on_memory host (fill response 255) t4) in t'.
  pose proof (keeps_fill response 0xff t4) as K5. fold t5 in K5.
  pose proof (keeps_fill accepted 0xff t5) as K6. fold t' in K6.
  pose proof (keeps_trans _ _ _ _ _ (keeps_trans _ _ _ _ _ K4 K5) K6) as K36. cbn [app] in K36.
  pose proof (keeps_trans _ _ _ _ _ K3 K36) as K26. cbn [app] in K26.
  pose proof (keeps_trans _ _ _ _ _ K2 K26) as K16. cbn [app] in K16.
  pose proof (keeps_trans _ _ _ _ _ K1 K16) as K06. cbn [app] in K06.
  unfold write_buffers in Hwithin. rewrite !Forall_cons in Hwithin. destruct Hwithin as (Wtx & Wh & Wt & _).
  split; [exact K06|]. split; [done|]. split; [|split].
  - rewrite (keeps_load_list _ _ _ tx K16 Wtx) by apart_all sep. subst t1. rewrite memory_on_memory.
    apply (load_store (tx_at buffers) (Sd.command 24 sector)).
  - rewrite (keeps_load_list _ _ _ header K26 Wh) by apart_all sep. subst t2. rewrite memory_on_memory.
    apply (load_store (header_at buffers) [0xff; 0xfe]).
  - rewrite (keeps_load_list _ _ _ trailer K36 Wt) by apart_all sep. subst t3. rewrite memory_on_memory.
    apply (load_store (trailer_at buffers) [u8 (Z.shiftr (Sd.crc16 bytes) 8); u8 (Sd.crc16 bytes)]).
Qed.

(** The second half of a sector: CMD13 and the gap after it. *)
Definition confirm (t : Transport E) : option (bool * Transport E) :=
  let t := on_memory host (store (status_command_at buffers) (Sd.command 13 0)) t in
  let t := t <| diag_command := 13 |> in
  let t := on_memory host (fill card_status 0xff) t in
  and_then (Transfer host limit (status_actions buffers) kReadTimeout t) (fun t =>
  and_then (Gap host limit t) (fun t =>
  Some (if status_clean (load (memory host t) card_status) then (true, t) else Fail HalStatus.response_mismatch t))).

Lemma confirm_spec t : exists ok t', confirm t = Some (ok, t') /\
  keeps [status_command; card_status] t t' /\ latches ok t' /\
  (ok = true -> exists asked answered g1 g2,
     transfers t' = transfers t ++ [mkTransferred (status_actions buffers) asked answered HalStatus.ok;
                                    mkTransferred gap_actions g1 g2 HalStatus.ok] /\
     load asked status_command = Sd.command 13 0 /\ status_clean (load answered card_status) = true).
Proof.
  unfold confirm. set (t1 := on_memory host (store _ _) t).
  match goal with |- context [Transfer host limit _ _ ?x] => set (t3 := x) end.
  pose proof (keeps_store (status_command_at buffers) (Sd.command 13 0) t) as K1. fold t1 in K1.
  change (mkSpan (status_command_at buffers) _) with status_command in K1.
  assert (keeps [card_status] t1 t3) as K3.
  { subst t3. match goal with |- keeps _ _ (on_memory host _ ?x) => set (t2 := x) end.
    assert (keeps [] t1 t2) as K2 by done. exact (keeps_trans _ _ _ _ _ K2 (keeps_fill card_status 255 t2)). }
  unfold write_buffers in Hwithin. rewrite !Forall_cons in Hwithin. destruct Hwithin as (_ & _ & _ & Wc & _ & _ & _ & Ws & _).
  assert (load (memory host t3) status_command = Sd.command 13 0) as Hcmd.
  { rewrite (keeps_load_list _ _ _ _ K3 Wc) by apart_all sep. subst t1. rewrite memory_on_memory.
    apply (load_store (status_command_at buffers) (Sd.command 13 0)). }
  destruct (Transfer_spec (status_actions buffers) kReadTimeout t3) as (ok4 & t4 & E4 & K4 & L4 & T4). rewrite E4.
  assert (keeps [card_status] t3 t4) as K4' by (eapply keeps_wider; [|exact K4]; intros a; apply status_rx).
  pose proof (keeps_trans _ _ _ _ _ (keeps_trans _ _ _ _ _ K1 K3) K4') as K14. cbn [app] in K14.
  destruct ok4; cbn [and_then];
    [|exists false, t4; split; [reflexivity|]; split; [eapply keeps_weaken; [|exact K14]; sublist|]; split; [exact L4|discriminate]].
  destruct (Gap_spec t4) as (ok5 & t5 & E5 & K5 & L5 & T5). rewrite E5.
  pose proof (keeps_trans _ _ _ _ _ K14 K5) as K15. rewrite app_nil_r in K15.
  destruct ok5; cbn [and_then];
    [|exists false, t5; split; [reflexivity|]; split; [eapply keeps_weaken; [|exact K15]; sublist|]; split; [exact L5|discriminate]].
  pose proof (keeps_load_list _ _ _ card_status K5 Ws (Forall_nil_2 _)) as Hst.
  destruct (status_clean (load (memory host t5) card_status)) eqn:Ec.
  - exists true, t5. split; [reflexivity|]. split; [eapply keeps_weaken; [|exact K15]; sublist|]. split; [discriminate|]. intros _.
    exists (memory host t3), (memory host t4), (memory host t4), (memory host t5).
    split; [rewrite T5, T4 by done; by rewrite <-app_assoc|]. split; [exact Hcmd|]. by rewrite <-Hst.
  - eexists false, _. split; [reflexivity|]. split; [eapply keeps_weaken; [|exact K15]; sublist|]. split; [intros _ _; reflexivity|discriminate].
Qed.

Lemma write_sector_spec sector at_ t : is_u32 sector -> within (chunk at_) -> Forall (disjoint (chunk at_)) write_buffers ->
  exists ok t', write_sector host buffers limit sector at_ t = Some (ok, t') /\
    keeps write_buffers t t' /\ latches ok t' /\
    (ok = true -> exists ts, transfers t' = transfers t ++ ts /\ written sector at_ (load (memory host t) (chunk at_)) ts).
Proof.
  intros Hsec Hch Hsrc. destruct (prepare_spec sector at_ t Hch Hsrc) as (K1 & T1 & Htx & Hhd & Htr).
  set (t1 := prepare sector at_ t) in *. set (bytes := load (memory host t) (chunk at_)) in *.
  assert (write_sector host buffers limit sector at_ t =
    and_then (Transfer host limit (write_actions buffers (chunk at_)) kWriteTimeout t1) (fun t =>
      and_then (Gap host limit t) confirm)) as -> by reflexivity.
  assert (load (memory host t1) (chunk at_) = bytes) as Hby.
  { apply (keeps_load_list _ _ _ _ K1 Hch). unfold write_buffers in Hsrc. rewrite !Forall_cons in Hsrc. rewrite !Forall_cons. tauto. }
  destruct (Transfer_spec (write_actions buffers (chunk at_)) kWriteTimeout t1) as (ok2 & t2 & E2 & K2 & L2 & T2). rewrite E2.
  assert (keeps [response; accepted; ready] t1 t2) as K2' by (eapply keeps_wider; [|exact K2]; intros a; apply write_rx).
  pose proof (keeps_trans _ _ _ _ _ K1 K2') as K12. cbn [app] in K12. unfold write_buffers.
  destruct ok2; cbn [and_then];
    [|exists false, t2; split; [reflexivity|]; split; [eapply keeps_weaken; [|exact K12]; sublist|]; split; [exact L2|discriminate]].
  destruct (Gap_spec t2) as (ok3 & t3 & E3 & K3 & L3 & T3). rewrite E3.
  pose proof (keeps_trans _ _ _ _ _ K12 K3) as K13. cbn [app] in K13.
  destruct ok3; cbn [and_then];
    [|exists false, t3; split; [reflexivity|]; split; [eapply keeps_weaken; [|exact K13]; sublist|]; split; [exact L3|discriminate]].
  destruct (confirm_spec t3) as (ok4 & t4 & E4 & K4 & L4 & T4). exists ok4, t4. split; [exact E4|].
  pose proof (keeps_trans _ _ _ _ _ K13 K4) as K14. cbn [app] in K14.
  split; [eapply keeps_weaken; [|exact K14]; sublist|]. split; [exact L4|]. intros Hok.
  destruct (T4 Hok) as (asked & answered & g3 & g4 & Htr4 & Hask & Hans). eexists. split.
  - rewrite Htr4, T3, T2, T1 by done. rewrite <-!app_assoc. reflexivity.
  - unfold written. eexists _, _, _, _, asked, answered, g3, g4. split; [reflexivity|].
    split; [rewrite Htx; apply SdProtocol.command_is_frame; [lia|exact Hsec]|]. split; [exact Hhd|]. split; [exact Hby|].
    split; [eexists _, _; split; [exact Htr|apply SdProtocol.crc_bytes, SdProtocol.crc16_u16]|].
    split; [rewrite Hask; apply SdProtocol.command_is_frame; unfold is_u32; lia|by apply status_clean_answer].
Qed.

Lemma write_sectors_spec n : forall sector at_ t,
  within (run_of at_ n) -> Forall (disjoint (run_of at_ n)) write_buffers ->
  0 <= sector -> sector + Z.of_nat n <= 2 ^ 32 ->
  exists ok t', write_sectors host buffers limit n sector at_ t = Some (ok, t') /\ keeps write_buffers t t' /\ latches ok t' /\
    (ok = true -> exists tss, length tss = n /\ transfers t' = transfers t ++ concat tss /\
       forall i ts, tss !! i = Some ts -> written (sector + Z.of_nat i) (at_ + kSectorBytes * Z.of_nat i)
         (load (memory host t) (chunk (at_ + kSectorBytes * Z.of_nat i))) ts).
Proof.
  induction n as [|n IH]; intros sector at_ t Hin Hsrc H0 Hmax.
  { exists true, t. split; [done|]. split; [apply keeps_same|]. split; [done|]. intros _. exists []. by rewrite app_nil_r. }
  assert (within (chunk at_)) as Hch by (intros a Ha; by apply Hin, head_of_sectors).
  assert (forall s, (forall a, in_span s a = true -> in_span (run_of at_ (S n)) a = true) -> Forall (disjoint s) write_buffers) as Hsub.
  { intros s Hs. eapply Forall_impl; [exact Hsrc|]. intros x Hx. by apply (disjoint_sub _ _ (run_of at_ (S n))). }
  destruct (write_sector_spec sector at_ t ltac:(unfold is_u32; lia) Hch) as (ok1 & t1 & E1 & K1 & L1 & V1).
  { apply Hsub. intros a. apply head_of_sectors. }
  cbn [write_sectors]. rewrite E1. destruct ok1; cbn [and_then]; [|by exists false, t1].
  destruct (V1 eq_refl) as (ts1 & T1 & W1). destruct (decide (n = 0%nat)) as [->|Hn].
  { exists true, t1. split; [done|]. split; [done|]. split; [done|]. intros _. exists [ts1]. cbn [concat]. rewrite app_nil_r.
    split; [done|]. split; [done|]. intros [|i] ts Hts; [|destruct i; discriminate Hts].
    cbn in Hts. injection Hts as <-. rewrite !Z.add_0_r. exact W1. }
  assert (u32 (sector + 1) = sector + 1) as -> by (unfold u32; apply Z.mod_small; lia).
  destruct (IH (sector + 1) (at_ + kSectorBytes) t1) as (ok2 & t2 & E2 & K2 & L2 & V2); try lia.
  { intros a Ha. by apply Hin, rest_of_sectors. }
  { apply Hsub. intros a. apply rest_of_sectors. }
  exists ok2, t2. split; [exact E2|]. split; [|split; [exact L2|]].
  { eapply keeps_weaken; [|exact (keeps_trans _ _ _ _ _ K1 K2)]. intros x [Hx|Hx]%elem_of_app; exact Hx. }
  intros Hok. destruct (V2 Hok) as (tss & Hlen & T2 & W2). exists (ts1 :: tss). split; [cbn; lia|].
  split; [rewrite T2, T1; cbn [concat]; by rewrite app_assoc|]. intros [|i] ts Hts; cbn in Hts.
  - injection Hts as <-. rewrite !Z.add_0_r. exact W1.
  - replace (sector + Z.of_nat (S i)) with (sector + 1 + Z.of_nat i) by lia.
    replace (at_ + kSectorBytes * Z.of_nat (S i)) with (at_ + kSectorBytes + kSectorBytes * Z.of_nat i) by lia.
    assert (i < n)%nat as Hi by (rewrite <-Hlen; by eapply lookup_lt_Some).
    assert (forall a, in_span (chunk (at_ + kSectorBytes + kSectorBytes * Z.of_nat i)) a = true -> in_span (run_of at_ (S n)) a = true) as Hc.
    { intros a Ha. by apply rest_of_sectors, (chunk_of_sectors _ _ i). }
    rewrite <-(keeps_load_list _ _ _ _ K1) by (by apply Hsub || (intros a Ha; by apply Hin, Hc)). by apply W2.
Qed.
End write.

(** ** A whole call *)

Lemma pumped_spec t : owned (host_env t) = [] -> keeps [] t (snd (pumped host t)) /\
  operation_started_ (snd (pumped host t)) = operation_started_ t /\ transfers (snd (pumped host t)) = transfers t.
Proof.
  intros Ho. unfold pumped. destruct (h_pump host) as [f|] eqn:Ef.
  - pose proof (hl_pump laws f (host_env t) Ef) as [Hm _]. change (default (fun e0 => (false, e0)) (Some f) (host_env t)) with (f (host_env t)).
    destruct (f (host_env t)) as [go e]. cbn [snd] in *. split; [|done]. split; [done|]. split; [|done].
    intros a Ha _. change (h_mem host e a = h_mem host (host_env t) a). apply Hm; [done|]. rewrite Ho. by intros s Hs%elem_of_nil.
  - cbn. split; [|done]. split; [done|]. by split.
Qed.

Lemma clear_spec t : keeps [card_status; ready; accepted; response] t
  (on_memory host (fill ready 0) (on_memory host (fill card_status 0) (on_memory host (fill response 0) (on_memory host (fill accepted 0) t)))).
Proof.
  set (t1 := on_memory host (fill accepted 0) t). set (t2 := on_memory host (fill response 0) t1).
  set (t3 := on_memory host (fill card_status 0) t2).
  pose proof (keeps_trans _ _ _ _ _ (keeps_fill accepted 0 t) (keeps_fill response 0 t1)) as K12.
  pose proof (keeps_trans _ _ _ _ _ (keeps_fill card_status 0 t2) (keeps_fill ready 0 t3)) as K34.
  eapply keeps_weaken; [|exact (keeps_trans _ _ _ _ _ K12 K34)]. cbn [app]. sublist.
Qed.

Lemma refused_false sector span t : 0 <= sp_size span -> refused host sector (sp_size span) t = false ->
  run_of (sp_data span) (Z.to_nat (sp_size span / kSectorBytes)) = span /\
  sector + Z.of_nat (Z.to_nat (sp_size span / kSectorBytes)) <= 2 ^ 32.
Proof.
  intros H0. unfold refused. rewrite !orb_false_iff. intros H.
  destruct H as [[[_ Hmod] _] Hmax]. apply negb_false_iff, Z.eqb_eq in Hmod. rewrite Z.gtb_ltb in Hmax. apply Z.ltb_ge in Hmax.
  assert (0 <= sp_size span / kSectorBytes) as Hdiv by (apply Z.div_pos; [done|by vm_compute]).
  rewrite Z2Nat.id by done. split; [|done]. unfold run_of. rewrite Z2Nat.id by done. destruct span as [d n]. cbn [sp_data sp_size] in *.
  f_equal. pose proof (Z.div_mod n kSectorBytes ltac:(by vm_compute)). lia.
Qed.

(** A read always returns; when it returns true every sector was verified, and
    when it returns false after the card was given work the transport is
    failed. *)
Lemma read_correct sector destination t : let wire := mkSpan (sp_data (capture_ t)) kCaptureBytes in
  0 <= sector -> 0 <= sp_size destination -> owned (host_env t) = [] ->
  within tx -> within destination -> disjoint tx wire -> disjoint tx destination -> disjoint wire destination ->
  exists ok t', read host buffers limit sector destination t = Some (ok, t') /\
    (refused host sector (sp_size destination) t = false -> kCaptureBytes <= sp_size (capture_ t) -> latches ok t') /\
    (ok = true -> forall i, (i < Z.to_nat (sp_size destination / kSectorBytes))%nat ->
       verified wire (sector + Z.of_nat i) (sp_data destination + kSectorBytes * Z.of_nat i) t').
Proof.
  intros wire H0 Hsz Ho Htx Hd Htw Htd Hwd. unfold read.
  destruct (refused host sector (sp_size destination) t) eqn:Er; [by exists false, t|].
  destruct (sp_size (capture_ t) <? kCaptureBytes) eqn:Ec; [apply Z.ltb_lt in Ec; exists false, t; split; [done|]; split; [lia|done]|].
  destruct (refused_false _ _ _ Hsz Er) as [Hrun Hmax]. set (n := Z.to_nat _) in *.
  match goal with |- context [pumped host ?x] => set (t1 := x) end.
  pose proof (pumped_spec t1 Ho) as (Kp & Op & _). destruct (pumped host t1) as [go t2]. cbn [snd] in *.
  destruct go; cbn [negb].
  2:{ eexists false, _. split; [reflexivity|]. split; [|discriminate]. intros _ _ _. cbn. by rewrite Op. }
  assert (capture_ t2 = capture_ t) as Hcap by apply Kp.
  destruct (read_sectors_spec n sector (sp_data destination) t2) as (ok & t3 & E3 & _ & L3 & V3); rewrite ?Hrun, ?Hcap; try done.
  rewrite E3. rewrite Hcap in V3. fold wire in V3. eexists ok, _. split; [reflexivity|]. split; [by intros|exact V3].
Qed.

(** C30: A write to an SD card always returns.  When it returns true the card
    saw, for each sector in order, exactly four successful transactions: the
    frame of CMD24 with that sector's number, answered by 0, then the start
    token, the caller's 512 bytes and their CRC-16, answered by "accepted", then
    polls until the card is no longer busy; a gap; CMD13, whose status is two
    zero bytes; a gap.  When it returns false after the card was given work the
    transport is failed. *)
Theorem sd_write_confirmed sector source t :
  separate write_buffers -> Forall within write_buffers -> within source -> Forall (disjoint source) write_buffers ->
  0 <= sector -> 0 <= sp_size source -> owned (host_env t) = [] ->
  exists ok t', write host buffers limit sector source t = Some (ok, t') /\
    (refused host sector (sp_size source) t = false -> latches ok t') /\
    (ok = true -> exists tss, length tss = Z.to_nat (sp_size source / kSectorBytes) /\ transfers t' = transfers t ++ concat tss /\
       forall i ts, tss !! i = Some ts -> written (sector + Z.of_nat i) (sp_data source + kSectorBytes * Z.of_nat i)
         (load (memory host t) (chunk (sp_data source + kSectorBytes * Z.of_nat i))) ts).
Proof.
  intros Hsep Hwithin Hin Hsrc H0 Hsz Ho. unfold write.
  destruct (refused host sector (sp_size source) t) eqn:Er; [by exists false, t|].
  destruct (refused_false _ _ _ Hsz Er) as [Hrun Hmax]. set (n := Z.to_nat _) in *.
  match goal with |- context [pumped host ?x] => set (t1 := x) end.
  pose proof (pumped_spec t1 Ho) as (Kp & Op & Tp). destruct (pumped host t1) as [go t2]. cbn [snd] in *.
  destruct go; cbn [negb].
  2:{ eexists false, _. split; [reflexivity|]. split; [|discriminate]. intros _ _. cbn. by rewrite Op. }
  match goal with |- context [write_sectors _ _ _ _ _ _ ?x] => set (t3 := x) end.
  assert (keeps write_buffers t t3) as K3.
  { subst t3. match goal with |- keeps _ _ (on_memory _ _ (on_memory _ _ (on_memory _ _ (on_memory _ _ ?x)))) => set (t3 := x) end.
    assert (keeps [] t1 t3) as K1 by exact Kp. pose proof (keeps_trans _ _ _ _ _ K1 (clear_spec t3)) as K. cbn [app] in K.
    eapply keeps_weaken; [|exact K]. unfold write_buffers. sublist. }
  destruct (write_sectors_spec Hsep Hwithin n sector (sp_data source) t3) as (ok & t4 & E4 & _ & L4 & V4); rewrite ?Hrun; try done.
  rewrite E4. eexists ok, _. split; [reflexivity|]. split; [by intros|]. intros Hok.
  destruct (V4 Hok) as (tss & Hlen & Ht & Hw). exists tss. split; [exact Hlen|].
  split; [etrans; [exact Ht|]; f_equal; exact Tp|]. intros i ts Hts. specialize (Hw i ts Hts).
  assert (i < n)%nat as Hi by (rewrite <-Hlen; by eapply lookup_lt_Some).
  rewrite (keeps_load_list _ _ _ _ K3) in Hw; [exact Hw| |].
  - intros a Ha. apply Hin. rewrite <-Hrun. by apply (chunk_of_sectors _ _ i).
  - eapply Forall_impl; [exact Hsrc|]. intros x Hx. apply (disjoint_sub _ _ source); [done|]. intros a Ha. rewrite <-Hrun.
    by apply (chunk_of_sectors _ _ i).
Qed.
End correct.

(** ** A card that answers at once *)

Lemma disjoint_ends s1 s2 : (sp_data s1 + sp_size s1 <=? sp_data s2) || (sp_data s2 + sp_size s2 <=? sp_data s1) = true -> disjoint s1 s2.
Proof.
  rewrite orb_true_iff, !Z.leb_le. intros He a Ha. apply not_true_is_false. rewrite in_span_spec. rewrite in_span_spec in Ha. lia.
Qed.
Definition separate_check (spans : list Span) : bool :=
  forallb (fun i => forallb (fun j => (i =? j)%nat ||
    match spans !! i, spans !! j with
    | Some s1, Some s2 => (sp_data s1 + sp_size s1 <=? sp_data s2) || (sp_data s2 + sp_size s2 <=? sp_data s1)
    | _, _ => true
    end) (seq 0 (length spans))) (seq 0 (length spans)).
Lemma separate_by_check spans : separate_check spans = true -> separate spans.
Proof.
  unfold separate_check. rewrite forallb_forall. intros Hc i j s1 s2 Hne H1 H2.
  assert (In i (seq 0 (length spans))) as Hi by (apply in_seq; pose proof (lookup_lt_Some _ _ _ H1); lia).
  specialize (Hc i Hi). rewrite forallb_forall in Hc. assert (In j (seq 0 (length spans))) as Hj by (apply in_seq; pose proof (lookup_lt_Some _ _ _ H2); lia).
  specialize (Hc j Hj). rewrite H1, H2 in Hc. apply orb_true_iff in Hc as [Hc%Nat.eqb_eq|Hc]; [done|]. by apply disjoint_ends.
Qed.

Definition sim_buffers : Buffers := mkBuffers 0 10 20 30 40 50 60 70.
Definition sim_payload : list Z := replicate 512 0xa5.
(** What the card puts where: a data block, R1, the data response, ready and
    the status. *)
Definition sim_image : list Z :=
  replicate 40 0xff ++ [0xff; 0; 0xff; 0xff; 0xff; 0xff; 0xff; 0xff; 0xff; 0xff] ++ [0xe5; 0xff; 0xff; 0xff; 0xff; 0xff; 0xff; 0xff; 0xff; 0xff] ++
  replicate 10 0xff ++ [0xff; 0; 0; 0xff; 0xff; 0xff; 0xff; 0xff; 0xff; 0xff] ++ replicate 20 0xff ++
  [0; 0xfe] ++ sim_payload ++ [Z.shiftr (Sd.crc16 sim_payload) 8; u8 (Sd.crc16 sim_payload)].
Definition SimEnv : Type := Mem * Completion (A:=Spi.Action).
Definition sim_submit (actions : list Spi.Action) (timeout : option Duration) (e : SimEnv) : HalStatus * SimEnv :=
  (HalStatus.ok, (fun a => if existsb (fun s => in_span s a) (rx_spans actions) then sim_image !!! Z.to_nat a else fst e a,
                  mkCompletion published (mkResult HalStatus.ok (length actions) actions))).
Definition sim_host : Host SimEnv :=
  mkHost fst (fun m e => (m, snd e)) snd (fun c e => (fst e, c)) sim_submit (Some (fun e => (true, e))).
Definition sim_transport : Transport SimEnv :=
  new_transport (mkSpan 100 600) 400000 1000 (fun _ => 7, mkCompletion empty (mkResult HalStatus.ok 0 [])).

Lemma sim_host_laws : host_laws sim_host 0 (fun _ => True) (fun _ => []).
Proof.
  constructor; cbn; try done.
  - intros actions timeout e. split; [|set_solver]. intros a _ Ho.
    destruct (existsb _ _) eqn:Ee; [|done]. apply existsb_exists in Ee as (s & Hs & Ha).
    rewrite (Ho s) in Ha; [done|by apply list_elem_of_In].
  - intros f e Hf. injection Hf as <-. done.
  - intros actions timeout e e' He. injection He as <-. by eexists.
Qed.

Lemma sd_write_confirmed_witness : exists t' ts, write sim_host sim_buffers 0 5 (mkSpan 1000 512) sim_transport = Some (true, t') /\
  transfers t' = ts /\ written sim_buffers 5 1000 (replicate 512 7) ts.
Proof.
  destruct (sd_write_confirmed sim_host sim_buffers 0 (fun _ => True) (fun _ => []) sim_host_laws 5 (mkSpan 1000 512) sim_transport)
    as (ok & t' & Er & _ & V).
  - apply separate_by_check. vm_compute. reflexivity.
  - rewrite Forall_forall. intros ? _ ? _. exact I.
  - intros ? _. exact I.
  - repeat (apply Forall_cons; split; [apply disjoint_ends; vm_compute; reflexivity|]). apply Forall_nil. exact I.
  - lia.
  - cbn. lia.
  - reflexivity.
  - assert (fst <$> write sim_host sim_buffers 0 5 (mkSpan 1000 512) sim_transport = Some true) as Hok by (vm_compute; reflexivity).
    rewrite Er in Hok. cbn in Hok. injection Hok as ->. destruct (V eq_refl) as (tss & Hlen & Ht & Hw). change (length tss = 1%nat) in Hlen.
    destruct tss as [|ts [|]]; [discriminate Hlen| |discriminate Hlen].
    exists t', ts. split; [exact Er|]. cbn [concat] in Ht. rewrite app_nil_r in Ht. split; [exact Ht|].
    specialize (Hw 0%nat ts eq_refl).
    assert (load (memory sim_host sim_transport) (chunk 1000) = replicate 512 7) as Hl by (vm_compute; reflexivity).
    rewrite <-Hl. exact Hw.
Defined.
