(* ===== verification/SdSession.v ===== *)
(** * One SD card's lifecycle (src/lib/storage/sd/session.h)

    The session owns the initializer, its own completion and buffers, and lends
    the card as a block device.  The environment [E] is the one the initializer
    and the transports see; the session's command and receive buffers lie in
    its memory, since a transport captures into the same receive buffer.  The
    injected hooks act on [E] and do not call the session back, and neither does the pump; hooks the code
    tests for null are options. *)

From Stdlib Require Import Strings.String.
From S2P Require Import Prelude Foundation StateMachine HalBase Spi I2c HalAction HalController SdProtocol SdInitializer SdTransport.

Module SessionState.
Inductive SessionState : Set := idle | resetting | initializing | command | gap | done | failed.
End SessionState.
#[global] Instance SessionState_eq_dec : EqDecision SessionState.SessionState.
Proof. solve_decision. Defined.
#[export] Instance SessionState_enum : StateEnum SessionState.SessionState := {|
  state_index (s : SessionState.SessionState) := match s with
    | SessionState.idle => 0 | SessionState.resetting => 1 | SessionState.initializing => 2 | SessionState.command => 3
    | SessionState.gap => 4 | SessionState.done => 5 | SessionState.failed => 6 end%nat;
  state_count := 7%nat
|}.

Definition kStartupHz : Z := 400000.
Definition kDataHz : Z := kMaximumHz.
Definition kReceiveCapacity : Z := 512 + 4.

Module Kind.
Inductive Kind : Set := read | finish | fail.
End Kind.
Record NextStep := mkNextStep { step_kind : Kind.Kind; step_command : Z; step_argument : Z; step_error : option string }.

(** [enum_name] of a HAL status, which the enumeration macro generates. *)
Definition hal_status_name (s : HalStatus) : string :=
  match s with
  | HalStatus.ok => "ok" | HalStatus.busy => "busy" | HalStatus.invalid_argument => "invalid_argument"
  | HalStatus.unsupported_buffer => "unsupported_buffer" | HalStatus.not_initialized => "not_initialized"
  | HalStatus.initialization_failed => "initialization_failed" | HalStatus.timeout => "timeout"
  | HalStatus.timer_error => "timer_error" | HalStatus.nack => "nack" | HalStatus.arbitration_lost => "arbitration_lost"
  | HalStatus.hardware_error => "hardware_error" | HalStatus.response_mismatch => "response_mismatch"
  | HalStatus.faulted => "faulted" | HalStatus.aborted => "aborted"
  end%string.

(** The speed, reset and observer hooks.  [reset_start] also tells whether the
    callback ran before it returned, and with which result. *)
Record Hooks (E : Type) := mkHooks {
  speed_set : option (Z -> E -> E);
  speed_rate : option (E -> Z);
  reset_start : option (E -> HalStatus * option HalStatus * E);
  on_started : option (E -> E);
  on_next : option (Z -> list Z -> E -> NextStep * E);
  on_completed : option (bool -> E -> E);
  on_reset_completed : option (HalStatus -> E -> E);
  on_read_failed : option (Z -> E -> E);
  on_write_failed : option (Z -> HalStatus * Z * nat -> E -> E)
}.
Arguments mkHooks {E}. Arguments speed_set {E}. Arguments speed_rate {E}. Arguments reset_start {E}. Arguments on_started {E}.
Arguments on_next {E}. Arguments on_completed {E}. Arguments on_reset_completed {E}. Arguments on_read_failed {E}.
Arguments on_write_failed {E}.

Section session.
#[local] Open Scope string_scope.
#[local] Open Scope list_scope.
#[local] Open Scope Z_scope.
Context {E : Type} (submit : list Spi.Action -> option Duration -> E -> HalStatus * E).
(** Where the buffers of the initializer and of the session are. *)
Context (init_tx init_rx tx_at rx_at : Z).
Context (host : Host E) (buffers : Buffers) (limit : nat) (hooks : Hooks E).

Record Session := mkSession {
  s_initializer : Initializer E;
  s_completion : Completion (A:=Spi.Action);
  s_reset_ready : bool; s_reset_status : HalStatus;
  s_machine : Machine SessionState.SessionState;
  s_actions : list Spi.Action;
  s_card : Sd.Card;
  s_receive_size : Z;
  s_command : Z; s_argument : Z; s_ocr : Z;
  s_error : string;
  s_requested : bool; s_running : bool; s_ready : bool; s_leased : bool; s_reset_requested : bool
}.
#[export] Instance Session_eta : RecordEta Session := fun s =>
  mkSession (s_initializer s) (s_completion s) (s_reset_ready s) (s_reset_status s) (s_machine s) (s_actions s) (s_card s)
    (s_receive_size s) (s_command s) (s_argument s) (s_ocr s) (s_error s) (s_requested s) (s_running s) (s_ready s)
    (s_leased s) (s_reset_requested s).
#[export] Instance Session_machine : HasMachine Session SessionState.SessionState := {|
  machine := s_machine; with_machine m s := s <| s_machine := m |>
|}.
#[export] Instance Session_machine_laws : HasMachineLaws Session SessionState.SessionState.
Proof. split; [done|done|by intros []]. Qed.

Definition new_session (e : E) : Session :=
  mkSession (new_initializer e) (mkCompletion empty (mkResult HalStatus.ok 0 [])) false HalStatus.ok
    (initial_machine SessionState.idle) (replicate 6 inhabitant) (Sd.mkCard 0 0) 0 0 0 0 EmptyString false false false false false.

Definition s_env (s : Session) : E := sd_env (s_initializer s).
Definition with_env (e : E) (s : Session) : Session := s <| s_initializer := (s_initializer s) <| sd_env := e |> |>.
Definition notify {X : Type} (hook : option X) (call : X -> E -> E) (s : Session) : Session :=
  match hook with Some f => with_env (call f (s_env s)) s | None => s end.

Definition Busy (s : Session) : bool := s_running s || s_requested s || s_reset_requested s || s_leased s.
Definition request (s : Session) : HalStatus * Session :=
  if Busy s then (HalStatus.busy, s) else (HalStatus.ok, s <| s_ready := false |> <| s_requested := true |>).
Definition reset (s : Session) : HalStatus * Session :=
  if Busy s then (HalStatus.busy, s) else (HalStatus.ok, s <| s_ready := false |> <| s_reset_requested := true |>).
Definition session_running (s : Session) : bool := s_running s || s_requested s || s_reset_requested s.

Definition SetSpeed (hz : Z) (s : Session) : Session := notify (speed_set hooks) (fun f => f hz) s.
Definition Rate (s : Session) : Z := match speed_rate hooks with Some f => f (s_env s) | None => 0 end.
Definition Length (cmd : Z) : Z := if cmd =? 17 then 512 else 16.
Definition ResetDone (status : HalStatus) (s : Session) : Session := s <| s_reset_status := status |> <| s_reset_ready := true |>.

(** [std::span{rx_}.first(receive_size_)]. *)
Definition received (s : Session) : list Z := load (h_mem host (s_env s)) (mkSpan rx_at (s_receive_size s)).
Definition Received (s : Session) : Kind.Kind * Session :=
  match Sd.data (received s) (Z.to_nat (Length (s_command s))) 1 with
  | None => (Kind.fail, s <| s_error := "missing/error data token, truncated data or CRC mismatch" |>)
  | Some payload =>
  match (if s_command s =? 9 then Sd.card payload else Some (s_card s)) with
  | None => (Kind.fail, s <| s_error := "unsupported or invalid CSD" |>)
  | Some parsed =>
  let s := if s_command s =? 9 then s <| s_card := parsed |> else s in
  match on_next hooks with
  | None => (Kind.finish, SetSpeed (Z.min kDataHz (Sd.maximum_hz (s_card s))) s)
  | Some next =>
      let '(step, e) := next (s_command s) payload (s_env s) in
      let s := with_env e s in
      (step_kind step,
       match step_kind step with
       | Kind.read => s <| s_command := step_command step |> <| s_argument := step_argument step |>
       | Kind.fail => s <| s_error := default "diagnostic check failed" (step_error step) |>
       | Kind.finish => s
       end)
  end end end.

Definition Step (cs : SessionState.SessionState) (s : Session) : SessionState.SessionState * Session :=
  match cs with
  | SessionState.idle | SessionState.done | SessionState.failed =>
      if s_reset_requested s then (SessionState.resetting, s <| s_reset_requested := false |> <| s_running := true |>)
      else if s_requested s then
        let s := s <| s_requested := false |> <| s_running := true |> in
        let s := SetSpeed kStartupHz s in
        let s := s <| s_command := 0 |> <| s_argument := 0 |> <| s_error := "invalid command response" |> in
        let s := notify (on_started hooks) (fun f => f) s in
        (SessionState.initializing, s <| s_initializer := snd (SdInitializer.request (s_initializer s)) |>)
      else (cs, s)
  | SessionState.resetting =>
      if s_reset_ready s then
        let s := if negb (s_reset_status s =h? HalStatus.ok) then s <| s_error := hal_status_name (s_reset_status s) |> else s in
        let s := s <| s_running := false |> in
        (SessionState.idle, notify (on_reset_completed hooks) (fun f => f (s_reset_status s)) s)
      else (cs, s)
  | SessionState.initializing =>
      let s := s <| s_initializer := SdInitializer.tick submit init_tx init_rx (s_initializer s) |> in
      match init_result (s_initializer s) with
      | None => (cs, s)
      | Some result =>
          let s := s <| s_ocr := ir_ocr result |> <| s_command := ir_command result |> in
          if ir_status result =h? HalStatus.ok then (SessionState.gap, s <| s_command := 9 |>)
          else (SessionState.failed, s <| s_error := hal_status_name (ir_status result) |>)
      end
  | SessionState.gap =>
      match completion_result (s_completion s) with
      | None => (cs, s)
      | Some result =>
          if r_status result =h? HalStatus.ok then (SessionState.command, s)
          else (SessionState.failed, s <| s_error := hal_status_name (r_status result) |>)
      end
  | SessionState.command =>
      match completion_result (s_completion s) with
      | None => (cs, s)
      | Some result =>
          if negb (r_status result =h? HalStatus.ok) then (SessionState.failed, s <| s_error := hal_status_name (r_status result) |>)
          else
            let '(kind, s) := Received s in
            (match kind with Kind.read => SessionState.gap | Kind.finish => SessionState.done | Kind.fail => SessionState.failed end, s)
      end
  end.

(** [completion_.start] with the actions. *)
Definition submit_session (actions : list Spi.Action) (s : Session) : HalStatus * Session :=
  let '(st, e) := submit actions (Some kTransferTimeout) (s_env s) in (st, with_env e s).
Definition start_session (actions : list Spi.Action) (s : Session) : Session :=
  snd (completion_start s_completion (fun c s => s <| s_completion := c |>) (submit_session actions) actions s).
Definition session_memory (f : Mem -> Mem) (s : Session) : Session := with_env (h_set host (f (h_mem host (s_env s))) (s_env s)) s.

Definition OnEnter (state : SessionState.SessionState) (s : Session) : Session :=
  match state with
  | SessionState.resetting =>
      let s := s <| s_reset_ready := false |> in
      match reset_start hooks with
      | None => ResetDone HalStatus.invalid_argument s
      | Some start =>
          let '(status, called, e) := start (s_env s) in
          let s := with_env e s in
          let s := match called with Some result => ResetDone result s | None => s end in
          if negb (status =h? HalStatus.ok) then ResetDone status s else s
      end
  | SessionState.gap =>
      let s := s <| s_actions := <[0%nat := Spi.idle_clocks_action 8]> (s_actions s) |> in
      start_session (take 1 (s_actions s)) s
  | SessionState.command =>
      let s := session_memory (store tx_at (Sd.command (s_command s) (s_argument s))) s in
      let s := session_memory (fill (mkSpan rx_at kReceiveCapacity) 0xff) s in
      let s := s <| s_receive_size := Length (s_command s) + 4 |> in
      let s := s <| s_actions := Sd.read_actions (mkSpan tx_at 6) (mkSpan rx_at (s_receive_size s)) |> in
      start_session (s_actions s) s
  | SessionState.done | SessionState.failed =>
      let s := s <| s_running := false |> <| s_ready := bool_decide (state = SessionState.done) |> in
      let s := if s_ready s then s <| s_error := "ok" |> else s in
      notify (on_completed hooks) (fun f => f (s_ready s)) s
  | SessionState.idle | SessionState.initializing => s
  end.

Definition tick (s : Session) : Session := snd (StateMachine.tick (step_and_entry Step OnEnter) s).

(** Between ticks: an interrupt completes the session's transaction, the
    initializer's, or a reset; anything may happen to the environment. *)
Definition session_publish (r : Result Spi.Action) (s : Session) : Session :=
  match phase_ (s_completion s) with pending => s <| s_completion := Complete r |> | _ => s end.
Definition initializer_publish (bytes : list Z) (r : Result Spi.Action) (s : Session) : Session :=
  s <| s_initializer := SdInitializer.publish bytes r (s_initializer s) |>.

(** ** The block device *)

(** [Transfer()]: a transport over the session's receive buffer. *)
Definition session_transport (s : Session) : Transport E :=
  new_transport (mkSpan rx_at kReceiveCapacity) (Rate s) (Sd.sectors (s_card s))
    (h_put host (mkCompletion empty (mkResult HalStatus.ok 0 [])) (s_env s)).

Definition Cause (status : HalStatus) : Status :=
  match status with
  | HalStatus.ok | HalStatus.invalid_argument | HalStatus.unsupported_buffer => Status.invalid_argument
  | HalStatus.busy => Status.busy
  | HalStatus.timeout => Status.timeout
  | HalStatus.not_initialized => Status.not_running
  | _ => Status.io_error
  end.

Definition block_ready (s : Session) : bool := s_ready s.
Definition block_sectors (s : Session) : Z := Sd.sectors (s_card s).
Definition block_read (sector : Z) (bytes : Span) (s : Session) : option (Status * Session) :=
  if negb (s_ready s) || negb (s_leased s) then Some (Status.not_running, s)
  else
    match SdTransport.read host buffers limit sector bytes (session_transport s) with
    | None => None
    | Some (success, reader) =>
        let s := with_env (host_env reader) s in
        if negb success then
          let s := s <| s_error := hal_status_name (diag_status reader) |> <| s_ready := false |> in
          Some (Cause (diag_status reader), notify (on_read_failed hooks) (fun f => f sector) s)
        else Some (Status.ok, s)
    end.
Definition block_acquire (s : Session) : Status * Session :=
  if negb (s_ready s) then (Status.not_running, s)
  else if s_leased s || s_running s || s_requested s then (Status.busy, s)
  else (Status.ok, s <| s_leased := true |>).
Definition block_release (s : Session) : Session := s <| s_leased := false |>.
Definition block_write (sector : Z) (bytes : Span) (s : Session) : option (Status * Session) :=
  if negb (s_ready s) || negb (s_leased s) then Some (Status.not_running, s)
  else
    match SdTransport.write host buffers limit sector bytes (session_transport s) with
    | None => None
    | Some (success, transport) =>
        let s := with_env (host_env transport) s in
        if negb success then
          let s := s <| s_error := hal_status_name (diag_status transport) |> <| s_ready := false |> in
          Some (Cause (diag_status transport),
                notify (on_write_failed hooks)
                  (fun f => f sector (diag_status transport, diag_command transport, diag_completed transport)) s)
        else Some (Status.ok, s)
    end.
Definition block_sync (s : Session) : Status := if s_ready s && s_leased s then Status.ok else Status.not_running.

(** ** One tick *)

Lemma Received_oblivious m s : Received (with_machine m s) = (fst (Received s), with_machine m (snd (Received s))).
Proof.
  unfold Received. change (received (with_machine m s)) with (received s). cbn [s_command with_machine Session_machine field_update Session_eta].
  destruct (Sd.data _ _ _) as [payload|]; [|done]. cbn [s_card field_update Session_eta].
  destruct (if _ =? 9 then Sd.card payload else _) as [c|]; [|done].
  destruct (on_next hooks) as [next|].
  - destruct (s_command s =? 9); cbn; destruct (next _ _ _) as [st e]; by destruct (step_kind st).
  - unfold SetSpeed, notify. destruct (s_command s =? 9), (speed_set hooks); done.
Qed.
Lemma session_Step_oblivious c m s : Step c (with_machine m s) = (fst (Step c s), with_machine m (snd (Step c s))).
Proof.
  destruct c; cbn [Step].
  1,6,7: cbn [s_reset_requested s_requested with_machine Session_machine field_update Session_eta];
    destruct (s_reset_requested s); [done|]; destruct (s_requested s); [|done];
    unfold SetSpeed, notify; by destruct (speed_set hooks), (on_started hooks).
  - cbn. destruct (s_reset_ready s); [|done]. unfold notify. destruct (_ =h? _), (on_reset_completed hooks); done.
  - cbn. destruct (init_result _); [|done]. by destruct (_ =h? _).
  - cbn [s_completion with_machine Session_machine field_update Session_eta]. destruct (completion_result _) as [r|]; [|done].
    destruct (r_status r =h? HalStatus.ok); cbn [negb]; [|done]. change (s <| s_machine := m |>) with (with_machine m s).
    rewrite Received_oblivious. by destruct (Received s) as [[] ?].
  - cbn. destruct (completion_result _) as [r|]; [|done]. by destruct (_ =h? _).
Qed.
Lemma start_session_oblivious actions m s : start_session actions (with_machine m s) = with_machine m (start_session actions s).
Proof.
  unfold start_session, completion_start, submit_session. cbn. destruct (phase_ (s_completion s)); [|done|];
    destruct (submit _ _ _) as [st e]; by destruct (st =h? HalStatus.ok).
Qed.
Lemma session_OnEnter_oblivious c m s : OnEnter c (with_machine m s) = with_machine m (OnEnter c s).
Proof.
  destruct c; cbn [OnEnter]; try done.
  - destruct (reset_start hooks) as [start|]; [|done]. cbn. destruct (start _) as [[st called] e]. destruct called, (st =h? HalStatus.ok); done.
  - rewrite <- start_session_oblivious. reflexivity.
  - rewrite <- start_session_oblivious. reflexivity.
  - unfold notify. by destruct (on_completed hooks).
  - unfold notify. by destruct (on_completed hooks).
Qed.

Definition session_state (s : Session) : SessionState.SessionState := cs (s_machine s).
#[local] Arguments post_machine : simpl never.
Definition machine_rests (s : Session) : Prop :=
  ticking_ (s_machine s) = false /\ (started_ (s_machine s) = false -> session_state s = SessionState.idle).
Definition advance (c : SessionState.SessionState) (s : Session) : SessionState.SessionState * Session :=
  let r := Step c s in (fst r, if bool_decide (fst r = c) then snd r else OnEnter (fst r) (snd r)).

Lemma started_post ns (m : Machine SessionState.SessionState) : started_ (post_machine ns m) = true.
Proof. unfold post_machine. destruct (_ && _); cbn; apply started_pre_machine. Qed.
Lemma session_tick s : machine_rests s -> exists m, tick s = (snd (advance (session_state s) s)) <| s_machine := m |> /\
  cs m = fst (advance (session_state s) s) /\ machine_rests (tick s).
Proof.
  intros [Ht Hs]. unfold tick. rewrite tick_entry_oblivious; [|apply session_Step_oblivious|apply session_OnEnter_oblivious|exact Ht].
  assert ((if started_ (machine s) then s else OnEnter (cs (machine s)) s) = s) as ->.
  { destruct (started_ (machine s)) eqn:E0; [done|]. change (cs (machine s)) with (session_state s). by rewrite (Hs E0). }
  change (cs (machine s)) with (session_state s). cbn zeta. unfold advance.
  set (r := Step (session_state s) s). exists (post_machine (fst r) (machine s)). rewrite cs_post_machine.
  assert (Valid (fst r) = true) as -> by (by destruct (fst r)). cbn [andb fst snd].
  split; [by destruct (bool_decide _)|]. split; [done|]. split; [done|].
  change (started_ (post_machine (fst r) (machine s)) = false -> cs (post_machine (fst r) (machine s)) = SessionState.idle).
  by rewrite started_post.
Qed.

(** ** The invariant *)

Definition flags (s : Session) : bool * bool * bool * bool * bool * Sd.Card * Z :=
  (s_requested s, s_running s, s_ready s, s_leased s, s_reset_requested s, s_card s, s_command s).
Lemma flags_notify {X} (hook : option X) call s : flags (notify hook call s) = flags s.
Proof. by destruct hook. Qed.
Lemma flags_start actions s : flags (start_session actions s) = flags s.
Proof.
  unfold start_session, completion_start, submit_session. destruct (phase_ (s_completion s)); [|done|];
    destruct (submit _ _ _) as [st e]; by destruct (st =h? HalStatus.ok).
Qed.
(** Entering a state that runs leaves them. *)
Definition resting (c : SessionState.SessionState) : bool :=
  match c with SessionState.idle | SessionState.done | SessionState.failed => true | _ => false end.
Lemma flags_enter c s : resting c = false -> flags (OnEnter c s) = flags s.
Proof.
  destruct c; cbn [OnEnter resting]; try done; intros _.
  - destruct (reset_start hooks) as [start|]; [|done]. destruct (start _) as [[st called] e].
    destruct called, (st =h? HalStatus.ok); done.
  - by rewrite flags_start.
  - by rewrite flags_start.
Qed.

(** The receive buffer starts with the card's answer to CMD9, and [csd] is the
    block in it. *)
Definition csd_answer (s : Session) (csd : list Z) : Prop :=
  SdProtocol.block_answer (load (h_mem host (s_env s)) (mkSpan rx_at (s_receive_size s))) 16 1 csd.

(** The invariant, for any property [csd_verified] of the card's size that the
    answers to CMD9 establish. *)
Section invariant.
Context (csd_verified : Sd.Card -> Prop).
Definition proves (c : SessionState.SessionState) (s : Session) : Prop := forall r csd card,
  c = SessionState.command -> s_command s = 9 -> completion_result (s_completion s) = Some r ->
  r_status r = HalStatus.ok -> csd_answer s csd -> Sd.card csd = Some card -> csd_verified card.
Record session_ok (c : SessionState.SessionState) (s : Session) : Prop := {
  so_running : s_running s = negb (resting c);
  so_one : s_requested s && s_reset_requested s = false;
  so_asked : s_requested s = true \/ s_reset_requested s = true -> resting c = true /\ s_ready s = false;
  so_ready : s_ready s = true -> c = SessionState.done /\ csd_verified (s_card s);
  so_leased : s_leased s = true -> resting c = true /\ s_requested s = false /\ s_reset_requested s = false;
  so_command : c = SessionState.gap \/ c = SessionState.command -> s_command s = 9 \/ csd_verified (s_card s)
}.
Lemma session_ok_flags c s s' : flags s' = flags s -> session_ok c s -> session_ok c s'.
Proof. unfold flags. intros Hf [H1 H2 H3 H4 H5 H6]. simplify_eq. split; congruence || (intros; naive_solver congruence). Qed.

Definition quiet (s : Session) : Prop :=
  s_requested s = false /\ s_reset_requested s = false /\ s_leased s = false /\ s_ready s = false.
Lemma running_quiet c s : session_ok c s -> resting c = false -> quiet s /\ s_running s = true.
Proof.
  intros [Hr Ho Ha Hy Hl Hc] Hc0. rewrite Hc0 in *. split; [|exact Hr]. unfold quiet.
  destruct (s_requested s); [destruct Ha; [by left|done]|]. destruct (s_reset_requested s); [destruct Ha; [by right|done]|].
  destruct (s_leased s); [by destruct Hl|]. destruct (s_ready s); [|done]. destruct (Hy eq_refl) as [-> _]. done.
Qed.
(** Entering a state that runs, and one that rests. *)
Lemma enter_running c s : resting c = false -> quiet s -> s_running s = true ->
  (c = SessionState.gap \/ c = SessionState.command -> s_command s = 9 \/ csd_verified (s_card s)) -> session_ok c (OnEnter c s).
Proof.
  intros Hc (Hq & Hr & Hl & Hy) Hrun Hcmd. apply (session_ok_flags c s); [by apply flags_enter|].
  split; try congruence; [by rewrite Hrun, Hc|by rewrite Hq|naive_solver congruence|done].
Qed.
Lemma enter_rest c s : c = SessionState.done \/ c = SessionState.failed -> quiet s ->
  (c = SessionState.done -> csd_verified (s_card s)) -> session_ok c (OnEnter c s).
Proof.
  intros Hc (Hq & Hr & Hl & Hy) Hcsd.
  assert (exists y, flags (OnEnter c s) = (false, false, y, false, false, s_card s, s_command s) /\ (y = true -> c = SessionState.done)) as (y & Hf & Hy').
  { destruct Hc as [-> | ->]; [exists true|exists false]; (split; [|done]); cbn [OnEnter]; rewrite flags_notify; unfold flags; cbn;
      rewrite ?(bool_decide_eq_true_2 (SessionState.done = SessionState.done)), ?(bool_decide_eq_false_2 (SessionState.failed = SessionState.done)) by done;
      cbn; by rewrite Hq, Hr, Hl. }
  unfold flags in Hf. simplify_eq. split; try congruence; destruct Hc as [-> | ->]; cbn [resting negb]; try naive_solver congruence.
  all: match goal with H : s_requested _ = _ |- _ && _ = false => by rewrite H end.
Qed.
Lemma Received_spec s : quiet s -> s_running s = true -> s_command s = 9 \/ csd_verified (s_card s) ->
  (s_command s = 9 -> forall csd card, csd_answer s csd -> Sd.card csd = Some card -> csd_verified card) ->
  let '(kind, s') := Received s in quiet s' /\ s_running s' = true /\ (kind <> Kind.fail -> csd_verified (s_card s')).
Proof.
  intros Hq Hr Hc Hp. unfold Received. destruct (Sd.data _ _ _) as [payload|] eqn:Ed; [|done].
  destruct (s_command s =? 9) eqn:E9.
  - apply Z.eqb_eq in E9. rewrite E9 in Ed. destruct (Sd.card payload) as [c|] eqn:Ec; [|done].
    assert (csd_verified c) as Hv by (exact (Hp E9 _ _ (SdProtocol.data_answer _ _ _ _ Ed) Ec)).
    destruct (on_next hooks) as [next|]; [|unfold SetSpeed, notify; by destruct (speed_set hooks)].
    destruct (next _ _ _) as [st e]. by destruct (step_kind st).
  - destruct Hc as [Hc|Hv]; [by rewrite Hc in E9|].
    destruct (on_next hooks) as [next|]; [|unfold SetSpeed, notify; by destruct (speed_set hooks)].
    destruct (next _ _ _) as [st e]. by destruct (step_kind st).
Qed.

Lemma session_advance_rest c s : resting c = true -> session_ok c s -> session_ok (fst (advance c s)) (snd (advance c s)).
Proof.
  intros Hc Hok. unfold advance.
  assert (Step c s = if s_reset_requested s then (SessionState.resetting, s <| s_reset_requested := false |> <| s_running := true |>)
      else if s_requested s then Step SessionState.idle s else (c, s)) as ->.
  { destruct c; try done; cbn [Step]; destruct (s_reset_requested s), (s_requested s); done. }
  destruct (s_reset_requested s) eqn:Er.
  - destruct (so_asked _ _ Hok (or_intror Er)) as [_ Hy]. cbn [fst snd]. rewrite bool_decide_false by (by destruct c).
    apply enter_running; [done| |done|by intros [?|?]]. pose proof (so_one _ _ Hok) as Ho. rewrite Er, andb_true_r in Ho.
    unfold quiet. cbn. split_and!; try done. destruct (s_leased s) eqn:El; [|done]. destruct (so_leased _ _ Hok El) as (_ & _ & ?). congruence.
  - destruct (s_requested s) eqn:Eq; [|cbn [fst snd]; by rewrite bool_decide_true].
    destruct (so_asked _ _ Hok (or_introl Eq)) as [_ Hy]. cbn [Step]. rewrite Er, Eq. cbn [fst snd].
    rewrite bool_decide_false by (by destruct c). apply enter_running; [done| | |by intros [?|?]].
    + assert (s_leased s = false) as El by (destruct (s_leased s) eqn:El; [|done]; destruct (so_leased _ _ Hok El) as (_ & ? & _); congruence).
      unfold quiet, SetSpeed, notify. destruct (speed_set hooks), (on_started hooks); cbn; done.
    + unfold SetSpeed, notify. destruct (speed_set hooks), (on_started hooks); done.
Qed.
Lemma session_advance_running c s : resting c = false -> proves c s -> session_ok c s -> session_ok (fst (advance c s)) (snd (advance c s)).
Proof.
  intros Hc Hp Hok. destruct (running_quiet _ _ Hok Hc) as [Hq Hr]. unfold advance. destruct c; try done; cbn [Step].
  - destruct (s_reset_ready s); cbn [fst snd]; [|by rewrite bool_decide_true]. rewrite bool_decide_false by done. cbn [OnEnter].
    destruct Hq as (H1 & H2 & H3 & H4).
    match goal with |- context [notify _ _ ?x] => apply (session_ok_flags _ x); [by rewrite flags_notify|] end.
    destruct (negb _); split; cbn; try congruence; try (naive_solver congruence); by rewrite H1.
  - set (s' := s <| s_initializer := _ |>). assert (quiet s' /\ s_running s' = true) as [Hq' Hr'] by done.
    destruct (init_result _) as [r|]; cbn [fst snd]; [|rewrite bool_decide_true by done; by apply (session_ok_flags _ s)].
    destruct (ir_status r =h? HalStatus.ok); cbn [fst snd]; rewrite bool_decide_false by done.
    + apply enter_running; [done|exact Hq'|exact Hr'|by left].
    + apply enter_rest; [by right|exact Hq'|done].
  - destruct (completion_result _) as [r|] eqn:Ecr; cbn [fst snd]; [|by rewrite bool_decide_true].
    destruct (r_status r =h? HalStatus.ok) eqn:Ers; cbn [negb fst snd].
    2:{ rewrite bool_decide_false by done. apply enter_rest; [by right|exact Hq|done]. }
    pose proof (Received_spec s Hq Hr (so_command _ _ Hok (or_intror eq_refl))
      (fun E9 csd card => Hp r csd card eq_refl E9 Ecr (proj1 (hs_eqb_eq _ _) Ers))) as Hs. destruct (Received s) as [kind s'].
    destruct Hs as (Hq' & Hr' & Hv). destruct kind; cbn [fst snd]; rewrite bool_decide_false by done.
    + apply enter_running; [done|done|done|]. intros _. right. by apply Hv.
    + apply enter_rest; [by left|done|]. intros _. by apply Hv.
    + apply enter_rest; [by right|done|done].
  - destruct (completion_result _) as [r|]; cbn [fst snd]; [|by rewrite bool_decide_true].
    destruct (r_status r =h? HalStatus.ok); cbn [fst snd]; rewrite bool_decide_false by done.
    + apply enter_running; [done|done|done|]. intros _. by apply (so_command _ _ Hok); left.
    + apply enter_rest; [by right|exact Hq|done].
Qed.

(** ** Histories *)

Inductive SessionOp :=
  | OpRequest | OpReset | OpTick
  | OpPublish (r : Result Spi.Action) | OpInitialized (bytes : list Z) (r : Result Spi.Action) | OpResetDone (status : HalStatus)
  | OpEnvironment (e : E)
  | OpAcquire | OpRelease | OpRead (sector : Z) (bytes : Span) | OpWrite (sector : Z) (bytes : Span).
Definition session_op (s : Session) (o : SessionOp) : option Session :=
  match o with
  | OpRequest => Some (snd (request s)) | OpReset => Some (snd (reset s)) | OpTick => Some (tick s)
  | OpPublish r => Some (session_publish r s) | OpInitialized bytes r => Some (initializer_publish bytes r s)
  | OpResetDone status => Some (ResetDone status s) | OpEnvironment e => Some (with_env e s)
  | OpAcquire => Some (snd (block_acquire s)) | OpRelease => Some (block_release s)
  | OpRead sector bytes => snd <$> block_read sector bytes s | OpWrite sector bytes => snd <$> block_write sector bytes s
  end.
Fixpoint session_run (ops : list SessionOp) (s : Session) : option Session :=
  match ops with [] => Some s | o :: ops => s ← session_op s o; session_run ops s end.

Record session_wf (s : Session) : Prop := { sw_ok : session_ok (session_state s) s; sw_machine : machine_rests s }.

Lemma session_wf_flags s s' : flags s' = flags s -> s_machine s' = s_machine s -> session_wf s -> session_wf s'.
Proof.
  intros Hf Hm [Hok Hr]. unfold session_state, machine_rests, session_state in *.
  split; unfold session_state, machine_rests, session_state; rewrite Hm; [by apply (session_ok_flags _ s)|done].
Qed.
Lemma Busy_false s : Busy s = false -> s_running s = false /\ s_requested s = false /\ s_reset_requested s = false /\ s_leased s = false.
Proof. unfold Busy. rewrite !orb_false_iff. tauto. Qed.

(** A failed operation of the block device. *)
Lemma failed_wf (s s' : Session) : session_wf s -> s_machine s' = s_machine s ->
  flags s' = (s_requested s, s_running s, false, s_leased s, s_reset_requested s, s_card s, s_command s) -> session_wf s'.
Proof.
  intros [[H1 H2 H3 H4 H5 H6] Hr] Hm Hf. unfold flags in Hf. simplify_eq.
  unfold session_state, machine_rests, session_state in *.
  split; unfold session_state, machine_rests, session_state; rewrite Hm; [|done].
  split; try congruence; try (naive_solver congruence).
Qed.

Lemma session_op_wf s o s' : (o = OpTick -> proves (session_state s) s) ->
  session_op s o = Some s' -> session_wf s -> session_wf s'.
Proof.
  intros Hp. destruct o; cbn [session_op]; intros Ho Hwf; simplify_eq.
  - unfold request. destruct (Busy s) eqn:Eb; [done|]. destruct (Busy_false _ Eb) as (H1 & H2 & H3 & H4).
    destruct Hwf as [[Q1 Q2 Q3 Q4 Q5 Q6] Hm]. split; [|done]. change (session_state _) with (session_state s).
    assert (resting (session_state s) = true) as Hrest by (rewrite H1 in Q1; by destruct (resting _)).
    split; cbn; [exact Q1|by rewrite ?H2, ?H3|done|done|by rewrite H4|exact Q6].
  - unfold reset. destruct (Busy s) eqn:Eb; [done|]. destruct (Busy_false _ Eb) as (H1 & H2 & H3 & H4).
    destruct Hwf as [[Q1 Q2 Q3 Q4 Q5 Q6] Hm]. split; [|done]. change (session_state _) with (session_state s).
    assert (resting (session_state s) = true) as Hrest by (rewrite H1 in Q1; by destruct (resting _)).
    split; cbn; [exact Q1|by rewrite ?H2, ?H3|done|done|by rewrite H4|exact Q6].
  - destruct Hwf as [Hok Hm]. destruct (session_tick s Hm) as (m & Et & Hcs & Hm'). split; [|done]. rewrite Et.
    unfold session_state at 1. cbn. rewrite Hcs. apply (session_ok_flags _ (snd (advance (session_state s) s))); [done|].
    destruct (resting (session_state s)) eqn:Er; [by apply session_advance_rest|by apply session_advance_running; auto].
  - unfold session_publish. destruct (phase_ _); [done| |done]. by apply (session_wf_flags s).
  - by apply (session_wf_flags s).
  - by apply (session_wf_flags s).
  - by apply (session_wf_flags s).
  - unfold block_acquire. destruct (s_ready s) eqn:Ey; cbn [negb]; [|done]. destruct (_ || _) eqn:Eb; [done|]. cbn [snd].
    rewrite !orb_false_iff in Eb. destruct Eb as [[H1 H2] H3]. destruct Hwf as [[Q1 Q2 Q3 Q4 Q5 Q6] Hm]. split; [|done].
    change (session_state _) with (session_state s). split; try done. intros _. cbn. destruct (Q4 Ey) as [-> _].
    split; [done|]. split; [done|]. destruct (s_reset_requested s) eqn:Er; [|done]. destruct Q3; [by right|congruence].
  - destruct Hwf as [[Q1 Q2 Q3 Q4 Q5 Q6] Hm]. split; [|done]. by split.
  - unfold block_read in Ho. destruct (_ || _); [by simplify_eq/=|]. destruct (SdTransport.read _ _ _ _ _ _) as [[ok t]|]; [|done].
    destruct ok; cbn [negb] in Ho; simplify_eq/=; [by apply (session_wf_flags s)|].
    apply (failed_wf s); [done| |by rewrite flags_notify]. by destruct (on_read_failed hooks).
  - unfold block_write in Ho. destruct (_ || _); [by simplify_eq/=|]. destruct (SdTransport.write _ _ _ _ _ _) as [[ok t]|]; [|done].
    destruct ok; cbn [negb] in Ho; simplify_eq/=; [by apply (session_wf_flags s)|].
    apply (failed_wf s); [done| |by rewrite flags_notify]. by destruct (on_write_failed hooks).
Qed.
Lemma new_session_wf e : session_wf (new_session e).
Proof. split; [|by split]. split; cbn; try done; naive_solver. Qed.
End invariant.

Lemma session_wf_mono (P Q : Sd.Card -> Prop) s : (session_state s <> SessionState.initializing -> forall c, P c -> Q c) ->
  session_wf P s -> session_wf Q s.
Proof.
  intros Hpq [[H1 H2 H3 H4 H5 H6] Hm]. split; [|exact Hm].
  split; [exact H1|exact H2|exact H3| |exact H5|].
  - intros Hy. destruct (H4 Hy) as [Hc Hp]. split; [exact Hc|]. apply Hpq; [by rewrite Hc|exact Hp].
  - intros Hc. destruct (H6 Hc) as [?|Hp]; [by left|right]. apply Hpq; [|exact Hp]. by destruct Hc as [-> | ->].
Qed.

(** The history [ops] contains the tick that took [card] from the answer to
    CMD9 of a transaction that succeeded, and no probe began after it. *)
Definition probed_by (e : E) (ops : list SessionOp) (card : Sd.Card) : Prop :=
  exists before after s r csd, ops = before ++ OpTick :: after /\ session_run before (new_session e) = Some s /\
    session_state s = SessionState.command /\ s_command s = 9 /\
    completion_result (s_completion s) = Some r /\ r_status r = HalStatus.ok /\
    csd_answer s csd /\ Sd.card csd = Some card /\
    forall mid tail s', after = mid ++ tail -> session_run (before ++ OpTick :: mid) (new_session e) = Some s' ->
      session_state s' <> SessionState.initializing.

Lemma session_run_app ops1 ops2 s : session_run (ops1 ++ ops2) s = s1 ← session_run ops1 s; session_run ops2 s1.
Proof. revert s. induction ops1 as [|o ops IH]; intros s; cbn; [done|]. destruct (session_op s o); cbn; [apply IH|done]. Qed.

Lemma probed_by_snoc e ops o s card : session_run (ops ++ [o]) (new_session e) = Some s ->
  session_state s <> SessionState.initializing -> probed_by e ops card -> probed_by e (ops ++ [o]) card.
Proof.
  intros Hrun Hs (before & after & s1 & r & csd & -> & H1 & H2 & H3 & H4 & H5 & H6 & H7 & Hno).
  exists before, (after ++ [o]), s1, r, csd. split; [by rewrite <-app_assoc|]. do 7 (split; [done|]).
  intros mid tail s' Hsplit Hmid. destruct tail as [|x tail _] using rev_ind.
  - rewrite app_nil_r in Hsplit. subst mid. rewrite <-app_assoc in Hrun. cbn [app] in Hrun. congruence.
  - rewrite app_assoc in Hsplit. apply app_inj_tail in Hsplit as [-> _]. by apply (Hno mid tail).
Qed.

Lemma history_wf e ops : forall s, session_run ops (new_session e) = Some s -> session_wf (probed_by e ops) s.
Proof.
  induction ops as [|o ops IH] using rev_ind; intros s Hrun; [cbn in Hrun; simplify_eq; apply new_session_wf|].
  pose proof Hrun as Hall. rewrite session_run_app in Hrun.
  destruct (session_run ops (new_session e)) as [s0|] eqn:E0; cbn in Hrun; [|done].
  destruct (session_op s0 o) as [s'|] eqn:E1; cbn in Hrun; simplify_eq. specialize (IH s0 eq_refl).
  destruct (decide (session_state s = SessionState.initializing)) as [Hi|Hi].
  - apply (session_wf_mono (fun _ => True)); [done|]. apply (session_op_wf _ s0 o); [by intros _ ?|exact E1|].
    by eapply session_wf_mono; [|exact IH].
  - apply (session_op_wf _ s0 o); [|exact E1|].
    + intros -> r csd card Hc H9 Hr Hst Ha Hcard. exists ops, [], s0, r, csd. do 8 (split; [done|]).
      intros mid tail s' Hsplit Hmid. symmetry in Hsplit. apply app_eq_nil in Hsplit as [-> _]. congruence.
    + eapply session_wf_mono; [|exact IH]. intros _ card. by apply (probed_by_snoc e ops o s).
Qed.

(** C28: After any history of requests, resets, ticks, interrupts and block
    operations, a card that is ready has its size from the answer to CMD9 of
    the most recent probe: some tick of the history found the CMD9 transaction
    completed successfully with a zero response, a token, 16 bytes and their
    CRC-16 in the receive buffer, these 16 bytes are the CSD the card's capacity
    is computed from, and no probe began since.  No probe or reset is then
    pending or running; and while the block device is leased, [request] and
    [reset] refuse without any change and a tick changes nothing but the
    machine's counters, so nothing reinitializes the card under its user. *)
Theorem sd_session_safe e ops s : session_run ops (new_session e) = Some s ->
  (block_ready s = true -> session_running s = false /\
     exists before after s1 r csd, ops = before ++ OpTick :: after /\ session_run before (new_session e) = Some s1 /\
       session_state s1 = SessionState.command /\ s_command s1 = 9 /\
       completion_result (s_completion s1) = Some r /\ r_status r = HalStatus.ok /\
       SdProtocol.block_answer (load (h_mem host (s_env s1)) (mkSpan rx_at (s_receive_size s1))) 16 1 csd /\
       Sd.card csd = Some (s_card s) /\
       (bytes_ok csd -> block_sectors s = (((csd !!! 7%nat mod 64) * 256 + csd !!! 8%nat) * 256 + csd !!! 9%nat + 1) * 1024) /\
       (forall mid tail s', after = mid ++ tail -> session_run (before ++ OpTick :: mid) (new_session e) = Some s' ->
          session_state s' <> SessionState.initializing)) /\
  (s_leased s = true -> request s = (HalStatus.busy, s) /\ reset s = (HalStatus.busy, s) /\
     exists m, tick s = s <| s_machine := m |> /\ cs m = session_state s).
Proof.
  intros Hrun. destruct (history_wf _ _ _ Hrun) as [Hok Hm]. split.
  - intros Hy. destruct (so_ready _ _ _ Hok Hy) as [Hc (before & after & s1 & r & csd & H1 & H2 & H3 & H4 & H5 & H6 & H7 & H8 & H9)].
    split; [|exists before, after, s1, r, csd; do 8 (split; [assumption|]); split; [|assumption]; intros Hb; by apply SdProtocol.card_sectors].
    unfold session_running.
    pose proof (so_running _ _ _ Hok) as Hr. rewrite Hc in Hr. rewrite Hr.
    destruct (s_requested s) eqn:E1; [destruct (so_asked _ _ _ Hok); [by left|]; unfold block_ready in Hy; congruence|].
    destruct (s_reset_requested s) eqn:E2; [destruct (so_asked _ _ _ Hok); [by right|]; unfold block_ready in Hy; congruence|]. done.
  - intros Hl. destruct (so_leased _ _ _ Hok Hl) as (Hrest & Hq & Hr).
    assert (Busy s = true) as Hb by (unfold Busy; rewrite Hl; apply orb_true_r).
    split; [unfold request; by rewrite Hb|]. split; [unfold reset; by rewrite Hb|].
    destruct (session_tick s Hm) as (m & Et & Hcs & _). unfold advance in *.
    assert (Step (session_state s) s = (session_state s, s)) as Hs.
    { destruct (session_state s); try done; cbn [Step]; by rewrite Hr, Hq. }
    rewrite Hs in *. cbn [fst snd] in *. rewrite bool_decide_true in Et by done. by exists m.
Qed.

Lemma Cause_not_ok status : Cause status <> Status.ok.
Proof. by destruct status. Qed.

Context (borrowed : Z -> Prop) (owned : E -> list Span) (laws : host_laws host limit borrowed owned).

(** C29: A block read always returns.  When it returns [ok] the card was ready
    and leased, and the transport's record shows for every requested sector a
    successful transaction with the frame of CMD17 for that sector, whose answer
    is a zero response, a token, 512 bytes and the CRC-16 of these bytes; and
    these bytes lie at the sector's place in the destination.  Any failure of a
    ready, leased card takes it out of service until it is probed again. *)
Theorem sd_block_read_contract sector bytes s : let wire := mkSpan rx_at kCaptureBytes in let tx := mkSpan (SdTransport.tx_at buffers) 6 in
  0 <= sector -> 0 <= sp_size bytes -> owned (s_env s) = [] ->
  within borrowed tx -> within borrowed bytes -> disjoint tx wire -> disjoint tx bytes -> disjoint wire bytes ->
  exists status s', block_read sector bytes s = Some (status, s') /\
    (status = Status.ok -> s_ready s' = true /\ s_leased s' = true /\
       exists t, SdTransport.read host buffers limit sector bytes (session_transport s) = Some (true, t) /\
         host_env t = s_env s' /\ forall i, (i < Z.to_nat (sp_size bytes / kSectorBytes))%nat ->
         verified host buffers wire (sector + Z.of_nat i) (sp_data bytes + kSectorBytes * Z.of_nat i) t) /\
    (status <> Status.ok -> s_ready s' = false \/ s_leased s = false /\ s' = s).
Proof.
  intros wire tx H0 Hsz Ho Htx Hd Htw Htd Hwd. unfold block_read.
  destruct (s_ready s) eqn:Ey; cbn [negb orb]; [|exists Status.not_running, s; split; [done|]; split; [done|by left]].
  destruct (s_leased s) eqn:El; cbn [negb]; [|exists Status.not_running, s; split; [done|]; split; [done|by right]].
  destruct (read_correct host buffers limit borrowed owned laws sector bytes (session_transport s)) as (ok & t & Er & _ & V); try done.
  { unfold session_transport. cbn. by rewrite (proj2 (proj2 (hl_put _ _ _ _ laws _ _))). }
  rewrite Er. destruct ok; cbn [negb].
  - exists Status.ok, (with_env (host_env t) s). split; [done|]. split; [|done]. intros _. split; [done|]. split; [done|].
    exists t. split; [reflexivity|]. split; [done|]. by apply V.
  - eexists _, _. split; [reflexivity|]. split; [by intros ?%Cause_not_ok|]. intros _. left.
    unfold notify. by destruct (on_read_failed hooks).
Qed.
End session.
Arguments Session : clear implicits.
Arguments OpRequest {E}. Arguments OpTick {E}. Arguments OpPublish {E}. Arguments OpInitialized {E}. Arguments OpEnvironment {E}.
Arguments OpAcquire {E}.

(** ** A card that is probed, leased and read *)

Definition sim_csd : list Z := [0x40; 0x0e; 0; 0x32; 0x5b; 0x59; 0; 0; 0; 9; 0x7f; 0x80; 0x0a; 0x40; 0; 1].
Definition sim_hooks : Hooks SimEnv := mkHooks None (Some (fun _ => 400000)) None None None None None None None.
Definition accept (actions : list Spi.Action) (timeout : option Duration) (e : SimEnv) : HalStatus * SimEnv := (HalStatus.ok, e).
Definition sim_start : SimEnv := (fun _ => 7, mkCompletion empty (mkResult HalStatus.ok 0 [])).
Definition csd_received : SimEnv :=
  (store 100 ([0; 0xfe] ++ sim_csd ++ [Z.shiftr (Sd.crc16 sim_csd) 8; u8 (Sd.crc16 sim_csd)]) (fst sim_start), snd sim_start).
Definition good : Result Spi.Action := mkResult HalStatus.ok 1 [].
Definition probe_ops : list (SessionOp (E:=SimEnv)) :=
  [OpRequest; OpTick] ++ concat ((fun a => [OpInitialized (fst a) (snd a); OpTick]) <$> good_answers) ++
  [OpPublish good; OpTick; OpEnvironment csd_received; OpPublish good; OpTick; OpAcquire].
Definition probed : option (Session SimEnv) :=
  session_run accept 800 810 700 100 sim_host sim_buffers 0 sim_hooks probe_ops (new_session sim_start).
Example probed_leased : (fun s => (s_ready s, s_leased s, Sd.sectors (s_card s), s_error s)) <$> probed = Some (true, true, 10240, "ok"%string).
Proof. vm_compute. reflexivity. Qed.

Lemma sd_session_safe_witness : exists s, probed = Some s /\ request s = (HalStatus.busy, s) /\
  exists wire csd, SdProtocol.block_answer wire 16 1 csd /\ Sd.card csd = Some (s_card s).
Proof.
  destruct probed as [s|] eqn:Ep; [|vm_compute in Ep; discriminate Ep].
  destruct (sd_session_safe accept 800 810 700 100 sim_host sim_buffers 0 sim_hooks sim_start probe_ops s Ep) as [Hready Hleased].
  assert ((fun s => (s_ready s, s_leased s)) <$> probed = Some (true, true)) as Hf by (vm_compute; reflexivity).
  rewrite Ep in Hf. cbn in Hf. injection Hf as Hy Hl. exists s. split; [reflexivity|]. split; [exact (proj1 (Hleased Hl))|].
  destruct (Hready Hy) as (_ & before & after & s1 & r & csd & _ & _ & _ & _ & _ & _ & Ha & Hcard & _).
  exists (load (fst (s_env s1)) (mkSpan 100 (s_receive_size s1))), csd. split; [exact Ha|exact Hcard].
Defined.

Definition leased_session : Session SimEnv := default (new_session sim_start) probed.
Lemma sd_block_read_contract_witness : exists s t,
  block_read 100 sim_host sim_buffers 0 sim_hooks 5 (mkSpan 1000 1024) leased_session = Some (Status.ok, s) /\ s_ready s = true /\
  host_env t = s_env s /\ verified sim_host sim_buffers (mkSpan 100 516) 6 1512 t.
Proof.
  destruct (sd_block_read_contract 100 sim_host sim_buffers 0 sim_hooks (fun _ => True) (fun _ => []) sim_host_laws
    5 (mkSpan 1000 1024) leased_session) as (status & s & Er & Hok & _);
    [lia|cbn; lia|reflexivity|intros ? _; exact I|intros ? _; exact I| | | |]; [apply disjoint_ends; vm_compute; reflexivity..|].
  assert (fst <$> block_read 100 sim_host sim_buffers 0 sim_hooks 5 (mkSpan 1000 1024) leased_session = Some Status.ok) as Hs
    by (vm_compute; reflexivity).
  rewrite Er in Hs. cbn in Hs. injection Hs as ->. destruct (Hok eq_refl) as (Hy & _ & t & _ & Ht & V). exists s, t.
  split; [exact Er|]. split; [exact Hy|]. split; [exact Ht|]. apply (V 1%nat). vm_compute. lia.
Defined.
