(* ===== verification/Volume.v ===== *)
(** * Volumes (src/lib/storage/volume.h, volume.cpp)

    A volume owns one FatFs drive with at most one open file or directory.
    FatFs is not part of the repository: its calls are the parameter [FatFs] on
    an environment [E], which also holds the objects FatFs keeps for the volume
    (file system, file, directory).  The bridge from FatFs to block devices is
    at the end. *)

From S2P Require Import Prelude Foundation Match.

Module FR.
Inductive FResult : Set :=
  | OK | DISK_ERR | INT_ERR | NOT_READY | NO_FILE | NO_PATH | INVALID_NAME | DENIED | EXIST | INVALID_OBJECT | WRITE_PROTECTED
  | INVALID_DRIVE | NOT_ENABLED | NO_FILESYSTEM | MKFS_ABORTED | TIMEOUT | LOCKED | NOT_ENOUGH_CORE | TOO_MANY_OPEN_FILES
  | INVALID_PARAMETER.
End FR.
Abbreviation FResult := FR.FResult.
#[global] Instance FResult_eq_dec : EqDecision FResult.
Proof. solve_decision. Defined.
Definition is_ok (r : FResult) : bool := bool_decide (r = FR.OK).

Record FilInfo := mkFilInfo { fname : Name; fattrib : Z; fsize : Z }.
Definition AM_DIR : Z := 0x10.
Definition kPathCapacity : Z := 255.
Definition FF_VOLUMES : nat := 4.

Record BlockDevice (E : Type) := mkBlockDevice {
  bd_ready : option (E -> bool); bd_sectors : option (E -> Z);
  bd_read : option (Z -> Z -> E -> Status * E);
  bd_acquire : option (E -> Status * E); bd_release : option (E -> E);
  bd_write : option (Z -> Z -> E -> Status * E); bd_sync : option (E -> Status * E)
}.
Arguments bd_ready {E}. Arguments bd_sectors {E}. Arguments bd_read {E}. Arguments bd_acquire {E}. Arguments bd_release {E}.
Arguments bd_write {E}. Arguments bd_sync {E}. Arguments mkBlockDevice {E}.

(** [true] is [FA_WRITE | FA_CREATE_NEW], [false] is [FA_READ]. *)
Record FatFs (E : Type) := mkFatFs {
  f_mount : bool -> Name -> E -> FResult * E;
  f_open : Name -> bool -> E -> FResult * E;
  f_size : E -> Z;
  f_lseek : Z -> E -> FResult * E;
  f_read : Z -> E -> FResult * list Z * E;
  f_write : list Z -> E -> FResult * Z * E;
  f_sync : E -> FResult * E; f_close : E -> FResult * E;
  f_opendir : Name -> E -> FResult * E; f_readdir : E -> FResult * FilInfo * E; f_closedir : E -> FResult * E;
  f_mkdir : Name -> E -> FResult * E; f_stat : Name -> E -> FResult * FilInfo * E; f_unlink : Name -> E -> FResult * E
}.
Arguments mkFatFs {E}. Arguments f_mount {E}. Arguments f_open {E}. Arguments f_size {E}. Arguments f_lseek {E}. Arguments f_read {E}. Arguments f_write {E}.
Arguments f_sync {E}. Arguments f_close {E}. Arguments f_opendir {E}. Arguments f_readdir {E}. Arguments f_closedir {E}.
Arguments f_mkdir {E}. Arguments f_stat {E}. Arguments f_unlink {E}.

Section volume.
Context {E : Type} (ff : FatFs E) (device_ : BlockDevice E).

(** [drives] and [writable] are the globals of the bridge; a drive is taken or
    free. *)
Record Volume := mkVolume {
  drives : list bool; writable : list bool;
  drive_ : nat;
  attached_ : bool; mounted_ : bool; vbusy_ : bool;
  file_open_ : bool; directory_open_ : bool; writable_ : bool;
  fs_env : E
}.
#[export] Instance Volume_eta : RecordEta Volume := fun v =>
  mkVolume (drives v) (writable v) (drive_ v) (attached_ v) (mounted_ v) (vbusy_ v) (file_open_ v) (directory_open_ v) (writable_ v) (fs_env v).
Definition new_volume (e : E) : Volume :=
  mkVolume (replicate FF_VOLUMES false) (replicate FF_VOLUMES false) 0 false false false false false false e.

(** A call of FatFs. *)
Definition fat (f : E -> FResult * E) (v : Volume) : FResult * Volume :=
  let '(r, e) := f (fs_env v) in (r, v <| fs_env := e |>).
Definition drive_name (v : Volume) : Name := [48 + Z.of_nat (drive_ v); 58].

Fixpoint free_drive (ds : list bool) (i : nat) : option nat :=
  match ds with [] => None | d :: ds => if d then free_drive ds (S i) else Some i end.
Definition attach (v : Volume) : FResult * Volume :=
  if vbusy_ v || attached_ v then (FR.LOCKED, v)
  else
    match bd_ready device_, bd_sectors device_, bd_read device_, bd_acquire device_, bd_release device_ with
    | Some _, Some _, Some _, Some _, Some _ =>
        match free_drive (drives v) 0 with
        | Some i => (FR.OK, v <| drives := <[i := true]> (drives v) |> <| drive_ := i |> <| attached_ := true |>)
        | None => (FR.TOO_MANY_OPEN_FILES, v)
        end
    | _, _, _, _, _ => (FR.INVALID_PARAMETER, v)
    end.

Definition device_ready (v : Volume) : bool := match bd_ready device_ with Some f => f (fs_env v) | None => false end.
Definition release_device (v : Volume) : Volume := match bd_release device_ with Some f => v <| fs_env := f (fs_env v) |> | None => v end.
Definition mount (write_access : bool) (v : Volume) : FResult * Volume :=
  if vbusy_ v || file_open_ v || directory_open_ v then (FR.LOCKED, v)
  else if negb (attached_ v) || negb (device_ready v) then (FR.NOT_READY, v)
  else if mounted_ v then (if Bool.eqb write_access (writable_ v) then FR.OK else FR.LOCKED, v)
  else if write_access && match bd_write device_, bd_sync device_ with Some _, Some _ => false | _, _ => true end then (FR.WRITE_PROTECTED, v)
  else
    match bd_acquire device_ with
    | None => (FR.DISK_ERR, v)
    | Some acquire =>
        let '(status, e) := acquire (fs_env v) in
        let v := v <| fs_env := e |> in
        match status with
        | Status.ok =>
            let v := v <| writable := <[drive_ v := write_access]> (writable v) |> in
            let '(result, v) := fat (f_mount ff true (drive_name v)) v in
            if is_ok result then (result, v <| mounted_ := true |> <| writable_ := write_access |>)
            else
              let '(_, v) := fat (f_mount ff false (drive_name v)) v in
              (result, release_device (v <| writable := <[drive_ v := false]> (writable v) |>))
        | Status.not_running => (FR.NOT_READY, v)
        | Status.busy => (FR.LOCKED, v)
        | _ => (FR.DISK_ERR, v)
        end
    end.

Definition Close (v : Volume) : FResult * Volume :=
  let '(result, v) := if file_open_ v then let '(r, v) := fat (f_close ff) v in (r, v <| file_open_ := false |>) else (FR.OK, v) in
  if directory_open_ v then let '(r, v) := fat (f_closedir ff) v in (r, v <| directory_open_ := false |>) else (result, v).
Definition close (v : Volume) : FResult * Volume := if vbusy_ v then (FR.LOCKED, v) else Close v.

Definition unmount (v : Volume) : FResult * Volume :=
  if vbusy_ v then (FR.LOCKED, v)
  else
    let '(result, v) := Close v in
    if mounted_ v then
      let '(_, v) := fat (f_mount ff false (drive_name v)) v in
      (result, release_device (v <| mounted_ := false |> <| writable_ := false |> <| writable := <[drive_ v := false]> (writable v) |>))
    else (result, v).
(** [~Volume]. *)
Definition destroy (v : Volume) : Volume :=
  let '(_, v) := unmount v in if attached_ v then v <| drives := <[drive_ v := false]> (drives v) |> else v.

Definition Path (path : Name) (v : Volume) : FResult * Name :=
  if negb (mounted_ v) then (FR.NOT_READY, [])
  else if (Z.of_nat (length path) >? kPathCapacity) || existsb (fun c => c =? 58) path || existsb (fun c => c =? 0) path then (FR.INVALID_NAME, [])
  else (FR.OK, drive_name v ++ [47] ++ path).

Definition open (path : Name) (offset : Z) (v : Volume) : FResult * Volume :=
  if vbusy_ v || file_open_ v || directory_open_ v then (FR.LOCKED, v)
  else
    let '(result, name) := Path path v in
    if negb (is_ok result) then (result, v)
    else
      let '(result, v) := fat (f_open ff name false) v in
      if negb (is_ok result) then (result, v)
      else
        let v := v <| file_open_ := true |> in
        if offset >? f_size ff (fs_env v) then let '(_, v) := Close v in (FR.INVALID_PARAMETER, v)
        else
          let '(result, v) := fat (f_lseek ff offset) v in
          if negb (is_ok result) then let '(_, v) := Close v in (result, v) else (result, v).
Definition create (path : Name) (v : Volume) : FResult * Volume :=
  if vbusy_ v || file_open_ v || directory_open_ v then (FR.LOCKED, v)
  else if negb (mounted_ v) then (FR.NOT_READY, v)
  else if negb (writable_ v) then (FR.WRITE_PROTECTED, v)
  else
    let '(result, name) := Path path v in
    if negb (is_ok result) then (result, v)
    else let '(result, v) := fat (f_open ff name true) v in (result, v <| file_open_ := is_ok result |>).
Definition write (bytes : list Z) (v : Volume) : FResult * Z * Volume :=
  if vbusy_ v then (FR.LOCKED, 0, v)
  else if negb (mounted_ v) || negb (writable_ v) then (FR.WRITE_PROTECTED, 0, v)
  else if negb (file_open_ v) then (FR.INVALID_OBJECT, 0, v)
  else if Z.of_nat (length bytes) >? UINT32_MAX then (FR.INVALID_PARAMETER, 0, v)
  else let '(result, count, e) := f_write ff bytes (fs_env v) in (result, count, v <| fs_env := e |>).
Definition sync (v : Volume) : FResult * Volume :=
  if vbusy_ v then (FR.LOCKED, v) else if file_open_ v then fat (f_sync ff) v else (FR.INVALID_OBJECT, v).
Definition Mutate (path : Name) (directory create_ : bool) (v : Volume) : FResult * Volume :=
  if vbusy_ v || file_open_ v || directory_open_ v then (FR.LOCKED, v)
  else if negb (mounted_ v) then (FR.NOT_READY, v)
  else if negb (writable_ v) then (FR.WRITE_PROTECTED, v)
  else
    let '(result, name) := Path path v in
    if negb (is_ok result) then (result, v)
    else if create_ then fat (f_mkdir ff name) v
    else
      let '(result, entry, e) := f_stat ff name (fs_env v) in
      let v := v <| fs_env := e |> in
      if negb (is_ok result) then (result, v)
      else if negb (Bool.eqb (negb (Z.land (fattrib entry) AM_DIR =? 0)) directory) then (FR.DENIED, v)
      else fat (f_unlink ff name) v.
Definition remove (path : Name) : Volume -> FResult * Volume := Mutate path false false.
Definition mkdir (path : Name) : Volume -> FResult * Volume := Mutate path true true.
Definition rmdir (path : Name) : Volume -> FResult * Volume := Mutate path true false.

(** The bytes received stand for the destination and [count]. *)
Definition read (n : Z) (v : Volume) : FResult * list Z * Volume :=
  if vbusy_ v then (FR.LOCKED, [], v)
  else if negb (file_open_ v) then (FR.INVALID_OBJECT, [], v)
  else if n >? UINT32_MAX then (FR.INVALID_PARAMETER, [], v)
  else let '(result, bytes, e) := f_read ff n (fs_env v) in (result, bytes, v <| fs_env := e |>).
Definition seek (offset : Z) (v : Volume) : FResult * Volume :=
  if vbusy_ v then (FR.LOCKED, v)
  else if negb (file_open_ v) then (FR.INVALID_OBJECT, v)
  else if offset >? f_size ff (fs_env v) then (FR.INVALID_PARAMETER, v)
  else fat (f_lseek ff offset) v.
Definition open_directory (path : Name) (v : Volume) : FResult * Volume :=
  if vbusy_ v || file_open_ v || directory_open_ v then (FR.LOCKED, v)
  else
    let '(result, name) := Path path v in
    if negb (is_ok result) then (result, v)
    else let '(result, v) := fat (f_opendir ff name) v in (result, v <| directory_open_ := is_ok result |>).
Definition next (v : Volume) : FResult * FilInfo * Volume :=
  if vbusy_ v then (FR.LOCKED, mkFilInfo [] 0 0, v)
  else if directory_open_ v then let '(r, entry, e) := f_readdir ff (fs_env v) in (r, entry, v <| fs_env := e |>)
  else (FR.INVALID_OBJECT, mkFilInfo [] 0 0, v).
Definition size (v : Volume) : Z := if file_open_ v then u32 (f_size ff (fs_env v)) else 0.
Definition read_only (v : Volume) : bool := mounted_ v && negb (writable_ v).

(** ** What a call that succeeds has done *)

Lemma is_ok_true r : is_ok r = true <-> r = FR.OK.
Proof. unfold is_ok. apply bool_decide_eq_true. Qed.
Lemma Path_ok path v name : Path path v = (FR.OK, name) ->
  mounted_ v = true /\ name = drive_name v ++ [47] ++ path /\
  (forall v', mounted_ v' = true -> drive_ v' = drive_ v -> Path path v' = (FR.OK, name)).
Proof.
  unfold Path. destruct (mounted_ v); [|done]. cbn [negb]. destruct (_ || _) eqn:Eb; [done|]. intros [= <-]. split; [done|]. split; [done|].
  intros v' -> Hd. cbn [negb]. unfold drive_name. by rewrite Hd.
Qed.
Lemma create_ok path v v' : create path v = (FR.OK, v') -> exists name e,
  Path path v = (FR.OK, name) /\ f_open ff name true (fs_env v) = (FR.OK, e) /\ v' = v <| fs_env := e |> <| file_open_ := true |> /\
  directory_open_ v = false /\ mounted_ v = true /\ writable_ v = true.
Proof.
  unfold create. destruct (_ || _) eqn:Eb; [done|]. rewrite !orb_false_iff in Eb. destruct Eb as [[_ _] Hd].
  destruct (mounted_ v) eqn:Em; [|done]. destruct (writable_ v) eqn:Ew; [|done]. cbn [negb].
  destruct (Path path v) as [r name] eqn:Ep. destruct (is_ok r) eqn:Er; cbn [negb]; [|intros [= ->]; by rewrite (proj2 (is_ok_true _)) in Er].
  apply is_ok_true in Er as ->. unfold fat. destruct (f_open ff name true (fs_env v)) as [r e] eqn:Ef. intros [= -> <-].
  by exists name, e.
Qed.
Lemma write_ok bytes v count v' : write bytes v = (FR.OK, count, v') -> exists e,
  f_write ff bytes (fs_env v) = (FR.OK, count, e) /\ v' = v <| fs_env := e |>.
Proof.
  unfold write. destruct (vbusy_ v); [done|]. destruct (_ || _); [done|]. destruct (negb _); [done|]. destruct (_ >? _); [done|].
  destruct (f_write ff bytes (fs_env v)) as [[r n] e]. intros [= -> -> <-]. by exists e.
Qed.
Lemma sync_ok v v' : sync v = (FR.OK, v') -> exists e, f_sync ff (fs_env v) = (FR.OK, e) /\ v' = v <| fs_env := e |>.
Proof.
  unfold sync. destruct (vbusy_ v); [done|]. destruct (file_open_ v); [|done]. unfold fat.
  destruct (f_sync ff (fs_env v)) as [r e]. intros [= -> <-]. by exists e.
Qed.
(** Closing a file: what is left, and the file when it succeeded. *)
Lemma close_file v : file_open_ v = true -> directory_open_ v = false -> vbusy_ v = false ->
  let '(r, e) := f_close ff (fs_env v) in close v = (r, v <| fs_env := e |> <| file_open_ := false |>).
Proof. intros Hf Hd Hb. unfold close, Close, fat. rewrite Hb, Hf. destruct (f_close ff (fs_env v)) as [r e]. cbn. by rewrite Hd. Qed.
Lemma remove_ok path v v' : remove path v = (FR.OK, v') -> exists name e1 e2,
  Path path v = (FR.OK, name) /\ f_unlink ff name e1 = (FR.OK, e2) /\ v' = v <| fs_env := e2 |>.
Proof.
  unfold remove, Mutate. destruct (_ || _); [done|]. destruct (negb (mounted_ v)); [done|]. destruct (negb (writable_ v)); [done|].
  destruct (Path path v) as [r name]. destruct (is_ok r) eqn:Er; cbn [negb]; [|intros [= ->]; by rewrite (proj2 (is_ok_true _)) in Er].
  apply is_ok_true in Er as ->. destruct (f_stat ff name (fs_env v)) as [[r entry] e1]. destruct (is_ok r) eqn:Er2; cbn [negb];
    [|intros [= ->]; by rewrite (proj2 (is_ok_true _)) in Er2].
  destruct (negb _); [done|]. unfold fat. cbn [fs_env Volume_eta field_update].
  destruct (f_unlink ff name e1) as [r2 e2] eqn:Eu. intros [= -> <-]. by exists name, e1, e2.
Qed.
End volume.

(** ** The bridge from FatFs to the devices *)

Module DR.
Inductive DResult : Set := OK | ERROR | WRPRT | NOTRDY | PARERR.
End DR.
Section bridge.
Context {E : Type}.
Record Bridge := mkBridge { b_drives : list (option (BlockDevice E)); b_writable : list bool }.
Definition Device (index : nat) (b : Bridge) : option (BlockDevice E) := mjoin (b_drives b !! index).
Definition disk_result (status : Status) : DR.DResult :=
  match status with
  | Status.ok => DR.OK | Status.not_running => DR.NOTRDY | Status.invalid_argument => DR.PARERR | _ => DR.ERROR
  end.
Definition bridge_ready (d : BlockDevice E) (e : E) : bool := match bd_ready d with Some f => f e | None => false end.
Definition bridge_sectors (d : BlockDevice E) (e : E) : Z := match bd_sectors d with Some f => f e | None => 0 end.
Definition STA_NOINIT : Z := 1.
Definition STA_PROTECT : Z := 4.
Definition disk_status (index : nat) (b : Bridge) (e : E) : Z :=
  match Device index b with
  | Some d => if bridge_ready d e then if (b_writable b !!! index : bool) then 0 else STA_PROTECT else STA_NOINIT
  | None => STA_NOINIT
  end.
(** [null] tells that the caller's pointer is null; [size_max] is the largest
    [size_t]. *)
Context (size_max : Z).
Definition bad_range (null : bool) (sector count : Z) (d : BlockDevice E) (e : E) : bool :=
  null || (count =? 0) || (sector + count >? bridge_sectors d e) || (count * 512 >? size_max).
Definition disk_read (index : nat) (null : bool) (sector count : Z) (b : Bridge) (e : E) : DR.DResult * E :=
  match Device index b with
  | None => (DR.NOTRDY, e)
  | Some d =>
      if negb (bridge_ready d e) then (DR.NOTRDY, e)
      else if bad_range null sector count d e then (DR.PARERR, e)
      else match bd_read d with
           | Some f => let '(status, e) := f sector (count * 512) e in (disk_result status, e)
           | None => (DR.ERROR, e)
           end
  end.
Definition disk_write (index : nat) (null : bool) (sector count : Z) (b : Bridge) (e : E) : DR.DResult * E :=
  match Device index b with
  | None => (DR.NOTRDY, e)
  | Some d =>
      if negb (bridge_ready d e) then (DR.NOTRDY, e)
      else
        match (b_writable b !!! index : bool), bd_write d, bd_sync d with
        | true, Some f, Some _ =>
            if bad_range null sector count d e then (DR.PARERR, e)
            else let '(status, e) := f sector (count * 512) e in (disk_result status, e)
        | _, _, _ => (DR.WRPRT, e)
        end
  end.
Inductive Ioctl := CTRL_SYNC | GET_SECTOR_SIZE | GET_SECTOR_COUNT | other_command.
(** The value written to [output], if any; [lba_max] is the largest [LBA_t]. *)
Definition disk_ioctl (lba_max : Z) (index : nat) (command : Ioctl) (null : bool) (b : Bridge) (e : E) : DR.DResult * option Z * E :=
  match Device index b with
  | None => (DR.NOTRDY, None, e)
  | Some d =>
      if negb (bridge_ready d e) then (DR.NOTRDY, None, e)
      else
        match command with
        | CTRL_SYNC =>
            if negb (b_writable b !!! index : bool) then (DR.OK, None, e)
            else match bd_sync d with
                 | Some f => let '(status, e) := f e in (disk_result status, None, e)
                 | None => (DR.ERROR, None, e)
                 end
        | _ =>
            if null then (DR.PARERR, None, e)
            else match command with
                 | GET_SECTOR_SIZE => (DR.OK, Some 512, e)
                 | GET_SECTOR_COUNT => if bridge_sectors d e <=? lba_max then (DR.OK, Some (bridge_sectors d e), e) else (DR.PARERR, None, e)
                 | _ => (DR.PARERR, None, e)
                 end
        end
  end.
End bridge.
