(* ===== verification/VolumeLease.v ===== *)
(** * The lease of a volume (src/lib/storage/volume.cpp)

    Over every history of a volume: the device is reserved exactly while the
    volume is mounted, at most one object is open and only on a mounted volume,
    and the bridge lets FatFs write to the device exactly while the volume is
    mounted for writing.  [held] tells whether the device is reserved through
    [device_]; other volumes share the tables of the bridge. *)

From S2P Require Import Prelude Foundation Match Volume.

Section lease.
Context {E : Type} (ff : FatFs E) (device_ : BlockDevice E) (held : E -> bool).
Abbreviation volume := (@Volume E).

(** What a call of FatFs may do to the environment. *)
Inductive fat_call : E -> E -> Prop :=
  | c_mount b n e : fat_call e (snd (f_mount ff b n e))
  | c_open n b e : fat_call e (snd (f_open ff n b e))
  | c_lseek z e : fat_call e (snd (f_lseek ff z e))
  | c_read n e : fat_call e (snd (f_read ff n e))
  | c_write bytes e : fat_call e (snd (f_write ff bytes e))
  | c_sync e : fat_call e (snd (f_sync ff e))
  | c_close e : fat_call e (snd (f_close ff e))
  | c_opendir n e : fat_call e (snd (f_opendir ff n e))
  | c_readdir e : fat_call e (snd (f_readdir ff e))
  | c_closedir e : fat_call e (snd (f_closedir ff e))
  | c_mkdir n e : fat_call e (snd (f_mkdir ff n e))
  | c_stat n e : fat_call e (snd (f_stat ff n e))
  | c_unlink n e : fat_call e (snd (f_unlink ff n e)).

(** FatFs reaches the device through the bridge only, which neither reserves
    nor releases it; [acquire] reserves it exactly when it returns ok. *)
Record lease_laws : Prop := {
  ll_fat e e' : fat_call e e' -> held e' = held e;
  ll_acquire acquire e s e' : bd_acquire device_ = Some acquire -> acquire e = (s, e') ->
    held e' = if decide (s = Status.ok) then true else held e;
  ll_release release_ e : bd_release device_ = Some release_ -> held (release_ e) = false
}.

Inductive volume_call : volume -> volume -> Prop :=
  | v_attach v : volume_call v (snd (attach device_ v))
  | v_mount b v : volume_call v (snd (mount ff device_ b v))
  | v_unmount v : volume_call v (snd (unmount ff device_ v))
  | v_close v : volume_call v (snd (close ff v))
  | v_open path offset v : volume_call v (snd (open ff path offset v))
  | v_create path v : volume_call v (snd (create ff path v))
  | v_write bytes v : volume_call v (snd (write ff bytes v))
  | v_sync v : volume_call v (snd (sync ff v))
  | v_remove path v : volume_call v (snd (remove ff path v))
  | v_mkdir path v : volume_call v (snd (mkdir ff path v))
  | v_rmdir path v : volume_call v (snd (rmdir ff path v))
  | v_read n v : volume_call v (snd (read ff n v))
  | v_seek offset v : volume_call v (snd (seek ff offset v))
  | v_open_directory path v : volume_call v (snd (open_directory ff path v))
  | v_next v : volume_call v (snd (next ff v)).

(** A free drive of the bridge cannot be written. *)
Definition tables_ok (ds ws : list bool) : Prop :=
  length ds = FF_VOLUMES /\ length ws = FF_VOLUMES /\ forall i, ds !! i = Some false -> ws !! i = Some false.
(** The other volumes and the rest of the program: they leave this volume's
    drive alone and cannot release its reservation. *)
Definition volume_others (v v' : volume) : Prop :=
  v' = v <| drives := drives v' |> <| writable := writable v' |> <| fs_env := fs_env v' |> /\ held (fs_env v') = held (fs_env v) /\
  tables_ok (drives v') (writable v') /\
  (attached_ v = true -> drives v' !! drive_ v = drives v !! drive_ v /\ writable v' !! drive_ v = writable v !! drive_ v).
Inductive volume_history : volume -> Prop :=
  | h_new ds ws e : tables_ok ds ws -> held e = false -> volume_history (mkVolume ds ws 0 false false false false false false e)
  | h_call v v' : volume_history v -> volume_call v v' -> volume_history v'
  | h_others v v' : volume_history v -> volume_others v v' -> volume_history v'.

Record volume_inv (v : volume) : Prop := {
  vi_tables : tables_ok (drives v) (writable v);
  vi_attached : attached_ v = true -> drives v !! drive_ v = Some true /\ writable v !! drive_ v = Some (writable_ v);
  vi_device : attached_ v = true -> bd_release device_ <> None;
  vi_mounted : mounted_ v = true -> attached_ v = true;
  vi_writable : writable_ v = true -> mounted_ v = true;
  vi_open : file_open_ v || directory_open_ v = true -> mounted_ v = true;
  vi_one : file_open_ v && directory_open_ v = false;
  vi_held : held (fs_env v) = mounted_ v
}.

(** ** Every operation keeps the invariant *)

Context (laws : lease_laws).

(** An operation that opens or closes an object and reaches into FatFs. *)
Lemma handle_inv v fo dir e : volume_inv v -> (fo || dir = true -> mounted_ v = true) -> fo && dir = false -> held e = held (fs_env v) ->
  volume_inv (v <| fs_env := e |> <| file_open_ := fo |> <| directory_open_ := dir |>).
Proof. intros [Ht Ha Hde Hm Hw Ho H1 Hh] Hf Hd He. split; try done. cbn. by rewrite He. Qed.
Lemma env_inv v e : volume_inv v -> held e = held (fs_env v) -> volume_inv (v <| fs_env := e |>).
Proof. intros [Ht Ha Hde Hm Hw Ho H1 Hh] He. split; try done. cbn. by rewrite He. Qed.
Lemma fat_inv g v : volume_inv v -> (forall e, fat_call e (snd (g e))) -> volume_inv (snd (fat g v)).
Proof.
  intros Hi Hg. unfold fat. pose proof (Hg (fs_env v)) as Hc. destruct (g (fs_env v)) as [r e]. apply env_inv; [done|]. by apply (ll_fat laws).
Qed.

Lemma Close_inv v : volume_inv v -> volume_inv (snd (Close ff v)) /\ file_open_ (snd (Close ff v)) = false /\ directory_open_ (snd (Close ff v)) = false /\
  attached_ (snd (Close ff v)) = attached_ v /\ drive_ (snd (Close ff v)) = drive_ v.
Proof.
  intros Hi. unfold Close, fat. destruct (file_open_ v) eqn:Ef.
  - pose proof (c_close (fs_env v)) as Hc. destruct (f_close ff (fs_env v)) as [r e]. cbn. destruct (directory_open_ v) eqn:Ed.
    { by pose proof (vi_one _ Hi) as H1; rewrite Ef, Ed in H1. }
    split; [|done]. apply (handle_inv v false (directory_open_ v) e) in Hi; [exact Hi|by rewrite Ed|by rewrite Ed|by apply (ll_fat laws)].
  - cbn. destruct (directory_open_ v) eqn:Ed; [|done]. pose proof (c_closedir (fs_env v)) as Hc. destruct (f_closedir ff (fs_env v)) as [r e]. cbn.
    split; [|done]. apply (handle_inv v (file_open_ v) false e) in Hi; [exact Hi|by rewrite Ef|by rewrite Ef|by apply (ll_fat laws)].
Qed.
Lemma free_drive_spec ds k i : free_drive ds k = Some i -> (k <= i)%nat /\ ds !! (i - k)%nat = Some false.
Proof.
  revert k. induction ds as [|d ds IH]; intros k; [done|]. cbn. destruct d.
  - intros H%IH. destruct H as [Hk Hl]. split; [lia|]. by replace (i - k)%nat with (S (i - S k)) by lia.
  - intros [= ->]. split; [done|]. by rewrite Nat.sub_diag.
Qed.
Lemma tables_take ds ws i : tables_ok ds ws -> tables_ok (<[i := true]> ds) ws.
Proof.
  intros (Hd & Hw & Hf). split; [by rewrite length_insert|]. split; [done|]. intros j. rewrite list_lookup_insert_Some. intros [(? & [=] & _)|[_ H]]. by apply Hf.
Qed.
Lemma tables_write ds ws i b : tables_ok ds ws -> ds !! i = Some true -> tables_ok ds (<[i := b]> ws).
Proof.
  intros (Hd & Hw & Hf) Hi. split; [done|]. split; [by rewrite length_insert|]. intros j Hj. rewrite list_lookup_insert_ne by congruence. by apply Hf.
Qed.
Lemma attach_inv v : volume_inv v -> volume_inv (snd (attach device_ v)).
Proof.
  intros Hi. unfold attach. destruct (_ || _) eqn:Eb; [done|]. apply orb_false_iff in Eb as [_ Ea].
  destruct (bd_ready device_), (bd_sectors device_), (bd_read device_), (bd_acquire device_), (bd_release device_) eqn:Er; try done.
  destruct (free_drive (drives v) 0) as [i|] eqn:Ef; [|done]. apply free_drive_spec in Ef as [_ Ef]. rewrite Nat.sub_0_r in Ef.
  destruct Hi as [Ht Hat Hde Hm Hw Ho H1 Hh]. assert (mounted_ v = false) as Em by (destruct (mounted_ v); [by rewrite Hm in Ea|done]).
  assert (writable_ v = false) as Ew by (destruct (writable_ v); [by rewrite Hw in Em|done]).
  split; cbn; try done.
  - by apply tables_take.
  - intros _. rewrite list_lookup_insert_eq by (by apply lookup_lt_Some in Ef). split; [done|]. rewrite Ew. by apply Ht.
  - by rewrite Er.
Qed.

(** Mounting and unmounting change the access of the drive, the two flags and
    the reservation together. *)
Lemma access_inv v v' : volume_inv v -> attached_ v = true -> attached_ v' = true -> drives v' = drives v -> drive_ v' = drive_ v ->
  file_open_ v' = file_open_ v -> directory_open_ v' = directory_open_ v -> writable v' = <[drive_ v := writable_ v']> (writable v) ->
  (writable_ v' = true -> mounted_ v' = true) -> (file_open_ v || directory_open_ v = true -> mounted_ v' = true) ->
  held (fs_env v') = mounted_ v' -> volume_inv v'.
Proof.
  intros [Ht Hat Hde Hm Hw Ho H1 Hh] Ea Ea' Hds Hdr Hf Hdi Hwr Hwm Hom He. destruct (Hat Ea) as [Hd Hwd].
  split; rewrite ?Hf, ?Hdi, ?Hds, ?Hdr, ?Hwr; auto.
  - by apply tables_write.
  - intros _. split; [done|]. rewrite list_lookup_insert_eq; [done|]. by apply lookup_lt_Some in Hwd.
Qed.
Lemma release_held v : bd_release device_ <> None -> exists e, release_device device_ v = v <| fs_env := e |> /\ held e = false.
Proof.
  intros Hr. unfold release_device. destruct (bd_release device_) as [f|] eqn:Ef; [|done]. exists (f (fs_env v)).
  split; [done|]. by apply (ll_release laws _ _ Ef).
Qed.
Lemma mount_inv b v : volume_inv v -> volume_inv (snd (mount ff device_ b v)).
Proof.
  intros Hi. unfold mount. destruct (_ || _) eqn:Eb; [done|]. rewrite !orb_false_iff in Eb. destruct Eb as [[_ Ef] Ed].
  destruct (attached_ v) eqn:Ea; cbn [negb orb]; [|done]. destruct (negb _); [done|]. destruct (mounted_ v) eqn:Em; [done|].
  assert (writable_ v = false) as Ew by (pose proof (vi_writable _ Hi); rewrite Em in *; destruct (writable_ v); [by symmetry; auto|done]).
  destruct (b && _) eqn:Ec; [done|]. destruct (bd_acquire device_) as [acquire|] eqn:Eacq; [|done].
  destruct (acquire (fs_env v)) as [s e] eqn:Es. pose proof (ll_acquire laws _ _ _ _ Eacq Es) as Hh.
  destruct s; try (apply env_inv; [done|exact Hh]). rewrite decide_True in Hh by done. unfold fat. cbn [fs_env field_update Volume_eta].
  match goal with |- context [f_mount ff true ?n ?e0] =>
    pose proof (ll_fat laws _ _ (c_mount true n e0)) as Hm; destruct (f_mount ff true n e0) as [r e1] end.
  cbn in Hm. destruct (is_ok r).
  - eapply access_inv; [exact Hi|done..| | |]; cbn; [done|done|by rewrite Hm].
  - match goal with |- context [f_mount ff false ?n ?e0] => destruct (f_mount ff false n e0) as [r2 e2] end.
    match goal with |- context [release_device device_ ?w] => destruct (release_held w (vi_device _ Hi Ea)) as (e3 & -> & He3) end.
    eapply access_inv; [exact Hi|done..| | | | ]; cbn; rewrite ?Ew, ?Em; try done.
    + by rewrite list_insert_insert_eq.
    + by rewrite Ef, Ed.
Qed.
Lemma unmount_inv v : volume_inv v -> volume_inv (snd (unmount ff device_ v)) /\
  (vbusy_ v = false -> mounted_ (snd (unmount ff device_ v)) = false).
Proof.
  intros Hi. unfold unmount. destruct (vbusy_ v); [done|]. destruct (Close_inv v Hi) as (Hc & Hf & Hd & _).
  destruct (Close ff v) as [r u]. cbn in *. destruct (mounted_ u) eqn:Em; [|done]. unfold fat.
  destruct (f_mount ff false (drive_name u) (fs_env u)) as [r2 e2].
  match goal with |- context [release_device device_ ?w] => destruct (release_held w (vi_device _ Hc (vi_mounted _ Hc Em))) as (e3 & -> & He3) end.
  split; [|done]. eapply access_inv; [exact Hc|by apply (vi_mounted _ Hc)|by apply (vi_mounted _ Hc)|done..| | ]; cbn; [by rewrite Hf, Hd|done].
Qed.

Lemma open_inv path offset v : volume_inv v -> volume_inv (snd (open ff path offset v)).
Proof.
  intros Hi. unfold open. destruct (_ || _) eqn:Eb; [done|]. rewrite !orb_false_iff in Eb. destruct Eb as [[_ Ef] Ed].
  destruct (Path path v) as [r name] eqn:Ep. destruct (is_ok r) eqn:Er; cbn [negb]; [|done]. apply is_ok_true in Er as ->. apply Path_ok in Ep as [Em _].
  unfold fat at 1. pose proof (ll_fat laws _ _ (c_open name false (fs_env v))) as He. destruct (f_open ff name false (fs_env v)) as [r e]. cbn in He.
  destruct (is_ok r); cbn [negb]; [|by apply env_inv].
  assert (volume_inv (v <| fs_env := e |> <| file_open_ := true |>)) as Hu.
  { apply (handle_inv v true (directory_open_ v) e) in Hi; [exact Hi|done|by rewrite Ed|exact He]. }
  set (u := v <| fs_env := e |> <| file_open_ := true |>) in *. clearbody u. cbv zeta.
  destruct (_ >? _); [destruct (Close_inv u Hu) as [Hc _]; by destruct (Close ff u)|].
  pose proof (fat_inv (f_lseek ff offset) u Hu (fun e => c_lseek offset e)) as Hl. destruct (fat (f_lseek ff offset) u) as [r2 w]. cbn in Hl.
  destruct (is_ok r2); [done|]. cbn [negb]. destruct (Close_inv w Hl) as [Hc _]. by destruct (Close ff w).
Qed.
Lemma create_inv path v : volume_inv v -> volume_inv (snd (create ff path v)).
Proof.
  intros Hi. unfold create. destruct (_ || _) eqn:Eb; [done|]. rewrite !orb_false_iff in Eb. destruct Eb as [[_ Ef] Ed].
  destruct (mounted_ v) eqn:Em; [|done]. destruct (negb _); [done|]. destruct (negb _); [done|].
  destruct (Path path v) as [r name]. destruct (negb _); [done|]. unfold fat.
  pose proof (ll_fat laws _ _ (c_open name true (fs_env v))) as He. destruct (f_open ff name true (fs_env v)) as [r2 e]. cbn in *.
  apply (handle_inv v (is_ok r2) (directory_open_ v) e) in Hi; [exact Hi|done|by rewrite Ed, andb_false_r|exact He].
Qed.
Lemma open_directory_inv path v : volume_inv v -> volume_inv (snd (open_directory ff path v)).
Proof.
  intros Hi. unfold open_directory. destruct (_ || _) eqn:Eb; [done|]. rewrite !orb_false_iff in Eb. destruct Eb as [[_ Ef] Ed].
  destruct (Path path v) as [r name] eqn:Ep. destruct (is_ok r) eqn:Er; cbn [negb]; [|done]. apply is_ok_true in Er as ->. apply Path_ok in Ep as [Em _].
  unfold fat. pose proof (ll_fat laws _ _ (c_opendir name (fs_env v))) as He. destruct (f_opendir ff name (fs_env v)) as [r2 e]. cbn in *.
  apply (handle_inv v (file_open_ v) (is_ok r2) e) in Hi; [exact Hi|done|by rewrite Ef|exact He].
Qed.
Lemma Mutate_inv path dir cr v : volume_inv v -> volume_inv (snd (Mutate ff path dir cr v)).
Proof.
  intros Hi. unfold Mutate. destruct (_ || _); [done|]. destruct (negb _); [done|]. destruct (negb _); [done|].
  destruct (Path path v) as [r name]. destruct (negb _); [done|]. destruct cr; [apply fat_inv; [done|intros; apply c_mkdir]|].
  pose proof (ll_fat laws _ _ (c_stat name (fs_env v))) as He. destruct (f_stat ff name (fs_env v)) as [[r2 entry] e]. cbn in He.
  destruct (negb _); [by apply env_inv|]. destruct (negb _); [by apply env_inv|]. apply fat_inv; [by apply env_inv|intros; apply c_unlink].
Qed.
Lemma volume_call_inv v v' : volume_call v v' -> volume_inv v -> volume_inv v'.
Proof.
  intros [w|b w|w|w|path offset w|path w|bytes w|w|path w|path w|path w|n w|offset w|path w|w] Hi.
  - by apply attach_inv.
  - by apply mount_inv.
  - by apply unmount_inv.
  - unfold close. destruct (vbusy_ w); [done|]. by apply Close_inv.
  - by apply open_inv.
  - by apply create_inv.
  - unfold write. repeat (destruct (_ : bool); [done|]). pose proof (ll_fat laws _ _ (c_write bytes (fs_env w))) as He.
    destruct (f_write ff bytes (fs_env w)) as [[r n] e]. by apply env_inv.
  - unfold sync. destruct (vbusy_ w); [done|]. destruct (file_open_ w); [|done]. apply fat_inv; [done|apply c_sync].
  - by apply Mutate_inv.
  - by apply Mutate_inv.
  - by apply Mutate_inv.
  - unfold read. repeat (destruct (_ : bool); [done|]). pose proof (ll_fat laws _ _ (c_read n (fs_env w))) as He.
    destruct (f_read ff n (fs_env w)) as [[r bytes] e]. by apply env_inv.
  - unfold seek. repeat (destruct (_ : bool); [done|]). apply fat_inv; [done|intros; apply c_lseek].
  - by apply open_directory_inv.
  - unfold next. destruct (vbusy_ w); [done|]. destruct (directory_open_ w); [|done]. pose proof (ll_fat laws _ _ (c_readdir (fs_env w))) as He.
    destruct (f_readdir ff (fs_env w)) as [[r entry] e]. by apply env_inv.
Qed.
Lemma volume_history_inv v : volume_history v -> volume_inv v.
Proof.
  induction 1 as [ds ws e Ht He|v v' _ IH Hc|v v' _ IH Ho].
  - by split.
  - by eapply volume_call_inv.
  - destruct Ho as (Hv & Hh & Ht & Ha). destruct IH as [Ht0 Hat Hde Hm Hw Hop H1 Hhe]. rewrite Hv. split; cbn; try done.
    + intros E0. destruct (Ha E0) as [-> ->]. by apply Hat.
    + by rewrite Hh.
Qed.

(** ** What the device sees *)

(** The tables of the bridge as FatFs finds them; [device_of] gives the devices
    of the drives that other volumes have taken. *)
Definition bridge_of (device_of : nat -> BlockDevice E) (v : volume) : Bridge :=
  mkBridge (imap (fun i (taken : bool) => if taken then Some (if decide (i = drive_ v) then device_ else device_of i) else None) (drives v)) (writable v).

Lemma disk_write_refused size_max index null sector count (b : @Bridge E) e : b_writable b !!! index = false ->
  exists r, disk_write size_max index null sector count b e = (r, e) /\ r <> DR.OK.
Proof.
  intros Hw. unfold disk_write. destruct (Device index b) as [d|]; [|by eexists]. destruct (negb _); [by eexists|]. rewrite Hw. by eexists.
Qed.
Lemma destroy_inv v : volume_inv v -> vbusy_ v = false -> held (fs_env (destroy ff device_ v)) = false /\
  tables_ok (drives (destroy ff device_ v)) (writable (destroy ff device_ v)).
Proof.
  intros Hi Hb. unfold destroy. destruct (unmount_inv v Hi) as [Hu Hm]. specialize (Hm Hb). destruct (unmount ff device_ v) as [r u]. cbn in Hu, Hm.
  pose proof (vi_held _ Hu) as Hh. rewrite Hm in Hh. destruct Hu as [Ht Hat Hde Hmo Hw _ _ _]. destruct (attached_ u); [|done].
  split; [done|]. destruct (Hat eq_refl) as [Hd Hwr]. destruct Ht as (Hl & Hl2 & Hf). cbn. split; [by rewrite length_insert|]. split; [done|].
  intros i. rewrite list_lookup_insert_Some. intros [(<- & _ & _)|[_ H]]; [|by apply Hf]. rewrite Hwr.
  destruct (writable_ u); [by rewrite Hw in Hm|done].
Qed.

(** C23: Over every history of a volume, interleaved with other volumes: the
    device is reserved exactly while the volume is mounted; at most one file or
    directory is open, and only on a mounted volume; unless the volume is mounted
    for writing, every write FatFs tries on its drive is refused and does not
    reach the device; and destroying the volume releases the device and leaves
    the shared tables fit for another volume. *)
Theorem volume_lease v : volume_history v ->
  held (fs_env v) = mounted_ v /\
  file_open_ v && directory_open_ v = false /\ (file_open_ v || directory_open_ v = true -> mounted_ v = true) /\
  (attached_ v = true -> mounted_ v && writable_ v = false -> forall device_of size_max null sector count e,
     exists r, disk_write size_max (drive_ v) null sector count (bridge_of device_of v) e = (r, e) /\ r <> DR.OK) /\
  (vbusy_ v = false -> held (fs_env (destroy ff device_ v)) = false /\
     tables_ok (drives (destroy ff device_ v)) (writable (destroy ff device_ v))).
Proof.
  intros Hv. apply volume_history_inv in Hv as Hi. split; [apply Hi|]. split; [apply Hi|]. split; [apply Hi|]. split; [|by apply destroy_inv].
  intros Ha Hw device_of size_max null sector count e. apply disk_write_refused. cbn. destruct (vi_attached _ Hi Ha) as [_ Hwr].
  rewrite list_lookup_total_alt, Hwr. cbn. destruct (writable_ v) eqn:Ew; [|done]. by rewrite (vi_writable _ Hi Ew) in Hw.
Qed.
End lease.

(** ** A device with one reservation *)

Definition media : BlockDevice bool := {|
  bd_ready := Some (fun _ => true); bd_sectors := Some (fun _ => 100); bd_read := Some (fun _ _ e => (Status.ok, e));
  bd_acquire := Some (fun e : bool => if e then (Status.busy, true) else (Status.ok, true)); bd_release := Some (fun _ => false);
  bd_write := Some (fun _ _ e => (Status.ok, e)); bd_sync := Some (fun e => (Status.ok, e))
|}.
Definition media_fat : FatFs bool := {|
  f_mount _ _ e := (FR.OK, e); f_open _ _ e := (FR.OK, e); f_size _ := 0; f_lseek _ e := (FR.OK, e); f_read _ e := (FR.OK, [], e);
  f_write bytes e := (FR.OK, Z.of_nat (length bytes), e); f_sync e := (FR.OK, e); f_close e := (FR.OK, e);
  f_opendir _ e := (FR.OK, e); f_readdir e := (FR.OK, mkFilInfo [] 0 0, e); f_closedir e := (FR.OK, e);
  f_mkdir _ e := (FR.OK, e); f_stat _ e := (FR.OK, mkFilInfo [] 0 0, e); f_unlink _ e := (FR.OK, e)
|}.
Lemma media_laws : lease_laws media_fat media id.
Proof. split; [by intros e e' []| |by intros f e [= <-]]. intros f e s e' [= <-]. destruct e; by intros [= <- <-]. Qed.
(** A read-only mount with an open file. *)
Definition media_volume : Volume := snd (open media_fat [97] 0 (snd (mount media_fat media false (snd (attach media (new_volume false)))))).
Lemma media_history : volume_history media_fat media id media_volume.
Proof.
  eapply h_call; [|apply v_open]. eapply h_call; [|apply v_mount]. eapply h_call; [|apply v_attach]. apply h_new; [|done].
  split; [done|]. split; [done|]. done.
Qed.
Lemma volume_lease_witness : file_open_ media_volume = true /\ fs_env media_volume = true /\
  (exists r, disk_write 4294967295 0 false 5 1 (bridge_of media (fun _ => media) media_volume) true = (r, true) /\ r <> DR.OK) /\
  fs_env (destroy media_fat media media_volume) = false.
Proof.
  destruct (volume_lease media_fat media id media_laws media_volume media_history) as (Hh & _ & _ & Hw & Hd).
  split; [vm_compute; reflexivity|]. split; [transitivity (mounted_ media_volume); [exact Hh|vm_compute; reflexivity]|]. split.
  - exact (Hw ltac:(vm_compute; reflexivity) ltac:(vm_compute; reflexivity) (fun _ => media) 4294967295 false 5 1 true).
  - exact (proj1 (Hd ltac:(vm_compute; reflexivity))).
Defined.
