(* ===== verification/FileTransfer.v ===== *)
(** * File transfers (src/lib/storage/transfer.h, transfer.cpp)

    The DOSF server: requests arrive in pieces, are executed one at a time on a
    leased volume, and are answered from a fixed buffer.  The lease hooks of
    [FileAccess] are parameters: [reserve] on the volume, [release] on its
    environment.  [written_] records
    the bytes the volume has accepted for the file being uploaded; no operation
    reads it. *)

From S2P Require Import Prelude Foundation Wire Match StateMachine Volume.

Module TransferStatus.
Inductive TransferStatus : Set :=
  | ok | invalid | busy | not_ready | read_only | exists_ | not_found | io_error | checksum_error | timeout | cleanup_failed | denied.
End TransferStatus.
Abbreviation TransferStatus := TransferStatus.TransferStatus.
#[global] Instance TransferStatus_eq_dec : EqDecision TransferStatus.
Proof. solve_decision. Defined.
Definition ts_ok (s : TransferStatus) : bool := bool_decide (s = TransferStatus.ok).
Definition transfer_code (s : TransferStatus) : Z :=
  match s with
  | TransferStatus.ok => 0 | TransferStatus.invalid => 1 | TransferStatus.busy => 2 | TransferStatus.not_ready => 3
  | TransferStatus.read_only => 4 | TransferStatus.exists_ => 5 | TransferStatus.not_found => 6 | TransferStatus.io_error => 7
  | TransferStatus.checksum_error => 8 | TransferStatus.timeout => 9 | TransferStatus.cleanup_failed => 10 | TransferStatus.denied => 11
  end.

Module Op.
Inductive Op : Set := upload | write | finish | download | read | list | next | remove | mkdir | rmdir | unknown.
End Op.
#[global] Instance Op_eq_dec : EqDecision Op.Op.
Proof. solve_decision. Defined.
Definition op_of (v : Z) : Op.Op :=
  match v with
  | 1 => Op.upload | 2 => Op.write | 3 => Op.finish | 4 => Op.download | 5 => Op.read | 6 => Op.list | 7 => Op.next
  | 8 => Op.remove | 9 => Op.mkdir | 10 => Op.rmdir | _ => Op.unknown
  end.

Module TransferState.
Inductive TransferState : Set := receiving | executing | cleanup.
End TransferState.
#[global] Instance TransferState_eq_dec : EqDecision TransferState.TransferState.
Proof. solve_decision. Defined.
#[export] Instance TransferState_enum : StateEnum TransferState.TransferState := {|
  state_index (s : TransferState.TransferState) := match s with
    | TransferState.receiving => 0 | TransferState.executing => 1 | TransferState.cleanup => 2 end%nat;
  state_count := 3%nat
|}.

Definition kMagic : Z := 0x46534f44.
Definition kVersion : Z := 1.
Definition kHeaderBytes : nat := 24.
Definition kChunkBytes : nat := 1024.
Definition kIdleTimeout : Time := 30000000.

Definition Map (result : FResult) : TransferStatus :=
  match result with
  | FR.OK => TransferStatus.ok | FR.DENIED => TransferStatus.denied | FR.LOCKED => TransferStatus.busy
  | FR.NOT_READY => TransferStatus.not_ready | FR.WRITE_PROTECTED => TransferStatus.read_only | FR.EXIST => TransferStatus.exists_
  | FR.NO_FILE | FR.NO_PATH => TransferStatus.not_found
  | FR.INVALID_NAME | FR.INVALID_PARAMETER => TransferStatus.invalid
  | _ => TransferStatus.io_error
  end.

Section transfer.
Context {E : Type} (ff : FatFs E) (access_ : bool) (reserve : bool -> Volume (E:=E) -> FResult * Volume (E:=E)) (release : E -> E).

Record FileTransfer := mkFileTransfer {
  volume_ : Volume (E:=E);
  tmachine_ : Machine TransferState.TransferState;
  request_ : list Z; reply_ : list Z;
  path_ : Name;
  received_ : nat; needed_ : nat; reply_size_ : nat;
  activity_ : Time;
  size_ : Z; offset_ : Z; crc_ : Z; expected_crc_ : Z; failures_ : Z;
  status_ : TransferStatus;
  leased_ : bool; opened_ : bool; uploading_ : bool; created_ : bool; listing_ : bool;
  disconnected_ : bool; malformed_ : bool; operated_ : bool;
  written_ : list Z
}.
#[export] Instance FileTransfer_eta : RecordEta FileTransfer := fun f =>
  mkFileTransfer (volume_ f) (tmachine_ f) (request_ f) (reply_ f) (path_ f) (received_ f) (needed_ f) (reply_size_ f) (activity_ f)
    (size_ f) (offset_ f) (crc_ f) (expected_crc_ f) (failures_ f) (status_ f) (leased_ f) (opened_ f) (uploading_ f) (created_ f)
    (listing_ f) (disconnected_ f) (malformed_ f) (operated_ f) (written_ f).
#[export] Instance FileTransfer_machine : HasMachine FileTransfer TransferState.TransferState := {|
  machine := tmachine_; with_machine m f := f <| tmachine_ := m |>
|}.
#[export] Instance FileTransfer_machine_laws : HasMachineLaws FileTransfer TransferState.TransferState.
Proof. split; [done|done|by intros []]. Qed.

Definition new_transfer (v : Volume) : FileTransfer :=
  mkFileTransfer v (initial_machine TransferState.receiving) (replicate (kHeaderBytes + kChunkBytes) 0)
    (replicate (kHeaderBytes + kChunkBytes) 0) [] 0 kHeaderBytes 0 0 0 0 0 0 0 TransferStatus.ok false false false false false false false
    false [].

Definition transfer_state (f : FileTransfer) : TransferState.TransferState := cs (tmachine_ f).

Definition feed (bytes : list Z) (now : Time) (f : FileTransfer) : nat * FileTransfer :=
  if negb (reply_size_ f =? 0)%nat || disconnected_ f || malformed_ f || negb (bool_decide (transfer_state f = TransferState.receiving))
  then (0%nat, f)
  else
    let count := Nat.min (length bytes) (needed_ f - received_ f) in
    let f := f <| request_ := blit (received_ f) (take count bytes) (request_ f) |> <| received_ := (received_ f + count)%nat |> in
    let f := if (count =? 0)%nat then f else f <| activity_ := now |> in
    let f :=
      if (received_ f =? kHeaderBytes)%nat then
        let len := read32 (request_ f) 12 in
        let f := f <| malformed_ := negb (read32 (request_ f) 0 =? kMagic) || negb (read32 (request_ f) 4 =? kVersion) ||
                                    (len >? Z.of_nat kChunkBytes) |> in
        if negb (malformed_ f) then f <| needed_ := (kHeaderBytes + Z.to_nat len)%nat |> else f
      else f in
    (count, f).

Definition sent (now : Time) (f : FileTransfer) : FileTransfer :=
  f <| reply_size_ := 0%nat |> <| received_ := 0%nat |> <| needed_ := kHeaderBytes |> <| malformed_ := false |> <| activity_ := now |>.

Definition Reply (payload : nat) (f : FileTransfer) : FileTransfer :=
  let r := write32 (reply_ f) 0 kMagic in
  let r := write32 r 4 kVersion in
  let r := write32 r 8 (transfer_code (status_ f)) in
  let r := write32 r 12 (Z.of_nat payload) in
  let r := write32 r 16 (offset_ f) in
  let r := write32 r 20 (crc_ f) in
  f <| reply_ := r |> <| reply_size_ := (kHeaderBytes + payload)%nat |>.

Definition completed_at (now : Time) (f : FileTransfer) : FileTransfer := if operated_ f then f <| activity_ := now |> else f.
Definition disconnect (f : FileTransfer) : FileTransfer := f <| disconnected_ := true |>.
Definition reply (f : FileTransfer) : list Z := take (if disconnected_ f then 0%nat else reply_size_ f) (reply_ f).
Definition transfer_busy (f : FileTransfer) : bool := leased_ f || negb (received_ f =? 0)%nat || disconnected_ f.

(** A call of the volume, and its result as the status. *)
Definition vol (op : Volume -> FResult * Volume) (f : FileTransfer) : FileTransfer :=
  let '(r, v) := op (volume_ f) in f <| volume_ := v |> <| status_ := Map r |>.
Definition fail (s : TransferStatus) (f : FileTransfer) : bool * FileTransfer := (false, f <| status_ := s |>).

Definition payload (f : FileTransfer) : list Z := sub (request_ f) kHeaderBytes (needed_ f - kHeaderBytes).
Definition is_mutation (op : Op.Op) : bool := match op with Op.remove | Op.mkdir | Op.rmdir => true | _ => false end.
Definition is_begin (op : Op.Op) : bool := match op with Op.upload | Op.download | Op.list => true | _ => is_mutation op end.

(** The requests that begin a transfer or change a directory. *)
Definition Begin (op : Op.Op) (arg0 arg1 : Z) (f : FileTransfer) : bool * FileTransfer :=
  let mutation := is_mutation op in
  let p := payload f in
  if leased_ f then fail TransferStatus.invalid f
  else if (length p =? 0)%nat || (Z.of_nat (length p) >? kPathCapacity) || existsb (fun c => c =? 0) p ||
          (negb (bool_decide (op = Op.upload)) && (negb (arg0 =? 0) || negb (arg1 =? 0))) then fail TransferStatus.invalid f
  else
    let f := f <| path_ := p |> <| uploading_ := bool_decide (op = Op.upload) |> <| listing_ := bool_decide (op = Op.list) |>
               <| offset_ := 0 |> <| crc_ := 0 |> <| size_ := arg0 |> <| expected_crc_ := arg1 |> in
    let f := vol (reserve (uploading_ f || mutation)) f in
    if negb (ts_ok (status_ f)) then (false, f)
    else
      let f := f <| leased_ := true |> in
      if mutation then
        (false, vol (match op with Op.remove => remove ff (path_ f) | Op.mkdir => mkdir ff (path_ f) | _ => rmdir ff (path_ f) end) f)
      else
        let f := vol (if uploading_ f then create ff (path_ f) else if listing_ f then open_directory ff (path_ f) else open ff (path_ f) 0) f in
        if negb (ts_ok (status_ f)) then (false, f)
        else
          let f := f <| opened_ := true |> <| created_ := uploading_ f |> in
          let f := if uploading_ f then f <| written_ := [] |> else f <| size_ := Volume.size ff (volume_ f) |> in
          let f := Reply 0 f in
          (true, f <| reply_ := write32 (reply_ f) 16 (size_ f) |>).

Definition Write (f : FileTransfer) : bool * FileTransfer :=
  let p := payload f in
  let '(r, count, v) := Volume.write ff p (volume_ f) in
  let f := f <| volume_ := v |> <| status_ := Map r |> in
  let f := if ts_ok (status_ f) && negb (count =? Z.of_nat (length p)) then f <| status_ := TransferStatus.io_error |> else f in
  if negb (ts_ok (status_ f)) then (false, f)
  else
    let f := f <| crc_ := crc32_update (crc_ f) p |> <| offset_ := u32 (offset_ f + count) |> <| written_ := written_ f ++ p |> in
    (true, Reply 0 f).

Definition Finish (f : FileTransfer) : bool * FileTransfer :=
  if negb (crc_ f =? expected_crc_ f) then fail TransferStatus.checksum_error f else (false, vol (Volume.sync ff) f).

Definition Next (f : FileTransfer) : bool * FileTransfer :=
  let '(r, entry, v) := Volume.next ff (volume_ f) in
  let f := f <| volume_ := v |> <| status_ := Map r |> in
  let name := fname entry in
  if negb (ts_ok (status_ f)) || (length name =? 0)%nat then (false, f)
  else if (kChunkBytes - 8 <? length name)%nat then fail TransferStatus.io_error f
  else
    let r := write32 (reply_ f) kHeaderBytes (if Z.land (fattrib entry) AM_DIR =? 0 then 0 else 1) in
    let r := write32 r (kHeaderBytes + 4) (u32 (fsize entry)) in
    (true, Reply (8 + length name) (f <| reply_ := blit (kHeaderBytes + 8) name r |>)).

Definition Read (f : FileTransfer) : bool * FileTransfer :=
  let n := Nat.min kChunkBytes (Z.to_nat (u32 (size_ f - offset_ f))) in
  let '(r, bytes, v) := if (n =? 0)%nat then (FR.OK, [], volume_ f) else Volume.read ff (Z.of_nat n) (volume_ f) in
  let f := f <| volume_ := v |> <| status_ := Map r |> <| reply_ := blit kHeaderBytes bytes (reply_ f) |> in
  let f := if ts_ok (status_ f) && negb (length bytes =? n)%nat then f <| status_ := TransferStatus.io_error |> else f in
  if negb (ts_ok (status_ f)) then (false, f)
  else
    let f := f <| crc_ := crc32_update (crc_ f) (sub (reply_ f) kHeaderBytes n) |> <| offset_ := u32 (offset_ f + Z.of_nat n) |> in
    if (n =? 0)%nat then (false, f) else (true, Reply n f).

Definition Execute (f : FileTransfer) : bool * FileTransfer :=
  let f := f <| operated_ := true |> in
  let op := op_of (read32 (request_ f) 8) in
  let arg0 := read32 (request_ f) 16 in
  let arg1 := read32 (request_ f) 20 in
  let p := payload f in
  let f := f <| status_ := TransferStatus.ok |> in
  if is_begin op then Begin op arg0 arg1 f
  else if negb (leased_ f) || (negb (length p =? 0)%nat && negb (bool_decide (op = Op.write))) then fail TransferStatus.invalid f
  else if bool_decide (op = Op.write) && uploading_ f && negb (length p =? 0)%nat && (arg0 =? offset_ f) && (arg1 =? 0) &&
          (Z.of_nat (length p) <=? u32 (size_ f - offset_ f)) then Write f
  else if negb (arg0 =? 0) || negb (arg1 =? 0) || negb (length p =? 0)%nat then fail TransferStatus.invalid f
  else if bool_decide (op = Op.finish) && uploading_ f && (offset_ f =? size_ f) then Finish f
  else if bool_decide (op = Op.next) && listing_ f then Next f
  else if bool_decide (op = Op.read) && negb (uploading_ f) && negb (listing_ f) then Read f
  else fail TransferStatus.invalid f.

(** [Cleanup] closes, removes what must not stay, and gives the lease back;
    the flag is its local [cleanup_failed]. *)
Definition CleanupClose (f : FileTransfer) : bool * FileTransfer :=
  if opened_ f then
    let '(r, v) := Volume.close ff (volume_ f) in (negb (is_ok r), f <| volume_ := v |> <| opened_ := false |>)
  else (false, f).
Definition CleanupRemove (cleanup_failed : bool) (f : FileTransfer) : bool * FileTransfer :=
  if created_ f && (negb (ts_ok (status_ f)) || disconnected_ f || cleanup_failed) then
    let '(r, v) := remove ff (path_ f) (volume_ f) in (cleanup_failed || negb (is_ok r), f <| volume_ := v |>)
  else (cleanup_failed, f).
Definition CleanupEnd (cleanup_failed : bool) (f : FileTransfer) : FileTransfer :=
  let f := f <| created_ := false |> in
  let f := if leased_ f then f <| volume_ := (volume_ f) <| fs_env := release (fs_env (volume_ f)) |> |> <| leased_ := false |> else f in
  let f := if cleanup_failed then f <| status_ := TransferStatus.cleanup_failed |> else f in
  let f := if negb (ts_ok (status_ f)) then f <| failures_ := u32 (failures_ f + 1) |> else f in
  if disconnected_ f then (sent (activity_ f) f) <| disconnected_ := false |> else Reply 0 f.
Definition Cleanup (f : FileTransfer) : FileTransfer :=
  let f := f <| operated_ := true |> in
  let '(cleanup_failed, f) := CleanupClose f in
  let '(cleanup_failed, f) := CleanupRemove cleanup_failed f in
  CleanupEnd cleanup_failed f.

Definition Step (now : Time) (cs : TransferState.TransferState) (f : FileTransfer) : TransferState.TransferState * FileTransfer :=
  let f := f <| operated_ := false |> in
  let expired := (leased_ f || negb (received_ f =? 0)%nat || negb (reply_size_ f =? 0)%nat) && (u64 (now - activity_ f) >=? kIdleTimeout) in
  match cs with
  | TransferState.receiving =>
      if disconnected_ f || expired || malformed_ f then
        (TransferState.cleanup,
         f <| status_ := if expired then TransferStatus.timeout else TransferStatus.invalid |> <| reply_size_ := 0%nat |>)
      else if (reply_size_ f =? 0)%nat && (received_ f =? needed_ f)%nat then (TransferState.executing, f)
      else (cs, f)
  | TransferState.executing =>
      if disconnected_ f || negb access_ then (TransferState.cleanup, f <| status_ := TransferStatus.not_ready |>)
      else let '(more, f) := Execute f in (if more then TransferState.receiving else TransferState.cleanup, f)
  | TransferState.cleanup => (TransferState.receiving, Cleanup f)
  end.
Definition tick (now : Time) (f : FileTransfer) : FileTransfer := snd (StateMachine.tick (step_only (Step now)) f).

(** ** One tick *)

Definition on {A} (m : Machine TransferState.TransferState) (r : A * FileTransfer) : A * FileTransfer := (fst r, with_machine m (snd r)).
Lemma Begin_oblivious op a b m f : Begin op a b (with_machine m f) = on m (Begin op a b f).
Proof.
  unfold Begin. change (leased_ (with_machine m f)) with (leased_ f). change (payload (with_machine m f)) with (payload f).
  destruct (leased_ f); [done|]. destruct (_ || _); [done|]. unfold vol, fat. cbn.
  destruct (reserve _ _) as [r e]. cbn. destruct (ts_ok (Map r)); cbn [negb]; [|done].
  destruct (is_mutation op); [by match goal with |- context [let '(_, _) := ?x in _] => destruct x as [r1 v1] end|].
  match goal with |- context [let '(_, _) := ?x in _] => destruct x as [r1 v1] end. cbn.
  destruct (ts_ok (Map r1)); cbn [negb]; [|done]. by destruct (bool_decide (op = Op.upload)).
Qed.
Lemma Execute_oblivious m f : Execute (with_machine m f) = on m (Execute f).
Proof.
  unfold Execute. change (payload ((with_machine m f) <| operated_ := true |>)) with (payload f).
  change (payload (f <| operated_ := true |>)) with (payload f).
  cbn [request_ leased_ uploading_ offset_ size_ listing_ with_machine FileTransfer_machine field_update FileTransfer_eta].
  destruct (is_begin _); [rewrite <-Begin_oblivious; reflexivity|].
  destruct (_ || _); [done|]. destruct (_ && (Z.of_nat _ <=? _)).
  { unfold Write. cbn. change (payload _) with (payload f). change (payload _) with (payload f) at 2.
    destruct (Volume.write ff _ _) as [[r count] v]. cbn. destruct (ts_ok (Map r) && _); cbn; [done|]. by destruct (ts_ok (Map r)). }
  destruct (_ || _); [done|]. destruct (_ && (offset_ f =? size_ f)).
  { unfold Finish. cbn. destruct (_ =? _); [|done]. unfold vol. cbn. by destruct (Volume.sync ff _). }
  destruct (_ && listing_ f).
  { unfold Next. cbn. destruct (Volume.next ff _) as [[r entry] v]. cbn. destruct (_ || _); [done|]. by match goal with |- context [if ?b then _ else _] => destruct b end. }
  destruct (_ && negb (listing_ f)); [|done]. unfold Read.
  cbn [size_ offset_ volume_ reply_ crc_ status_ with_machine FileTransfer_machine field_update FileTransfer_eta].
  generalize (Nat.min kChunkBytes (Z.to_nat (u32 (size_ f - offset_ f)))). intros n.
  destruct (n =? 0)%nat; [|destruct (Volume.read ff _ _) as [[r bytes] v]];
    cbn [size_ offset_ volume_ reply_ crc_ status_ with_machine FileTransfer_machine field_update FileTransfer_eta];
    match goal with |- context [ts_ok ?s && ?b] => destruct (ts_ok s && b) end;
    cbn [status_ field_update FileTransfer_eta]; match goal with |- context [ts_ok ?s] => destruct (ts_ok s) end; done.
Qed.
Lemma CleanupClose_oblivious m f : CleanupClose (with_machine m f) = on m (CleanupClose f).
Proof. unfold CleanupClose. cbn. destruct (opened_ f); [|done]. by destruct (Volume.close ff _). Qed.
Lemma CleanupRemove_oblivious b m f : CleanupRemove b (with_machine m f) = on m (CleanupRemove b f).
Proof. unfold CleanupRemove. cbn. destruct (_ && _); [|done]. by destruct (remove ff _ _). Qed.
Lemma CleanupEnd_oblivious b m f : CleanupEnd b (with_machine m f) = with_machine m (CleanupEnd b f).
Proof.
  unfold CleanupEnd. cbn [created_ leased_ volume_ field_update FileTransfer_eta with_machine FileTransfer_machine].
  destruct (leased_ f), b, (disconnected_ f) eqn:Ed;
    cbn [status_ disconnected_ field_update FileTransfer_eta]; destruct (ts_ok _); cbn; by rewrite ?Ed.
Qed.
Lemma Cleanup_oblivious m f : Cleanup (with_machine m f) = with_machine m (Cleanup f).
Proof.
  unfold Cleanup. change ((with_machine m f) <| operated_ := true |>) with (with_machine m (f <| operated_ := true |>)).
  rewrite CleanupClose_oblivious. destruct (CleanupClose _) as [b f1]. unfold on. cbn [fst snd].
  rewrite CleanupRemove_oblivious. destruct (CleanupRemove _ _) as [b2 f2]. unfold on. cbn [fst snd]. apply CleanupEnd_oblivious.
Qed.
Lemma transfer_oblivious now c m f : Step now c (with_machine m f) = (fst (Step now c f), with_machine m (snd (Step now c f))).
Proof.
  unfold Step. cbn [leased_ received_ reply_size_ activity_ disconnected_ malformed_ needed_ with_machine FileTransfer_machine field_update FileTransfer_eta].
  destruct c.
  - destruct (_ || malformed_ f); [done|]. by destruct (_ && _).
  - destruct (_ || _); [done|]. pose proof (Execute_oblivious m (f <| operated_ := false |>)) as He.
    set (g := f <| operated_ := false |>) in He. match goal with |- context [Execute ?q] => assert (Execute q = on m (Execute g)) as -> by exact He end.
    fold g. unfold on. by destruct (Execute g) as [[] f1].
  - pose proof (Cleanup_oblivious m (f <| operated_ := false |>)) as Hc. exact (f_equal (pair TransferState.receiving) Hc).
Qed.
Lemma transfer_tick now f : ticking_ (tmachine_ f) = false -> exists m,
  tick now f = (snd (Step now (transfer_state f) f)) <| tmachine_ := m |> /\ cs m = fst (Step now (transfer_state f) f) /\ ticking_ m = false.
Proof.
  intros Ht. unfold tick. rewrite tick_oblivious; [|intros; apply transfer_oblivious|exact Ht].
  exists (post_machine (fst (Step now (transfer_state f) f)) (tmachine_ f)). split; [done|]. split; [|done].
  rewrite cs_post_machine. by destruct (fst _).
Qed.
End transfer.
