(* ===== verification/Upload.v ===== *)
(** * Uploads (src/lib/storage/transfer.cpp over src/lib/storage/volume.cpp)

    What a client may conclude from the reply that ends an upload, over every
    history of a transfer.  What FatFs does to the files is stated by
    [fat_laws]: [files] are the contents of the files by their full path and
    [handle] is the path the file object has open with its pointer at the end of
    the file.  The laws speak of calls that succeed only. *)

From stdpp Require Import gmap.
From S2P Require Import Prelude Foundation Wire Match StateMachine Volume FileTransfer.

Section upload.
Context {E : Type} (ff : FatFs E) (access_ : bool) (reserve : bool -> Volume (E:=E) -> FResult * Volume (E:=E)) (release : E -> E).
Context (files : E -> Name -> option (list Z)) (handle : E -> option Name).

Record fat_laws : Prop := {
  fl_create n e e' : f_open ff n true e = (FR.OK, e') -> handle e' = Some n /\ files e' n = Some [];
  fl_write n bytes old count e e' :
    handle e = Some n -> files e n = Some old -> f_write ff bytes e = (FR.OK, count, e') ->
    handle e' = Some n /\ files e' n = Some (old ++ take (Z.to_nat count) bytes);
  fl_sync e e' : f_sync ff e = (FR.OK, e') -> handle e' = handle e /\ forall n, files e' n = files e n;
  fl_close n e e' : f_close ff e = (FR.OK, e') -> files e' n = files e n;
  fl_unlink n e e' : f_unlink ff n e = (FR.OK, e') -> files e' n = None;
  fl_release n e : files (release e) n = files e n
}.

Abbreviation transfer := (@FileTransfer E).
Abbreviation env f := (fs_env (volume_ f)).

(** What the rest of the program may do to the volume while the lease is held:
    nothing the transfer depends on. *)
Definition leaves (v v' : Volume) : Prop :=
  mounted_ v' = mounted_ v /\ drive_ v' = drive_ v /\ file_open_ v' = file_open_ v /\ directory_open_ v' = directory_open_ v /\
  handle (fs_env v') = handle (fs_env v) /\ forall n, files (fs_env v') n = files (fs_env v) n.

Inductive reachable : transfer -> Prop :=
  | r_new v : reachable (new_transfer v)
  | r_feed bytes now f : reachable f -> bytes_ok bytes -> reachable (snd (feed bytes now f))
  | r_tick now f : reachable f -> reachable (tick ff access_ reserve release now f)
  | r_completed now f : reachable f -> reachable (completed_at now f)
  | r_sent now f : reachable f -> reachable (sent now f)
  | r_disconnect f : reachable f -> reachable (disconnect f)
  | r_others v f : reachable f -> (leased_ f = true -> leaves (volume_ f) v) -> reachable (f <| volume_ := v |>).

(** ** The invariant *)

(** The file the client is uploading can be found under its path. *)
Definition located (f : transfer) (name : Name) : Prop :=
  opened_ f = true /\ leased_ f = true /\ uploading_ f = true /\ listing_ f = false /\ is_u32 (size_ f) /\
  file_open_ (volume_ f) = true /\ directory_open_ (volume_ f) = false /\ Path (path_ f) (volume_ f) = (FR.OK, name).
(** It holds what the client has sent, and the counters agree with it. *)
Definition stored (f : transfer) (name : Name) : Prop :=
  offset_ f = Z.of_nat (length (written_ f)) /\ offset_ f <= size_ f /\ crc_ f = crc32_calculate (written_ f) /\
  handle (env f) = Some name /\ files (env f) name = Some (written_ f).
Definition complete (f : transfer) : Prop := offset_ f = size_ f /\ crc_ f = expected_crc_ f.
Definition request_ok (f : transfer) : Prop := bytes_ok (request_ f) /\ length (request_ f) = (kHeaderBytes + kChunkBytes)%nat.

(** [c] is the state of the machine. *)
Definition upload_inv (c : TransferState.TransferState) (f : transfer) : Prop :=
  request_ok f /\
  (created_ f = true -> exists name, located f name /\
    if decide (c = TransferState.cleanup) then status_ f = TransferStatus.ok -> stored f name /\ complete f else stored f name).

Lemma Map_ok r : Map r = TransferStatus.ok -> r = FR.OK.
Proof. by destruct r. Qed.
Lemma ts_ok_true s : ts_ok s = true <-> s = TransferStatus.ok.
Proof. unfold ts_ok. apply bool_decide_eq_true. Qed.

(** Only these fields matter to the invariant. *)
Lemma upload_inv_ext c f f' : request_ok f' -> created_ f' = created_ f -> opened_ f' = opened_ f -> leased_ f' = leased_ f ->
  uploading_ f' = uploading_ f -> listing_ f' = listing_ f -> size_ f' = size_ f -> volume_ f' = volume_ f -> path_ f' = path_ f ->
  offset_ f' = offset_ f -> written_ f' = written_ f -> crc_ f' = crc_ f -> status_ f' = status_ f -> expected_crc_ f' = expected_crc_ f ->
  upload_inv c f -> upload_inv c f'.
Proof.
  intros Hr. unfold upload_inv, located, stored, complete. by intros -> -> -> -> -> -> -> -> -> -> -> -> -> [_ H].
Qed.

(** ** The operations keep it *)

Context (laws : fat_laws).

Lemma not_created c f : created_ f = false -> request_ok f -> upload_inv c f.
Proof. intros H ?. split; [done|]. by rewrite H. Qed.

Lemma feed_inv c bytes now f : bytes_ok bytes -> upload_inv c f -> upload_inv c (snd (feed bytes now f)).
Proof.
  intros Hb Hi. unfold feed. destruct (_ || _); [done|]. cbn [snd].
  set (count := Nat.min _ _). set (r := blit (received_ f) (take count bytes) (request_ f)).
  assert (bytes_ok r /\ length r = (kHeaderBytes + kChunkBytes)%nat) as Hr.
  { destruct Hi as [[? ?] _]. subst r. rewrite length_blit. split; [|done]. apply Forall_blit; [by apply Forall_take|done]. }
  clearbody r. match goal with |- upload_inv c ?g => set (f' := g) end.
  enough (upload_inv c f') by done. eapply upload_inv_ext; [..|exact Hi]; subst f'; [unfold request_ok|..];
    repeat (match goal with |- context [if ?b then _ else _] => destruct b end; cbn [negb request_ malformed_ field_update FileTransfer_eta] ); done.
Qed.

Lemma Begin_inv op a b f more f' : created_ f = false -> request_ok f -> is_u32 a -> Begin ff reserve op a b f = (more, f') ->
  upload_inv (if more then TransferState.receiving else TransferState.cleanup) f'.
Proof.
  intros Hc Hr Ha. unfold Begin, fail, vol, fat. destruct (leased_ f); [intros [= <- <-]; by apply not_created|].
  destruct (_ || _); [intros [= <- <-]; by apply not_created|]. cbn [uploading_ volume_ field_update FileTransfer_eta].
  destruct (reserve _ _) as [r e]. cbn [status_ leased_ path_ uploading_ listing_ volume_ field_update FileTransfer_eta].
  destruct (ts_ok (Map r)); cbn [negb]; [|intros [= <- <-]; by apply not_created].
  destruct (is_mutation op); [match goal with |- context [let '(_, _) := ?x in _] => destruct x as [r1 v1] end; intros [= <- <-]; by apply not_created|].
  destruct (bool_decide (op = Op.upload)) eqn:Eop; cbn [negb andb].
  - match goal with |- context [let '(_, _) := ?x in _] => destruct x as [r1 v1] eqn:Ecr end.
    cbn [status_ field_update FileTransfer_eta].
    destruct (ts_ok (Map r1)) eqn:Er; cbn [negb]; [|intros [= <- <-]; by apply not_created].
    apply ts_ok_true, Map_ok in Er as ->. cbn. intros [= <- <-]. split; [exact Hr|]. intros _.
    apply create_ok in Ecr as (name & e1 & Hp & Ho & -> & Hd & Hm & Hw). exists name.
    destruct (fl_create laws _ _ _ Ho) as [Hh Hf]. rewrite decide_False by done. unfold located, stored, is_u32 in *. cbn.
    apply bool_decide_eq_true in Eop as ->. split_and!; try done; lia.
  - match goal with |- context [let '(_, _) := ?x in _] => destruct x as [r1 v1] end.
    cbn [status_ field_update FileTransfer_eta].
    destruct (ts_ok (Map r1)); cbn [negb]; intros [= <- <-]; by apply not_created.
Qed.

(** A request that is answered and changes nothing the invariant reads, or
    that fails. *)
Lemma fail_inv f f' : created_ f' = created_ f -> opened_ f' = opened_ f -> leased_ f' = leased_ f -> uploading_ f' = uploading_ f ->
  listing_ f' = listing_ f -> size_ f' = size_ f -> path_ f' = path_ f -> request_ f' = request_ f ->
  (forall name, located f name -> Path (path_ f) (volume_ f') = (FR.OK, name) /\ file_open_ (volume_ f') = true /\
     directory_open_ (volume_ f') = false) ->
  status_ f' <> TransferStatus.ok -> upload_inv TransferState.receiving f -> upload_inv TransferState.cleanup f'.
Proof.
  intros Hc Ho Hl Hu Hli Hs Hp Hr Hv Hst [Hq Hi]. split; [unfold request_ok; by rewrite Hr|]. rewrite Hc. intros Hcr.
  destruct (Hi Hcr) as (name & Hloc & _). exists name. destruct (Hv name Hloc) as (Hpa & Hf & Hd).
  rewrite decide_True by done. split; [|done]. unfold located in *. rewrite Ho, Hl, Hu, Hli, Hs, Hp. tauto.
Qed.
Lemma refuse_inv s f : s <> TransferStatus.ok -> upload_inv TransferState.receiving f ->
  upload_inv TransferState.cleanup (f <| status_ := s |>).
Proof. intros Hs. apply fail_inv; try done. intros name H. unfold located in H. cbn. tauto. Qed.

(** The calls on an open file only reach into FatFs. *)
Lemma write_keeps bytes (v : Volume) : exists e, snd (Volume.write ff bytes v) = v <| fs_env := e |>.
Proof.
  exists (fs_env (snd (Volume.write ff bytes v))). unfold Volume.write. destruct v. cbn. repeat (destruct (_ : bool); [done|]).
  by destruct (f_write ff _ _) as [[? ?] ?].
Qed.
Lemma sync_keeps (v : Volume) : exists e, snd (Volume.sync ff v) = v <| fs_env := e |>.
Proof.
  exists (fs_env (snd (Volume.sync ff v))). unfold Volume.sync, fat. destruct v. cbn. destruct (_ : bool); [done|]. destruct (_ : bool); [|done].
  by destruct (f_sync ff _).
Qed.

Lemma Write_inv f more f' : upload_inv TransferState.receiving f -> Z.of_nat (length (payload f)) <= u32 (size_ f - offset_ f) ->
  Write ff f = (more, f') -> upload_inv (if more then TransferState.receiving else TransferState.cleanup) f'.
Proof.
  intros Hi Hle. unfold Write. destruct (write_keeps (payload f) (volume_ f)) as [e Hv].
  destruct (Volume.write ff (payload f) (volume_ f)) as [[r count] v] eqn:Ew. cbn in Hv. subst v.
  cbn [status_ field_update FileTransfer_eta]. destruct (ts_ok (Map r)) eqn:Er; cbn [andb negb].
  2: { cbn. rewrite Er. cbn [negb]. intros [= <- <-]. eapply fail_inv; [..|exact Hi]; try done.
       - intros name H. unfold located in H. cbn. tauto.
       - cbn. intros H. by rewrite (proj2 (ts_ok_true _)) in Er. }
  apply ts_ok_true, Map_ok in Er as ->. destruct (count =? _) eqn:Ec; cbn.
  2: { intros [= <- <-]. eapply fail_inv; [..|exact Hi]; try done. intros name H. unfold located in H. cbn. tauto. }
  intros [= <- <-]. destruct Hi as [Hq Hi]. split; [done|]. cbn. intros Hc. destruct (Hi Hc) as (name & Hloc & Hst).
  rewrite decide_False in Hst by done. exists name. split; [exact Hloc|]. rewrite decide_False by done.
  apply Z.eqb_eq in Ec. apply write_ok in Ew as (e' & Hf & He). apply (f_equal fs_env) in He. cbn in He. subst e'.
  destruct Hst as (Ho & Hos & Hcrc & Hh & Hfi). destruct (fl_write laws _ _ _ _ _ _ Hh Hfi Hf) as [Hh' Hfi'].
  destruct Hloc as (_ & _ & _ & _ & Hu & _). unfold is_u32 in Hu. rewrite u32_small in Hle by (unfold is_u32; lia).
  unfold stored. cbn. rewrite length_app, Hcrc. unfold crc32_calculate. rewrite crc32_update_app, u32_small by (unfold is_u32; lia).
  rewrite Ec, Nat2Z.id, firstn_all in Hfi'. split_and!; try done; lia.
Qed.
Lemma Finish_inv f more f' : upload_inv TransferState.receiving f -> offset_ f = size_ f -> Finish ff f = (more, f') ->
  upload_inv (if more then TransferState.receiving else TransferState.cleanup) f'.
Proof.
  intros Hi Hos. unfold Finish, vol, fail. destruct (crc_ f =? expected_crc_ f) eqn:Ec; cbn [negb];
    [|intros [= <- <-]; by apply refuse_inv].
  destruct (sync_keeps (volume_ f)) as [e Hv]. destruct (Volume.sync ff (volume_ f)) as [r v] eqn:Es. cbn in Hv. subst v.
  intros [= <- <-]. destruct Hi as [Hq Hi]. split; [done|]. cbn. intros Hc. destruct (Hi Hc) as (name & Hloc & Hst).
  rewrite decide_False in Hst by done. exists name. split; [exact Hloc|]. rewrite decide_True by done. intros Hr. apply Map_ok in Hr as ->.
  apply sync_ok in Es as (e' & Hf & He). apply (f_equal fs_env) in He. cbn in He. subst e'.
  apply Z.eqb_eq in Ec. split; [|split; done]. destruct Hst as (Ho & Hos' & Hcrc & Hh & Hfi).
  destruct (fl_sync laws _ _ Hf) as [Hh' Hfi']. unfold stored. cbn. by rewrite Hh', Hfi'.
Qed.
(** Listing and reading belong to transfers that created nothing. *)
Lemma other_transfer f : upload_inv TransferState.receiving f -> (uploading_ f = false \/ listing_ f = true \/ leased_ f = false) -> created_ f = false.
Proof.
  intros [_ Hi] H. destruct (created_ f); [|done]. destruct (Hi eq_refl) as (name & (_ & Hl & Hu & Hli & _) & _). rewrite Hl, Hu, Hli in H.
  by destruct H as [|[|]].
Qed.
Lemma Next_keeps f more f' : Next ff f = (more, f') -> created_ f' = created_ f /\ request_ f' = request_ f.
Proof.
  unfold Next, fail. destruct (Volume.next ff _) as [[r entry] v]. cbn [status_ reply_ field_update FileTransfer_eta].
  destruct (_ || _); [by intros [= <- <-]|]. destruct (_ <? _)%nat; by intros [= <- <-].
Qed.
Lemma transfer_Read_keeps f more f' : Read ff f = (more, f') -> created_ f' = created_ f /\ request_ f' = request_ f.
Proof.
  unfold Read. generalize (Nat.min kChunkBytes (Z.to_nat (u32 (size_ f - offset_ f)))). intros n.
  destruct (if (n =? 0)%nat then _ else _) as [[r bytes] v]. cbn [status_ reply_ crc_ offset_ field_update FileTransfer_eta].
  destruct (ts_ok (Map r)) eqn:Er; [destruct (length bytes =? n)%nat|]; cbn [andb negb status_ reply_ crc_ offset_ field_update FileTransfer_eta];
    rewrite ?Er; cbn [negb]; [destruct (n =? 0)%nat|..]; by intros [= <- <-].
Qed.
Lemma keeps_inv c f f' : request_ok f -> created_ f = false -> created_ f' = created_ f /\ request_ f' = request_ f -> upload_inv c f'.
Proof. intros Hq Hc [Hc' Hr]. apply not_created; [by rewrite Hc'|]. unfold request_ok. by rewrite Hr. Qed.

Lemma Execute_inv f more f' : upload_inv TransferState.receiving f -> Execute ff reserve f = (more, f') ->
  upload_inv (if more then TransferState.receiving else TransferState.cleanup) f'.
Proof.
  intros Hi. unfold Execute. cbv zeta.
  set (g := f <| operated_ := true |> <| status_ := TransferStatus.ok |>).
  assert (upload_inv TransferState.receiving g) as Hg by exact Hi. assert (request_ok g) as Hq by exact (proj1 Hi).
  change (payload (f <| operated_ := true |>)) with (payload g).
  change (request_ (f <| operated_ := true |>)) with (request_ g). change (leased_ (f <| operated_ := true |>)) with (leased_ g).
  clearbody g. clear Hi f. set (op := op_of _).
  destruct (leased_ g) eqn:El; destruct (is_begin op).
  - unfold Begin, fail. rewrite El. intros [= <- <-]. by apply refuse_inv.
  - destruct (_ || _); [unfold fail; intros [= <- <-]; by apply refuse_inv|].
    destruct (_ && (Z.of_nat _ <=? _)) eqn:Ew; [apply andb_prop in Ew as [_ Ew]; intros H; eapply Write_inv; [exact Hg|by apply Z.leb_le|exact H]|].
    destruct (_ || _); [unfold fail; intros [= <- <-]; by apply refuse_inv|].
    destruct (_ && (offset_ g =? size_ g)) eqn:Ef; [apply andb_prop in Ef as [_ Ef]; intros H; eapply Finish_inv; [exact Hg|by apply Z.eqb_eq|exact H]|].
    destruct (_ && listing_ g) eqn:En.
    { apply andb_prop in En as [_ En]. intros H%Next_keeps. eapply keeps_inv; [exact Hq| |exact H]. apply other_transfer; auto. }
    destruct (_ && negb (listing_ g)) eqn:Er; [|unfold fail; intros [= <- <-]; by apply refuse_inv].
    rewrite !andb_true_iff, !negb_true_iff in Er. intros H%transfer_Read_keeps. eapply keeps_inv; [exact Hq| |exact H]. apply other_transfer; tauto.
  - apply Begin_inv; [apply other_transfer; auto|done|]. destruct Hq as [Hb Hl]. apply read32_range; [done|]. rewrite Hl. unfold kHeaderBytes. lia.
  - unfold fail. cbn [negb orb]. intros [= <- <-]. by apply refuse_inv.
Qed.

(** ** Cleaning up *)

Lemma CleanupEnd_spec b f : let g := CleanupEnd release b f in
  created_ g = false /\ request_ g = request_ f /\ status_ g = (if b then TransferStatus.cleanup_failed else status_ f) /\
  (forall n, files (env g) n = files (env f) n).
Proof.
  unfold CleanupEnd. cbn [created_ leased_ volume_ field_update FileTransfer_eta].
  destruct (leased_ f), b, (disconnected_ f) eqn:Ed;
    cbn [status_ disconnected_ field_update FileTransfer_eta]; destruct (ts_ok _); cbn; rewrite ?Ed; cbn;
    split_and!; try done; intros n; apply (fl_release laws).
Qed.
Lemma CleanupClose_keeps f : let g := snd (CleanupClose ff f) in
  created_ g = created_ f /\ request_ g = request_ f /\ status_ g = status_ f /\ disconnected_ g = disconnected_ f /\ path_ g = path_ f.
Proof. unfold CleanupClose. destruct (opened_ f); [|done]. by destruct (Volume.close ff _). Qed.
Lemma CleanupRemove_keeps b f : let g := snd (CleanupRemove ff b f) in request_ g = request_ f /\ status_ g = status_ f.
Proof. unfold CleanupRemove. destruct (_ && _); [|done]. by destruct (remove ff _ _). Qed.

Lemma Cleanup_keeps f : created_ (Cleanup ff release f) = false /\ request_ (Cleanup ff release f) = request_ f.
Proof.
  unfold Cleanup. pose proof (CleanupClose_keeps (f <| operated_ := true |>)) as Hc. destruct (CleanupClose ff _) as [b f1].
  pose proof (CleanupRemove_keeps b f1) as Hr. destruct (CleanupRemove ff b f1) as [b2 f2]. cbn in Hc, Hr.
  destruct (CleanupEnd_spec b2 f2) as (-> & -> & _). split; [done|]. destruct Hc as (_ & Hq & _), Hr as [Hq2 _]. by rewrite Hq2, Hq.
Qed.

(** The file has been closed, or closing it failed. *)
Lemma CleanupClose_spec f name : located f name -> exists b g,
  CleanupClose ff f = (b, g) /\ Path (path_ f) (volume_ g) = (FR.OK, name) /\
  (b = false -> forall n, files (env g) n = files (env f) n).
Proof.
  intros (Ho & _ & _ & _ & _ & Hf & Hd & Hp). unfold CleanupClose. rewrite Ho. unfold Volume.close.
  destruct (vbusy_ (volume_ f)); [by eexists _, _|]. unfold Close, fat. rewrite Hf. destruct (f_close ff (env f)) as [r e] eqn:Ec.
  cbn. rewrite Hd. eexists _, _. split; [done|]. split; [exact Hp|]. intros Hr. apply negb_false_iff, is_ok_true in Hr as ->. cbn.
  intros n. by apply (fl_close laws).
Qed.
(** The file has been removed if it had to be, or removing it failed. *)
Lemma CleanupRemove_spec b f name : created_ f = true -> Path (path_ f) (volume_ f) = (FR.OK, name) ->
  let '(b', g) := CleanupRemove ff b f in
  (status_ f = TransferStatus.ok -> disconnected_ f = false -> b = false -> b' = false /\ g = f) /\
  (b' = false -> status_ f <> TransferStatus.ok \/ disconnected_ f = true -> files (env g) name = None) /\ (b = true -> b' = false -> False).
Proof.
  intros Hc Hp. unfold CleanupRemove. rewrite Hc. cbn [andb]. destruct (_ || b) eqn:Eb.
  - destruct (remove ff (path_ f) (volume_ f)) as [r v] eqn:Er. split; [|split].
    + intros Hs Hd ->. rewrite Hs, Hd in Eb. done.
    + intros Hr _. apply orb_false_iff in Hr as [_ Hr]. apply negb_false_iff, is_ok_true in Hr as ->.
      apply remove_ok in Er as (name' & e1 & e2 & Hp' & Hu & ->). cbn. rewrite Hp in Hp'. injection Hp' as <-. by eapply (fl_unlink laws).
    + by intros ->.
  - rewrite !orb_false_iff in Eb. destruct Eb as [[Hs Hd] ->]. apply negb_false_iff, ts_ok_true in Hs.
    split; [done|]. split; [|done]. rewrite Hs, Hd. intros _ H. by destruct H.
Qed.
Lemma Cleanup_spec f name : created_ f = true -> located f name -> let g := Cleanup ff release f in
  (status_ g = TransferStatus.ok -> disconnected_ f = false -> status_ f = TransferStatus.ok /\ files (env g) name = files (env f) name) /\
  (status_ g <> TransferStatus.cleanup_failed -> status_ g <> TransferStatus.ok \/ disconnected_ f = true -> files (env g) name = None).
Proof.
  intros Hc Hl. unfold Cleanup. cbv zeta. match goal with |- context [CleanupClose ff ?q] => set (f0 := q) end.
  change (disconnected_ f) with (disconnected_ f0). change (status_ f) with (status_ f0). change (env f) with (env f0).
  assert (located f0 name) as Hl' by exact Hl. assert (created_ f0 = true) as Hc' by exact Hc.
  clearbody f0. clear f Hc Hl. rename f0 into f, Hl' into Hl, Hc' into Hc.
  pose proof (CleanupClose_keeps f) as Hk. destruct (CleanupClose_spec _ _ Hl) as (b & g & Eq & Hp & Hfi).
  rewrite Eq in Hk |- *. destruct Hk as (Hkc & _ & Hks & Hkd & Hkp). cbn [snd] in *.
  rewrite <- Hkp in Hp. rewrite <- Hkc in Hc. pose proof (CleanupRemove_spec b g name Hc Hp) as Hr.
  pose proof (CleanupRemove_keeps b g) as [_ Hrs]. destruct (CleanupRemove ff b g) as [b2 h]. cbn in Hrs.
  destruct (CleanupEnd_spec b2 h) as (_ & _ & Hst & Hf). destruct Hr as (R1 & R2 & R3). rewrite Hf, Hst, Hrs.
  rewrite Hks, Hkd in *. destruct b2; [done|]. destruct b; [by destruct R3|]. split; [|intros _; by apply R2].
  intros Hs Hd. split; [done|]. destruct (R1 Hs Hd eq_refl) as [_ ->]. by apply Hfi.
Qed.

(** ** Every history *)

Lemma transfer_Step_inv now c f : upload_inv c f -> let '(c', f') := Step ff access_ reserve release now c f in upload_inv c' f'.
Proof.
  intros Hi. unfold Step. assert (upload_inv c (f <| operated_ := false |>)) as Hg by exact Hi.
  set (g := f <| operated_ := false |>) in *. clearbody g. clear Hi f. destruct c.
  - destruct (_ || malformed_ g).
    + match goal with |- context [if ?b then TransferStatus.timeout else _] => destruct b end;
        (eapply (fail_inv g); [done..| | |exact Hg]; [intros name H; unfold located in H; cbn; tauto|done]).
    + by destruct (_ && _).
  - destruct (_ || _); [by apply refuse_inv|]. destruct (Execute ff reserve g) as [more f'] eqn:Ee.
    apply Execute_inv in Ee; [|exact Hg]. by destruct more.
  - destruct (Cleanup_keeps g) as [Hc Hr]. apply not_created; [done|]. unfold request_ok. rewrite Hr. apply Hg.
Qed.

Definition history_inv (f : transfer) : Prop := ticking_ (tmachine_ f) = false /\ upload_inv (transfer_state f) f.
Lemma transfer_tick_inv now f : history_inv f -> history_inv (tick ff access_ reserve release now f).
Proof.
  intros [Ht Hi]. destruct (transfer_tick ff access_ reserve release now f Ht) as (m & -> & Hm & Hn).
  pose proof (transfer_Step_inv now _ _ Hi) as Hs. destruct (Step _ _ _ _ _ _ _) as [c' f']. cbn in *. split; [done|].
  unfold transfer_state. cbn. rewrite Hm. exact Hs.
Qed.
Lemma others_inv c v f : (leased_ f = true -> leaves (volume_ f) v) -> upload_inv c f -> upload_inv c (f <| volume_ := v |>).
Proof.
  intros Hv [Hq Hi]. split; [done|]. intros Hc. destruct (Hi Hc) as (name & Hl & Hst). exists name.
  destruct (Hv (proj1 (proj2 Hl))) as (Hm & Hd & Hf & Hdo & Hh & Hfi). unfold located, stored, complete in *. cbn.
  rewrite Hf, Hdo, Hh, Hfi. split; [|exact Hst]. destruct Hl as (?&?&?&?&?&?&?&Hp). split_and!; try done.
  destruct (Path_ok _ _ _ Hp) as (Hmo & _ & Hp'). apply Hp'; [by rewrite Hm|done].
Qed.
Lemma feed_machine bytes now (f : transfer) : tmachine_ (snd (feed bytes now f)) = tmachine_ f.
Proof.
  unfold feed. destruct (_ || _); [done|]. cbn [snd].
  repeat (match goal with |- context [if ?b then _ else _] => destruct b end; cbn [negb request_ malformed_ field_update FileTransfer_eta]); done.
Qed.
Lemma transfer_reachable_inv f : reachable f -> history_inv f.
Proof.
  induction 1 as [v|bytes now f _ IH Hb|now f _ IH|now f _ IH|now f _ IH|f _ IH|v f _ IH Hv].
  - split; [done|]. apply not_created; [done|]. split; [|done]. apply Forall_replicate. unfold is_byte. lia.
  - destruct IH as [Ht Hi]. unfold history_inv, transfer_state. rewrite feed_machine. split; [done|]. by apply feed_inv.
  - by apply transfer_tick_inv.
  - unfold completed_at. by destruct (operated_ f).
  - done.
  - done.
  - destruct IH as [Ht Hi]. split; [done|]. by apply others_inv.
Qed.

(** C19: For every history of a transfer, a tick that cleans up after an upload
    gives the lease back and returns to receiving, and: if it reports success to
    a connected client, then the file under the requested path has exactly the
    announced size and the announced CRC-32; if it reports anything else but
    [cleanup_failed], or the client has gone, then no file is left under that
    path. *)
Theorem upload_complete_or_removed now f :
  reachable f -> created_ f = true -> transfer_state f = TransferState.cleanup ->
  let g := tick ff access_ reserve release now f in
  let name := drive_name (volume_ f) ++ [47] ++ path_ f in
  transfer_state g = TransferState.receiving /\ created_ g = false /\
  (disconnected_ f = false -> status_ g = TransferStatus.ok ->
     exists bytes, files (env g) name = Some bytes /\ Z.of_nat (length bytes) = size_ f /\ crc32_calculate bytes = expected_crc_ f) /\
  (status_ g <> TransferStatus.cleanup_failed -> disconnected_ f = true \/ status_ g <> TransferStatus.ok -> files (env g) name = None).
Proof.
  intros Hr Hc Hs g name. destruct (transfer_reachable_inv f Hr) as [Ht [_ Hi]]. rewrite Hs in Hi.
  destruct (Hi Hc) as (name' & Hl & Hst). rewrite decide_True in Hst by done.
  assert (name' = name) as -> by (destruct Hl as (_ & _ & _ & _ & _ & _ & _ & Hp); by destruct (Path_ok _ _ _ Hp) as (_ & -> & _)).
  destruct (transfer_tick ff access_ reserve release now f Ht) as (m & Hg & Hm & _). subst g. rewrite Hg. rewrite Hs in Hm |- *.
  unfold transfer_state. cbn in Hm |- *.
  destruct (Cleanup_keeps (f <| operated_ := false |>)) as [Hcr _].
  destruct (Cleanup_spec (f <| operated_ := false |>) name Hc Hl) as [H1 H2]. split_and!; [done|exact Hcr| |].
  - intros Hd Hok. destruct (H1 Hok Hd) as [Hso Hf]. destruct (Hst Hso) as [(Ho & _ & Hcrc & _ & Hfi) [Hos Hce]].
    exists (written_ f). split; [exact (eq_trans Hf Hfi)|]. rewrite <- Hcrc, <- Ho. done.
  - intros Hn Hor. apply H2; [exact Hn|]. destruct Hor; [by right|by left].
Qed.
End upload.

(** ** A small FatFs *)

Record Disk := mkDisk { disk_files : gmap (list Z) (list Z); disk_handle : option (list Z) }.
Definition disk_fat : FatFs Disk := {|
  f_mount _ _ d := (FR.OK, d);
  f_open n create d :=
    match create, disk_files d !! n with
    | true, None => (FR.OK, mkDisk (<[n := []]> (disk_files d)) (Some n))
    | true, Some _ => (FR.EXIST, d)
    | false, None => (FR.NO_FILE, d)
    | false, Some _ => (FR.DENIED, d)
    end;
  f_size _ := 0; f_lseek _ d := (FR.OK, d); f_read _ d := (FR.INVALID_OBJECT, [], d);
  f_write bytes d :=
    match disk_handle d with
    | Some n => (FR.OK, Z.of_nat (length bytes), mkDisk (alter (fun old => old ++ bytes) n (disk_files d)) (Some n))
    | None => (FR.INVALID_OBJECT, 0, d)
    end;
  f_sync d := (FR.OK, d);
  f_close d := (FR.OK, mkDisk (disk_files d) None);
  f_opendir _ d := (FR.NO_PATH, d); f_readdir d := (FR.INVALID_OBJECT, mkFilInfo [] 0 0, d); f_closedir d := (FR.OK, d);
  f_mkdir _ d := (FR.DENIED, d);
  f_stat n d := match disk_files d !! n with Some old => (FR.OK, mkFilInfo n 0 (Z.of_nat (length old)), d) | None => (FR.NO_FILE, mkFilInfo [] 0 0, d) end;
  f_unlink n d := (FR.OK, mkDisk (delete n (disk_files d)) (disk_handle d))
|}.
Lemma disk_laws : fat_laws disk_fat id (fun d n => disk_files d !! n) disk_handle.
Proof.
  split; cbn.
  - intros n e e'. destruct (_ !! n); intros [= <-]. cbn. by rewrite lookup_insert_eq.
  - intros n bytes old count e e' -> Ho [= <- <-]. cbn. rewrite lookup_alter_eq, Ho. cbn. by rewrite Nat2Z.id, firstn_all.
  - by intros e e' [= <-].
  - by intros n e e' [= <-].
  - intros n e e' [= <-]. cbn. by rewrite lookup_delete_eq.
  - done.
Qed.

Definition request (op len arg0 arg1 : Z) (bytes : list Z) : list Z :=
  le_bytes 4 kMagic ++ le_bytes 4 kVersion ++ le_bytes 4 op ++ le_bytes 4 len ++ le_bytes 4 arg0 ++ le_bytes 4 arg1 ++ bytes.
Lemma request_bytes op len a b bytes : bytes_ok bytes -> bytes_ok (request op len a b bytes).
Proof. intros. unfold request. rewrite !Forall_app. auto 10 using le_bytes_ok. Qed.

Abbreviation dtick := (tick disk_fat true (fun _ d => (FR.OK, d)) id).
Definition mounted_volume : Volume := mkVolume [true] [true] 0 true true false false false true (mkDisk empty None).
(** The client sends the header, then the payload. *)
Definition exchange (bytes : list Z) (f : FileTransfer) : FileTransfer :=
  dtick 1 (dtick 1 (snd (feed (drop 24 bytes) 1 (snd (feed (take 24 bytes) 1 (sent 1 f)))))).
(** The client uploads the two bytes 7 and 9 to the path "a". *)
Definition upload_history : FileTransfer :=
  exchange (request 3 0 0 0 [])
    (exchange (request 2 2 0 0 [7; 9]) (exchange (request 1 1 2 (crc32_calculate [7; 9]) [97]) (new_transfer mounted_volume))).

Abbreviation dreachable := (reachable disk_fat true (fun _ d => (FR.OK, d)) id (fun d n => disk_files d !! n) disk_handle).
Lemma exchange_reachable bytes f : dreachable f -> bytes_ok bytes -> dreachable (exchange bytes f).
Proof. intros Hf Hb. unfold exchange. apply r_tick, r_tick, r_feed, Forall_drop, Hb. by apply r_feed, Forall_take; [apply r_sent|]. Qed.
Lemma upload_reachable : dreachable upload_history.
Proof.
  unfold upload_history. do 3 (apply exchange_reachable; [|apply request_bytes; repeat constructor; unfold is_byte; lia]). apply r_new.
Qed.

Lemma upload_complete_or_removed_witness :
  let g := dtick 1 upload_history in
  status_ g = TransferStatus.ok /\
  exists bytes, disk_files (fs_env (volume_ g)) !! [48; 58; 47; 97] = Some bytes /\ Z.of_nat (length bytes) = 2 /\
    crc32_calculate bytes = crc32_calculate [7; 9].
Proof.
  destruct (upload_complete_or_removed disk_fat true (fun _ d => (FR.OK, d)) id (fun d n => disk_files d !! n) disk_handle disk_laws 1
    upload_history upload_reachable ltac:(vm_compute; reflexivity) ltac:(vm_compute; reflexivity)) as (_ & _ & H & _).
  assert (status_ (dtick 1 upload_history) = TransferStatus.ok) as Hs by (vm_compute; reflexivity).
  split; [exact Hs|]. destruct (H ltac:(vm_compute; reflexivity) Hs) as (bytes & Hf & Hl & Hc). exists bytes.
  assert (drive_name (volume_ upload_history) ++ [47] ++ path_ upload_history = [48; 58; 47; 97]) as Hn by (vm_compute; reflexivity).
  rewrite Hn in Hf. split; [exact Hf|]. split; [rewrite Hl; vm_compute; reflexivity|].
  rewrite Hc. vm_compute. reflexivity.
Defined.
