(* ===== verification/StorageModule.v ===== *)
(** * The file-system module (src/lib/storage/module.hpp)

    Commands over one volume, served one at a time by a worker task, and the
    leases that exclude them.  [busy_] is the flag that commands and leases
    share: it belongs to the environment of the volume, next to what FatFs and
    the device change ([disk]).  The answer of the scheduler to a request to run
    the worker is an argument; [pending_] records whether the worker is
    scheduled, and [log_] what is logged. *)

From Stdlib Require Import String.
From S2P Require Import Prelude Foundation Wire Match StateMachine Volume FileTransfer.

Record StoreEnv (X : Type) := mkStoreEnv { busy_ : bool; disk : X }.
Arguments mkStoreEnv {X}. Arguments busy_ {X}. Arguments disk {X}.
#[export] Instance StoreEnv_eta X : RecordEta (StoreEnv X) := fun e => mkStoreEnv (busy_ e) (disk e).

Module Operation.
Inductive Operation : Set := mount | unmount | list | read | create | remove.
End Operation.
#[global] Instance Operation_eq_dec : EqDecision Operation.Operation.
Proof. solve_decision. Defined.
Module StoreState.
Inductive State : Set :=
  | idle | mount | unmount | open_directory | list | open_file | read | remove | create | write | sync | close | done | failed.
End StoreState.
#[global] Instance StoreState_eq_dec : EqDecision StoreState.State.
Proof. solve_decision. Defined.
#[export] Instance StoreState_enum : StateEnum StoreState.State := {|
  state_index (s : StoreState.State) := match s with
    | StoreState.idle => 0 | StoreState.mount => 1 | StoreState.unmount => 2 | StoreState.open_directory => 3 | StoreState.list => 4
    | StoreState.open_file => 5 | StoreState.read => 6 | StoreState.remove => 7 | StoreState.create => 8 | StoreState.write => 9
    | StoreState.sync => 10 | StoreState.close => 11 | StoreState.done => 12 | StoreState.failed => 13 end%nat;
  state_count := 14%nat
|}.

Definition kDefaultRead : Z := 128.
Definition kMaximumRead : Z := 4096.
Definition kMaximumEntries : Z := 256.
Definition kTextCapacity : nat := 128.

(** What the module logs. *)
Inductive StoreLog :=
  | LogEntry (directory : bool) (size : Z) (name : Name)
  | LogBytes (offset : Z) (hex ascii : Name)
  | LogLimit
  | LogFailed (result : FResult) | LogMounted (rw : bool) | LogUnmounted | LogComplete.

(** FatFs and the device do not know of the flag. *)
Section lift.
Context {X : Type}.
Definition lift1 {A} (f : X -> A * X) (e : StoreEnv X) : A * StoreEnv X := let '(r, x) := f (disk e) in (r, e <| disk := x |>).
Definition lift_fat (ff : FatFs X) : FatFs (StoreEnv X) := {|
  f_mount b n := lift1 (f_mount ff b n); f_open n b := lift1 (f_open ff n b); f_size e := f_size ff (disk e); f_lseek z := lift1 (f_lseek ff z);
  f_read n := lift1 (f_read ff n); f_write bytes := lift1 (f_write ff bytes); f_sync := lift1 (f_sync ff); f_close := lift1 (f_close ff);
  f_opendir n := lift1 (f_opendir ff n); f_readdir := lift1 (f_readdir ff); f_closedir := lift1 (f_closedir ff);
  f_mkdir n := lift1 (f_mkdir ff n); f_stat n := lift1 (f_stat ff n); f_unlink n := lift1 (f_unlink ff n)
|}.
Definition lift_device (d : BlockDevice X) : BlockDevice (StoreEnv X) := {|
  bd_ready := (fun f e => f (disk e)) <$> bd_ready d; bd_sectors := (fun f e => f (disk e)) <$> bd_sectors d;
  bd_read := (fun f a b => lift1 (f a b)) <$> bd_read d;
  bd_acquire := (fun f => lift1 f) <$> bd_acquire d; bd_release := (fun f e => e <| disk := f (disk e) |>) <$> bd_release d;
  bd_write := (fun f a b => lift1 (f a b)) <$> bd_write d; bd_sync := (fun f => lift1 f) <$> bd_sync d
|}.
End lift.

Section storage.
Context {X : Type} (fat_ : FatFs X) (media_ : BlockDevice X).
Abbreviation E := (StoreEnv X).
Abbreviation ff := (lift_fat fat_).
Abbreviation device := (lift_device media_).

Record StorageModule := mkStorageModule {
  text_ : list Z; text_size_ : nat; write_access_ : bool;
  svolume_ : Volume (E:=E); smachine_ : Machine StoreState.State;
  spath_ : Name; operation_ : Operation.Operation; result_ : FResult;
  soffset_ : Z; remaining_ : Z; entries_ : Z; requested_ : bool;
  pending_ : bool; log_ : list StoreLog
}.
#[export] Instance StorageModule_eta : RecordEta StorageModule := fun m =>
  mkStorageModule (text_ m) (text_size_ m) (write_access_ m) (svolume_ m) (smachine_ m) (spath_ m) (operation_ m) (result_ m) (soffset_ m)
    (remaining_ m) (entries_ m) (requested_ m) (pending_ m) (log_ m).
#[export] Instance StorageModule_machine : HasMachine StorageModule StoreState.State := {|
  machine := smachine_; with_machine m s := s <| smachine_ := m |>
|}.
#[export] Instance StorageModule_machine_laws : HasMachineLaws StorageModule StoreState.State.
Proof. split; [done|done|by intros []]. Qed.

Definition new_storage (v : Volume) : StorageModule :=
  mkStorageModule (replicate kTextCapacity 0) 0 false v (initial_machine StoreState.idle) [] Operation.mount FR.OK 0 0 0 false false [].
Definition store_state (m : StorageModule) : StoreState.State := cs (smachine_ m).
Definition sbusy (m : StorageModule) : bool := busy_ (fs_env (svolume_ m)).
Definition set_busy (b : bool) (m : StorageModule) : StorageModule :=
  m <| svolume_ := (svolume_ m) <| fs_env := (fs_env (svolume_ m)) <| busy_ := b |> |> |>.

(** [scheduled] is the scheduler's answer. *)
Definition Submit (scheduled : Status) (operation : Operation.Operation) (path : Name) (m : StorageModule) : Status * StorageModule :=
  if sbusy m then (Status.busy, m)
  else if (Z.of_nat (length path) >? kPathCapacity) || existsb (fun c => c =? 0) path || existsb (fun c => c =? 58) path
  then (Status.invalid_argument, m)
  else
    let m := set_busy true (m <| spath_ := path |> <| operation_ := operation |> <| requested_ := true |>) in
    if scheduled =s? Status.ok then (scheduled, m <| pending_ := true |>)
    else (scheduled, set_busy false (m <| requested_ := false |>)).

Definition init (stage1 : bool) (m : StorageModule) : Status * StorageModule :=
  if stage1 then
    let '(r, v) := attach device (svolume_ m) in
    (if is_ok r then Status.ok else Status.initialization_failed, m <| svolume_ := v |>)
  else (Status.ok, m).

Definition Mount (scheduled : Status) (rw : option bool) (m : StorageModule) : Status * StorageModule :=
  if sbusy m then (Status.busy, m)
  else Submit scheduled Operation.mount [] (m <| write_access_ := default false rw |>).
Definition Create (scheduled : Status) (path text : Name) (m : StorageModule) : Status * StorageModule :=
  if sbusy m then (Status.busy, m)
  else if (kTextCapacity <? length text)%nat then (Status.invalid_argument, m)
  else Submit scheduled Operation.create path (m <| text_ := blit 0 text (text_ m) |> <| text_size_ := length text |>).
Definition Remove (scheduled : Status) (path : Name) : StorageModule -> Status * StorageModule := Submit scheduled Operation.remove path.
Definition Unmount (scheduled : Status) : StorageModule -> Status * StorageModule := Submit scheduled Operation.unmount [].
Definition ListFiles (scheduled : Status) (path : option Name) : StorageModule -> Status * StorageModule :=
  Submit scheduled Operation.list (default [47] path).
Definition ReadFile (scheduled : Status) (path : Name) (offset count : option Z) (m : StorageModule) : Status * StorageModule :=
  if sbusy m then (Status.busy, m)
  else if match count with Some c => (c =? 0) || (c >? kMaximumRead) | None => false end then (Status.invalid_argument, m)
  else Submit scheduled Operation.read path (m <| soffset_ := default 0 offset |> <| remaining_ := default kDefaultRead count |>).

(** ** The leases *)

Definition FileStatus (result : FResult) : Status :=
  match result with
  | FR.OK => Status.ok | FR.LOCKED => Status.busy | FR.NOT_READY => Status.not_running
  | FR.NO_FILE | FR.NO_PATH => Status.not_found
  | FR.INVALID_NAME | FR.INVALID_PARAMETER => Status.invalid_argument
  | FR.TIMEOUT => Status.timeout
  | _ => Status.io_error
  end.
(** The hooks of [read_file], on the volume. *)
Definition set_lease (b : bool) (v : Volume (E:=E)) : Volume := v <| fs_env := (fs_env v) <| busy_ := b |> |>.
Definition rf_reserve (v : Volume (E:=E)) : Status * Volume :=
  if busy_ (fs_env v) then (Status.busy, v)
  else if negb (mounted_ v) then (Status.not_running, v)
  else if negb (read_only v) then (Status.rejected, v)
  else (Status.ok, set_lease true v).
Definition rf_release : Volume -> Volume := set_lease false.
Definition rf_open (path : Name) (v : Volume) : Status * Volume := let '(r, v) := Volume.open ff path 0 v in (FileStatus r, v).
Definition rf_read (n : Z) (v : Volume) : Status * list Z * Volume := let '(r, bytes, v) := Volume.read ff n v in (FileStatus r, bytes, v).
Definition rf_seek (offset : Z) (v : Volume) : Status * Volume := let '(r, v) := Volume.seek ff offset v in (FileStatus r, v).
Definition rf_close (v : Volume) : Status * Volume := let '(r, v) := Volume.close ff v in (FileStatus r, v).
(** The hooks of [file_access]. *)
Definition fa_reserve (write : bool) (v : Volume (E:=E)) : FResult * Volume :=
  if busy_ (fs_env v) then (FR.LOCKED, v)
  else if negb (mounted_ v) then (FR.NOT_READY, v)
  else if write && read_only v then (FR.WRITE_PROTECTED, v)
  else (FR.OK, set_lease true v).
Definition fa_release (e : E) : E := e <| busy_ := false |>.

(** ** The worker *)

Definition log (l : StoreLog) (m : StorageModule) : StorageModule := m <| log_ := log_ m ++ [l] |>.
Definition printable (c : Z) : Z := if (c <? 32) || (c =? 127) then 63 else c.
Definition Entry (entry : FilInfo) : StorageModule -> StorageModule :=
  log (LogEntry (negb (Z.land (fattrib entry) AM_DIR =? 0)) (u32 (fsize entry)) (printable <$> fname entry)).
Definition hex_digit (d : Z) : Z := if d <? 10 then 48 + d else 87 + d.
Definition Bytes (bytes : list Z) (m : StorageModule) : StorageModule :=
  log (LogBytes (soffset_ m) (bytes ≫= fun b => [hex_digit (Z.shiftr b 4); hex_digit (Z.land b 15)])
         ((fun b => if (32 <=? b) && (b <=? 126) then b else 46) <$> bytes)) m.
Definition Limit : StorageModule -> StorageModule := log LogLimit.
Definition Finish (m : StorageModule) : StorageModule :=
  log (if is_ok (result_ m) then
         match operation_ m with Operation.mount => LogMounted (write_access_ m) | Operation.unmount => LogUnmounted | _ => LogComplete end
       else LogFailed (result_ m)) m.

(** A call of the volume whose result decides the next state. *)
Definition then_go (op : Volume -> FResult * Volume) (next_ : StoreState.State) (m : StorageModule) : StoreState.State * StorageModule :=
  let '(r, v) := op (svolume_ m) in
  let m := m <| svolume_ := v |> <| result_ := r |> in
  (if is_ok (result_ m) then next_ else StoreState.failed, m).

Definition start_state (operation : Operation.Operation) : StoreState.State :=
  match operation with
  | Operation.mount => StoreState.mount | Operation.unmount => StoreState.unmount | Operation.list => StoreState.open_directory
  | Operation.remove => StoreState.remove | Operation.create => StoreState.create | Operation.read => StoreState.open_file
  end.
Definition step_list (m : StorageModule) : StoreState.State * StorageModule :=
  let '(r, entry, v) := Volume.next ff (svolume_ m) in
  let m := m <| svolume_ := v |> <| result_ := r |> in
  if negb (is_ok (result_ m)) then (StoreState.failed, m)
  else if (length (fname entry) =? 0)%nat then (StoreState.close, m)
  else
    let m := Entry entry m in
    let m := m <| entries_ := u32 (entries_ m + 1) |> in
    if entries_ m =? kMaximumEntries then (StoreState.close, Limit m) else (StoreState.list, m).
Definition step_read (m : StorageModule) : StoreState.State * StorageModule :=
  let '(r, bytes, v) := Volume.read ff (Z.min 16 (remaining_ m)) (svolume_ m) in
  let count := Z.of_nat (length bytes) in
  let m := m <| svolume_ := v |> <| result_ := r |> in
  if negb (is_ok (result_ m)) then (StoreState.failed, m)
  else
    let m := if count =? 0 then m else Bytes bytes m in
    let m := m <| soffset_ := u32 (soffset_ m + count) |> <| remaining_ := u32 (remaining_ m - count) |> in
    (if (count =? 0) || (remaining_ m =? 0) then StoreState.close else StoreState.read, m).
Definition step_write (m : StorageModule) : StoreState.State * StorageModule :=
  let '(r, count, v) := Volume.write ff (take (text_size_ m) (text_ m)) (svolume_ m) in
  let m := m <| svolume_ := v |> <| result_ := r |> in
  let m := if is_ok (result_ m) && negb (count =? Z.of_nat (text_size_ m)) then m <| result_ := FR.DENIED |> else m in
  (if is_ok (result_ m) then StoreState.sync else StoreState.failed, m).

Definition Step (cs : StoreState.State) (m : StorageModule) : StoreState.State * StorageModule :=
  match cs with
  | StoreState.idle | StoreState.done | StoreState.failed =>
      if requested_ m then (start_state (operation_ m), m <| requested_ := false |> <| entries_ := 0 |>) else (cs, m)
  | StoreState.mount => then_go (Volume.mount ff device (write_access_ m)) StoreState.done m
  | StoreState.unmount => then_go (Volume.unmount ff device) StoreState.done m
  | StoreState.open_directory => then_go (Volume.open_directory ff (spath_ m)) StoreState.list m
  | StoreState.list => step_list m
  | StoreState.open_file => then_go (Volume.open ff (spath_ m) (soffset_ m)) StoreState.read m
  | StoreState.read => step_read m
  | StoreState.remove => then_go (Volume.remove ff (spath_ m)) StoreState.done m
  | StoreState.create => then_go (Volume.create ff (spath_ m)) StoreState.write m
  | StoreState.write => step_write m
  | StoreState.sync => then_go (Volume.sync ff) StoreState.close m
  | StoreState.close => then_go (Volume.close ff) StoreState.done m
  end.
Definition OnEnter (s : StoreState.State) (m : StorageModule) : StorageModule :=
  match s with
  | StoreState.done => set_busy false (Finish m)
  | StoreState.failed => set_busy false (Finish (m <| svolume_ := snd (Volume.close ff (svolume_ m)) |>))
  | _ => m
  end.
Definition tick (m : StorageModule) : StorageModule := snd (StateMachine.tick (step_and_entry Step OnEnter) m).

Definition Poll (scheduled : Status) (m : StorageModule) : StorageModule :=
  let m := tick (m <| pending_ := false |>) in
  if sbusy m then
    if scheduled =s? Status.ok then m <| pending_ := true |>
    else set_busy false (m <| svolume_ := snd (Volume.close ff (svolume_ m)) |> <| requested_ := false |>)
  else m.
End storage.
