(* ===== verification/StorageLease.v ===== *)
(** * Sharing the file system (src/lib/storage/module.hpp, transfer.cpp)

    The module, a file transfer and a file reader share one volume through the
    flag [busy_].  Every history of the three keeps them apart, and the transfer
    then finds the environment that Upload.v assumes. *)

From Stdlib Require Import String.
From S2P Require Import Prelude Foundation Wire Match StateMachine Volume FileTransfer Upload StorageModule.

Section lease.
Context {X : Type} (fat_ : FatFs X) (media_ : BlockDevice X).
Abbreviation E := (StoreEnv X).
Abbreviation ff := (lift_fat fat_).
Abbreviation device := (lift_device media_).
Abbreviation flag v := (busy_ (fs_env v)).
Implicit Types v : Volume (E:=E).
Implicit Types m : StorageModule (X:=X).

(** ** The volume does not touch the flag *)

Lemma lift1_flag {A} (f : X -> A * X) e : busy_ (snd (lift1 f e)) = busy_ e.
Proof. unfold lift1. by destruct (f (disk e)). Qed.
Lemma fat_flag (f : E -> FResult * E) v : (forall e, busy_ (snd (f e)) = busy_ e) -> flag (snd (fat f v)) = flag v.
Proof. intros Hf. unfold fat. pose proof (Hf (fs_env v)) as H. by destruct (f (fs_env v)). Qed.
Lemma Close_flag v : flag (snd (Close ff v)) = flag v.
Proof.
  unfold Close. destruct (file_open_ v).
  - pose proof (fat_flag (f_close ff) v (lift1_flag _)) as H. destruct (fat (f_close ff) v) as [r u]. cbn [snd] in H. cbv beta iota zeta.
    match goal with |- context [if ?b then _ else _] => destruct b; [|exact H] end.
    match goal with |- context [fat (f_closedir ff) ?q] => pose proof (fat_flag (f_closedir ff) q (lift1_flag _)) as H2; destruct (fat (f_closedir ff) q) as [r2 w] end.
    exact (eq_trans H2 H).
  - destruct (directory_open_ v); [|done].
    pose proof (fat_flag (f_closedir ff) v (lift1_flag _)) as H2. destruct (fat (f_closedir ff) _) as [r2 w]. exact H2.
Qed.
Lemma close_flag v : flag (snd (close ff v)) = flag v.
Proof. unfold close. destruct (vbusy_ v); [done|]. apply Close_flag. Qed.
Lemma create_flag path v : flag (snd (create ff path v)) = flag v.
Proof.
  unfold create. destruct (_ || _); [done|]. destruct (negb _); [done|]. destruct (negb _); [done|]. destruct (Path path v) as [r n]. destruct (negb _); [done|].
  pose proof (fat_flag (f_open ff n true) v (lift1_flag _)) as H. destruct (fat (f_open ff n true) v) as [r2 w]. exact H.
Qed.
Lemma open_directory_flag path v : flag (snd (open_directory ff path v)) = flag v.
Proof.
  unfold open_directory. destruct (_ || _); [done|]. destruct (Path path v) as [r n]. destruct (negb _); [done|].
  pose proof (fat_flag (f_opendir ff n) v (lift1_flag _)) as H. destruct (fat (f_opendir ff n) v) as [r2 w]. exact H.
Qed.
Lemma open_flag path offset v : flag (snd (open ff path offset v)) = flag v.
Proof.
  unfold open. destruct (_ || _); [done|]. destruct (Path path v) as [r n]. destruct (negb _); [done|].
  pose proof (fat_flag (f_open ff n false) v (lift1_flag _)) as H. destruct (fat (f_open ff n false) v) as [r2 w]. cbn in H. destruct (negb _); [done|]. cbn zeta.
  set (u := w <| file_open_ := true |>). assert (flag u = flag v) as Hu by exact H. clearbody u. clear H w. destruct (_ >? _).
  - pose proof (Close_flag u) as Hc. destruct (Close ff u). cbn in *. by rewrite Hc.
  - pose proof (fat_flag (f_lseek ff offset) u (lift1_flag _)) as H. destruct (fat (f_lseek ff offset) u) as [r3 w]. cbn in H. destruct (negb _); [|by cbn; rewrite H].
    pose proof (Close_flag w) as Hc. destruct (Close ff w). cbn in *. by rewrite Hc, H.
Qed.
Lemma Mutate_flag path dir cr v : flag (snd (Mutate ff path dir cr v)) = flag v.
Proof.
  unfold Mutate. destruct (_ || _); [done|]. destruct (negb _); [done|]. destruct (negb _); [done|]. destruct (Path path v) as [r n]. destruct (negb _); [done|].
  destruct cr; [apply fat_flag; intros; apply lift1_flag|]. pose proof (lift1_flag (f_stat fat_ n) (fs_env v)) as H. cbn [f_stat lift_fat].
  destruct (lift1 (f_stat fat_ n) (fs_env v)) as [[r2 entry] e]. cbn in H. destruct (negb _); [exact H|]. destruct (negb _); [exact H|].
  etransitivity; [apply fat_flag; intros; apply lift1_flag|exact H].
Qed.
Lemma write_flag bytes v : flag (snd (Volume.write ff bytes v)) = flag v.
Proof.
  unfold Volume.write. repeat (match goal with |- context [if ?b then _ else _] => destruct b; [done|] end).
  pose proof (lift1_flag (f_write fat_ bytes) (fs_env v)) as H. cbn [f_write lift_fat]. by destruct (lift1 _ _) as [[r n] e].
Qed.
Lemma read_flag n v : flag (snd (Volume.read ff n v)) = flag v.
Proof.
  unfold Volume.read. repeat (match goal with |- context [if ?b then _ else _] => destruct b; [done|] end).
  pose proof (lift1_flag (f_read fat_ n) (fs_env v)) as H. cbn [f_read lift_fat]. by destruct (lift1 _ _) as [[r bs] e].
Qed.
Lemma next_flag v : flag (snd (Volume.next ff v)) = flag v.
Proof.
  unfold Volume.next. destruct (vbusy_ v); [done|]. destruct (directory_open_ v); [|done].
  pose proof (lift1_flag (f_readdir fat_) (fs_env v)) as H. cbn [f_readdir lift_fat]. by destruct (lift1 _ _) as [[r bs] e].
Qed.
Lemma sync_flag v : flag (snd (Volume.sync ff v)) = flag v.
Proof. unfold Volume.sync. destruct (vbusy_ v); [done|]. destruct (file_open_ v); [|done]. apply fat_flag. intros. apply lift1_flag. Qed.

(** ** The transfer takes and returns the lease *)

Abbreviation transfer := (FileTransfer (E:=E)).
Abbreviation tflag f := (flag (volume_ f)).
Definition lease_step (f f' : transfer) : Prop :=
  leased_ f' = leased_ f /\ tflag f' = tflag f \/
  leased_ f = false /\ tflag f = false /\ leased_ f' = true /\ tflag f' = true \/
  leased_ f = true /\ leased_ f' = false /\ tflag f' = false.
Lemma lease_same (f f' : transfer) : leased_ f' = leased_ f -> tflag f' = tflag f -> lease_step f f'.
Proof. intros. by left. Qed.
Lemma fa_reserve_cases w v r v' : fa_reserve w v = (r, v') -> r <> FR.OK /\ v' = v \/ r = FR.OK /\ flag v = false /\ v' = set_lease true v.
Proof.
  unfold fa_reserve. destruct (flag v); [intros [= <- <-]; by left|]. destruct (negb _); [intros [= <- <-]; by left|].
  destruct (_ && _); intros [= <- <-]; [by left|by right].
Qed.
Lemma Begin_lease op a b (f : transfer) : lease_step f (snd (Begin ff fa_reserve op a b f)).
Proof.
  unfold Begin, fail, vol. destruct (leased_ f) eqn:El; [by apply lease_same|].
  match goal with |- context [if ?c then (false, _) else _] => destruct c; [by apply lease_same|] end. cbn [uploading_ volume_ field_update].
  destruct (fa_reserve _ (volume_ f)) as [r v] eqn:Er. cbn [status_ leased_ path_ uploading_ listing_ volume_ field_update].
  apply fa_reserve_cases in Er as [[Hr ->]|(-> & Hf & ->)].
  - assert (ts_ok (Map r) = false) as -> by (apply bool_decide_eq_false; intros E%Map_ok; done). by apply lease_same.
  - assert (ts_ok (Map FR.OK) = true) as -> by done. cbn [negb]. right; left. split; [done|]. split; [done|].
    set (v := set_lease true (volume_ f)). assert (flag v = true) as Hv by done. clearbody v.
    destruct (is_mutation op).
    + match goal with |- context [let '(_, _) := ?q in _] => assert (flag (snd q) = true) as Hq; [|destruct q as [r1 v1]; by split] end.
      destruct op; rewrite <- Hv; apply Mutate_flag.
    + generalize (bool_decide (op = Op.upload)) (bool_decide (op = Op.list)). intros up li.
      match goal with |- context [let '(_, _) := ?q in _] => assert (flag (snd q) = true) as Hq; [|destruct q as [r1 v1]] end.
      { destruct up; [rewrite <- Hv; apply create_flag|]. destruct li; rewrite <- Hv; [apply open_directory_flag|apply open_flag]. }
      cbn [status_ field_update]. cbn [snd] in Hq. destruct (ts_ok (Map r1)); cbn [negb snd]; [|split; [reflexivity|exact Hq]].
      destruct up; (split; [reflexivity|exact Hq]).
Qed.
Lemma Execute_lease (f : transfer) : lease_step f (snd (Execute ff fa_reserve f)).
Proof.
  unfold Execute. cbv zeta. match goal with |- context [Begin _ _ _ _ _ ?q] => set (g := q) end.
  assert (leased_ g = leased_ f /\ tflag g = tflag f) as [Hl Hf] by done.
  enough (forall x : transfer, lease_step g x -> lease_step f x) as Hg; [apply Hg; clear Hg|intros x; unfold lease_step; by rewrite Hl, Hf].
  clearbody g. destruct (is_begin _); [apply Begin_lease|]. unfold fail.
  destruct (_ || _); [by apply lease_same|]. destruct (_ && (Z.of_nat _ <=? _)).
  { unfold Write. pose proof (write_flag (payload g) (volume_ g)) as H. destruct (Volume.write _ _ _) as [[r n] v]. cbn in H |- *.
    destruct (ts_ok (Map r)) eqn:Et; [destruct (n =? _)|]; cbn; rewrite ?Et; cbn; by apply lease_same. }
  destruct (_ || _); [by apply lease_same|]. destruct (_ && (offset_ g =? size_ g)).
  { unfold FileTransfer.Finish, fail, vol. destruct (negb _); [by apply lease_same|]. pose proof (sync_flag (volume_ g)) as H. destruct (Volume.sync _ _) as [r v]. by apply lease_same. }
  destruct (_ && listing_ g).
  { unfold Next, fail. pose proof (next_flag (volume_ g)) as H. destruct (Volume.next _ _) as [[r entry] v]. cbn in H |- *.
    destruct (_ || _); [by apply lease_same|]. match goal with |- context [if ?b then _ else _] => destruct b end; by apply lease_same. }
  destruct (_ && negb (listing_ g)); [|by apply lease_same]. unfold Read.
  generalize (Nat.min kChunkBytes (Z.to_nat (u32 (size_ g - offset_ g)))). intros n.
  assert (flag (snd (if (n =? 0)%nat then (FR.OK, [], volume_ g) else Volume.read ff (Z.of_nat n) (volume_ g))) = tflag g) as H
    by (destruct (n =? 0)%nat; [done|apply read_flag]).
  destruct (if (n =? 0)%nat then _ else _) as [[r bytes] v]. cbn [snd] in H. cbn [status_ reply_ crc_ offset_ field_update].
  destruct (ts_ok (Map r)) eqn:Er; [destruct (length bytes =? n)%nat|]; cbn [andb negb status_ reply_ crc_ offset_ field_update];
    rewrite ?Er; cbn [negb]; [destruct (n =? 0)%nat|..]; by apply lease_same.
Qed.
Lemma CleanupClose_lease (f : transfer) : leased_ (snd (CleanupClose ff f)) = leased_ f /\ tflag (snd (CleanupClose ff f)) = tflag f.
Proof. unfold CleanupClose. destruct (opened_ f); [|done]. pose proof (close_flag (volume_ f)) as H. by destruct (Volume.close ff _). Qed.
Lemma CleanupRemove_lease b (f : transfer) : leased_ (snd (CleanupRemove ff b f)) = leased_ f /\ tflag (snd (CleanupRemove ff b f)) = tflag f.
Proof. unfold CleanupRemove. destruct (_ && _); [|done]. pose proof (Mutate_flag (path_ f) false false (volume_ f)) as H. unfold Volume.remove. by destruct (Mutate _ _ _ _ _). Qed.
Lemma CleanupEnd_lease b (f : transfer) : lease_step f (CleanupEnd fa_release b f).
Proof.
  unfold CleanupEnd. cbn [created_ leased_ volume_ field_update]. destruct (leased_ f) eqn:El.
  - right; right. split; [done|]. destruct b; cbn [status_ field_update]; destruct (negb _); cbn [disconnected_ field_update]; destruct (disconnected_ f); by split.
  - left. destruct b; cbn [status_ field_update]; destruct (negb _); cbn [disconnected_ field_update]; destruct (disconnected_ f); cbn; by rewrite El.
Qed.
Lemma Cleanup_lease (f : transfer) : lease_step f (Cleanup ff fa_release f).
Proof.
  unfold Cleanup. match goal with |- context [CleanupClose ff ?q] => set (g := q) end. assert (leased_ g = leased_ f /\ tflag g = tflag f) as [H1 H2] by done.
  clearbody g. destruct (CleanupClose_lease g) as [H3 H4]. destruct (CleanupClose ff g) as [b g2]. cbn [snd] in *.
  destruct (CleanupRemove_lease b g2) as [H5 H6]. destruct (CleanupRemove ff b g2) as [b3 g3]. cbn [snd] in *.
  pose proof (CleanupEnd_lease b3 g3) as H. unfold lease_step in *. by rewrite H5, H6, H3, H4, H1, H2 in H.
Qed.
Abbreviation ttick := (FileTransfer.tick ff true fa_reserve fa_release).
Lemma tick_lease now (f : transfer) : ticking_ (tmachine_ f) = false -> lease_step f (ttick now f).
Proof.
  intros Ht. destruct (transfer_tick ff true fa_reserve fa_release now f Ht) as (m & -> & _ & _).
  enough (lease_step f (snd (FileTransfer.Step ff true fa_reserve fa_release now (transfer_state f) f))) as H by exact H.
  unfold FileTransfer.Step. destruct (transfer_state f).
  - match goal with |- context [if ?b then _ else _] => destruct b; [by apply lease_same|] end. destruct (_ && _); by apply lease_same.
  - destruct (_ || _); [by apply lease_same|]. match goal with |- context [Execute ff fa_reserve ?q] => pose proof (Execute_lease q) as H; destruct (Execute ff fa_reserve q) as [[] g] end; exact H.
  - match goal with |- context [Cleanup ff fa_release ?q] => exact (Cleanup_lease q) end.
Qed.

(** ** The module with a transfer and a reader *)

Inductive Command :=
  | CMount (rw : option bool) | CCreate (path text : Name) | CRemove (path : Name) | CUnmount
  | CList (path : option Name) | CRead (path : Name) (offset count : option Z).
Definition run_command (scheduled : Status) (c : Command) : StorageModule (X:=X) -> Status * StorageModule :=
  match c with
  | CMount rw => Mount scheduled rw | CCreate path text => Create scheduled path text | CRemove path => Remove scheduled path
  | CUnmount => Unmount scheduled | CList path => ListFiles scheduled path | CRead path offset count => ReadFile scheduled path offset count
  end.
Inductive ReaderCall := ROpen (path : Name) | RRead (n : Z) | RSeek (offset : Z) | RClose.
Definition run_reader (c : ReaderCall) (v : Volume (E:=E)) : Volume :=
  match c with
  | ROpen path => snd (rf_open fat_ path v) | RRead n => snd (rf_read fat_ n v) | RSeek offset => snd (rf_seek fat_ offset v) | RClose => snd (rf_close fat_ v)
  end.

(** The transfer works on the module's volume; [reading] tells that a reader
    holds the lease of [read_file]. *)
Record System := mkSystem { smodule : StorageModule (X:=X); stransfer : transfer; reading : bool }.
Definition share (v : Volume) (s : System) : System :=
  mkSystem ((smodule s) <| svolume_ := v |>) ((stransfer s) <| volume_ := v |>) (reading s).
Definition with_transfer (f : transfer) (s : System) : System := mkSystem ((smodule s) <| svolume_ := volume_ f |>) f (reading s).
Definition with_module (m : StorageModule) (s : System) : System := mkSystem m ((stransfer s) <| volume_ := svolume_ m |>) (reading s).

Inductive system : System -> Prop :=
  | s_new v : busy_ (fs_env v) = false -> system (mkSystem (new_storage v) (new_transfer v) false)
  | s_init stage1 s : system s -> sbusy (smodule s) = false -> system (with_module (snd (init media_ stage1 (smodule s))) s)
  | s_command scheduled c s : system s -> system (with_module (snd (run_command scheduled c (smodule s))) s)
  | s_poll scheduled s : system s -> pending_ (smodule s) = true -> system (with_module (Poll fat_ media_ scheduled (smodule s)) s)
  | s_feed bytes now s : system s -> bytes_ok bytes -> system (with_transfer (snd (feed bytes now (stransfer s))) s)
  | s_tick now s : system s -> system (with_transfer (ttick now (stransfer s)) s)
  | s_completed now s : system s -> system (with_transfer (completed_at now (stransfer s)) s)
  | s_sent now s : system s -> system (with_transfer (sent now (stransfer s)) s)
  | s_disconnect s : system s -> system (with_transfer (disconnect (stransfer s)) s)
  | s_reserve s : system s -> system (mkSystem (smodule (share (snd (rf_reserve (svolume_ (smodule s)))) s))
      (stransfer (share (snd (rf_reserve (svolume_ (smodule s)))) s)) (reading s || (fst (rf_reserve (svolume_ (smodule s))) =s? Status.ok)))
  | s_reader c s : system s -> reading s = true -> system (share (run_reader c (svolume_ (smodule s))) s)
  | s_release s : system s -> reading s = true ->
      system (mkSystem (smodule (share (rf_release (svolume_ (smodule s))) s)) (stransfer (share (rf_release (svolume_ (smodule s))) s)) false).

(** ** They exclude each other *)

Lemma command_busy scheduled c m : sbusy m = true -> run_command scheduled c m = (Status.busy, m).
Proof.
  intros Hb. destruct c; cbn [run_command]; unfold Mount, Create, Remove, Unmount, ListFiles, ReadFile, Submit; by rewrite Hb.
Qed.
Lemma Submit_flag scheduled op path m : sbusy m = false -> pending_ m = false ->
  sbusy (snd (Submit scheduled op path m)) = pending_ (snd (Submit scheduled op path m)).
Proof.
  intros Hb Hp. unfold Submit. rewrite Hb. match goal with |- context [if ?b then _ else _] => destruct b; [cbn; by rewrite Hb, Hp|] end. cbv zeta.
  destruct (scheduled =s? Status.ok); [done|]. cbn. by rewrite Hp.
Qed.
Lemma command_flag scheduled c m : sbusy m = false -> pending_ m = false ->
  sbusy (snd (run_command scheduled c m)) = pending_ (snd (run_command scheduled c m)).
Proof.
  intros Hb Hp. destruct c; cbn [run_command]; unfold Mount, Create, Remove, Unmount, ListFiles, ReadFile; rewrite ?Hb; try (by apply Submit_flag).
  - destruct (_ <? _)%nat; [cbn; by rewrite Hb, Hp|by apply Submit_flag].
  - match goal with |- context [if ?b then _ else _] => destruct b; [cbn; by rewrite Hb, Hp|by apply Submit_flag] end.
Qed.
Lemma Step_pending s m : pending_ (snd (StorageModule.Step fat_ media_ s m)) = pending_ m.
Proof.
  destruct s; cbn [StorageModule.Step]; unfold then_go, step_list, step_read, step_write;
    repeat (match goal with |- context [let '(_, _) := ?q in _] => destruct q | |- context [if ?b then _ else _] => destruct b end; cbn [snd]); done.
Qed.
Lemma tick_pending m : pending_ (StorageModule.tick fat_ media_ m) = pending_ m.
Proof.
  unfold StorageModule.tick. apply (tick_preserves (step_and_entry _ _) (fun q => pending_ q = pending_ m)); try done.
  - intros s w Hw. cbn. by destruct s.
  - intros s w Hw. change (pending_ (snd (StorageModule.Step fat_ media_ s w)) = pending_ m). by rewrite Step_pending.
Qed.
Lemma Poll_flag scheduled m : sbusy (Poll fat_ media_ scheduled m) = pending_ (Poll fat_ media_ scheduled m).
Proof.
  unfold Poll. cbv zeta. match goal with |- context [StorageModule.tick fat_ media_ ?q] => pose proof (tick_pending q) as Hp; set (m1 := StorageModule.tick fat_ media_ q) in * end.
  change (pending_ m1 = false) in Hp. clearbody m1. destruct (sbusy m1) eqn:Eb; [|by rewrite Eb, Hp]. destruct (scheduled =s? Status.ok); [exact Eb|]. cbn. by rewrite Hp.
Qed.
Lemma seek_flag offset v : flag (snd (Volume.seek ff offset v)) = flag v.
Proof.
  unfold Volume.seek. repeat (match goal with |- context [if ?b then _ else _] => destruct b; [done|] end). apply fat_flag. intros. apply lift1_flag.
Qed.
Lemma reader_flag c v : flag (run_reader c v) = flag v.
Proof.
  destruct c; cbn [run_reader]; unfold rf_open, rf_read, rf_seek, rf_close.
  - pose proof (open_flag path 0 v) as H. by destruct (Volume.open _ _ _ _).
  - pose proof (read_flag n v) as H. by destruct (Volume.read _ _ _) as [[? ?] ?].
  - pose proof (seek_flag offset v) as H. by destruct (Volume.seek _ _ _).
  - pose proof (close_flag v) as H. by destruct (Volume.close _ _).
Qed.
Lemma rf_reserve_cases v : (fst (rf_reserve v) =s? Status.ok) = false /\ snd (rf_reserve v) = v \/
  fst (rf_reserve v) = Status.ok /\ flag v = false /\ snd (rf_reserve v) = set_lease true v.
Proof. unfold rf_reserve. destruct (flag v); [by left|]. destruct (negb _); [by left|]. destruct (negb _); [by left|by right]. Qed.

Context (files : E -> Name -> option (list Z)) (handle : E -> option Name).
Abbreviation treach := (reachable ff true fa_reserve fa_release files handle).
Record system_inv (s : System) : Prop := {
  si_shared : volume_ (stransfer s) = svolume_ (smodule s);
  si_flag : sbusy (smodule s) = leased_ (stransfer s) || reading s || pending_ (smodule s);
  si_one : leased_ (stransfer s) && reading s = false /\ leased_ (stransfer s) && pending_ (smodule s) = false /\ reading s && pending_ (smodule s) = false;
  si_ticking : ticking_ (tmachine_ (stransfer s)) = false;
  si_reach : treach (stransfer s)
}.
Lemma others_reach v f : treach f -> leased_ f = false -> treach (f <| volume_ := v |>).
Proof. intros Hf Hl. apply r_others; [done|]. by rewrite Hl. Qed.

(** A step of the module or of the reader while the transfer has no lease. *)
Lemma free_step s m rd : system_inv s -> leased_ (stransfer s) = false -> sbusy m = rd || pending_ m -> rd && pending_ m = false ->
  system_inv (mkSystem m ((stransfer s) <| volume_ := svolume_ m |>) rd).
Proof. intros [H1 H2 H3 H4 H5] Hl Hf Ho. split; cbn; rewrite ?Hl; try done. by apply others_reach. Qed.
(** A step of the transfer that keeps the lease as it is. *)
Lemma transfer_step s f : system_inv s -> lease_step (stransfer s) f -> ticking_ (tmachine_ f) = false -> treach f -> system_inv (with_transfer f s).
Proof.
  intros [H1 H2 (O1 & O2 & O3) H4 H5] Hl Ht Hr. assert (tflag (stransfer s) = sbusy (smodule s)) as Hfl by (unfold sbusy; by rewrite H1).
  split; cbn; try done; destruct Hl as [[L1 L2]|[(L1 & L2 & L3 & L4)|(L1 & L2 & L3)]].
  - change (tflag f = leased_ f || reading s || pending_ (smodule s)). by rewrite L2, L1, Hfl.
  - change (tflag f = leased_ f || reading s || pending_ (smodule s)). by rewrite L3, L4.
  - change (tflag f = leased_ f || reading s || pending_ (smodule s)). rewrite L1 in O1, O2. cbn in O1, O2. by rewrite L2, L3, O1, O2.
  - by rewrite L1.
  - rewrite Hfl, H2 in L2. rewrite !orb_false_iff in L2. destruct L2 as [[_ R] P]. by rewrite R, P, !andb_false_r.
  - by rewrite L2.
Qed.
Lemma free_flag s : system_inv s -> sbusy (smodule s) = false -> leased_ (stransfer s) = false /\ reading s = false /\ pending_ (smodule s) = false.
Proof. intros Hi Hb. rewrite (si_flag _ Hi) in Hb. rewrite !orb_false_iff in Hb. tauto. Qed.
Lemma reading_alone s : system_inv s -> reading s = true -> leased_ (stransfer s) = false /\ pending_ (smodule s) = false /\ sbusy (smodule s) = true.
Proof.
  intros Hi Hr. destruct (si_one _ Hi) as (O1 & _ & O3). rewrite Hr, andb_true_r in O1. rewrite Hr in O3. cbn in O3. split; [done|]. split; [done|].
  rewrite (si_flag _ Hi), Hr. by rewrite O1.
Qed.
Lemma share_self s : system_inv s -> system_inv (share (svolume_ (smodule s)) s).
Proof.
  intros [H1 H2 H3 H4 H5]. split; try done. cbn. apply r_others; [done|]. intros _. unfold leaves. rewrite H1. by split_and!.
Qed.
Lemma share_step s v rd : system_inv s -> leased_ (stransfer s) = false -> flag v = rd -> pending_ (smodule s) = false ->
  system_inv (mkSystem ((smodule s) <| svolume_ := v |>) ((stransfer s) <| volume_ := v |>) rd).
Proof.
  intros Hi Hl Hf Hp. assert (H := free_step s ((smodule s) <| svolume_ := v |>) rd Hi Hl). cbn in H. rewrite Hp, orb_false_r, andb_false_r in H. by apply H.
Qed.
Lemma init_free stage1 m : sbusy (snd (init media_ stage1 m)) = sbusy m /\ pending_ (snd (init media_ stage1 m)) = pending_ m.
Proof.
  unfold init. destruct stage1; [|done]. assert (flag (snd (attach device (svolume_ m))) = sbusy m) as Ha.
  { unfold attach. destruct (_ || _); [done|]. repeat (case_match; try done). }
  by destruct (attach device (svolume_ m)) as [r v].
Qed.
Lemma system_holds s : system s -> system_inv s.
Proof.
  induction 1 as [v Hv|stage1 s _ IH Hb|scheduled c s _ IH|scheduled s _ IH Hp|bytes now s _ IH Hby|now s _ IH|now s _ IH|now s _ IH|s _ IH|s _ IH|c s _ IH Hrd|s _ IH Hrd].
  - split; try done; apply r_new.
  - destruct (free_flag s IH Hb) as (Hl & Hr & Hp). destruct (init_free stage1 (smodule s)) as [A B].
    unfold with_module. rewrite Hr. apply free_step; [done|done|by rewrite A, B, Hb, Hp|done].
  - destruct (sbusy (smodule s)) eqn:Eb.
    + rewrite (command_busy scheduled c _ Eb). cbn [snd]. pose proof (share_self s IH) as H. destruct IH as [H1 H2 H3 H4 H5]. split; try done. apply H.
    + destruct (free_flag s IH Eb) as (Hl & Hr & Hp). unfold with_module. rewrite Hr. apply free_step; [done|done|by apply command_flag|done].
  - destruct (si_one _ IH) as (_ & O2 & O3). rewrite Hp, andb_true_r in O2, O3. unfold with_module. rewrite O3. apply free_step; [done|done|apply Poll_flag|done].
  - apply transfer_step; [done| |by rewrite feed_machine; apply IH|by apply r_feed; [apply IH|]]. apply lease_same; unfold feed; destruct (_ || _); try done; cbn [snd];
      repeat (match goal with |- context [if ?b then _ else _] => destruct b end; cbn [negb request_ malformed_ field_update FileTransfer_eta]); done.
  - pose proof (si_ticking _ IH) as Ht. apply transfer_step; [done|by apply tick_lease| |by apply r_tick, IH].
    destruct (transfer_tick ff true fa_reserve fa_release now (stransfer s) Ht) as (m & -> & _ & Hn). exact Hn.
  - apply transfer_step; [done| | |by apply r_completed, IH]; unfold completed_at; destruct (operated_ _); try (by apply lease_same); apply IH.
  - apply transfer_step; [done|by apply lease_same|apply IH|by apply r_sent, IH].
  - apply transfer_step; [done|by apply lease_same|apply IH|by apply r_disconnect, IH].
  - destruct (rf_reserve_cases (svolume_ (smodule s))) as [[-> ->]|(-> & Hf & ->)].
    + rewrite orb_false_r. pose proof (share_self s IH) as H. by destruct s.
    + destruct (free_flag s IH Hf) as (Hl & Hr & Hp). cbn [smodule stransfer share]. rewrite Hr. change (false || (Status.ok =s? Status.ok)) with true.
      apply (share_step s _ true); [done|done|done|]. cbn. by rewrite Hp.
  - destruct (reading_alone s IH Hrd) as (Hl & Hp & Hb). unfold share. rewrite Hrd.
    apply (share_step s _ true); [done|done|rewrite reader_flag; exact Hb|]. by rewrite Hp.
  - destruct (reading_alone s IH Hrd) as (Hl & Hp & Hb). cbn [smodule stransfer share].
    apply (share_step s _ false); try done.
Qed.

(** C21: The module's commands, a file transfer and a file reader share one
    volume, whatever they do and in whatever order: the flag tells exactly that
    one of them is at work, never two; while it is set every command is refused as
    busy and changes nothing; and the transfer behaves as one that has the volume
    to itself while it holds its lease, so that what Upload.v shows of uploads
    holds for it. *)
Theorem storage_lease_exclusive s : system s ->
  sbusy (smodule s) = leased_ (stransfer s) || reading s || pending_ (smodule s) /\
  leased_ (stransfer s) && reading s = false /\ leased_ (stransfer s) && pending_ (smodule s) = false /\ reading s && pending_ (smodule s) = false /\
  (sbusy (smodule s) = true -> forall scheduled c, run_command scheduled c (smodule s) = (Status.busy, smodule s)) /\
  volume_ (stransfer s) = svolume_ (smodule s) /\ treach (stransfer s).
Proof.
  intros [H1 H2 (O1 & O2 & O3) H4 H5]%system_holds. split_and!; try done. intros Hb scheduled c. by apply command_busy.
Qed.
End lease.

(** ** A transfer at work *)

Definition store_media : BlockDevice Disk := {|
  bd_ready := Some (fun _ => true); bd_sectors := Some (fun _ => 100); bd_read := Some (fun _ _ d => (Status.ok, d));
  bd_acquire := Some (fun d => (Status.ok, d)); bd_release := Some (fun d => d);
  bd_write := Some (fun _ _ d => (Status.ok, d)); bd_sync := Some (fun d => (Status.ok, d))
|}.
Definition store_volume : Volume := mkVolume [true] [true] 0 true true false false false true (mkStoreEnv false (mkDisk gmap.gmap_empty None)).
Abbreviation store_tick now s := (with_transfer (FileTransfer.tick (lift_fat disk_fat) true fa_reserve fa_release now (stransfer s)) s).
Definition store_feed (bytes : list Z) (s : System (X:=Disk)) : System (X:=Disk) := with_transfer (snd (feed bytes 1 (stransfer s))) s.
(** An upload has begun. *)
Definition store_uploading : System (X:=Disk) :=
  let bytes := request 1 1 2 0 [97] in
  store_tick 1 (store_tick 1 (store_feed (drop 24 bytes) (store_feed (take 24 bytes) (mkSystem (new_storage store_volume) (new_transfer store_volume) false)))).
Lemma store_uploading_system : system disk_fat store_media store_uploading.
Proof.
  assert (bytes_ok (request 1 1 2 0 [97])) as Hb by (apply request_bytes; repeat constructor; unfold is_byte; lia).
  unfold store_uploading, store_feed. cbv zeta. apply s_tick, s_tick, s_feed; [|by apply Forall_drop]. apply s_feed; [|by apply Forall_take]. by apply s_new.
Qed.
Lemma storage_lease_exclusive_witness :
  leased_ (stransfer store_uploading) = true /\ pending_ (smodule store_uploading) = false /\
  run_command Status.ok (CRemove [97]) (smodule store_uploading) = (Status.busy, smodule store_uploading).
Proof.
  destruct (storage_lease_exclusive disk_fat store_media (fun e n => gmap.gmap_lookup n (disk_files (disk e))) (fun e => disk_handle (disk e))
    store_uploading store_uploading_system) as (_ & _ & Hp & _ & Hc & _).
  assert (leased_ (stransfer store_uploading) = true) as Hl by (vm_compute; reflexivity). rewrite Hl in Hp. cbn [andb] in Hp.
  split; [exact Hl|]. split; [exact Hp|]. apply Hc. vm_compute. reflexivity.
Defined.
