(* ===== verification/StorageRun.v ===== *)
(** * Requests of the file-system module end (src/lib/storage/module.hpp)

    An accepted command is finished after a bounded number of runs of the worker,
    whatever FatFs answers: each run makes one call of the volume, a listing has at
    most 256 entries and a preview at most 4096 bytes. *)

From Stdlib Require Import String.
From S2P Require Import Prelude Foundation Wire Match StateMachine Volume FileTransfer Upload StorageModule StorageLease.

Lemma started_post_machine {S} `{!StateEnum S} (ns : S) mm : started_ (post_machine ns mm) = true.
Proof. unfold post_machine. pose proof (started_pre_machine mm) as H. set (q := pre_machine mm) in *. clearbody q. by destruct (_ && _). Qed.

Section run.
Context {X : Type} (fat_ : FatFs X) (media_ : BlockDevice X).
Abbreviation ff := (lift_fat fat_).
Implicit Types m : StorageModule (X:=X).
Abbreviation step := (StorageModule.Step fat_ media_).
Abbreviation poll := (Poll fat_ media_ Status.ok).

(** A read returns at most what was asked for. *)
Definition reads_bounded : Prop := forall n x, 0 <= n -> let '(_, bytes, _) := f_read fat_ n x in Z.of_nat (length bytes) <= n.

(** ** One run of the worker *)

Lemma then_go_oblivious (op : Volume -> FResult * Volume) s mm m :
  then_go op s (with_machine mm m) = (fst (then_go op s m), with_machine mm (snd (then_go op s m))).
Proof. unfold then_go. cbn. by destruct (op (svolume_ m)). Qed.
Lemma store_Step_oblivious s mm m : step s (with_machine mm m) = (fst (step s m), with_machine mm (snd (step s m))).
Proof.
  destruct s; cbn [StorageModule.Step]; try apply then_go_oblivious.
  - cbn. by destruct (requested_ m).
  - unfold step_list. cbn. destruct (Volume.next ff _) as [[r entry] v]. cbn. destruct (negb _); [done|]. destruct (_ =? 0)%nat; [done|]. by destruct (_ =? _).
  - unfold step_read. cbn. destruct (Volume.read ff _ _) as [[r bytes] v]. cbn. destruct (negb _); [done|]. by destruct (_ =? 0).
  - unfold step_write. cbn. destruct (Volume.write ff _ _) as [[r count] v]. cbn. by destruct (_ && _).
  - cbn. by destruct (requested_ m).
  - cbn. by destruct (requested_ m).
Qed.
Lemma store_OnEnter_oblivious s mm m : OnEnter fat_ s (with_machine mm m) = with_machine mm (OnEnter fat_ s m).
Proof. by destruct s. Qed.

(** The machine between runs. *)
Definition rests m : Prop := ticking_ (smachine_ m) = false /\ (started_ (smachine_ m) = false -> store_state m = StoreState.idle).
Definition advance m : StoreState.State * StorageModule :=
  let '(ns, m') := step (store_state m) m in (ns, if bool_decide (ns = store_state m) then m' else OnEnter fat_ ns m').
Lemma module_tick m : rests m -> exists mm, StorageModule.tick fat_ media_ m = (snd (advance m)) <| smachine_ := mm |> /\
  cs mm = fst (advance m) /\ rests (StorageModule.tick fat_ media_ m).
Proof.
  intros [Ht Hs]. unfold StorageModule.tick, advance. rewrite tick_entry_oblivious; [|apply store_Step_oblivious|apply store_OnEnter_oblivious|exact Ht].
  cbn [machine StorageModule_machine]. assert ((if started_ (smachine_ m) then m else OnEnter fat_ (cs (smachine_ m)) m) = m) as ->.
  { destruct (started_ (smachine_ m)) eqn:E; [done|]. specialize (Hs eq_refl). unfold store_state in Hs. by rewrite Hs. }
  unfold store_state in *. destruct (step (cs (smachine_ m)) m) as [ns m1]. cbn [fst snd]. exists (post_machine ns (smachine_ m)).
  assert (Valid ns = true) as Hv by (by destruct ns). rewrite Hv. cbn [andb].
  split; [destruct (decide (ns = cs (smachine_ m))); [by rewrite !bool_decide_eq_true_2|by rewrite !bool_decide_eq_false_2]|].
  split; [by rewrite cs_post_machine, Hv|].
  split; [apply ticking_post_machine|]. intros Hst. change (started_ (post_machine ns (smachine_ m)) = false) in Hst. by rewrite started_post_machine in Hst.
Qed.

(** ** A request at work *)

Definition at_rest (s : StoreState.State) : bool :=
  match s with StoreState.idle | StoreState.done | StoreState.failed => true | _ => false end.
(** The runs left, at most. *)
Definition runs (s : StoreState.State) m : nat :=
  match s with
  | StoreState.idle | StoreState.done | StoreState.failed => 0
  | StoreState.mount | StoreState.unmount | StoreState.remove | StoreState.close => 1
  | StoreState.sync => 2 | StoreState.write => 3 | StoreState.create => 4
  | StoreState.list => 1 + Z.to_nat (kMaximumEntries - entries_ m) | StoreState.open_directory => 2 + Z.to_nat kMaximumEntries
  | StoreState.read => 2 + Z.to_nat (remaining_ m) | StoreState.open_file => 3 + Z.to_nat (remaining_ m)
  end.
Definition bounded m : Prop := 0 <= remaining_ m <= kMaximumRead.
Definition counting (s : StoreState.State) m : Prop :=
  match s with StoreState.list => 0 <= entries_ m < kMaximumEntries | StoreState.open_directory => entries_ m = 0 | _ => True end.
(** A run of the worker, in a state of a request, ends the request with the
    result that goes with the state or comes closer to its end. *)
Definition ends_or_goes_on (n : nat) (ns : StoreState.State) m : Prop :=
  sbusy m = true /\ requested_ m = false /\ bounded m /\
  (ns = StoreState.done /\ result_ m = FR.OK \/ ns = StoreState.failed /\ result_ m <> FR.OK \/
   at_rest ns = false /\ (runs ns m < n)%nat /\ counting ns m).

Lemma lifted_release_flag v : busy_ (fs_env (release_device (lift_device media_) v)) = busy_ (fs_env v).
Proof. unfold release_device. cbn. by destruct (bd_release media_). Qed.
Lemma mount_flag w v : busy_ (fs_env (snd (Volume.mount ff (lift_device media_) w v))) = busy_ (fs_env v).
Proof.
  unfold Volume.mount. repeat (match goal with |- context [if ?b then (_, v) else _] => destruct b; [done|] end).
  cbn [bd_acquire lift_device]. destruct (bd_acquire media_) as [f|]; [|done]. cbn [fmap option_fmap option_map].
  pose proof (lift1_flag f (fs_env v)) as H. destruct (lift1 f (fs_env v)) as [st e]. cbn [snd] in H. destruct st; try exact H. cbv zeta.
  match goal with |- context [fat (f_mount ff true ?n) ?q] => pose proof (fat_flag (f_mount ff true n) q (lift1_flag _)) as H2; destruct (fat (f_mount ff true n) q) as [r u] end.
  destruct (is_ok r); [exact (eq_trans H2 H)|].
  match goal with |- context [fat (f_mount ff false ?n) ?q] => pose proof (fat_flag (f_mount ff false n) q (lift1_flag _)) as H3; destruct (fat (f_mount ff false n) q) as [r3 u3] end.
  cbn [snd]. rewrite lifted_release_flag. exact (eq_trans H3 (eq_trans H2 H)).
Qed.
Lemma unmount_flag v : busy_ (fs_env (snd (Volume.unmount ff (lift_device media_) v))) = busy_ (fs_env v).
Proof.
  unfold Volume.unmount. destruct (vbusy_ v); [done|]. pose proof (Close_flag fat_ v) as H. destruct (Close ff v) as [r u]. cbn [snd] in H.
  destruct (mounted_ u); [|exact H].
  match goal with |- context [fat (f_mount ff false ?n) ?q] => pose proof (fat_flag (f_mount ff false n) q (lift1_flag _)) as H3; destruct (fat (f_mount ff false n) q) as [r3 u3] end.
  cbn [snd]. rewrite lifted_release_flag. exact (eq_trans H3 H).
Qed.

Lemma then_go_works (op : Volume -> FResult * Volume) next_ n m :
  (forall v, busy_ (fs_env (snd (op v))) = busy_ (fs_env v)) -> sbusy m = true -> requested_ m = false -> bounded m ->
  next_ = StoreState.done \/ at_rest next_ = false /\ (runs next_ m < n)%nat /\ counting next_ m ->
  ends_or_goes_on n (fst (then_go op next_ m)) (snd (then_go op next_ m)).
Proof.
  intros Hop Hb Hr Hbd Hn. unfold then_go. pose proof (Hop (svolume_ m)) as H. destruct (op (svolume_ m)) as [r v]. cbn [fst snd] in *.
  split; [exact (eq_trans H Hb)|]. split; [exact Hr|]. split; [exact Hbd|]. cbn [result_ field_update].
  destruct (is_ok r) eqn:Er.
  - apply bool_decide_eq_true in Er. subst r. destruct Hn as [->|(A & B & C)]; [left; by split|]. right; right. split; [exact A|]. by destruct next_.
  - apply bool_decide_eq_false in Er. right; left. by split.
Qed.

Context (Hreads : reads_bounded).
Lemma read_bounded n v : 0 <= n -> 0 <= Z.of_nat (length (snd (fst (Volume.read ff n v)))) <= n.
Proof.
  intros Hn. unfold Volume.read. repeat (match goal with |- context [if ?b then _ else _] => destruct b; [cbn; lia|] end).
  cbn [f_read lift_fat]. unfold lift1. pose proof (Hreads n (disk (fs_env v)) Hn) as H. destruct (f_read fat_ n _) as [[r bytes] x]. cbn. lia.
Qed.
Lemma list_works m : sbusy m = true -> requested_ m = false -> bounded m -> counting StoreState.list m ->
  ends_or_goes_on (runs StoreState.list m) (fst (step_list fat_ m)) (snd (step_list fat_ m)).
Proof.
  intros Hb Hr Hbd Hc. unfold step_list. pose proof (next_flag fat_ (svolume_ m)) as H. destruct (Volume.next ff (svolume_ m)) as [[r entry] v].
  cbn [snd] in H. pose proof (eq_trans H Hb) as Hv. cbn [result_ field_update]. unfold counting, kMaximumEntries in Hc.
  destruct (is_ok r) eqn:Er; cbn [negb].
  - apply bool_decide_eq_true in Er. subst r. destruct (_ =? 0)%nat.
    { split; [exact Hv|]. split; [exact Hr|]. split; [exact Hbd|]. right; right. split; [done|]. cbn. unfold kMaximumEntries. split; [lia|done]. }
    cbv zeta. assert (u32 (entries_ m + 1) = entries_ m + 1) as Hu by (apply Z.mod_small; lia).
    match goal with |- context [entries_ ?q =? _] => assert (entries_ q = u32 (entries_ m + 1)) as He by done; destruct (entries_ q =? kMaximumEntries) eqn:Ec; rewrite He, Hu in Ec end.
    + split; [exact Hv|]. split; [exact Hr|]. split; [exact Hbd|]. right; right. split; [done|]. cbn. unfold kMaximumEntries. split; [lia|done].
    + split; [exact Hv|]. split; [exact Hr|]. split; [exact Hbd|]. right; right. split; [done|]. cbn. rewrite Hu. unfold kMaximumEntries in *. lia.
  - apply bool_decide_eq_false in Er. split; [exact Hv|]. split; [exact Hr|]. split; [exact Hbd|]. right; left. by split.
Qed.
Lemma read_works m : sbusy m = true -> requested_ m = false -> bounded m ->
  ends_or_goes_on (runs StoreState.read m) (fst (step_read fat_ m)) (snd (step_read fat_ m)).
Proof.
  intros Hb Hr Hbd. unfold step_read. pose proof (read_flag fat_ (Z.min 16 (remaining_ m)) (svolume_ m)) as H.
  assert (0 <= Z.min 16 (remaining_ m)) as Hn by (unfold bounded in Hbd; lia). pose proof (read_bounded _ (svolume_ m) Hn) as Hl.
  destruct (Volume.read ff _ (svolume_ m)) as [[r bytes] v]. cbn [snd fst] in H, Hl. pose proof (eq_trans H Hb) as Hv. cbn [result_ field_update]. unfold bounded, kMaximumRead in *.
  destruct (is_ok r) eqn:Er; cbn [negb].
  - apply bool_decide_eq_true in Er. subst r. cbv zeta.
    assert (u32 (remaining_ m - Z.of_nat (length bytes)) = remaining_ m - Z.of_nat (length bytes)) as Hu by (apply Z.mod_small; lia).
    generalize dependent (Z.of_nat (length bytes)). intros count Hl Hu. unfold ends_or_goes_on, bounded, kMaximumRead.
    destruct (count =? 0) eqn:E0; cbn [orb fst snd remaining_ Bytes log field_update StorageModule_eta].
    + split; [exact Hv|]. split; [exact Hr|]. rewrite Hu. split; [lia|]. right; right. split; [done|]. cbn. split; [lia|done].
    + split; [exact Hv|]. split; [exact Hr|]. rewrite Hu. split; [lia|]. right; right.
      match goal with |- context [if ?b then StoreState.close else _] => destruct b end; (split; [done|]); cbn; (split; [|done]); lia.
  - apply bool_decide_eq_false in Er. split; [exact Hv|]. split; [exact Hr|]. split; [exact Hbd|]. right; left. by split.
Qed.
Lemma write_works m : sbusy m = true -> requested_ m = false -> bounded m ->
  ends_or_goes_on (runs StoreState.write m) (fst (step_write fat_ m)) (snd (step_write fat_ m)).
Proof.
  intros Hb Hr Hbd. unfold step_write. pose proof (write_flag fat_ (take (text_size_ m) (text_ m)) (svolume_ m)) as H.
  destruct (Volume.write ff _ (svolume_ m)) as [[r count] v]. cbn [snd fst] in H. pose proof (eq_trans H Hb) as Hv. cbn [result_ field_update].
  destruct (is_ok r) eqn:Er; cbn [andb].
  - apply bool_decide_eq_true in Er. subst r. destruct (negb _); cbn [result_ field_update fst snd].
    + split; [exact Hv|]. split; [exact Hr|]. split; [exact Hbd|]. right; left. by split.
    + split; [exact Hv|]. split; [exact Hr|]. split; [exact Hbd|]. right; right. split; [done|]. split; [exact (Nat.lt_succ_diag_r 2)|done].
  - cbn [result_ field_update]. rewrite Er. apply bool_decide_eq_false in Er. split; [exact Hv|]. split; [exact Hr|]. split; [exact Hbd|]. right; left. by split.
Qed.

Lemma step_works m : sbusy m = true -> requested_ m = false -> bounded m -> at_rest (store_state m) = false -> counting (store_state m) m ->
  ends_or_goes_on (runs (store_state m) m) (fst (step (store_state m) m)) (snd (step (store_state m) m)).
Proof.
  intros Hb Hr Hbd Ha Hc. pose proof Hbd as Hbd'. unfold bounded, kMaximumRead in Hbd'.
  destruct (store_state m); try done; cbn [StorageModule.Step]; try (by apply list_works); try (by apply read_works); try (by apply write_works);
    apply then_go_works; try done; try (by left); try (right; split; [done|]; cbn; unfold kMaximumEntries; cbn in Hc; by split; [lia|rewrite ?Hc]); intros v.
  - apply mount_flag.
  - apply unmount_flag.
  - apply open_directory_flag.
  - apply open_flag.
  - apply Mutate_flag.
  - apply create_flag.
  - apply sync_flag.
  - apply close_flag.
Qed.

(** A module with a request under way, [n] runs from its end at most. *)
Record working (n : nat) m : Prop := {
  w_rests : rests m;
  w_busy : sbusy m = true;
  w_pending : pending_ m = true;
  w_bounded : bounded m;
  w_state : at_rest (store_state m) = true /\ requested_ m = true /\ (runs (start_state (operation_ m)) m < n)%nat \/
    at_rest (store_state m) = false /\ requested_ m = false /\ (runs (store_state m) m <= n)%nat /\ counting (store_state m) m
}.
(** A module without a request. *)
Record ready m : Prop := {
  rd_rests : rests m;
  rd_busy : sbusy m = false;
  rd_pending : pending_ m = false;
  rd_requested : requested_ m = false;
  rd_bounded : bounded m;
  rd_state : at_rest (store_state m) = true
}.
(** How a request ended, as the module logs it. *)
Definition ended m : Prop :=
  store_state m = StoreState.done /\ result_ m = FR.OK /\ (exists l, last (log_ m) = Some l /\ forall r, l <> LogFailed r) \/
  store_state m = StoreState.failed /\ result_ m <> FR.OK /\ last (log_ m) = Some (LogFailed (result_ m)).

Lemma start_works m : at_rest (store_state m) = true -> requested_ m = true ->
  step (store_state m) m = (start_state (operation_ m), m <| requested_ := false |> <| entries_ := 0 |>).
Proof. intros Ha Hr. destruct (store_state m); try done; cbn; by rewrite Hr. Qed.
Lemma started_at_work op : at_rest (start_state op) = false.
Proof. by destruct op. Qed.
Lemma log_last l m : last (log_ (StorageModule.log l m)) = Some l.
Proof. cbn. apply last_snoc. Qed.
Lemma Finish_outcome m : exists l, last (log_ (StorageModule.Finish m)) = Some l /\ (result_ m = FR.OK -> forall r, l <> LogFailed r) /\ (result_ m <> FR.OK -> l = LogFailed (result_ m)).
Proof.
  unfold StorageModule.Finish. eexists. split; [apply log_last|]. destruct (is_ok (result_ m)) eqn:E.
  - apply bool_decide_eq_true in E. split; [|by rewrite E]. intros _ r. by destruct (operation_ m).
  - apply bool_decide_eq_false in E. by split.
Qed.

Lemma step_pending_oblivious b s m : step s (m <| pending_ := b |>) = (fst (step s m), (snd (step s m)) <| pending_ := b |>).
Proof.
  destruct s; cbn [StorageModule.Step]; try (unfold then_go; cbn; by match goal with |- context [let '(_, _) := ?q in _] => destruct q end).
  - cbn. by destruct (requested_ m).
  - unfold step_list. cbn. destruct (Volume.next ff _) as [[r entry] v]. cbn. destruct (negb _); [done|]. destruct (_ =? 0)%nat; [done|]. by destruct (_ =? _).
  - unfold step_read. cbn. destruct (Volume.read ff _ _) as [[r bytes] v]. cbn. destruct (negb _); [done|]. by destruct (_ =? 0).
  - unfold step_write. cbn. destruct (Volume.write ff _ _) as [[r count] v]. cbn. by destruct (_ && _).
  - cbn. by destruct (requested_ m).
  - cbn. by destruct (requested_ m).
Qed.
Lemma advance_pending b m : advance (m <| pending_ := b |>) = (fst (advance m), (snd (advance m)) <| pending_ := b |>).
Proof.
  unfold advance. change (store_state (m <| pending_ := b |>)) with (store_state m). rewrite step_pending_oblivious.
  destruct (step (store_state m) m) as [ns m1]. cbn [fst snd]. destruct (bool_decide _); [done|]. by destruct ns.
Qed.

(** What a run leaves, before the machine is updated. *)
Definition ran (n : nat) (ns : StoreState.State) m : Prop :=
  requested_ m = false /\ bounded m /\
  (at_rest ns = false /\ sbusy m = true /\ (runs ns m <= n)%nat /\ counting ns m \/
   sbusy m = false /\ (ns = StoreState.done /\ result_ m = FR.OK /\ (exists l, last (log_ m) = Some l /\ forall r, l <> LogFailed r) \/
                       ns = StoreState.failed /\ result_ m <> FR.OK /\ last (log_ m) = Some (LogFailed (result_ m)))).
Lemma enters_done m : sbusy m = true -> requested_ m = false -> bounded m -> result_ m = FR.OK -> forall n, ran n StoreState.done (OnEnter fat_ StoreState.done m).
Proof.
  intros Hb Hr Hbd Hok n. destruct (Finish_outcome m) as (l & Hl & Hg & _). split; [exact Hr|]. split; [exact Hbd|]. right. split; [done|]. left. split; [done|].
  split; [exact Hok|]. exists l. split; [exact Hl|by apply Hg].
Qed.
Lemma enters_failed m : requested_ m = false -> bounded m -> result_ m <> FR.OK -> forall n, ran n StoreState.failed (OnEnter fat_ StoreState.failed m).
Proof.
  intros Hr Hbd Hok n. destruct (Finish_outcome (m <| svolume_ := snd (Volume.close ff (svolume_ m)) |>)) as (l & Hl & _ & Hg).
  split; [exact Hr|]. split; [exact Hbd|]. right. split; [done|]. right. split; [done|]. split; [exact Hok|]. rewrite (Hg Hok) in Hl. exact Hl.
Qed.
Lemma enter_at_work ns m : at_rest ns = false -> OnEnter fat_ ns m = m.
Proof. by destruct ns. Qed.
Lemma advance_works n m : working (S n) m -> ran n (fst (advance m)) (snd (advance m)).
Proof.
  intros [Hrs Hb Hp Hbd [(Ha & Hr & Hn)|(Ha & Hr & Hn & Hc)]]; unfold advance.
  - rewrite start_works by done. cbn [fst snd]. rewrite bool_decide_eq_false_2 by (intros E; rewrite <- E, started_at_work in Ha; done).
    rewrite enter_at_work by apply started_at_work. split; [done|]. split; [exact Hbd|]. left. split; [apply started_at_work|]. split; [exact Hb|].
    revert Hn. destruct (operation_ m); cbn; unfold kMaximumEntries; (split; [lia|done]).
  - pose proof (step_works m Hb Hr Hbd Ha Hc) as (Gb & Gr & Gbd & Hns). destruct (step (store_state m) m) as [ns m1]. cbn [fst snd] in *.
    destruct Hns as [[-> Hok]|[[-> Hok]|(Hna & Hlt & Hct)]].
    + rewrite bool_decide_eq_false_2 by (intros E; by rewrite <- E in Ha). by apply enters_done.
    + rewrite bool_decide_eq_false_2 by (intros E; by rewrite <- E in Ha). by apply enters_failed.
    + assert ((if bool_decide (ns = store_state m) then m1 else OnEnter fat_ ns m1) = m1) as -> by (rewrite enter_at_work by done; by destruct (bool_decide _)).
      split; [done|]. split; [done|]. left. split; [done|]. split; [done|]. split; [lia|done].
Qed.
Lemma Poll_works n m : working (S n) m -> working n (poll m) \/ ready (poll m) /\ ended (poll m).
Proof.
  intros Hw. unfold Poll. set (m0 := m <| pending_ := false |>). assert (ran n (fst (advance m0)) (snd (advance m0))) as Hran.
  { assert (advance m0 = (fst (advance m), (snd (advance m)) <| pending_ := false |>)) as ->; [|exact (advance_works n m Hw)].
    apply advance_pending. }
  assert (rests m0) as Hrs by exact (w_rests _ _ Hw). pose proof (tick_pending fat_ media_ m0) as Hp. destruct (module_tick m0 Hrs) as (mm & Et & Hcs & Hrest).
  rewrite Et in *. destruct (advance m0) as [ns m1]. cbn [fst snd] in *. destruct Hran as (Hr & Hbd & [(Ha & Hb & Hn & Hc)|(Hb & Hend)]).
  - left. change (sbusy (m1 <| smachine_ := mm |>)) with (sbusy m1). rewrite Hb. cbn. subst ns. split; try done. right. by split_and!.
  - right. change (sbusy (m1 <| smachine_ := mm |>)) with (sbusy m1). rewrite Hb. subst ns. split; [|exact Hend].
    split; try done. destruct Hend as [[E _]|[E _]]; unfold store_state; cbn; by rewrite E.
Qed.

(** ** From a command to its end *)

Lemma working_ends n m : working n m -> exists k, (k <= n)%nat /\ (forall j, (j < k)%nat -> sbusy (Nat.iter j poll m) = true) /\
  ready (Nat.iter k poll m) /\ ended (Nat.iter k poll m).
Proof.
  revert m. induction n as [|n IH]; intros m Hw.
  { destruct (w_state _ _ Hw) as [(_ & _ & Hn)|(Ha & _ & Hn & _)]; [lia|]. destruct (store_state m); try done; cbn in Hn; lia. }
  destruct (Poll_works n m Hw) as [Hw2|[Hr He]].
  - destruct (IH _ Hw2) as (k & Hk & Hj & Hr & He). exists (S k). split; [lia|]. rewrite Nat.iter_succ_r. split; [|by split].
    intros [|j] Hlt; [exact (w_busy _ _ Hw)|]. rewrite Nat.iter_succ_r. apply Hj. lia.
  - exists 1%nat. split; [lia|]. split; [|by split]. intros j Hlt. assert (j = 0%nat) as -> by lia. exact (w_busy _ _ Hw).
Qed.

(** The most runs a request takes. *)
Definition kMaximumRuns : nat := 4100.
Lemma start_runs m : bounded m -> (runs (start_state (operation_ m)) m < kMaximumRuns)%nat.
Proof. unfold bounded, kMaximumRead, kMaximumRuns. intros Hb. destruct (operation_ m); cbn; unfold kMaximumEntries; lia. Qed.
Definition answers (m' : Status * StorageModule) : Prop :=
  (fst m' <> Status.ok -> ready (snd m')) /\ (fst m' = Status.ok -> working kMaximumRuns (snd m')).
Lemma Submit_answers scheduled op path m : ready m -> answers (Submit scheduled op path m).
Proof.
  intros Hm. pose proof Hm as [Hrs Hb Hp Hr Hbd Hs]. unfold Submit. rewrite Hb. match goal with |- context [if ?b then (Status.invalid_argument, _) else _] => destruct b end; [by split|].
  cbv zeta. destruct (scheduled =s? Status.ok) eqn:E; (split; [intros Hne|intros He]); cbn [fst snd] in *.
  - apply bool_decide_eq_true in E. done.
  - split; try done. left. split; [exact Hs|]. split; [done|]. match goal with |- (runs _ ?q < _)%nat => exact (start_runs q Hbd) end.
  - split; done.
  - by subst.
Qed.
(** The byte count of a [read] command is unsigned. *)
Definition command_ok (c : Command) : Prop := match c with CRead _ _ (Some n) => 0 <= n | _ => True end.
Lemma ready_update m m' : ready m -> smachine_ m' = smachine_ m -> svolume_ m' = svolume_ m -> pending_ m' = pending_ m -> requested_ m' = requested_ m ->
  bounded m' -> ready m'.
Proof. intros [Hrs Hb Hp Hr Hbd Hs] E1 E2 E3 E4 Hbd'. split; unfold rests, sbusy, store_state in *; by rewrite ?E1, ?E2, ?E3, ?E4. Qed.
Lemma command_answers scheduled c m : command_ok c -> ready m -> answers (run_command scheduled c m).
Proof.
  intros Hc Hm. pose proof (rd_busy _ Hm) as Hb. pose proof (rd_bounded _ Hm) as Hbd.
  destruct c; cbn [run_command]; unfold Mount, Create, Remove, Unmount, ListFiles, ReadFile; rewrite ?Hb; try (by apply Submit_answers).
  - apply Submit_answers. by apply (ready_update m).
  - destruct (_ <? _)%nat; [by split|]. apply Submit_answers. by apply (ready_update m).
  - match goal with |- context [if ?b then _ else _] => destruct b eqn:E end; [by split|]. apply Submit_answers. apply (ready_update m); try done.
    unfold bounded, kMaximumRead, kDefaultRead in *. cbn. destruct count as [n|]; cbn in *; lia.
Qed.

(** C22: A command that the module accepts ends after at most 4100 runs of the
    worker, whatever FatFs and the device answer, as long as a read returns no
    more bytes than asked for and the scheduler runs the worker again: the module
    is busy until then, and then free for the next command, in the state done with
    the result OK or in the state failed with the error, which it has logged.  A
    command that is refused leaves the module free as it was. *)
Theorem command_ends scheduled c m : command_ok c -> ready m ->
  let '(status, m') := run_command scheduled c m in
  if status =s? Status.ok then
    exists k, (k <= kMaximumRuns)%nat /\ (forall j, (j < k)%nat -> sbusy (Nat.iter j poll m') = true) /\ ready (Nat.iter k poll m') /\ ended (Nat.iter k poll m')
  else ready m'.
Proof.
  intros Hc Hm. pose proof (command_answers scheduled c m Hc Hm) as [A B]. destruct (run_command scheduled c m) as [status m']. cbn [fst snd] in *.
  destruct (status =s? Status.ok) eqn:E; [|apply A; intros ->; by cbn in E]. apply bool_decide_eq_true in E. by apply working_ends, B.
Qed.
End run.

(** ** A file is listed and read *)

Lemma new_storage_ready {X} (v : Volume (E:=StoreEnv X)) : busy_ (fs_env v) = false -> ready (new_storage v).
Proof. intros Hb. by split. Qed.
Lemma disk_reads_bounded : reads_bounded disk_fat.
Proof. intros n x Hn. exact Hn. Qed.
Abbreviation store_poll := (Poll disk_fat store_media Status.ok).
Definition created : StorageModule := snd (run_command Status.ok (CCreate [97] [7; 9]) (new_storage store_volume)).
Lemma command_ends_witness :
  (exists k, (k <= kMaximumRuns)%nat /\ (forall j, (j < k)%nat -> sbusy (Nat.iter j store_poll created) = true) /\
    ready (Nat.iter k store_poll created) /\ ended (Nat.iter k store_poll created)) /\
  log_ (Nat.iter 5 store_poll created) = [LogComplete] /\
  disk_files (disk (fs_env (svolume_ (Nat.iter 5 store_poll created)))) !! [48; 58; 47; 97] = Some [7; 9].
Proof.
  split; [|split; vm_compute; reflexivity].
  exact (command_ends disk_fat store_media disk_reads_bounded Status.ok (CCreate [97] [7; 9]) (new_storage store_volume) I (new_storage_ready store_volume eq_refl)).
Defined.

(** A run that cannot be repeated abandons its request but leaves the state
    machine where it is: the next command, [rm], makes the [mount] that was
    abandoned, is logged as complete, and the file is still there. *)
Definition unmounted_volume : Volume :=
  mkVolume [true] [true] 0 true false false false false false (mkStoreEnv false (mkDisk (<[[48; 58; 47; 97] := [7; 9]]> empty) None)).
Definition abandoned : StorageModule :=
  Poll disk_fat store_media Status.full (snd (run_command Status.ok (CMount (Some true)) (new_storage unmounted_volume))).
Lemma abandoned_request_runs :
  sbusy abandoned = false /\ fst (run_command Status.ok (CRemove [97]) abandoned) = Status.ok /\
  let m := store_poll (snd (run_command Status.ok (CRemove [97]) abandoned)) in
  sbusy m = false /\ log_ m = [LogComplete] /\ mounted_ (svolume_ m) = true /\ requested_ m = true /\
  disk_files (disk (fs_env (svolume_ m))) !! [48; 58; 47; 97] = Some [7; 9].
Proof. vm_compute. split_and!; reflexivity. Qed.
